(* ===== verification/_CoqProject ===== *)
-Q . S2P
Prelude.v
Logger.v
Ashmem.v
Wakelock.v
EarlySuspend.v
RamConsole.v
LowMem.v
Dpm.v
DpmSuspend.v
DpmResume.v
Freezer.v
Suspend.v
DpmCycle.v
Crc32.v
Kfifo.v
RbTree.v
BinderAlloc.v
BinderInv.v
BinderCorrect.v
KeyTree.v
UserWakelock.v
BinderRefs.v
BinderRefsInv.v
BinderRefsCorrect.v
BinderRefsSafe.v
BinderRelease.v
BinderWorld.v
BinderThreads.v
BinderStacks.v
BinderCallsInv.v
BinderCallsSafe.v
BinderCallsEnd.v
BinderCallsSend.v
BinderCallsRead.v
BinderCalls.v
BinderReplies.v
BinderPool.v
BinderFds.v
BinderObjects.v
BinderFrames.v
BinderTransfer.v
