(* ===== verification/Prelude.v ===== *)
(** * Android components of the Dell Streak kernel: a verification library

    The program is Linux 2.6.35.7 with the Android patches for the Dell
    Streak 5 (Qualcomm QSD8x50, 32-bit little-endian ARM).  The library models
    the parts of it that implement Android's kernel services and the data
    structures these are built on, and proves what makes them correct.

    ** Parts, files and what corresponds to what

    - Prelude.v (this file): 32-bit arithmetic ([u32], [s32], the operators
      with subscript u), memory as a list of bytes with [mem_read] and
      [mem_write], ring buffers, copies to and from user memory that may stop
      at a fault, error numbers, the hint database [kernel] and tactics.
    - Logger.v, drivers/staging/android/logger.c: the log devices.
      [logger_log] is struct logger_log with its readers; one definition per
      function (logger_read, logger_aio_write, logger_poll, logger_ioctl,
      logger_open, logger_release and their helpers).
    - Ashmem.v, mm/ashmem.c: anonymous shared memory.  [ashmem] is the store of
      areas, unpinned ranges and the LRU list; every file operation, ioctl and
      the shrinker is a definition.
    - Wakelock.v, kernel/power/wakelock.c: wake locks, their lists, the expiry
      timer, the suspend work, statistics.
    - EarlySuspend.v, kernel/power/earlysuspend.c: the handlers and the two
      work items as a step relation in which callbacks, requests and the
      worker interleave, composed with Wakelock.v through the main wake lock.
    - UserWakelock.v, kernel/power/userwakelock.c: the wake locks of user
      space, that is the files wake_lock and wake_unlock.  [users] is the tree
      of locks by name, over RbTree.v and Wakelock.v; the number and string
      routines of lib/vsprintf.c and lib/string.c it parses with are
      definitions too.
    - RamConsole.v, drivers/staging/android/ram_console.c: the log in reserved
      memory.  [ram_console_buffer] is the memory, [console] the variables of
      the driver; one definition per function, and [write_stores] has the
      stores of a write one by one.
    - LowMem.v, drivers/staging/android/lowmemorykiller.c: the low memory
      killer.  [lowmem] has the processes, the pending death, the chain of
      notifiers of kernel/notifier.c and the work item; lowmem_shrink() is
      [shrink_check], [walk] and [shrink_kill], between which others run.
    - Dpm.v, drivers/base/power/main.c: the list of devices, the callbacks of
      a device and the phases of suspend and resume that run one device after
      the other.  DpmSuspend.v and DpmResume.v have dpm_suspend() and
      dpm_resume() as step functions over the main thread and the asynchronous
      calls of kernel/async.c, DpmCycle.v puts the phases together.
    - Freezer.v, kernel/freezer.c and kernel/power/process.c: stopping all
      tasks and letting them go on.  [task] has the flags of a task and its
      place in refrigerator(), [pc] the place of the thread that walks along
      the tasks; [task_step] and [main_step] are their steps.
    - Suspend.v, kernel/power/suspend.c: the way into a sleep state and back,
      enter_state() and what it calls.  [machine] tells what is stopped.  The
      devices are used through the class [DevicePm], which DpmCycle.v
      implements.
    - Crc32.v, lib/crc32.c and lib/gen_crc32table.c: checksums with tables, the
      generator of the tables, and the versions that go bit by bit.
    - Kfifo.v, kernel/kfifo.c and include/linux/kfifo.h: byte and record FIFOs.
    - RbTree.v, lib/rbtree.c: red-black trees.  A position in a tree is the
      subtree and the path to the root, which stands for the parent pointers.
    - BinderAlloc.v, BinderInv.v, BinderCorrect.v,
      drivers/staging/android/binder.c: the buffer allocator of the binder
      driver.  BinderAlloc.v has the code (binder_mmap, binder_alloc_buf,
      binder_free_buf, binder_buffer_lookup and what they call) over the
      trees of RbTree.v, BinderInv.v the invariant and the steps of an
      allocation, BinderCorrect.v release, mapping and the theorems.
    - KeyTree.v: the red-black trees of RbTree.v ordered by a key, as the code
      that walks them with a comparison keeps them.  The order of the keys is
      the class [KeyOrder]; the binder driver has numbers as keys, the wake
      locks of user space names.
    - BinderRefs.v, the same driver: nodes, references, death notifications,
      the context manager and the end of a process.  [binder] is the store of
      the structures and of the work lists they are on; one definition per
      function (binder_get_ref_for_node, binder_inc_ref, binder_dec_node,
      binder_delete_ref, ...), per command of binder_thread_write() ([bc_refs],
      [bc_done], [bc_request_death], ...), per kind of work of
      binder_thread_read() ([work_node], [work_death]) and for
      binder_deferred_release().  BinderRefsInv.v has the invariant,
      BinderRefsCorrect.v the operations on references and new nodes,
      BinderRefsSafe.v the commands, BinderRelease.v the end of a process, and
      BinderWorld.v all operations as one transition system and the theorems.
    - BinderThreads.v, the same driver: threads and transactions.  [binder] is
      the store of threads, transactions, buffers and processes with the work
      lists; binder_transaction() is [route_reply] or [route_call] followed by
      [transaction_body] and [transaction_send], binder_thread_read() is
      [read_start], [read_wake], [read_next] and [read_done], and the rest is
      one definition per function or command ([bc_free_buffer],
      [bc_register_looper], binder_free_thread, binder_deferred_flush, ...).
      BinderStacks.v and BinderCallsInv.v have the invariant of the
      transaction stacks, BinderCallsSafe.v, BinderCallsEnd.v,
      BinderCallsSend.v and BinderCallsRead.v that the operations keep it,
      BinderCalls.v the transition system and its theorems, BinderReplies.v
      replies, BinderPool.v the thread pool.
    - BinderObjects.v, the same driver: the nodes, handles and file
      descriptors in the data of a transaction, how binder_transaction()
      translates them ([translate]) and how binder_transaction_buffer_release()
      gives back what that took.  [world] is the store of BinderRefs.v with
      the file tables of BinderFds.v, which has task_get_unused_fd_flags(),
      task_fd_install() and task_close_fd() over fs/file.c.  BinderFrames.v
      says what the operations of BinderRefs.v leave alone, BinderTransfer.v
      has the theorems.

    How they interact: earlysuspend.c and the wake locks of user space take
    and release wake locks, the latter found in a red-black tree; the wake
    locks decide when the suspend work runs; suspending the system freezes
    the tasks and suspends and resumes the devices in between; the binder allocator keeps its
    buffers in two red-black trees, and a binder process its nodes in one and
    its references in two; a transaction takes holds on nodes, references and
    file descriptors and its buffer keeps them.

    ** Conventions

    Stateful code is a function from the state to an option of the new state
    and the result.  [None] is what the kernel must not do: BUG(), a NULL or
    out-of-range access, a header on a page that is not mapped.  A theorem that
    an operation gives [Some] says that none of this happens.  Errors the code
    returns are negative numbers or NULL in the result, as in the source.
    Code outside these files is an argument: what shmem_file_setup(),
    alloc_page(), get_vm_area() or the copies to user memory do, and the time.

    ** Theorems

    - Logger: reads, writes, opens and ioctls refine an abstract log with one
      queue of pending entries per reader; the reachable states are safe; the
      search for the next entry ends.  A race in the offset restored after a
      faulting write is proved.
    - Ashmem: pin, unpin, pin status and reclaim as operations on sets of
      pages; the invariant of all reachable states; the protection of mappings;
      an empty range misreported is proved.
    - Wake locks: the invariant of all reachable states, what each operation
      does, that the expiry timer leads to suspension and that the system
      suspends only with no lock held.
    - Early suspend: in every interleaving the main lock is released only when
      all handlers are suspended, a quiet system has carried out the last
      request, and the system sleeps only then.
    - User-space wake locks: whatever is written to the files, the operations
      return and a name has one lock; what writing a name and a timeout does,
      and what reading shows.
    - RAM console: the text written is read back after a restart, for any
      memory contents at the first start; the probe stays inside the memory;
      what a reset after each store of a write leaves.
    - Low memory killer: which process is killed and when; at most one is
      dying at a time, provided the address of a freed task is not used again
      too soon, and what happens otherwise.
    - Devices: in every interleaving parents are suspended after their
      children and resumed before them, a failure is reported, the list keeps
      its order, and both directions terminate.  Races of the asynchronous
      calls and a deadlock are proved.
    - Freezer: when freezing succeeds every task that is to be frozen is in the
      refrigerator or follows the request before it goes on; after thawing
      none is frozen or asked to and none sleeps on for a lost wake-up.
    - Suspend: whatever fails, the system comes back to where it was, the
      platform is called as documented, and it enters the sleep state only
      with everything stopped; proved against the interface of the devices
      and instantiated with them.  A lost error and a leaked count are proved.
    - Checksums: the versions with tables equal those that go bit by bit.
    - FIFOs: refinement of a bounded queue at any counter values, records, and
      safety of one reader and one writer without a lock.
    - Red-black trees: insertion, removal and traversal with the colour rules
      and the in-order sequence.
    - Binder allocator: the list, the headers, the two trees, the backed pages
      and the asynchronous space stay consistent; an allocation is best fit
      and a failed one changes nothing; a release merges and gives back
      exactly the pages not needed any more; lookups are exact; mapping
      establishes the invariant.
    - Binder nodes and references: in every reachable state no operation hits
      a BUG(), corrupts a list or uses freed memory, counts are the numbers of
      what they count and descriptors are unique; a new reference gets the
      smallest descriptor; a node is freed only when nothing refers to it or
      holds it; its owner is told what changed in the order of the protocol;
      the end of a process leaves nothing that names it and queues every death
      notification asked for.
    - Binder threads and transactions: in every state that calls, replies,
      asynchronous transactions, reads, exits and releases reach, every pointer
      is to a living object of its kind, no BUG() or use of freed memory
      happens and no call is lost, provided no call is routed to the thread
      that sends it, and a BUG() is proved reachable without that; a reply ends
      the call both threads are in, a thread that goes leaves its caller a dead
      reply, and the counters of the thread pool are right.
    - Binder objects: what the receiver gets denotes what the sender sent, and
      a failed transfer or the release of the buffer gives back what was taken;
      that a weak reference can be sent as a strong handle is proved.

    ** Bounds and fuel

    Loops over lists and trees are structural.  Where the source loops on a
    condition, the fuel is one the code cannot exceed and a lemma says so: the
    bytes to skip for get_next_entry(), the number of ranges of an area for
    ashmem_unpin(), the depth of the tree for the rounds of rb_erase(), the
    number of pages of a range for binder_update_page_range(), four for the
    cache colours of binder_mmap(), the number of references of a process for
    the search for a descriptor, the number of nodes, references or list
    entries for the loops of binder_deferred_release(), the number of
    transactions for the walks along the stacks, two rounds for
    task_get_unused_fd_flags(), which expands the table at most once, three
    bytes up to a multiple of four for crc32_body(), nine rounds for the rows of
    its tables.  dpm_suspend() takes at most five steps for each device and two
    more, dpm_resume() nine and four.
    Counts of binder references are assumed below their maximum where they are
    incremented, and there are at most 10^9 references and holds on a node.
    Integers keep their 32 bits wherever an operation may wrap.

    ** Not modelled

    Of the binder driver: priorities, wake-ups, polling, the copying of
    commands from and to user memory, statistics and debugfs.  References,
    threads and buffers are separate stores; BinderThreads.v takes the outcome
    of a transfer of objects as a parameter.  The other Android drivers of the
    directory (modem logger, timed outputs); devices that are added or removed
    while the system suspends and the watchdog of their callbacks; tasks that
    are created while others are frozen, and control groups that freeze tasks;
    the freezer is a flag with an error in Suspend.v; hibernation; error correction
    and early initialisation of the RAM console, which the device does not use;
    the augmented red-black trees; debug output and procfs formatting other
    than the wake lock statistics; hardware drivers,
    architecture code, memory management, scheduling, file systems and
    networking, which are called through parameters or not at all.  Mutexes
    and spin locks are in the granularity of the steps: what a lock protects
    is one step, what runs outside it interleaves. *)


From stdpp Require Export base list numbers gmap.
From stdpp Require Import sorting.

(** * Machine integers

    The target is 32-bit ARM: [size_t], [unsigned long], [unsigned int] and
    pointers are 32 bits wide, [long] and [int] are 32-bit two's complement.
    A value of such a type is a [Z]; an operation that may leave the range is
    followed by the wrap-around written here. *)

Declare Scope kernel_scope.
Delimit Scope kernel_scope with K.

Local Open Scope Z_scope.

Definition u32 (x : Z) : Z := x mod 4294967296.

(** Reinterpretation of a 32-bit pattern as a signed [int]/[long]. *)
Definition s32 (x : Z) : Z := (x + 2147483648) mod 4294967296 - 2147483648.

Notation "x +ᵤ y" := (u32 (x + y)) (at level 50, left associativity) : kernel_scope.
Notation "x -ᵤ y" := (u32 (x - y)) (at level 50, left associativity) : kernel_scope.
Notation "x &ᵤ y" := (Z.land x y) (at level 40, left associativity) : kernel_scope.
Notation "x |ᵤ y" := (Z.lor x y) (at level 45, left associativity) : kernel_scope.

Create HintDb kernel.

Lemma u32_small (x : Z) : 0 <= x < 4294967296 -> u32 x = x.
Proof. intros. unfold u32. apply Z.mod_small. lia. Qed.

Lemma u32_range (x : Z) : 0 <= u32 x < 4294967296.
Proof. unfold u32. apply Z.mod_pos_bound. lia. Qed.

Lemma u32_idem_sub (x y : Z) : u32 (u32 x - y) = u32 (x - y).
Proof. unfold u32. by rewrite Zminus_mod_idemp_l. Qed.
Lemma u32_idem_sub_r (x y : Z) : u32 (x - u32 y) = u32 (x - y).
Proof. unfold u32. by rewrite Zminus_mod_idemp_r. Qed.
Lemma u32_idem_add (x y : Z) : u32 (u32 x + y) = u32 (x + y).
Proof. unfold u32. by rewrite Zplus_mod_idemp_l. Qed.

Lemma s32_small (x : Z) : -2147483648 <= x < 2147483648 -> s32 x = x.
Proof. intros. unfold s32. rewrite Z.mod_small; lia. Qed.

Lemma s32_range (x : Z) : -2147483648 <= s32 x < 2147483648.
Proof. unfold s32. pose proof (Z.mod_pos_bound (x + 2147483648) 4294967296). lia. Qed.

Lemma s32_u32 (x : Z) : s32 (u32 x) = s32 x.
Proof. unfold s32, u32. rewrite Zplus_mod_idemp_l. done. Qed.

Lemma u32_s32 (x : Z) : u32 (s32 x) = u32 x.
Proof. unfold u32, s32. rewrite Zminus_mod_idemp_l. f_equal. lia. Qed.

Lemma s32_u32_sub (x y : Z) : s32 (u32 x - y) = s32 (x - y).
Proof.
  unfold s32, u32. f_equal.
  replace (x mod 4294967296 - y + 2147483648) with (x mod 4294967296 + (2147483648 - y)) by lia.
  rewrite Zplus_mod_idemp_l. f_equal. lia.
Qed.

Lemma s32_sub_u32 (x y : Z) : s32 (x - u32 y) = s32 (x - y).
Proof.
  unfold s32, u32. f_equal.
  replace (x - y mod 4294967296 + 2147483648) with (x + 2147483648 - y mod 4294967296) by lia.
  rewrite Zminus_mod_idemp_r. f_equal. lia.
Qed.

(** Signed differences, the idiom of time_after(), while no half range is
    crossed. *)
Lemma s32_sub_small (x d : Z) : -2147483648 <= s32 x - d < 2147483648 -> s32 (x - d) = s32 x - d.
Proof.
  unfold s32. intros H. replace (x - d + 2147483648) with (x + 2147483648 - d) by lia.
  rewrite <- (Zminus_mod_idemp_l (x + 2147483648) d), (Z.mod_small (_ - d)); lia.
Qed.

(** [x & (2^k - 1)], the index of a position in a power-of-two ring. *)
Lemma land_mask (x k : Z) : 0 <= k -> Z.land x (2 ^ k - 1) = x mod 2 ^ k.
Proof. intros. rewrite Z.sub_1_r, <- Z.ones_equiv. by apply Z.land_ones. Qed.

Lemma u32_mod_pow2 (x k : Z) : 0 <= k <= 32 -> u32 x mod 2 ^ k = x mod 2 ^ k.
Proof.
  intros. unfold u32. change 4294967296 with (2 ^ 32).
  replace 32 with (k + (32 - k)) by lia. rewrite Z.pow_add_r by lia.
  pose proof (Z.pow_pos_nonneg 2 k). pose proof (Z.pow_pos_nonneg 2 (32 - k)).
  rewrite Z.rem_mul_r by lia. rewrite Z.mul_comm, Z_mod_plus_full. apply Z.mod_mod. lia.
Qed.

(** [x & ~(2^k - 1)]: rounding down to a multiple of [2^k]. *)
Lemma land_clear_low (x k : Z) :
  0 <= k <= 32 -> 0 <= x < 4294967296 -> Z.land x (Z.shiftl (Z.ones (32 - k)) k) = x / 2 ^ k * 2 ^ k.
Proof.
  intros Hk Hx. rewrite <- Z.shiftr_div_pow2, <- Z.shiftl_mul_pow2 by lia.
  apply Z.bits_inj'. intros n Hn. rewrite Z.land_spec, !Z.shiftl_spec by lia.
  destruct (Z.lt_ge_cases n k).
  - by rewrite !(Z.testbit_neg_r _ (n - k)), andb_false_r by lia.
  - rewrite Z.shiftr_spec by lia. replace (n - k + k) with n by lia.
    destruct (Z.lt_ge_cases n 32).
    + by rewrite Z.ones_spec_low, andb_true_r by lia.
    + rewrite Z.ones_spec_high, andb_false_r by lia. symmetry. apply Z.bits_above_log2; [lia|].
      destruct (decide (x = 0)) as [-> |]; [simpl; lia|].
      apply Z.log2_lt_pow2; [lia|]. pose proof (Z.pow_le_mono_r 2 32 n). lia.
Qed.

(** Putting a field above the low [k] bits. *)
Lemma lor_shifted (a b k : Z) : 0 <= k -> 0 <= a < 2 ^ k -> Z.lor a (Z.shiftl b k) = a + b * 2 ^ k.
Proof.
  intros Hk Ha. rewrite Z.shiftl_mul_pow2 by done.
  assert (H : Z.land a (b * 2 ^ k) = 0).
  { apply Z.bits_inj'. intros n Hn. rewrite Z.land_spec, Z.bits_0.
    destruct (Z.lt_ge_cases n k).
    - by rewrite Z.mul_pow2_bits_low, andb_false_r by lia.
    - rewrite <- (Z.mod_small a (2 ^ k)) by lia. by rewrite Z.mod_pow2_bits_high by lia. }
  by rewrite <- Z.lxor_lor, <- Z.add_nocarry_lxor by done.
Qed.

#[export] Hint Resolve u32_range s32_range : kernel.

(** [u32_simpl] removes wrap-arounds whose argument [lia] can bound. *)
Ltac u32_simpl :=
  repeat match goal with
  | |- context [u32 ?x] => rewrite (u32_small x) by lia
  | H : context [u32 ?x] |- _ => rewrite (u32_small x) in H by lia
  end.

(** * Lists *)

Lemma Forall2_impl_r {A B} (R S : A -> B -> Prop) (P : B -> Prop) (l : list A) (k : list B) :
  Forall2 R l k -> Forall P k -> (forall x y, R x y -> P y -> S x y) -> Forall2 S l k.
Proof. intros HR HP HS. induction HR; inversion HP; subst; constructor; auto. Qed.

Lemma list_filter_none {A} (P : A -> Prop) `{!forall x, Decision (P x)} (l : list A) :
  (forall x, x ∈ l -> ~ P x) -> filter P l = [].
Proof.
  intros Hno. destruct (filter P l) as [|x k] eqn:E; [done|]. exfalso.
  assert (Hx : x ∈ filter P l) by (rewrite E; by left).
  apply list_elem_of_filter in Hx as [Hp Hl]. by apply (Hno x).
Qed.

Lemma list_filter_all {A} (P : A -> Prop) `{!forall x, Decision (P x)} (l : list A) :
  (forall x, x ∈ l -> P x) -> filter P l = l.
Proof.
  induction l as [|x l IH]; intros Ha; [done|]. rewrite filter_cons_True by (apply Ha; by left). f_equal. apply IH.
  intros y Hy. apply Ha. by right.
Qed.

Lemma StronglySorted_filter {A} (R : A -> A -> Prop) (P : A -> Prop) `{!forall x, Decision (P x)} (l : list A) :
  StronglySorted R l -> StronglySorted R (filter P l).
Proof.
  induction 1 as [|x l Hl IH Hx]; [constructor|]. rewrite filter_cons. case_decide; [|done].
  constructor; [done|]. apply Forall_forall. intros y [_ Hy]%list_elem_of_filter.
  by apply (proj1 (Forall_forall _ _) Hx).
Qed.

(** An element of a list without duplicates has one place. *)
Lemma NoDup_middle_eq {A} (x : A) (a a' b b' : list A) :
  NoDup (a ++ x :: b) -> a ++ x :: b = a' ++ x :: b' -> a = a' /\ b = b'.
Proof.
  revert a'. induction a as [|y a IH]; intros [|z a'] Hnd E; simpl in *; simplify_eq; [done|..].
  - apply NoDup_cons in Hnd as [Hx _]. destruct Hx. apply elem_of_app. right. by left.
  - apply NoDup_cons in Hnd as [Hx _]. destruct Hx. apply elem_of_app. right. by left.
  - apply NoDup_cons in Hnd as [_ Hnd]. by destruct (IH a' Hnd) as [-> ->].
Qed.

(** ** struct list_head

    A list of objects linked by their list_head is the list of their
    addresses. *)

Definition list_del (p : Z) (l : list Z) : list Z := filter (fun q => q <> p) l.

Lemma elem_list_del p q l : q ∈ list_del p l <-> q ∈ l /\ q <> p.
Proof. unfold list_del. rewrite list_elem_of_filter. tauto. Qed.

Lemma list_del_notin p l : p ∉ l -> list_del p l = l.
Proof.
  induction l as [|q l IH]; intros Hp; [done|]. unfold list_del. rewrite filter_cons.
  apply not_elem_of_cons in Hp as [? ?]. rewrite decide_True by done.
  f_equal. by apply IH.
Qed.

Lemma list_del_middle p l1 l2 : p ∉ l1 -> p ∉ l2 -> list_del p (l1 ++ p :: l2) = l1 ++ l2.
Proof.
  intros H1 H2. unfold list_del. rewrite filter_app, filter_cons.
  rewrite decide_False by (intros ?; done).
  fold (list_del p l1). fold (list_del p l2). by rewrite !list_del_notin.
Qed.

Lemma list_del_nodup p l1 l2 : NoDup (l1 ++ p :: l2) -> list_del p (l1 ++ p :: l2) = l1 ++ l2.
Proof.
  intros (_ & H1 & H2)%NoDup_app. apply NoDup_cons in H2 as [H2 _].
  apply list_del_middle; [|done]. intros Hin. apply (H1 p Hin). by left.
Qed.

Lemma list_del_app p l1 l2 : list_del p (l1 ++ l2) = list_del p l1 ++ list_del p l2.
Proof. apply filter_app. Qed.

(** * Bytes and memory blocks

    A block of kernel memory is the list of its bytes.  Reading or writing
    outside a block is undefined in C; in the model it is [None], the value
    that also stands for a [BUG()].  A theorem that an operation returns
    [Some _] therefore shows that it stays within its buffers. *)

Abbreviation Zlen l := (Z.of_nat (length l)).

Definition BUG_ON (c : bool) : option unit := if c then None else Some tt.

(** Follows an operation of the option monad that succeeds. *)
Ltac follow :=
  repeat match goal with
  | H : None = Some _ |- _ => discriminate H
  | H : Some (_, _) = Some (_, _) |- _ => injection H; clear H; intros; subst
  | H : Some (if ?e then _ else _) = Some _ |- _ => destruct e eqn:?
  | H : Some _ = Some _ |- _ => injection H as <-
  | H : (_, _) = (_, _) |- _ => injection H as <- <-
  | H : mbind _ _ = Some _ |- _ => apply bind_Some in H as (? & ? & H)
  | H : fmap _ _ = Some _ |- _ => apply fmap_Some in H as (? & ? & ?)
  | H : (let '(_, _) := ?e in _) = Some _ |- _ => destruct e
  | H : match ?e with _ => _ end = Some _ |- _ => destruct e eqn:?
  end.

Definition mem_read (m : list Z) (off n : Z) : option (list Z) :=
  if bool_decide (0 <= off /\ 0 <= n /\ off + n <= Zlen m)
  then Some (take (Z.to_nat n) (drop (Z.to_nat off) m)) else None.

Definition mem_write (m : list Z) (off : Z) (d : list Z) : option (list Z) :=
  if bool_decide (0 <= off /\ off + Zlen d <= Zlen m)
  then Some (take (Z.to_nat off) m ++ d ++ drop (Z.to_nat off + length d) m)
  else None.

Lemma nth_take_lt (l : list Z) (i n : nat) :
  (i < n)%nat -> nth i (take n l) 0 = nth i l 0.
Proof. intros. rewrite nth_firstn. by rewrite (proj2 (Nat.ltb_lt i n)). Qed.

Definition zget (m : list Z) (k : Z) : Z := nth (Z.to_nat k) m 0.

(** Little-endian representation of the low [8 * n] bits of [v]. *)
Fixpoint le_bytes (n : nat) (v : Z) : list Z :=
  match n with
  | O => []
  | S n' => v mod 256 :: le_bytes n' (v / 256)
  end.

Fixpoint le_decode (l : list Z) : Z :=
  match l with
  | [] => 0
  | b :: l' => b + 256 * le_decode l'
  end.

Lemma le_bytes_length (n : nat) (v : Z) : length (le_bytes n v) = n.
Proof. revert v. induction n; intros; simpl; auto. Qed.

Lemma le_decode_bytes (n : nat) (v : Z) :
  le_decode (le_bytes n v) = v mod 256 ^ Z.of_nat n.
Proof.
  revert v. induction n as [|n IH]; intros v; simpl le_bytes; simpl le_decode.
  - by rewrite Z.mod_1_r.
  - rewrite IH, Nat2Z.inj_succ, Z.pow_succ_r by lia.
    rewrite Z.rem_mul_r by lia. lia.
Qed.

Lemma mem_read_Some (m : list Z) (off n : Z) :
  0 <= off -> 0 <= n -> off + n <= Zlen m ->
  mem_read m off n = Some (take (Z.to_nat n) (drop (Z.to_nat off) m)).
Proof. intros. unfold mem_read. rewrite bool_decide_eq_true_2; done. Qed.

Lemma mem_write_Some (m : list Z) (off : Z) (d : list Z) :
  0 <= off -> off + Zlen d <= Zlen m ->
  mem_write m off d =
    Some (take (Z.to_nat off) m ++ d ++ drop (Z.to_nat off + length d) m).
Proof. intros. unfold mem_write. rewrite bool_decide_eq_true_2; done. Qed.

Lemma mem_write_length (m m' : list Z) (off : Z) (d : list Z) :
  mem_write m off d = Some m' -> length m' = length m.
Proof.
  unfold mem_write. intros. case_bool_decide; simplify_eq.
  rewrite !length_app, length_take, length_drop. lia.
Qed.

Lemma mem_write_zget (m m' : list Z) (off : Z) (d : list Z) (k : Z) :
  mem_write m off d = Some m' -> 0 <= k ->
  zget m' k = if bool_decide (off <= k < off + Zlen d) then zget d (k - off)
              else zget m k.
Proof.
  unfold mem_write, zget. intros H Hk. case_bool_decide as Hb; simplify_eq.
  case_bool_decide.
  - rewrite app_nth2; rewrite length_take; [|lia].
    rewrite app_nth1 by lia. f_equal. lia.
  - destruct (Z.lt_ge_cases k off).
    + rewrite app_nth1 by (rewrite length_take; lia).
      rewrite nth_take_lt by lia. done.
    + rewrite app_nth2 by (rewrite length_take; lia). rewrite length_take.
      rewrite app_nth2 by lia. rewrite nth_skipn. f_equal. lia.
Qed.

(** Two adjacent writes are one. *)
Lemma mem_write_app (m m1 : list Z) (off : Z) (d1 d2 : list Z) :
  mem_write m off d1 = Some m1 ->
  mem_write m1 (off + Zlen d1) d2 = mem_write m off (d1 ++ d2).
Proof.
  intros H. pose proof (mem_write_length _ _ _ _ H) as L. unfold mem_write in *.
  case_bool_decide as B; simplify_eq.
  rewrite (bool_decide_ext _ (0 <= off /\ off + Zlen (d1 ++ d2) <= Zlen m))
    by (rewrite L, length_app; lia).
  case_bool_decide; [|done]. f_equal.
  assert (HA : length (take (Z.to_nat off) m) = Z.to_nat off) by (rewrite length_take; lia).
  set (A := take (Z.to_nat off) m) in *.
  replace (Z.to_nat (off + Zlen d1)) with (length (A ++ d1)) by (rewrite length_app; lia).
  rewrite (app_assoc A d1), take_app_length, drop_app_add, drop_drop.
  rewrite <- !app_assoc. do 4 f_equal. rewrite length_app. lia.
Qed.

(** * Ring buffers

    [ring_read m sz off n] are the [n] bytes of the circular buffer [m] of
    [sz] bytes that start at offset [off].  The loggers, the kernel FIFO and
    the RAM console store their data in two pieces, up to the end of the
    buffer and from its start; the lemmas say that the two pieces together
    are a window of the ring. *)

Definition ring_read (m : list Z) (sz off n : Z) : list Z :=
  (fun i => zget m ((off + Z.of_nat i) mod sz)) <$> seq 0 (Z.to_nat n).

Lemma ring_read_length (m : list Z) (sz off n : Z) :
  length (ring_read m sz off n) = Z.to_nat n.
Proof. unfold ring_read. by rewrite length_fmap, length_seq. Qed.

Lemma ring_read_zget (m : list Z) (sz off n j : Z) :
  0 <= j < n -> zget (ring_read m sz off n) j = zget m ((off + j) mod sz).
Proof.
  intros. unfold zget, ring_read. rewrite nth_lookup, list_lookup_fmap.
  rewrite (lookup_seq_lt 0 (Z.to_nat n) (Z.to_nat j)) by lia. simpl.
  by rewrite Z2Nat.id by lia.
Qed.

(** Two byte strings of the same length with the same bytes are equal. *)
Lemma zget_ext (l1 l2 : list Z) :
  length l1 = length l2 ->
  (forall j, 0 <= j < Zlen l1 -> zget l1 j = zget l2 j) -> l1 = l2.
Proof.
  intros Hl H. apply (nth_ext l1 l2 0 0); [done|]. intros n Hn.
  specialize (H (Z.of_nat n)). unfold zget in H.
  rewrite Nat2Z.id in H. apply H. lia.
Qed.

Lemma zget_app_l (l1 l2 : list Z) (j : Z) :
  0 <= j < Zlen l1 -> zget (l1 ++ l2) j = zget l1 j.
Proof. intros. unfold zget. rewrite app_nth1 by lia. done. Qed.

Lemma zget_app_r (l1 l2 : list Z) (j : Z) :
  Zlen l1 <= j -> zget (l1 ++ l2) j = zget l2 (j - Zlen l1).
Proof. intros. unfold zget. rewrite app_nth2 by lia. f_equal. lia. Qed.

Lemma zget_take_drop (m : list Z) (off n j : Z) :
  0 <= off -> 0 <= j < n ->
  zget (take (Z.to_nat n) (drop (Z.to_nat off) m)) j = zget m (off + j).
Proof.
  intros. unfold zget. rewrite nth_take_lt by lia. rewrite nth_skipn.
  f_equal. lia.
Qed.

Lemma ring_read_app (m : list Z) (sz off a b : Z) :
  0 <= a -> 0 <= b ->
  ring_read m sz off (a + b) = ring_read m sz off a ++ ring_read m sz (off + a) b.
Proof.
  intros. apply zget_ext.
  - rewrite length_app, !ring_read_length. lia.
  - rewrite ring_read_length. intros j Hj. rewrite ring_read_zget by lia.
    destruct (Z.lt_ge_cases j a).
    + rewrite zget_app_l by (rewrite ring_read_length; lia).
      by rewrite ring_read_zget by lia.
    + rewrite zget_app_r by (rewrite ring_read_length; lia).
      rewrite ring_read_length, ring_read_zget by lia. f_equal. f_equal. lia.
Qed.

Lemma ring_read_mod (m : list Z) (sz off n : Z) :
  ring_read m sz (off mod sz) n = ring_read m sz off n.
Proof.
  unfold ring_read. apply list_fmap_ext. intros. by rewrite Zplus_mod_idemp_l.
Qed.

Lemma ring_read_nil (m : list Z) (sz off n : Z) : n <= 0 -> ring_read m sz off n = [].
Proof. intros. unfold ring_read. by rewrite (Z2Nat.nonpos n). Qed.

(** Offset arithmetic without [mod]: a ring position is [off + j], less [sz]
    if that runs past the end. *)
Lemma ring_pos (sz off j : Z) :
  0 <= off < sz -> 0 <= j < sz ->
  (off + j) mod sz = if bool_decide (off + j < sz) then off + j else off + j - sz.
Proof.
  intros. case_bool_decide.
  - apply Z.mod_small. lia.
  - symmetry. apply (Z.mod_unique _ _ 1); lia.
Qed.

Lemma ring_pos_inj (sz off i j : Z) :
  0 <= i < sz -> 0 <= j < sz -> (off + i) mod sz = (off + j) mod sz -> i = j.
Proof.
  intros Hi Hj. rewrite <- (Zplus_mod_idemp_l off i), <- (Zplus_mod_idemp_l off j).
  pose proof (Z.mod_pos_bound off sz). rewrite !ring_pos by lia. repeat case_bool_decide; lia.
Qed.

(** Reading a window in two pieces. *)
Lemma ring_read_split (m : list Z) (sz off n l : Z) :
  sz = Zlen m -> 0 <= off < sz -> 0 <= n <= sz -> l = Z.min n (sz - off) ->
  take (Z.to_nat l) (drop (Z.to_nat off) m) ++ take (Z.to_nat (n - l)) m =
  ring_read m sz off n.
Proof.
  intros Hsz Ho Hn ->. apply zget_ext.
  - rewrite length_app, !length_take, length_drop, ring_read_length. lia.
  - rewrite length_app, !length_take, length_drop. intros j Hj.
    rewrite ring_read_zget, ring_pos by lia. case_bool_decide.
    + rewrite zget_app_l by (rewrite length_take, length_drop; lia).
      by rewrite zget_take_drop by lia.
    + rewrite zget_app_r by (rewrite length_take, length_drop; lia).
      rewrite length_take, length_drop.
      rewrite <- (drop_0 m) at 1. change 0%nat with (Z.to_nat 0).
      rewrite zget_take_drop by lia. f_equal. lia.
Qed.

(** Writing [d] in two pieces at [off]: the result holds [d] in the window of
    [Zlen d] bytes at [off] and the old bytes in the rest of the ring. *)
Definition ring_write (m : list Z) (sz off : Z) (d : list Z) : option (list Z) :=
  m1 ← mem_write m off (take (Z.to_nat (Z.min (Zlen d) (sz - off))) d);
  mem_write m1 0 (drop (Z.to_nat (Z.min (Zlen d) (sz - off))) d).

Lemma ring_write_spec (m : list Z) (sz off : Z) (d : list Z) :
  sz = Zlen m -> 0 <= off < sz -> Zlen d <= sz ->
  exists m', ring_write m sz off d = Some m' /\ length m' = length m /\
    (forall j, 0 <= j < Zlen d -> zget m' ((off + j) mod sz) = zget d j) /\
    (forall j, Zlen d <= j < sz -> zget m' ((off + j) mod sz) = zget m ((off + j) mod sz)).
Proof.
  intros Hsz Ho Hd. unfold ring_write. set (l := Z.min (Zlen d) (sz - off)).
  assert (Hl : 0 <= l <= Zlen d /\ l <= sz - off) by lia.
  destruct (mem_write m off (take (Z.to_nat l) d)) as [m1|] eqn:E1.
  2:{ exfalso. rewrite mem_write_Some in E1; [done|lia|]. rewrite length_take. lia. }
  pose proof (mem_write_length _ _ _ _ E1) as L1. simpl.
  destruct (mem_write m1 0 (drop (Z.to_nat l) d)) as [m2|] eqn:E2.
  2:{ exfalso. rewrite mem_write_Some in E2; [done|lia|]. rewrite length_drop. lia. }
  pose proof (mem_write_length _ _ _ _ E2) as L2.
  exists m2. split; [done|]. split; [congruence|].
  assert (Hget : forall k, 0 <= k -> zget m2 k =
    if bool_decide (0 <= k < Zlen d - l) then zget d (k + l)
    else if bool_decide (off <= k < off + l) then zget d (k - off) else zget m k).
  { intros k Hk. rewrite (mem_write_zget _ _ _ _ _ E2) by done.
    rewrite length_drop. rewrite !(bool_decide_ext (0 <= k < 0 + _) (0 <= k < Zlen d - l)) by lia.
    case_bool_decide.
    - unfold zget. rewrite nth_skipn. f_equal. lia.
    - rewrite (mem_write_zget _ _ _ _ _ E1) by done. rewrite length_take.
      rewrite !(bool_decide_ext (off <= k < off + _) (off <= k < off + l)) by lia.
      case_bool_decide; [|done]. unfold zget. rewrite nth_take_lt by lia. done. }
  split; intros j Hj; rewrite ring_pos by lia; case_bool_decide; rewrite Hget by lia;
    repeat (case_bool_decide; try lia); try done; f_equal; lia.
Qed.

Lemma ring_write_two (m : list Z) (sz off : Z) (d1 d2 : list Z) :
  Zlen d1 = Z.min (Zlen d1 + Zlen d2) (sz - off) ->
  ring_write m sz off (d1 ++ d2) = (m1 ← mem_write m off d1; mem_write m1 0 d2).
Proof.
  intros H. unfold ring_write. rewrite length_app, Nat2Z.inj_add, <- H, Nat2Z.id.
  by rewrite take_app_length, drop_app_length.
Qed.

Lemma mem_write_nil (m : list Z) : mem_write m 0 [] = Some m.
Proof. rewrite mem_write_Some; simpl; [done|lia..]. Qed.

(** Windows of the ring after a write of [n] bytes at [off], in terms of the
    window before it: the bytes written, and anything that starts at or after
    their end and ends before the ring comes round. *)
Lemma ring_read_written (m m' : list Z) (sz off : Z) (d : list Z) :
  (forall j, 0 <= j < Zlen d -> zget m' ((off + j) mod sz) = zget d j) ->
  ring_read m' sz off (Zlen d) = d.
Proof.
  intros H. apply zget_ext; rewrite ring_read_length; [lia|].
  intros j Hj. rewrite ring_read_zget by lia. apply H. lia.
Qed.

Lemma ring_read_kept (m m' : list Z) (sz off n a k : Z) :
  (forall j, n <= j < sz -> zget m' ((off + j) mod sz) = zget m ((off + j) mod sz)) ->
  n <= a -> a + k <= sz ->
  ring_read m' sz (off + a) k = ring_read m sz (off + a) k.
Proof.
  intros H Ha Hk. unfold ring_read. apply list_fmap_ext.
  intros i x Hx. apply lookup_seq in Hx as [-> Hi]. simpl.
  replace (off + a + Z.of_nat i) with (off + (a + Z.of_nat i)) by lia.
  apply H. lia.
Qed.

(** * User memory

    [copy_from_user] copies what is readable, clears the rest of the
    destination (arch/arm/lib/copy_from_user.S) and returns the number of
    bytes it could not copy; [copy_to_user] likewise without the clearing. *)

Record user_src := { us_ok : bool; us_data : list Z }.

Definition copy_from_user (u : user_src) (off n : Z) : list Z * Z :=
  let got := if us_ok u then take (Z.to_nat n) (drop (Z.to_nat off) (us_data u)) else [] in
  (got ++ replicate (Z.to_nat n - length got) 0, n - Zlen got).

Record user_dst := { ud_ok : bool; ud_room : Z }.

Definition copy_to_user (u : user_dst) (off : Z) (d : list Z) : list Z * Z :=
  let put := if ud_ok u then take (Z.to_nat (ud_room u - off)) d else [] in
  (put, Zlen d - Zlen put).

Lemma copy_from_user_length (u : user_src) (off n : Z) :
  0 <= n -> Zlen (fst (copy_from_user u off n)) = n.
Proof.
  intros. unfold copy_from_user. simpl. rewrite length_app, length_replicate.
  destruct (us_ok u); simpl; [rewrite length_take|]; lia.
Qed.

Lemma copy_from_user_ok (u : user_src) (off n : Z) :
  0 <= n -> 0 <= off -> snd (copy_from_user u off n) = 0 ->
  fst (copy_from_user u off n) = take (Z.to_nat n) (drop (Z.to_nat off) (us_data u)).
Proof.
  unfold copy_from_user. simpl. intros Hn Ho. destruct (us_ok u); simpl; intros H.
  - rewrite length_take in H.
    replace (_ - _)%nat with 0%nat by (rewrite length_take; lia).
    simpl. by rewrite app_nil_r.
  - assert (n = 0) as -> by lia. done.
Qed.

Lemma copy_from_user_left (u : user_src) (off n : Z) :
  0 <= n -> 0 <= off ->
  snd (copy_from_user u off n) = 0 <-> n = 0 \/ (us_ok u = true /\ off + n <= Zlen (us_data u)).
Proof.
  intros Hn Ho. unfold copy_from_user. simpl. destruct (us_ok u); simpl.
  - rewrite length_take, length_drop. lia.
  - lia.
Qed.

Lemma copy_to_user_left (u : user_dst) (off : Z) (d : list Z) :
  0 <= off ->
  snd (copy_to_user u off d) = 0 <-> d = [] \/ (ud_ok u = true /\ off + Zlen d <= ud_room u).
Proof.
  intros Ho. unfold copy_to_user. simpl.
  destruct d as [|x d]; [destruct (ud_ok u); simpl; rewrite ?take_nil; intuition|].
  destruct (ud_ok u); [rewrite length_take|]; simpl; split;
    try (intros [|]; [done|]); intros; try right; lia || naive_solver lia.
Qed.

Lemma copy_to_user_ok (u : user_dst) (off : Z) (d : list Z) :
  snd (copy_to_user u off d) = 0 -> fst (copy_to_user u off d) = d.
Proof.
  unfold copy_to_user. simpl. destruct (ud_ok u); simpl; intros H.
  - rewrite length_take in H. apply take_ge. lia.
  - destruct d; simpl in *; [done|lia].
Qed.

Lemma copy_to_user_prefix (u : user_dst) (off : Z) (d : list Z) :
  fst (copy_to_user u off d) `prefix_of` d.
Proof.
  unfold copy_to_user. simpl. destruct (ud_ok u); [apply prefix_take|apply prefix_nil].
Qed.

(** A transfer in two pieces is the transfer of the whole: the second piece is
    tried only when the first one went through. *)
Lemma copy_from_user_split (u : user_src) (l n : Z) :
  0 <= l <= n ->
  snd (copy_from_user u 0 l) = 0 -> snd (copy_from_user u l (n - l)) = 0 ->
  snd (copy_from_user u 0 n) = 0 /\
  fst (copy_from_user u 0 l) ++ fst (copy_from_user u l (n - l)) = fst (copy_from_user u 0 n).
Proof.
  intros Hl H1 H2.
  assert (H : snd (copy_from_user u 0 n) = 0).
  { apply copy_from_user_left; [lia..|]. apply copy_from_user_left in H1, H2; [|lia..].
    destruct H1 as [->|[??]], H2 as [?|[??]]; (left; lia) || (right; split; [done|lia]). }
  split; [done|]. rewrite !copy_from_user_ok by (done || lia). rewrite drop_0.
  replace (Z.to_nat n) with (Z.to_nat l + Z.to_nat (n - l))%nat by lia.
  by rewrite take_take_drop.
Qed.

Lemma copy_to_user_split (u : user_dst) (d1 d2 : list Z) :
  let '(p1, r1) := copy_to_user u 0 d1 in
  let '(p2, r2) := copy_to_user u (Zlen d1) d2 in
  copy_to_user u 0 (d1 ++ d2) =
    if r1 =? 0 then (p1 ++ p2, r2) else (p1, r1 + Zlen d2).
Proof.
  unfold copy_to_user. destruct (ud_ok u).
  - rewrite Z.sub_0_r, take_app. rewrite !length_app, !length_take.
    replace (Z.to_nat (ud_room u - Zlen d1)) with (Z.to_nat (ud_room u) - length d1)%nat by lia.
    case_match eqn:E; [apply Z.eqb_eq in E|apply Z.eqb_neq in E].
    + f_equal. lia.
    + replace (_ - length d1)%nat with 0%nat by lia. rewrite app_nil_r. f_equal. lia.
  - destruct d1; [done|]. rewrite length_app. case_match eqn:E;
      [apply Z.eqb_eq in E; simpl in E; lia|]. f_equal. simpl length. lia.
Qed.

Lemma copy_from_user_bounds (u : user_src) (off n : Z) :
  0 <= n -> 0 <= snd (copy_from_user u off n) <= n.
Proof.
  intros. unfold copy_from_user. simpl. destruct (us_ok u); simpl; [rewrite length_take|]; lia.
Qed.

Lemma copy_to_user_bounds (u : user_dst) (off : Z) (d : list Z) :
  0 <= snd (copy_to_user u off d) <= Zlen d /\
  Zlen (fst (copy_to_user u off d)) = Zlen d - snd (copy_to_user u off d).
Proof. unfold copy_to_user. simpl. destruct (ud_ok u); simpl; [rewrite length_take|]; lia. Qed.

(** What a transfer in two pieces needs to know of its pieces. *)
Lemma copy_from_user_parts (u : user_src) (l n : Z) :
  0 <= l <= n ->
  let '(d1, r1) := copy_from_user u 0 l in
  let '(d2, r2) := copy_from_user u l (n - l) in
  Zlen d1 = l /\ Zlen d2 = n - l /\
  (0 <= r1 <= l /\ (snd (copy_from_user u 0 n) = 0 -> r1 = 0)) /\
  (0 <= r2 <= n - l /\ (snd (copy_from_user u 0 n) = 0 -> r2 = 0)) /\
  (r1 = 0 -> r2 = 0 ->
   snd (copy_from_user u 0 n) = 0 /\ d1 ++ d2 = fst (copy_from_user u 0 n)).
Proof.
  intros Hl. pose proof (copy_from_user_length u 0 l). pose proof (copy_from_user_bounds u 0 l).
  pose proof (copy_from_user_length u l (n - l)). pose proof (copy_from_user_bounds u l (n - l)).
  pose proof (copy_from_user_split u l n).
  pose proof (proj1 (copy_from_user_left u 0 n ltac:(lia) ltac:(lia))).
  pose proof (proj2 (copy_from_user_left u 0 l ltac:(lia) ltac:(lia))).
  pose proof (proj2 (copy_from_user_left u l (n - l) ltac:(lia) ltac:(lia))).
  destruct (copy_from_user u 0 l), (copy_from_user u l (n - l)). simpl in *.
  split_and!; try lia; auto; naive_solver lia.
Qed.

#[global] Opaque copy_from_user copy_to_user.
Arguments mem_read : simpl never.
Arguments mem_write : simpl never.
Arguments ring_read : simpl never.
Arguments u32 : simpl never.
Arguments s32 : simpl never.

(** * Error codes (include/asm-generic/errno-base.h) *)

Definition EPERM : Z := 1.
Definition ENOENT : Z := 2.
Definition ENOSYS : Z := 38.
Definition EINTR : Z := 4.
Definition ENXIO : Z := 6.
Definition EBADF : Z := 9.
Definition EAGAIN : Z := 11.
Definition ENOMEM : Z := 12.
Definition EFAULT : Z := 14.
Definition ENODEV : Z := 19.
Definition EINVAL : Z := 22.
Definition ENOTTY : Z := 25.
Definition ETIME : Z := 62.

Definition EBUSY : Z := 16.

Definition PAGE_SIZE : Z := 4096.
Definition PAGE_MASK (x : Z) : Z := (x &ᵤ 0xFFFFF000)%K.
Definition PAGE_ALIGN (x : Z) : Z := PAGE_MASK (u32 (x + (PAGE_SIZE - 1))).

Lemma PAGE_MASK_eq (x : Z) : 0 <= x < 4294967296 -> PAGE_MASK x = x / 4096 * 4096.
Proof. intros Hx. exact (land_clear_low x 12 ltac:(lia) Hx). Qed.

Lemma PAGE_ALIGN_eq (x : Z) : 0 <= x <= 0xFFFFF000 -> PAGE_ALIGN x = (x + 4095) / 4096 * 4096.
Proof. intros Hx. unfold PAGE_ALIGN. change (PAGE_SIZE - 1) with 4095. u32_simpl. apply PAGE_MASK_eq. lia. Qed.

(** Flags of a mapping that more than one component uses. *)
Definition VM_WRITE : Z := 2.
Definition VM_MAYWRITE : Z := 0x20.
