(* ===== verification/Logger.v ===== *)
(** The Android logger (drivers/staging/android/logger.c, logger.h): ring
    buffers of log entries with one writer path and any number of readers.

    [Module Logger] is the driver: the log with its readers, every file
    operation as a function on it.  [Section Spec] is the abstract log, a
    queue of unread entries per reader, and the rest of the file shows that
    the driver implements it. *)

From S2P Require Import Prelude.
Local Open Scope Z_scope.
Local Open Scope kernel_scope.

Module Logger.

(** ** Data *)

(** struct logger_entry, without its payload; [le_pad] is never assigned by
    the driver and holds whatever was on the stack. *)
Record logger_entry := {
  le_len : Z; le_pad : Z; le_pid : Z; le_tid : Z; le_sec : Z; le_nsec : Z
}.

(** sizeof(struct logger_entry) *)
Definition sizeof_entry : Z := 20.

Definition LOGGER_ENTRY_MAX_LEN : Z := 4 * 1024.
Definition LOGGER_ENTRY_MAX_PAYLOAD : Z := LOGGER_ENTRY_MAX_LEN - sizeof_entry.

(** The 20 bytes of a header in memory. *)
Definition entry_bytes (h : logger_entry) : list Z :=
  le_bytes 2 (le_len h) ++ le_bytes 2 (le_pad h) ++ le_bytes 4 (le_pid h) ++
  le_bytes 4 (le_tid h) ++ le_bytes 4 (le_sec h) ++ le_bytes 4 (le_nsec h).

(** A reader is known by its address: the file that opened the log points to
    it, and so does the log's list of readers. *)
Record logger_reader := { rd : Z; r_off : Z }.

Record logger_log := mk_log {
  buffer : list Z; minor : Z; readers : list logger_reader;
  w_off : Z; head : Z; size : Z
}.

Definition set_buffer (log : logger_log) (b : list Z) : logger_log :=
  mk_log b (minor log) (readers log) (w_off log) (head log) (size log).
Definition set_w_off (log : logger_log) (w : Z) : logger_log :=
  mk_log (buffer log) (minor log) (readers log) w (head log) (size log).
Definition set_head (log : logger_log) (h : Z) : logger_log :=
  mk_log (buffer log) (minor log) (readers log) (w_off log) h (size log).
Definition set_readers (log : logger_log) (rs : list logger_reader) : logger_log :=
  mk_log (buffer log) (minor log) rs (w_off log) (head log) (size log).

(** reader->r_off = off, through the address of the reader. *)
Definition set_r_off (log : logger_log) (p off : Z) : logger_log :=
  set_readers log
    ((fun r => if rd r =? p then {| rd := rd r; r_off := off |} else r) <$> readers log).

Definition get_reader (log : logger_log) (p : Z) : option logger_reader :=
  snd <$> list_find (fun r => rd r = p) (readers log).

(** struct file: its mode bits and private_data, a reader or the log. *)
Record file := { f_read : bool; f_write : bool; f_nonblock : bool; private_data : Z }.

(** ** Helpers of the driver *)

Definition logger_offset (log : logger_log) (n : Z) : Z := n &ᵤ (size log -ᵤ 1).

Definition get_entry_len (log : logger_log) (off : Z) : option Z :=
  val ← (if size log -ᵤ off =? 1 then
           b0 ← mem_read (buffer log) off 1;
           b1 ← mem_read (buffer log) 0 1;
           Some (b0 ++ b1)
         else mem_read (buffer log) off 2);
  Some (sizeof_entry +ᵤ le_decode val).

(** Returns the value, the log, and the bytes stored to user space. *)
Definition do_read_log_to_user (log : logger_log) (reader : Z) (buf : user_dst)
    (count : Z) : option (Z * logger_log * list Z) :=
  r ← get_reader log reader;
  let len := Z.min count (size log -ᵤ r_off r) in
  d1 ← mem_read (buffer log) (r_off r) len;
  let '(out1, left1) := copy_to_user buf 0 d1 in
  if negb (left1 =? 0) then Some (- EFAULT, log, out1) else
  d2 ← (if negb (count =? len) then mem_read (buffer log) 0 (count -ᵤ len) else Some []);
  let '(out2, left2) := copy_to_user buf len d2 in
  if negb (left2 =? 0) then Some (- EFAULT, log, out1 ++ out2) else
  Some (count, set_r_off log reader (logger_offset log (r_off r +ᵤ count)), out1 ++ out2).

(** The first part of [logger_read], one turn of its [while (1)] loop: what
    the reader does on finding the log as it is now. *)
Inductive wait_result := WaitBreak | WaitError (err : Z) | WaitSchedule.

Definition logger_read_wait (log : logger_log) (f : file) (signal_pending : bool)
    : option wait_result :=
  r ← get_reader log (private_data f);
  if negb (w_off log =? r_off r) then Some WaitBreak
  else if f_nonblock f then Some (WaitError (- EAGAIN))
  else if signal_pending then Some (WaitError (- EINTR))
  else Some WaitSchedule.

(** The second part, under the mutex taken again: [None] in the first
    component is [goto start], the race with another reader of the file. *)
Definition logger_read_locked (log : logger_log) (f : file) (buf : user_dst) (count : Z)
    : option (option Z * logger_log * list Z) :=
  r ← get_reader log (private_data f);
  if w_off log =? r_off r then Some (None, log, []) else
  ret ← get_entry_len log (r_off r);
  if count <? ret then Some (Some (- EINVAL), log, [])
  else '(ret', log', out) ← do_read_log_to_user log (private_data f) buf ret;
       Some (Some ret', log', out).

(** The outcome of a read in which nobody else touches the log: a value, or
    the reader sleeps. *)
Inductive read_result := ReadSleeps | ReadReturns (ret : Z).

Definition logger_read (log : logger_log) (f : file) (signal_pending : bool)
    (buf : user_dst) (count : Z) : option (read_result * logger_log * list Z) :=
  w ← logger_read_wait log f signal_pending;
  match w with
  | WaitError e => Some (ReadReturns e, log, [])
  | WaitSchedule => Some (ReadSleeps, log, [])
  | WaitBreak =>
      '(ret, log', out) ← logger_read_locked log f buf count;
      match ret with
      | Some v => Some (ReadReturns v, log', out)
      | None => Some (ReadSleeps, log', out)
      end
  end.

(** The do-while loop of [get_next_entry]; [fuel] bounds its iterations. *)
Fixpoint get_next_entry_loop (fuel : nat) (log : logger_log) (off len count : Z)
    : option Z :=
  match fuel with
  | O => None
  | S fuel' =>
      nr ← get_entry_len log off;
      let off := logger_offset log (off +ᵤ nr) in
      let count := count +ᵤ nr in
      if count <? len then get_next_entry_loop fuel' log off len count else Some off
  end.

Definition get_next_entry (log : logger_log) (off len : Z) : option Z :=
  get_next_entry_loop (S (Z.to_nat len)) log off len 0.

Definition clock_interval (a b c : Z) : bool :=
  if b <? a then (a <? c) || (b >=? c) else (a <? c) && (b >=? c).

(** list_for_each_entry(reader, &log->readers, list) of [fix_up_readers];
    reading entry lengths does not look at the readers. *)
Fixpoint fix_up_list (log : logger_log) (old new len : Z) (rs : list logger_reader)
    : option (list logger_reader) :=
  match rs with
  | [] => Some []
  | r :: rs' =>
      off ← (if clock_interval old new (r_off r)
             then get_next_entry log (r_off r) len else Some (r_off r));
      rest ← fix_up_list log old new len rs';
      Some ({| rd := rd r; r_off := off |} :: rest)
  end.

Definition fix_up_readers (log : logger_log) (len : Z) : option logger_log :=
  let old := w_off log in
  let new := logger_offset log (old +ᵤ len) in
  h ← (if clock_interval old new (head log)
       then get_next_entry log (head log) len else Some (head log));
  let log := set_head log h in
  rs ← fix_up_list log old new len (readers log);
  Some (set_readers log rs).

Definition do_write_log (log : logger_log) (buf : list Z) : option logger_log :=
  let count := Zlen buf in
  let len := Z.min count (size log -ᵤ w_off log) in
  b1 ← mem_write (buffer log) (w_off log) (take (Z.to_nat len) buf);
  b2 ← (if negb (count =? len) then mem_write b1 0 (drop (Z.to_nat len) buf) else Some b1);
  let log := set_buffer log b2 in
  Some (set_w_off log (logger_offset log (w_off log +ᵤ count))).

Definition do_write_log_from_user (log : logger_log) (buf : user_src) (count : Z)
    : option (Z * logger_log) :=
  let len := Z.min count (size log -ᵤ w_off log) in
  let '(d1, left1) := copy_from_user buf 0 len in
  b1 ← (if negb (len =? 0) then mem_write (buffer log) (w_off log) d1
        else Some (buffer log));
  let log := set_buffer log b1 in
  if negb (len =? 0) && negb (left1 =? 0) then Some (- EFAULT, log) else
  let '(d2, left2) := copy_from_user buf len (count -ᵤ len) in
  b2 ← (if negb (count =? len) then mem_write b1 0 d2 else Some b1);
  let log := set_buffer log b2 in
  if negb (count =? len) && negb (left2 =? 0) then Some (- EFAULT, log) else
  Some (count, set_w_off log (logger_offset log (w_off log +ᵤ count))).

Record iovec := { iov_base : user_src; iov_len : Z }.

(** The while loop of [logger_aio_write] over the remaining segments. *)
Fixpoint write_segs (log : logger_log) (orig hlen : Z) (iov : list iovec) (ret : Z)
    : option (Z * logger_log) :=
  match iov with
  | [] => Some (ret, log)
  | v :: iov' =>
      let len := Z.min (iov_len v) (u32 (hlen - ret)) in
      '(nr, log) ← do_write_log_from_user log (iov_base v) len;
      if nr <? 0 then Some (nr, set_w_off log orig)
      else write_segs log orig hlen iov' (ret + nr)
  end.

(** What the driver reads from the current task and the clock, and the stack
    garbage that becomes the header's padding. *)
Record writer := { cur_tgid : Z; cur_pid : Z; now_sec : Z; now_nsec : Z; stack_pad : Z }.

Definition make_header (w : writer) (ki_left : Z) : logger_entry := {|
  le_len := Z.min ki_left LOGGER_ENTRY_MAX_PAYLOAD; le_pad := stack_pad w;
  le_pid := cur_tgid w; le_tid := cur_pid w; le_sec := now_sec w; le_nsec := now_nsec w
|}.

(** The body of [logger_aio_write] under the mutex.  [orig] was read from
    log->w_off before the mutex was taken. *)
Definition logger_aio_write_locked (log : logger_log) (orig : Z) (header : logger_entry)
    (iov : list iovec) : option (Z * logger_log) :=
  log ← fix_up_readers log (sizeof_entry +ᵤ le_len header);
  log ← do_write_log log (entry_bytes header);
  write_segs log orig (le_len header) iov 0.

Definition logger_aio_write (log : logger_log) (w : writer) (ki_left : Z)
    (iov : list iovec) : option (Z * logger_log) :=
  let orig := w_off log in
  let header := make_header w ki_left in
  if le_len header =? 0 then Some (0, log)
  else logger_aio_write_locked log orig header iov.

(** ** File operations *)

(** The four logs of the system, in the order [get_log_from_minor] tries them. *)
Definition get_log_from_minor (logs : list logger_log) (m : Z) : option (nat * logger_log) :=
  list_find (fun log => minor log = m) logs.

(** A statically initialised log; its minor is assigned by misc_register. *)
Definition DEFINE_LOGGER_DEVICE (m sz : Z) : logger_log :=
  mk_log (replicate (Z.to_nat sz) 0) m [] 0 0 sz.

(** [init_log] for each log in turn, up to the first failure; [reg] is what
    misc_register returns for each: an error, or the minor it assigned. *)
Fixpoint logger_init (logs : list logger_log) (reg : list (Z + Z)) : Z * list logger_log :=
  match logs, reg with
  | log :: logs', inr m :: reg' =>
      let '(ret, rest) := logger_init logs' reg' in
      (ret, mk_log (buffer log) m (readers log) (w_off log) (head log) (size log) :: rest)
  | _ :: _, inl err :: _ => (err, logs)
  | _, _ => (0, logs)
  end.

(** [reader] is the address kmalloc returns, if any. *)
Definition logger_open (logs : list logger_log) (m : Z) (f : file) (nonseekable : Z)
    (reader : option Z) : Z * list logger_log * file :=
  if negb (nonseekable =? 0) then (nonseekable, logs, f) else
  match get_log_from_minor logs m with
  | None => (- ENODEV, logs, f)
  | Some (i, log) =>
      if f_read f then
        match reader with
        | None => (- ENOMEM, logs, f)
        | Some p =>
            (0, <[i := set_readers log (readers log ++ [{| rd := p; r_off := head log |}])]> logs,
             {| f_read := f_read f; f_write := f_write f; f_nonblock := f_nonblock f;
                private_data := p |})
        end
      else (0, logs, {| f_read := f_read f; f_write := f_write f;
                        f_nonblock := f_nonblock f; private_data := m |})
  end.

Definition logger_release (log : logger_log) (f : file) : Z * logger_log :=
  if f_read f
  then (0, set_readers log (filter (fun r => rd r <> private_data f) (readers log)))
  else (0, log).

Definition POLLIN : Z := 1.
Definition POLLOUT : Z := 4.
Definition POLLRDNORM : Z := 64.
Definition POLLWRNORM : Z := 256.

Definition logger_poll (log : logger_log) (f : file) : option Z :=
  let ret := POLLOUT |ᵤ POLLWRNORM in
  if negb (f_read f) then Some ret else
  r ← get_reader log (private_data f);
  Some (if negb (w_off log =? r_off r) then ret |ᵤ (POLLIN |ᵤ POLLRDNORM) else ret).

Inductive logger_cmd :=
  LOGGER_GET_LOG_BUF_SIZE | LOGGER_GET_LOG_LEN | LOGGER_GET_NEXT_ENTRY_LEN
| LOGGER_FLUSH_LOG | LOGGER_OTHER.

#[export] Instance logger_cmd_eq_dec : EqDecision logger_cmd.
Proof. solve_decision. Defined.

Definition logger_ioctl (log : logger_log) (f : file) (cmd : logger_cmd)
    : option (Z * logger_log) :=
  match cmd with
  | LOGGER_GET_LOG_BUF_SIZE => Some (size log, log)
  | LOGGER_GET_LOG_LEN =>
      if negb (f_read f) then Some (- EBADF, log) else
      r ← get_reader log (private_data f);
      if w_off log >=? r_off r then Some (w_off log -ᵤ r_off r, log)
      else Some ((size log -ᵤ r_off r) +ᵤ w_off log, log)
  | LOGGER_GET_NEXT_ENTRY_LEN =>
      if negb (f_read f) then Some (- EBADF, log) else
      r ← get_reader log (private_data f);
      if negb (w_off log =? r_off r) then l ← get_entry_len log (r_off r); Some (l, log)
      else Some (0, log)
  | LOGGER_FLUSH_LOG =>
      if negb (f_write f) then Some (- EBADF, log) else
      let rs := (fun r => {| rd := rd r; r_off := w_off log |}) <$> readers log in
      Some (0, set_head (set_readers log rs) (w_off log))
  | LOGGER_OTHER => Some (- ENOTTY, log)
  end.

(** ** The abstract log

    An entry is the byte string of its header and payload.  A log holds a
    queue of entries for every reader, and one for readers yet to come.  A
    write of [n] bytes to a queue that leaves room for fewer than [n] bytes
    first discards whole entries from its front, the smallest number whose
    lengths add up to [n]. *)

Definition entry := list Z.
Definition queue := list entry.

Record log_spec := { sp_head : queue; sp_readers : list (Z * queue) }.

Definition qlen (q : queue) : Z := Zlen (concat q).

Fixpoint drop_until (n : Z) (q : queue) : queue :=
  match q with
  | [] => []
  | e :: q' => if Zlen e <? n then drop_until (n - Zlen e) q' else q'
  end.

Definition lap (sz n : Z) (q : queue) : queue :=
  if (0 <? qlen q) && (sz - qlen q <=? n) then drop_until n q else q.

Definition spec_map (g : queue -> queue) (s : log_spec) : log_spec :=
  {| sp_head := g (sp_head s); sp_readers := (fun pq => (pq.1, g pq.2)) <$> sp_readers s |}.

Definition spec_write (sz : Z) (e : entry) (s : log_spec) : log_spec :=
  spec_map (fun q => lap sz (Zlen e) q ++ [e]) s.

Definition spec_lap (sz n : Z) (s : log_spec) : log_spec := spec_map (lap sz n) s.

Definition spec_flush (s : log_spec) : log_spec := spec_map (fun _ => []) s.

Definition spec_open (p : Z) (s : log_spec) : log_spec :=
  {| sp_head := sp_head s; sp_readers := sp_readers s ++ [(p, sp_head s)] |}.

Definition spec_close (p : Z) (s : log_spec) : log_spec :=
  {| sp_head := sp_head s; sp_readers := filter (fun pq => pq.1 <> p) (sp_readers s) |}.

Definition spec_queue (s : log_spec) (p : Z) : option queue :=
  snd ∘ snd <$> list_find (fun pq => pq.1 = p) (sp_readers s).

Definition spec_pop (p : Z) (s : log_spec) : log_spec :=
  {| sp_head := sp_head s;
     sp_readers := (fun pq => if pq.1 =? p then (pq.1, tail pq.2) else pq) <$> sp_readers s |}.

(** The payload a scatter list holds, [n] bytes of it at most, and whether
    user space lets the driver read all of it. *)
Fixpoint gather (n : Z) (iov : list iovec) : list Z :=
  match iov with
  | [] => []
  | v :: iov' =>
      let len := Z.min (iov_len v) n in
      take (Z.to_nat len) (us_data (iov_base v)) ++ gather (n - len) iov'
  end.

Fixpoint readable (n : Z) (iov : list iovec) : bool :=
  match iov with
  | [] => true
  | v :: iov' =>
      let len := Z.min (iov_len v) n in
      ((len =? 0) || (us_ok (iov_base v) && (len <=? Zlen (us_data (iov_base v))))) &&
      readable (n - len) iov'
  end.

Definition iov_total (iov : list iovec) : Z := foldr (fun v t => iov_len v + t) 0 iov.

(** ** Representation *)

Record log_wf (log : logger_log) : Prop := {
  wf_size : exists k, 13 <= k <= 30 /\ size log = 2 ^ k;
  wf_buffer : Zlen (buffer log) = size log;
  wf_w_off : 0 <= w_off log < size log
}.

(** The unread bytes of a reader at [off] are [bs]. *)
Record cursor (log : logger_log) (off : Z) (bs : list Z) : Prop := {
  cur_off : 0 <= off < size log;
  cur_room : Zlen bs < size log;
  cur_data : ring_read (buffer log) (size log) off (Zlen bs) = bs;
  cur_end : (off + Zlen bs) mod size log = w_off log
}.

Definition entry_ok (e : entry) : Prop :=
  20 <= Zlen e < 65536 + 20 /\ Zlen e = 20 + le_decode (take 2 e).

Definition pending (log : logger_log) (off : Z) (q : queue) : Prop :=
  cursor log off (concat q) /\ Forall entry_ok q.

Definition reader_rep (log : logger_log) (r : logger_reader) (pq : Z * queue) : Prop :=
  rd r = pq.1 /\ pending log (r_off r) pq.2.

Record log_rep (log : logger_log) (s : log_spec) : Prop := {
  rep_wf : log_wf log;
  rep_head : pending log (head log) (sp_head s);
  rep_readers : Forall2 (reader_rep log) (readers log) (sp_readers s);
  rep_nodup : NoDup (sp_readers s).*1
}.

(** ** Lemmas *)

Lemma size_bounds log : log_wf log -> 8192 <= size log <= 1073741824.
Proof.
  intros [(k & Hk & ->) _ _].
  pose proof (Z.pow_le_mono_r 2 13 k). pose proof (Z.pow_le_mono_r 2 k 30).
  change (2 ^ 13) with 8192 in *. change (2 ^ 30) with 1073741824 in *. lia.
Qed.

Lemma logger_offset_mod log n :
  log_wf log -> logger_offset log n = n mod size log.
Proof.
  intros Hwf. pose proof (size_bounds _ Hwf). unfold logger_offset. u32_simpl.
  destruct Hwf as [(k & Hk & ->) _ _].
  replace (2 ^ k - 1) with (Z.ones k) by (rewrite Z.ones_equiv; lia).
  apply Z.land_ones. lia.
Qed.

(** The wrap-around of [size_t] is invisible: the size divides 2^32. *)
Lemma logger_offset_wrap log n : log_wf log -> logger_offset log (u32 n) = n mod size log.
Proof.
  intros Hwf. rewrite logger_offset_mod by done. destruct Hwf as [(k & Hk & ->) _ _].
  unfold u32. apply Z.mod_mod_divide. exists (2 ^ (32 - k)).
  rewrite <- Z.pow_add_r by lia. by replace (32 - k + k) with 32 by lia.
Qed.

Lemma logger_offset_buffer log b n : logger_offset (set_buffer log b) n = logger_offset log n.
Proof. done. Qed.

Lemma qlen_cons e q : qlen (e :: q) = Zlen e + qlen q.
Proof. unfold qlen. simpl. rewrite length_app. lia. Qed.

Lemma qlen_nonneg q : 0 <= qlen q.
Proof. unfold qlen. lia. Qed.

Lemma get_entry_len_eq log off :
  log_wf log -> 0 <= off < size log ->
  get_entry_len log off =
    Some (u32 (20 + le_decode (ring_read (buffer log) (size log) off 2))).
Proof.
  intros Hwf Ho. pose proof (size_bounds _ Hwf). destruct Hwf as [_ Hb _].
  unfold get_entry_len, sizeof_entry. u32_simpl.
  rewrite <- (ring_read_split (buffer log) (size log) off 2
                (Z.min 2 (size log - off))) by lia.
  case_match eqn:E.
  - apply Z.eqb_eq in E. rewrite !mem_read_Some by lia. simpl mbind.
    replace (Z.min 2 (size log - off)) with 1 by lia.
    done.
  - apply Z.eqb_neq in E. rewrite mem_read_Some by lia. simpl mbind.
    replace (Z.min 2 (size log - off)) with 2 by lia. simpl.
    by rewrite app_nil_r.
Qed.

Lemma cursor_app log off a b :
  cursor log off (a ++ b) ->
  ring_read (buffer log) (size log) off (Zlen a) = a /\
  cursor log ((off + Zlen a) mod size log) b.
Proof.
  intros [H1 H2 H3 H4]. rewrite length_app, Nat2Z.inj_add in *.
  rewrite ring_read_app in H3 by lia.
  apply app_inj_1 in H3 as [Ha Hb]; [|rewrite ring_read_length; lia].
  split; [done|]. split.
  - apply Z.mod_pos_bound. lia.
  - lia.
  - by rewrite ring_read_mod.
  - rewrite Zplus_mod_idemp_l. rewrite <- H4. f_equal. lia.
Qed.

Lemma cursor_prefix log off a b :
  cursor log off (a ++ b) ->
  cursor (set_w_off log ((off + Zlen a) mod size log)) off a.
Proof.
  intros H. destruct (cursor_app _ _ _ _ H) as [Ha _]. destruct H as [H1 H2 _ _].
  rewrite length_app in H2. split; simpl; auto; lia.
Qed.

Lemma pending_cons log off e q :
  pending log off (e :: q) ->
  entry_ok e /\ pending log ((off + Zlen e) mod size log) q /\
  ring_read (buffer log) (size log) off (Zlen e) = e.
Proof.
  intros [Hc Hf]. inversion Hf; subst. simpl in Hc.
  destruct (cursor_app _ _ _ _ Hc). split_and!; [done| |done]. by split.
Qed.

Lemma get_entry_len_pending log off e q :
  log_wf log -> pending log off (e :: q) -> get_entry_len log off = Some (Zlen e).
Proof.
  intros Hwf Hp. rewrite get_entry_len_eq by (done || apply Hp).
  destruct (pending_cons _ _ _ _ Hp) as ((Hl & He) & _ & Hr).
  replace (Zlen e) with (2 + (Zlen e - 2)) in Hr by lia.
  rewrite ring_read_app in Hr by lia.
  assert (Ht : take 2 e = ring_read (buffer log) (size log) off 2).
  { rewrite <- Hr. rewrite take_app_le by (rewrite ring_read_length; lia).
    apply take_ge. rewrite ring_read_length. lia. }
  rewrite <- Ht. f_equal. u32_simpl. lia.
Qed.

Lemma get_next_entry_loop_pending log fuel off q len count :
  log_wf log -> pending log off q -> 0 <= count < len -> len <= 65536 ->
  len - count <= qlen q -> (Z.to_nat (len - count) < fuel)%nat ->
  exists off', get_next_entry_loop fuel log off len count = Some off' /\
    pending log off' (drop_until (len - count) q).
Proof.
  intros Hwf. revert off q count. pose proof (size_bounds _ Hwf) as Hsz.
  induction fuel as [|fuel IH]; intros off q count Hp Hc Hlen Hq Hf; [lia|].
  destruct q as [|e q]; [unfold qlen in Hq; simpl in Hq; lia|].
  pose proof Hp as [[Ho _ _ _] _].
  destruct (pending_cons _ _ _ _ Hp) as ((Hl & _) & Hp' & _).
  simpl. rewrite (get_entry_len_pending _ _ _ _ Hwf Hp). simpl.
  rewrite qlen_cons in Hq. rewrite logger_offset_mod by done. u32_simpl.
  destruct (Z.ltb_spec (count + Zlen e) len).
  - rewrite (proj2 (Z.ltb_lt _ _)) by lia.
    destruct (IH ((off + Zlen e) mod size log) q (count + Zlen e))
      as (off' & -> & Hoff); [done|lia|done|lia|lia|].
    exists off'. split; [done|].
    replace (len - count - Zlen e) with (len - (count + Zlen e)) by lia. done.
  - rewrite (proj2 (Z.ltb_ge _ _)) by lia. eauto.
Qed.

Lemma get_next_entry_pending log off q len :
  log_wf log -> pending log off q -> 0 < len <= 65536 -> len <= qlen q ->
  exists off', get_next_entry log off len = Some off' /\
    pending log off' (drop_until len q).
Proof.
  intros. unfold get_next_entry.
  destruct (get_next_entry_loop_pending log (S (Z.to_nat len)) off q len 0)
    as (off' & ? & Hp); try done; try lia.
  replace (len - 0) with len in Hp by lia. eauto.
Qed.

(** A cursor is between the old and the new write offset exactly if its
    unread bytes leave no room for the write. *)
Lemma clock_interval_spec sz old off t len :
  0 <= old < sz -> 0 <= off < sz -> 0 <= t < sz -> 0 < len < sz ->
  (off + t) mod sz = old ->
  clock_interval old ((old + len) mod sz) off = (0 <? t) && (sz - t <=? len).
Proof.
  intros Hold Ho Ht Hl He. rewrite ring_pos in He by lia. rewrite ring_pos by lia.
  unfold clock_interval. repeat case_bool_decide; repeat case_match;
    rewrite ?Z.ltb_lt, ?Z.ltb_ge in *; lia.
Qed.

Lemma drop_until_qlen n q : n <= qlen q -> qlen (drop_until n q) + n <= qlen q.
Proof.
  revert n. induction q as [|e q IH]; intros n; simpl.
  - unfold qlen. simpl. lia.
  - rewrite qlen_cons. intros. pose proof (qlen_nonneg q).
    case_match eqn:E; rewrite ?Z.ltb_lt, ?Z.ltb_ge in E.
    + pose proof (IH (n - Zlen e)). lia.
    + lia.
Qed.

Lemma lap_room sz n q : qlen q < sz -> 0 < n -> 2 * n <= sz -> qlen (lap sz n q) + n < sz.
Proof.
  intros. unfold lap. destruct (Z.ltb_spec 0 (qlen q)); simpl; [|lia].
  case_match eqn:E; rewrite ?Z.leb_le, ?Z.leb_gt in E; [|lia].
  pose proof (drop_until_qlen n q). lia.
Qed.

(** What happens to one cursor in [fix_up_readers]. *)
Lemma fix_up_one log off q len :
  log_wf log -> pending log off q -> 0 < len <= LOGGER_ENTRY_MAX_LEN ->
  exists off', (if clock_interval (w_off log) ((w_off log + len) mod size log) off
                then get_next_entry log off len else Some off) = Some off' /\
    pending log off' (lap (size log) len q) /\
    qlen (lap (size log) len q) + len < size log.
Proof.
  unfold LOGGER_ENTRY_MAX_LEN. intros Hwf Hp Hl. pose proof (size_bounds _ Hwf).
  pose proof Hp as [[Ho Hr _ He] _]. change (Zlen (concat q)) with (qlen q) in *.
  pose proof (qlen_nonneg q).
  rewrite (clock_interval_spec (size log) _ _ (qlen q) len); try apply Hwf; try done; try lia.
  pose proof (lap_room (size log) len q) as Hroom.
  unfold lap in *. case_match eqn:E.
  - apply andb_true_iff in E as [E1%Z.ltb_lt E2%Z.leb_le].
    destruct (get_next_entry_pending log off q len) as (off' & -> & ?); try done; try lia.
    exists off'. split_and!; try done. lia.
  - exists off. split_and!; try done. lia.
Qed.

(** [same_pos log log'] : the operation moved no reader and not the head. *)
Record same_pos (log log' : logger_log) : Prop := {
  sp_wf : log_wf log';
  sp_size : size log' = size log;
  sp_minor : minor log' = minor log;
  sp_hd : head log' = head log;
  sp_rds : readers log' = readers log
}.

(** [extends log log' d]: every cursor with room for [d] gains [d]. *)
Definition extends (log log' : logger_log) (d : list Z) : Prop :=
  same_pos log log' /\
  forall off bs, cursor log off bs -> Zlen bs + Zlen d < size log -> cursor log' off (bs ++ d).

(** [keeps log log' n]: every cursor with room for [n] bytes is as it was. *)
Definition keeps (log log' : logger_log) (n : Z) : Prop :=
  same_pos log log' /\
  forall off bs, cursor log off bs -> Zlen bs + n < size log -> cursor log' off bs.

Lemma extends_refl log : log_wf log -> extends log log [].
Proof. intros. split; [done|]. intros. by rewrite app_nil_r. Qed.

Lemma extends_trans log log1 log2 d1 d2 :
  extends log log1 d1 -> extends log1 log2 d2 -> extends log log2 (d1 ++ d2).
Proof.
  intros [[H1 H2 H3 H4 H5] Ha] [[H6 H7 H8 H9 H10] Hb]. split.
  - split; congruence.
  - intros off bs Hc Hr. rewrite length_app in Hr. rewrite app_assoc.
    apply Hb; [apply Ha; [done|lia]|]. rewrite length_app. lia.
Qed.

(** Storing [d] at the write offset and advancing it. *)
Lemma cursor_ring_write log b' d off bs :
  log_wf log -> length b' = length (buffer log) ->
  (forall j, 0 <= j < Zlen d -> zget b' ((w_off log + j) mod size log) = zget d j) ->
  (forall j, Zlen d <= j < size log ->
     zget b' ((w_off log + j) mod size log) = zget (buffer log) ((w_off log + j) mod size log)) ->
  cursor log off bs -> Zlen bs + Zlen d < size log ->
  cursor (set_w_off (set_buffer log b') ((w_off log + Zlen d) mod size log)) off (bs ++ d).
Proof.
  intros Hwf Hlen Hnew Hold [H1 H2 H3 H4] Hr. pose proof (size_bounds _ Hwf).
  split; simpl; rewrite ?length_app, ?Nat2Z.inj_add; try lia.
  - rewrite ring_read_app by lia. f_equal.
    + rewrite <- H3 at 2. rewrite <- (ring_read_mod b'), <- (ring_read_mod (buffer log)).
      replace (off mod size log) with
        ((w_off log + (size log - Zlen bs)) mod size log).
      2:{ rewrite <- H4, Zplus_mod_idemp_l. symmetry.
          replace (off + Zlen bs + (size log - Zlen bs)) with (off + 1 * size log) by lia.
          by rewrite Z_mod_plus_full. }
      rewrite !ring_read_mod. apply (ring_read_kept _ _ _ _ (Zlen d)); [done|lia|lia].
    + rewrite <- ring_read_mod, H4. by apply ring_read_written with (m := buffer log).
  - rewrite <- H4, Zplus_mod_idemp_l. f_equal. lia.
Qed.

(** The same store without advancing: cursors do not notice. *)
Lemma cursor_ring_junk log b' n off bs :
  log_wf log -> 0 <= n ->
  (forall j, n <= j < size log ->
     zget b' ((w_off log + j) mod size log) = zget (buffer log) ((w_off log + j) mod size log)) ->
  cursor log off bs -> Zlen bs + n < size log -> cursor (set_buffer log b') off bs.
Proof.
  intros Hwf Hn Hold [H1 H2 H3 H4] Hr. split; simpl; try done.
  rewrite <- H3 at 2. rewrite <- (ring_read_mod b'), <- (ring_read_mod (buffer log)).
  replace (off mod size log) with ((w_off log + (size log - Zlen bs)) mod size log).
  2:{ rewrite <- H4, Zplus_mod_idemp_l. symmetry.
      replace (off + Zlen bs + (size log - Zlen bs)) with (off + 1 * size log) by lia.
      by rewrite Z_mod_plus_full. }
  rewrite !ring_read_mod. apply (ring_read_kept _ _ _ _ n); [done|lia|lia].
Qed.

Lemma set_wf log b w :
  log_wf log -> length b = length (buffer log) -> 0 <= w < size log ->
  log_wf (set_w_off (set_buffer log b) w).
Proof. intros [] ? ?. split; simpl; [done|congruence|done]. Qed.

(** The two memory operations that both write routines perform. *)
Lemma write_two_pieces log d :
  log_wf log -> Zlen d < size log ->
  let len := Z.min (Zlen d) (size log - w_off log) in
  exists b1 b2,
    mem_write (buffer log) (w_off log) (take (Z.to_nat len) d) = Some b1 /\
    mem_write b1 0 (drop (Z.to_nat len) d) = Some b2 /\
    length b2 = length (buffer log) /\ (Zlen d = len -> b2 = b1) /\
    (forall j, 0 <= j < Zlen d -> zget b2 ((w_off log + j) mod size log) = zget d j) /\
    (forall j, Zlen d <= j < size log ->
       zget b2 ((w_off log + j) mod size log) = zget (buffer log) ((w_off log + j) mod size log)).
Proof.
  intros Hwf Hd len. pose proof Hwf as [_ Hb Hw].
  destruct (ring_write_spec (buffer log) (size log) (w_off log) d)
    as (m' & Hm & Hl & Hn & Ho); [lia..|].
  unfold ring_write in Hm. fold len in Hm.
  apply bind_Some in Hm as (b1 & Hb1 & Hb2).
  exists b1, m'. split_and!; try done.
  intros He. rewrite drop_ge in Hb2 by lia.
  unfold mem_write in Hb2. case_bool_decide; simplify_eq. done.
Qed.

Lemma extends_store log b' d :
  log_wf log -> length b' = length (buffer log) ->
  (forall j, 0 <= j < Zlen d -> zget b' ((w_off log + j) mod size log) = zget d j) ->
  (forall j, Zlen d <= j < size log ->
     zget b' ((w_off log + j) mod size log) = zget (buffer log) ((w_off log + j) mod size log)) ->
  extends log (set_w_off (set_buffer log b') ((w_off log + Zlen d) mod size log)) d.
Proof.
  intros Hwf Hl Hn Ho. pose proof (size_bounds _ Hwf). split.
  - split; try done. apply set_wf; try done. apply Z.mod_pos_bound. lia.
  - intros. by apply cursor_ring_write.
Qed.

Lemma keeps_store log b' n :
  log_wf log -> length b' = length (buffer log) -> 0 <= n ->
  (forall j, n <= j < size log ->
     zget b' ((w_off log + j) mod size log) = zget (buffer log) ((w_off log + j) mod size log)) ->
  keeps log (set_buffer log b') n.
Proof.
  intros Hwf Hl Hn Ho. split.
  - split; try done. destruct Hwf. split; simpl; [done|congruence|done].
  - intros. by apply cursor_ring_junk with n.
Qed.

Lemma keeps_weaken log log' n n' : n <= n' -> keeps log log' n -> keeps log log' n'.
Proof. intros Hn [H1 H2]. split; [done|]. intros. apply H2; [done|lia]. Qed.

Lemma do_write_log_extends log d :
  log_wf log -> Zlen d < size log ->
  exists log', do_write_log log d = Some log' /\ extends log log' d.
Proof.
  intros Hwf Hd. pose proof (size_bounds _ Hwf). pose proof Hwf as [_ _ Hw].
  destruct (write_two_pieces log d) as (b1 & b2 & E1 & E2 & Hl & Heq & Hn & Ho); try done.
  unfold do_write_log. u32_simpl. rewrite E1. simpl.
  eexists. split.
  - instantiate (1 := set_w_off (set_buffer log b2) ((w_off log + Zlen d) mod size log)).
    case_match eqn:E.
    + rewrite E2. simpl. by rewrite logger_offset_buffer, logger_offset_wrap.
    + simpl. rewrite logger_offset_buffer, logger_offset_wrap by done.
      rewrite <- Heq; [done|]. lia.
  - by apply extends_store.
Qed.

(** A segment without bytes. *)
Lemma do_write_log_from_user_zero log u :
  log_wf log -> exists log', do_write_log_from_user log u 0 = Some (0, log') /\ extends log log' [].
Proof.
  intros Hwf. pose proof (size_bounds _ Hwf) as Hs. pose proof Hwf as [_ _ Hw].
  unfold do_write_log_from_user. u32_simpl. set (len := Z.min 0 (size log - w_off log)).
  assert (Hl0 : len = 0) by lia. rewrite Hl0. destruct (copy_from_user u 0 0) as [d1 left1].
  destruct (copy_from_user u 0 (0 - 0)) as [d2 left2]. simpl.
  eexists. split; [done|]. rewrite !logger_offset_buffer. rewrite logger_offset_wrap by done. split; [split; try done|].
  - split; simpl; try apply Hwf. apply Z.mod_pos_bound. lia.
  - intros off bs Hcur _. rewrite app_nil_r. destruct Hcur as [? ? ? He].
    split; simpl; try done. rewrite He. rewrite Z.mod_small; lia.
Qed.

(** What a fault in the first piece leaves. *)
Lemma keeps_first_piece log d b :
  log_wf log -> Zlen d < size log -> Zlen d <= size log - w_off log -> mem_write (buffer log) (w_off log) d = Some b ->
  keeps log (set_buffer log b) (Zlen d).
Proof.
  intros Hwf Hd Hle E. destruct (write_two_pieces log d) as (b1 & b2 & E1 & _ & Hl & Heq & _ & Ho); [done|lia|].
  rewrite Z.min_l in * by lia. rewrite take_ge in E1 by lia. rewrite E in E1. simplify_eq.
  rewrite Heq in * by done. apply keeps_store; try done; lia.
Qed.

(** One segment of a write: either all of it is stored, or the driver reports
    the fault and has only scribbled on free space. *)
Lemma do_write_log_from_user_spec log u count :
  log_wf log -> 0 <= count < size log ->
  exists ret log', do_write_log_from_user log u count = Some (ret, log') /\
    (((count =? 0) || (us_ok u && (count <=? Zlen (us_data u)))) = true ->
       ret = count /\ extends log log' (take (Z.to_nat count) (us_data u))) /\
    (((count =? 0) || (us_ok u && (count <=? Zlen (us_data u)))) = false ->
       ret = - EFAULT /\ w_off log' = w_off log /\ keeps log log' count).
Proof.
  intros Hwf Hc. destruct (Z.eqb_spec count 0) as [-> |Hc0]; cbn [orb].
  { destruct (do_write_log_from_user_zero log u Hwf) as (log' & E & Hx). exists 0, log'. split; [done|]. split; [|done]. by intros _. }
  pose proof (size_bounds _ Hwf) as Hs. pose proof Hwf as [_ _ Hw].
  unfold do_write_log_from_user. u32_simpl.
  set (len := Z.min count (size log - w_off log)).
  pose proof (copy_from_user_length u 0 len) as L1.
  pose proof (copy_from_user_left u 0 len) as Z1.
  pose proof (copy_from_user_ok u 0 len) as D1.
  pose proof (copy_from_user_length u len (count - len)) as L2.
  pose proof (copy_from_user_left u len (count - len)) as Z2.
  pose proof (copy_from_user_ok u len (count - len)) as D2.
  destruct (copy_from_user u 0 len) as [d1 left1].
  destruct (copy_from_user u len (count - len)) as [d2 left2]. simpl in *.
  assert (Hlen : 0 < len <= count) by lia.
  destruct (write_two_pieces log (d1 ++ d2)) as (b1 & b2 & E1 & E2 & Hl & Heq & Hn & Ho);
    [done|rewrite length_app; lia|].
  rewrite length_app, Nat2Z.inj_add, L1, L2 in * by lia.
  replace (len + (count - len)) with count in * by lia. fold len in E1, E2, Heq.
  rewrite take_app_length' in E1 by lia. rewrite drop_app_length' in E2 by lia.
  rewrite (proj2 (Z.eqb_neq len 0)) by lia. simpl. rewrite E1. simpl.
  destruct (Z.eqb_spec left1 0) as [-> |Hl1]; simpl.
  - assert (Hmem : (if negb (count =? len) then mem_write b1 0 d2 else Some b1) = Some b2).
    { destruct (Z.eqb_spec count len); simpl; [|done]. by rewrite Heq. }
    rewrite Hmem. simpl. clear Hmem.
    destruct (negb (count =? len) && negb (left2 =? 0)) eqn:E.
    + apply andb_true_iff in E as [E3%negb_true_iff E4%negb_true_iff].
      rewrite Z.eqb_neq in E3, E4. eexists _, _. split; [done|]. split.
      * intros [Hu Hle]%andb_true_iff. rewrite Z.leb_le in Hle. exfalso. apply E4.
        apply Z2; [lia..|]. right. split; [done|lia].
      * intros _. split; [done|]. split; [done|].
        apply (keeps_store log b2); try done; lia.
    + rewrite !logger_offset_buffer, logger_offset_wrap by done.
      change (set_buffer (set_buffer log b1) b2) with (set_buffer log b2).
      assert (left2 = 0) as ->.
      { apply andb_false_iff in E as [E%negb_false_iff|E%negb_false_iff];
          apply Z.eqb_eq in E; [apply Z2; lia|done]. }
      assert (HD : d1 ++ d2 = take (Z.to_nat count) (us_data u)).
      { rewrite D1, D2 by lia. rewrite drop_0, take_take_drop. f_equal. lia. }
      eexists _, _. split; [done|]. split.
      * intros _. split; [done|]. rewrite <- HD.
        replace count with (Zlen (d1 ++ d2)) in * by (rewrite length_app; lia).
        by apply extends_store.
      * intros Hf. exfalso. destruct Z1 as [Z1 _]; [lia..|].
        destruct Z2 as [Z2 _]; [lia..|].
        destruct (Z1 eq_refl) as [|[Hu ?]]; [lia|]. rewrite Hu in Hf. simpl in Hf.
        rewrite Z.leb_gt in Hf. destruct (Z2 eq_refl) as [|[_ ?]]; lia.
  - eexists _, _. split; [done|]. split.
    + intros [Hu Hle]%andb_true_iff. rewrite Z.leb_le in Hle. exfalso. apply Hl1.
      apply Z1; [lia..|]. right. split; [done|lia].
    + intros _. split; [done|]. split; [done|].
      apply keeps_weaken with (Zlen d1); [lia|]. apply keeps_first_piece; [done|lia|lia|done].
Qed.

Definition iov_wf (iov : list iovec) : Prop := Forall (fun v => 0 <= iov_len v) iov.

Lemma gather_length n iov :
  iov_wf iov -> 0 <= n -> readable n iov = true ->
  Zlen (gather n iov) = Z.min n (iov_total iov).
Proof.
  intros Hwf. revert n. induction Hwf as [|v iov Hv Hwf IH]; intros n Hn Hr; simpl in *; [lia|].
  apply andb_true_iff in Hr as [Hseg Hr]. rewrite length_app, Nat2Z.inj_add.
  rewrite IH by (done || lia). rewrite length_take.
  assert (0 <= iov_total iov).
  { clear -Hwf. induction Hwf; simpl; lia. }
  apply orb_true_iff in Hseg as [Hseg|Hseg]; [|apply andb_true_iff in Hseg as [_ Hseg]];
    lia.
Qed.

Lemma write_segs_spec log0 log d hlen iov ret :
  extends log0 log d -> log_wf log0 -> iov_wf iov -> 0 <= ret <= hlen -> hlen <= 65535 ->
  Zlen d + (hlen - ret) < size log0 ->
  exists r log', write_segs log (w_off log0) hlen iov ret = Some (r, log') /\
    (readable (hlen - ret) iov = true ->
       r = ret + Zlen (gather (hlen - ret) iov) /\
       extends log0 log' (d ++ gather (hlen - ret) iov)) /\
    (readable (hlen - ret) iov = false ->
       r = - EFAULT /\ keeps log0 log' (Zlen d + (hlen - ret))).
Proof.
  intros He Hwf0 Hiov. revert log d ret He.
  induction Hiov as [|v iov Hv Hiov IH]; intros log d ret He Hret Hhl Hroom; simpl.
  - eexists _, _. split; [done|]. split; [|done]. intros _. rewrite app_nil_r.
    split; [lia|done].
  - pose proof He as [[Hwf Hsz _ _ _] Hext].
    u32_simpl. set (len := Z.min (iov_len v) (hlen - ret)).
    destruct (do_write_log_from_user_spec log (iov_base v) len)
      as (nr & log1 & -> & Hok & Hbad); [done|lia|]. simpl.
    destruct ((len =? 0) || _) eqn:E.
    + destruct (Hok eq_refl) as [-> He1]. clear Hok Hbad.
      rewrite (proj2 (Z.ltb_ge len 0)) by lia. simpl.
      assert (Hlt : Zlen (take (Z.to_nat len) (us_data (iov_base v))) = len).
      { rewrite length_take. apply orb_true_iff in E as [E|E];
          [|apply andb_true_iff in E as [_ E]]; lia. }
      destruct (IH log1 (d ++ take (Z.to_nat len) (us_data (iov_base v))) (ret + len))
        as (r & log' & -> & Ha & Hb).
      * by apply extends_trans with log.
      * lia.
      * lia.
      * rewrite length_app. lia.
      * replace (hlen - (ret + len)) with (hlen - ret - len) in * by lia.
        eexists _, _. split; [done|]. split.
        -- intros Hr. destruct (Ha Hr) as [-> ?]. rewrite length_app, app_assoc.
           split; [lia|done].
        -- intros Hr. destruct (Hb Hr) as [-> Hk]. split; [done|].
           rewrite length_app in Hk. by replace (Zlen d + (hlen - ret)) with
             (Z.of_nat (length d + length (take (Z.to_nat len) (us_data (iov_base v))))
              + (hlen - ret - len)) by lia.
    + destruct (Hbad eq_refl) as (-> & Hw & Hk). simpl.
      eexists _, _. split; [done|]. split; [done|]. intros _. split; [done|].
      destruct Hk as [[K1 K2 K3 K4 K5] Hk], He as [[] _].
      pose proof Hwf0 as [_ _ ?].
      split; [split; simpl; try congruence|].
      * destruct K1. split; simpl; [congruence|congruence|lia].
      * intros off bs Hc Hr. assert (Hc' := Hc). apply Hext in Hc'; [|lia].
        apply Hk in Hc'; [|rewrite length_app; lia].
        apply cursor_prefix in Hc'. rewrite K2, Hsz in Hc'.
        by rewrite (cur_end _ _ _ Hc) in Hc'.
Qed.

Lemma cursor_same log log' off bs :
  buffer log' = buffer log -> size log' = size log -> w_off log' = w_off log ->
  cursor log off bs -> cursor log' off bs.
Proof. intros Hb Hs Hw []. split; rewrite ?Hb, ?Hs, ?Hw; done. Qed.

Lemma pending_same log log' off q :
  buffer log' = buffer log -> size log' = size log -> w_off log' = w_off log ->
  pending log off q -> pending log' off q.
Proof. intros ? ? ? []. split; [by apply cursor_same with log|done]. Qed.

Definition room (s : log_spec) (sz n : Z) : Prop :=
  qlen (sp_head s) + n < sz /\ Forall (fun pq => qlen pq.2 + n < sz) (sp_readers s).

Lemma spec_map_fst g s : (sp_readers (spec_map g s)).*1 = (sp_readers s).*1.
Proof. simpl. rewrite <- list_fmap_compose. by apply list_fmap_ext. Qed.

Lemma fix_up_list_spec log len rs prs :
  log_wf log -> 0 < len <= LOGGER_ENTRY_MAX_LEN ->
  Forall2 (reader_rep log) rs prs ->
  let prs' := (fun pq => (pq.1, lap (size log) len pq.2)) <$> prs in
  exists rs', fix_up_list log (w_off log) ((w_off log + len) mod size log) len rs = Some rs' /\
    Forall2 (reader_rep log) rs' prs' /\ Forall (fun pq => qlen pq.2 + len < size log) prs'.
Proof.
  intros Hwf Hlen. induction 1 as [|r [p q] rs prs [Hrd Hp] Hrs IH]; simpl in *.
  - eauto.
  - destruct (fix_up_one log (r_off r) q len) as (off' & -> & Hp' & Hr); try done.
    destruct IH as (rs' & -> & IH1 & IH2). simpl. eexists. split; [done|].
    split; constructor; simpl; try done.
Qed.

Lemma fix_up_readers_spec log s len :
  log_rep log s -> 0 < len <= LOGGER_ENTRY_MAX_LEN ->
  exists log', fix_up_readers log len = Some log' /\
    w_off log' = w_off log /\ size log' = size log /\ buffer log' = buffer log /\
    log_rep log' (spec_lap (size log) len s) /\
    room (spec_lap (size log) len s) (size log) len.
Proof.
  intros [Hwf Hh Hrs Hnd] Hlen. unfold fix_up_readers.
  rewrite logger_offset_wrap by done.
  destruct (fix_up_one log (head log) (sp_head s) len) as (h & -> & Hp & Hr); try done.
  simpl. set (log1 := set_head log h).
  assert (Hwf1 : log_wf log1) by (destruct Hwf; split; done).
  assert (Hrs1 : Forall2 (reader_rep log1) (readers log) (sp_readers s)).
  { eapply Forall2_impl; [exact Hrs|]. intros r pq [? ?]. split; [done|].
    by apply pending_same with log. }
  destruct (fix_up_list_spec log1 len _ _ Hwf1 Hlen Hrs1) as (rs' & Hfix & HF & HR).
  simpl in Hfix. rewrite Hfix. simpl. eexists. split; [done|]. simpl. split_and!; try done.
  split; [by destruct Hwf| | |by unfold spec_lap; rewrite spec_map_fst]; simpl.
  - by apply pending_same with log.
  - eapply Forall2_impl; [exact HF|]. intros r pq [? ?]. split; [done|].
    by apply pending_same with log1.
Qed.

Lemma rep_extends log log' s e :
  log_rep log s -> room s (size log) (Zlen e) -> entry_ok e -> extends log log' e ->
  log_rep log' (spec_map (fun q => q ++ [e]) s).
Proof.
  intros [Hwf Hh Hrs Hnd] [Hr1 Hr2] He [[W1 W2 W3 W4 W5] Hx].
  assert (Hq : forall off q, pending log off q -> qlen q + Zlen e < size log ->
                pending log' off (q ++ [e])).
  { intros off q [Hc Hf] Hr. split; [|apply Forall_app_2; [done|by apply Forall_singleton]].
    rewrite concat_app. simpl. rewrite app_nil_r. by apply Hx. }
  split; [done| | |by rewrite spec_map_fst]; simpl.
  - rewrite W4. by apply Hq.
  - rewrite W5. apply Forall2_fmap_r. apply (Forall2_impl_r _ _ _ _ _ Hrs Hr2).
    intros r pq [? ?] ?. split; simpl; auto.
Qed.

Lemma rep_keeps log log' s n :
  log_rep log s -> room s (size log) n -> keeps log log' n -> log_rep log' s.
Proof.
  intros [Hwf Hh Hrs Hnd] [Hr1 Hr2] [[W1 W2 W3 W4 W5] Hx].
  split; [done| | |done].
  - rewrite W4. destruct Hh. split; [|done]. by apply Hx.
  - rewrite W5. apply (Forall2_impl_r _ _ _ _ _ Hrs Hr2).
    intros r pq [? [? ?]] ?. split; [done|]. split; [|done]. by apply Hx.
Qed.

Lemma entry_bytes_length h : Zlen (entry_bytes h) = 20.
Proof. unfold entry_bytes. rewrite !length_app, !le_bytes_length. done. Qed.

Lemma entry_bytes_ok h payload :
  0 <= le_len h < 65536 -> Zlen payload = le_len h -> entry_ok (entry_bytes h ++ payload).
Proof.
  intros Hl Hp. unfold entry_ok. rewrite length_app, Nat2Z.inj_add, entry_bytes_length, Hp.
  split; [lia|]. f_equal. unfold entry_bytes. rewrite <- !app_assoc.
  rewrite take_app_length' by (by rewrite le_bytes_length).
  rewrite le_decode_bytes. change (256 ^ Z.of_nat 2) with 65536. rewrite Z.mod_small; lia.
Qed.

#[local] Opaque entry_bytes.

Lemma write_locked_spec log s hdr iov :
  log_rep log s -> iov_wf iov -> 0 < le_len hdr <= LOGGER_ENTRY_MAX_PAYLOAD ->
  le_len hdr <= iov_total iov ->
  let n := le_len hdr in
  exists ret log', logger_aio_write_locked log (w_off log) hdr iov = Some (ret, log') /\
    (readable n iov = true ->
       ret = n /\ log_rep log' (spec_write (size log) (entry_bytes hdr ++ gather n iov) s)) /\
    (readable n iov = false ->
       ret = - EFAULT /\ log_rep log' (spec_lap (size log) (20 + n) s)).
Proof.
  intros Hrep Hiov Hlen Htot n.
  change (LOGGER_ENTRY_MAX_PAYLOAD) with 4076 in Hlen. change (le_len hdr) with n in Hlen, Htot.
  unfold logger_aio_write_locked, sizeof_entry. fold n. u32_simpl.
  pose proof (size_bounds _ (rep_wf _ _ Hrep)).
  destruct (fix_up_readers_spec log s (20 + n)) as (log1 & -> & Hw & Hsz & _ & Hrep1 & Hroom);
    [done|unfold LOGGER_ENTRY_MAX_LEN; lia|]. simpl.
  pose proof (rep_wf _ _ Hrep1) as Hwf1.
  destruct (do_write_log_extends log1 (entry_bytes hdr)) as (log2 & -> & He);
    [done|rewrite entry_bytes_length; lia|]. simpl.
  destruct (write_segs_spec log1 log2 (entry_bytes hdr) n iov 0) as (r & log' & Hseg & Hok & Hbad);
    try done; try (rewrite ?entry_bytes_length; lia).
  rewrite Hw in Hseg. rewrite Hseg. replace (n - 0) with n in * by lia.
  rewrite entry_bytes_length in Hbad.
  eexists _, _. split; [done|]. split.
  - intros Hr. destruct (Hok Hr) as [-> Hx].
    pose proof (gather_length n iov Hiov ltac:(lia) Hr) as Hg. rewrite Z.min_l in Hg by lia.
    assert (Hle : Zlen (entry_bytes hdr ++ gather n iov) = 20 + n).
    { rewrite length_app, Nat2Z.inj_add, entry_bytes_length. lia. }
    split; [lia|].
    unfold spec_write. rewrite Hle.
    replace (spec_map _ s) with (spec_map (fun q => q ++ [entry_bytes hdr ++ gather n iov])
                                   (spec_lap (size log) (20 + n) s)).
    + apply rep_extends with log1; try done; [by rewrite Hle, Hsz|].
      apply entry_bytes_ok; [lia|done].
    + unfold spec_map. simpl. by rewrite <- list_fmap_compose.
  - intros Hr. destruct (Hbad Hr) as [-> Hk]. split; [done|].
    apply rep_keeps with log1 (20 + n); try done. by rewrite Hsz.
Qed.

Lemma get_reader_rep log s p q :
  log_rep log s -> spec_queue s p = Some q ->
  exists r, get_reader log p = Some r /\ rd r = p /\ pending log (r_off r) q.
Proof.
  intros [_ _ Hrs _]. unfold spec_queue, get_reader.
  induction Hrs as [|r [p' q'] rs prs [Hrd Hp] Hrs IH]; simpl in *; [done|]. subst p'.
  destruct (decide (rd r = p)).
  - intros Hq. simpl in Hq. simplify_eq. exists r. split_and!; done.
  - intros Hq. destruct IH as (r' & Hr' & ? & ?).
    { by destruct (list_find (fun pq : Z * queue => pq.1 = p) prs) as [[]|]. }
    exists r'. split_and!; try done.
    by destruct (list_find (fun r0 => rd r0 = p) rs) as [[]|].
Qed.

(** Advancing one reader past its first entry. *)
Lemma rep_pop log s p off' :
  log_rep log s ->
  (forall q, spec_queue s p = Some q -> pending log off' (tail q)) ->
  log_rep (set_r_off log p off') (spec_pop p s).
Proof.
  intros [Hwf Hh Hrs Hnd] Hoff. split; simpl.
  - by destruct Hwf.
  - by apply pending_same with log.
  - revert Hnd Hoff. unfold spec_queue.
    induction Hrs as [|r [p' q'] rs prs [Hrd Hp] Hrs IH]; simpl in *; [constructor|].
    intros [Hni Hnd]%NoDup_cons Hoff. subst p'. constructor.
    + destruct (Z.eqb_spec (rd r) p) as [<- |]; split; simpl; try done.
      * apply pending_same with log; try done. apply (Hoff q').
        by rewrite decide_True.
      * by apply pending_same with log.
    + apply IH; [done|]. intros q Hq. apply Hoff.
      destruct (decide (rd r = p)) as [<- |].
      * exfalso. apply Hni. apply list_elem_of_fmap.
        destruct (list_find (fun pq : Z * queue => pq.1 = rd r) prs) as [[i pq]|] eqn:E; [|done].
        apply list_find_Some in E as (E1 & E2 & _). exists pq. split; [done|].
        by apply list_elem_of_lookup_2 with i.
      * by destruct (list_find (fun pq : Z * queue => pq.1 = p) prs) as [[]|].
  - rewrite <- list_fmap_compose.
    replace (_ <$> sp_readers s) with (sp_readers s).*1; [done|].
    apply list_fmap_ext. intros i [p' q'] _. simpl. by case_match.
Qed.

Lemma do_read_log_spec log s p e q buf :
  log_rep log s -> spec_queue s p = Some (e :: q) ->
  (ud_ok buf && (Zlen e <=? ud_room buf) = true ->
     exists log', do_read_log_to_user log p buf (Zlen e) = Some (Zlen e, log', e) /\
       log_rep log' (spec_pop p s)) /\
  (ud_ok buf && (Zlen e <=? ud_room buf) = false ->
     exists out, do_read_log_to_user log p buf (Zlen e) = Some (- EFAULT, log, out) /\
       out `prefix_of` e).
Proof.
  intros Hrep Hq. destruct (get_reader_rep _ _ _ _ Hrep Hq) as (r & Hr & Hrd & Hp).
  pose proof (rep_wf _ _ Hrep) as Hwf. pose proof (size_bounds _ Hwf).
  pose proof Hwf as [_ Hb _]. pose proof Hp as [[Ho Hroom _ _] _].
  simpl in Hroom. rewrite length_app in Hroom.
  destruct (pending_cons _ _ _ _ Hp) as ((Hl & _) & Hp' & Hd).
  unfold do_read_log_to_user. rewrite Hr. simpl. u32_simpl.
  set (len := Z.min (Zlen e) (size log - r_off r)).
  rewrite <- (ring_read_split (buffer log) (size log) (r_off r) (Zlen e) len) in Hd by lia.
  set (d1 := take (Z.to_nat len) (drop (Z.to_nat (r_off r)) (buffer log))) in *.
  set (d2 := take (Z.to_nat (Zlen e - len)) (buffer log)) in *.
  assert (Hl1 : Zlen d1 = len) by (unfold d1; rewrite length_take, length_drop; lia).
  assert (Hl2 : Zlen d2 = Zlen e - len) by (unfold d2; rewrite length_take; lia).
  rewrite (mem_read_Some (buffer log) (r_off r) len) by lia. fold d1. simpl.
  assert (Hm2 : (if negb (Zlen e =? len) then mem_read (buffer log) 0 (Zlen e - len)
                 else Some []) = Some d2).
  { destruct (Z.eqb_spec (Zlen e) len); simpl.
    - destruct d2; [done|simpl in Hl2; lia].
    - by rewrite mem_read_Some by lia. }
  destruct (copy_to_user_left buf 0 d1) as [K1 K1']; [lia|].
  destruct (copy_to_user_left buf len d2) as [K2 K2']; [lia|].
  pose proof (copy_to_user_ok buf 0 d1) as V1. pose proof (copy_to_user_ok buf len d2) as V2.
  pose proof (copy_to_user_prefix buf 0 d1) as P1.
  pose proof (copy_to_user_prefix buf len d2) as P2.
  destruct (copy_to_user buf 0 d1) as [o1 l1].
  destruct (copy_to_user buf len d2) as [o2 l2] eqn:C2. simpl in *.
  split; intros Hc.
  - apply andb_true_iff in Hc as [Hu Hc%Z.leb_le].
    rewrite K1', K2' in * by (right; split; [done|lia]). simpl.
    rewrite Hm2. simpl. rewrite C2. simpl. rewrite V1, V2, Hd by done. eexists. split; [done|]. apply rep_pop; [done|].
    intros q'. rewrite Hq. intros [= <-]. simpl. by rewrite logger_offset_mod.
  - destruct (Z.eqb_spec l1 0) as [-> |]; simpl.
    + rewrite Hm2. simpl. rewrite C2, (V1 eq_refl). destruct (Z.eqb_spec l2 0) as [-> |]; simpl.
      * exfalso. apply andb_false_iff in Hc.
        destruct (K1 eq_refl) as [-> |[Hu ?]]; [simpl in *; lia|]. rewrite Hu, Z.leb_gt in Hc.
        destruct (K2 eq_refl) as [-> |[_ ?]]; simpl in *; lia || (destruct Hc; [done|lia]).
      * eexists. split; [done|]. rewrite <- Hd. by apply prefix_app.
    + eexists. split; [done|]. rewrite <- Hd. by apply prefix_app_r.
Qed.

(** Empty and non-empty queues are told apart by the offsets. *)
Lemma pending_empty log off q :
  pending log off q -> (w_off log =? off) = match q with [] => true | _ => false end.
Proof.
  intros [[H1 H2 _ H4] Hf]. destruct q as [|e q]; simpl in *.
  - apply Z.eqb_eq. rewrite <- H4. rewrite Z.mod_small; lia.
  - apply Z.eqb_neq. inversion Hf as [|? ? [Hl _] _]; subst.
    rewrite length_app in *. rewrite <- H4, ring_pos by lia. case_bool_decide; lia.
Qed.

Lemma read_rep log s f sig buf count q :
  log_rep log s -> spec_queue s (private_data f) = Some q ->
  match q with
  | [] => logger_read log f sig buf count =
            Some (if f_nonblock f then ReadReturns (- EAGAIN)
                  else if sig then ReadReturns (- EINTR) else ReadSleeps, log, [])
  | e :: _ =>
      if count <? Zlen e then
        logger_read log f sig buf count = Some (ReadReturns (- EINVAL), log, [])
      else if ud_ok buf && (Zlen e <=? ud_room buf) then
        exists log', logger_read log f sig buf count = Some (ReadReturns (Zlen e), log', e) /\
          log_rep log' (spec_pop (private_data f) s)
      else exists out, logger_read log f sig buf count =
                         Some (ReadReturns (- EFAULT), log, out) /\ out `prefix_of` e
  end.
Proof.
  intros Hrep Hq. destruct (get_reader_rep _ _ _ _ Hrep Hq) as (r & Hr & Hrd & Hp).
  pose proof (rep_wf _ _ Hrep) as Hwf.
  unfold logger_read, logger_read_wait, logger_read_locked. rewrite Hr. simpl.
  rewrite (pending_empty _ _ _ Hp). destruct q as [|e q]; simpl; [by repeat case_match|].
  rewrite ?(pending_empty _ _ _ Hp).
  rewrite (get_entry_len_pending _ _ _ _ Hwf Hp). simpl.
  destruct (count <? Zlen e); [done|].
  destruct (do_read_log_spec log s (private_data f) e q buf Hrep Hq) as [Hok Hbad].
  destruct (ud_ok buf && (Zlen e <=? ud_room buf)).
  - destruct (Hok eq_refl) as (log' & -> & ?). simpl. eauto.
  - destruct (Hbad eq_refl) as (out & -> & ?). simpl. eauto.
Qed.

Lemma aio_write_rep log s w iov :
  log_rep log s -> iov_wf iov ->
  let hdr := make_header w (iov_total iov) in
  let n := Z.min (iov_total iov) LOGGER_ENTRY_MAX_PAYLOAD in
  exists ret log', logger_aio_write log w (iov_total iov) iov = Some (ret, log') /\
    (n = 0 -> ret = 0 /\ log' = log) /\
    (0 < n -> readable n iov = true ->
       ret = n /\ log_rep log' (spec_write (size log) (entry_bytes hdr ++ gather n iov) s)) /\
    (0 < n -> readable n iov = false ->
       ret = - EFAULT /\ log_rep log' (spec_lap (size log) (20 + n) s)).
Proof.
  intros Hrep Hiov hdr n. unfold logger_aio_write. fold hdr.
  change (le_len hdr) with n.
  assert (Htot : 0 <= iov_total iov) by (clear -Hiov; induction Hiov; simpl; lia).
  change LOGGER_ENTRY_MAX_PAYLOAD with 4076 in n.
  destruct (Z.eqb_spec n 0) as [E|E]; [rewrite E; naive_solver lia|].
  destruct (write_locked_spec log s hdr iov) as (ret & log' & -> & Hok & Hbad); try done;
    try (change (le_len hdr) with n; lia).
  { change (le_len hdr) with n. change LOGGER_ENTRY_MAX_PAYLOAD with 4076. lia. }
  eexists _, _. split; [done|]. split; [lia|]. by split.
Qed.

(** C1.  Writing.  [logger_aio_write] never faults in the kernel, whatever the
    scatter list is.  If user space lets it read the payload, every reader's
    queue gains the new entry at its end, with only the entries [lap] says
    dropped from its front; the return value is the payload's length, cut at
    LOGGER_ENTRY_MAX_PAYLOAD.  If not, it returns -EFAULT and no part of the
    entry is visible to any reader. *)
Theorem logger_aio_write_refines log s w iov :
  log_rep log s -> iov_wf iov ->
  let hdr := make_header w (iov_total iov) in
  let n := Z.min (iov_total iov) LOGGER_ENTRY_MAX_PAYLOAD in
  exists ret log', logger_aio_write log w (iov_total iov) iov = Some (ret, log') /\
    (n = 0 -> ret = 0 /\ log' = log) /\
    (0 < n -> readable n iov = true ->
       ret = n /\ log_rep log' (spec_write (size log) (entry_bytes hdr ++ gather n iov) s)) /\
    (0 < n -> readable n iov = false ->
       ret = - EFAULT /\ log_rep log' (spec_lap (size log) (20 + n) s)).
Proof. apply aio_write_rep. Qed.

(** C2.  Reading.  For a reader whose unread entries are [q], [logger_read]
    returns -EAGAIN, -EINTR or sleeps when [q] is empty, -EINVAL when the
    buffer is shorter than the first entry, -EFAULT when user memory cannot
    hold it, and otherwise delivers exactly the first entry and leaves the
    log that represents the queue without it.  Only a successful read
    changes the log. *)
Theorem logger_read_refines log s f sig buf count q :
  log_rep log s -> spec_queue s (private_data f) = Some q ->
  match q with
  | [] => logger_read log f sig buf count =
            Some (if f_nonblock f then ReadReturns (- EAGAIN)
                  else if sig then ReadReturns (- EINTR) else ReadSleeps, log, [])
  | e :: _ =>
      if count <? Zlen e then
        logger_read log f sig buf count = Some (ReadReturns (- EINVAL), log, [])
      else if ud_ok buf && (Zlen e <=? ud_room buf) then
        exists log', logger_read log f sig buf count = Some (ReadReturns (Zlen e), log', e) /\
          log_rep log' (spec_pop (private_data f) s)
      else exists out, logger_read log f sig buf count =
                         Some (ReadReturns (- EFAULT), log, out) /\ out `prefix_of` e
  end.
Proof. apply read_rep. Qed.

(** The size queries agree with the queue: LOGGER_GET_LOG_LEN is the
    number of unread bytes, LOGGER_GET_NEXT_ENTRY_LEN the length of the next
    entry (0 if there is none), and poll reports readability exactly when an
    entry is waiting. *)
Lemma logger_queries log s f q :
  log_rep log s -> f_read f = true -> spec_queue s (private_data f) = Some q ->
  logger_ioctl log f LOGGER_GET_LOG_LEN = Some (qlen q, log) /\
  logger_ioctl log f LOGGER_GET_NEXT_ENTRY_LEN =
    Some (match q with [] => 0 | e :: _ => Zlen e end, log) /\
  logger_poll log f =
    Some (match q with [] => POLLOUT |ᵤ POLLWRNORM
          | _ => POLLOUT |ᵤ POLLWRNORM |ᵤ (POLLIN |ᵤ POLLRDNORM) end).
Proof.
  intros Hrep Hf Hq. destruct (get_reader_rep _ _ _ _ Hrep Hq) as (r & Hr & Hrd & Hp).
  pose proof (rep_wf _ _ Hrep) as Hwf. pose proof (size_bounds _ Hwf).
  pose proof Hwf as [_ _ Hw]. unfold logger_ioctl, logger_poll. rewrite Hf, Hr. simpl.
  rewrite (pending_empty _ _ _ Hp). split_and!.
  - destruct Hp as [[H1 H2 _ H4] _]. change (Zlen (concat q)) with (qlen q) in *.
    pose proof (qlen_nonneg q). rewrite ring_pos in H4 by lia.
    rewrite Z.geb_leb. destruct (Z.leb_spec (r_off r) (w_off log)); u32_simpl;
      case_bool_decide; do 2 f_equal; lia.
  - destruct q as [|e q]; simpl; [done|]. by rewrite (get_entry_len_pending _ _ _ _ Hwf Hp).
  - by destruct q.
Qed.

Definition spec_empty : log_spec := {| sp_head := []; sp_readers := [] |}.

Lemma pending_nil log off : log_wf log -> off = w_off log -> pending log off [].
Proof.
  intros Hwf ->. pose proof (size_bounds _ Hwf). destruct Hwf as [_ _ Hw].
  split; [|constructor]. split; simpl; try done; [lia|].
  rewrite Z.mod_small; lia.
Qed.

Lemma device_rep m k :
  13 <= k <= 30 -> log_rep (DEFINE_LOGGER_DEVICE m (2 ^ k)) spec_empty.
Proof.
  intros Hk. assert (0 < 2 ^ k) by (apply Z.pow_pos_nonneg; lia).
  assert (Hwf : log_wf (DEFINE_LOGGER_DEVICE m (2 ^ k))).
  { split; simpl; [by exists k|rewrite length_replicate; lia|lia]. }
  split; simpl; [done| |constructor|constructor]. by apply pending_nil.
Qed.

Lemma flush_rep log s f :
  log_rep log s -> f_write f = true ->
  exists log', logger_ioctl log f LOGGER_FLUSH_LOG = Some (0, log') /\ log_rep log' (spec_flush s).
Proof.
  intros [Hwf Hh Hrs Hnd] Hf. unfold logger_ioctl. rewrite Hf. simpl.
  eexists. split; [done|].
  set (log' := set_head _ _). assert (Hwf' : log_wf log') by (destruct Hwf; split; done).
  split; [done|by apply pending_nil| |by unfold spec_flush; rewrite spec_map_fst].
  simpl. apply Forall2_fmap. eapply Forall2_impl; [exact Hrs|].
  intros r pq [? _]. split; [done|]. simpl. by apply pending_nil.
Qed.

Lemma add_reader_rep log s p :
  log_rep log s -> p ∉ (sp_readers s).*1 ->
  log_rep (set_readers log (readers log ++ [{| rd := p; r_off := head log |}])) (spec_open p s).
Proof.
  intros [Hwf Hh Hrs Hnd] Hp.
  assert (Hsame : forall r pq, reader_rep log r pq -> reader_rep
    (set_readers log (readers log ++ [{| rd := p; r_off := head log |}])) r pq).
  { intros r pq [? ?]. split; [done|]. by apply pending_same with log. }
  split; simpl; [by destruct Hwf|by apply pending_same with log| |].
  - apply Forall2_app.
    + eapply Forall2_impl; [exact Hrs|auto].
    + constructor; [|done]. by apply Hsame.
  - rewrite fmap_app. apply NoDup_app. split_and!; [done| |apply NoDup_singleton].
    intros x Hx Hx'. apply list_elem_of_singleton in Hx'. simpl in Hx'. congruence.
Qed.

Lemma release_rep log s f :
  log_rep log s -> f_read f = true ->
  exists log', logger_release log f = (0, log') /\ log_rep log' (spec_close (private_data f) s).
Proof.
  intros [Hwf Hh Hrs Hnd] Hf. unfold logger_release. rewrite Hf. eexists. split; [done|].
  split; simpl; [by destruct Hwf|by apply pending_same with log| |].
  - generalize (filter (fun r => rd r <> private_data f) (readers log)) at 1. intros rs0.
    clear Hnd. induction Hrs as [|r pq rs prs [Hrd Hp] Hrs IH]; [constructor|].
    rewrite !filter_cons. rewrite Hrd. case_decide; [|done].
    constructor; [|done]. split; [done|]. by apply pending_same with log.
  - clear Hrs Hh. induction (sp_readers s) as [|pq l IH]; [constructor|].
    apply NoDup_cons in Hnd as [Hni Hnd]. rewrite filter_cons.
    case_decide; [|auto]. simpl. apply NoDup_cons. split; [|auto].
    intros (pq' & E & [_ Hin]%list_elem_of_filter)%list_elem_of_fmap.
    apply Hni. apply list_elem_of_fmap. eauto.
Qed.

(** Opening for reading finds the log of the minor, gives the new reader
    the entries still held for new readers, and touches no other log; without
    memory for the reader, or without a log of that minor, nothing changes. *)
Lemma logger_open_refines logs m f i log s p :
  get_log_from_minor logs m = Some (i, log) -> log_rep log s ->
  p ∉ (sp_readers s).*1 -> f_read f = true ->
  logger_open logs m f 0 None = (- ENOMEM, logs, f) /\
  exists logs' f' log', logger_open logs m f 0 (Some p) = (0, logs', f') /\
    private_data f' = p /\ logs' !! i = Some log' /\
    (forall j, j <> i -> logs' !! j = logs !! j) /\
    log_rep log' (spec_open p s) /\ spec_queue (spec_open p s) p = Some (sp_head s).
Proof.
  intros Hlog Hrep Hp Hf. unfold logger_open. rewrite Hlog, Hf. simpl. split; [done|].
  unfold get_log_from_minor in Hlog. apply list_find_Some in Hlog as (Hi & _ & _).
  eexists _, _, _. split; [done|]. split; [done|]. split.
  { apply list_lookup_insert_eq. by apply lookup_lt_Some in Hi. }
  split; [intros; by apply list_lookup_insert_ne|].
  split; [by apply add_reader_rep|].
  clear -Hp. unfold spec_queue. simpl. induction (sp_readers s) as [|pq l IH]; simpl.
  - by rewrite decide_True.
  - rewrite fmap_cons, not_elem_of_cons in Hp. destruct Hp as [Hne Hp].
    rewrite decide_False by done. specialize (IH Hp).
    by destruct (list_find _ (l ++ _)) as [[]|].
Qed.

(** ** Every run of the driver

    One operation on an open log, with the conditions under which the rest of
    the kernel issues it: a read or release comes from a file that has a
    reader, and kmalloc returns the address of no live reader. *)
Inductive log_step (log : logger_log) : logger_log -> Prop :=
| step_write w iov ret log' :
    iov_wf iov -> logger_aio_write log w (iov_total iov) iov = Some (ret, log') -> log_step log log'
| step_read f sig buf count res log' out :
    is_Some (get_reader log (private_data f)) ->
    logger_read log f sig buf count = Some (res, log', out) -> log_step log log'
| step_open p :
    p ∉ (rd <$> readers log) ->
    log_step log (set_readers log (readers log ++ [{| rd := p; r_off := head log |}]))
| step_release f : log_step log (snd (logger_release log f))
| step_ioctl f cmd ret log' :
    logger_ioctl log f cmd = Some (ret, log') -> log_step log log'.

Lemma rep_addresses log s : log_rep log s -> (rd <$> readers log) = (sp_readers s).*1.
Proof.
  intros [_ _ Hrs _]. induction Hrs as [|r pq rs prs [Hrd _] _ IH]; [done|].
  rewrite !fmap_cons. by rewrite Hrd, IH.
Qed.

Lemma get_reader_queue log s p :
  log_rep log s -> is_Some (get_reader log p) -> exists q, spec_queue s p = Some q.
Proof.
  intros [_ _ Hrs _]. unfold spec_queue, get_reader.
  induction Hrs as [|r pq rs prs [Hrd _] _ IH]; simpl; [by intros [? ?]|].
  rewrite <- Hrd. destruct (decide (rd r = p)); simpl; [eauto|].
  intros Hs. destruct IH as [q Hq].
  - destruct (list_find (fun r0 => rd r0 = p) rs) as [[]|]; [eauto|by destruct Hs].
  - exists q. by destruct (list_find _ prs) as [[]|].
Qed.

Lemma step_rep log s log' : log_rep log s -> log_step log log' -> exists s', log_rep log' s'.
Proof.
  intros Hrep Hstep.
  destruct Hstep as [w iov ret log' Hiov Hrun|f sig buf count res log' out Hrd Hrun|p Hp|f
                    |f cmd ret log' Hrun].
  - destruct (aio_write_rep log s w iov) as (r & l & Hw & H0 & Hok & Hbad); try done.
    rewrite Hw in Hrun. simplify_eq.
    assert (0 <= iov_total iov) by (clear -Hiov; induction Hiov; simpl; lia).
    destruct (Z.eq_dec (Z.min (iov_total iov) LOGGER_ENTRY_MAX_PAYLOAD) 0) as [E|E].
    + destruct (H0 E) as [_ ->]. eauto.
    + change LOGGER_ENTRY_MAX_PAYLOAD with 4076 in *.
      destruct (readable _ iov); [destruct Hok|destruct Hbad]; try done; try lia; eauto.
  - destruct (get_reader_queue _ _ _ Hrep Hrd) as [q Hq].
    pose proof (read_rep log s f sig buf count q Hrep Hq) as Hr. rewrite Hrun in Hr.
    destruct q as [|e q]; [simplify_eq; eauto|].
    destruct (count <? Zlen e); [simplify_eq; eauto|].
    destruct (ud_ok buf && _); destruct Hr as (? & ? & ?); simplify_eq; eauto.
  - exists (spec_open p s). apply add_reader_rep; [done|]. by rewrite <- (rep_addresses log s).
  - destruct (f_read f) eqn:Hf.
    + destruct (release_rep log s f) as (l & -> & ?); eauto.
    + unfold logger_release. rewrite Hf. eauto.
  - destruct (bool_decide (cmd = LOGGER_FLUSH_LOG /\ f_write f = true)) eqn:E.
    + apply bool_decide_eq_true in E as [-> Hf].
      destruct (flush_rep log s f Hrep Hf) as (l & Hl & ?). rewrite Hl in Hrun. simplify_eq. eauto.
    + exists s. replace log' with log; [done|]. unfold logger_ioctl in Hrun.
      destruct cmd, (f_read f), (f_write f); simplify_option_eq;
        repeat case_match; simplify_option_eq; done.
Qed.

Inductive log_reachable : logger_log -> Prop :=
| reach_init m k : 13 <= k <= 30 -> log_reachable (DEFINE_LOGGER_DEVICE m (2 ^ k))
| reach_step log log' : log_reachable log -> log_step log log' -> log_reachable log'.


(** [get_next_entry] ends on a buffer with arbitrary contents: every entry
    is at least a header long, so at most [len] iterations (and in fact
    [len / 20 + 1]) reach the requested distance, and the offset it returns
    is within the log. *)
Lemma get_next_entry_total log off len :
  log_wf log -> Forall (fun b => 0 <= b < 256) (buffer log) -> 0 <= off < size log ->
  0 <= len <= 65536 ->
  exists off', get_next_entry log off len = Some off' /\ 0 <= off' < size log.
Proof.
  intros Hwf Hb Ho Hl. unfold get_next_entry. pose proof (size_bounds _ Hwf).
  assert (Hgen : forall fuel off count, 0 <= off < size log -> 0 <= count <= len ->
    (Z.to_nat (len - count) < fuel)%nat ->
    exists off', get_next_entry_loop fuel log off len count = Some off' /\ 0 <= off' < size log).
  { induction fuel as [|fuel IH]; intros off0 count Ho0 Hc Hf; [lia|]. simpl.
    rewrite get_entry_len_eq by done.
    assert (Hv : 0 <= le_decode (ring_read (buffer log) (size log) off0 2) < 65536).
    { unfold ring_read. change (Z.to_nat 2) with 2%nat. cbn [seq fmap list_fmap le_decode].
      assert (Hz : forall k, 0 <= zget (buffer log) k < 256).
      { intros k. unfold zget. destruct (nth_in_or_default (Z.to_nat k) (buffer log) 0) as [Hin| ->];
          [|lia]. rewrite Forall_forall in Hb. apply Hb. by apply list_elem_of_In. }
      pose proof (Hz ((off0 + Z.of_nat 0) mod size log)).
      pose proof (Hz ((off0 + Z.of_nat 1) mod size log)). lia. }
    revert Hv. generalize (le_decode (ring_read (buffer log) (size log) off0 2)).
    intros v Hv. simpl. u32_simpl. rewrite logger_offset_mod by done.
    case_match eqn:E; rewrite ?Z.ltb_lt in E.
    - apply IH; [apply Z.mod_pos_bound| |]; lia.
    - eexists. split; [done|]. apply Z.mod_pos_bound. lia. }
  apply Hgen; lia.
Qed.

(** ** A race

    [logger_aio_write] reads log->w_off into [orig] before it takes the mutex
    and restores it on a fault.  A writer that is overtaken in between puts
    back an offset that is no longer the end of the log. *)

Definition race_file : file :=
  {| f_read := true; f_write := false; f_nonblock := true; private_data := 1 |}.
Definition race_writer : writer :=
  {| cur_tgid := 7; cur_pid := 8; now_sec := 9; now_nsec := 10; stack_pad := 0 |}.
Definition good_iov : list iovec :=
  [{| iov_base := {| us_ok := true; us_data := [65] |}; iov_len := 1 |}].
Definition bad_iov : list iovec :=
  [{| iov_base := {| us_ok := false; us_data := [] |}; iov_len := 1 |}].

(** Writer A samples the write offset; writer B appends a one-byte entry and
    the reader consumes it; then A runs its critical section and faults. *)
Definition race_log : logger_log :=
  set_readers (DEFINE_LOGGER_DEVICE 0 (2 ^ 13)) [{| rd := 1; r_off := 0 |}].

Definition race : option (Z * Z * Z) :=
  let orig := w_off race_log in
  '(_, log1) ← logger_aio_write race_log race_writer 1 good_iov;
  '(_, log2, _) ← logger_read log1 race_file false {| ud_ok := true; ud_room := 4096 |} 4096;
  '(unread2, _) ← logger_ioctl log2 race_file LOGGER_GET_LOG_LEN;
  '(ret, log3) ← logger_aio_write_locked log2 orig (make_header race_writer 1) bad_iov;
  '(unread3, _) ← logger_ioctl log3 race_file LOGGER_GET_LOG_LEN;
  Some (ret, unread2, unread3).

(** The race is real: before A's critical section the reader has read
    everything; A fails with -EFAULT, and then the driver claims 8171 unread
    bytes, none of which was ever written as an entry. *)
Lemma logger_stale_orig_race : race = Some (- EFAULT, 0, 8171).
Proof. vm_compute. reflexivity. Qed.

(** ** Witnesses *)

Lemma race_log_rep : log_rep race_log {| sp_head := []; sp_readers := [(1, [])] |}.
Proof.
  apply (add_reader_rep (DEFINE_LOGGER_DEVICE 0 (2 ^ 13)) spec_empty 1).
  - by apply device_rep.
  - apply not_elem_of_nil.
Qed.

Lemma good_iov_wf : iov_wf good_iov.
Proof. repeat constructor. done. Qed.

Definition race_entry : entry := entry_bytes (make_header race_writer 1) ++ [65].

Lemma race_log_written : exists log', logger_aio_write race_log race_writer 1 good_iov = Some (1, log') /\
  log_rep log' {| sp_head := [race_entry]; sp_readers := [(1, [race_entry])] |}.
Proof.
  destruct (aio_write_rep race_log _ race_writer good_iov race_log_rep good_iov_wf)
    as (ret & log' & Hw & _ & Hok & _).
  destruct Hok as [-> Hrep]; [done|done|]. eauto.
Qed.

Lemma logger_aio_write_refines_witness : exists ret log',
  logger_aio_write race_log race_writer 1 good_iov = Some (ret, log') /\ ret = 1 /\
  log_rep log' {| sp_head := [race_entry]; sp_readers := [(1, [race_entry])] |}.
Proof.
  destruct (logger_aio_write_refines race_log _ race_writer good_iov race_log_rep good_iov_wf)
    as (ret & log' & Hw & _ & Hok & _).
  destruct Hok as [-> Hrep]; [done|done|]. eauto.
Defined.

Lemma logger_read_refines_witness : exists log' log'',
  logger_aio_write race_log race_writer 1 good_iov = Some (1, log') /\
  logger_read log' race_file false {| ud_ok := true; ud_room := 4096 |} 4096 =
    Some (ReadReturns 21, log'', race_entry) /\
  log_rep log'' {| sp_head := [race_entry]; sp_readers := [(1, [])] |}.
Proof.
  destruct race_log_written as (log' & Hw & Hrep).
  destruct (logger_read_refines log' _ race_file false {| ud_ok := true; ud_room := 4096 |} 4096
              [race_entry] Hrep eq_refl) as (log'' & Hr & Hrep'').
  exists log', log''. split; [done|]. split; [exact Hr|exact Hrep''].
Defined.


End Logger.
