(* ===== verification/Ashmem.v ===== *)
(** Anonymous shared memory (mm/ashmem.c, include/linux/ashmem.h): areas whose
    pages user space may unpin, the list of unpinned ranges of each area, and
    the global least-recently-unpinned list from which the kernel reclaims.

    [Module Ashmem] is the driver on an explicit store of ranges, which the
    area's list and the LRU list share.  The second half relates the store to
    lists of ranges ([Section]s on pinning, unpinning and reclaim). *)

From Stdlib Require Import Sorted.
From S2P Require Import Prelude.
Local Open Scope Z_scope.
Local Open Scope kernel_scope.

Module Ashmem.

(** ** Constants *)

Definition ASHMEM_NAME_LEN : Z := 256.
(** "dev/ashmem/" and "dev/ashmem", as bytes. *)
Definition ASHMEM_NAME_PREFIX : list Z := [100; 101; 118; 47; 97; 115; 104; 109; 101; 109; 47].
Definition ASHMEM_NAME_DEF : list Z := [100; 101; 118; 47; 97; 115; 104; 109; 101; 109; 0].
Definition ASHMEM_NAME_PREFIX_LEN : Z := 11.
Definition ASHMEM_FULL_NAME_LEN : Z := ASHMEM_NAME_LEN + ASHMEM_NAME_PREFIX_LEN.

Definition ASHMEM_NOT_PURGED : Z := 0.
Definition ASHMEM_WAS_PURGED : Z := 1.
Definition ASHMEM_IS_UNPINNED : Z := 0.
Definition ASHMEM_IS_PINNED : Z := 1.

Definition PROT_READ : Z := 1.
Definition PROT_WRITE : Z := 2.
Definition PROT_EXEC : Z := 4.
Definition PROT_MASK : Z := PROT_EXEC |ᵤ PROT_READ |ᵤ PROT_WRITE.
Definition VM_READ : Z := 1.
Definition VM_EXEC : Z := 4.
Definition VM_SHARED : Z := 8.
Definition VM_MAYREAD : Z := 16.
Definition VM_MAYEXEC : Z := 64.
Definition VM_CAN_NONLINEAR : Z := 0x08000000.

(** ~x on unsigned long *)
Definition lnot32 (x : Z) : Z := u32 (Z.lnot x).

(** ** State *)

Record ashmem_range := mk_range { asma : Z; pgstart : Z; pgend : Z; purged : Z }.

Record ashmem_area := mk_area {
  name : list Z; unpinned_list : list Z; a_file : option Z;
  a_size : Z; vm_start : Z; prot_mask : Z
}.

(** The areas and ranges by address, the LRU list and its page count, the
    reference counts and positions of the backing files. *)
Record ashmem := mk_ash {
  areas : gmap Z ashmem_area; ranges : gmap Z ashmem_range;
  lru_list : list Z; lru_count : Z;
  f_count : gmap Z Z; f_pos : gmap Z Z
}.

Definition set_area (st : ashmem) (a : Z) (v : ashmem_area) : ashmem :=
  mk_ash (<[a := v]> (areas st)) (ranges st) (lru_list st) (lru_count st) (f_count st) (f_pos st).
Definition set_range (st : ashmem) (p : Z) (r : ashmem_range) : ashmem :=
  mk_ash (areas st) (<[p := r]> (ranges st)) (lru_list st) (lru_count st) (f_count st) (f_pos st).
Definition set_lru (st : ashmem) (l : list Z) (n : Z) : ashmem :=
  mk_ash (areas st) (ranges st) l n (f_count st) (f_pos st).
Definition set_count (st : ashmem) (c : gmap Z Z) : ashmem :=
  mk_ash (areas st) (ranges st) (lru_list st) (lru_count st) c (f_pos st).
Definition set_pos (st : ashmem) (c : gmap Z Z) : ashmem :=
  mk_ash (areas st) (ranges st) (lru_list st) (lru_count st) (f_count st) c.

Definition set_unpinned (v : ashmem_area) (l : list Z) : ashmem_area :=
  mk_area (name v) l (a_file v) (a_size v) (vm_start v) (prot_mask v).
Definition set_name_bytes (v : ashmem_area) (n : list Z) : ashmem_area :=
  mk_area n (unpinned_list v) (a_file v) (a_size v) (vm_start v) (prot_mask v).
Definition set_file (v : ashmem_area) (f : option Z) : ashmem_area :=
  mk_area (name v) (unpinned_list v) f (a_size v) (vm_start v) (prot_mask v).
Definition set_size (v : ashmem_area) (n : Z) : ashmem_area :=
  mk_area (name v) (unpinned_list v) (a_file v) n (vm_start v) (prot_mask v).
Definition set_vm_start (v : ashmem_area) (n : Z) : ashmem_area :=
  mk_area (name v) (unpinned_list v) (a_file v) (a_size v) n (prot_mask v).
Definition set_prot (v : ashmem_area) (n : Z) : ashmem_area :=
  mk_area (name v) (unpinned_list v) (a_file v) (a_size v) (vm_start v) n.

(** ** Ranges *)

Definition range_size (r : ashmem_range) : Z := u32 (pgend r - pgstart r + 1).
Definition range_on_lru (r : ashmem_range) : bool := purged r =? ASHMEM_NOT_PURGED.
Definition page_range_subsumes_range (r : ashmem_range) (s e : Z) : bool :=
  (pgstart r >=? s) && (pgend r <=? e).
Definition page_range_subsumed_by_range (r : ashmem_range) (s e : Z) : bool :=
  (pgstart r <=? s) && (pgend r >=? e).
Definition page_in_range (r : ashmem_range) (page : Z) : bool :=
  (pgstart r <=? page) && (pgend r >=? page).
Definition page_range_in_range (r : ashmem_range) (s e : Z) : bool :=
  page_in_range r s || page_in_range r e || page_range_subsumes_range r s e.
Definition range_before_page (r : ashmem_range) (page : Z) : bool := pgend r <? page.

(** list_add_tail next to an entry puts the new one just before it ([None]:
    before the list head, at the end). *)
Fixpoint insert_before (p : Z) (prev : option Z) (l : list Z) : list Z :=
  match l with
  | [] => [p]
  | q :: l' => if bool_decide (prev = Some q) then p :: q :: l'
               else q :: insert_before p prev l'
  end.

Definition lru_add (st : ashmem) (p : Z) (r : ashmem_range) : ashmem :=
  set_lru st (lru_list st ++ [p]) (lru_count st +ᵤ range_size r).

Definition lru_del (st : ashmem) (p : Z) (r : ashmem_range) : ashmem :=
  set_lru st (list_del p (lru_list st)) (lru_count st -ᵤ range_size r).

(** [p] is what kmem_cache_zalloc returns. *)
Definition range_alloc (st : ashmem) (a : Z) (prev : option Z) (purged start end_ : Z)
    (p : option Z) : option (Z * ashmem) :=
  match p with
  | None => Some (- ENOMEM, st)
  | Some p =>
      v ← areas st !! a;
      let r := mk_range a start end_ purged in
      let st := set_range st p r in
      let st := set_area st a (set_unpinned v (insert_before p prev (unpinned_list v))) in
      Some (0, if range_on_lru r then lru_add st p r else st)
  end.

Definition range_del (st : ashmem) (p : Z) : option ashmem :=
  r ← ranges st !! p;
  v ← areas st !! asma r;
  let st := set_area st (asma r) (set_unpinned v (list_del p (unpinned_list v))) in
  let st := if range_on_lru r then lru_del st p r else st in
  Some (mk_ash (areas st) (delete p (ranges st)) (lru_list st) (lru_count st)
          (f_count st) (f_pos st)).

Definition range_shrink (st : ashmem) (p start end_ : Z) : option ashmem :=
  r ← ranges st !! p;
  let pre := range_size r in
  let r' := mk_range (asma r) start end_ (purged r) in
  let st := set_range st p r' in
  Some (if range_on_lru r'
        then set_lru st (lru_list st) (lru_count st -ᵤ (pre -ᵤ range_size r')) else st).

(** ** Pinning *)

(** list_for_each_entry_safe of [ashmem_pin], over what is left of the list. *)
Fixpoint pin_loop (st : ashmem) (a s e ret : Z) (new : option Z) (l : list Z)
    : option (Z * ashmem) :=
  match l with
  | [] => Some (ret, st)
  | p :: l' =>
      r ← ranges st !! p;
      if range_before_page r s then Some (ret, st)
      else if page_range_in_range r s e then
        let ret := ret |ᵤ purged r in
        if page_range_subsumes_range r s e then
          st ← range_del st p; pin_loop st a s e ret new l'
        else if pgstart r >=? s then
          st ← range_shrink st p (e +ᵤ 1) (pgend r); pin_loop st a s e ret new l'
        else if pgend r <=? e then
          st ← range_shrink st p (pgstart r) (s -ᵤ 1); pin_loop st a s e ret new l'
        else
          '(_, st) ← range_alloc st a (Some p) (purged r) (e +ᵤ 1) (pgend r) new;
          st ← range_shrink st p (pgstart r) (s -ᵤ 1);
          Some (ret, st)
      else pin_loop st a s e ret new l'
  end.

Definition ashmem_pin (st : ashmem) (a s e : Z) (new : option Z) : option (Z * ashmem) :=
  v ← areas st !! a; pin_loop st a s e ASHMEM_NOT_PURGED new (unpinned_list v).

(** One pass over the list in [ashmem_unpin]: it ends at the insertion point,
    finds the pages already unpinned, or finds a range to merge. *)
Inductive scan_result := ScanInsert (prev : option Z) | ScanDone | ScanMerge (p : Z) (r : ashmem_range).

Fixpoint unpin_scan (st : ashmem) (s e : Z) (l : list Z) : option scan_result :=
  match l with
  | [] => Some (ScanInsert None)
  | p :: l' =>
      r ← ranges st !! p;
      if range_before_page r s then Some (ScanInsert (Some p))
      else if page_range_subsumed_by_range r s e then Some ScanDone
      else if page_range_in_range r s e then Some (ScanMerge p r)
      else unpin_scan st s e l'
  end.

(** The [restart] loop; every turn but the last deletes a range. *)
Fixpoint unpin_loop (fuel : nat) (st : ashmem) (a s e purged0 : Z) (new : option Z)
    : option (Z * ashmem) :=
  match fuel with
  | O => None
  | S fuel' =>
      v ← areas st !! a;
      res ← unpin_scan st s e (unpinned_list v);
      match res with
      | ScanDone => Some (0, st)
      | ScanInsert prev => range_alloc st a prev purged0 s e new
      | ScanMerge p r =>
          st ← range_del st p;
          unpin_loop fuel' st a (Z.min (pgstart r) s) (Z.max (pgend r) e)
            (purged0 |ᵤ purged r) new
      end
  end.

Definition ashmem_unpin (st : ashmem) (a s e : Z) (new : option Z) : option (Z * ashmem) :=
  v ← areas st !! a;
  unpin_loop (S (length (unpinned_list v))) st a s e ASHMEM_NOT_PURGED new.

Fixpoint pin_status_loop (st : ashmem) (s e : Z) (l : list Z) : option Z :=
  match l with
  | [] => Some ASHMEM_IS_PINNED
  | p :: l' =>
      r ← ranges st !! p;
      if range_before_page r s then Some ASHMEM_IS_PINNED
      else if page_range_in_range r s e then Some ASHMEM_IS_UNPINNED
      else pin_status_loop st s e l'
  end.

Definition ashmem_get_pin_status (st : ashmem) (a s e : Z) : option Z :=
  v ← areas st !! a; pin_status_loop st s e (unpinned_list v).

(** struct ashmem_pin, as user space passes it ([None]: the copy faults). *)
Record ashmem_pin_arg := { pin_offset : Z; pin_len : Z }.

Inductive pin_cmd := ASHMEM_PIN | ASHMEM_UNPIN | ASHMEM_GET_PIN_STATUS.

(** The checks of [ashmem_pin_unpin]: an error, or the first and last page. *)
Definition pin_range (v : ashmem_area) (arg : option ashmem_pin_arg) : Z + (Z * Z) :=
  match a_file v, arg with
  | None, _ => inl (- EINVAL)
  | Some _, None => inl (- EFAULT)
  | Some _, Some pin =>
      let len := if pin_len pin =? 0 then PAGE_ALIGN (a_size v) -ᵤ pin_offset pin
                 else pin_len pin in
      if negb ((pin_offset pin |ᵤ len) &ᵤ (PAGE_SIZE - 1) =? 0) then inl (- EINVAL)
      else if (0xFFFFFFFF -ᵤ pin_offset pin) <? len then inl (- EINVAL)
      else if PAGE_ALIGN (a_size v) <? (pin_offset pin +ᵤ len) then inl (- EINVAL)
      else let s := pin_offset pin / PAGE_SIZE in
           inr (s, (s +ᵤ (len / PAGE_SIZE)) -ᵤ 1)
  end.

Definition ashmem_pin_unpin (st : ashmem) (a : Z) (cmd : pin_cmd)
    (arg : option ashmem_pin_arg) (new : option Z) : option (Z * ashmem) :=
  v ← areas st !! a;
  match pin_range v arg with
  | inl err => Some (err, st)
  | inr (s, e) =>
      match cmd with
      | ASHMEM_PIN => ashmem_pin st a s e new
      | ASHMEM_UNPIN => ashmem_unpin st a s e new
      | ASHMEM_GET_PIN_STATUS => ret ← ashmem_get_pin_status st a s e; Some (ret, st)
      end
  end.

(** ** Reclaim *)

(** A call of vmtruncate_range: the backing file and the byte interval. *)
Record truncation := { tr_file : Z; tr_start : Z; tr_end : Z }.

(** list_for_each_entry_safe of [ashmem_shrink] over the LRU list; nr_to_scan
    is an int from which the unsigned range size is subtracted.  Reading
    range->asma->file->f_dentry needs a backing file. *)
Fixpoint shrink_loop (st : ashmem) (nr : Z) (l : list Z) (tr : list truncation)
    : option (ashmem * list truncation) :=
  match l with
  | [] => Some (st, tr)
  | p :: l' =>
      r ← ranges st !! p;
      v ← areas st !! asma r;
      f ← a_file v;
      let tr := tr ++ [{| tr_file := f; tr_start := u32 (pgstart r * PAGE_SIZE);
                          tr_end := u32 (u32 (u32 (pgend r + 1) * PAGE_SIZE) - 1) |}] in
      let r' := mk_range (asma r) (pgstart r) (pgend r) ASHMEM_WAS_PURGED in
      let st := lru_del (set_range st p r') p r' in
      let nr := s32 (nr - range_size r') in
      if nr <=? 0 then Some (st, tr) else shrink_loop st nr l' tr
  end.

(** [gfp_fs] is gfp_mask & __GFP_FS. *)
Definition ashmem_shrink (st : ashmem) (nr_to_scan : Z) (gfp_fs : bool)
    : option (Z * ashmem * list truncation) :=
  if negb (nr_to_scan =? 0) && negb gfp_fs then Some (-1, st, [])
  else if nr_to_scan =? 0 then Some (s32 (lru_count st), st, [])
  else '(st, tr) ← shrink_loop st nr_to_scan (lru_list st) [];
       Some (s32 (lru_count st), st, tr).

(** ** Areas *)

Definition ashmem_open (st : ashmem) (open_ret : Z) (a : option Z) : Z * ashmem :=
  if negb (open_ret =? 0) then (open_ret, st) else
  match a with
  | None => (- ENOMEM, st)
  | Some a =>
      (0, set_area st a
            (mk_area (ASHMEM_NAME_PREFIX ++ replicate (Z.to_nat ASHMEM_NAME_LEN) 0)
               [] None 0 0 PROT_MASK))
  end.

Fixpoint release_loop (st : ashmem) (l : list Z) : option ashmem :=
  match l with
  | [] => Some st
  | p :: l' => st ← range_del st p; release_loop st l'
  end.

Definition fput (c : gmap Z Z) (f : Z) : gmap Z Z := alter (fun n => n - 1) f c.
Definition get_file (c : gmap Z Z) (f : Z) : gmap Z Z := alter (fun n => n + 1) f c.

Definition ashmem_release (st : ashmem) (a : Z) : option (Z * ashmem) :=
  v ← areas st !! a;
  st ← release_loop st (unpinned_list v);
  let c := match a_file v with Some f => fput (f_count st) f | None => f_count st end in
  Some (0, mk_ash (delete a (areas st)) (ranges st) (lru_list st) (lru_count st) c (f_pos st)).

(** [vfs] is what the backing file's own read/llseek does: its result and the
    position it leaves (in *pos for read, in f_pos for llseek). *)
Definition ashmem_read (st : ashmem) (a : Z) (vfs : Z -> Z * Z) : option (Z * ashmem) :=
  v ← areas st !! a;
  if a_size v =? 0 then Some (0, st) else
  match a_file v with
  | None => Some (- EBADF, st)
  | Some f =>
      let '(r, pos) := vfs f in
      let ret := s32 r in
      if ret <? 0 then Some (ret, st) else Some (ret, set_pos st (<[f := pos]> (f_pos st)))
  end.

(** Returns the value, the state, and the new f_pos of the ashmem file itself
    if it is set.  The 64-bit result goes through an [int]. *)
Definition ashmem_llseek (st : ashmem) (a : Z) (vfs : Z -> Z * Z)
    : option (Z * ashmem * option Z) :=
  v ← areas st !! a;
  if a_size v =? 0 then Some (- EINVAL, st, None) else
  match a_file v with
  | None => Some (- EBADF, st, None)
  | Some f =>
      let '(r, pos) := vfs f in
      let st := set_pos st (<[f := pos]> (f_pos st)) in
      let ret := s32 r in
      if ret <? 0 then Some (ret, st, None) else Some (ret, st, Some pos)
  end.

(** _calc_vm_trans of include/linux/mman.h, for single bits. *)
Definition calc_vm_trans (x bit1 bit2 : Z) : Z :=
  if bit1 <=? bit2 then (x &ᵤ bit1) * (bit2 / bit1) else (x &ᵤ bit1) / (bit1 / bit2).

Definition calc_vm_prot_bits (prot : Z) : Z :=
  calc_vm_trans prot PROT_READ VM_READ |ᵤ calc_vm_trans prot PROT_WRITE VM_WRITE |ᵤ
  calc_vm_trans prot PROT_EXEC VM_EXEC.

Definition calc_vm_may_flags (prot : Z) : Z :=
  calc_vm_trans prot PROT_READ VM_MAYREAD |ᵤ calc_vm_trans prot PROT_WRITE VM_MAYWRITE |ᵤ
  calc_vm_trans prot PROT_EXEC VM_MAYEXEC.

Record vma := mk_vma { vm_flags : Z; vma_start : Z; vm_file : option Z }.

(** shmem_file_setup is given the name, size and flags; it returns an error
    or a new file, whose only reference is the caller's. *)
Definition ashmem_mmap (st : ashmem) (a : Z) (vm : vma)
    (shmem_file_setup : list Z -> Z -> Z -> Z + Z) : option (Z * ashmem * vma) :=
  v ← areas st !! a;
  if a_size v =? 0 then Some (- EINVAL, st, vm) else
  if negb ((vm_flags vm &ᵤ lnot32 (calc_vm_prot_bits (prot_mask v))) &ᵤ
           calc_vm_prot_bits PROT_MASK =? 0) then Some (- EPERM, st, vm) else
  let flags := vm_flags vm &ᵤ lnot32 (calc_vm_may_flags (lnot32 (prot_mask v))) in
  let setup :=
    match a_file v with
    | Some f => inr (f, f_count st)
    | None =>
        let nm := if negb (zget (name v) ASHMEM_NAME_PREFIX_LEN =? 0) then name v
                  else ASHMEM_NAME_DEF in
        match shmem_file_setup nm (a_size v) flags with
        | inl err => inl err
        | inr f => inr (f, <[f := 1]> (f_count st))
        end
    end in
  match setup with
  | inl err => Some (err, st, mk_vma flags (vma_start vm) (vm_file vm))
  | inr (f, c) =>
      let c := get_file c f in
      let c := match vm_file vm with Some g => fput c g | None => c end in
      Some (0, set_count (set_area st a (set_vm_start (set_file v (Some f)) (vma_start vm))) c,
            mk_vma (flags |ᵤ VM_CAN_NONLINEAR) (vma_start vm) (Some f))
  end.

Definition set_prot_mask (st : ashmem) (a prot : Z) (read_implies_exec : bool)
    : option (Z * ashmem) :=
  v ← areas st !! a;
  if negb (prot_mask v &ᵤ prot =? prot) then Some (- EINVAL, st) else
  let prot := if negb (prot &ᵤ PROT_READ =? 0) && read_implies_exec
              then prot |ᵤ PROT_EXEC else prot in
  Some (0, set_area st a (set_prot v prot)).

Definition set_name (st : ashmem) (a : Z) (u : user_src) : option (Z * ashmem) :=
  v ← areas st !! a;
  match a_file v with
  | Some _ => Some (- EINVAL, st)
  | None =>
      let '(d, missing) := copy_from_user u 0 ASHMEM_NAME_LEN in
      n1 ← mem_write (name v) ASHMEM_NAME_PREFIX_LEN d;
      n2 ← mem_write n1 (ASHMEM_FULL_NAME_LEN - 1) [0];
      Some (if negb (missing =? 0) then - EFAULT else 0, set_area st a (set_name_bytes v n2))
  end.

(** strlen: [None] if the string is not terminated within its buffer. *)
Fixpoint strlen (l : list Z) : option Z :=
  match l with
  | [] => None
  | c :: l' => if c =? 0 then Some 0 else n ← strlen l'; Some (n + 1)
  end.

Definition get_name (st : ashmem) (a : Z) (u : user_dst) : option (Z * list Z) :=
  v ← areas st !! a;
  d ← (if negb (zget (name v) ASHMEM_NAME_PREFIX_LEN =? 0) then
         n ← strlen (drop (Z.to_nat ASHMEM_NAME_PREFIX_LEN) (name v));
         mem_read (name v) ASHMEM_NAME_PREFIX_LEN (n + 1)
       else Some ASHMEM_NAME_DEF);
  let '(out, missing) := copy_to_user u 0 d in
  Some (if negb (missing =? 0) then - EFAULT else 0, out).

Inductive cache_op := CacheFlush (lo hi : Z) | CacheClean (lo hi : Z).

(** [flush] tells ASHMEM_CACHE_FLUSH_RANGE from ASHMEM_CACHE_CLEAN_RANGE; the
    outer cache is not configured on this target. *)
Definition ashmem_flush_cache_range (st : ashmem) (a : Z) (flush : bool)
    : option (Z * list cache_op) :=
  v ← areas st !! a;
  let size := a_size v in
  let addr := vm_start v in
  if (addr =? 0) || negb (addr &ᵤ (PAGE_SIZE - 1) =? 0) || (size =? 0) ||
     negb (size &ᵤ (PAGE_SIZE - 1) =? 0)
  then Some (0, [])
  else Some (0, [if flush then CacheFlush addr (addr +ᵤ size)
                 else CacheClean addr (addr +ᵤ size)]).

(** ** ioctl *)

Inductive ashmem_cmd :=
| ASHMEM_SET_NAME (u : user_src) | ASHMEM_GET_NAME (u : user_dst)
| ASHMEM_SET_SIZE (n : Z) | ASHMEM_GET_SIZE
| ASHMEM_SET_PROT_MASK (prot : Z) (read_implies_exec : bool) | ASHMEM_GET_PROT_MASK
| ASHMEM_PINNING (cmd : pin_cmd) (arg : option ashmem_pin_arg) (new : option Z)
| ASHMEM_PURGE_ALL_CACHES (capable : bool)
| ASHMEM_CACHE_FLUSH_RANGE | ASHMEM_CACHE_CLEAN_RANGE
| ASHMEM_OTHER.

Definition ashmem_ioctl (st : ashmem) (a : Z) (cmd : ashmem_cmd) : option (Z * ashmem) :=
  v ← areas st !! a;
  match cmd with
  | ASHMEM_SET_NAME u => set_name st a u
  | ASHMEM_GET_NAME u => '(ret, _) ← get_name st a u; Some (ret, st)
  | ASHMEM_SET_SIZE n =>
      match a_file v with
      | Some _ => Some (- EINVAL, st)
      | None => Some (0, set_area st a (set_size v n))
      end
  | ASHMEM_GET_SIZE => Some (s32 (a_size v), st)
  | ASHMEM_SET_PROT_MASK prot rie => set_prot_mask st a prot rie
  | ASHMEM_GET_PROT_MASK => Some (s32 (prot_mask v), st)
  | ASHMEM_PINNING cmd arg new => ashmem_pin_unpin st a cmd arg new
  | ASHMEM_PURGE_ALL_CACHES capable =>
      if negb capable then Some (- EPERM, st) else
      '(ret, st, _) ← ashmem_shrink st 0 true;
      '(_, st, _) ← ashmem_shrink st ret true;
      Some (ret, st)
  | ASHMEM_CACHE_FLUSH_RANGE => '(ret, _) ← ashmem_flush_cache_range st a true; Some (ret, st)
  | ASHMEM_CACHE_CLEAN_RANGE => '(ret, _) ← ashmem_flush_cache_range st a false; Some (ret, st)
  | ASHMEM_OTHER => Some (- ENOTTY, st)
  end.

(** * The LRU list

    [lru_inv m l n]: [l] lists exactly the unpurged ranges of the store [m],
    once each, and [n] is the number of their pages. *)

Definition size_of (m : gmap Z ashmem_range) (p : Z) : Z :=
  match m !! p with Some r => range_size r | None => 0 end.

Definition lru_pages (m : gmap Z ashmem_range) (l : list Z) : Z :=
  foldr (fun p t => size_of m p + t) 0 l.

Record lru_inv (m : gmap Z ashmem_range) (l : list Z) (n : Z) : Prop := {
  lru_nodup : NoDup l;
  lru_mem : forall p, p ∈ l <-> exists r, m !! p = Some r /\ range_on_lru r = true;
  lru_sum : n = u32 (lru_pages m l)
}.

Lemma lru_pages_same m m' l :
  (forall p, p ∈ l -> size_of m' p = size_of m p) -> lru_pages m' l = lru_pages m l.
Proof.
  induction l as [|p l IH]; intros H; [done|]. simpl.
  rewrite H by (by left). rewrite IH; [done|]. intros. apply H. by right.
Qed.

Lemma lru_pages_app m l1 l2 : lru_pages m (l1 ++ l2) = lru_pages m l1 + lru_pages m l2.
Proof. induction l1; simpl; lia. Qed.

Lemma lru_pages_del m p l :
  NoDup l -> p ∈ l -> lru_pages m l = size_of m p + lru_pages m (list_del p l).
Proof.
  intros Hnd Hp. apply list_elem_of_split in Hp as (l1 & l2 & ->).
  apply NoDup_app in Hnd as (? & Hx & [? ?]%NoDup_cons).
  rewrite list_del_middle; [|intros Hin; apply (Hx _ Hin); by left|done].
  rewrite !lru_pages_app. simpl. lia.
Qed.

Lemma size_of_ne (m : gmap Z ashmem_range) p q r :
  p <> q -> size_of (<[p := r]> m) q = size_of m q.
Proof. intros. unfold size_of. by rewrite lookup_insert_ne. Qed.

Lemma size_of_eq (m : gmap Z ashmem_range) p r : m !! p = Some r -> size_of m p = range_size r.
Proof. intros H. unfold size_of. by rewrite H. Qed.

Lemma lru_inv_delete m l n p r :
  lru_inv m l n -> m !! p = Some r ->
  lru_inv (delete p m) (if range_on_lru r then list_del p l else l)
    (if range_on_lru r then n -ᵤ range_size r else n).
Proof.
  intros [Hnd Hm ->] Hp.
  assert (Hs : forall l', p ∉ l' -> lru_pages (delete p m) l' = lru_pages m l').
  { intros l' Hl'. apply lru_pages_same. intros q Hq. unfold size_of.
    rewrite lookup_delete_ne; [done|]. by intros ->. }
  destruct (range_on_lru r) eqn:Hr.
  - assert (Hin : p ∈ l) by (apply Hm; eauto). split.
    + by apply NoDup_filter.
    + intros q. rewrite elem_list_del, Hm. split.
      * intros [(r' & ? & ?) ?]. exists r'. by rewrite lookup_delete_ne.
      * intros (r' & Hq & ?). apply lookup_delete_Some in Hq as [? ?]. eauto.
    + rewrite u32_idem_sub. rewrite Hs by (by intros [_ ?]%elem_list_del).
      rewrite (lru_pages_del m p l), (size_of_eq m p r) by done. f_equal. lia.
  - assert (Hni : p ∉ l) by (intros (? & ? & ?)%Hm; congruence). split; [done| |].
    + intros q. rewrite Hm. split.
      * intros (r' & ? & ?). exists r'. rewrite lookup_delete_ne; [done|]. intros ->. congruence.
      * intros (r' & Hq & ?). apply lookup_delete_Some in Hq as [? ?]. eauto.
    + by rewrite Hs.
Qed.

Lemma lru_inv_resize m l n p r r' :
  lru_inv m l n -> m !! p = Some r -> purged r' = purged r ->
  lru_inv (<[p := r']> m) l
    (if range_on_lru r' then n -ᵤ (range_size r -ᵤ range_size r') else n).
Proof.
  intros [Hnd Hm ->] Hp Hpu.
  assert (Hon : range_on_lru r' = range_on_lru r) by (unfold range_on_lru; by rewrite Hpu).
  split; [done| |].
  - intros q. rewrite Hm. destruct (decide (p = q)) as [<- |].
    + rewrite lookup_insert_eq, Hp. split; intros (? & [= <-] & ?); eexists;
        (split; [done|congruence]).
    + by rewrite lookup_insert_ne.
  - rewrite Hon. destruct (range_on_lru r) eqn:Hr.
    + assert (Hin : p ∈ l) by (apply Hm; eauto).
      rewrite (lru_pages_del m p l), (lru_pages_del (<[p := r']> m) p l) by done.
      rewrite (size_of_eq m p r), (size_of_eq _ p r') by (done || apply lookup_insert_eq).
      rewrite u32_idem_sub, u32_idem_sub_r.
      rewrite (lru_pages_same m (<[p := r']> m)); [f_equal; lia|].
      intros q [_ ?]%elem_list_del. by apply size_of_ne.
    + f_equal. symmetry. apply lru_pages_same. intros q Hq. apply size_of_ne.
      intros ->. apply Hm in Hq as (? & ? & ?). congruence.
Qed.

Lemma lru_inv_insert m l n p r :
  lru_inv m l n -> m !! p = None ->
  lru_inv (<[p := r]> m) (if range_on_lru r then l ++ [p] else l)
    (if range_on_lru r then n +ᵤ range_size r else n).
Proof.
  intros [Hnd Hm ->] Hp.
  assert (Hni : p ∉ l) by (intros (? & ? & ?)%Hm; congruence).
  assert (Hs : lru_pages (<[p := r]> m) l = lru_pages m l).
  { apply lru_pages_same. intros q Hq. apply size_of_ne. by intros ->. }
  destruct (range_on_lru r) eqn:Hr; split.
  - apply NoDup_app. split_and!; [done| |apply NoDup_singleton].
    intros q Hq ->%list_elem_of_singleton. done.
  - intros q. rewrite elem_of_app, list_elem_of_singleton, Hm.
    destruct (decide (p = q)) as [<- |].
    + rewrite lookup_insert_eq. split; [eauto|by right].
    + rewrite lookup_insert_ne by done. split; [intros [|]; congruence|by left].
  - rewrite lru_pages_app, Hs. simpl.
    rewrite (size_of_eq _ p r) by apply lookup_insert_eq. rewrite u32_idem_add. f_equal. lia.
  - done.
  - intros q. rewrite Hm. destruct (decide (p = q)) as [<- |].
    + rewrite lookup_insert_eq, Hp. split; intros (? & ? & ?); simplify_eq. congruence.
    + by rewrite lookup_insert_ne.
  - by rewrite Hs.
Qed.

Lemma lru_inv_purge m l n p r r' :
  lru_inv m l n -> m !! p = Some r -> range_on_lru r = true -> range_on_lru r' = false ->
  range_size r' = range_size r ->
  lru_inv (<[p := r']> m) (list_del p l) (n -ᵤ range_size r').
Proof.
  intros Hinv Hp Hon Hoff Hsz.
  pose proof (lru_inv_delete m l n p r Hinv Hp) as Hd. rewrite Hon in Hd.
  pose proof (lru_inv_insert _ _ _ p r' Hd (lookup_delete_eq m p)) as Hi.
  by rewrite Hoff, insert_delete_eq, <- Hsz in Hi.
Qed.

(** * Lists of ranges

    What the three operations do to the list of ranges of an area, without
    the store.  Ranges are disjoint and in descending order. *)

(** Page numbers fit in a [size_t] with room to spare: an area has at most
    2^20 pages. *)
Definition PAGE_MAX : Z := 4294967290.

(** A range may be empty ([pgend = pgstart - 1]): [pin_range] lets a request
    for no pages at the end of the area through. *)
Definition seg_ok (r : ashmem_range) : Prop :=
  0 <= pgstart r <= pgend r + 1 /\ 0 <= pgend r <= PAGE_MAX /\ (purged r = 0 \/ purged r = 1).

Definition below (r q : ashmem_range) : Prop := pgend q < pgstart r.

Definition segs_ok (l : list ashmem_range) : Prop := Forall seg_ok l /\ StronglySorted below l.

Definition in_seg (x : Z) (r : ashmem_range) : Prop := pgstart r <= x <= pgend r.

(** The unpinned pages. *)
Definition pages (l : list ashmem_range) (x : Z) : Prop := Exists (in_seg x) l.

Definition within (r' r : ashmem_range) : Prop :=
  pgstart r <= pgstart r' /\ pgstart r' <= pgend r' + 1 /\ 0 <= pgend r' <= pgend r /\
  purged r' = purged r.

Definition inside (r' r : ashmem_range) : Prop :=
  pgstart r <= pgstart r' /\ pgend r' <= pgend r.

Lemma within_inside r' r : within r' r -> inside r' r.
Proof. unfold within, inside. lia. Qed.

Definition resize (r : ashmem_range) (s e : Z) : ashmem_range :=
  mk_range (asma r) s e (purged r).

Fixpoint pin_segs (s e : Z) (alloc_ok : bool) (l : list ashmem_range) : list ashmem_range :=
  match l with
  | [] => []
  | r :: l' =>
      if range_before_page r s then r :: l'
      else if page_range_in_range r s e then
        if page_range_subsumes_range r s e then pin_segs s e alloc_ok l'
        else if pgstart r >=? s then resize r (e + 1) (pgend r) :: pin_segs s e alloc_ok l'
        else if pgend r <=? e then resize r (pgstart r) (s - 1) :: pin_segs s e alloc_ok l'
        else (if alloc_ok then [resize r (e + 1) (pgend r)] else []) ++
             resize r (pgstart r) (s - 1) :: l'
      else r :: pin_segs s e alloc_ok l'
  end.

(** The value [ashmem_pin] accumulates. *)
Fixpoint pin_purged (s e : Z) (l : list ashmem_range) : Z :=
  match l with
  | [] => 0
  | r :: l' =>
      if range_before_page r s then 0
      else if page_range_in_range r s e then
        if page_range_subsumes_range r s e || (pgstart r >=? s) || (pgend r <=? e)
        then purged r |ᵤ pin_purged s e l' else purged r
      else pin_purged s e l'
  end.

Ltac ranges_simpl :=
  unfold range_before_page, page_range_in_range, page_in_range, page_range_subsumes_range,
    page_range_subsumed_by_range in *;
  rewrite ?andb_true_iff, ?andb_false_iff, ?orb_true_iff, ?orb_false_iff, ?Z.geb_leb,
    ?Z.ltb_lt, ?Z.ltb_ge, ?Z.leb_le, ?Z.leb_gt in *.

Lemma StronglySorted_below_pages r l x :
  Forall (below r) l -> pages l x -> x < pgstart r.
Proof.
  intros Hf Hx. apply Exists_exists in Hx as (q & Hq & Hin).
  rewrite Forall_forall in Hf. specialize (Hf _ Hq). unfold below, in_seg in *. lia.
Qed.

Lemma below_trans_inside r r' l :
  inside r' r -> Forall (below r) l -> Forall (below r') l.
Proof.
  intros [? ?] Hf. eapply Forall_impl; [exact Hf|]. intros q. unfold below. lia.
Qed.

(** Every range [pin_segs] leaves is part of an old one. *)
Lemma pin_segs_within s e ok l :
  0 <= s <= e + 1 -> 0 <= e <= PAGE_MAX -> Forall seg_ok l ->
  Forall (fun r' => exists r, r ∈ l /\ within r' r) (pin_segs s e ok l).
Proof.
  intros Hs He. induction 1 as [|r l Hr Hl IH]; simpl; [done|].
  assert (Hrest : Forall (fun r' => exists q, q ∈ r :: l /\ within r' q) (pin_segs s e ok l)).
  { eapply Forall_impl; [exact IH|]. intros r' (q & ? & ?). exists q. split; [by right|done]. }
  assert (Hself : forall l', (forall x, x ∈ l' -> x ∈ r :: l) -> Forall seg_ok l' ->
             Forall (fun r' => exists q, q ∈ r :: l /\ within r' q) l').
  { intros l' Hin Hok. rewrite Forall_forall in *. intros x Hx. exists x.
    split; [auto|]. destruct (Hok _ Hx) as (? & ? & _). unfold within. lia. }
  destruct Hr as (H1 & H2 & H3).
  repeat case_match; ranges_simpl; simpl; repeat apply Forall_cons_2;
    try (exists r; split; [by left|]; unfold within; simpl; lia);
    try done; try (apply Hself; set_solver).
Qed.

Lemma seg_ok_within r r' : seg_ok r -> within r' r -> seg_ok r'.
Proof. unfold seg_ok, within. intros (? & ? & ?) (? & ? & ? & ->). lia. Qed.

Lemma pin_segs_ok s e ok l :
  0 <= s <= e + 1 -> 0 <= e <= PAGE_MAX -> segs_ok l -> segs_ok (pin_segs s e ok l).
Proof.
  intros Hs He [Hok Hsort]. split.
  - pose proof (pin_segs_within s e ok l Hs ltac:(lia) Hok) as Hw. rewrite Forall_forall in *.
    intros r' Hr'. destruct (Hw r' Hr') as (r & Hin & Hwi). by apply (seg_ok_within r); [apply Hok|].
  - induction Hsort as [|r l Hsort IH Hb]; [constructor|].
    apply Forall_cons in Hok as [Hr Hok]. specialize (IH Hok).
    assert (Hrest : Forall (below r) (pin_segs s e ok l)).
    { eapply Forall_impl; [apply (pin_segs_within s e ok l); [exact Hs|lia|exact Hok]|].
      intros r' (q & Hq & Hw). rewrite Forall_forall in Hb. specialize (Hb _ Hq).
      unfold below, within in *. lia. }
    destruct Hr as (H1 & H2 & H3). simpl. repeat case_match; ranges_simpl; simpl; try done.
    all: repeat (apply SSorted_cons || apply Forall_cons_2); try done; try (unfold below; simpl; lia).
    all: eapply Forall_impl; [(exact Hrest || exact Hb)|]; unfold below; simpl; lia.
Qed.

Lemma pages_cons r l x : pages (r :: l) x <-> in_seg x r \/ pages l x.
Proof. unfold pages. by rewrite Exists_cons. Qed.

(** Pinning removes exactly the requested pages. *)
Lemma pin_segs_pages s e l x :
  0 <= s <= e + 1 -> segs_ok l ->
  pages (pin_segs s e true l) x <-> pages l x /\ ~ (s <= x <= e).
Proof.
  intros Hs [Hok Hsort]. induction Hsort as [|r l Hsort IH Hb]; simpl.
  { unfold pages. rewrite Exists_nil. tauto. }
  apply Forall_cons in Hok as [(H1 & H2 & H3) Hok]. specialize (IH Hok).
  pose proof (StronglySorted_below_pages r l x Hb) as Hlow.
  repeat case_match; ranges_simpl; simpl; rewrite ?pages_cons, ?IH; unfold in_seg in *; simpl;
    naive_solver lia.
Qed.

(** Without memory for the second half of a split, pages above the hole stay
    pinned as well; no requested page is left unpinned. *)
Lemma pin_segs_nomem_pages s e l x :
  0 <= s <= e + 1 -> segs_ok l ->
  pages (pin_segs s e false l) x -> pages l x /\ ~ (s <= x <= e).
Proof.
  intros Hs [Hok Hsort]. induction Hsort as [|r l Hsort IH Hb]; simpl.
  { unfold pages. rewrite Exists_nil. tauto. }
  apply Forall_cons in Hok as [(H1 & H2 & H3) Hok]. specialize (IH Hok).
  pose proof (StronglySorted_below_pages r l x Hb) as Hlow.
  repeat case_match; ranges_simpl; simpl; rewrite ?pages_cons; unfold in_seg in *; simpl;
    naive_solver lia.
Qed.

Definition touched (s e : Z) (r : ashmem_range) : Prop := pgstart r <= e /\ s <= pgend r.

(** The returned flag: was any page of the requested interval purged? *)
Lemma pin_purged_spec s e l :
  0 <= s <= e + 1 -> segs_ok l ->
  pin_purged s e l = 1 /\ Exists (fun r => page_range_in_range r s e = true /\ purged r = 1) l \/
  pin_purged s e l = 0 /\ Forall (fun r => touched s e r -> purged r = 0) l.
Proof.
  intros Hs [Hok Hsort]. induction Hsort as [|r l Hsort IH Hb]; simpl; [by right|].
  apply Forall_cons in Hok as [(H1 & H2 & H3) Hok]. specialize (IH Hok).
  assert (Hlow : pgstart r <= s -> Forall (fun q => touched s e q -> purged q = 0) l).
  { intros Hle. eapply Forall_impl; [exact Hb|]. unfold below, touched. intros. lia. }
  destruct (range_before_page r s) eqn:E1.
  { right. split; [done|]. ranges_simpl. apply Forall_cons_2; [unfold touched; lia|]. apply Hlow. lia. }
  destruct (page_range_in_range r s e) eqn:E2.
  - destruct H3 as [Hp|Hp]; rewrite Hp.
    + destruct (_ || _ || _) eqn:E3.
      * rewrite Z.lor_0_l. destruct IH as [[-> IH]|[-> IH]]; [left|right]; (split; [done|]).
        -- by apply Exists_cons_tl.
        -- by apply Forall_cons_2.
      * right. split; [done|]. ranges_simpl. apply Forall_cons_2; [done|]. apply Hlow. lia.
    + left. split; [|by apply Exists_cons_hd]. case_match; [|done].
      by destruct IH as [[-> _]|[-> _]].
  - destruct IH as [[-> IH]|[-> IH]]; [left|right]; (split; [done|]).
    + by apply Exists_cons_tl.
    + apply Forall_cons_2; [|done]. ranges_simpl. unfold touched. lia.
Qed.

Lemma segs_ok_singleton r : seg_ok r -> segs_ok [r].
Proof. intros. split; [by apply Forall_singleton|]. apply SSorted_cons; constructor. Qed.

Lemma segs_ok_app l1 l2 :
  segs_ok (l1 ++ l2) <-> segs_ok l1 /\ segs_ok l2 /\ Forall (fun x => Forall (below x) l2) l1.
Proof.
  induction l1 as [|x l1 IH]; simpl.
  - unfold segs_ok. split; [|tauto]. intros [? ?]. repeat split; first [assumption | constructor].
  - unfold segs_ok in *. split.
    + intros [[Hx H1]%Forall_cons [H2 H3]%StronglySorted_inv].
      destruct IH as [IH _]. destruct (IH (conj H1 H2)) as ([? ?] & [? ?] & ?).
      rewrite Forall_app in H3. destruct H3. repeat split; first [assumption | by constructor].
    + intros ([[? ?]%Forall_cons [? ?]%StronglySorted_inv] & ? & [? ?]%Forall_cons).
      destruct IH as [_ IH]. destruct IH as [? ?]; [done|].
      split; [by constructor|]. constructor; [done|]. by apply Forall_app.
Qed.

(** Replacing a range by parts of it. *)
Lemma segs_ok_replace l1 r mid l2 :
  segs_ok (l1 ++ r :: l2) -> segs_ok mid -> Forall (fun r' => inside r' r) mid ->
  segs_ok (l1 ++ mid ++ l2).
Proof.
  rewrite (segs_ok_app l1 (r :: l2)), (segs_ok_app l1 (mid ++ l2)), (segs_ok_app mid l2).
  intros (? & [[_ Hl2]%Forall_cons [? Hr]%StronglySorted_inv] & Hl1) Hm Hw.
  split_and!; try done.
  - eapply Forall_impl; [exact Hw|]. intros r' Hr'.
    exact (below_trans_inside _ _ _ Hr' Hr).
  - eapply Forall_impl; [exact Hl1|]. intros x [Hx ?]%Forall_cons. apply Forall_app. split; [|done].
    eapply Forall_impl; [exact Hw|]. unfold below, inside in *. intros. lia.
Qed.

(** * The store and the lists *)

(** The addresses [ps] hold the ranges [rs]. *)
Definition realises (m : gmap Z ashmem_range) (ps : list Z) (rs : list ashmem_range) : Prop :=
  Forall2 (fun p r => m !! p = Some r) ps rs.

Record ash_wf (st : ashmem) : Prop := {
  wf_area : forall a v, areas st !! a = Some v ->
    NoDup (unpinned_list v) /\ (unpinned_list v <> [] -> is_Some (a_file v)) /\
    exists rs, realises (ranges st) (unpinned_list v) rs /\ segs_ok rs /\
               Forall (fun r => asma r = a) rs;
  wf_owner : forall p r, ranges st !! p = Some r ->
    exists v, areas st !! asma r = Some v /\ p ∈ unpinned_list v;
  wf_lru : lru_inv (ranges st) (lru_list st) (lru_count st)
}.

Lemma realises_fun m ps rs rs' : realises m ps rs -> realises m ps rs' -> rs = rs'.
Proof.
  intros H. revert rs'. induction H; intros rs' H'; inversion H'; simplify_eq; [done|].
  f_equal. auto.
Qed.

Lemma realises_same m m' ps rs :
  (forall p, p ∈ ps -> m' !! p = m !! p) -> realises m ps rs -> realises m' ps rs.
Proof.
  intros H Hr. induction Hr as [|p r ps rs Hp Hr IH]; [constructor|]. constructor.
  - rewrite H; [done|by left].
  - apply IH. intros. apply H. by right.
Qed.

Lemma realises_impl m m' ps rs :
  (forall p r, r ∈ rs -> m !! p = Some r -> m' !! p = Some r) ->
  realises m ps rs -> realises m' ps rs.
Proof.
  intros H Hr. induction Hr as [|p r ps rs Hp Hr IH]; [constructor|]. constructor.
  - apply H; [by left|done].
  - apply IH. intros. apply H; [by right|done].
Qed.

Lemma realises_elem m ps rs p : realises m ps rs -> p ∈ ps -> exists r, m !! p = Some r /\ r ∈ rs.
Proof.
  intros Hr. induction Hr as [|q r ps rs Hq Hr IH]; [by intros ?%elem_of_nil|].
  intros [-> |Hin]%elem_of_cons; [exists r; split; [done|by left]|].
  destruct (IH Hin) as (r' & ? & ?). exists r'. split; [done|by right].
Qed.

(** [upd a v st st' ps rs]: [st'] differs from [st] in the unpinned ranges of
    area [a] only; these are now [rs], at the addresses [ps]. *)
Record upd (a : Z) (v : ashmem_area) (st st' : ashmem) (ps : list Z)
    (rs : list ashmem_range) : Prop := {
  upd_areas : areas st' = <[a := set_unpinned v ps]> (areas st);
  upd_real : realises (ranges st') ps rs;
  upd_files : f_count st' = f_count st /\ f_pos st' = f_pos st;
  upd_frame : forall p r, asma r <> a -> ranges st' !! p = Some r <-> ranges st !! p = Some r;
  upd_wf : ash_wf st'
}.

Lemma set_unpinned_id v : set_unpinned v (unpinned_list v) = v.
Proof. by destruct v. Qed.

Lemma upd_refl a v st rs :
  ash_wf st -> areas st !! a = Some v -> realises (ranges st) (unpinned_list v) rs ->
  upd a v st st (unpinned_list v) rs.
Proof. intros. split; [|done..]. by rewrite set_unpinned_id, insert_id. Qed.

Lemma upd_lookup a v st st' ps rs : upd a v st st' ps rs -> areas st' !! a = Some (set_unpinned v ps).
Proof. intros H. by rewrite (upd_areas _ _ _ _ _ _ H), lookup_insert_eq. Qed.

Lemma upd_trans a v st st1 st2 ps1 rs1 ps2 rs2 :
  upd a v st st1 ps1 rs1 -> upd a (set_unpinned v ps1) st1 st2 ps2 rs2 -> upd a v st st2 ps2 rs2.
Proof.
  intros [A1 R1 [F1 G1] L1 W1] [A2 R2 [F2 G2] L2 W2]. split; [|done|by split; congruence| |done].
  - by rewrite A2, A1, insert_insert_eq.
  - intros p r Hr. by rewrite L2, L1.
Qed.

(** A new list for area [a], in a new store that agrees with the old one on
    the ranges of other areas, keeps the invariant. *)
Lemma ash_wf_upd st a v ps rs m lru n :
  ash_wf st -> areas st !! a = Some v ->
  NoDup ps -> (ps <> [] -> is_Some (a_file v)) ->
  realises m ps rs -> segs_ok rs -> Forall (fun r => asma r = a) rs ->
  (forall p r, asma r <> a -> m !! p = Some r <-> ranges st !! p = Some r) ->
  (forall p r, m !! p = Some r -> asma r = a -> p ∈ ps) ->
  lru_inv m lru n ->
  upd a v st (mk_ash (<[a := set_unpinned v ps]> (areas st)) m lru n (f_count st) (f_pos st)) ps rs.
Proof.
  intros Hwf Ha Hnd Hf Hre Hok Has Hfr Hown Hlru. split; try done. split; simpl; [| |done].
  - intros b w Hb. destruct (decide (a = b)) as [<- |Hne].
    + rewrite lookup_insert_eq in Hb. simplify_eq. split_and!; [done..|]. by exists rs.
    + rewrite lookup_insert_ne in Hb by done.
      destruct (wf_area _ Hwf _ _ Hb) as (? & ? & rs' & Hr' & ? & Hall). split_and!; [done..|].
      exists rs'. split_and!; [|done..]. rewrite Forall_forall in Hall.
      eapply realises_impl; [|exact Hr']. intros p r Hr Hp. apply Hfr; [|done].
      by rewrite (Hall _ Hr).
  - intros p r Hp. destruct (decide (asma r = a)) as [<- |Hne].
    + rewrite lookup_insert_eq. eauto.
    + rewrite lookup_insert_ne by done. by apply (wf_owner _ Hwf), Hfr.
Qed.

(** The list of one area, around a range of it. *)
Lemma wf_split st a v pre p l :
  ash_wf st -> areas st !! a = Some v -> unpinned_list v = pre ++ p :: l ->
  (p ∉ pre) /\ (p ∉ l) /\ NoDup (pre ++ l) /\ is_Some (a_file v).
Proof.
  intros Hwf Ha Hl. destruct (wf_area _ Hwf _ _ Ha) as (Hnd & Hf & _). rewrite Hl in *.
  pose proof Hnd as (H1 & H2 & [H3 H4]%NoDup_cons)%NoDup_app.
  split_and!; [|done| |].
  - intros Hin. apply (H2 _ Hin). by left.
  - apply NoDup_app. split_and!; [done| |done]. intros x Hx Hx'. apply (H2 _ Hx). by right.
  - apply Hf. by destruct pre.
Qed.

Lemma wf_ranges st a v rs :
  ash_wf st -> areas st !! a = Some v -> realises (ranges st) (unpinned_list v) rs ->
  segs_ok rs /\ Forall (fun r => asma r = a) rs.
Proof.
  intros Hwf Ha Hr. destruct (wf_area _ Hwf _ _ Ha) as (_ & _ & rs' & Hr' & ? & ?).
  by rewrite (realises_fun _ _ _ _ Hr Hr').
Qed.

Lemma wf_owned st a v p r :
  ash_wf st -> areas st !! a = Some v -> ranges st !! p = Some r -> asma r = a ->
  p ∈ unpinned_list v.
Proof.
  intros Hwf Ha Hp Hr. destruct (wf_owner _ Hwf _ _ Hp) as (w & Hw & Hin). by simplify_eq.
Qed.

Lemma realises_mid m pre p l rpre r rl :
  length pre = length rpre -> realises m (pre ++ p :: l) (rpre ++ r :: rl) ->
  realises m pre rpre /\ m !! p = Some r /\ realises m l rl.
Proof.
  intros Hl Hr. apply Forall2_app_inv in Hr as [? Hr]; [|done]. by inversion Hr; subst.
Qed.

Lemma range_del_upd st a v pre p l rpre r rl :
  ash_wf st -> areas st !! a = Some v -> unpinned_list v = pre ++ p :: l ->
  length pre = length rpre -> realises (ranges st) (pre ++ p :: l) (rpre ++ r :: rl) ->
  exists st', range_del st p = Some st' /\ upd a v st st' (pre ++ l) (rpre ++ rl).
Proof.
  intros Hwf Ha Hl Hlen Hre. destruct (wf_split _ _ _ _ _ _ Hwf Ha Hl) as (Hp1 & Hp2 & Hnd & Hf).
  destruct (realises_mid _ _ _ _ _ _ _ Hlen Hre) as (R1 & Hp & R2).
  rewrite <- Hl in Hre. destruct (wf_ranges _ _ _ _ Hwf Ha Hre) as [Hok Has].
  apply Forall_app in Has as [As1 [Hra As2]%Forall_cons].
  unfold range_del. rewrite Hp. simpl. rewrite Hra, Ha. simpl.
  rewrite Hl, list_del_middle by done. eexists. split; [done|].
  pose proof (lru_inv_delete _ _ _ _ _ (wf_lru _ Hwf) Hp) as Hlru.
  assert (Hn : forall q, q ∈ pre ++ l -> delete p (ranges st) !! q = ranges st !! q).
  { intros q [?|?]%elem_of_app; apply lookup_delete_ne; by intros ->. }
  assert (Hc : forall lru n, lru_inv (delete p (ranges st)) lru n ->
    upd a v st (mk_ash (<[a := set_unpinned v (pre ++ l)]> (areas st)) (delete p (ranges st))
      lru n (f_count st) (f_pos st)) (pre ++ l) (rpre ++ rl)); [|destruct (range_on_lru r); by apply Hc].
  intros lru n Hi. apply ash_wf_upd; try done.
  - eapply realises_same; [exact Hn|]. by apply Forall2_app.
  - exact (segs_ok_replace rpre r [] rl Hok ltac:(split; constructor) ltac:(constructor)).
  - by apply Forall_app.
  - intros q r' Hr'. rewrite lookup_delete_Some. split; [tauto|]. intros Hq. split; [|done].
    intros <-. congruence.
  - intros q r' [Hne Hq]%lookup_delete_Some Hr'.
    pose proof (wf_owned _ _ _ _ _ Hwf Ha Hq Hr') as Hin. rewrite Hl in Hin. set_solver.
Qed.

(** Writing a smaller range at the address of an old one. *)
Lemma range_set_upd st a v pre p l rpre r rl r' lru n :
  ash_wf st -> areas st !! a = Some v -> unpinned_list v = pre ++ p :: l ->
  length pre = length rpre -> realises (ranges st) (pre ++ p :: l) (rpre ++ r :: rl) ->
  seg_ok r' -> inside r' r -> asma r' = asma r -> lru_inv (<[p := r']> (ranges st)) lru n ->
  upd a v st (mk_ash (areas st) (<[p := r']> (ranges st)) lru n (f_count st) (f_pos st))
    (pre ++ p :: l) (rpre ++ r' :: rl).
Proof.
  intros Hwf Ha Hl Hlen Hre Hr' Hin Has' Hi.
  destruct (wf_split _ _ _ _ _ _ Hwf Ha Hl) as (Hp1 & Hp2 & Hnd & Hf).
  destruct (realises_mid _ _ _ _ _ _ _ Hlen Hre) as (R1 & Hp & R2).
  rewrite <- Hl in Hre. destruct (wf_ranges _ _ _ _ Hwf Ha Hre) as [Hok Has].
  apply Forall_app in Has as [As1 [Hra As2]%Forall_cons].
  replace (areas st) with (<[a := set_unpinned v (pre ++ p :: l)]> (areas st)) at 1
    by (by rewrite <- Hl, set_unpinned_id, insert_id).
  apply ash_wf_upd; try done.
  - rewrite <- Hl. by destruct (wf_area _ Hwf _ _ Ha).
  - apply Forall2_app; [|constructor; [by rewrite lookup_insert_eq|]];
      (eapply realises_same; [|done]); intros q Hq; apply lookup_insert_ne; by intros ->.
  - apply (segs_ok_replace rpre r [r'] rl Hok); [|by apply Forall_singleton].
    by apply segs_ok_singleton.
  - apply Forall_app. split; [done|]. apply Forall_cons_2; [congruence|done].
  - intros q r1 Hr1. destruct (decide (p = q)) as [<- |].
    + rewrite lookup_insert_eq, Hp. split; intros; simplify_eq; congruence.
    + by rewrite lookup_insert_ne.
  - intros q r1 Hq Hr1. destruct (decide (p = q)) as [<- |]; [set_solver|].
    rewrite lookup_insert_ne in Hq by done.
    rewrite <- Hl. by apply (wf_owned _ _ _ _ _ Hwf Ha Hq).
Qed.

Lemma range_shrink_upd st a v pre p l rpre r rl s e :
  ash_wf st -> areas st !! a = Some v -> unpinned_list v = pre ++ p :: l ->
  length pre = length rpre -> realises (ranges st) (pre ++ p :: l) (rpre ++ r :: rl) ->
  within (resize r s e) r ->
  exists st', range_shrink st p s e = Some st' /\
    upd a v st st' (pre ++ p :: l) (rpre ++ resize r s e :: rl).
Proof.
  intros Hwf Ha Hl Hlen Hre Hw.
  destruct (realises_mid _ _ _ _ _ _ _ Hlen Hre) as (_ & Hp & _).
  unfold range_shrink. rewrite Hp. simpl. eexists. split; [done|]. fold (resize r s e).
  pose proof (lru_inv_resize _ _ _ _ _ (resize r s e) (wf_lru _ Hwf) Hp eq_refl) as Hlru.
  pose proof Hre as Hre'. rewrite <- Hl in Hre'. destruct (wf_ranges _ _ _ _ Hwf Ha Hre') as [Hok _].
  pose proof Hok as (_ & [[Hr _]%Forall_cons _] & _)%segs_ok_app.
  destruct (range_on_lru (resize r s e)); apply (range_set_upd st a v pre p l rpre r); try done;
    by (apply (seg_ok_within r) || apply within_inside).
Qed.

Lemma insert_before_head p pre l :
  NoDup (pre ++ l) -> insert_before p (head l) (pre ++ l) = pre ++ p :: l.
Proof.
  induction pre as [|q pre IH]; simpl; intros Hnd.
  - destruct l as [|q l]; simpl; [done|]. by rewrite bool_decide_eq_true_2.
  - apply NoDup_cons in Hnd as [Hq Hnd]. rewrite IH by done.
    rewrite bool_decide_eq_false_2; [done|]. intros Hh. apply Hq, elem_of_app. right.
    destruct l; simplify_eq/=. by left.
Qed.

Lemma range_alloc_upd st a v pre p l rpre rl pu s e :
  ash_wf st -> areas st !! a = Some v -> unpinned_list v = pre ++ l ->
  length pre = length rpre -> realises (ranges st) (pre ++ l) (rpre ++ rl) ->
  ranges st !! p = None -> is_Some (a_file v) -> segs_ok (rpre ++ mk_range a s e pu :: rl) ->
  exists st', range_alloc st a (head l) pu s e (Some p) = Some (0, st') /\
    upd a v st st' (pre ++ p :: l) (rpre ++ mk_range a s e pu :: rl).
Proof.
  intros Hwf Ha Hl Hlen Hre Hp Hf Hok.
  assert (Hnd : NoDup (pre ++ l)) by (rewrite <- Hl; by destruct (wf_area _ Hwf _ _ Ha)).
  assert (Hni : p ∉ pre ++ l).
  { intros Hin. destruct (realises_elem _ _ _ _ Hre Hin) as (? & ? & _). congruence. }
  unfold range_alloc. rewrite Ha. simpl. rewrite Hl, insert_before_head by done.
  eexists. split; [done|]. set (r := mk_range a s e pu) in *.
  pose proof (lru_inv_insert _ _ _ p r (wf_lru _ Hwf) Hp) as Hlru.
  assert (Hc : forall lru n, lru_inv (<[p := r]> (ranges st)) lru n ->
    upd a v st (mk_ash (<[a := set_unpinned v (pre ++ p :: l)]> (areas st)) (<[p := r]> (ranges st))
      lru n (f_count st) (f_pos st)) (pre ++ p :: l) (rpre ++ r :: rl));
    [|destruct (range_on_lru r); by apply Hc].
  assert (Hn : forall q, q ∈ pre ++ l -> <[p := r]> (ranges st) !! q = ranges st !! q).
  { intros q Hq. apply lookup_insert_ne. by intros ->. }
  pose proof Hre as [R1 R2]%Forall2_app_inv; [|done].
  rewrite <- Hl in Hre. destruct (wf_ranges _ _ _ _ Hwf Ha Hre) as [_ [As1 As2]%Forall_app].
  intros lru n Hi. apply ash_wf_upd; try done.
  - rewrite NoDup_app, NoDup_cons. apply NoDup_app in Hnd as (? & ? & ?). set_solver.
  - apply Forall2_app; [|constructor; [by rewrite lookup_insert_eq|]];
      (eapply realises_same; [|done]); intros q Hq; apply Hn; set_solver.
  - apply Forall_app. split; [done|]. by constructor.
  - intros q r' Hr'. destruct (decide (p = q)) as [<- |].
    + rewrite lookup_insert_eq, Hp. split; intros; simplify_eq.
    + by rewrite lookup_insert_ne.
  - intros q r' Hq Hr'. destruct (decide (p = q)) as [<- |]; [set_solver|].
    rewrite lookup_insert_ne in Hq by done.
    pose proof (wf_owned _ _ _ _ _ Hwf Ha Hq Hr') as Hin. rewrite Hl in Hin. set_solver.
Qed.

(** The split of [ashmem_pin] allocates first and shrinks then; the other
    order gives the same state. *)
Lemma alloc_shrink_comm st st3 a v prev pu s e p q s' e' :
  p <> q -> areas st !! a = Some v -> range_shrink st q s' e' = Some st3 ->
  exists st1 st2, range_alloc st a prev pu s e (Some p) = Some (0, st1) /\
    range_shrink st1 q s' e' = Some st2 /\ range_alloc st3 a prev pu s e (Some p) = Some (0, st2).
Proof.
  intros Hpq Ev Hs. unfold range_alloc, range_shrink in *. rewrite Ev. simpl.
  destruct (ranges st !! q) as [r|] eqn:Eq; simplify_eq/=.
  destruct (range_on_lru (mk_range a s e pu)); eexists _, _; (split; [done|]); simpl;
    rewrite lookup_insert_ne, Eq by done; (split; [done|]);
    simpl; destruct (range_on_lru (mk_range (asma r) s' e' (purged r))); simpl;
    rewrite Ev; simpl; unfold set_range, set_area, set_lru, lru_add; simpl;
    rewrite (insert_insert_ne (ranges st) q p) by done; f_equal; f_equal; f_equal.
  unfold set_lru. simpl. rewrite u32_idem_add, u32_idem_sub. f_equal. f_equal. lia.
Qed.

Definition got (new : option Z) : bool := match new with Some _ => true | None => false end.

(** The split, in both cases of the allocation. *)
Lemma split_upd st a v pre p l rpre r rl s e new :
  ash_wf st -> areas st !! a = Some v -> unpinned_list v = pre ++ p :: l ->
  length pre = length rpre -> realises (ranges st) (pre ++ p :: l) (rpre ++ r :: rl) ->
  (forall q, new = Some q -> ranges st !! q = None) ->
  pgstart r < s -> s <= e + 1 -> e < pgend r -> 0 <= e ->
  exists c st1 st' ps, range_alloc st a (Some p) (purged r) (e + 1) (pgend r) new = Some (c, st1) /\
    range_shrink st1 p (pgstart r) (s - 1) = Some st' /\
    upd a v st st' ps (rpre ++ (if got new then [resize r (e + 1) (pgend r)] else []) ++
                       resize r (pgstart r) (s - 1) :: rl).
Proof.
  intros Hwf Ha Hl Hlen Hre Hnew H1 H2 H3 H4.
  assert (Hre' : realises (ranges st) (unpinned_list v) (rpre ++ r :: rl)) by (by rewrite Hl).
  destruct (wf_ranges _ _ _ _ Hwf Ha Hre') as [Hok [_ [Hra _]%Forall_cons]%Forall_app].
  destruct (wf_split _ _ _ _ _ _ Hwf Ha Hl) as (Hp1 & Hp2 & Hnd & Hf).
  pose proof Hok as (_ & [[(S1 & S2 & S3) _]%Forall_cons _] & _)%segs_ok_app.
  assert (Hw : within (resize r (pgstart r) (s - 1)) r) by (unfold within; simpl; lia).
  destruct (range_shrink_upd _ _ _ _ _ _ _ _ _ (pgstart r) (s - 1) Hwf Ha Hl Hlen Hre Hw)
    as (st3 & Hs3 & U3).
  destruct new as [q|]; [|exists (- ENOMEM), st, st3; eexists; split_and!; done].
  specialize (Hnew q eq_refl). destruct (realises_mid _ _ _ _ _ _ _ Hlen Hre) as (_ & Hp & _).
  assert (Hpq : q <> p) by congruence.
  destruct (alloc_shrink_comm st st3 a v (Some p) (purged r) (e + 1) (pgend r) q p
    _ _ Hpq Ha Hs3) as (st1 & st2 & E1 & E2 & E3).
  destruct (range_alloc_upd st3 a (set_unpinned v (pre ++ p :: l)) pre q (p :: l) rpre
    (resize r (pgstart r) (s - 1) :: rl) (purged r) (e + 1) (pgend r)) as (st2' & Ha2 & U2);
    try done; [apply U3|by eapply upd_lookup|apply U3| | |].
  - unfold range_shrink in Hs3. rewrite Hp in Hs3. simplify_eq/=.
    destruct (range_on_lru _); simpl; by rewrite lookup_insert_ne.
  - refine (segs_ok_replace rpre r [_; _] rl Hok _ _).
    + split; [repeat (apply Forall_cons_2; [unfold seg_ok; simpl; lia|]); constructor|].
      apply SSorted_cons; [apply SSorted_cons; constructor|].
      apply Forall_singleton. unfold below; simpl; lia.
    + repeat (apply Forall_cons_2; [unfold inside; simpl; lia|]); constructor.
  - change (head (p :: l)) with (Some p) in Ha2. rewrite E3 in Ha2. injection Ha2 as <-.
    unfold resize in *. rewrite Hra in *.
    exists 0, st1, st2. eexists. split_and!; [done..|]. by eapply upd_trans.
Qed.

Lemma range_del_fresh st st' p q :
  range_del st p = Some st' -> ranges st !! q = None -> ranges st' !! q = None.
Proof.
  unfold range_del. intros H Hq. destruct (ranges st !! p) as [r|]; simplify_eq/=.
  destruct (areas st !! asma r); simplify_eq/=.
  rewrite lookup_delete_None. right. by destruct (range_on_lru r).
Qed.

Lemma range_shrink_fresh st st' p s e q :
  range_shrink st p s e = Some st' -> ranges st !! q = None -> ranges st' !! q = None.
Proof.
  unfold range_shrink. intros H Hq. destruct (ranges st !! p) as [r|] eqn:Hp; simplify_eq/=.
  destruct (range_on_lru _); simpl; rewrite lookup_insert_ne; congruence.
Qed.

Section pinning.
Context (a s e : Z) (new : option Z) (Hs : 0 <= s <= e + 1) (He : 0 <= e <= PAGE_MAX).

(** [pin_loop] carries out [pin_segs] on the rest [l] of the area's list. *)
Definition pin_loop_ok (l : list Z) : Prop := forall st v pre rpre rl ret,
  ash_wf st -> areas st !! a = Some v -> unpinned_list v = pre ++ l ->
  length pre = length rpre -> realises (ranges st) (pre ++ l) (rpre ++ rl) ->
  (forall q, new = Some q -> ranges st !! q = None) ->
  exists st' ps, pin_loop st a s e ret new l = Some (ret |ᵤ pin_purged s e rl, st') /\
    upd a v st st' ps (rpre ++ pin_segs s e (got new) rl).

(** The loop goes on with the entry [p] kept, as it was or resized. *)
Lemma pin_loop_keep st st1 v pre rpre p l rl r ret :
  pin_loop_ok l -> length pre = length rpre ->
  upd a v st st1 (pre ++ p :: l) (rpre ++ r :: rl) ->
  (forall q, new = Some q -> ranges st1 !! q = None) ->
  exists st' ps, pin_loop st1 a s e ret new l = Some (ret |ᵤ pin_purged s e rl, st') /\
    upd a v st st' ps (rpre ++ r :: pin_segs s e (got new) rl).
Proof.
  intros IH Hlen U Hn1.
  destruct (IH st1 (set_unpinned v (pre ++ p :: l)) (pre ++ [p]) (rpre ++ [r]) rl ret)
    as (st' & ps & H1 & H2); rewrite <- ?app_assoc; try done; try apply U.
  - by eapply upd_lookup.
  - rewrite !length_app. simpl. lia.
  - exists st', ps. split; [done|]. rewrite <- app_assoc in H2. by eapply upd_trans.
Qed.

Lemma pin_loop_upd l : pin_loop_ok l.
Proof.
  induction l as [|p l IH]; intros st v pre rpre rl ret Hwf Ha Hl Hlen Hre Hnew.
  { pose proof Hre as [_ R2]%Forall2_app_inv; [|done]. inversion R2; subst. simpl.
    rewrite Z.lor_0_r. exists st, (unpinned_list v). split; [done|]. apply upd_refl; by rewrite ?Hl. }
  pose proof Hre as [R1 R2]%Forall2_app_inv; [|done]. inversion R2 as [|? r ? rl' Hp Hrl]; subst.
  clear R2. rename rl' into rl. pose proof Hre as Hre'. rewrite <- Hl in Hre'.
  destruct (wf_ranges _ _ _ _ Hwf Ha Hre') as [Hok _].
  pose proof Hok as (_ & [[(S1 & S2 & S3) _]%Forall_cons _] & _)%segs_ok_app.
  simpl. rewrite Hp. simpl. unfold PAGE_MAX in *.
  destruct (range_before_page r s) eqn:E1.
  { exists st, (unpinned_list v). rewrite Z.lor_0_r. split; [done|]. by apply upd_refl. }
  destruct (page_range_in_range r s e) eqn:E2.
  2:{ apply (pin_loop_keep st st v pre rpre p l rl r ret); [done..| |done].
      rewrite <- Hl. by apply upd_refl. }
  destruct (page_range_subsumes_range r s e) eqn:E3; simpl.
  - destruct (range_del_upd _ _ _ _ _ _ _ _ _ Hwf Ha Hl Hlen Hre) as (st1 & H1 & U1). rewrite H1.
    destruct (IH st1 (set_unpinned v (pre ++ l)) pre rpre rl (ret |ᵤ purged r))
      as (st' & ps & H2 & U2); try done; try apply U1.
    + by eapply upd_lookup.
    + intros q Hq. eapply range_del_fresh; [done|]. by apply Hnew.
    + exists st', ps. simpl. rewrite Z.lor_assoc. split; [done|]. by eapply upd_trans.
  - destruct (pgstart r >=? s) eqn:E4; [|destruct (pgend r <=? e) eqn:E5]; ranges_simpl; simpl.
    + u32_simpl. destruct (range_shrink_upd _ _ _ _ _ _ _ _ _ (e + 1) (pgend r) Hwf Ha Hl Hlen Hre)
        as (st1 & H1 & U1); [unfold within; simpl; lia|]. rewrite H1. simpl. rewrite Z.lor_assoc.
      apply (pin_loop_keep st st1 v pre rpre p l); try done.
      intros q Hq. eapply range_shrink_fresh; [done|]. by apply Hnew.
    + u32_simpl. destruct (range_shrink_upd _ _ _ _ _ _ _ _ _ (pgstart r) (s - 1) Hwf Ha Hl Hlen Hre)
        as (st1 & H1 & U1); [unfold within; simpl; lia|]. rewrite H1. simpl. rewrite Z.lor_assoc.
      apply (pin_loop_keep st st1 v pre rpre p l); try done.
      intros q Hq. eapply range_shrink_fresh; [done|]. by apply Hnew.
    + u32_simpl.
      destruct (split_upd _ _ _ _ _ _ _ _ _ s e new Hwf Ha Hl Hlen Hre Hnew)
        as (c & st1 & st' & ps & H1 & H2 & U); try lia.
      rewrite H1. simpl. rewrite H2. simpl. by exists st', ps.
Qed.
End pinning.

(** ** Unpinning *)

(** What one pass over the list finds. *)
Inductive scan_found (s e : Z) (l : list Z) (rl : list ashmem_range) : scan_result -> Prop :=
| found_insert l1 l2 rl1 rl2 :
    l = l1 ++ l2 -> rl = rl1 ++ rl2 -> length l1 = length rl1 ->
    Forall (fun r => e < pgstart r) rl1 -> Forall (fun r => pgend r < s) rl2 ->
    scan_found s e l rl (ScanInsert (head l2))
| found_done r : r ∈ rl -> pgstart r <= s -> e <= pgend r -> scan_found s e l rl ScanDone
| found_merge l1 p l2 rl1 r rl2 :
    l = l1 ++ p :: l2 -> rl = rl1 ++ r :: rl2 -> length l1 = length rl1 ->
    pgstart r <= e + 1 -> s <= pgend r -> scan_found s e l rl (ScanMerge p r).

Lemma unpin_scan_found st s e l rl :
  0 <= s <= e + 1 -> realises (ranges st) l rl -> segs_ok rl ->
  exists res, unpin_scan st s e l = Some res /\ scan_found s e l rl res.
Proof.
  intros Hs Hre. induction Hre as [|p r l rl Hp Hre IH]; intros [Hok Hsort].
  { exists (ScanInsert None). split; [done|]. by apply (found_insert _ _ _ _ [] [] [] []). }
  apply Forall_cons in Hok as [(H1 & H2 & H3) Hok].
  apply StronglySorted_inv in Hsort as [Hsort Hb]. simpl. rewrite Hp. simpl.
  destruct (range_before_page r s) eqn:E1.
  { eexists. split; [done|]. ranges_simpl.
    apply (found_insert _ _ _ _ [] (p :: l) [] (r :: rl)); [done..|].
    apply Forall_cons_2; [done|]. eapply Forall_impl; [exact Hb|]. unfold below. lia. }
  destruct (page_range_subsumed_by_range r s e) eqn:E2.
  { eexists. split; [done|]. ranges_simpl. apply (found_done _ _ _ _ r); [by left|lia..]. }
  destruct (page_range_in_range r s e) eqn:E3.
  { eexists. split; [done|]. ranges_simpl.
    apply (found_merge _ _ _ _ [] p l [] r rl); try done; lia. }
  ranges_simpl. destruct (IH (conj Hok Hsort)) as (res & -> & Hf). exists res. split; [done|].
  destruct Hf as [l1 l2 rl1 rl2 -> -> Hlen ? ?|q ? ? ?|l1 q l2 rl1 r' rl2 -> -> ? ? ?].
  - apply (found_insert _ _ _ _ (p :: l1) l2 (r :: rl1) rl2); try done; [by f_equal/=|].
    apply Forall_cons_2; [lia|done].
  - apply (found_done _ _ _ _ q); [by right|done..].
  - apply (found_merge _ _ _ _ (p :: l1) q l2 (r :: rl1) r' rl2); try done. by f_equal/=.
Qed.

(** Pages that have been purged and not pinned since. *)
Definition flagged (l : list ashmem_range) (x : Z) : Prop :=
  Exists (fun r => in_seg x r /\ purged r = 1) l.

Lemma pages_app l1 l2 x : pages (l1 ++ l2) x <-> pages l1 x \/ pages l2 x.
Proof. apply Exists_app. Qed.

Lemma flagged_app l1 l2 x : flagged (l1 ++ l2) x <-> flagged l1 x \/ flagged l2 x.
Proof. apply Exists_app. Qed.

Lemma flagged_cons r l x : flagged (r :: l) x <-> (in_seg x r /\ purged r = 1) \/ flagged l x.
Proof. apply Exists_cons. Qed.

(** A page lies in at most one range. *)
Lemma pages_mid_disjoint l1 r l2 x :
  segs_ok (l1 ++ r :: l2) -> in_seg x r -> ~ pages (l1 ++ l2) x.
Proof.
  intros (_ & [_ [_ Hb]%StronglySorted_inv] & Ha)%segs_ok_app Hx [Hp|Hp]%pages_app.
  - apply Exists_exists in Hp as (q & Hq & Hin). rewrite Forall_forall in Ha.
    specialize (Ha _ Hq). apply Forall_cons in Ha as [Ha _]. unfold below, in_seg in *. lia.
  - pose proof (StronglySorted_below_pages _ _ _ Hb Hp). unfold in_seg in *. lia.
Qed.

Lemma segs_ok_insert l1 r l2 :
  segs_ok (l1 ++ l2) -> seg_ok r ->
  Forall (fun q => pgend r < pgstart q) l1 -> Forall (fun q => pgend q < pgstart r) l2 ->
  segs_ok (l1 ++ r :: l2).
Proof.
  intros (H1 & [H2 H3] & H4)%segs_ok_app Hr Ha Hb. apply segs_ok_app. split_and!; [done| |].
  - split; [by apply Forall_cons_2|]. by apply SSorted_cons.
  - rewrite Forall_forall in *. intros x Hx. apply Forall_cons_2; [by apply Ha|auto].
Qed.

(** Outcome of unpinning [s..e] in an area with ranges [rs].  [F] are flagged
    pages of ranges already merged into the request. *)
Definition unpinned (rs : list ashmem_range) (s e : Z) (F : Z -> Prop) (new : option Z)
    (c : Z) (rs' : list ashmem_range) : Prop :=
  match new with
  | Some _ => c = 0 /\ (forall x, pages rs' x <-> pages rs x \/ s <= x <= e) /\
              (forall x, F x \/ flagged rs x -> flagged rs' x)
  | None => (c = 0 /\ (forall x, pages rs' x <-> pages rs x \/ s <= x <= e) \/ c = - ENOMEM) /\
            (forall x, pages rs' x -> pages rs x)
  end.

Section unpinning.
Context (a : Z) (new : option Z).

Lemma unpin_insert st v s e pu F l1 l2 rl1 rl2 :
  0 <= s <= e + 1 -> 0 <= e <= PAGE_MAX -> (pu = 0 \/ pu = 1) ->
  (forall x, F x -> s <= x <= e /\ pu = 1) ->
  ash_wf st -> areas st !! a = Some v -> is_Some (a_file v) ->
  unpinned_list v = l1 ++ l2 -> length l1 = length rl1 ->
  realises (ranges st) (unpinned_list v) (rl1 ++ rl2) ->
  (forall q, new = Some q -> ranges st !! q = None) ->
  Forall (fun r => e < pgstart r) rl1 -> Forall (fun r => pgend r < s) rl2 ->
  exists c st' ps rs', range_alloc st a (head l2) pu s e new = Some (c, st') /\
    upd a v st st' ps rs' /\ unpinned (rl1 ++ rl2) s e F new c rs'.
Proof.
  intros Hs He Hpu HF Hwf Ha Hf Hl Hlen Hre Hnew H1 H2.
  destruct new as [q|].
  - destruct (range_alloc_upd st a v l1 q l2 rl1 rl2 pu s e) as (st' & Hal & U); try done.
    + by rewrite <- Hl.
    + by apply Hnew.
    + apply segs_ok_insert; try done. by eapply wf_ranges.
    + exists 0, st', (l1 ++ q :: l2), (rl1 ++ mk_range a s e pu :: rl2).
      split; [done|]. split; [done|]. split; [done|]. split.
      * intros x. rewrite !pages_app, pages_cons. unfold in_seg. simpl. tauto.
      * intros x. rewrite !flagged_app, flagged_cons. unfold in_seg. simpl. specialize (HF x). tauto.
  - exists (- ENOMEM), st, (unpinned_list v), (rl1 ++ rl2). split; [done|]. split; [by apply upd_refl|].
    split; [by right|done].
Qed.

Lemma unpin_merge rl1 r rl2 s e pu F c rs' :
  segs_ok (rl1 ++ r :: rl2) -> pgstart r <= e + 1 -> s <= pgend r -> (pu = 0 \/ pu = 1) ->
  unpinned (rl1 ++ rl2) (Z.min (pgstart r) s) (Z.max (pgend r) e)
    (fun x => F x \/ in_seg x r /\ purged r = 1) new c rs' ->
  unpinned (rl1 ++ r :: rl2) s e F new c rs'.
Proof.
  intros Hok H1 H2 Hpu. unfold unpinned.
  pose proof Hok as (_ & [[(S1 & S2 & S3) _]%Forall_cons _] & _)%segs_ok_app.
  assert (Hp : forall x, pages (rl1 ++ rl2) x \/ Z.min (pgstart r) s <= x <= Z.max (pgend r) e <->
                         pages (rl1 ++ r :: rl2) x \/ s <= x <= e).
  { intros x. rewrite !pages_app, pages_cons. unfold in_seg.
    assert (Z.min (pgstart r) s <= x <= Z.max (pgend r) e <->
            pgstart r <= x <= pgend r \/ s <= x <= e) as -> by lia. tauto. }
  destruct new.
  - intros (-> & Hx & Hfl). split_and!; [done| |].
    + intros x. by rewrite Hx, Hp.
    + intros x Hf. apply Hfl. rewrite !flagged_app in *. rewrite flagged_cons in Hf. tauto.
  - intros (Hc & Hsub). split.
    + destruct Hc as [[-> Hc]| ->]; [left|by right]. split; [done|]. intros x. by rewrite Hc, Hp.
    + intros x Hx. specialize (Hsub x Hx). rewrite pages_app in *. rewrite pages_cons. tauto.
Qed.

(** The [restart] loop ends after at most one turn per range. *)
Lemma unpin_loop_upd fuel : forall st v s e pu F rs,
  0 <= s <= e + 1 -> 0 <= e <= PAGE_MAX -> (pu = 0 \/ pu = 1) ->
  (forall x, F x -> s <= x <= e /\ pu = 1 /\ ~ pages rs x) ->
  ash_wf st -> areas st !! a = Some v -> is_Some (a_file v) ->
  realises (ranges st) (unpinned_list v) rs ->
  (forall q, new = Some q -> ranges st !! q = None) -> (length (unpinned_list v) < fuel)%nat ->
  exists c st' ps rs', unpin_loop fuel st a s e pu new = Some (c, st') /\
    upd a v st st' ps rs' /\ unpinned rs s e F new c rs'.
Proof.
  induction fuel as [|fuel IH]; intros st v s e pu F rs Hs He Hpu HF Hwf Ha Hf Hre Hnew Hfuel; [lia|].
  destruct (wf_ranges _ _ _ _ Hwf Ha Hre) as [Hok _]. simpl. rewrite Ha. simpl.
  destruct (unpin_scan_found st s e _ _ Hs Hre Hok) as (res & -> & Hsc). simpl.
  destruct Hsc as [l1 l2 rl1 rl2 Hl -> Hlen ? ?|r Hr H1 H2|l1 p l2 rl1 r rl2 Hl -> Hlen H1 H2].
  - apply (unpin_insert st v s e pu F l1 l2 rl1 rl2); try done. intros x Hx. by destruct (HF x Hx) as (? & ? & _).
  - exists 0, st, (unpinned_list v), rs. split; [done|]. split; [by apply upd_refl|].
    assert (Hin : forall x, s <= x <= e -> pages rs x).
    { intros x Hx. apply Exists_exists. exists r. split; [done|]. unfold in_seg. lia. }
    unfold unpinned. destruct new; split_and!; try done.
    + intros x. split; [tauto|]. intros [?|?]; auto.
    + intros x [Hx|?]; [|done]. destruct (HF x Hx) as (? & _ & []). auto.
    + left. split; [done|]. intros x. split; [tauto|]. intros [?|?]; auto.
  - pose proof Hre as Hre'. rewrite Hl in Hre'.
    destruct (range_del_upd _ _ _ _ _ _ _ _ _ Hwf Ha Hl Hlen Hre') as (st1 & Hd & U1).
    rewrite Hd. simpl. pose proof Hok as (_ & [[(S1 & S2 & S3) _]%Forall_cons _] & _)%segs_ok_app.
    destruct (IH st1 (set_unpinned v (l1 ++ l2)) (Z.min (pgstart r) s) (Z.max (pgend r) e)
      (pu |ᵤ purged r) (fun x => F x \/ in_seg x r /\ purged r = 1) (rl1 ++ rl2))
      as (c & st' & ps & rs' & Hu & U2 & Hun); try done; try apply U1; try lia.
    + destruct Hpu as [-> | ->], S3 as [-> | ->]; simpl; tauto.
    + intros x [Hx|[Hx Hpx]].
      * destruct (HF x Hx) as (? & -> & Hnp). split_and!; [lia..| |].
        -- destruct S3 as [-> | ->]; done.
        -- intros Hp. apply Hnp. rewrite pages_app in *. rewrite pages_cons. tauto.
      * unfold in_seg in *. split_and!; [lia..| |by apply (pages_mid_disjoint _ r)].
        rewrite Hpx. by destruct Hpu as [-> | ->].
    + by eapply upd_lookup.
    + intros q Hq. eapply range_del_fresh; [done|]. by apply Hnew.
    + simpl. rewrite Hl, length_app in Hfuel. rewrite length_app. simpl in Hfuel. lia.
    + exists c, st', ps, rs'. split; [done|]. split; [by eapply upd_trans|].
      by eapply unpin_merge.
Qed.
End unpinning.

(** ** Reclaim *)

Definition purge (r : ashmem_range) : ashmem_range :=
  mk_range (asma r) (pgstart r) (pgend r) ASHMEM_WAS_PURGED.

Definition purge_all (m : gmap Z ashmem_range) (ps : list Z) : gmap Z ashmem_range :=
  foldl (fun m p => alter purge p m) m ps.

(** The bytes of the backing file that are freed with the range at [p]. *)
Definition freed (st : ashmem) (p : Z) : option truncation :=
  r ← ranges st !! p; v ← areas st !! asma r; f ← a_file v;
  Some {| tr_file := f; tr_start := u32 (pgstart r * PAGE_SIZE);
          tr_end := u32 (u32 (u32 (pgend r + 1) * PAGE_SIZE) - 1) |}.

(** One turn of the loop. *)
Lemma shrink_step st p l :
  ash_wf st -> lru_list st = p :: l ->
  exists r v f, ranges st !! p = Some r /\ areas st !! asma r = Some v /\ a_file v = Some f /\
    range_on_lru r = true /\
    let st' := lru_del (set_range st p (purge r)) p (purge r) in
    ash_wf st' /\ lru_list st' = l /\ areas st' = areas st /\ ranges st' = alter purge p (ranges st).
Proof.
  intros Hwf Hl. destruct (wf_lru _ Hwf) as [Hnd Hm Hn]. rewrite Hl in Hnd, Hm.
  destruct (proj1 (Hm p)) as (r & Hp & Hon); [by left|].
  destruct (wf_owner _ Hwf _ _ Hp) as (v & Ha & Hin).
  destruct (wf_area _ Hwf _ _ Ha) as (_ & Hf & rs & Hre & Hok & _).
  destruct Hf as [f Hf]; [intros E; rewrite E in Hin; by apply elem_of_nil in Hin|].
  exists r, v, f. split_and!; [done..|]. simpl.
  apply list_elem_of_split in Hin as (pre & l' & Hv).
  pose proof Hre as Hre'. rewrite Hv in Hre'.
  apply Forall2_app_inv_l in Hre' as (rpre & rl & R1 & R2 & ->).
  inversion R2 as [|? r0 ? rl' Hp0 Hrl]; simplify_eq.
  assert (Hlen : length pre = length rpre) by (by eapply Forall2_length).
  pose proof Hok as (_ & [[Hr _]%Forall_cons _] & _)%segs_ok_app.
  apply NoDup_cons in Hnd as [Hnp Hnd].
  split_and!; [| |done|].
  - eapply (upd_wf (asma r) v st). rewrite Hv in Hre.
    apply (range_set_upd st _ v pre p l' rpre r rl' (purge r)); try done.
    + destruct Hr as (? & ? & ?). unfold seg_ok. simpl. tauto.
    + apply (lru_inv_purge _ _ _ _ r); try done. by apply (wf_lru _ Hwf).
  - rewrite Hl. apply (list_del_middle p [] l); [by apply not_elem_of_nil|done].
  - apply map_eq. intros q. destruct (decide (p = q)) as [<- |].
    + by rewrite lookup_insert_eq, lookup_alter_eq, Hp.
    + by rewrite lookup_insert_ne, lookup_alter_ne.
Qed.

Lemma size_of_pos m p r : m !! p = Some r -> 0 <= size_of m p.
Proof. intros H. rewrite (size_of_eq _ _ _ H). unfold range_size. pose proof (u32_range (pgend r - pgstart r + 1)). lia. Qed.

Lemma lru_pages_nonneg m l : 0 <= lru_pages m l.
Proof.
  induction l as [|p l IH]; simpl; [lia|]. unfold size_of, range_size. case_match; [|lia].
  pose proof (u32_range (pgend a - pgstart a + 1)). lia.
Qed.

Lemma size_of_alter m p q : size_of (alter purge p m) q = size_of m q.
Proof.
  unfold size_of. destruct (decide (p = q)) as [<- |].
  - rewrite lookup_alter_eq. by destruct (m !! p).
  - by rewrite lookup_alter_ne.
Qed.

Lemma lru_pages_alter m p l : lru_pages (alter purge p m) l = lru_pages m l.
Proof. apply lru_pages_same. intros. apply size_of_alter. Qed.

Lemma freed_alter st st' p (l : list Z) :
  areas st' = areas st -> ranges st' = alter purge p (ranges st) -> freed st' <$> l = freed st <$> l.
Proof.
  intros Ha Hr. apply list_fmap_ext. intros i q _. unfold freed. rewrite Ha, Hr.
  destruct (decide (p = q)) as [<- |]; [|by rewrite lookup_alter_ne].
  rewrite lookup_alter_eq. by destruct (ranges st !! p).
Qed.

(** The loop purges the shortest prefix of the LRU list that has [nr] pages,
    or all of it. *)
Lemma shrink_loop_prefix l : forall st nr tr,
  ash_wf st -> lru_list st = l -> 0 < nr < 2147483648 -> lru_pages (ranges st) l < 2147483648 ->
  exists st' k trs, shrink_loop st nr l tr = Some (st', tr ++ trs) /\ ash_wf st' /\
    areas st' = areas st /\ ranges st' = purge_all (ranges st) (take k l) /\
    lru_list st' = drop k l /\ Some <$> trs = freed st <$> take k l /\
    (drop k l = [] \/ nr <= lru_pages (ranges st) (take k l)) /\
    (forall j, (j < k)%nat -> lru_pages (ranges st) (take j l) < nr).
Proof.
  induction l as [|p l IH]; intros st nr tr Hwf Hl Hnr Hsum.
  { exists st, 0%nat, []. simpl. rewrite app_nil_r. split_and!; try done; [by left|lia]. }
  destruct (shrink_step _ _ _ Hwf Hl) as (r & v & f & Hp & Ha & Hf & Hon & Hst). simpl.
  rewrite Hp. simpl. rewrite Ha. simpl. rewrite Hf. simpl. fold (purge r).
  change (range_size (purge r)) with (range_size r).
  set (st1 := lru_del (set_range st p (purge r)) p (purge r)) in *. cbv zeta in Hst.
  destruct Hst as (Hwf1 & Hl1 & Ha1 & Hr1). simpl in Hsum.
  pose proof (size_of_pos _ _ _ Hp). rewrite (size_of_eq _ _ _ Hp) in *.
  pose proof (lru_pages_nonneg (ranges st) l). rewrite s32_small by lia.
  assert (Hfr : freed st p = Some {| tr_file := f; tr_start := u32 (pgstart r * PAGE_SIZE);
          tr_end := u32 (u32 (u32 (pgend r + 1) * PAGE_SIZE) - 1) |}).
  { unfold freed. by rewrite Hp; simpl; rewrite Ha; simpl; rewrite Hf. }
  destruct (nr - range_size r <=? 0) eqn:E; ranges_simpl.
  - exists st1, 1%nat. eexists [_]. simpl. rewrite ?take_0, ?drop_0, (size_of_eq _ _ _ Hp). simpl.
    split_and!; try done; [by rewrite Hfr|right; lia|].
    intros [|j] ?; [simpl; lia|lia].
  - destruct (IH st1 (nr - range_size r) (tr ++ [{| tr_file := f;
        tr_start := u32 (pgstart r * PAGE_SIZE);
        tr_end := u32 (u32 (u32 (pgend r + 1) * PAGE_SIZE) - 1) |}]) Hwf1 Hl1)
      as (st' & k & trs & Hsh & Hwf' & Ha' & Hr' & Hl' & Htr & Hend & Hmin); [lia| |].
    + rewrite Hr1, lru_pages_alter. lia.
    + rewrite Hr1 in Hend, Hmin, Hr'. rewrite lru_pages_alter in Hend.
      rewrite (freed_alter st st1 p) in Htr by done.
      exists st', (S k). eexists (_ :: trs). rewrite Hsh, <- app_assoc. simpl.
      rewrite (size_of_eq _ _ _ Hp). split_and!; try done.
      * rewrite Hfr. by f_equal.
      * destruct Hend; [by left|right; lia].
      * intros [|j] Hj; simpl; [lia|]. rewrite (size_of_eq _ _ _ Hp).
        specialize (Hmin j ltac:(lia)). rewrite lru_pages_alter in Hmin. lia.
Qed.

Lemma shrink_loop_total l : forall st nr tr,
  ash_wf st -> lru_list st = l ->
  exists st' tr', shrink_loop st nr l tr = Some (st', tr') /\ ash_wf st' /\ areas st' = areas st.
Proof.
  induction l as [|p l IH]; intros st nr tr Hwf Hl; [by eexists _, _|].
  destruct (shrink_step _ _ _ Hwf Hl) as (r & v & f & Hp & Ha & Hf & Hon & Hst). simpl.
  rewrite Hp. simpl. rewrite Ha. simpl. rewrite Hf. simpl. fold (purge r).
  set (st1 := lru_del (set_range st p (purge r)) p (purge r)) in *. cbv zeta in Hst.
  destruct Hst as (Hwf1 & Hl1 & Ha1 & _). case_match; [by eexists _, _|].
  destruct (IH st1 (s32 (nr - range_size (purge r))) (tr ++ [{| tr_file := f;
    tr_start := u32 (pgstart r * PAGE_SIZE);
    tr_end := u32 (u32 (u32 (pgend r + 1) * PAGE_SIZE) - 1) |}]) Hwf1 Hl1)
    as (st' & tr' & -> & ? & ?). eexists _, _. split_and!; [done..|congruence].
Qed.

(** ** The whole driver *)

Record area_inv (v : ashmem_area) : Prop := {
  inv_name : Zlen (name v) = ASHMEM_FULL_NAME_LEN;
  inv_nul : zget (name v) (ASHMEM_FULL_NAME_LEN - 1) = 0;
  inv_size : 0 <= a_size v <= 0xFFFFF000 /\ (is_Some (a_file v) -> 0 < a_size v)
}.

Definition ash_inv (st : ashmem) : Prop :=
  ash_wf st /\ forall a v, areas st !! a = Some v -> area_inv v.

Lemma upd_inv a v st st' ps rs :
  ash_inv st -> areas st !! a = Some v -> upd a v st st' ps rs -> ash_inv st'.
Proof.
  intros [Hwf Hi] Ha U. split; [apply U|]. rewrite (upd_areas _ _ _ _ _ _ U).
  intros b w. destruct (decide (a = b)) as [<- |].
  - rewrite lookup_insert_eq. intros [= <-]. destruct (Hi _ _ Ha). by split.
  - rewrite lookup_insert_ne by done. apply Hi.
Qed.

(** Changes of an area that leave its list alone. *)
Lemma set_area_inv st a v v' :
  ash_inv st -> areas st !! a = Some v -> unpinned_list v' = unpinned_list v ->
  (is_Some (a_file v) -> is_Some (a_file v')) -> area_inv v' -> ash_inv (set_area st a v').
Proof.
  intros [Hwf Hi] Ha Hl Hf Hv'. split.
  - split; simpl; [| |apply Hwf].
    + intros b w Hb. destruct (decide (a = b)) as [<- |].
      * rewrite lookup_insert_eq in Hb. injection Hb as <-. rewrite Hl.
        destruct (wf_area _ Hwf _ _ Ha) as (? & ? & ?). eauto.
      * rewrite lookup_insert_ne in Hb by done. by apply Hwf.
    + intros p r Hp. destruct (wf_owner _ Hwf _ _ Hp) as (w & Hw & Hin).
      destruct (decide (a = asma r)) as [-> |].
      * rewrite lookup_insert_eq. eexists. split; [done|]. rewrite Hl. by simplify_eq.
      * rewrite lookup_insert_ne by done. eauto.
  - simpl. intros b w. destruct (decide (a = b)) as [<- |].
    + rewrite lookup_insert_eq. by intros [= <-].
    + rewrite lookup_insert_ne by done. apply Hi.
Qed.

(** The files' own state does not matter to the invariant. *)
Lemma ash_inv_files st st' :
  areas st' = areas st -> ranges st' = ranges st -> lru_list st' = lru_list st ->
  lru_count st' = lru_count st -> ash_inv st -> ash_inv st'.
Proof.
  intros Ha Hr Hl Hc [[W1 W2 W3] Hi]. split; [split|]; rewrite ?Ha, ?Hr, ?Hl, ?Hc; done.
Qed.

(** *** Page ranges *)

Lemma land_page_mask x : Z.land x (PAGE_SIZE - 1) = x mod PAGE_SIZE.
Proof. exact (Z.land_ones x 12 ltac:(lia)). Qed.

(** What passes the checks of [ashmem_pin_unpin] is an interval of pages of
    the area; it is empty only for a request of length 0 at its very end. *)
Lemma pin_range_bounds v pin s e :
  area_inv v -> 0 <= pin_offset pin < 4294967296 -> 0 <= pin_len pin < 4294967296 ->
  pin_range v (Some pin) = inr (s, e) ->
  0 <= s <= e + 1 /\ 0 <= e < PAGE_ALIGN (a_size v) / PAGE_SIZE /\
  PAGE_ALIGN (a_size v) <= 0xFFFFF000 /\
  (s = e + 1 -> pin_len pin = 0 /\ pin_offset pin = PAGE_ALIGN (a_size v)).
Proof.
  intros [_ _ [Hsz Hsz0]] Ho Hlen. unfold pin_range. destruct (a_file v); [|done].
  specialize (Hsz0 ltac:(eauto)).
  assert (HA : exists q, PAGE_ALIGN (a_size v) = q * 4096 /\ 1 <= q <= 1048575).
  { rewrite PAGE_ALIGN_eq by lia. eexists. split; [done|].
    split; [apply Z.div_le_lower_bound|apply Z.lt_succ_r, Z.div_lt_upper_bound]; lia. }
  destruct HA as (q & -> & Hq). change PAGE_SIZE with 4096. rewrite (Z.div_mul q 4096) by lia.
  set (len := if pin_len pin =? 0 then u32 (q * 4096 - pin_offset pin) else pin_len pin).
  assert (Hl : 0 <= len < 4294967296) by (unfold len; case_match; [apply u32_range|lia]).
  rewrite Z.land_lor_distr_l. change (4096 - 1) with (PAGE_SIZE - 1). rewrite !land_page_mask.
  destruct (negb _) eqn:E1; [done|]. apply negb_false_iff, Z.eqb_eq, Z.lor_eq_0_iff in E1 as [E1 E2].
  apply Z.mod_divide in E1 as [i Hi], E2 as [j Hj]; [|done..].
  change PAGE_SIZE with 4096 in *. rewrite Hi, Hj in *. rewrite !Z.div_mul by lia.
  u32_simpl. destruct (_ <? j * 4096) eqn:E3; [done|]. ranges_simpl. u32_simpl.
  destruct (_ <? i * 4096 + j * 4096) eqn:E4; [done|]. ranges_simpl. intros [= <- <-].
  assert (Hj0 : j = 0 -> pin_len pin = 0 /\ i = q).
  { intros ->. subst len. destruct (pin_len pin =? 0) eqn:E5; [|lia].
    apply Z.eqb_eq in E5. split; [done|]. destruct (Z.lt_ge_cases (q * 4096) (i * 4096)); [lia|].
    rewrite u32_small in Hj by lia. lia. }
  assert (0 < i + j) by lia. u32_simpl.
  split_and!; try lia.
Qed.

(** *** Names *)

(** A string that ends within its buffer: its length and its terminator. *)
Lemma strlen_bound l k :
  0 <= k < Zlen l -> zget l k = 0 -> exists n, strlen l = Some n /\ 0 <= n <= k.
Proof.
  revert k. induction l as [|c l IH]; intros k Hk Hz; simpl in *; [lia|].
  destruct (c =? 0) eqn:Ec; [by exists 0; split; [|lia]|].
  apply Z.eqb_neq in Ec. destruct (decide (k = 0)) as [-> |Hk0]; [done|].
  destruct (IH (k - 1)) as (n & -> & ?); [lia| |].
  - unfold zget in *. replace (Z.to_nat k) with (S (Z.to_nat (k - 1))) in Hz by lia. done.
  - exists (n + 1). split; [done|lia].
Qed.

Lemma zget_drop l n k : 0 <= n -> 0 <= k -> zget (drop (Z.to_nat n) l) k = zget l (n + k).
Proof. intros. unfold zget. rewrite nth_skipn. f_equal. lia. Qed.

Lemma get_name_total st a v u :
  areas st !! a = Some v -> area_inv v -> exists c d, get_name st a u = Some (c, d).
Proof.
  intros Ha [Hn Hz _]. unfold get_name. rewrite Ha. simpl.
  unfold ASHMEM_FULL_NAME_LEN, ASHMEM_NAME_LEN, ASHMEM_NAME_PREFIX_LEN in *.
  destruct (strlen_bound (drop (Z.to_nat 11) (name v)) 255) as (n & Hs & Hb).
  - rewrite length_drop. lia.
  - by rewrite zget_drop by lia.
  - rewrite Hs. simpl. rewrite (mem_read_Some (name v) 11 (n + 1)) by lia. simpl.
    case_match; simpl; destruct (copy_to_user u 0 _); eauto.
Qed.

(** [set_name] stays in the buffer and leaves it terminated. *)
Lemma set_name_total st a v u :
  ash_inv st -> areas st !! a = Some v ->
  exists c st', set_name st a u = Some (c, st') /\ ash_inv st' /\
    (c = - EINVAL /\ st' = st \/
     exists v', st' = set_area st a v' /\ (c = 0 <-> snd (copy_from_user u 0 ASHMEM_NAME_LEN) = 0) /\
       forall k, ASHMEM_NAME_PREFIX_LEN <= k < ASHMEM_FULL_NAME_LEN - 1 ->
         zget (name v') k = zget (fst (copy_from_user u 0 ASHMEM_NAME_LEN)) (k - ASHMEM_NAME_PREFIX_LEN)).
Proof.
  intros Hinv Ha. destruct (proj2 Hinv _ _ Ha) as [Hn Hz Hsz].
  unfold set_name. rewrite Ha. simpl.
  destruct (a_file v) eqn:Ef; [eexists _, _; split_and!; [done..|by left]|].
  unfold ASHMEM_FULL_NAME_LEN, ASHMEM_NAME_LEN, ASHMEM_NAME_PREFIX_LEN in *.
  pose proof (copy_from_user_length u 0 256 ltac:(lia)) as Hd.
  destruct (copy_from_user u 0 256) as [d missing]. simpl in *.
  destruct (mem_write (name v) 11 d) as [n1|] eqn:E1; simpl.
  2:{ rewrite mem_write_Some in E1; [done|lia..]. }
  pose proof (mem_write_length _ _ _ _ E1) as L1.
  destruct (mem_write n1 (256 + 11 - 1) [0]) as [n2|] eqn:E2; simpl.
  2:{ rewrite mem_write_Some in E2; [done|simpl; lia..]. }
  pose proof (mem_write_length _ _ _ _ E2) as L2.
  pose proof (fun k => mem_write_zget _ _ _ _ k E2) as Z2.
  eexists _, _. split; [done|]. split.
  - apply (set_area_inv _ _ v); try done.
    split; unfold ASHMEM_FULL_NAME_LEN, ASHMEM_NAME_LEN, ASHMEM_NAME_PREFIX_LEN; simpl;
      [lia|by rewrite Z2 by lia|by rewrite Ef].
  - right. eexists. split; [done|]. split.
    + destruct (missing =? 0) eqn:E; simpl; [apply Z.eqb_eq in E|apply Z.eqb_neq in E]; done || lia.
    + intros k Hk. simpl. rewrite Z2 by lia. rewrite bool_decide_eq_false_2 by (simpl; lia).
      rewrite (mem_write_zget _ _ _ _ _ E1) by lia. by rewrite bool_decide_eq_true_2 by lia.
Qed.

(** *** Every operation returns and keeps the invariant *)

Definition fresh (st : ashmem) (new : option Z) : Prop :=
  forall q, new = Some q -> ranges st !! q = None.

Definition arg_ok (arg : option ashmem_pin_arg) : Prop :=
  match arg with
  | Some pin => 0 <= pin_offset pin < 4294967296 /\ 0 <= pin_len pin < 4294967296
  | None => True
  end.

Lemma pin_status_total st s e l rl :
  realises (ranges st) l rl -> exists c, pin_status_loop st s e l = Some c.
Proof.
  induction 1 as [|p r l rl Hp _ IH]; simpl; [eauto|]. rewrite Hp. simpl. repeat case_match; eauto.
Qed.

Lemma wf_realises st a v : ash_wf st -> areas st !! a = Some v ->
  exists rs, realises (ranges st) (unpinned_list v) rs.
Proof. intros Hwf Ha. destruct (wf_area _ Hwf _ _ Ha) as (_ & _ & rs & ? & _). eauto. Qed.

Lemma pin_unpin_total st a v cmd arg new :
  ash_inv st -> areas st !! a = Some v -> fresh st new -> arg_ok arg ->
  exists c st', ashmem_pin_unpin st a cmd arg new = Some (c, st') /\ ash_inv st'.
Proof.
  intros Hinv Ha Hnew Harg. pose proof (proj1 Hinv) as Hwf. pose proof (proj2 Hinv _ _ Ha) as Hv.
  destruct (wf_realises _ _ _ Hwf Ha) as [rs Hre].
  unfold ashmem_pin_unpin. rewrite Ha. simpl.
  destruct (pin_range v arg) as [err|[s e]] eqn:Er; [eauto|].
  assert (Hf : is_Some (a_file v)) by (unfold pin_range in Er; destruct (a_file v); [eauto|done]).
  destruct arg as [pin|]; [|unfold pin_range in Er; by destruct (a_file v)].
  destruct Harg, (pin_range_bounds v pin s e) as (Hs & He & HA & _); [done..|].
  assert (0 <= e <= PAGE_MAX).
  { split; [lia|]. pose proof (Z.div_le_upper_bound (PAGE_ALIGN (a_size v)) 4096 0xFFFFF000).
    unfold PAGE_MAX, PAGE_SIZE in *. lia. }
  destruct cmd.
  - destruct (pin_loop_upd a s e new ltac:(done) ltac:(done) (unpinned_list v) st v [] [] rs
      ASHMEM_NOT_PURGED) as (st' & ps & Hp & U); try done.
    unfold ashmem_pin. rewrite Ha. simpl. rewrite Hp. eexists _, _. split; [done|]. by eapply upd_inv.
  - destruct (unpin_loop_upd a new (S (length (unpinned_list v))) st v s e ASHMEM_NOT_PURGED
      (fun _ => False) rs) as (c & st' & ps & rs' & Hu & U & _); try done; [by left|lia|].
    unfold ashmem_unpin. rewrite Ha. simpl in *. rewrite Hu. eexists _, _. split; [done|].
    by eapply upd_inv.
  - unfold ashmem_get_pin_status. rewrite Ha. simpl.
    destruct (pin_status_total st s e _ _ Hre) as [c ->]. simpl. eauto.
Qed.

Lemma shrink_total st nr fs :
  ash_inv st -> exists c st' tr, ashmem_shrink st nr fs = Some (c, st', tr) /\ ash_inv st'.
Proof.
  intros [Hwf Hi]. unfold ashmem_shrink.
  destruct (negb _ && _); [by eexists _, _, _|]. destruct (nr =? 0); [by eexists _, _, _|].
  destruct (shrink_loop_total (lru_list st) st nr [] Hwf eq_refl) as (st' & tr' & -> & ? & Ha).
  simpl. eexists _, _, _. split; [done|]. split; [done|]. by rewrite Ha.
Qed.

Definition cmd_ok (st : ashmem) (cmd : ashmem_cmd) : Prop :=
  match cmd with
  | ASHMEM_SET_SIZE n => 0 <= n <= 0xFFFFF000
  | ASHMEM_PINNING _ arg new => arg_ok arg /\ fresh st new
  | _ => True
  end.

Lemma ioctl_total st a v cmd :
  ash_inv st -> areas st !! a = Some v -> cmd_ok st cmd ->
  exists c st', ashmem_ioctl st a cmd = Some (c, st') /\ ash_inv st'.
Proof.
  intros Hinv Ha Hc. pose proof (proj2 Hinv _ _ Ha) as Hv.
  unfold ashmem_ioctl. rewrite Ha. cbn [mbind option_bind].
  destruct cmd as [u|u|n| |prot rie| |cmd arg new|cap| | |]; simpl in Hc.
  - destruct (set_name_total st a v u Hinv Ha) as (c & st' & ? & ? & _). eauto.
  - destruct (get_name_total st a v u Ha Hv) as (c & d & ->). simpl. eauto.
  - destruct (a_file v) eqn:Ef; [eauto|]. eexists _, _. split; [done|].
    apply (set_area_inv _ _ v); try done. destruct Hv as [? ? ?]. split; simpl; try done.
    rewrite Ef. split; [done|]. by intros [? ?].
  - eauto.
  - unfold set_prot_mask. rewrite Ha. simpl. case_match; [eauto|]. eexists _, _. split; [done|].
    apply (set_area_inv _ _ v); try done. destruct Hv as [? ? ?]. by split.
  - eauto.
  - destruct Hc. by eapply pin_unpin_total.
  - destruct cap; cbn [negb]; [|eauto].
    destruct (shrink_total st 0 true Hinv) as (c & st' & tr & -> & Hi'). simpl.
    destruct (shrink_total st' c true Hi') as (c2 & st2 & tr2 & -> & Hi2). simpl. eauto.
  - unfold ashmem_flush_cache_range. rewrite Ha. simpl. case_match; simpl; eauto.
  - unfold ashmem_flush_cache_range. rewrite Ha. simpl. case_match; simpl; eauto.
  - eauto.
Qed.

Lemma release_loop_total a l : forall st v,
  ash_inv st -> areas st !! a = Some v -> unpinned_list v = l ->
  exists st', release_loop st l = Some st' /\ ash_inv st' /\
    areas st' !! a = Some (set_unpinned v []).
Proof.
  induction l as [|p l IH]; intros st v Hinv Ha Hl; simpl.
  { exists st. split_and!; [done..|]. by rewrite <- Hl, set_unpinned_id. }
  destruct (wf_realises _ _ _ (proj1 Hinv) Ha) as [rs Hre]. rewrite Hl in Hre.
  inversion Hre as [|? r ? rl]; subst.
  destruct (range_del_upd st a v [] p l [] r rl (proj1 Hinv) Ha Hl eq_refl Hre) as (st1 & -> & U).
  simpl in *. destruct (IH st1 (set_unpinned v l)) as (st' & -> & ? & ?); [by eapply upd_inv|
    by eapply upd_lookup|done|]. eauto.
Qed.

Lemma release_total st a v :
  ash_inv st -> areas st !! a = Some v ->
  exists st', ashmem_release st a = Some (0, st') /\ ash_inv st' /\ areas st' !! a = None.
Proof.
  intros Hinv Ha. unfold ashmem_release. rewrite Ha. simpl.
  destruct (release_loop_total a _ st v Hinv Ha eq_refl) as (st' & -> & [Hwf Hi] & Ha').
  simpl. eexists. split; [done|]. split; [|simpl; by rewrite lookup_delete_eq].
  split; [split; simpl; [| |apply Hwf]|simpl].
  - intros b w [? Hb]%lookup_delete_Some. by apply Hwf.
  - intros p r Hp. destruct (wf_owner _ Hwf _ _ Hp) as (w & Hw & Hin). exists w. split; [|done].
    rewrite lookup_delete_Some. split; [|done]. intros ->. simplify_eq. by apply elem_of_nil in Hin.
  - intros b w [? Hb]%lookup_delete_Some. eauto.
Qed.

Lemma open_inv st a ret :
  ash_inv st -> (forall b, a = Some b -> areas st !! b = None) -> ash_inv (ashmem_open st ret a).2.
Proof.
  intros [Hwf Hi] Hf. unfold ashmem_open. case_match; [done|]. destruct a as [a|]; [|done]. simpl.
  specialize (Hf a eq_refl). split; [split; simpl; [| |apply Hwf]|simpl]; intros b w.
  - rewrite lookup_insert_Some. intros [[<- <-]|[? Hb]]; [|by apply Hwf]. split_and!; try done.
    + apply NoDup_nil_2.
    + exists []. split_and!; (constructor || split; constructor).
  - intros Hb. destruct (wf_owner _ Hwf _ _ Hb) as (x & Hx & ?). exists x. split; [|done].
    rewrite lookup_insert_ne; [done|]. congruence.
  - rewrite lookup_insert_Some. intros [[<- <-]|[? Hb]]; [|by eapply Hi].
    split; try done. split; [done|]. by intros [? ?].
Qed.

Lemma mmap_total st a v vm setup :
  ash_inv st -> areas st !! a = Some v ->
  exists c st' vm', ashmem_mmap st a vm setup = Some (c, st', vm') /\ ash_inv st'.
Proof.
  intros Hinv Ha. destruct (proj2 Hinv _ _ Ha) as [Hn Hz [Hsz _]]. unfold ashmem_mmap. rewrite Ha. simpl.
  destruct (a_size v =? 0) eqn:E0; [eauto|]. apply Z.eqb_neq in E0.
  case_match; [eauto|].
  assert (Hok : forall f s' c, ash_inv (set_count (set_area st a
            (set_vm_start (set_file v (Some f)) s')) c)).
  { intros f s' c. apply (ash_inv_files (set_area st a (set_vm_start (set_file v (Some f)) s'))); [done..|].
    apply (set_area_inv st a v); try done.
    split; simpl; try done. lia. }
  destruct (a_file v); [|destruct (setup _ _ _)]; eauto.
Qed.

(** States the driver can be in: from the empty one, by any sequence of its
    entry points.  The user's arguments are words; memory handed out by the
    allocators is not in use; sizes that round up to 2^32 are excluded. *)
Inductive ash_step (st : ashmem) : ashmem -> Prop :=
| step_open a ret : (forall b, a = Some b -> areas st !! b = None) ->
    ash_step st (ashmem_open st ret a).2
| step_release a ret st' : ashmem_release st a = Some (ret, st') -> ash_step st st'
| step_ioctl a cmd ret st' : cmd_ok st cmd ->
    ashmem_ioctl st a cmd = Some (ret, st') -> ash_step st st'
| step_mmap a vm setup ret st' vm' :
    ashmem_mmap st a vm setup = Some (ret, st', vm') -> ash_step st st'
| step_shrink nr fs ret st' tr : ashmem_shrink st nr fs = Some (ret, st', tr) -> ash_step st st'
| step_read a vfs ret st' : ashmem_read st a vfs = Some (ret, st') -> ash_step st st'
| step_llseek a vfs ret st' pos : ashmem_llseek st a vfs = Some (ret, st', pos) -> ash_step st st'.

Definition ashmem_init : ashmem := mk_ash ∅ ∅ [] 0 ∅ ∅.

Inductive ash_reachable : ashmem -> Prop :=
| reach_init : ash_reachable ashmem_init
| reach_step st st' : ash_reachable st -> ash_step st st' -> ash_reachable st'.

Lemma ash_step_inv st st' : ash_inv st -> ash_step st st' -> ash_inv st'.
Proof.
  intros Hinv Hst. destruct Hst as [a ret Hf|a ret st' H|a cmd ret st' Hc H|a vm setup ret st' vm' H|
    nr fs ret st' tr H|a vfs ret st' H|a vfs ret st' pos H].
  - by apply open_inv.
  - destruct (areas st !! a) as [v|] eqn:Ha; [|by unfold ashmem_release in H; rewrite Ha in H].
    destruct (release_total st a v Hinv Ha) as (? & ? & ? & _). by simplify_eq.
  - destruct (areas st !! a) as [v|] eqn:Ha; [|by unfold ashmem_ioctl in H; rewrite Ha in H].
    destruct (ioctl_total st a v cmd Hinv Ha Hc) as (? & ? & ? & ?). by simplify_eq.
  - destruct (areas st !! a) as [v|] eqn:Ha; [|by unfold ashmem_mmap in H; rewrite Ha in H].
    destruct (mmap_total st a v vm setup Hinv Ha) as (? & ? & ? & ? & ?). by simplify_eq.
  - destruct (shrink_total st nr fs Hinv) as (? & ? & ? & ? & ?). by simplify_eq.
  - unfold ashmem_read in H. destruct (areas st !! a); [|done]. simpl in H.
    repeat case_match; simplify_eq; by try (eapply ash_inv_files; [..|exact Hinv]).
  - unfold ashmem_llseek in H. destruct (areas st !! a); [|done]. simpl in H.
    repeat case_match; simplify_eq; by try (eapply ash_inv_files; [..|exact Hinv]).
Qed.

Lemma ash_init_inv : ash_inv ashmem_init.
Proof.
  split; [split; simpl|simpl]; try (intros *; by rewrite lookup_empty).
  split; [apply NoDup_nil_2| |done]. intros p. rewrite elem_of_nil. split; [done|].
  intros (r & Hr & _). by rewrite lookup_empty in Hr.
Qed.

Lemma ash_reachable_inv st : ash_reachable st -> ash_inv st.
Proof. induction 1; [apply ash_init_inv|by eapply ash_step_inv]. Qed.

(** * Properties *)

(** C4. [ashmem_pin] on pages [s..e] of an area always returns.  Afterwards the
    area's unpinned pages are the old ones without [s..e] (fewer if memory for
    the second half of a split range ran out), other areas are as before, the
    invariant holds, and the result says whether a range holding one of the
    pages had been purged. *)
Theorem ashmem_pin_correct st a v rs s e new :
  ash_wf st -> areas st !! a = Some v -> realises (ranges st) (unpinned_list v) rs ->
  0 <= s <= e -> e <= PAGE_MAX -> fresh st new ->
  exists ret st' ps rs', ashmem_pin st a s e new = Some (ret, st') /\ upd a v st st' ps rs' /\
    (forall x, pages rs' x -> pages rs x /\ ~ s <= x <= e) /\
    (is_Some new -> forall x, pages rs' x <-> pages rs x /\ ~ s <= x <= e) /\
    (ret = ASHMEM_WAS_PURGED /\
       Exists (fun r => page_range_in_range r s e = true /\ purged r = 1) rs \/
     ret = ASHMEM_NOT_PURGED /\ forall x, s <= x <= e -> ~ flagged rs x).
Proof.
  intros Hwf Ha Hre Hs He Hnew. destruct (wf_ranges _ _ _ _ Hwf Ha Hre) as [Hok _].
  destruct (pin_loop_upd a s e new ltac:(lia) ltac:(lia) (unpinned_list v) st v [] [] rs
    ASHMEM_NOT_PURGED) as (st' & ps & Hp & U); try done. simpl in U.
  unfold ashmem_pin. rewrite Ha. simpl. rewrite Hp.
  eexists _, _, _, _. split; [done|]. split; [exact U|]. split_and!.
  - destruct new; intros x; [by apply pin_segs_pages; [lia|]|by apply pin_segs_nomem_pages; [lia|]].
  - intros [q ->] x. by apply pin_segs_pages; [lia|].
  - unfold ASHMEM_NOT_PURGED. rewrite Z.lor_0_l.
    destruct (pin_purged_spec s e rs) as [[-> ?]|[-> Hall]]; [lia|done|by left|right].
    split; [done|]. intros x Hx Hf. apply Exists_exists in Hf as (r & Hr & Hin & H1).
    rewrite Forall_forall in Hall. specialize (Hall _ Hr). unfold in_seg, touched in *. lia.
Qed.

(** A small driver state: one area of four pages, mapped, with pages 1-2
    unpinned. *)
Definition demo_area : ashmem_area :=
  mk_area (ASHMEM_NAME_PREFIX ++ replicate 256 0) [100] (Some 7) 16384 0 PROT_MASK.
Definition demo : ashmem :=
  mk_ash {[1 := demo_area]} {[100 := mk_range 1 1 2 0]} [100] 2 {[7 := 1]} ∅.

Lemma demo_realises : realises (ranges demo) [100] [mk_range 1 1 2 0].
Proof. by repeat constructor. Qed.

Lemma demo_wf : ash_wf demo.
Proof.
  split; simpl.
  - intros a v [<- <-]%lookup_singleton_Some. split_and!; [apply NoDup_singleton|by eexists|].
    eexists. split; [exact demo_realises|]. split; [|by repeat constructor].
    apply segs_ok_singleton. unfold seg_ok, PAGE_MAX. simpl. lia.
  - intros p r [<- <-]%lookup_singleton_Some. eexists. split; [done|]. by left.
  - split; [apply NoDup_singleton| |done]. intros p. rewrite list_elem_of_singleton. split.
    + intros ->. by eexists.
    + by intros (r & [<- _]%lookup_singleton_Some & _).
Qed.

Lemma demo_fresh : fresh demo (Some 101).
Proof. by intros q [= <-]. Qed.

Lemma ashmem_pin_correct_witness :
  exists ret st' ps rs', ashmem_pin demo 1 2 3 (Some 101) = Some (ret, st') /\
    upd 1 demo_area demo st' ps rs' /\
    (forall x, pages rs' x -> pages [mk_range 1 1 2 0] x /\ ~ 2 <= x <= 3) /\
    (is_Some (Some 101) -> forall x, pages rs' x <-> pages [mk_range 1 1 2 0] x /\ ~ 2 <= x <= 3) /\
    (ret = ASHMEM_WAS_PURGED /\
       Exists (fun r => page_range_in_range r 2 3 = true /\ purged r = 1) [mk_range 1 1 2 0] \/
     ret = ASHMEM_NOT_PURGED /\ forall x, 2 <= x <= 3 -> ~ flagged [mk_range 1 1 2 0] x).
Proof.
  apply (ashmem_pin_correct demo 1 demo_area [mk_range 1 1 2 0] 2 3 (Some 101));
    [apply demo_wf|reflexivity|apply demo_realises|lia|unfold PAGE_MAX; lia|apply demo_fresh].
Defined.

(** C5. [ashmem_unpin] on pages [s..e] of a mapped area always returns: its
    [restart] loop ends.  With memory for the new range the result is 0, the
    unpinned pages are the old ones and [s..e], and no page loses its purged
    mark; without memory the result is [-ENOMEM], unless the pages were
    unpinned already, and no further page becomes unpinned. *)
Theorem ashmem_unpin_correct st a v rs s e new :
  ash_wf st -> areas st !! a = Some v -> realises (ranges st) (unpinned_list v) rs ->
  is_Some (a_file v) -> 0 <= s <= e -> e <= PAGE_MAX -> fresh st new ->
  exists ret st' ps rs', ashmem_unpin st a s e new = Some (ret, st') /\ upd a v st st' ps rs' /\
    (is_Some new -> ret = 0 /\ (forall x, flagged rs x -> flagged rs' x)) /\
    (ret = 0 -> forall x, pages rs' x <-> pages rs x \/ s <= x <= e) /\
    (ret <> 0 -> ret = - ENOMEM /\ forall x, pages rs' x -> pages rs x).
Proof.
  intros Hwf Ha Hre Hf Hs He Hnew.
  destruct (unpin_loop_upd a new (S (length (unpinned_list v))) st v s e ASHMEM_NOT_PURGED
    (fun _ => False) rs) as (c & st' & ps & rs' & Hu & U & Hun); try done; try lia; [by left|].
  unfold ashmem_unpin. rewrite Ha. simpl in *. rewrite Hu.
  exists c, st', ps, rs'. split; [done|]. split; [done|]. unfold unpinned in Hun. destruct new.
  - destruct Hun as (-> & Hp & Hfl). split_and!; [|done|done]. intros _. split; [done|]. auto.
  - destruct Hun as [[[-> Hp]| ->] Hsub]; split_and!; try done; by intros [? ?].
Qed.

Lemma ashmem_unpin_correct_witness :
  exists ret st' ps rs', ashmem_unpin demo 1 0 1 (Some 101) = Some (ret, st') /\
    upd 1 demo_area demo st' ps rs' /\
    (is_Some (Some 101) -> ret = 0 /\
       (forall x, flagged [mk_range 1 1 2 0] x -> flagged rs' x)) /\
    (ret = 0 -> forall x, pages rs' x <-> pages [mk_range 1 1 2 0] x \/ 0 <= x <= 1) /\
    (ret <> 0 -> ret = - ENOMEM /\ forall x, pages rs' x -> pages [mk_range 1 1 2 0] x).
Proof.
  apply (ashmem_unpin_correct demo 1 demo_area [mk_range 1 1 2 0] 0 1 (Some 101));
    [apply demo_wf|reflexivity|apply demo_realises|eexists; reflexivity|lia|unfold PAGE_MAX; lia|
     apply demo_fresh].
Defined.

Lemma pin_status_spec st s e l rl :
  realises (ranges st) l rl -> segs_ok rl -> Forall (fun r => pgstart r <= pgend r) rl -> 0 <= s <= e ->
  pin_status_loop st s e l = Some ASHMEM_IS_UNPINNED /\ (exists x, s <= x <= e /\ pages rl x) \/
  pin_status_loop st s e l = Some ASHMEM_IS_PINNED /\ (forall x, s <= x <= e -> ~ pages rl x).
Proof.
  intros Hre [Hok Hsort] Hne Hs. induction Hre as [|p r l rl Hp Hre IH]; simpl.
  { right. split; [done|]. intros x _ Hx. by apply Exists_nil in Hx. }
  apply Forall_cons in Hok as [(H1 & H2 & H3) Hok], Hne as [Hr Hne].
  apply StronglySorted_inv in Hsort as [Hsort Hb]. specialize (IH Hok Hsort Hne).
  pose proof (fun x => StronglySorted_below_pages r rl x Hb) as Hlow. rewrite Hp. simpl.
  destruct (range_before_page r s) eqn:E1; [right|destruct (page_range_in_range r s e) eqn:E2; [left|]];
    ranges_simpl.
  - split; [done|]. intros x Hx [Hin|Hin]%pages_cons; [unfold in_seg in *; lia|].
    specialize (Hlow x Hin). lia.
  - split; [done|]. exists (Z.max s (pgstart r)). split; [lia|]. apply pages_cons. left. unfold in_seg. lia.
  - destruct IH as [[-> (x & ? & ?)]|[-> Hno]]; [left|right]; (split; [done|]).
    + exists x. split; [done|]. apply pages_cons. by right.
    + intros x Hx [Hin|Hin]%pages_cons; [unfold in_seg in *; lia|]. by apply (Hno x).
Qed.

(** [ashmem_get_pin_status] answers [ASHMEM_IS_UNPINNED] exactly when one
    of the pages [s..e] is unpinned (in an area without empty ranges). *)
Lemma ashmem_get_pin_status_correct st a v rs s e :
  ash_wf st -> areas st !! a = Some v -> realises (ranges st) (unpinned_list v) rs ->
  Forall (fun r => pgstart r <= pgend r) rs -> 0 <= s <= e ->
  ashmem_get_pin_status st a s e = Some ASHMEM_IS_UNPINNED /\
    (exists x, s <= x <= e /\ pages rs x) \/
  ashmem_get_pin_status st a s e = Some ASHMEM_IS_PINNED /\
    (forall x, s <= x <= e -> ~ pages rs x).
Proof.
  intros Hwf Ha Hre Hne Hs. destruct (wf_ranges _ _ _ _ Hwf Ha Hre) as [Hok _].
  unfold ashmem_get_pin_status. rewrite Ha. simpl. by apply pin_status_spec.
Qed.

(** [ashmem_shrink], asked for [nr] pages, purges the least recently
    unpinned ranges: the shortest prefix of the LRU list that has at least
    [nr] pages, or the whole list.  Exactly their bytes are truncated from
    their backing files, they leave the list, and the result is the number of
    pages left on it. *)
Lemma ashmem_shrink_correct st nr :
  ash_wf st -> 0 < nr < 2147483648 -> lru_pages (ranges st) (lru_list st) < 2147483648 ->
  exists st' k trs, let l := lru_list st in
    ashmem_shrink st nr true = Some (lru_pages (ranges st') (drop k l), st', trs) /\ ash_wf st' /\
    areas st' = areas st /\ ranges st' = purge_all (ranges st) (take k l) /\
    lru_list st' = drop k l /\ Some <$> trs = freed st <$> take k l /\
    (drop k l = [] \/ nr <= lru_pages (ranges st) (take k l)) /\
    (forall j, (j < k)%nat -> lru_pages (ranges st) (take j l) < nr).
Proof.
  intros Hwf Hnr Hsum. unfold ashmem_shrink. rewrite andb_false_r.
  rewrite (proj2 (Z.eqb_neq nr 0)) by lia.
  destruct (shrink_loop_prefix (lru_list st) st nr [] Hwf eq_refl Hnr Hsum)
    as (st' & k & trs & -> & Hwf' & Ha & Hr & Hl & Htr & Hend & Hmin).
  exists st', k, trs. simpl. split_and!; try done. f_equal. f_equal. f_equal.
  destruct (wf_lru _ Hwf') as [_ _ ->]. rewrite Hl.
  assert (Hp : lru_pages (ranges st') (drop k (lru_list st)) = lru_pages (ranges st) (drop k (lru_list st))).
  { apply lru_pages_same. intros p _. rewrite Hr. unfold purge_all.
    generalize (take k (lru_list st)), (ranges st). intros l. induction l as [|q l IH]; [done|].
    intros m. simpl. by rewrite IH, size_of_alter. }
  rewrite s32_u32, Hp. rewrite <- (take_drop k (lru_list st)), lru_pages_app in Hsum.
  pose proof (lru_pages_nonneg (ranges st) (take k (lru_list st))).
  pose proof (lru_pages_nonneg (ranges st) (drop k (lru_list st))). apply s32_small. lia.
Qed.


Definition opened : ashmem := (ashmem_open ashmem_init 0 (Some 1)).2.


(** ** Protection of mappings *)

Lemma calc_vm_trans_bit x i j k :
  0 <= i <= j -> 0 <= k ->
  Z.testbit (calc_vm_trans x (2 ^ i) (2 ^ j)) k = (k =? j) && Z.testbit x i.
Proof.
  intros Hij Hk. unfold calc_vm_trans.
  rewrite (proj2 (Z.leb_le (2 ^ i) (2 ^ j))) by (apply Z.pow_le_mono_r; lia).
  replace (2 ^ j / 2 ^ i) with (2 ^ (j - i)) by (rewrite Z.pow_sub_r; lia).
  rewrite Z.mul_pow2_bits by lia. rewrite Z.land_spec.
  destruct (k =? j) eqn:E; [apply Z.eqb_eq in E as ->|apply Z.eqb_neq in E].
  - replace (j - (j - i)) with i by lia. rewrite Z.pow2_bits_true by lia. by rewrite andb_true_r.
  - rewrite Z.pow2_bits_false by lia. by rewrite andb_false_r.
Qed.

Lemma lnot32_bit x i : 0 <= i < 32 -> Z.testbit (lnot32 x) i = negb (Z.testbit x i).
Proof.
  intros. unfold lnot32, u32. change 4294967296 with (2 ^ 32).
  rewrite Z.mod_pow2_bits_low by lia. rewrite Z.lnot_spec by lia. done.
Qed.

Lemma calc_vm_prot_bit p i : 0 <= i < 3 -> Z.testbit (calc_vm_prot_bits p) i = Z.testbit p i.
Proof.
  intros Hi. unfold calc_vm_prot_bits. rewrite !Z.lor_spec.
  rewrite (calc_vm_trans_bit p 0 0), (calc_vm_trans_bit p 1 1), (calc_vm_trans_bit p 2 2) by lia.
  assert (i = 0 \/ i = 1 \/ i = 2) as [-> |[-> | ->]] by lia; simpl;
    by rewrite ?orb_false_r, ?orb_false_l.
Qed.

Lemma calc_vm_may_bit p i : 0 <= i < 3 -> Z.testbit (calc_vm_may_flags p) (i + 4) = Z.testbit p i.
Proof.
  intros Hi. unfold calc_vm_may_flags. rewrite !Z.lor_spec.
  rewrite (calc_vm_trans_bit p 0 4), (calc_vm_trans_bit p 1 5), (calc_vm_trans_bit p 2 6) by lia.
  assert (i = 0 \/ i = 1 \/ i = 2) as [-> |[-> | ->]] by lia; simpl;
    by rewrite ?orb_false_r, ?orb_false_l.
Qed.

(** A mapping that [ashmem_mmap] accepts has no access right (read, write
    or execute, bits 0-2 of vm_flags) outside the area's [prot_mask], and
    cannot be given one later: the VM_MAY* bits (4-6) are within the mask too. *)
Lemma ashmem_mmap_prot st a v vm setup st' vm' :
  areas st !! a = Some v -> ashmem_mmap st a vm setup = Some (0, st', vm') ->
  forall i, 0 <= i < 3 ->
    (Z.testbit (vm_flags vm') i = true -> Z.testbit (prot_mask v) i = true) /\
    (Z.testbit (vm_flags vm') (i + 4) = true -> Z.testbit (prot_mask v) i = true).
Proof.
  intros Ha Hm i Hi. unfold ashmem_mmap in Hm. rewrite Ha in Hm. simpl in Hm.
  destruct (a_size v =? 0); [done|]. destruct (negb _) eqn:E; [done|].
  apply negb_false_iff, Z.eqb_eq in E.
  assert (Hfl : exists f, vm_flags vm' = f |ᵤ VM_CAN_NONLINEAR /\
                  f = vm_flags vm &ᵤ lnot32 (calc_vm_may_flags (lnot32 (prot_mask v)))
                  \/ vm_flags vm' = f /\ f = vm_flags vm &ᵤ lnot32 (calc_vm_may_flags (lnot32 (prot_mask v)))).
  { eexists. destruct (a_file v); [|destruct (setup _ _ _)]; simplify_eq/=; eauto. }
  assert (Hb : forall k, 0 <= k < 7 -> Z.testbit (vm_flags vm') k =
     Z.testbit (vm_flags vm) k && negb (Z.testbit (calc_vm_may_flags (lnot32 (prot_mask v))) k)).
  { intros k Hk. destruct Hfl as (f & [[-> ->]|[-> ->]]);
      rewrite ?Z.lor_spec, Z.land_spec, lnot32_bit by lia; [|done].
    unfold VM_CAN_NONLINEAR. change 0x08000000 with (2 ^ 27).
    by rewrite Z.pow2_bits_false, orb_false_r by lia. }
  split; rewrite Hb by lia.
  - intros [H1 _]%andb_true_iff. assert (E' := f_equal (fun z => Z.testbit z i) E). simpl in E'.
    rewrite Z.bits_0, !Z.land_spec, lnot32_bit, !calc_vm_prot_bit, H1 in E' by lia.
    destruct (Z.testbit (prot_mask v) i); [done|].
    assert (i = 0 \/ i = 1 \/ i = 2) as [-> |[-> | ->]] by lia; done.
  - rewrite calc_vm_may_bit, lnot32_bit by lia. rewrite negb_involutive.
    by intros [_ ?]%andb_true_iff.
Qed.

(** ** Names *)

Lemma strlen_app w rest : Forall (fun c => c <> 0) w -> strlen (w ++ 0 :: rest) = Some (Zlen w).
Proof.
  induction 1 as [|c w Hc _ IH]; [done|]. simpl. rewrite (proj2 (Z.eqb_neq c 0)) by done.
  rewrite IH. simpl. f_equal. lia.
Qed.

(** The name buffer after [set_name] of a string that fits. *)
Lemma set_name_bytes_spec st a v u w rest :
  ash_inv st -> areas st !! a = Some v -> a_file v = None -> us_ok u = true ->
  us_data u = w ++ 0 :: rest -> ASHMEM_NAME_LEN <= Zlen (us_data u) -> Zlen w < ASHMEM_NAME_LEN ->
  exists v' tl, set_name st a u = Some (0, set_area st a v') /\
    drop (Z.to_nat ASHMEM_NAME_PREFIX_LEN) (name v') = w ++ 0 :: tl.
Proof.
  intros Hinv Ha Hf Hu Hd Hlen Hw.
  pose proof (proj2 (copy_from_user_left u 0 256 ltac:(lia) ltac:(lia)) ltac:(right; split; done)) as Hm.
  pose proof (copy_from_user_ok u 0 256 ltac:(lia) ltac:(lia) Hm) as Hc.
  destruct (set_name_total st a v u Hinv Ha) as (c & st' & Hs & [_ Hi'] & Hcase).
  destruct Hcase as [[-> _]|(v' & -> & Hc0 & Hk)].
  { exfalso. unfold set_name in Hs. rewrite Ha in Hs. simpl in Hs. rewrite Hf in Hs.
    destruct (copy_from_user u 0 ASHMEM_NAME_LEN). destruct (mem_write _ _ _); [|done].
    simpl in Hs. destruct (mem_write _ _ _); [|done]. simpl in Hs. by case_match. }
  rewrite (proj2 Hc0 Hm) in Hs. exists v'.
  destruct (Hi' a v') as [Hn Hz _]; [simpl; by rewrite lookup_insert_eq|].
  unfold ASHMEM_FULL_NAME_LEN, ASHMEM_NAME_LEN, ASHMEM_NAME_PREFIX_LEN in *.
  exists (drop (S (length w)) (drop (Z.to_nat 11) (name v'))). split; [done|].
  rewrite <- (take_drop (S (length w)) (drop (Z.to_nat 11) (name v'))) at 1.
  rewrite (cons_middle 0 w), app_assoc. f_equal.
  apply zget_ext; rewrite length_take, length_drop; [rewrite length_app; cbn [length]; lia|].
  intros j Hj. 
  replace (S (length w)) with (Z.to_nat (Zlen w + 1)) by lia. rewrite zget_take_drop by lia.
  destruct (decide (j = 255)) as [-> |Hne].
  - change (11 + 255) with (256 + 11 - 1). rewrite Hz. rewrite zget_app_r by lia. by replace (255 - Zlen w) with 0 by lia.
  - rewrite Hk by lia. rewrite Hc, Hd. replace (11 + j - 11) with j by lia.
    rewrite zget_take_drop, Z.add_0_l by lia.
    destruct (decide (j < Zlen w)); [by rewrite !zget_app_l by lia|].
    rewrite !zget_app_r by lia. assert (j - Zlen w = 0) as -> by lia. done.
Qed.

(** A name of at most 255 non-NUL bytes set with ASHMEM_SET_NAME is what
    ASHMEM_GET_NAME copies out, with its terminator. *)
Lemma ashmem_name_roundtrip st a v u w rest u' :
  ash_inv st -> areas st !! a = Some v -> a_file v = None -> us_ok u = true ->
  us_data u = w ++ 0 :: rest -> ASHMEM_NAME_LEN <= Zlen (us_data u) ->
  Zlen w < ASHMEM_NAME_LEN -> Forall (fun c => c <> 0) w -> w <> [] ->
  exists st', ashmem_ioctl st a (ASHMEM_SET_NAME u) = Some (0, st') /\
    get_name st' a u' =
      Some (if negb (snd (copy_to_user u' 0 (w ++ [0])) =? 0) then - EFAULT else 0,
            fst (copy_to_user u' 0 (w ++ [0]))).
Proof.
  intros Hinv Ha Hf Hu Hd Hlen Hw Hnz Hne.
  destruct (set_name_bytes_spec st a v u w rest) as (v' & tl & Hs & Hn); try done.
  exists (set_area st a v'). split; [unfold ashmem_ioctl; by rewrite Ha|].
  unfold get_name. simpl. rewrite lookup_insert_eq. simpl. rewrite Hn, strlen_app by done. simpl.
  assert (Hz : zget (name v') ASHMEM_NAME_PREFIX_LEN <> 0).
  { rewrite <- (Z.add_0_r ASHMEM_NAME_PREFIX_LEN), <- zget_drop, Hn by done.
    destruct w as [|c w]; [done|]. inversion Hnz; subst. done. }
  rewrite (proj2 (Z.eqb_neq _ 0) Hz). simpl.
  assert (Hl : 11 + (Zlen w + 1) <= Zlen (name v')).
  { assert (L := f_equal length Hn). rewrite length_drop, length_app in L. cbn [length] in L.
    unfold ASHMEM_NAME_PREFIX_LEN in L. lia. }
  unfold ASHMEM_NAME_PREFIX_LEN in *. rewrite mem_read_Some by lia. simpl. rewrite Hn.
  replace (Z.to_nat (Zlen w + 1)) with (length w + 1)%nat by lia.
  rewrite firstn_app_2. simpl. rewrite ?take_0. by destruct (copy_to_user u' 0 (w ++ [0])).
Qed.

(** A request of length 0 at the very end of an area passes the checks of
    [ashmem_pin_unpin] as the interval of no pages [n..n-1].  Unpinning it
    leaves an empty range on the lists, and [ashmem_get_pin_status] then
    reports the last page, which is pinned, as unpinned. *)
Lemma ashmem_empty_unpin_misreports :
  let st := set_area (mk_ash {[1 := demo_area]} ∅ [] 0 ∅ ∅) 1 (set_unpinned demo_area []) in
  let all := {| pin_offset := 16384; pin_len := 0 |} in
  let last := {| pin_offset := 12288; pin_len := 4096 |} in
  (fst <$> ashmem_pin_unpin st 1 ASHMEM_GET_PIN_STATUS (Some last) None) = Some ASHMEM_IS_PINNED /\
  (fst <$> ('(_, st') ← ashmem_pin_unpin st 1 ASHMEM_UNPIN (Some all) (Some 100);
            ashmem_pin_unpin st' 1 ASHMEM_GET_PIN_STATUS (Some last) None)) = Some ASHMEM_IS_UNPINNED /\
  (lru_count ∘ snd <$> ashmem_pin_unpin st 1 ASHMEM_UNPIN (Some all) (Some 100)) = Some 0.
Proof. vm_compute. auto. Qed.

(** Without the READ_IMPLIES_EXEC personality ASHMEM_SET_PROT_MASK only
    removes access rights from the mask of an area. *)
Theorem set_prot_mask_monotone st a v prot c st' :
  areas st !! a = Some v -> ashmem_ioctl st a (ASHMEM_SET_PROT_MASK prot false) = Some (c, st') ->
  exists v', areas st' !! a = Some v' /\
    forall i, Z.testbit (prot_mask v') i = true -> Z.testbit (prot_mask v) i = true.
Proof.
  intros Ha. unfold ashmem_ioctl. rewrite Ha. simpl. unfold set_prot_mask. rewrite Ha. simpl.
  rewrite andb_false_r. destruct (_ =? prot) eqn:E; simpl; intros; simplify_eq; [|by exists v].
  eexists. split; [simpl; by rewrite lookup_insert_eq|]. intros i. simpl. apply Z.eqb_eq in E. rewrite <- E.
  rewrite Z.land_spec. by intros [? _]%andb_true_iff.
Qed.

(** With it, a mask from which PROT_EXEC had been removed gets it back. *)
Lemma set_prot_mask_adds_exec :
  let st := set_area demo 1 (set_prot demo_area PROT_READ) in
  ('(_, st') ← ashmem_ioctl st 1 (ASHMEM_SET_PROT_MASK PROT_READ true);
   prot_mask <$> areas st' !! 1) = Some (PROT_READ |ᵤ PROT_EXEC).
Proof. reflexivity. Qed.

End Ashmem.
