(* ===== verification/Wakelock.v ===== *)
(** Wake locks (kernel/power/wakelock.c, include/linux/wakelock.h): the locks,
    the lists of active and inactive ones, the expiry timer and the work item
    that suspends the system, with the statistics of CONFIG_WAKELOCK_STAT and
    the watchdog of CONFIG_WAKELOCK_WATCHDOG, as the target configures them.

    [Module Wakelock] has one definition per function.  Messages (pr_info under
    debug_mask) are left out.  Every operation runs under the spinlock
    list_lock with interrupts off, so it is one transition; it reads the time
    once, in [clock]. *)

From S2P Require Import Prelude.
Local Open Scope Z_scope.
Local Open Scope kernel_scope.

Module Wakelock.

(** ** Constants *)

Definition WAKE_LOCK_SUSPEND : Z := 0.
Definition WAKE_LOCK_IDLE : Z := 1.
Definition WAKE_LOCK_TYPE_COUNT : Z := 2.

Definition WAKE_LOCK_TYPE_MASK : Z := 0x0f.
Definition WAKE_LOCK_INITIALIZED : Z := Z.shiftl 1 8.
Definition WAKE_LOCK_ACTIVE : Z := Z.shiftl 1 9.
Definition WAKE_LOCK_AUTO_EXPIRE : Z := Z.shiftl 1 10.
Definition WAKE_LOCK_PREVENTING_SUSPEND : Z := Z.shiftl 1 11.

Definition HZ : Z := 100.
Definition LONG_MAX : Z := 2147483647.

(** [if (flags & m)] *)
Definition flag_set (flags m : Z) : bool := negb (flags &ᵤ m =? 0).

(** ** State *)

(** ktime_t is a number of nanoseconds. *)
Record lock_stat := mk_stat {
  count : Z; expire_count : Z; wakeup_count : Z;
  total_time : Z; prevent_suspend_time : Z; max_time : Z; last_time : Z
}.

Record wake_lock_t := mk_lock {
  flags : Z; lock_name : option (list Z); expires : Z; stat : lock_stat
}.

(** The static locks. *)
Definition main_wake_lock : Z := 1.
Definition deleted_wake_locks : Z := 2.
Definition unknown_wakeup : Z := 3.
Definition watchdog_wake_lock : Z := 4.

(** The locks by address; a timer is [Some t] while it is pending for jiffies
    [t]; [suspend_work] tells whether the work item is queued. *)
Record pm := mk_pm {
  locks : gmap Z wake_lock_t;
  inactive_locks : list Z;
  active_suspend : list Z;
  active_idle : list Z;
  current_event_num : Z;
  service_wake_lock : option Z;
  wait_for_wakeup : bool;
  last_sleep_time_update : Z;
  expire_timer : option Z;
  watchdog_timer : option Z;
  suspend_watchdog_timer : option Z;
  suspend_work : bool
}.

(** jiffies, ktime_get(), current_kernel_time() + wall_to_monotonic, and the
    length of a tick. *)
Record clock := { jiffies : Z; ktime_get : Z; coarse_time : Z; TICK_NSEC : Z }.

(** active_wake_locks[type] *)
Definition active_wake_locks (st : pm) (type : Z) : list Z :=
  if type =? WAKE_LOCK_SUSPEND then active_suspend st else active_idle st.

Definition set_active (st : pm) (type : Z) (l : list Z) : pm :=
  if type =? WAKE_LOCK_SUSPEND then
    mk_pm (locks st) (inactive_locks st) l (active_idle st) (current_event_num st)
      (service_wake_lock st) (wait_for_wakeup st) (last_sleep_time_update st)
      (expire_timer st) (watchdog_timer st) (suspend_watchdog_timer st) (suspend_work st)
  else
    mk_pm (locks st) (inactive_locks st) (active_suspend st) l (current_event_num st)
      (service_wake_lock st) (wait_for_wakeup st) (last_sleep_time_update st)
      (expire_timer st) (watchdog_timer st) (suspend_watchdog_timer st) (suspend_work st).

Definition set_locks (st : pm) (m : gmap Z wake_lock_t) : pm :=
  mk_pm m (inactive_locks st) (active_suspend st) (active_idle st) (current_event_num st)
    (service_wake_lock st) (wait_for_wakeup st) (last_sleep_time_update st)
    (expire_timer st) (watchdog_timer st) (suspend_watchdog_timer st) (suspend_work st).
Definition set_inactive (st : pm) (l : list Z) : pm :=
  mk_pm (locks st) l (active_suspend st) (active_idle st) (current_event_num st)
    (service_wake_lock st) (wait_for_wakeup st) (last_sleep_time_update st)
    (expire_timer st) (watchdog_timer st) (suspend_watchdog_timer st) (suspend_work st).
Definition set_event_num (st : pm) (n : Z) : pm :=
  mk_pm (locks st) (inactive_locks st) (active_suspend st) (active_idle st) n
    (service_wake_lock st) (wait_for_wakeup st) (last_sleep_time_update st)
    (expire_timer st) (watchdog_timer st) (suspend_watchdog_timer st) (suspend_work st).
Definition set_service (st : pm) (p : option Z) : pm :=
  mk_pm (locks st) (inactive_locks st) (active_suspend st) (active_idle st) (current_event_num st)
    p (wait_for_wakeup st) (last_sleep_time_update st)
    (expire_timer st) (watchdog_timer st) (suspend_watchdog_timer st) (suspend_work st).
Definition set_wait (st : pm) (b : bool) : pm :=
  mk_pm (locks st) (inactive_locks st) (active_suspend st) (active_idle st) (current_event_num st)
    (service_wake_lock st) b (last_sleep_time_update st)
    (expire_timer st) (watchdog_timer st) (suspend_watchdog_timer st) (suspend_work st).
Definition set_sleep_update (st : pm) (t : Z) : pm :=
  mk_pm (locks st) (inactive_locks st) (active_suspend st) (active_idle st) (current_event_num st)
    (service_wake_lock st) (wait_for_wakeup st) t
    (expire_timer st) (watchdog_timer st) (suspend_watchdog_timer st) (suspend_work st).
Definition set_expire_timer (st : pm) (t : option Z) : pm :=
  mk_pm (locks st) (inactive_locks st) (active_suspend st) (active_idle st) (current_event_num st)
    (service_wake_lock st) (wait_for_wakeup st) (last_sleep_time_update st)
    t (watchdog_timer st) (suspend_watchdog_timer st) (suspend_work st).
Definition set_watchdog_timer (st : pm) (t : option Z) : pm :=
  mk_pm (locks st) (inactive_locks st) (active_suspend st) (active_idle st) (current_event_num st)
    (service_wake_lock st) (wait_for_wakeup st) (last_sleep_time_update st)
    (expire_timer st) t (suspend_watchdog_timer st) (suspend_work st).
Definition set_suspend_watchdog_timer (st : pm) (t : option Z) : pm :=
  mk_pm (locks st) (inactive_locks st) (active_suspend st) (active_idle st) (current_event_num st)
    (service_wake_lock st) (wait_for_wakeup st) (last_sleep_time_update st)
    (expire_timer st) (watchdog_timer st) t (suspend_work st).
Definition set_suspend_work (st : pm) (b : bool) : pm :=
  mk_pm (locks st) (inactive_locks st) (active_suspend st) (active_idle st) (current_event_num st)
    (service_wake_lock st) (wait_for_wakeup st) (last_sleep_time_update st)
    (expire_timer st) (watchdog_timer st) (suspend_watchdog_timer st) b.

Definition queue_suspend_work (st : pm) : pm := set_suspend_work st true.

Definition set_flags (l : wake_lock_t) (f : Z) : wake_lock_t :=
  mk_lock f (lock_name l) (expires l) (stat l).
Definition set_expires (l : wake_lock_t) (e : Z) : wake_lock_t :=
  mk_lock (flags l) (lock_name l) e (stat l).
Definition set_stat (l : wake_lock_t) (s : lock_stat) : wake_lock_t :=
  mk_lock (flags l) (lock_name l) (expires l) s.
Definition set_last_time (l : wake_lock_t) (t : Z) : wake_lock_t :=
  set_stat l (mk_stat (count (stat l)) (expire_count (stat l)) (wakeup_count (stat l))
    (total_time (stat l)) (prevent_suspend_time (stat l)) (max_time (stat l)) t).

Definition put (st : pm) (p : Z) (l : wake_lock_t) : pm := set_locks st (<[p := l]> (locks st)).

(** list_del(&lock->link): the lock leaves the list it is on.  A lock on no
    list has poisoned links. *)
Definition unlink (st : pm) (p : Z) : option pm :=
  if bool_decide (p ∈ inactive_locks st ++ active_suspend st ++ active_idle st) then
    Some (set_active (set_active (set_inactive st (list_del p (inactive_locks st)))
            WAKE_LOCK_SUSPEND (list_del p (active_suspend st)))
            WAKE_LOCK_IDLE (list_del p (active_idle st)))
  else None.

(** ** Statistics *)

(** The remaining time of a lock, a [long]. *)
Definition time_left (l : wake_lock_t) (c : clock) : Z := s32 (expires l - jiffies c).

(** [None]: returns 0; [Some t]: returns 1 with *expire_time = t. *)
Definition get_expired_time (l : wake_lock_t) (c : clock) : option Z :=
  if negb (flag_set (flags l) WAKE_LOCK_AUTO_EXPIRE) then None else
  let timeout := time_left l c in
  if timeout >? 0 then None
  else Some (coarse_time c - u32 (- timeout) * TICK_NSEC c).

(** A line of /proc/wakelocks. *)
Record stat_line := {
  sl_name : option (list Z); sl_count : Z; sl_expire_count : Z; sl_wakeup_count : Z;
  sl_active_time : Z; sl_total_time : Z; sl_prevent_suspend_time : Z; sl_max_time : Z;
  sl_last_time : Z
}.

Definition print_lock_stat (st : pm) (l : wake_lock_t) (c : clock) : stat_line :=
  let s := stat l in
  if flag_set (flags l) WAKE_LOCK_ACTIVE then
    let e := get_expired_time l c in
    let now := match e with Some t => t | None => ktime_get c end in
    let add_time := now - last_time s in
    {| sl_name := lock_name l; sl_count := s32 (count s + 1);
       sl_expire_count := match e with Some _ => s32 (expire_count s + 1) | None => expire_count s end;
       sl_wakeup_count := wakeup_count s;
       sl_active_time := match e with Some _ => 0 | None => add_time end;
       sl_total_time := total_time s + add_time;
       sl_prevent_suspend_time :=
         if flag_set (flags l) WAKE_LOCK_PREVENTING_SUSPEND
         then prevent_suspend_time s + (now - last_sleep_time_update st)
         else prevent_suspend_time s;
       sl_max_time := if add_time >? max_time s then add_time else max_time s;
       sl_last_time := last_time s |}
  else
    {| sl_name := lock_name l; sl_count := count s; sl_expire_count := expire_count s;
       sl_wakeup_count := wakeup_count s; sl_active_time := 0; sl_total_time := total_time s;
       sl_prevent_suspend_time := prevent_suspend_time s; sl_max_time := max_time s;
       sl_last_time := last_time s |}.

Definition wakelock_stats_show (st : pm) (c : clock) : option (list stat_line) :=
  mapM (fun p => l ← locks st !! p; Some (print_lock_stat st l c))
    (inactive_locks st ++ active_wake_locks st WAKE_LOCK_SUSPEND ++
     active_wake_locks st WAKE_LOCK_IDLE).

Definition wake_unlock_stat_locked (st : pm) (p : Z) (expired : bool) (c : clock) : option pm :=
  l ← locks st !! p;
  if negb (flag_set (flags l) WAKE_LOCK_ACTIVE) then Some st else
  let e := get_expired_time l c in
  let expired := match e with Some _ => true | None => expired end in
  let now := match e with Some t => t | None => ktime_get c end in
  let s := stat l in
  let duration := now - last_time s in
  let preventing := flag_set (flags l) WAKE_LOCK_PREVENTING_SUSPEND in
  let s' := mk_stat (s32 (count s + 1))
              (if expired then s32 (expire_count s + 1) else expire_count s)
              (wakeup_count s) (total_time s + duration)
              (if preventing
               then prevent_suspend_time s + (now - last_sleep_time_update st)
               else prevent_suspend_time s)
              (if duration >? max_time s then duration else max_time s)
              (ktime_get c) in
  Some (put st p (mk_lock
    (if preventing then flags l &ᵤ Z.lnot WAKE_LOCK_PREVENTING_SUSPEND else flags l)
    (lock_name l) (expires l) s')).

(** The body of the loop of [update_sleep_wait_stats_locked]. *)
Definition sleep_wait_lock (st : pm) (done : bool) (c : clock) (l : wake_lock_t) : wake_lock_t :=
  let e := get_expired_time l c in
  let s := stat l in
  let s := if flag_set (flags l) WAKE_LOCK_PREVENTING_SUSPEND then
             mk_stat (count s) (expire_count s) (wakeup_count s) (total_time s)
               (prevent_suspend_time s +
                match e with
                | Some etime => etime - last_sleep_time_update st
                | None => ktime_get c - last_sleep_time_update st
                end) (max_time s) (last_time s)
           else s in
  mk_lock (if done || match e with Some _ => true | None => false end
           then flags l &ᵤ Z.lnot WAKE_LOCK_PREVENTING_SUSPEND
           else flags l |ᵤ WAKE_LOCK_PREVENTING_SUSPEND)
    (lock_name l) (expires l) s.

Fixpoint sleep_wait_loop (st : pm) (done : bool) (c : clock) (ps : list Z) : option pm :=
  match ps with
  | [] => Some st
  | p :: ps' =>
      l ← locks st !! p;
      sleep_wait_loop (put st p (sleep_wait_lock st done c l)) done c ps'
  end.

Definition update_sleep_wait_stats_locked (st : pm) (done : bool) (c : clock) : option pm :=
  st ← sleep_wait_loop st done c (active_wake_locks st WAKE_LOCK_SUSPEND);
  Some (set_sleep_update st (ktime_get c)).

(** ** Expiry *)

Definition clear_active (f : Z) : Z := f &ᵤ Z.lnot (WAKE_LOCK_ACTIVE |ᵤ WAKE_LOCK_AUTO_EXPIRE).

Definition expire_wake_lock (st : pm) (p : Z) (c : clock) : option pm :=
  st ← wake_unlock_stat_locked st p true c;
  l ← locks st !! p;
  let st := put st p (set_flags l (clear_active (flags l))) in
  st ← unlink st p;
  Some (set_inactive st (p :: inactive_locks st)).

(** list_for_each_entry_safe of [has_wake_lock_locked]. *)
Fixpoint has_wake_lock_loop (st : pm) (c : clock) (ps : list Z) (max_timeout : Z)
    : option (Z * pm) :=
  match ps with
  | [] => Some (max_timeout, st)
  | p :: ps' =>
      l ← locks st !! p;
      if flag_set (flags l) WAKE_LOCK_AUTO_EXPIRE then
        let timeout := time_left l c in
        if timeout <=? 0 then
          st ← expire_wake_lock st p c; has_wake_lock_loop st c ps' max_timeout
        else has_wake_lock_loop st c ps' (if timeout >? max_timeout then timeout else max_timeout)
      else Some (-1, st)
  end.

Definition has_wake_lock_locked (st : pm) (type : Z) (c : clock) : option (Z * pm) :=
  _ ← BUG_ON (type >=? WAKE_LOCK_TYPE_COUNT);
  has_wake_lock_loop st c (active_wake_locks st type) 0.

Definition has_wake_lock (st : pm) (type : Z) (c : clock) : option (Z * pm) :=
  has_wake_lock_locked st type c.

(** The function of expire_timer; a timer that runs is no longer pending. *)
Definition expire_wake_locks (st : pm) (c : clock) : option pm :=
  let st := set_expire_timer st None in
  '(has_lock, st) ← has_wake_lock_locked st WAKE_LOCK_SUSPEND c;
  Some (if has_lock =? 0 then queue_suspend_work st else st).

Definition power_suspend_late (st : pm) (c : clock) : option (Z * pm) :=
  '(has, st) ← has_wake_lock st WAKE_LOCK_SUSPEND c;
  Some (if negb (has =? 0) then - EAGAIN else 0, set_wait st true).

(** ** Life of a lock *)

(** PowerManagerService *)
Definition service_name : list Z :=
  [80; 111; 119; 101; 114; 77; 97; 110; 97; 103; 101; 114; 83; 101; 114; 118; 105; 99; 101].

(** [locks st !! p] is what the memory of the lock holds before. *)
Definition wake_lock_init (st : pm) (p type : Z) (name : option (list Z)) : option pm :=
  let old := l ← locks st !! p; lock_name l in
  let nm := match name with Some n => Some n | None => old end in
  let st := match name with
            | Some n => if bool_decide (take 19 n = service_name) then set_service st (Some p) else st
            | None => st
            end in
  _ ← BUG_ON (bool_decide (nm = None));
  let ex := match locks st !! p with Some l => expires l | None => 0 end in
  let st := put st p (mk_lock ((type &ᵤ WAKE_LOCK_TYPE_MASK) |ᵤ WAKE_LOCK_INITIALIZED) nm ex
                        (mk_stat 0 0 0 0 0 0 0)) in
  Some (set_inactive st (p :: inactive_locks st)).

(** The statistics of a destroyed lock are added to those of
    [deleted_wake_locks]. *)
Definition add_deleted_stats (st : pm) (l : wake_lock_t) : option pm :=
  if negb (count (stat l) =? 0) then
    d ← locks st !! deleted_wake_locks;
    let s := stat d in
    Some (put st deleted_wake_locks (set_stat d (mk_stat
      (s32 (count s + count (stat l))) (s32 (expire_count s + expire_count (stat l)))
      (wakeup_count s) (total_time s + total_time (stat l))
      (prevent_suspend_time s + prevent_suspend_time (stat l))
      (max_time s + max_time (stat l)) (last_time s))))
  else Some st.

Definition wake_lock_destroy (st : pm) (p : Z) : option pm :=
  l ← locks st !! p;
  let st := put st p (set_flags l (flags l &ᵤ Z.lnot WAKE_LOCK_INITIALIZED)) in
  l ← locks st !! p;
  st ← add_deleted_stats st l;
  unlink st p.

Definition wake_lock_active (st : pm) (p : Z) : option bool :=
  l ← locks st !! p; Some (flag_set (flags l) WAKE_LOCK_ACTIVE).

(** mod_timer on expire_timer, or del_timer and, with no lock left, the
    suspend work: the end of [wake_lock_internal] and of [wake_unlock]. *)
Definition arm_expire_timer (st : pm) (expire_in : Z) (c : clock) : pm :=
  if expire_in >? 0 then set_expire_timer st (Some (jiffies c +ᵤ expire_in))
  else let st := set_expire_timer st None in
       if expire_in =? 0 then queue_suspend_work st else st.

(** Statistics on taking a lock. *)
Definition wake_lock_stat (st : pm) (p type : Z) (c : clock) : option pm :=
  l ← locks st !! p;
  let st := if (type =? WAKE_LOCK_SUSPEND) && wait_for_wakeup st then
              let s := stat l in
              put (set_wait st false) p (set_stat l (mk_stat (count s) (expire_count s)
                (s32 (wakeup_count s + 1)) (total_time s) (prevent_suspend_time s) (max_time s)
                (last_time s)))
            else st in
  l ← locks st !! p;
  if flag_set (flags l) WAKE_LOCK_AUTO_EXPIRE && (time_left l c <=? 0) then
    st ← wake_unlock_stat_locked st p false c;
    l ← locks st !! p;
    Some (put st p (set_last_time l (ktime_get c)))
  else Some st.

(** The lock becomes active and moves to its list. *)
Definition wake_lock_activate (st : pm) (p type timeout : Z) (has_timeout : bool) (c : clock)
    : option pm :=
  l ← locks st !! p;
  let l := if negb (flag_set (flags l) WAKE_LOCK_ACTIVE)
           then set_last_time (set_flags l (flags l |ᵤ WAKE_LOCK_ACTIVE)) (ktime_get c) else l in
  st ← unlink st p;
  if has_timeout then
    let l := set_flags (set_expires l (jiffies c +ᵤ timeout)) (flags l |ᵤ WAKE_LOCK_AUTO_EXPIRE) in
    Some (set_active (put st p l) type (active_wake_locks st type ++ [p]))
  else
    let l := set_flags (set_expires l LONG_MAX) (flags l &ᵤ Z.lnot WAKE_LOCK_AUTO_EXPIRE) in
    Some (set_active (put st p l) type (p :: active_wake_locks st type)).

Definition wake_lock_internal (st : pm) (p timeout : Z) (has_timeout : bool) (c : clock)
    : option pm :=
  l ← locks st !! p;
  let type := flags l &ᵤ WAKE_LOCK_TYPE_MASK in
  _ ← BUG_ON (type >=? WAKE_LOCK_TYPE_COUNT);
  _ ← BUG_ON (negb (flag_set (flags l) WAKE_LOCK_INITIALIZED));
  st ← wake_lock_stat st p type c;
  st ← wake_lock_activate st p type timeout has_timeout c;
  if type =? WAKE_LOCK_SUSPEND then
    let st := set_event_num st (s32 (current_event_num st + 1)) in
    st ← (if bool_decide (p = main_wake_lock) then update_sleep_wait_stats_locked st true c
          else main ← wake_lock_active st main_wake_lock;
               if negb main then update_sleep_wait_stats_locked st false c else Some st);
    let st := if bool_decide (p = main_wake_lock) then set_watchdog_timer st None else st in
    '(expire_in, st) ← (if has_timeout then has_wake_lock_locked st type c else Some (-1, st));
    Some (arm_expire_timer st expire_in c)
  else Some st.

Definition wake_lock (st : pm) (p : Z) (c : clock) : option pm := wake_lock_internal st p 0 false c.

Definition wake_lock_timeout (st : pm) (p timeout : Z) (c : clock) : option pm :=
  wake_lock_internal st p timeout true c.

Definition wake_unlock (st : pm) (p : Z) (c : clock) : option pm :=
  l ← locks st !! p;
  let type := flags l &ᵤ WAKE_LOCK_TYPE_MASK in
  st ← wake_unlock_stat_locked st p false c;
  l ← locks st !! p;
  let st := put st p (set_flags l (clear_active (flags l))) in
  st ← unlink st p;
  let st := set_inactive st (p :: inactive_locks st) in
  if type =? WAKE_LOCK_SUSPEND then
    '(has_lock, st) ← has_wake_lock_locked st type c;
    let st := arm_expire_timer st has_lock c in
    if bool_decide (p = main_wake_lock) then
      st ← update_sleep_wait_stats_locked st false c;
      Some (if negb (has_lock =? 0)
            then set_watchdog_timer st (Some (jiffies c +ᵤ HZ * 60 * 60)) else st)
    else Some st
  else Some st.

(** The function of watchdog_timer. *)
Definition watchdog_func (st : pm) (c : clock) : option pm :=
  wake_lock_timeout (set_watchdog_timer st None) watchdog_wake_lock (HZ * 10) c.

(** The work item.  [pm_suspend] stands for the suspended time: what happens
    to the state until the system is awake again, and at which time it is.
    The result tells whether the system was suspended. *)
Definition suspend (st : pm) (c : clock) (pm_suspend : pm -> pm * clock) : option (bool * pm) :=
  let st := set_suspend_work st false in
  '(has, st) ← has_wake_lock st WAKE_LOCK_SUSPEND c;
  if negb (has =? 0) then Some (false, st) else
  let entry_event_num := current_event_num st in
  let st := set_suspend_watchdog_timer st (Some (jiffies c +ᵤ HZ * 60 * 3)) in
  let st := set_watchdog_timer st None in
  let '(st, c') := pm_suspend st in
  let st := set_watchdog_timer st (Some (jiffies c' +ᵤ HZ * 60 * 60)) in
  let st := set_suspend_watchdog_timer st None in
  if current_event_num st =? entry_event_num then
    st ← wake_lock_timeout st unknown_wakeup (HZ / 2) c'; Some (true, st)
  else Some (true, st).

(** Names of the static locks. *)
Definition name_deleted : list Z :=
  [100; 101; 108; 101; 116; 101; 100; 95; 119; 97; 107; 101; 95; 108; 111; 99; 107; 115].
Definition name_main : list Z := [109; 97; 105; 110].
Definition name_unknown : list Z :=
  [117; 110; 107; 110; 111; 119; 110; 95; 119; 97; 107; 101; 117; 112; 115].
Definition name_watchdog : list Z := [119; 97; 116; 99; 104; 100; 111; 103].

Definition pm_boot : pm := mk_pm ∅ [] [] [] 0 None false 0 None None None false.

(** [dev], [drv] and [wq] are the results of platform_device_register,
    platform_driver_register and create_singlethread_workqueue. *)
Definition wakelocks_init (st : pm) (c : clock) (dev drv : Z) (wq : bool) : option (Z * pm) :=
  let st := set_active (set_active st WAKE_LOCK_SUSPEND []) WAKE_LOCK_IDLE [] in
  st ← wake_lock_init st deleted_wake_locks WAKE_LOCK_SUSPEND (Some name_deleted);
  st ← wake_lock_init st main_wake_lock WAKE_LOCK_SUSPEND (Some name_main);
  st ← wake_lock st main_wake_lock c;
  st ← wake_lock_init st unknown_wakeup WAKE_LOCK_SUSPEND (Some name_unknown);
  st ← wake_lock_init st watchdog_wake_lock WAKE_LOCK_SUSPEND (Some name_watchdog);
  let undo st ret :=
    st ← wake_lock_destroy st unknown_wakeup;
    st ← wake_lock_destroy st main_wake_lock;
    st ← wake_lock_destroy st deleted_wake_locks;
    Some (ret, st) in
  if negb (dev =? 0) then undo st dev
  else if negb (drv =? 0) then undo st drv
  else if negb wq then undo st (- ENOMEM)
  else Some (0, st).

(** * The flags *)

Lemma flag_set_bit f k : 0 <= k -> flag_set f (Z.shiftl 1 k) = Z.testbit f k.
Proof.
  intros Hk. unfold flag_set. rewrite Z.shiftl_1_l. destruct (Z.testbit f k) eqn:E.
  - destruct (f &ᵤ 2 ^ k =? 0) eqn:E0; [|done]. apply Z.eqb_eq in E0.
    assert (H := f_equal (fun x => Z.testbit x k) E0). simpl in H.
    by rewrite Z.land_spec, E, Z.pow2_bits_true, Z.bits_0 in H by done.
  - replace (f &ᵤ 2 ^ k) with 0; [done|]. symmetry. apply Z.bits_inj'. intros n Hn.
    rewrite Z.land_spec, Z.bits_0, Z.pow2_bits_eqb by done.
    destruct (k =? n) eqn:Ekn; [apply Z.eqb_eq in Ekn as <-; by rewrite E|by rewrite andb_false_r].
Qed.

(** What the lists depend on: initialised, active, auto-expire, type. *)
Record view := mk_view { v_init : bool; v_active : bool; v_expire : bool; v_type : Z }.

Definition view_of (f : Z) : view :=
  mk_view (flag_set f WAKE_LOCK_INITIALIZED) (flag_set f WAKE_LOCK_ACTIVE)
    (flag_set f WAKE_LOCK_AUTO_EXPIRE) (f &ᵤ WAKE_LOCK_TYPE_MASK).

(** Setting and clearing bits other than the type's. *)
Ltac view_bits :=
  unfold view_of, clear_active, WAKE_LOCK_INITIALIZED, WAKE_LOCK_ACTIVE, WAKE_LOCK_AUTO_EXPIRE,
    WAKE_LOCK_PREVENTING_SUSPEND, WAKE_LOCK_TYPE_MASK;
  rewrite !flag_set_bit by done; rewrite ?Z.land_lor_distr_l, ?Z.lor_spec, <- ?Z.land_assoc, ?Z.land_spec;
  simpl; rewrite ?andb_true_r, ?andb_false_r, ?orb_true_r, ?orb_false_r, ?Z.lor_0_r; done.

Lemma view_clear f : view_of (clear_active f) =
  mk_view (v_init (view_of f)) false false (v_type (view_of f)).
Proof. view_bits. Qed.
Lemma view_clear_prevent f : view_of (f &ᵤ Z.lnot WAKE_LOCK_PREVENTING_SUSPEND) = view_of f.
Proof. view_bits. Qed.
Lemma view_set_prevent f : view_of (f |ᵤ WAKE_LOCK_PREVENTING_SUSPEND) = view_of f.
Proof. view_bits. Qed.
Lemma view_set_active f : view_of (f |ᵤ WAKE_LOCK_ACTIVE) =
  mk_view (v_init (view_of f)) true (v_expire (view_of f)) (v_type (view_of f)).
Proof. view_bits. Qed.
Lemma view_set_expire f : view_of (f |ᵤ WAKE_LOCK_AUTO_EXPIRE) =
  mk_view (v_init (view_of f)) (v_active (view_of f)) true (v_type (view_of f)).
Proof. view_bits. Qed.
Lemma view_clear_expire f : view_of (f &ᵤ Z.lnot WAKE_LOCK_AUTO_EXPIRE) =
  mk_view (v_init (view_of f)) (v_active (view_of f)) false (v_type (view_of f)).
Proof. view_bits. Qed.
Lemma view_clear_init f : view_of (f &ᵤ Z.lnot WAKE_LOCK_INITIALIZED) =
  mk_view false (v_active (view_of f)) (v_expire (view_of f)) (v_type (view_of f)).
Proof. view_bits. Qed.

Lemma view_active f : v_active (view_of f) = flag_set f WAKE_LOCK_ACTIVE.
Proof. reflexivity. Qed.
Lemma view_type f : v_type (view_of f) = f &ᵤ WAKE_LOCK_TYPE_MASK.
Proof. reflexivity. Qed.

Arguments view_of : simpl never.
#[local] Opaque view_of.

(** * What statistics leave alone *)

Definition core (st : pm) : gmap Z (view * Z) :=
  (fun l => (view_of (flags l), expires l)) <$> locks st.

(** [st'] differs from [st] in statistics only. *)
Record stat_only (st st' : pm) : Prop := {
  so_core : core st' = core st;
  so_inactive : inactive_locks st' = inactive_locks st;
  so_suspend : active_suspend st' = active_suspend st;
  so_idle : active_idle st' = active_idle st;
  so_event : current_event_num st' = current_event_num st;
  so_expire : expire_timer st' = expire_timer st;
  so_work : suspend_work st' = suspend_work st
}.

#[export] Instance stat_only_preorder : PreOrder stat_only.
Proof. split; [by split|]. intros x y z [] []. split; congruence. Qed.

Lemma core_lookup st p : core st !! p = (fun l => (view_of (flags l), expires l)) <$> locks st !! p.
Proof. unfold core. by rewrite lookup_fmap. Qed.

Lemma core_put st p l : core (put st p l) = <[p := (view_of (flags l), expires l)]> (core st).
Proof. unfold core, put. simpl. by rewrite fmap_insert. Qed.

Lemma core_Some st p v e :
  core st !! p = Some (v, e) -> exists l, locks st !! p = Some l /\ view_of (flags l) = v /\ expires l = e.
Proof. rewrite core_lookup. intros. destruct (locks st !! p) as [l|]; simplify_eq/=. eauto. Qed.

Lemma lookup_core st p l : locks st !! p = Some l -> core st !! p = Some (view_of (flags l), expires l).
Proof. intros H. by rewrite core_lookup, H. Qed.

Lemma put_stat_only st p l l' :
  locks st !! p = Some l -> view_of (flags l') = view_of (flags l) -> expires l' = expires l ->
  stat_only st (put st p l').
Proof.
  intros Hp Hv He. split; try done. rewrite core_put, Hv, He. apply insert_id. by apply lookup_core.
Qed.

Lemma wake_unlock_stat_only st p b c l :
  locks st !! p = Some l -> exists st', wake_unlock_stat_locked st p b c = Some st' /\ stat_only st st'.
Proof.
  intros Hp. unfold wake_unlock_stat_locked. rewrite Hp. simpl. case_match; [by eexists|].
  eexists. split; [done|]. apply (put_stat_only st p l); [done| |done]. simpl.
  case_match; [apply view_clear_prevent|done].
Qed.

Lemma sleep_wait_view st b c l :
  view_of (flags (sleep_wait_lock st b c l)) = view_of (flags l) /\
  expires (sleep_wait_lock st b c l) = expires l.
Proof.
  unfold sleep_wait_lock. simpl. split; [|done].
  destruct (_ || _); [apply view_clear_prevent|apply view_set_prevent].
Qed.

Lemma sleep_wait_only b c ps : forall st,
  (forall p, p ∈ ps -> is_Some (core st !! p)) ->
  exists st', sleep_wait_loop st b c ps = Some st' /\ stat_only st st'.
Proof.
  induction ps as [|p ps IH]; intros st Hps; simpl; [by eexists|].
  destruct (Hps p) as [[v e] Hp]; [by left|]. apply core_Some in Hp as (l & Hp & _). rewrite Hp. simpl.
  destruct (sleep_wait_view st b c l) as [Hv He].
  pose proof (put_stat_only _ _ _ _ Hp Hv He) as H1.
  destruct (IH (put st p (sleep_wait_lock st b c l))) as (st' & ? & H2).
  - intros q Hq. rewrite (so_core _ _ H1). apply Hps. by right.
  - exists st'. split; [done|]. by etrans.
Qed.

Lemma update_sleep_only st b c :
  (forall p, p ∈ active_suspend st -> is_Some (core st !! p)) ->
  exists st', update_sleep_wait_stats_locked st b c = Some st' /\ stat_only st st'.
Proof.
  intros H. unfold update_sleep_wait_stats_locked.
  destruct (sleep_wait_only b c (active_suspend st) st H) as (st' & Hs & Ho).
  change (active_wake_locks st WAKE_LOCK_SUSPEND) with (active_suspend st). rewrite Hs. simpl.
  eexists. split; [done|]. destruct Ho. by split.
Qed.

Lemma wake_lock_stat_only st p type c l :
  locks st !! p = Some l -> exists st', wake_lock_stat st p type c = Some st' /\ stat_only st st'.
Proof.
  intros Hp. unfold wake_lock_stat. rewrite Hp. simpl.
  set (st1 := if _ && _ then _ else st).
  assert (H1 : stat_only st st1).
  { unfold st1. case_match; [|done]. destruct (put_stat_only st p l
      (set_stat l (mk_stat (count (stat l)) (expire_count (stat l)) (s32 (wakeup_count (stat l) + 1))
        (total_time (stat l)) (prevent_suspend_time (stat l)) (max_time (stat l))
        (last_time (stat l)))) Hp eq_refl eq_refl). by split. }
  assert (is_Some (core st1 !! p)) as [[v e] Hc].
  { rewrite (so_core _ _ H1), (lookup_core _ _ _ Hp). eauto. }
  apply core_Some in Hc as (l1 & Hl1 & _). rewrite Hl1. simpl. case_match; [|by eexists].
  destruct (wake_unlock_stat_only st1 p false c l1 Hl1) as (st2 & -> & H2). simpl.
  assert (is_Some (core st2 !! p)) as [[v2 e2] Hc].
  { rewrite (so_core _ _ H2), (lookup_core _ _ _ Hl1). eauto. }
  apply core_Some in Hc as (l2 & Hl2 & _). rewrite Hl2. simpl. eexists. split; [done|].
  etrans; [exact H1|]. etrans; [exact H2|]. by apply (put_stat_only st2 p l2).
Qed.

(** * The invariant *)

Definition all_listed (st : pm) : list Z := inactive_locks st ++ active_suspend st ++ active_idle st.

(** Locks without a timeout come first on an active list. *)
Definition ordered (st : pm) (l : list Z) : Prop :=
  exists l1 l2, l = l1 ++ l2 /\
    (forall p, p ∈ l1 -> exists v e, core st !! p = Some (v, e) /\ v_expire v = false) /\
    (forall p, p ∈ l2 -> exists v e, core st !! p = Some (v, e) /\ v_expire v = true).

Definition lock_type (t : Z) : Prop := t = WAKE_LOCK_SUSPEND \/ t = WAKE_LOCK_IDLE.

Record wl_inv (st : pm) : Prop := {
  inv_nodup : NoDup (all_listed st);
  inv_inactive : forall p, p ∈ inactive_locks st ->
    exists t e, core st !! p = Some (mk_view true false false t, e) /\ lock_type t;
  inv_active : forall t p, lock_type t -> p ∈ active_wake_locks st t ->
    exists x e, core st !! p = Some (mk_view true true x t, e);
  inv_listed : forall p v e, core st !! p = Some (v, e) -> v_init v = true -> p ∈ all_listed st;
  inv_order : forall t, lock_type t -> ordered st (active_wake_locks st t);
  inv_static : forall p, p ∈ [main_wake_lock; deleted_wake_locks; unknown_wakeup; watchdog_wake_lock] ->
    exists v e, core st !! p = Some (v, e) /\ v_init v = true /\ v_type v = WAKE_LOCK_SUSPEND
}.

(** Everything else that operations on the lists keep. *)
Record rest_kept (st st' : pm) : Prop := {
  rk_event : current_event_num st' = current_event_num st;
  rk_expire : expire_timer st' = expire_timer st;
  rk_work : suspend_work st' = suspend_work st
}.

#[export] Instance rest_kept_preorder : PreOrder rest_kept.
Proof. split; [by split|]. intros x y z [] []. split; congruence. Qed.

Lemma stat_only_rest st st' : stat_only st st' -> rest_kept st st'.
Proof. intros []. by split. Qed.

(** The invariant is about the locks and the lists. *)
Record same_lists (st st' : pm) : Prop := {
  sl_core : core st' = core st;
  sl_inactive : inactive_locks st' = inactive_locks st;
  sl_suspend : active_suspend st' = active_suspend st;
  sl_idle : active_idle st' = active_idle st
}.

#[export] Instance same_lists_preorder : PreOrder same_lists.
Proof. split; [by split|]. intros x y z [] []. split; congruence. Qed.

Lemma stat_only_lists st st' : stat_only st st' -> same_lists st st'.
Proof. intros []. by split. Qed.

Lemma same_active st st' t : same_lists st st' -> active_wake_locks st' t = active_wake_locks st t.
Proof. intros [_ _ Hs Hd]. unfold active_wake_locks. by rewrite Hs, Hd. Qed.

Lemma same_lists_inv st st' : same_lists st st' -> wl_inv st -> wl_inv st'.
Proof.
  intros Hsame [I1 I2 I3 I4 I5 I6]. pose proof (fun t => same_active st st' t Hsame) as Haw.
  destruct Hsame as [Hc Hi Hs Hd].
  assert (Hal : all_listed st' = all_listed st) by (unfold all_listed; congruence).
  split.
  - by rewrite Hal.
  - rewrite Hi, Hc. done.
  - intros t p. rewrite Haw, Hc. apply I3.
  - intros p v e. rewrite Hal, Hc. apply I4.
  - intros t Ht. unfold ordered. rewrite Haw, Hc. by apply I5.
  - intros p. rewrite Hc. apply I6.
Qed.

Lemma stat_only_inv st st' : stat_only st st' -> wl_inv st -> wl_inv st'.
Proof. intros H. by apply same_lists_inv, stat_only_lists. Qed.

Lemma unlink_Some st p :
  p ∈ all_listed st ->
  exists st', unlink st p = Some st' /\ locks st' = locks st /\
    inactive_locks st' = list_del p (inactive_locks st) /\
    active_suspend st' = list_del p (active_suspend st) /\
    active_idle st' = list_del p (active_idle st) /\ rest_kept st st'.
Proof.
  intros Hp. unfold unlink. rewrite bool_decide_eq_true_2 by done. eexists. by repeat split.
Qed.

(** ** Moving a lock to another list *)

Lemma ordered_keep st st' p l :
  (forall q, q <> p -> core st' !! q = core st !! q) -> ordered st l -> ordered st' (list_del p l).
Proof.
  intros Hc (l1 & l2 & -> & H1 & H2). exists (list_del p l1), (list_del p l2).
  split; [apply list_del_app|]. split; intros q [Hq Hne]%elem_list_del; rewrite Hc by done; auto.
Qed.

Section moving.
Context (st st' : pm) (p : Z) (v v' : view) (e e' : Z).
Context (Hinv : wl_inv st) (Hp : core st !! p = Some (v, e)) (Hi : v_init v = true).
Context (Hcore : core st' = <[p := (v', e')]> (core st)).
Context (Hi' : v_init v' = true) (Ht : v_type v' = v_type v).

Lemma core_ne q : q <> p -> core st' !! q = core st !! q.
Proof using Hcore. intros. by rewrite Hcore, lookup_insert_ne. Qed.

Lemma core_eq : core st' !! p = Some (v', e').
Proof using Hcore. by rewrite Hcore, lookup_insert_eq. Qed.

Lemma all_removed :
  NoDup (list_del p (inactive_locks st) ++ list_del p (active_suspend st) ++ list_del p (active_idle st)) /\
  (forall q, q ∈ list_del p (inactive_locks st) ++ list_del p (active_suspend st) ++
                  list_del p (active_idle st) <-> q ∈ all_listed st /\ q <> p).
Proof using Hinv.
  rewrite <- !list_del_app. fold (all_listed st). split; [apply NoDup_filter, Hinv|].
  intros q. apply elem_list_del.
Qed.

Lemma static_kept q :
  q ∈ [main_wake_lock; deleted_wake_locks; unknown_wakeup; watchdog_wake_lock] ->
  exists v e, core st' !! q = Some (v, e) /\ v_init v = true /\ v_type v = WAKE_LOCK_SUSPEND.
Proof using Hinv Hp Hcore Hi' Ht.
  intros Hq. destruct (inv_static _ Hinv q Hq) as (w & f & Hw & ? & Hwt).
  destruct (decide (q = p)) as [-> |]; [|rewrite core_ne by done; eauto].
  rewrite core_eq. exists v', e'. split_and!; [done..|]. rewrite Ht. by simplify_eq.
Qed.

(** The order of the two lists the lock does not go to. *)
Lemma removed_active t q : lock_type t -> q ∈ list_del p (active_wake_locks st t) ->
  exists x e, core st' !! q = Some (mk_view true true x t, e).
Proof using Hinv Hcore.
  intros Hty [Hq Hne]%elem_list_del. rewrite core_ne by done. by apply (inv_active _ Hinv).
Qed.

Lemma removed_inactive q : q ∈ list_del p (inactive_locks st) ->
  exists t e, core st' !! q = Some (mk_view true false false t, e) /\ lock_type t.
Proof using Hinv Hcore.
  intros [Hq Hne]%elem_list_del. rewrite core_ne by done. by apply (inv_inactive _ Hinv).
Qed.

Lemma listed_kept q w f :
  core st' !! q = Some (w, f) -> v_init w = true -> q <> p -> q ∈ all_listed st.
Proof using Hinv Hcore. intros Hq Hw Hne. rewrite core_ne in Hq by done. by eapply inv_listed. Qed.

Lemma to_inactive_inv :
  v' = mk_view true false false (v_type v) -> lock_type (v_type v) ->
  inactive_locks st' = p :: list_del p (inactive_locks st) ->
  active_suspend st' = list_del p (active_suspend st) ->
  active_idle st' = list_del p (active_idle st) -> wl_inv st'.
Proof using All.
  intros Hv Hty HI HS HD. destruct all_removed as [Hnd Hin].
  assert (Haw : forall t, active_wake_locks st' t = list_del p (active_wake_locks st t))
    by (intros t; unfold active_wake_locks; by case_match).
  assert (Hal : all_listed st' = p :: list_del p (inactive_locks st) ++ list_del p (active_suspend st) ++
                                    list_del p (active_idle st)) by (unfold all_listed; by rewrite HI, HS, HD).
  split.
  - rewrite Hal. apply NoDup_cons. split; [|done]. intros [_ ?]%Hin. done.
  - intros q. rewrite HI. intros [-> |Hq]%elem_of_cons; [|by apply removed_inactive].
    rewrite core_eq, Hv. eauto.
  - intros t q Ht'. rewrite Haw. by apply removed_active.
  - intros q w f Hq Hw. rewrite Hal. destruct (decide (q = p)) as [-> |]; [by left|right].
    apply Hin. split; [|done]. by eapply listed_kept.
  - intros t Ht'. rewrite Haw. apply (ordered_keep st); [apply core_ne|by apply (inv_order _ Hinv)].
  - apply static_kept.
Qed.

Lemma to_active_inv (tail : bool) :
  v' = mk_view true true tail (v_type v) -> lock_type (v_type v) ->
  inactive_locks st' = list_del p (inactive_locks st) ->
  (forall t, lock_type t -> active_wake_locks st' t =
     if bool_decide (t = v_type v)
     then if tail then list_del p (active_wake_locks st t) ++ [p] else p :: list_del p (active_wake_locks st t)
     else list_del p (active_wake_locks st t)) -> wl_inv st'.
Proof using All.
  intros Hv Hty HI HA. destruct all_removed as [Hnd Hin].
  assert (Hal : all_listed st' ≡ₚ p :: list_del p (inactive_locks st) ++ list_del p (active_suspend st) ++
                                    list_del p (active_idle st)).
  { unfold all_listed. rewrite HI. pose proof (HA 0 ltac:(by left)) as H0.
    pose proof (HA 1 ltac:(by right)) as H1. unfold active_wake_locks in H0, H1. simpl in H0, H1.
    rewrite H0, H1. destruct Hty as [-> | ->]; simpl; destruct tail; solve_Permutation. }
  split.
  - rewrite Hal. apply NoDup_cons. split; [|done]. intros [_ ?]%Hin. done.
  - intros q. rewrite HI. by apply removed_inactive.
  - intros t q Ht'. rewrite HA by done. case_bool_decide as E; [|by apply removed_active].
    intros Hq. destruct (decide (q = p)) as [-> |]; [rewrite core_eq, Hv, <- E; eauto|].
    apply removed_active; [done|]. destruct tail; set_solver.
  - intros q w f Hq Hw. rewrite Hal. destruct (decide (q = p)) as [-> |]; [by left|right].
    apply Hin. split; [|done]. by eapply listed_kept.
  - intros t Ht'. rewrite HA by done.
    assert (Hk : ordered st' (list_del p (active_wake_locks st t)))
      by (apply (ordered_keep st); [apply core_ne|by apply (inv_order _ Hinv)]).
    case_bool_decide; [|done]. destruct Hk as (l1 & l2 & -> & H1 & H2). destruct tail.
    + exists l1, (l2 ++ [p]). rewrite app_assoc. split_and!; [done..|].
      intros q [?|Hq]%elem_of_app; [auto|]. apply list_elem_of_singleton in Hq as ->. rewrite core_eq, Hv. eauto.
    + exists (p :: l1), l2. split_and!; [done| |done].
      intros q [-> |?]%elem_of_cons; [|auto]. rewrite core_eq, Hv. eauto.
  - apply static_kept.
Qed.
End moving.

(** ** Expiry *)

(** Remaining time of the lock at [p], from its expiry time. *)
Definition left_of (st : pm) (c : clock) (p : Z) : Z :=
  match core st !! p with Some (_, e) => s32 (e - jiffies c) | None => 0 end.

Definition live (st : pm) (c : clock) (p : Z) : Prop := 0 < left_of st c p.

#[export] Instance live_dec st c p : Decision (live st c p).
Proof. unfold live. apply _. Defined.

Lemma left_of_lock st c p l : locks st !! p = Some l -> left_of st c p = time_left l c.
Proof. intros H. unfold left_of, time_left. by rewrite (lookup_core _ _ _ H). Qed.

Lemma inv_lists st t p : wl_inv st -> lock_type t -> p ∈ active_wake_locks st t -> p ∈ all_listed st.
Proof.
  intros Hinv Ht Hp. destruct (inv_active _ Hinv t p Ht Hp) as (x & e & H).
  by apply (inv_listed _ Hinv _ _ _ H).
Qed.

(** A lock is on one list only. *)
Lemma active_other st t t' p :
  wl_inv st -> lock_type t -> lock_type t' -> p ∈ active_wake_locks st t ->
  p ∈ active_wake_locks st t' -> t = t'.
Proof.
  intros Hinv Ht Ht' Hp Hp'. destruct (inv_active _ Hinv t p Ht Hp) as (x & e & H).
  destruct (inv_active _ Hinv t' p Ht' Hp') as (x' & e' & H'). by simplify_eq.
Qed.

Lemma active_not_inactive st t p :
  wl_inv st -> lock_type t -> p ∈ active_wake_locks st t -> p ∉ inactive_locks st.
Proof.
  intros Hinv Ht Hp Hi. destruct (inv_active _ Hinv t p Ht Hp) as (x & e & H).
  destruct (inv_inactive _ Hinv p Hi) as (t' & e' & H' & _). simplify_eq.
Qed.

(** The common end of expiry and unlock: flags cleared, to the inactive list. *)
Definition deactivated (st st' : pm) (p : Z) : Prop :=
  wl_inv st' /\ rest_kept st st' /\ inactive_locks st' = p :: list_del p (inactive_locks st) /\
  (forall t, active_wake_locks st' t = list_del p (active_wake_locks st t)) /\
  exists v e, core st !! p = Some (v, e) /\
    core st' = <[p := (mk_view true false false (v_type v), e)]> (core st).

Lemma deactivate st p l :
  wl_inv st -> locks st !! p = Some l -> v_init (view_of (flags l)) = true ->
  lock_type (v_type (view_of (flags l))) ->
  exists st', (st1 ← unlink (put st p (set_flags l (clear_active (flags l)))) p;
               Some (set_inactive st1 (p :: inactive_locks st1))) = Some st' /\ deactivated st st' p.
Proof.
  intros Hinv Hp Hi Ht. pose proof (lookup_core _ _ _ Hp) as Hc.
  pose proof (inv_listed _ Hinv _ _ _ Hc Hi) as Hl.
  destruct (unlink_Some (put st p (set_flags l (clear_active (flags l)))) p)
    as (st1 & -> & L1 & I1 & S1 & D1 & [K1 K2 K3]); [done|].
  simpl in *. eexists. split; [done|].
  assert (Hcore : core (set_inactive st1 (p :: inactive_locks st1)) =
    <[p := (mk_view true false false (v_type (view_of (flags l))), expires l)]> (core st)).
  { transitivity (core (put st p (set_flags l (clear_active (flags l))))).
    - unfold core. simpl. by rewrite L1.
    - rewrite core_put. simpl. by rewrite view_clear, Hi. }
  split_and!.
  - eapply (to_inactive_inv st _ p _ _ _ _ Hinv Hc Hi Hcore); try done; simpl; by rewrite I1.
  - by split.
  - simpl. by rewrite I1.
  - intros t. unfold active_wake_locks. simpl. by case_match.
  - eauto.
Qed.

Lemma deactivated_stat st st1 st' p : stat_only st st1 -> deactivated st1 st' p -> deactivated st st' p.
Proof.
  intros Hs (H1 & H2 & H3 & H4 & v & e & H5 & H6). pose proof (stat_only_rest _ _ Hs) as Hr.
  destruct Hs as [Hc Hi Hsu Hd _ _ _]. split_and!; [done|by etrans|by rewrite <- Hi| |].
  - intros t. rewrite H4. unfold active_wake_locks. by rewrite Hsu, Hd.
  - exists v, e. by rewrite <- Hc.
Qed.

Lemma expire_wake_lock_inv st p c t :
  wl_inv st -> lock_type t -> p ∈ active_wake_locks st t ->
  exists st', expire_wake_lock st p c = Some st' /\ deactivated st st' p.
Proof.
  intros Hinv Ht Hp. destruct (inv_active _ Hinv t p Ht Hp) as (x & e & Hc).
  pose proof Hc as (l & Hl & Hv & He)%core_Some.
  unfold expire_wake_lock. destruct (wake_unlock_stat_only st p true c l Hl) as (st1 & -> & H1). simpl.
  rewrite <- (so_core _ _ H1) in Hc. apply core_Some in Hc as (l1 & Hl1 & Hv1 & He1). rewrite Hl1. simpl.
  destruct (deactivate st1 p l1) as (st' & Hd & Hde);
    [by eapply stat_only_inv|done|by rewrite Hv1|by rewrite Hv1|].
  exists st'. split; [exact Hd|]. by eapply deactivated_stat.
Qed.

(** What [has_wake_lock_locked] leaves of an active list without locks that
    have no timeout: the live ones. *)
Record expired (st st' : pm) (c : clock) (t : Z) (pre ps : list Z) : Prop := {
  ex_inv : wl_inv st';
  ex_rest : rest_kept st st';
  ex_active : active_wake_locks st' t = pre ++ filter (live st c) ps;
  ex_other : forall t', lock_type t' -> t' <> t -> active_wake_locks st' t' = active_wake_locks st t';
  ex_inactive : inactive_locks st' = reverse (filter (fun p => ~ live st c p) ps) ++ inactive_locks st;
  ex_live : forall p, (p ∉ ps \/ live st c p) -> core st' !! p = core st !! p;
  ex_dead : forall p, p ∈ ps -> ~ live st c p -> exists v e, core st !! p = Some (v, e) /\
    core st' !! p = Some (mk_view true false false (v_type v), e)
}.

Definition max_left (st : pm) (c : clock) (ps : list Z) (m : Z) : Z :=
  foldl (fun m p => Z.max m (left_of st c p)) m ps.

Lemma max_left_same st st' c ps m :
  (forall p, p ∈ ps -> left_of st' c p = left_of st c p) -> max_left st' c ps m = max_left st c ps m.
Proof.
  revert m. induction ps as [|p ps IH]; intros m H; [done|]. simpl.
  rewrite H by (by left). apply IH. intros. apply H. by right.
Qed.

Lemma filter_same (P Q : Z -> Prop) `{!forall x, Decision (P x), !forall x, Decision (Q x)} (l : list Z) :
  (forall x, x ∈ l -> P x <-> Q x) -> filter P l = filter Q l.
Proof.
  induction l as [|x l IH]; intros HPQ; [done|]. rewrite !filter_cons, IH by set_solver.
  specialize (HPQ x ltac:(by left)). repeat case_decide; tauto.
Qed.

Lemma list_del_head st t pre p ps :
  wl_inv st -> lock_type t -> active_wake_locks st t = pre ++ p :: ps ->
  list_del p (active_wake_locks st t) = pre ++ ps /\ (p ∉ pre) /\ (p ∉ ps).
Proof.
  intros Hinv Ht Ha. assert (Hnd : NoDup (active_wake_locks st t)).
  { pose proof (inv_nodup _ Hinv) as (_ & _ & (? & _ & ?)%NoDup_app)%NoDup_app.
    unfold active_wake_locks. by case_match. }
  rewrite Ha in Hnd |- *. apply NoDup_app in Hnd as (_ & H1 & [H2 _]%NoDup_cons).
  assert (p ∉ pre) by (intros Hin; apply (H1 _ Hin); by left).
  split_and!; [|done..]. by apply list_del_middle.
Qed.

(** The first lock of the rest of the list has expired, or is live. *)
Section expiring.
Context (t : Z) (c : clock) (st st' : pm) (pre : list Z) (p : Z) (ps : list Z).
Context (Ht : lock_type t) (Hinv : wl_inv st) (Ha : active_wake_locks st t = pre ++ p :: ps).

Lemma expired_live : live st c p -> expired st st' c t (pre ++ [p]) ps -> expired st st' c t pre (p :: ps).
Proof using All.
  intros Hlive [E1 E2 E3 E4 E5 E6 E7]. split; try done.
  - rewrite E3, filter_cons, decide_True by done. by rewrite <- app_assoc.
  - by rewrite E5, filter_cons, decide_False by tauto.
  - intros q [Hq|Hq]; apply E6; [left; set_solver|by right].
  - intros q [-> |Hq]%elem_of_cons Hnl; [done|]. by apply E7.
Qed.

Context (st1 : pm) (Hde : deactivated st st1 p) (Hdead : ~ live st c p).

Lemma dead_core q : q <> p -> core st1 !! q = core st !! q.
Proof using Hde.
  intros. destruct Hde as (_ & _ & _ & _ & v & e & _ & ->). by rewrite lookup_insert_ne.
Qed.

Lemma dead_left q : q <> p -> left_of st1 c q = left_of st c q.
Proof using Hde. intros. unfold left_of. by rewrite dead_core. Qed.

Lemma dead_live : filter (live st1 c) ps = filter (live st c) ps /\
  filter (fun q => ~ live st1 c q) ps = filter (fun q => ~ live st c q) ps.
Proof using Ht Hinv Ha Hde.
  destruct (list_del_head st t pre p ps Hinv Ht Ha) as (_ & _ & Hps).
  split; apply filter_same; intros q Hq; unfold live; (rewrite dead_left; [done|]); by intros ->.
Qed.

Lemma expired_dead : expired st1 st' c t pre ps -> expired st st' c t pre (p :: ps).
Proof using All.
  intros [E1 E2 E3 E4 E5 E6 E7]. destruct dead_live as [Hf1 Hf2].
  assert (Hpa : p ∈ active_wake_locks st t) by (rewrite Ha; set_solver).
  destruct (list_del_head st t pre p ps Hinv Ht Ha) as (_ & _ & Hps).
  pose proof Hde as (_ & R1 & Hin & Hac & v & e & Hc & Hco).
  split; [done|by etrans| | | | |].
  - by rewrite E3, Hf1, filter_cons, decide_False by done.
  - intros t' Ht' Hne. rewrite E4, Hac by done. apply list_del_notin.
    intros Hin'. apply Hne. by apply (active_other st t' t p).
  - rewrite E5, Hin, Hf2, filter_cons, decide_True by done.
    rewrite (list_del_notin p) by (by eapply active_not_inactive).
    by rewrite reverse_cons, <- app_assoc.
  - intros q Hq. destruct (decide (q = p)) as [-> |Hqp]; [exfalso; destruct Hq as [[]|]; [by left|done]|].
    rewrite <- dead_core by done. apply E6. unfold live. rewrite dead_left by done.
    destruct Hq as [Hq|Hq]; [left; set_solver|by right].
  - intros q Hq Hnl. destruct (decide (q = p)) as [-> |Hqp].
    + exists v, e. split; [done|]. rewrite E6 by (by left). by rewrite Hco, lookup_insert_eq.
    + rewrite <- dead_core by done. apply E7; [set_solver|]. unfold live. by rewrite dead_left.
Qed.
End expiring.

Lemma has_loop_spec t c ps : lock_type t -> forall st pre m,
  wl_inv st -> active_wake_locks st t = pre ++ ps ->
  (forall p, p ∈ ps -> exists v e, core st !! p = Some (v, e) /\ v_expire v = true) ->
  exists st', has_wake_lock_loop st c ps m = Some (max_left st c (filter (live st c) ps) m, st') /\
    expired st st' c t pre ps.
Proof.
  intros Ht. induction ps as [|p ps IH]; intros st pre m Hinv Ha Hex; simpl.
  { exists st. split; [done|]. split; try done. by intros p ?%elem_of_nil. }
  destruct (Hex p) as (v & e & Hc & Hv); [by left|].
  pose proof Hc as (l & Hl & Hvl & He)%core_Some. rewrite Hl. simpl.
  assert (Hfl : flag_set (flags l) WAKE_LOCK_AUTO_EXPIRE = true) by (by rewrite <- Hv, <- Hvl).
  rewrite Hfl, <- (left_of_lock st c p l Hl), filter_cons.
  destruct (left_of st c p <=? 0) eqn:El; [apply Z.leb_le in El|apply Z.leb_gt in El].
  - assert (Hd : ~ live st c p) by (unfold live; lia). rewrite decide_False by done.
    assert (Hpa : p ∈ active_wake_locks st t) by (rewrite Ha; set_solver).
    destruct (list_del_head st t pre p ps Hinv Ht Ha) as (Hdel & _ & Hps).
    destruct (expire_wake_lock_inv st p c t Hinv Ht Hpa) as (st1 & -> & Hde).
    pose proof Hde as (I1 & _ & _ & Hac & _).
    destruct (IH st1 pre m I1) as (st' & Hlo & HE).
    + by rewrite Hac, Hdel.
    + intros q Hq. rewrite (dead_core st p st1 Hde) by (by intros ->). apply Hex. by right.
    + simpl. exists st'. split; [|by apply (expired_dead t c st st' pre p ps Ht Hinv Ha st1)].
      rewrite Hlo. destruct (dead_live t c st pre p ps Ht Hinv Ha st1 Hde) as [-> _].
      f_equal. f_equal. apply max_left_same. intros q [_ Hq]%list_elem_of_filter.
      apply (dead_left c st p st1 Hde). by intros ->.
  - assert (Hd : live st c p) by (unfold live; lia). rewrite decide_True by done. simpl.
    replace (if left_of st c p >? m then left_of st c p else m) with (Z.max m (left_of st c p))
      by (destruct (left_of st c p >? m) eqn:E; lia).
    destruct (IH st (pre ++ [p]) (Z.max m (left_of st c p)) Hinv) as (st' & Hlo & HE).
    + by rewrite <- app_assoc.
    + intros q Hq. apply Hex. by right.
    + exists st'. split; [done|]. by apply expired_live.
Qed.

(** ** Is a lock held? *)

Definition unlimited (st : pm) (t : Z) : Prop :=
  exists p v e, p ∈ active_wake_locks st t /\ core st !! p = Some (v, e) /\ v_expire v = false.

Lemma has_wake_lock_cases st t c :
  wl_inv st -> lock_type t ->
  unlimited st t /\ has_wake_lock_locked st t c = Some (-1, st) \/
  ~ unlimited st t /\ exists st',
    has_wake_lock_locked st t c =
      Some (max_left st c (filter (live st c) (active_wake_locks st t)) 0, st') /\
    expired st st' c t [] (active_wake_locks st t).
Proof.
  intros Hinv Ht. unfold has_wake_lock_locked.
  replace (BUG_ON (t >=? WAKE_LOCK_TYPE_COUNT)) with (Some tt) by (destruct Ht as [-> | ->]; done).
  simpl. destruct (inv_order _ Hinv t Ht) as ([|p l1] & l2 & Ha & H1 & H2).
  - right. simpl in Ha. split.
    + intros (p & v & e & Hp & Hc & Hv). rewrite Ha in Hp. destruct (H2 _ Hp) as (? & ? & ? & ?). congruence.
    + apply (has_loop_spec t c (active_wake_locks st t) Ht st []); [done..|]. by rewrite Ha.
  - left. destruct (H1 p) as (v & e & Hc & Hv); [by left|]. split.
    + exists p, v, e. rewrite Ha. split_and!; [by left|done..].
    + rewrite Ha. simpl. apply core_Some in Hc as (l & -> & Hvl & _). simpl.
      replace (flag_set (flags l) WAKE_LOCK_AUTO_EXPIRE) with false; [done|]. by rewrite <- Hv, <- Hvl.
Qed.

Lemma max_left_ge st c ps : forall m, m <= max_left st c ps m.
Proof. induction ps as [|p ps IH]; intros m; simpl; [lia|]. etrans; [|apply IH]. lia. Qed.

Lemma max_left_upper st c ps p : forall m, p ∈ ps -> left_of st c p <= max_left st c ps m.
Proof.
  induction ps as [|q ps IH]; intros m; [by intros ?%elem_of_nil|].
  intros [-> |Hp]%elem_of_cons; simpl; [|by apply IH]. etrans; [|apply max_left_ge]. lia.
Qed.

Lemma max_left_reached st c ps : forall m,
  max_left st c ps m = m \/ exists p, p ∈ ps /\ max_left st c ps m = left_of st c p.
Proof.
  induction ps as [|q ps IH]; intros m; simpl; [by left|].
  destruct (IH (Z.max m (left_of st c q))) as [->|(p & Hp & ->)].
  - destruct (Z.max_spec m (left_of st c q)) as [[_ ->]|[_ ->]]; [right|by left].
    exists q. split; [by left|done].
  - right. exists p. split; [by right|done].
Qed.

(** What holds of the suspend locks, the timer and the work item after every
    operation that looks at them. *)
Inductive settled (st : pm) (c : clock) : Prop :=
| settled_held : unlimited st WAKE_LOCK_SUSPEND -> expire_timer st = None -> settled st c
| settled_free : active_suspend st = [] -> suspend_work st = true -> expire_timer st = None -> settled st c
| settled_timed m : ~ unlimited st WAKE_LOCK_SUSPEND ->
    expire_timer st = Some (u32 (jiffies c + m)) ->
    (forall p, p ∈ active_suspend st -> 0 < left_of st c p <= m) ->
    (exists p, p ∈ active_suspend st /\ left_of st c p = m) -> settled st c.

Lemma settled_same st st' c :
  same_lists st st' -> expire_timer st' = expire_timer st -> suspend_work st' = suspend_work st ->
  settled st c -> settled st' c.
Proof.
  intros Hs He Hw Hset. pose proof (same_active st st' WAKE_LOCK_SUSPEND Hs) as Ha.
  assert (Hu : unlimited st' WAKE_LOCK_SUSPEND <-> unlimited st WAKE_LOCK_SUSPEND)
    by (unfold unlimited; by rewrite Ha, (sl_core _ _ Hs)).
  assert (Hl : forall p, left_of st' c p = left_of st c p) by (intros; unfold left_of; by rewrite (sl_core _ _ Hs)).
  change (active_suspend st' = active_suspend st) in Ha.
  destruct Hset as [H1 H2|H1 H2 H3|m H1 H2 H3 (p & H4 & H5)].
  - apply settled_held; [by apply Hu|congruence].
  - apply settled_free; congruence.
  - apply (settled_timed _ _ m); [by rewrite Hu|congruence| |].
    + intros q. rewrite Ha, Hl. apply H3.
    + exists p. by rewrite Ha, Hl.
Qed.

Lemma arm_lists st n c : same_lists st (arm_expire_timer st n c).
Proof. unfold arm_expire_timer. repeat case_match; by split. Qed.

(** A lock that looking at the list does not expire. *)
Definition holds (st : pm) (c : clock) (q : Z) : Prop :=
  exists v e, core st !! q = Some (v, e) /\
    (v_active v = false \/ v_expire v = false \/ 0 < s32 (e - jiffies c)).

(** The live locks, the timer and the work item agree. *)
Lemma expired_settled st st1 c :
  let ps := active_wake_locks st WAKE_LOCK_SUSPEND in
  let m := max_left st c (filter (live st c) ps) 0 in
  ~ unlimited st WAKE_LOCK_SUSPEND -> expired st st1 c WAKE_LOCK_SUSPEND [] ps ->
  settled (arm_expire_timer st1 m c) c /\ 0 <= m /\ (m = 0 <-> active_suspend st1 = []).
Proof.
  intros ps m Hnu [E1 E2 E3 E4 E5 E6 E7]. simpl in E3.
  change (active_suspend st1 = filter (live st c) ps) in E3.
  assert (Hlive : forall p, p ∈ filter (live st c) ps ->
    p ∈ ps /\ 0 < left_of st c p /\ left_of st1 c p = left_of st c p).
  { intros p [Hl Hp]%list_elem_of_filter. split_and!; [done|done|].
    unfold left_of. rewrite E6; [done|by right]. }
  assert (Hge : 0 <= m) by apply max_left_ge.
  assert (Hz : m = 0 <-> active_suspend st1 = []).
  { rewrite E3. split; [|intros Hn; unfold m; by rewrite Hn]. intros H0.
    destruct (filter (live st c) ps) as [|p l] eqn:Ef; [done|]. exfalso.
    destruct (Hlive p) as (_ & ? & _); [by left|].
    pose proof (max_left_upper st c (p :: l) p 0 ltac:(by left)). unfold m in H0. lia. }
  split_and!; try done. unfold arm_expire_timer. destruct (m >? 0) eqn:Em.
  2:{ assert (m = 0) as Hm0 by lia. rewrite Hm0. simpl. apply settled_free; try done. simpl. by apply Hz. }
  apply (settled_timed _ _ m); [|done| |].
  - intros (p & v & e & Hp & Hc & Hv). change (p ∈ active_suspend st1) in Hp. rewrite E3 in Hp.
    apply Hnu. destruct (Hlive p Hp) as (Hps & ? & _). exists p, v, e. split_and!; [done| |done].
    rewrite <- E6; [done|]. right. done.
  - intros p Hp. change (p ∈ active_suspend st1) in Hp. rewrite E3 in Hp.
    change (0 < left_of st1 c p <= m). destruct (Hlive p Hp) as (_ & ? & ->).
    split; [done|]. by apply max_left_upper.
  - destruct (max_left_reached st c (filter (live st c) ps) 0) as [H0|(p & Hp & Hm)]; [fold m in H0; lia|].
    exists p. change (p ∈ active_suspend st1 /\ left_of st1 c p = m).
    destruct (Hlive p Hp) as (_ & ? & ->). rewrite E3. done.
Qed.

Lemma has_settles st c :
  wl_inv st ->
  exists r st1, has_wake_lock_locked st WAKE_LOCK_SUSPEND c = Some (r, st1) /\ wl_inv st1 /\
    rest_kept st st1 /\ settled (arm_expire_timer st1 r c) c /\
    (forall q, holds st c q -> core st1 !! q = core st !! q) /\
    (r = 0 <-> active_suspend st1 = []) /\ (r = -1 <-> unlimited st WAKE_LOCK_SUSPEND).
Proof.
  intros Hinv. assert (Ht : lock_type WAKE_LOCK_SUSPEND) by (by left).
  destruct (has_wake_lock_cases st WAKE_LOCK_SUSPEND c Hinv Ht) as [[Hu ->]|[Hnu (st1 & -> & HE)]].
  - exists (-1), st. split_and!; try done.
    + by apply settled_held.
    + split; [done|]. intros He. destruct Hu as (p & v & e & Hp & _). exfalso.
      change (p ∈ active_suspend st) in Hp. rewrite He in Hp. by apply elem_of_nil in Hp.
  - destruct (expired_settled st st1 c Hnu HE) as (Hset & Hge & Hz). eexists _, st1. split; [done|].
    destruct HE as [E1 E2 E3 E4 E5 E6 E7]. split_and!; try done.
    + intros q (v & e & Hc & Hq). apply E6.
      destruct (decide (q ∈ active_wake_locks st WAKE_LOCK_SUSPEND)) as [Hin|]; [right|by left].
      destruct (inv_active _ Hinv WAKE_LOCK_SUSPEND q Ht Hin) as (x & e' & Hc').
      rewrite Hc in Hc'. injection Hc' as -> <-.
      unfold live, left_of. rewrite Hc. destruct Hq as [|[Hq|]]; [done| |done]. simpl in Hq.
      exfalso. apply Hnu. by exists q, (mk_view true true x WAKE_LOCK_SUSPEND), e.
    + split; [lia|done].
Qed.

(** ** Unlocking *)

Lemma init_type st p v e : wl_inv st -> core st !! p = Some (v, e) -> v_init v = true -> lock_type (v_type v).
Proof.
  intros Hinv Hc Hi. pose proof (inv_listed _ Hinv _ _ _ Hc Hi) as Hl.
  unfold all_listed in Hl. rewrite !elem_of_app in Hl. destruct Hl as [Hl|[Hl|Hl]].
  - destruct (inv_inactive _ Hinv p Hl) as (t & e' & Hc' & Ht). by simplify_eq.
  - destruct (inv_active _ Hinv WAKE_LOCK_SUSPEND p (or_introl eq_refl) Hl) as (x & e' & Hc').
    simplify_eq. by left.
  - destruct (inv_active _ Hinv WAKE_LOCK_IDLE p (or_intror eq_refl) Hl) as (x & e' & Hc').
    simplify_eq. by right.
Qed.

Lemma update_sleep_inv st b c :
  wl_inv st -> exists st', update_sleep_wait_stats_locked st b c = Some st' /\ stat_only st st'.
Proof.
  intros Hinv. apply update_sleep_only. intros p Hp.
  destruct (inv_active _ Hinv WAKE_LOCK_SUSPEND p (or_introl eq_refl) Hp) as (x & e & ->). eauto.
Qed.

(** The lock is inactive afterwards; locks that have no timeout or time left
    keep their state; if it is a suspend lock, timer and work item agree with
    the locks that are left. *)
Lemma wake_unlock_spec st p c v e :
  wl_inv st -> core st !! p = Some (v, e) -> v_init v = true ->
  exists st', wake_unlock st p c = Some st' /\ wl_inv st' /\
    core st' !! p = Some (mk_view true false false (v_type v), e) /\
    (forall q, q <> p -> holds st c q -> core st' !! q = core st !! q) /\
    (v_type v = WAKE_LOCK_SUSPEND -> settled st' c).
Proof.
  intros Hinv Hc Hi. pose proof (init_type _ _ _ _ Hinv Hc Hi) as Hty.
  pose proof Hc as (l & Hl & Hvl & Hel)%core_Some.
  unfold wake_unlock. rewrite Hl. simpl. rewrite <- view_type, Hvl.
  destruct (wake_unlock_stat_only st p false c l Hl) as (st0 & -> & H0). simpl.
  pose proof Hc as Hc0. rewrite <- (so_core _ _ H0) in Hc0. apply core_Some in Hc0 as (l0 & Hl0 & Hv0 & He0).
  rewrite Hl0. simpl.
  destruct (deactivate st0 p l0) as (st1 & Hd & Hde0);
    [by eapply stat_only_inv|done|by rewrite Hv0|by rewrite Hv0|].
  pose proof (deactivated_stat _ _ _ _ H0 Hde0) as Hde.
  apply bind_Some in Hd as (stu & Hu & [= <-]). rewrite Hu. simpl.
  set (st1 := set_inactive stu (p :: inactive_locks stu)) in *.
  pose proof Hde as (I1 & R1 & _ & _ & v' & e' & Hc' & Hco). rewrite Hc in Hc'. injection Hc' as <- <-.
  assert (Hp1 : core st1 !! p = Some (mk_view true false false (v_type v), e))
    by (by rewrite Hco, lookup_insert_eq).
  assert (Hq1 : forall q, q <> p -> core st1 !! q = core st !! q)
    by (intros q Hq; by rewrite Hco, lookup_insert_ne).
  destruct (v_type v =? WAKE_LOCK_SUSPEND) eqn:Et.
  2:{ exists st1. split_and!; try done; [by intros; apply Hq1|]. intros E. by rewrite E in Et. }
  apply Z.eqb_eq in Et. rewrite Et in *.
  destruct (has_settles st1 c I1) as (r & st2 & -> & I2 & R2 & Hset & Hh & _). simpl.
  set (st3 := arm_expire_timer st2 r c) in *. pose proof (arm_lists st2 r c) as L3. fold st3 in L3.
  pose proof (same_lists_inv _ _ L3 I2) as I3.
  assert (Hfin : forall st', same_lists st3 st' -> expire_timer st' = expire_timer st3 ->
    suspend_work st' = suspend_work st3 ->
    wl_inv st' /\ core st' !! p = Some (mk_view true false false WAKE_LOCK_SUSPEND, e) /\
    (forall q, q <> p -> holds st c q -> core st' !! q = core st !! q) /\
    (WAKE_LOCK_SUSPEND = WAKE_LOCK_SUSPEND -> settled st' c)).
  { intros st' Hsl He Hw. split_and!; [by eapply same_lists_inv| | |].
    - rewrite (sl_core _ _ Hsl), (sl_core _ _ L3), Hh; [done|]. eexists _, _. split; [done|]. by left.
    - intros q Hqp Hq. rewrite (sl_core _ _ Hsl), (sl_core _ _ L3), Hh; [by apply Hq1|].
      unfold holds. by rewrite Hq1.
    - intros _. by eapply settled_same. }
  case_bool_decide; [|exists st3; split; [done|]; by apply Hfin].
  destruct (update_sleep_inv st3 false c I3) as (st4 & -> & S4). simpl.
  eexists. split; [done|]. pose proof (stat_only_lists _ _ S4) as L4. destruct S4, L4.
  apply Hfin; case_match; done.
Qed.

(** ** Locking *)

Lemma activate_spec st p v e t timeout (ht : bool) c :
  wl_inv st -> core st !! p = Some (v, e) -> v_init v = true -> v_type v = t ->
  exists st', wake_lock_activate st p t timeout ht c = Some st' /\ wl_inv st' /\ rest_kept st st' /\
    core st' = <[p := (mk_view true true ht t, if ht then u32 (jiffies c + timeout) else LONG_MAX)]> (core st) /\
    p ∈ active_wake_locks st' t.
Proof.
  intros Hinv Hc Hi <-. pose proof (init_type _ _ _ _ Hinv Hc Hi) as Hty.
  pose proof (inv_listed _ Hinv _ _ _ Hc Hi) as Hin. pose proof Hc as (l & Hl & Hvl & Hel)%core_Some.
  unfold wake_lock_activate. rewrite Hl. simpl.
  destruct (unlink_Some st p Hin) as (st1 & -> & L1 & I1 & S1 & D1 & [K1 K2 K3]). simpl.
  set (l1 := if negb _ then _ else l).
  assert (Hl1 : view_of (flags l1) = mk_view true true (v_expire v) (v_type v)).
  { unfold l1. destruct (flag_set (flags l) WAKE_LOCK_ACTIVE) eqn:Ea; simpl.
    - rewrite <- view_active, Hvl in Ea. rewrite Hvl. destruct v; simpl in *. by subst.
    - rewrite view_set_active, Hvl. by rewrite Hi. }
  assert (Hc1 : core st1 = core st) by (unfold core; by rewrite L1).
  assert (Ha1 : forall t, active_wake_locks st1 t = list_del p (active_wake_locks st t))
    by (intros t; unfold active_wake_locks; by case_match).
  assert (Hset : forall s t' k, lock_type t' -> active_wake_locks (set_active s t' k) t' = k)
    by (intros s t' k [-> | ->]; done).
  assert (Hset' : forall s t' t k, lock_type t -> lock_type t' -> t <> t' ->
    active_wake_locks (set_active s t' k) t = active_wake_locks s t)
    by (intros s t' t k [-> | ->] [-> | ->] ?; done).
  assert (Hgen : forall (tl : bool) l' k,
    view_of (flags l') = mk_view true true tl (v_type v) ->
    k = (if tl then list_del p (active_wake_locks st (v_type v)) ++ [p]
         else p :: list_del p (active_wake_locks st (v_type v))) ->
    let st' := set_active (put st1 p l') (v_type v) k in
    wl_inv st' /\ rest_kept st st' /\
    core st' = <[p := (mk_view true true tl (v_type v), expires l')]> (core st) /\
    p ∈ active_wake_locks st' (v_type v)).
  { intros tl l' k Hv' Hk st'.
    assert (Hcore : core st' = <[p := (mk_view true true tl (v_type v), expires l')]> (core st)).
    { rewrite <- Hc1, <- Hv', <- core_put. unfold st', set_active. by destruct (v_type v =? WAKE_LOCK_SUSPEND). }
    split_and!; [|split; unfold st', set_active; destruct (v_type v =? WAKE_LOCK_SUSPEND); done|done|
                  unfold st'; rewrite Hset, Hk by done; destruct tl; set_solver].
    eapply (to_active_inv st st' p v _ e _ Hinv Hc Hi Hcore eq_refl eq_refl tl); try done.
    - unfold st', set_active. by destruct (v_type v =? WAKE_LOCK_SUSPEND).
    - intros t Ht. unfold st'. case_bool_decide as E; [subst t; by rewrite Hset|].
      rewrite Hset' by done. by rewrite <- Ha1. }
  destruct ht; eexists; (split; [done|]).
  - apply Hgen; [|by rewrite Ha1]. simpl. by rewrite view_set_expire, Hl1.
  - apply Hgen; [|by rewrite Ha1]. simpl. by rewrite view_clear_expire, Hl1.
Qed.

(** The end of [wake_lock_internal] for a suspend lock. *)
Definition lock_suspend_end (st : pm) (p : Z) (ht : bool) (c : clock) : option pm :=
  st ← (if bool_decide (p = main_wake_lock) then update_sleep_wait_stats_locked st true c
        else main ← wake_lock_active st main_wake_lock;
             if negb main then update_sleep_wait_stats_locked st false c else Some st);
  let st := if bool_decide (p = main_wake_lock) then set_watchdog_timer st None else st in
  '(expire_in, st) ← (if ht then has_wake_lock_locked st WAKE_LOCK_SUSPEND c else Some (-1, st));
  Some (arm_expire_timer st expire_in c).

Lemma lock_stats_inv st p c :
  wl_inv st ->
  exists st', (if bool_decide (p = main_wake_lock) then update_sleep_wait_stats_locked st true c
               else main ← wake_lock_active st main_wake_lock;
                    if negb main then update_sleep_wait_stats_locked st false c else Some st) = Some st' /\
    stat_only st st'.
Proof.
  intros Hinv. case_bool_decide; [by apply update_sleep_inv|].
  destruct (inv_static _ Hinv main_wake_lock) as (v & e & Hc & _); [by left|].
  apply core_Some in Hc as (l & Hl & _). unfold wake_lock_active. rewrite Hl. simpl.
  case_match; [by apply update_sleep_inv|by exists st].
Qed.

Lemma lock_suspend_end_spec st p (ht : bool) c v e :
  wl_inv st -> p ∈ active_suspend st -> core st !! p = Some (v, e) -> v_expire v = ht ->
  exists st', lock_suspend_end st p ht c = Some st' /\ wl_inv st' /\ settled st' c /\
    current_event_num st' = current_event_num st /\
    (forall q, holds st c q -> core st' !! q = core st !! q).
Proof.
  intros Hinv Hp Hc Hv. unfold lock_suspend_end.
  destruct (lock_stats_inv st p c Hinv) as (st1 & -> & S1). simpl.
  set (st2 := if bool_decide _ then _ else st1).
  assert (L2 : same_lists st st2).
  { pose proof (stat_only_lists _ _ S1) as []. unfold st2. by case_match; split. }
  assert (Hev : current_event_num st2 = current_event_num st).
  { pose proof (so_event _ _ S1). unfold st2. by case_match. }
  pose proof (same_lists_inv _ _ L2 Hinv) as I2. destruct ht.
  - destruct (has_settles st2 c I2) as (r & st3 & -> & I3 & [R3 _ _] & Hset & Hh & _). simpl.
    eexists. split; [done|]. pose proof (arm_lists st3 r c) as L3. split_and!; [|done| |].
    + by eapply same_lists_inv.
    + etrans; [|etrans; [exact R3|exact Hev]]. unfold arm_expire_timer. by repeat case_match.
    + intros q Hq. rewrite (sl_core _ _ L3), Hh, (sl_core _ _ L2); [done|].
      unfold holds. by rewrite (sl_core _ _ L2).
  - simpl. eexists. split; [done|]. split_and!.
    + by apply (same_lists_inv st2).
    + apply settled_held; [|done]. exists p, v, e. change (p ∈ active_suspend st2 /\
        core st2 !! p = Some (v, e) /\ v_expire v = false).
      rewrite (sl_suspend _ _ L2), (sl_core _ _ L2). done.
    + done.
    + intros q _. change (core st2 !! q = core st !! q). by rewrite (sl_core _ _ L2).
Qed.

(** Taking a lock: it is active afterwards, unless its timeout has already
    passed; locks that have no timeout or time left keep their state. *)
Lemma wake_lock_internal_spec st p timeout (ht : bool) c v e :
  wl_inv st -> core st !! p = Some (v, e) -> v_init v = true ->
  let e' := if ht then u32 (jiffies c + timeout) else LONG_MAX in
  exists st', wake_lock_internal st p timeout ht c = Some st' /\ wl_inv st' /\
    (ht = false \/ 0 < s32 (e' - jiffies c) \/ v_type v = WAKE_LOCK_IDLE ->
     core st' !! p = Some (mk_view true true ht (v_type v), e')) /\
    (forall q, q <> p -> holds st c q -> core st' !! q = core st !! q) /\
    (v_type v = WAKE_LOCK_SUSPEND -> settled st' c /\
       current_event_num st' = s32 (current_event_num st + 1)).
Proof.
  intros Hinv Hc Hi e'. pose proof (init_type _ _ _ _ Hinv Hc Hi) as Hty.
  pose proof Hc as (l & Hl & Hvl & Hel)%core_Some.
  unfold wake_lock_internal. rewrite Hl. simpl. rewrite <- view_type, Hvl.
  replace (BUG_ON (v_type v >=? WAKE_LOCK_TYPE_COUNT)) with (Some tt) by (destruct Hty as [-> | ->]; done).
  replace (flag_set (flags l) WAKE_LOCK_INITIALIZED) with true by (by rewrite <- Hi, <- Hvl).
  simpl. destruct (wake_lock_stat_only st p (v_type v) c l Hl) as (st1 & -> & S1). simpl.
  pose proof (stat_only_inv _ _ S1 Hinv) as I1.
  destruct (activate_spec st1 p v e (v_type v) timeout ht c I1) as (st2 & -> & I2 & R2 & Hco & Hpa);
    [by rewrite (so_core _ _ S1)|done|done|].
  simpl. fold e' in Hco. rewrite (so_core _ _ S1) in Hco.
  assert (Hp2 : core st2 !! p = Some (mk_view true true ht (v_type v), e')) by (by rewrite Hco, lookup_insert_eq).
  assert (Hq2 : forall q, q <> p -> core st2 !! q = core st !! q)
    by (intros q Hq; by rewrite Hco, lookup_insert_ne).
  destruct (v_type v =? WAKE_LOCK_SUSPEND) eqn:Et.
  2:{ exists st2. split_and!; try done; [by intros; apply Hq2|]. intros E. by rewrite E in Et. }
  apply Z.eqb_eq in Et. rewrite Et in *.
  set (st3 := set_event_num st2 (s32 (current_event_num st2 + 1))).
  assert (I3 : wl_inv st3) by (by apply (same_lists_inv st2)).
  destruct (lock_suspend_end_spec st3 p ht c (mk_view true true ht WAKE_LOCK_SUSPEND) e' I3 Hpa Hp2 eq_refl)
    as (st' & Hend & I' & Hset & Hev & Hh).
  unfold lock_suspend_end in Hend. rewrite Hend. exists st'. split_and!; try done.
  - intros Hcase. rewrite Hh; [exact Hp2|]. eexists _, _. split; [exact Hp2|]. simpl.
    destruct Hcase as [?|[?|?]]; [right; by left|right; by right|done].
  - intros q Hqp Hq. rewrite Hh; [by apply Hq2|]. unfold holds. change (core st3) with (core st2).
    by rewrite Hq2.
  - intros _. split; [done|]. rewrite Hev. simpl.
    by rewrite (rk_event _ _ R2), (so_event _ _ S1).
Qed.

(** ** Creating and destroying locks *)

Lemma view_init t : lock_type t ->
  view_of ((t &ᵤ WAKE_LOCK_TYPE_MASK) |ᵤ WAKE_LOCK_INITIALIZED) = mk_view true false false t.
Proof. by intros [-> | ->]. Qed.

Definition unused (st : pm) (p : Z) : Prop := forall v e, core st !! p = Some (v, e) -> v_init v = false.

Lemma unused_unlisted st p : wl_inv st -> unused st p -> p ∉ all_listed st.
Proof.
  intros Hinv Hu. unfold all_listed. rewrite !elem_of_app. intros [Hp|[Hp|Hp]].
  - destruct (inv_inactive _ Hinv p Hp) as (t & e & Hc & _). by specialize (Hu _ _ Hc).
  - destruct (inv_active _ Hinv WAKE_LOCK_SUSPEND p (or_introl eq_refl) Hp) as (x & e & Hc).
    by specialize (Hu _ _ Hc).
  - destruct (inv_active _ Hinv WAKE_LOCK_IDLE p (or_intror eq_refl) Hp) as (x & e & Hc).
    by specialize (Hu _ _ Hc).
Qed.

Lemma static_used st p :
  wl_inv st -> p ∈ [main_wake_lock; deleted_wake_locks; unknown_wakeup; watchdog_wake_lock] ->
  ~ unused st p.
Proof.
  intros Hinv Hp Hu. destruct (inv_static _ Hinv p Hp) as (v & e & Hc & Hi & _).
  specialize (Hu _ _ Hc). congruence.
Qed.

(** An entry that is on no list is replaced. *)
Lemma insert_inv st st' p t e :
  wl_inv st -> unused st p -> lock_type t ->
  core st' = <[p := (mk_view true false false t, e)]> (core st) ->
  inactive_locks st' = p :: inactive_locks st -> active_suspend st' = active_suspend st ->
  active_idle st' = active_idle st -> wl_inv st'.
Proof.
  intros Hinv Hu Ht Hc HI HS HD. pose proof (unused_unlisted _ _ Hinv Hu) as Hl.
  assert (Haw : forall t, active_wake_locks st' t = active_wake_locks st t)
    by (intros; unfold active_wake_locks; by rewrite HS, HD).
  assert (Hal : all_listed st' = p :: all_listed st) by (unfold all_listed; by rewrite HI, HS, HD).
  assert (Hne : forall q, q ∈ all_listed st -> core st' !! q = core st !! q).
  { intros q Hq. rewrite Hc, lookup_insert_ne; [done|]. by intros ->. }
  split.
  - rewrite Hal. apply NoDup_cons. split; [done|]. apply Hinv.
  - intros q. rewrite HI. intros [-> |Hq]%elem_of_cons; [rewrite Hc, lookup_insert_eq; eauto|].
    rewrite Hne by (unfold all_listed; set_solver). by apply Hinv.
  - intros t' q Ht'. rewrite Haw. intros Hq. rewrite Hne by (by eapply inv_lists). by apply Hinv.
  - intros q v f. rewrite Hal, Hc, lookup_insert_Some. intros [[-> _]|[_ Hq]] Hv; [by left|right].
    by eapply inv_listed.
  - intros t' Ht'. rewrite Haw. pose proof (inv_lists st t') as Hli.
    destruct (inv_order _ Hinv t' Ht') as (l1 & l2 & E & H1 & H2). rewrite E in Hli |- *.
    exists l1, l2. split_and!; [done| |]; intros q Hq; (rewrite Hne; [by auto|]); apply Hli; set_solver.
  - intros q Hq. rewrite Hc, lookup_insert_ne; [by apply Hinv|]. intros ->. by eapply static_used.
Qed.

Lemma wake_lock_init_spec st p t n :
  wl_inv st -> unused st p -> lock_type t ->
  exists st', wake_lock_init st p t (Some n) = Some st' /\ wl_inv st' /\ rest_kept st st' /\
    p ∈ inactive_locks st' /\ (forall q, q <> p -> core st' !! q = core st !! q).
Proof.
  intros Hinv Hu Ht. unfold wake_lock_init. simpl.
  set (st1 := if bool_decide _ then _ else st).
  assert (Hst1 : locks st1 = locks st /\ same_lists st st1 /\ rest_kept st st1).
  { unfold st1. case_match; by repeat split. }
  destruct Hst1 as (HL & [C1 I1 S1 D1] & [K1 K2 K3]). eexists. split; [done|].
  match goal with |- wl_inv ?s /\ _ => set (st' := s) end.
  assert (Hc : exists e, core st' = <[p := (mk_view true false false t, e)]> (core st)).
  { eexists. rewrite <- C1. transitivity (core (put st1 p (mk_lock
      ((t &ᵤ WAKE_LOCK_TYPE_MASK) |ᵤ WAKE_LOCK_INITIALIZED) (Some n)
      (match locks st1 !! p with Some l => expires l | None => 0 end) (mk_stat 0 0 0 0 0 0 0)))); [done|].
    rewrite core_put. simpl. by rewrite view_init. }
  destruct Hc as [e Hc]. split_and!.
  - apply (insert_inv st st' p t e); simpl; by rewrite ?I1.
  - by split.
  - simpl. by left.
  - intros q Hq. by rewrite Hc, lookup_insert_ne.
Qed.

(** An entry leaves the lists for good. *)
Lemma delete_inv st st' p v e :
  wl_inv st -> p ∉ [main_wake_lock; deleted_wake_locks; unknown_wakeup; watchdog_wake_lock] ->
  v_init v = false -> core st' = <[p := (v, e)]> (core st) ->
  inactive_locks st' = list_del p (inactive_locks st) ->
  active_suspend st' = list_del p (active_suspend st) ->
  active_idle st' = list_del p (active_idle st) ->
  wl_inv st' /\ unused st' p /\ (p ∉ all_listed st').
Proof.
  intros Hinv Hns Hi Hc HI HS HD.
  assert (Hne : forall q, q <> p -> core st' !! q = core st !! q)
    by (intros; by rewrite Hc, lookup_insert_ne).
  assert (Haw : forall t, active_wake_locks st' t = list_del p (active_wake_locks st t))
    by (intros; unfold active_wake_locks; by case_match).
  assert (Hal : all_listed st' = list_del p (all_listed st))
    by (unfold all_listed; by rewrite !list_del_app, HI, HS, HD).
  split_and!; [split| |].
  - rewrite Hal. apply NoDup_filter, Hinv.
  - intros q. rewrite HI. intros [Hq Hqp]%elem_list_del. rewrite Hne by done. by apply Hinv.
  - intros t q Ht. rewrite Haw. intros [Hq Hqp]%elem_list_del. rewrite Hne by done. by apply Hinv.
  - intros q w f Hq Hw. rewrite Hal, elem_list_del. destruct (decide (q = p)) as [-> |Hqp].
    + rewrite Hc, lookup_insert_eq in Hq. simplify_eq. congruence.
    + split; [|done]. rewrite Hne in Hq by done. by eapply inv_listed.
  - intros t Ht. rewrite Haw. apply (ordered_keep st); [done|]. by apply Hinv.
  - intros q Hq. rewrite Hne by (by intros ->). by apply Hinv.
  - intros w f. rewrite Hc, lookup_insert_eq. by intros [= <- <-].
  - rewrite Hal, elem_list_del. tauto.
Qed.

Lemma add_deleted_stats_only st l :
  is_Some (core st !! deleted_wake_locks) ->
  exists st', add_deleted_stats st l = Some st' /\ stat_only st st'.
Proof.
  intros [[w f] Hd]. unfold add_deleted_stats. case_match; [|by eexists].
  apply core_Some in Hd as (d & Hd & _). rewrite Hd. simpl.
  eexists. split; [done|]. by apply (put_stat_only _ _ d).
Qed.

Lemma wake_lock_destroy_spec st p v e :
  wl_inv st -> core st !! p = Some (v, e) -> v_init v = true ->
  p ∉ [main_wake_lock; deleted_wake_locks; unknown_wakeup; watchdog_wake_lock] ->
  exists st', wake_lock_destroy st p = Some st' /\ wl_inv st' /\ rest_kept st st' /\ unused st' p /\
    (p ∉ all_listed st') /\ (forall q, q <> p -> core st' !! q = core st !! q).
Proof.
  intros Hinv Hc Hi Hns. pose proof (inv_listed _ Hinv _ _ _ Hc Hi) as Hl.
  pose proof Hc as (l & Hlk & Hv & He)%core_Some.
  unfold wake_lock_destroy. rewrite Hlk. cbn [mbind option_bind].
  set (l' := set_flags l (flags l &ᵤ Z.lnot WAKE_LOCK_INITIALIZED)).
  assert (Hc1 : core (put st p l') = <[p := (mk_view false (v_active v) (v_expire v) (v_type v), e)]> (core st)).
  { rewrite core_put. simpl. by rewrite view_clear_init, Hv, He. }
  assert (Hl' : locks (put st p l') !! p = Some l') by (simpl; by rewrite lookup_insert_eq).
  rewrite Hl'. cbn [mbind option_bind].
  destruct (add_deleted_stats_only (put st p l') l') as (st2 & -> & S2).
  { rewrite Hc1, lookup_insert_ne by set_solver.
    destruct (inv_static _ Hinv deleted_wake_locks) as (w & f & Hd & _); [set_solver|eauto]. }
  cbn [mbind option_bind].
  pose proof S2 as [C2 I2 Su2 D2 _ _ _]. simpl in I2, Su2, D2.
  destruct (unlink_Some st2 p) as (st3 & -> & L3 & I3 & S3 & D3 & R3).
  { unfold all_listed. by rewrite I2, Su2, D2. }
  assert (Hc3 : core st3 = <[p := (mk_view false (v_active v) (v_expire v) (v_type v), e)]> (core st)).
  { unfold core at 1. rewrite L3. fold (core st2). by rewrite C2. }
  rewrite I2 in I3. rewrite Su2 in S3. rewrite D2 in D3.
  destruct (delete_inv st st3 p (mk_view false (v_active v) (v_expire v) (v_type v)) e Hinv Hns eq_refl Hc3 I3 S3 D3) as (? & ? & ?).
  exists st3. split_and!; try done.
  - etrans; [|exact R3]. apply stat_only_rest in S2 as []. by split.
  - intros q Hq. by rewrite Hc3, lookup_insert_ne.
Qed.

(** ** Boot and reachable states *)

Definition booted (c : clock) : pm :=
  match wakelocks_init pm_boot c 0 0 true with Some (_, st) => st | None => pm_boot end.

Lemma booted_lists c :
  wakelocks_init pm_boot c 0 0 true = Some (0, booted c) /\
  active_suspend (booted c) = [main_wake_lock] /\ active_idle (booted c) = [] /\
  inactive_locks (booted c) = [watchdog_wake_lock; unknown_wakeup; deleted_wake_locks] /\
  core (booted c) =
    <[watchdog_wake_lock := (mk_view true false false 0, 0)]>
    (<[unknown_wakeup := (mk_view true false false 0, 0)]>
    (<[main_wake_lock := (mk_view true true false 0, LONG_MAX)]>
    {[deleted_wake_locks := (mk_view true false false 0, 0)]})).
Proof. split_and!; vm_compute; reflexivity. Qed.

Lemma boot_lists_inv st :
  active_suspend st = [main_wake_lock] -> active_idle st = [] ->
  inactive_locks st = [watchdog_wake_lock; unknown_wakeup; deleted_wake_locks] ->
  core st =
    <[watchdog_wake_lock := (mk_view true false false 0, 0)]>
    (<[unknown_wakeup := (mk_view true false false 0, 0)]>
    (<[main_wake_lock := (mk_view true true false 0, LONG_MAX)]>
    {[deleted_wake_locks := (mk_view true false false 0, 0)]})) -> wl_inv st.
Proof.
  intros HS HD HI HC. split.
  - unfold all_listed. rewrite HS, HD, HI. apply (bool_decide_unpack _). vm_compute. exact I.
  - rewrite HI, HC. intros p Hp. exists 0, 0. split; [|by left].
    repeat (apply elem_of_cons in Hp as [-> |Hp]; [reflexivity|]). by apply elem_of_nil in Hp.
  - intros t p [-> | ->]; unfold active_wake_locks; simpl; rewrite ?HS, ?HD, HC; intros Hp.
    + apply list_elem_of_singleton in Hp as ->. eexists _, _. reflexivity.
    + by apply elem_of_nil in Hp.
  - intros p v e. unfold all_listed. rewrite HS, HD, HI, HC. intros Hp _.
    repeat (apply lookup_insert_Some in Hp as [[<- _]|[_ Hp]]; [set_solver|]).
    apply lookup_singleton_Some in Hp as [<- _]. set_solver.
  - intros t [-> | ->]; unfold active_wake_locks; simpl; rewrite ?HS, ?HD.
    + exists [main_wake_lock], []. split_and!; [done| |by intros ? ?%elem_of_nil].
      intros p ->%list_elem_of_singleton. rewrite HC. eexists _, _. split; reflexivity.
    + exists [], []. split_and!; [done|..]; by intros ? ?%elem_of_nil.
  - rewrite HC. intros p Hp.
    repeat (apply elem_of_cons in Hp as [-> |Hp]; [eexists _, _; split_and!; reflexivity|]).
    by apply elem_of_nil in Hp.
Qed.

Lemma booted_inv c : wl_inv (booted c).
Proof. destruct (booted_lists c) as (_ & HS & HD & HI & HC). by apply boot_lists_inv. Qed.

Definition initialised (st : pm) (p : Z) : Prop :=
  exists v e, core st !! p = Some (v, e) /\ v_init v = true.

(** The events: calls of the exported functions on locks that their owners
    have initialised, the timers, and the power driver's late check. *)
Inductive wl_event :=
| EvInit (p t : Z) (name : list Z) | EvDestroy (p : Z)
| EvLock (p : Z) | EvLockTimeout (p timeout : Z) | EvUnlock (p : Z) | EvHas (t : Z)
| EvExpire | EvWatchdog | EvSuspendLate.

Definition wl_exec (st : pm) (c : clock) (ev : wl_event) : option pm :=
  match ev with
  | EvInit p t name => wake_lock_init st p t (Some name)
  | EvDestroy p => wake_lock_destroy st p
  | EvLock p => wake_lock st p c
  | EvLockTimeout p timeout => wake_lock_timeout st p timeout c
  | EvUnlock p => wake_unlock st p c
  | EvHas t => '(_, st) ← has_wake_lock st t c; Some st
  | EvExpire => expire_wake_locks st c
  | EvWatchdog => watchdog_func st c
  | EvSuspendLate => '(_, st) ← power_suspend_late st c; Some st
  end.

Definition wl_enabled (st : pm) (ev : wl_event) : Prop :=
  match ev with
  | EvInit p t _ => unused st p /\ lock_type t
  | EvDestroy p => initialised st p /\
      p ∉ [main_wake_lock; deleted_wake_locks; unknown_wakeup; watchdog_wake_lock]
  | EvLock p | EvLockTimeout p _ | EvUnlock p => initialised st p
  | EvHas t => lock_type t
  | _ => True
  end.

Inductive wl_reachable : pm -> Prop :=
| reach_boot c : wl_reachable (booted c)
| reach_event st c ev st' :
    wl_reachable st -> wl_enabled st ev -> wl_exec st c ev = Some st' -> wl_reachable st'.

Lemma has_total st t c : wl_inv st -> lock_type t ->
  exists r st', has_wake_lock_locked st t c = Some (r, st') /\ wl_inv st'.
Proof.
  intros Hinv Ht. destruct (has_wake_lock_cases st t c Hinv Ht) as [[_ ->]|[_ (st' & -> & [])]]; eauto.
Qed.

Lemma wl_exec_inv st c ev :
  wl_inv st -> wl_enabled st ev -> exists st', wl_exec st c ev = Some st' /\ wl_inv st'.
Proof.
  intros Hinv Hen. destruct ev as [p t n|p|p|p n|p|t| | |]; simpl in *.
  - destruct Hen as [Hu Ht]. destruct (wake_lock_init_spec st p t n Hinv Hu Ht) as (st' & ? & ? & _). eauto.
  - destruct Hen as [(v & e & Hc & Hi) Hs].
    destruct (wake_lock_destroy_spec st p v e Hinv Hc Hi Hs) as (st' & ? & ? & _). eauto.
  - destruct Hen as (v & e & Hc & Hi).
    destruct (wake_lock_internal_spec st p 0 false c v e Hinv Hc Hi) as (st' & ? & ? & _). eauto.
  - destruct Hen as (v & e & Hc & Hi).
    destruct (wake_lock_internal_spec st p n true c v e Hinv Hc Hi) as (st' & ? & ? & _). eauto.
  - destruct Hen as (v & e & Hc & Hi).
    destruct (wake_unlock_spec st p c v e Hinv Hc Hi) as (st' & ? & ? & _). eauto.
  - unfold has_wake_lock. destruct (has_total st t c Hinv Hen) as (r & st' & -> & ?). simpl. eauto.
  - unfold expire_wake_locks.
    destruct (has_total (set_expire_timer st None) WAKE_LOCK_SUSPEND c) as (r & st' & -> & Hi); [|by left|].
    { by apply (same_lists_inv st). }
    simpl. eexists. split; [done|]. apply (same_lists_inv st'); [|done]. by case_match.
  - destruct (inv_static _ Hinv watchdog_wake_lock) as (v & e & Hc & Hi & _); [set_solver|].
    destruct (wake_lock_internal_spec (set_watchdog_timer st None) watchdog_wake_lock (HZ * 10) true c v e)
      as (st' & ? & ? & _); [by apply (same_lists_inv st)|done|done|]. eauto.
  - unfold power_suspend_late, has_wake_lock.
    destruct (has_total st WAKE_LOCK_SUSPEND c Hinv) as (r & st' & -> & ?); [by left|]. simpl.
    eexists. split; [done|]. by apply (same_lists_inv st').
Qed.

Lemma wl_reachable_inv st : wl_reachable st -> wl_inv st.
Proof.
  induction 1 as [|st c ev st' _ IH Hen Hex]; [apply booted_inv|].
  destruct (wl_exec_inv st c ev IH Hen) as (? & ? & ?). by simplify_eq.
Qed.

(** * Properties *)

Definition clock0 : clock := {| jiffies := 1000; ktime_get := 10000; coarse_time := 9000; TICK_NSEC := 10 |}.

(** C7. From boot on, whatever sequence of calls and timer events happens,
    every initialised lock is on exactly one list, the one its flags say, with
    the locks without a timeout first; and every call on an initialised lock
    returns: no BUG_ON fires and no lock that is on no list is unlinked. *)
Theorem wakelock_reachable_safe st :
  wl_reachable st ->
  wl_inv st /\ forall c ev, wl_enabled st ev -> exists st', wl_exec st c ev = Some st'.
Proof.
  intros Hr. pose proof (wl_reachable_inv _ Hr) as Hinv. split; [done|].
  intros c ev Hen. destruct (wl_exec_inv st c ev Hinv Hen) as (st' & ? & _). eauto.
Qed.

Lemma wakelock_reachable_safe_witness :
  wl_inv (booted clock0) /\
  forall c ev, wl_enabled (booted clock0) ev -> exists st', wl_exec (booted clock0) c ev = Some st'.
Proof. apply wakelock_reachable_safe. apply reach_boot. Defined.

Lemma booted_main c : core (booted c) !! main_wake_lock = Some (mk_view true true false 0, LONG_MAX).
Proof. destruct (booted_lists c) as (_ & _ & _ & _ & ->). reflexivity. Qed.

(** [has_wake_lock] answers -1 exactly when a lock without a timeout is
    active, 0 exactly when every active lock has run out of time, and else the
    time left of the lock that lasts longest.  Locks whose time has run out
    become inactive, the others are left alone. *)
Lemma has_wake_lock_correct st t c :
  wl_inv st -> lock_type t ->
  exists r st', has_wake_lock st t c = Some (r, st') /\ wl_inv st' /\
    (r = -1 <-> unlimited st t) /\
    (r = 0 <-> ~ unlimited st t /\ forall p, p ∈ active_wake_locks st t -> left_of st c p <= 0) /\
    (0 < r -> (forall p, p ∈ active_wake_locks st t -> left_of st c p <= r) /\
              exists p, p ∈ active_wake_locks st t /\ left_of st c p = r) /\
    (~ unlimited st t -> active_wake_locks st' t = filter (live st c) (active_wake_locks st t)) /\
    (forall q, (q ∉ active_wake_locks st t \/ live st c q) -> core st' !! q = core st !! q).
Proof.
  intros Hinv Ht. unfold has_wake_lock.
  destruct (has_wake_lock_cases st t c Hinv Ht) as [[Hu ->]|[Hnu (st' & -> & HE)]].
  { exists (-1), st. split_and!; try done. split; [done|]. tauto. }
  set (ps := active_wake_locks st t) in *. set (m := max_left st c (filter (live st c) ps) 0).
  assert (Hge : 0 <= m) by apply max_left_ge.
  assert (Hup : forall p, p ∈ ps -> left_of st c p <= m).
  { intros p Hp. destruct (decide (live st c p)) as [Hl|Hl]; [|unfold live in Hl; lia].
    apply max_left_upper. by apply list_elem_of_filter. }
  exists m, st'. destruct HE as [E1 E2 E3 E4 E5 E6 E7]. split_and!; try done.
  - split; [lia|done].
  - split; [intros Hm; split; [done|]; by rewrite <- Hm|]. intros [_ Hall].
    destruct (max_left_reached st c (filter (live st c) ps) 0) as [?|(p & Hp & Hm)]; [done|].
    apply list_elem_of_filter in Hp as [_ Hp]. specialize (Hall _ Hp). fold m in Hm. lia.
  - intros Hm. split; [done|].
    destruct (max_left_reached st c (filter (live st c) ps) 0) as [H0|(p & Hp & Hr)]; [fold m in H0; lia|].
    apply list_elem_of_filter in Hp as [_ Hp]. eauto.
Qed.

(** Taking a lock, with or without a timeout, returns; the lock is active
    afterwards with the expiry time asked for; other locks that have no
    timeout or time left keep their state.  A suspend lock counts as an event,
    and afterwards the locks, the expiry timer and the suspend work agree. *)
Lemma wake_lock_effect st p c v e timeout (ht : bool) :
  wl_inv st -> core st !! p = Some (v, e) -> v_init v = true -> 0 < timeout < 2147483648 ->
  exists st', (if ht then wake_lock_timeout st p timeout c else wake_lock st p c) = Some st' /\
    wl_inv st' /\ wake_lock_active st' p = Some true /\
    core st' !! p = Some (mk_view true true ht (v_type v),
                          if ht then u32 (jiffies c + timeout) else LONG_MAX) /\
    (forall q, q <> p -> holds st c q -> core st' !! q = core st !! q) /\
    (v_type v = WAKE_LOCK_SUSPEND -> settled st' c /\
       current_event_num st' = s32 (current_event_num st + 1)).
Proof.
  intros Hinv Hc Hi Hto.
  assert (Heq : (if ht then wake_lock_timeout st p timeout c else wake_lock st p c) =
                wake_lock_internal st p (if ht then timeout else 0) ht c) by (by destruct ht).
  destruct (wake_lock_internal_spec st p (if ht then timeout else 0) ht c v e Hinv Hc Hi)
    as (st' & Hw & Hinv' & Hp & Hq & Hs).
  assert (Hp' : core st' !! p = Some (mk_view true true ht (v_type v),
                  if ht then u32 (jiffies c + timeout) else LONG_MAX)).
  { destruct ht; apply Hp; [|by left]. right. left. rewrite s32_u32_sub.
    replace (jiffies c + timeout - jiffies c) with timeout by lia. rewrite s32_small; lia. }
  exists st'. rewrite Heq. split_and!; try done.
  unfold wake_lock_active. pose proof Hp' as (l & -> & Hv & _)%core_Some. simpl. by rewrite <- view_active, Hv.
Qed.

(** Releasing a lock returns; the lock is inactive afterwards, and other
    locks that have no timeout or time left keep their state.  For a suspend
    lock: either a lock without a timeout is still active and the timer is
    off, or no lock is active and the suspend work is queued, or the timer is
    set for the moment the last lock expires. *)
Lemma wake_unlock_effect st p c v e :
  wl_inv st -> core st !! p = Some (v, e) -> v_init v = true ->
  exists st', wake_unlock st p c = Some st' /\ wl_inv st' /\ wake_lock_active st' p = Some false /\
    (forall q, q <> p -> holds st c q -> core st' !! q = core st !! q) /\
    (v_type v = WAKE_LOCK_SUSPEND -> settled st' c).
Proof.
  intros Hinv Hc Hi. destruct (wake_unlock_spec st p c v e Hinv Hc Hi) as (st' & ? & ? & Hp & ? & ?).
  exists st'. split_and!; try done. unfold wake_lock_active.
  pose proof Hp as (l & -> & Hv & _)%core_Some. simpl. by rewrite <- view_active, Hv.
Qed.

(** On every initialised lock: taking it, with or without a timeout,
    returns, makes it active with the expiry time asked for and counts a
    suspend event; releasing it returns and makes it inactive; both leave the
    other locks that have no timeout or time left as they are, and the locks,
    the expiry timer and the suspend work in agreement: a lock without a timeout
    is active and the timer is off, or no lock is active and the suspend work is
    queued, or the timer is set for the moment the last lock expires. *)
Lemma wake_lock_unlock_correct st p c v e :
  wl_inv st -> core st !! p = Some (v, e) -> v_init v = true ->
  (forall timeout (ht : bool), 0 < timeout < 2147483648 ->
   exists st', (if ht then wake_lock_timeout st p timeout c else wake_lock st p c) = Some st' /\
     wl_inv st' /\ wake_lock_active st' p = Some true /\
     core st' !! p = Some (mk_view true true ht (v_type v),
                           if ht then u32 (jiffies c + timeout) else LONG_MAX) /\
     (forall q, q <> p -> holds st c q -> core st' !! q = core st !! q) /\
     (v_type v = WAKE_LOCK_SUSPEND -> settled st' c /\
        current_event_num st' = s32 (current_event_num st + 1))) /\
  (exists st', wake_unlock st p c = Some st' /\ wl_inv st' /\ wake_lock_active st' p = Some false /\
     (forall q, q <> p -> holds st c q -> core st' !! q = core st !! q) /\
     (v_type v = WAKE_LOCK_SUSPEND -> settled st' c)).
Proof.
  intros Hinv Hc Hi. split; [intros timeout ht; by apply (wake_lock_effect st p c v e)|by apply (wake_unlock_effect st p c v e)].
Qed.

(** Once an operation has left the timer set ([settled]), its handler,
    run when that time has come (by the signed comparison timers use) and
    before anything else happens, finds every timed lock expired, moves it to
    the inactive list and queues the suspend work. *)
Lemma expire_timer_queues_suspend st c c' d T :
  wl_inv st -> settled st c -> expire_timer st = Some T ->
  jiffies c' = u32 (jiffies c + d) -> 0 <= d < 2147483648 -> s32 (T - jiffies c') <= 0 ->
  exists st', expire_wake_locks st c' = Some st' /\ wl_inv st' /\
    active_suspend st' = [] /\ suspend_work st' = true /\ expire_timer st' = None.
Proof.
  intros Hinv Hset HT Hj Hd Hdue.
  destruct Hset as [? ?|? ? ?|m Hnu Htm Hle (p0 & Hp0 & Hm)]; [congruence..|].
  assert (Hmr : 0 < m < 2147483648).
  { specialize (Hle p0 Hp0). unfold left_of in Hm. case_match; [|lia]. case_match.
    match type of Hm with s32 ?x = _ => pose proof (s32_range x) end. lia. }
  rewrite HT in Htm. injection Htm as ->. rewrite Hj, s32_sub_u32, s32_u32_sub in Hdue.
  replace (jiffies c + m - (jiffies c + d)) with (m - d) in Hdue by lia. rewrite s32_small in Hdue by lia.
  unfold expire_wake_locks. set (st0 := set_expire_timer st None).
  assert (I0 : wl_inv st0) by (by apply (same_lists_inv st)).
  assert (Hdead : filter (live st0 c') (active_wake_locks st0 WAKE_LOCK_SUSPEND) = []).
  { apply list_filter_none. intros p Hp Hl. specialize (Hle p Hp). unfold live, left_of in *.
    change (core st0) with (core st) in Hl. destruct (core st !! p) as [[v e]|]; [|lia].
    rewrite Hj, s32_sub_u32 in Hl. replace (e - (jiffies c + d)) with (e - jiffies c - d) in Hl by lia.
    rewrite s32_sub_small in Hl; lia. }
  destruct (has_wake_lock_cases st0 WAKE_LOCK_SUSPEND c' I0 (or_introl eq_refl))
    as [[Hu _]|[_ (st1 & -> & HE)]]; [by destruct Hnu|].
  destruct HE as [E1 [K1 K2 K3] E3 _ _ _ _]. rewrite Hdead in *. simpl.
  eexists. split; [done|]. split_and!; try done. by apply (same_lists_inv st1).
Qed.

(** The state after boot and [wake_lock_timeout (unknown_wakeup, 50)],
    [wake_unlock (main)]. *)
Definition timed : pm :=
  match wake_lock_timeout (booted clock0) unknown_wakeup 50 clock0 with
  | Some st => match wake_unlock st main_wake_lock clock0 with Some st => st | None => pm_boot end
  | None => pm_boot
  end.
Definition clock1 : clock := {| jiffies := 1050; ktime_get := 10700; coarse_time := 9500; TICK_NSEC := 10 |}.

Lemma timed_settled : wl_inv timed /\ settled timed clock0.
Proof.
  unfold timed.
  destruct (wake_lock_internal_spec (booted clock0) unknown_wakeup 50 true clock0 (mk_view true false false 0) 0)
    as (st1 & H1 & I1 & _ & Hq & _); [apply booted_inv| |done|].
  { destruct (booted_lists clock0) as (_ & _ & _ & _ & ->). reflexivity. }
  unfold wake_lock_timeout. rewrite H1.
  destruct (wake_unlock_spec st1 main_wake_lock clock0 (mk_view true true false 0) LONG_MAX)
    as (st2 & H2 & I2 & _ & _ & Hs); [done| |done|rewrite H2; split; [done|by apply Hs]].
  rewrite Hq; [apply booted_main|done|]. eexists _, _. split; [apply booted_main|]. right. by left.
Qed.

Lemma no_lock_zero st c :
  wl_inv st ->
  exists r st1, has_wake_lock_locked st WAKE_LOCK_SUSPEND c = Some (r, st1) /\ wl_inv st1 /\
    rest_kept st st1 /\
    (r = 0 <-> ~ unlimited st WAKE_LOCK_SUSPEND /\ forall p, p ∈ active_suspend st -> left_of st c p <= 0).
Proof.
  intros Hinv.
  destruct (has_wake_lock_cases st WAKE_LOCK_SUSPEND c Hinv (or_introl eq_refl)) as [[Hu ->]|[Hnu (st1 & -> & HE)]].
  { exists (-1), st. split_and!; try done. split; [done|]. tauto. }
  destruct (expired_settled st st1 c Hnu HE) as (_ & _ & Hz). eexists _, st1.
  destruct HE as [E1 E2 E3 _ _ _ _]. split_and!; try done. rewrite Hz.
  change (active_suspend st1 = filter (live st c) (active_suspend st)) in E3. rewrite E3. split.
  - intros Hf. split; [done|]. intros p Hp. destruct (decide (live st c p)) as [Hl|Hl]; [|unfold live in Hl; lia].
    assert (Hin : p ∈ filter (live st c) (active_suspend st)) by (by apply list_elem_of_filter).
    rewrite Hf in Hin. by apply elem_of_nil in Hin.
  - intros [_ Hall]. apply list_filter_none. intros p Hp Hl. specialize (Hall p Hp). unfold live in Hl. lia.
Qed.

(** The suspend work suspends the system exactly when every suspend lock
    is inactive or has run out of time, and the last check before the system
    goes down answers -EAGAIN otherwise.  If the suspended time brings no
    event, [unknown_wakeup] is held afterwards. *)
Lemma suspend_only_unlocked st c pm_suspend :
  wl_inv st -> (forall s, wl_inv s -> wl_inv (pm_suspend s).1) ->
  let free := ~ unlimited st WAKE_LOCK_SUSPEND /\ forall p, p ∈ active_suspend st -> left_of st c p <= 0 in
  (exists r st', power_suspend_late st c = Some (r, st') /\ wl_inv st' /\ (r = 0 <-> free) /\
     (r = 0 \/ r = - EAGAIN)) /\
  exists slept st', suspend st c pm_suspend = Some (slept, st') /\ wl_inv st' /\ (slept = true <-> free) /\
    ((forall s, current_event_num (pm_suspend s).1 = current_event_num s) -> slept = true ->
     wake_lock_active st' unknown_wakeup = Some true).
Proof.
  intros Hinv Hpm free. split.
  - destruct (no_lock_zero st c Hinv) as (r & st1 & Hh & I1 & _ & Hr).
    unfold power_suspend_late, has_wake_lock. rewrite Hh. simpl. eexists _, _. split; [done|]. split_and!.
    + by apply (same_lists_inv st1).
    + unfold free. rewrite <- Hr. destruct (r =? 0) eqn:E; simpl; [apply Z.eqb_eq in E|apply Z.eqb_neq in E]; done.
    + destruct (r =? 0); [by left|by right].
  - unfold suspend, has_wake_lock. set (st0 := set_suspend_work st false).
    destruct (no_lock_zero st0 c) as (r & st1 & -> & I1 & _ & Hr); [by apply (same_lists_inv st)|].
    change (r = 0 <-> free) in Hr. simpl.
    destruct (r =? 0) eqn:E; simpl; [apply Z.eqb_eq in E|apply Z.eqb_neq in E].
    2:{ exists false, st1. split_and!; try done. split; [done|]. intros ?%Hr. done. }
    set (st2 := set_watchdog_timer _ None).
    assert (I2 : wl_inv (pm_suspend st2).1) by (apply Hpm; by apply (same_lists_inv st1)).
    destruct (pm_suspend st2) as [st3 c'] eqn:E3. simpl in I2.
    set (st4 := set_suspend_watchdog_timer _ None).
    assert (I4 : wl_inv st4) by (by apply (same_lists_inv st3)).
    assert (Hfr : true = true <-> free) by tauto.
    destruct (_ =? current_event_num st1) eqn:Ee.
    + destruct (inv_static _ I4 unknown_wakeup) as (v & e & Hc & Hi & Ht); [set_solver|].
      destruct (wake_lock_internal_spec st4 unknown_wakeup 50 true c' v e I4 Hc Hi)
        as (st5 & H5 & I5 & Hp5 & _).
      unfold wake_lock_timeout. change (HZ / 2) with 50. rewrite H5. simpl.
      exists true, st5. split_and!; try done. intros _ _. unfold wake_lock_active.
      assert (Hc5 := Hp5 ltac:(right; left; rewrite s32_u32_sub;
        replace (jiffies c' + 50 - jiffies c') with 50 by lia; done)).
      apply core_Some in Hc5 as (l & -> & Hv & _). simpl. by rewrite <- view_active, Hv.
    + exists true, st4. split_and!; try done. intros Hno _. exfalso. apply Z.eqb_neq in Ee.
      specialize (Hno st2). rewrite E3 in Hno. simpl in Hno. by apply Ee.
Qed.

(** ** Accounting *)

(** Number of times held, total and longest time, last change. *)
Definition acct (st : pm) (p : Z) : option (Z * Z * Z * Z) :=
  (fun l => (count (stat l), total_time (stat l), max_time (stat l), last_time (stat l))) <$> locks st !! p.

Lemma acct_put st p q l l0 :
  locks st !! p = Some l0 ->
  count (stat l) = count (stat l0) -> total_time (stat l) = total_time (stat l0) ->
  max_time (stat l) = max_time (stat l0) -> last_time (stat l) = last_time (stat l0) ->
  acct (put st p l) q = acct st q.
Proof.
  intros Hp ? ? ? ?. unfold acct. simpl. destruct (decide (p = q)) as [<- |].
  - rewrite lookup_insert_eq, Hp. simpl. congruence.
  - by rewrite lookup_insert_ne.
Qed.

Lemma acct_put_ne st p q l : p <> q -> acct (put st p l) q = acct st q.
Proof. intros. unfold acct. simpl. by rewrite lookup_insert_ne. Qed.

Lemma acct_sleep b c q ps : forall st st', sleep_wait_loop st b c ps = Some st' -> acct st' q = acct st q.
Proof.
  induction ps as [|p ps IH]; intros st st' H; simpl in H; [by simplify_eq|].
  destruct (locks st !! p) as [l|] eqn:Hp; [|done]. simpl in H. rewrite (IH _ _ H).
  apply (acct_put st p q _ l); [done|..]; unfold sleep_wait_lock; simpl; by case_match.
Qed.

Lemma acct_update st st' b c q : update_sleep_wait_stats_locked st b c = Some st' -> acct st' q = acct st q.
Proof.
  unfold update_sleep_wait_stats_locked. intros H. apply bind_Some in H as (st1 & H1 & [= <-]).
  by rewrite <- (acct_sleep _ _ q _ _ _ H1).
Qed.

Lemma acct_locks st st' q : locks st' = locks st -> acct st' q = acct st q.
Proof. intros H. unfold acct. by rewrite H. Qed.

Lemma unlink_locks st st' p : unlink st p = Some st' -> locks st' = locks st.
Proof. unfold unlink. intros. case_bool_decide; by simplify_eq/=. Qed.

Lemma unlink_not_active st st' p t : unlink st p = Some st' -> p ∉ active_wake_locks st' t.
Proof.
  unfold unlink. intros. case_bool_decide; [|done]. simplify_eq. unfold active_wake_locks.
  case_match; simpl; intros [_ ?]%elem_list_del; done.
Qed.

Lemma set_active_locks st t l : locks (set_active st t l) = locks st.
Proof. unfold set_active. by case_match. Qed.

Lemma acct_unlock_stat st st' p q b c :
  p <> q -> wake_unlock_stat_locked st p b c = Some st' -> acct st' q = acct st q.
Proof.
  intros Hne H. unfold wake_unlock_stat_locked in H. destruct (locks st !! p); [|done]. simpl in H.
  case_match; simplify_eq; [done|]. by apply acct_put_ne.
Qed.

Lemma acct_expire st st' p q c : p <> q -> expire_wake_lock st p c = Some st' -> acct st' q = acct st q.
Proof.
  intros Hne H. unfold expire_wake_lock in H. apply bind_Some in H as (st1 & H1 & H).
  apply bind_Some in H as (l & Hl & H). apply bind_Some in H as (st2 & H2 & [= <-]).
  rewrite <- (acct_unlock_stat _ _ _ q _ _ Hne H1), <- (acct_put_ne st1 p q (set_flags l (clear_active (flags l))) Hne).
  apply acct_locks. simpl. exact (unlink_locks _ _ _ H2).
Qed.

Lemma acct_has c q ps : forall st m r st',
  q ∉ ps -> has_wake_lock_loop st c ps m = Some (r, st') -> acct st' q = acct st q.
Proof.
  induction ps as [|p ps IH]; intros st m r st' Hq H; simpl in H; [by simplify_eq|].
  apply not_elem_of_cons in Hq as [Hqp Hq]. destruct (locks st !! p); [|done]. simpl in H.
  case_match; [|by simplify_eq]. case_match; [|by eapply IH].
  apply bind_Some in H as (st1 & Hexp & H). rewrite (IH _ _ _ _ Hq H). by eapply acct_expire.
Qed.

Lemma inactive_no_expire st p v e :
  wl_inv st -> core st !! p = Some (v, e) -> v_init v = true -> v_active v = false -> v_expire v = false.
Proof.
  intros Hinv Hc Hi Hna. pose proof (inv_listed _ Hinv _ _ _ Hc Hi) as Hin. unfold all_listed in Hin.
  rewrite !elem_of_app in Hin. destruct Hin as [Hin|[Hin|Hin]].
  - destruct (inv_inactive _ Hinv p Hin) as (? & ? & Hc' & _). by simplify_eq.
  - destruct (inv_active _ Hinv WAKE_LOCK_SUSPEND p (or_introl eq_refl) Hin) as (? & ? & Hc'). by simplify_eq.
  - destruct (inv_active _ Hinv WAKE_LOCK_IDLE p (or_intror eq_refl) Hin) as (? & ? & Hc'). by simplify_eq.
Qed.

(** The lock's account after taking it, inactive before, without a timeout. *)
Lemma acct_lock st p c v e n t m x st' :
  wl_inv st -> core st !! p = Some (v, e) -> v_init v = true -> v_active v = false ->
  acct st p = Some (n, t, m, x) -> wake_lock st p c = Some st' -> acct st' p = Some (n, t, m, ktime_get c).
Proof.
  intros Hinv Hc Hi Hna Hac H. pose proof Hc as (l & Hl & Hv & _)%core_Some.
  unfold wake_lock, wake_lock_internal in H. rewrite Hl in H. simpl in H.
  apply bind_Some in H as (_ & _ & H). apply bind_Some in H as (_ & _ & H).
  apply bind_Some in H as (st1 & H1 & H). apply bind_Some in H as (st2 & H2 & H).
  pose proof (inactive_no_expire st p v e Hinv Hc Hi Hna) as Hx.
  assert (Hs1 : acct st1 p = acct st p /\ core st1 = core st).
  { destruct (wake_lock_stat_only st p (flags l &ᵤ WAKE_LOCK_TYPE_MASK) c l Hl) as (st1' & H1' & S1).
    rewrite H1 in H1'. injection H1' as <-. split; [|apply S1].
    unfold wake_lock_stat in H1. rewrite Hl in H1. simpl in H1.
    assert (Hf : flag_set (flags l) WAKE_LOCK_AUTO_EXPIRE = false) by (by rewrite <- Hx, <- Hv).
    destruct (_ && wait_for_wakeup st); simpl in H1.
    - rewrite lookup_insert_eq in H1. simpl in H1. rewrite Hf in H1. simpl in H1. simplify_eq.
      by apply (acct_put (set_wait st false) p p _ l).
    - rewrite Hl in H1. simpl in H1. rewrite Hf in H1. by simplify_eq/=. }
  destruct Hs1 as [Ha1 Hc1]. rewrite <- Hc1 in Hc. apply core_Some in Hc as (l1 & Hl1 & Hv1 & _).
  assert (Ha2 : acct st2 p = Some (n, t, m, ktime_get c)).
  { unfold wake_lock_activate in H2. rewrite Hl1 in H2. simpl in H2.
    rewrite <- view_active, Hv1, Hna in H2. simpl in H2. apply bind_Some in H2 as (st3 & H3 & [= <-]).
    rewrite <- Ha1 in Hac. unfold acct in *. rewrite Hl1 in Hac. simplify_eq/=.
    rewrite set_active_locks. simpl. by rewrite lookup_insert_eq. }
  case_match; [|by simplify_eq].
  apply bind_Some in H as (st3 & H3 & H). injection H as <-.
  rewrite (acct_locks (set_watchdog_timer st3 None) _ p) by (by case_bool_decide).
  rewrite (acct_locks st3) by done.
  case_bool_decide; [by rewrite (acct_update _ _ _ _ p H3)|].
  apply bind_Some in H3 as (mn & _ & H3). destruct mn; simpl in H3; [by simplify_eq|].
  by rewrite (acct_update _ _ _ _ p H3).
Qed.

Lemma acct_unlock st p c v e n t m x st' :
  wl_inv st -> core st !! p = Some (v, e) -> v_init v = true -> v_active v = true -> v_expire v = false ->
  acct st p = Some (n, t, m, x) -> wake_unlock st p c = Some st' ->
  acct st' p = Some (s32 (n + 1), t + (ktime_get c - x), Z.max m (ktime_get c - x), ktime_get c).
Proof.
  intros Hinv Hc Hi Hact Hx Hac H. pose proof Hc as (l & Hl & Hv & _)%core_Some.
  unfold wake_unlock in H. rewrite Hl in H. simpl in H.
  apply bind_Some in H as (st1 & H1 & H). apply bind_Some in H as (l1 & Hl1 & H).
  apply bind_Some in H as (st2 & H2 & H).
  assert (Ha1 : acct st1 p = Some (s32 (n + 1), t + (ktime_get c - x), Z.max m (ktime_get c - x), ktime_get c)).
  { unfold wake_unlock_stat_locked in H1. rewrite Hl in H1. simpl in H1.
    assert (Hf : flag_set (flags l) WAKE_LOCK_AUTO_EXPIRE = false) by (by rewrite <- Hx, <- Hv).
    rewrite <- view_active, Hv, Hact in H1. unfold get_expired_time in H1. rewrite Hf in H1. simpl in H1.
    simplify_eq. unfold acct in *. simpl. rewrite lookup_insert_eq. rewrite Hl in Hac. simplify_eq/=.
    f_equal. f_equal. f_equal. destruct (_ >? _) eqn:Eg; lia. }
  assert (Hl2 : acct st2 p = acct st1 p).
  { rewrite <- (acct_put st1 p p (set_flags l1 (clear_active (flags l1))) l1) by done.
    apply acct_locks, (unlink_locks _ _ _ H2). }
  rewrite <- Hl2 in Ha1. rewrite <- Ha1. clear Ha1 Hl2.
  case_match; [|by simplify_eq]. apply bind_Some in H as ((r & st3) & H3 & H).
  assert (Ha3 : acct st3 p = acct st2 p).
  { unfold has_wake_lock_locked in H3. apply bind_Some in H3 as (_ & _ & H3).
    refine (acct_has c p _ _ _ _ _ _ H3).
    exact (unlink_not_active _ _ _ _ H2). }
  rewrite <- Ha3. assert (Ha4 : acct (arm_expire_timer st3 r c) p = acct st3 p).
  { apply acct_locks. unfold arm_expire_timer. by repeat case_match. }
  rewrite <- Ha4. case_bool_decide; [|by simplify_eq].
  apply bind_Some in H as (st4 & Hup & [= <-]). rewrite <- (acct_update _ _ _ _ p Hup).
  apply acct_locks. by case_match.
Qed.

(** A lock that was inactive, taken without a timeout at time t1 and
    released at time t2: its hold count grows by one, its total time by
    t2 - t1, and its longest time is at least that. *)
Lemma wake_lock_accounting st p c1 c2 v e n t m x :
  wl_inv st -> core st !! p = Some (v, e) -> v_init v = true -> v_active v = false ->
  acct st p = Some (n, t, m, x) ->
  exists st1 st2, wake_lock st p c1 = Some st1 /\ wake_unlock st1 p c2 = Some st2 /\
    acct st2 p = Some (s32 (n + 1), t + (ktime_get c2 - ktime_get c1),
                       Z.max m (ktime_get c2 - ktime_get c1), ktime_get c2).
Proof.
  intros Hinv Hc Hi Hna Hac.
  destruct (wake_lock_internal_spec st p 0 false c1 v e Hinv Hc Hi) as (st1 & H1 & I1 & Hp & _).
  specialize (Hp ltac:(by left)).
  destruct (wake_unlock_spec st1 p c2 _ _ I1 Hp eq_refl) as (st2 & H2 & _).
  exists st1, st2. split_and!; [done..|].
  eapply (acct_unlock st1 p c2 _ _ n t m (ktime_get c1) st2 I1 Hp); try done.
  by apply (acct_lock st p c1 v e n t m x st1).
Qed.

End Wakelock.
