(* ===== verification/EarlySuspend.v ===== *)
(** Early suspend (kernel/power/earlysuspend.c): user space asks for sleep or
    wake-up; a worker thread then calls the drivers' suspend or resume
    handlers and releases the main wake lock, or keeps it held.

    The requests come from any context under a spinlock while the worker is
    between two of its critical sections, so [Module EarlySuspend] splits the
    work functions at these points and runs requests, registrations and the
    worker as interleaved steps.  The wake locks are used through the class
    [MainLock]; [Wakelock] is an instance.  Not modelled: the watchdog timer
    around each handler (it only prints), the scheduling priority of the
    worker and the messages. *)

From S2P Require Import Prelude Wakelock.
From Stdlib Require Import Sorted.
Local Open Scope Z_scope.
Local Open Scope kernel_scope.

(** What early suspend expects of the main wake lock. *)
Class MainLock (C W : Type) := {
  ml_ok : W -> Prop;
  ml_held : W -> bool;
  ml_lock : C -> W -> option W;
  ml_unlock : C -> W -> option W;
  ml_lock_held : forall c w, ml_ok w -> exists w', ml_lock c w = Some w' /\ ml_ok w' /\ ml_held w' = true;
  ml_unlock_free : forall c w, ml_ok w -> exists w', ml_unlock c w = Some w' /\ ml_ok w' /\ ml_held w' = false
}.

Module EarlySuspend.

Definition SUSPEND_REQUESTED : Z := 0x1.
Definition SUSPENDED : Z := 0x2.
Definition SUSPEND_REQUESTED_AND_SUSPENDED : Z := SUSPEND_REQUESTED |ᵤ SUSPENDED.
Definition PM_SUSPEND_ON : Z := 0.

(** struct early_suspend; [h_suspend] and [h_resume] tell whether the
    callbacks are set. *)
Record handler := mk_handler { h_addr : Z; h_level : Z; h_suspend : bool; h_resume : bool }.

#[export] Instance handler_eq_dec : EqDecision handler.
Proof. solve_decision. Defined.

Inductive work := EarlyWork | LateWork.

#[export] Instance work_eq_dec : EqDecision work.
Proof. solve_decision. Defined.

(** Where the worker is: waiting for work; calling suspend handlers (those
    called and those still to call); about to take the decision at the label
    [abort]; calling resume handlers. *)
Inductive worker :=
| Idle
| CallingSuspend (called todo : list handler)
| Deciding
| CallingResume (called todo : list handler).

Inductive call := Suspend (h : Z) | Resume (h : Z).

Section machine.
Context {C W : Type} `{!MainLock C W}.

Record es := mk_es {
  state : Z; early_suspend_handlers : list handler; queue : list work; pc : worker;
  trace : list call; requested_suspend_state : Z; wl : W
}.

Definition set_state (st : es) (s : Z) : es :=
  mk_es s (early_suspend_handlers st) (queue st) (pc st) (trace st) (requested_suspend_state st) (wl st).
Definition set_handlers (st : es) (l : list handler) : es :=
  mk_es (state st) l (queue st) (pc st) (trace st) (requested_suspend_state st) (wl st).
Definition set_queue (st : es) (q : list work) : es :=
  mk_es (state st) (early_suspend_handlers st) q (pc st) (trace st) (requested_suspend_state st) (wl st).
Definition set_pc (st : es) (p : worker) : es :=
  mk_es (state st) (early_suspend_handlers st) (queue st) p (trace st) (requested_suspend_state st) (wl st).
Definition add_call (st : es) (x : call) : es :=
  mk_es (state st) (early_suspend_handlers st) (queue st) (pc st) (trace st ++ [x])
    (requested_suspend_state st) (wl st).
Definition set_requested (st : es) (s : Z) : es :=
  mk_es (state st) (early_suspend_handlers st) (queue st) (pc st) (trace st) s (wl st).
Definition set_wl (st : es) (w : W) : es :=
  mk_es (state st) (early_suspend_handlers st) (queue st) (pc st) (trace st) (requested_suspend_state st) w.

(** queue_work: nothing if the item is pending already. *)
Definition queue_work (st : es) (w : work) : es :=
  if bool_decide (w ∈ queue st) then st else set_queue st (queue st ++ [w]).

(** ** Registration *)

(** list_for_each up to the first entry of a higher level, and list_add_tail
    before it. *)
Fixpoint insert_handler (h : handler) (l : list handler) : list handler :=
  match l with
  | [] => [h]
  | e :: l' => if h_level e >? h_level h then h :: e :: l' else e :: insert_handler h l'
  end.

Definition register_early_suspend (st : es) (h : handler) : es :=
  let st := set_handlers st (insert_handler h (early_suspend_handlers st)) in
  if negb (state st &ᵤ SUSPENDED =? 0) && h_suspend h then add_call st (Suspend (h_addr h)) else st.

Definition unregister_early_suspend (st : es) (h : handler) : es :=
  set_handlers st (filter (fun e => e <> h) (early_suspend_handlers st)).

(** ** The worker *)

(** [early_suspend] up to the handlers: the work item is taken off the queue. *)
Definition early_suspend_start (st : es) : es :=
  if state st =? SUSPEND_REQUESTED then
    set_pc (set_state st (state st |ᵤ SUSPENDED)) (CallingSuspend [] (early_suspend_handlers st))
  else set_pc st Deciding.

(** One turn of its list_for_each_entry, or the end of it. *)
Definition early_suspend_call (st : es) (called todo : list handler) : es :=
  match todo with
  | [] => set_pc st Deciding
  | h :: todo' =>
      let st := set_pc st (CallingSuspend (called ++ [h]) todo') in
      if h_suspend h then add_call st (Suspend (h_addr h)) else st
  end.

(** From the label [abort] on. *)
Definition early_suspend_decide (st : es) (c : C) : option es :=
  if state st =? SUSPEND_REQUESTED_AND_SUSPENDED then
    w ← ml_unlock c (wl st); Some (set_pc (set_wl st w) Idle)
  else Some (set_pc st Idle).

Definition late_resume_start (st : es) : es :=
  if state st =? SUSPENDED then
    set_pc (set_state st (state st &ᵤ Z.lnot SUSPENDED))
      (CallingResume [] (reverse (early_suspend_handlers st)))
  else set_pc st Idle.

Definition late_resume_call (st : es) (called todo : list handler) : es :=
  match todo with
  | [] => set_pc st Idle
  | h :: todo' =>
      let st := set_pc st (CallingResume (called ++ [h]) todo') in
      if h_resume h then add_call st (Resume (h_addr h)) else st
  end.

(** What the worker does next; [None]: nothing to do, or an oops. *)
Definition worker_step (st : es) (c : C) : option es :=
  match pc st with
  | Idle =>
      match queue st with
      | [] => None
      | EarlyWork :: q => Some (early_suspend_start (set_queue st q))
      | LateWork :: q => Some (late_resume_start (set_queue st q))
      end
  | CallingSuspend called todo => Some (early_suspend_call st called todo)
  | Deciding => early_suspend_decide st c
  | CallingResume called todo => Some (late_resume_call st called todo)
  end.

(** ** Requests *)

Definition request_suspend_state (st : es) (new_state : Z) (c : C) : option es :=
  let old_sleep := negb (state st &ᵤ SUSPEND_REQUESTED =? 0) in
  st ← (if negb old_sleep && negb (new_state =? PM_SUSPEND_ON) then
          Some (queue_work (set_state st (state st |ᵤ SUSPEND_REQUESTED)) EarlyWork)
        else if old_sleep && (new_state =? PM_SUSPEND_ON) then
          let st := set_state st (state st &ᵤ Z.lnot SUSPEND_REQUESTED) in
          w ← ml_lock c (wl st);
          Some (queue_work (set_wl st w) LateWork)
        else Some st);
  Some (set_requested st new_state).

Definition get_suspend_state (st : es) : Z := requested_suspend_state st.

(** ** Steps *)

(** early_suspend_lock is held while handlers are called. *)
Definition mutex_free (st : es) : Prop :=
  match pc st with CallingSuspend _ _ | CallingResume _ _ => False | _ => True end.

(** Suspend calls of a handler that no resume call has followed. *)
Fixpoint balance (a : Z) (t : list call) : Z :=
  match t with
  | [] => 0
  | Suspend b :: t' => (if b =? a then 1 else 0) + balance a t'
  | Resume b :: t' => (if b =? a then -1 else 0) + balance a t'
  end.

(** Drivers register a handler once; the wake locks are also used by others,
    who leave the main lock alone. *)
Inductive es_step (st : es) : es -> Prop :=
| step_request n c st' : request_suspend_state st n c = Some st' -> es_step st st'
| step_worker c st' : worker_step st c = Some st' -> es_step st st'
| step_register h : mutex_free st ->
    (forall e, e ∈ early_suspend_handlers st -> h_addr e <> h_addr h) -> balance (h_addr h) (trace st) = 0 ->
    es_step st (register_early_suspend st h)
| step_unregister h : mutex_free st -> h ∈ early_suspend_handlers st ->
    es_step st (unregister_early_suspend st h)
| step_others w : ml_ok w -> ml_held w = ml_held (wl st) -> es_step st (set_wl st w).

Definition es_init (w : W) : es := mk_es 0 [] [] Idle [] 3 w.

Inductive es_reachable : es -> Prop :=
| reach_init w : ml_ok w -> ml_held w = true -> es_reachable (es_init w)
| reach_step st st' : es_reachable st -> es_step st st' -> es_reachable st'.

(** * The invariant *)

Definition is_suspended (st : es) : bool := negb (state st &ᵤ SUSPENDED =? 0).

(** The balance a handler with both callbacks has. *)
Definition expected (st : es) (h : handler) : Z :=
  match pc st with
  | CallingSuspend called _ => if bool_decide (h ∈ called) then 1 else 0
  | CallingResume called _ => if bool_decide (h ∈ called) then 0 else 1
  | _ => if is_suspended st then 1 else 0
  end.

Definition le_level (a b : handler) : Prop := h_level a <= h_level b.

Record es_inv (st : es) : Prop := {
  i_ok : ml_ok (wl st);
  i_state : state st = 0 \/ state st = 1 \/ state st = 2 \/ state st = 3;
  i_free : ml_held (wl st) = false -> state st = 3 /\ mutex_free st;
  i_one : state st = 1 -> EarlyWork ∈ queue st;
  i_two : state st = 2 -> LateWork ∈ queue st;
  i_three : state st = 3 -> ml_held (wl st) = false \/ EarlyWork ∈ queue st \/
    match pc st with CallingSuspend _ _ | Deciding => True | _ => False end;
  i_pc : match pc st with
         | CallingSuspend called todo =>
             is_suspended st = true /\ called ++ todo = early_suspend_handlers st
         | CallingResume called todo =>
             is_suspended st = false /\ called ++ todo = reverse (early_suspend_handlers st)
         | _ => True
         end;
  i_sorted : StronglySorted le_level (early_suspend_handlers st);
  i_addr : NoDup (h_addr <$> early_suspend_handlers st);
  i_bal : forall h, h ∈ early_suspend_handlers st -> h_suspend h = true -> h_resume h = true ->
    balance (h_addr h) (trace st) = expected st h
}.

Lemma balance_app a t1 t2 : balance a (t1 ++ t2) = balance a t1 + balance a t2.
Proof. induction t1 as [|[b|b] t1 IH]; simpl; lia. Qed.

Lemma elem_insert h l x : x ∈ insert_handler h l <-> x = h \/ x ∈ l.
Proof.
  induction l as [|e l IH]; simpl; [set_solver|]. case_match; set_solver.
Qed.

Lemma insert_sorted h l : StronglySorted le_level l -> StronglySorted le_level (insert_handler h l).
Proof.
  induction 1 as [|e l Hs IH Hf]; simpl; [repeat constructor|].
  destruct (h_level e >? h_level h) eqn:E.
  - constructor; [by constructor|]. constructor; [unfold le_level; lia|].
    eapply Forall_impl; [exact Hf|]. unfold le_level. lia.
  - constructor; [done|]. apply Forall_forall. intros x [-> |Hx]%elem_insert; [unfold le_level; lia|].
    rewrite Forall_forall in Hf. by apply Hf.
Qed.

Lemma insert_addr h l :
  NoDup (h_addr <$> l) -> (forall e, e ∈ l -> h_addr e <> h_addr h) -> NoDup (h_addr <$> insert_handler h l).
Proof.
  induction l as [|e l IH]; simpl; intros Hnd Hne; [apply NoDup_singleton|].
  apply NoDup_cons in Hnd as [Hn Hnd]. case_match; simpl.
  - apply NoDup_cons. split; [|by apply NoDup_cons]. rewrite elem_of_cons.
    intros [Heq|(y & Heq & Hy)%list_elem_of_fmap]; [apply (Hne e); [by left|done]|].
    apply (Hne y); [by right|done].
  - apply NoDup_cons. split; [|apply IH; [done|]; intros; apply Hne; by right].
    intros (y & Heq & [-> |Hy]%elem_insert)%list_elem_of_fmap; [apply (Hne e); [by left|done]|].
    apply Hn. apply list_elem_of_fmap. eauto.
Qed.

Lemma filter_sorted h l : StronglySorted le_level l -> StronglySorted le_level (filter (fun e => e <> h) l).
Proof.
  induction 1 as [|e l Hs IH Hf]; [constructor|]. rewrite filter_cons. case_decide; [|done].
  constructor; [done|]. apply Forall_forall. intros x [_ Hx]%list_elem_of_filter.
  rewrite Forall_forall in Hf. by apply Hf.
Qed.

Lemma filter_addr h l : NoDup (h_addr <$> l) -> NoDup (h_addr <$> filter (fun e => e <> h) l).
Proof.
  induction l as [|e l IH]; [done|]. simpl. intros [Hn Hnd]%NoDup_cons. rewrite filter_cons.
  case_decide; [|by apply IH]. simpl. apply NoDup_cons. split; [|by apply IH].
  intros (y & Heq & [_ Hy]%list_elem_of_filter)%list_elem_of_fmap. apply Hn, list_elem_of_fmap. eauto.
Qed.

(** Handlers are told apart by their addresses. *)
Lemma addr_inj l a b :
  NoDup (h_addr <$> l) -> a ∈ l -> b ∈ l -> h_addr a = h_addr b -> a = b.
Proof.
  induction l as [|e l IH]; simpl; [by intros _ ?%elem_of_nil|].
  intros [Hn Hnd]%NoDup_cons [-> |Ha]%elem_of_cons [-> |Hb]%elem_of_cons Heq; auto.
  - exfalso. apply Hn, list_elem_of_fmap. eauto.
  - exfalso. apply Hn, list_elem_of_fmap. exists a. split; [by symmetry|done].
Qed.

Lemma queue_in st w : w ∈ queue (queue_work st w).
Proof. unfold queue_work. case_bool_decide; [done|]. simpl. set_solver. Qed.

Lemma queue_mono st w x : x ∈ queue st -> x ∈ queue (queue_work st w).
Proof. unfold queue_work. case_bool_decide; [done|]. simpl. set_solver. Qed.

(** The parts of the invariant that requests and the environment keep. *)
Lemma queue_rest st w :
  state (queue_work st w) = state st /\ wl (queue_work st w) = wl st /\ pc (queue_work st w) = pc st /\
  trace (queue_work st w) = trace st /\
  early_suspend_handlers (queue_work st w) = early_suspend_handlers st.
Proof. unfold queue_work. by case_bool_decide. Qed.

(** [expected] depends on the SUSPENDED bit and the worker only. *)
Lemma expected_same st st' h :
  pc st' = pc st -> is_suspended st' = is_suspended st -> expected st' h = expected st h.
Proof. intros Hp Hs. unfold expected. by rewrite Hp, Hs. Qed.

(** A change of the REQUESTED bit, the queue and the lock. *)
Lemma request_keeps st st' :
  es_inv st -> ml_ok (wl st') ->
  (state st' = 0 \/ state st' = 1 \/ state st' = 2 \/ state st' = 3) ->
  is_suspended st' = is_suspended st -> pc st' = pc st -> trace st' = trace st ->
  early_suspend_handlers st' = early_suspend_handlers st ->
  (ml_held (wl st') = false -> state st' = 3 /\ mutex_free st') ->
  (state st' = 1 -> EarlyWork ∈ queue st') -> (state st' = 2 -> LateWork ∈ queue st') ->
  (state st' = 3 -> ml_held (wl st') = false \/ EarlyWork ∈ queue st' \/
    match pc st' with CallingSuspend _ _ | Deciding => True | _ => False end) -> es_inv st'.
Proof.
  intros Hinv Hok Hs Hsb Hpc Htr Hh ? ? ? ?. split; try done.
  - rewrite Hpc, Hsb, Hh. apply Hinv.
  - rewrite Hh. apply Hinv.
  - rewrite Hh. apply Hinv.
  - intros h Hin Hsu Hr. rewrite Hh in Hin. rewrite Htr, (expected_same st) by done. by apply Hinv.
Qed.

Lemma request_inv st n c :
  es_inv st -> exists st', request_suspend_state st n c = Some st' /\ es_inv st'.
Proof.
  intros Hinv. pose proof Hinv as [Hok Hs Hfree H1 H2 H3 _ _ _ _].
  assert (Hsame : es_inv (set_requested st n)) by (by apply (request_keeps st)).
  unfold request_suspend_state.
  destruct (n =? PM_SUSPEND_ON) eqn:En; rewrite ?andb_true_r, ?andb_false_r; simpl.
  - destruct (negb (state st &ᵤ SUSPEND_REQUESTED =? 0)) eqn:Er; simpl; [|eauto].
    destruct (ml_lock_held c (wl st) Hok) as (w & -> & Hw & Hh). simpl. eexists. split; [done|].
    set (st1 := set_wl (set_state st (state st &ᵤ Z.lnot SUSPEND_REQUESTED)) w).
    destruct (queue_rest st1 LateWork) as (Q1 & Q2 & Q3 & Q4 & Q5).
    pose proof (queue_in st1 LateWork) as Q6. pose proof (queue_mono st1 LateWork) as Q7.
    apply (request_keeps st); try done; simpl; rewrite ?Q1, ?Q2, ?Q3, ?Q4, ?Q5; try done; simpl.
    + destruct Hs as [E|[E|[E|E]]]; rewrite E in *; simpl; tauto || done.
    + unfold is_suspended. simpl. rewrite Q1. simpl.
      destruct Hs as [E|[E|[E|E]]]; rewrite E in *; done.
    + rewrite Hh. done.
    + destruct Hs as [E|[E|[E|E]]]; rewrite E in *; done.
    + destruct Hs as [E|[E|[E|E]]]; rewrite E in *; done.
  - destruct (negb (state st &ᵤ SUSPEND_REQUESTED =? 0)) eqn:Er; simpl; [eauto|].
    eexists. split; [done|]. set (st1 := set_state st (state st |ᵤ SUSPEND_REQUESTED)).
    destruct (queue_rest st1 EarlyWork) as (Q1 & Q2 & Q3 & Q4 & Q5).
    pose proof (queue_in st1 EarlyWork) as Q6.
    assert (Hheld : ml_held (wl st) <> false).
    { intros [E _]%Hfree. by rewrite E in Er. }
    apply (request_keeps st); try done; simpl; rewrite ?Q1, ?Q2, ?Q3, ?Q4, ?Q5; try done; simpl.
    + destruct Hs as [E|[E|[E|E]]]; rewrite E in *; simpl; tauto || done.
    + unfold is_suspended. simpl. rewrite Q1. simpl.
      destruct Hs as [E|[E|[E|E]]]; rewrite E in *; done.
    + destruct Hs as [E|[E|[E|E]]]; rewrite E in *; done.
    + intros _. right. by left.
Qed.

(** ** The worker's steps *)

Lemma dequeue_in (w x : work) q l : l = w :: q -> x ∈ l -> x <> w -> x ∈ q.
Proof. intros -> [-> |]%elem_of_cons ?; done. Qed.

Lemma early_start_inv st q :
  es_inv st -> pc st = Idle -> queue st = EarlyWork :: q -> es_inv (early_suspend_start (set_queue st q)).
Proof.
  intros Hinv Hpc Hq. pose proof Hinv as [Hok Hs Hfree H1 H2 H3 _ Hso Had Hbal].
  unfold early_suspend_start. simpl. destruct (state st =? SUSPEND_REQUESTED) eqn:Es.
  - apply Z.eqb_eq in Es. unfold SUSPEND_REQUESTED in Es. split; simpl; rewrite ?Es; try done.
    + right. right. by right.
    + intros [E _]%Hfree. lia.
    + intros _. right. by right.
    + intros h Hh Hsu Hr. rewrite (Hbal h Hh Hsu Hr). unfold expected. simpl.
      rewrite Hpc. unfold is_suspended. by rewrite Es.
  - apply Z.eqb_neq in Es. unfold SUSPEND_REQUESTED in Es. split; simpl; try done.
    + intros [? _]%Hfree. done.
    + intros E. eapply dequeue_in; [exact Hq|by apply H2|done].
    + intros _. right. by right.
    + intros h Hh Hsu Hr. rewrite (Hbal h Hh Hsu Hr). unfold expected. simpl. by rewrite Hpc.
Qed.

Lemma late_start_inv st q :
  es_inv st -> pc st = Idle -> queue st = LateWork :: q -> es_inv (late_resume_start (set_queue st q)).
Proof.
  intros Hinv Hpc Hq. pose proof Hinv as [Hok Hs Hfree H1 H2 H3 _ Hso Had Hbal].
  unfold late_resume_start. simpl. destruct (state st =? SUSPENDED) eqn:Es.
  - apply Z.eqb_eq in Es. unfold SUSPENDED in Es. split; simpl; rewrite ?Es; try done.
    + by left.
    + intros [E _]%Hfree. lia.
    + intros h Hh Hsu Hr. rewrite (Hbal h Hh Hsu Hr). unfold expected. simpl.
      rewrite Hpc. unfold is_suspended. by rewrite Es.
  - apply Z.eqb_neq in Es. unfold SUSPENDED in Es. split; simpl; try done.
    + intros [? _]%Hfree. done.
    + intros E. eapply dequeue_in; [exact Hq|by apply H1|done].
    + intros E. destruct (H3 E) as [?|[?|Hx]]; [by left|right; left|by rewrite Hpc in Hx].
      eapply dequeue_in; [exact Hq|done|done].
    + intros h Hh Hsu Hr. rewrite (Hbal h Hh Hsu Hr). unfold expected. simpl. by rewrite Hpc.
Qed.

Lemma handlers_nodup st : es_inv st -> NoDup (early_suspend_handlers st).
Proof. intros Hinv. eapply NoDup_fmap_1, (i_addr _ Hinv). Qed.

Lemma suspend_call_inv st called todo :
  es_inv st -> pc st = CallingSuspend called todo -> es_inv (early_suspend_call st called todo).
Proof.
  intros Hinv Hpc. pose proof (handlers_nodup _ Hinv) as Hnd.
  pose proof Hinv as [Hok Hs Hfree H1 H2 H3 Hp Hso Had Hbal]. rewrite Hpc in *. destruct Hp as [Hsu Hl].
  assert (Hnf : ml_held (wl st) <> false).
  { intros [_ Hm]%Hfree. unfold mutex_free in Hm. by rewrite Hpc in Hm. }
  unfold early_suspend_call. destruct todo as [|h todo].
  - rewrite app_nil_r in Hl. subst called. split; simpl; try done.
    + intros h Hh Hsus Hr. rewrite (Hbal h Hh Hsus Hr). unfold expected. rewrite Hpc. simpl.
      unfold is_suspended in *. simpl. by rewrite Hsu, bool_decide_eq_true_2.
  - assert (Hl' : (called ++ [h]) ++ todo = early_suspend_handlers st) by (by rewrite <- app_assoc).
    assert (Hx : h ∉ called).
    { rewrite <- Hl in Hnd. apply NoDup_app in Hnd as (_ & Hd & _). intros Hin. apply (Hd h Hin). by left. }
    assert (Hhin : h ∈ early_suspend_handlers st) by (rewrite <- Hl; set_solver).
    assert (Hgo : forall tr, (forall h', h' ∈ early_suspend_handlers st -> h_suspend h' = true -> h_resume h' = true ->
        balance (h_addr h') tr = balance (h_addr h') (trace st) + if bool_decide (h' = h) then 1 else 0) ->
      es_inv (mk_es (state st) (early_suspend_handlers st) (queue st) (CallingSuspend (called ++ [h]) todo)
                tr (requested_suspend_state st) (wl st))).
    { intros tr Htr. split; simpl; try done.
      intros h' Hh' Hsus Hr. rewrite Htr, (Hbal h' Hh' Hsus Hr) by done. unfold expected. rewrite Hpc. simpl.
      destruct (decide (h' = h)) as [-> |Hne].
      - rewrite bool_decide_eq_false_2, !bool_decide_eq_true_2; [done|set_solver|done|done].
      - rewrite (bool_decide_eq_false_2 (h' = h)) by done. rewrite Z.add_0_r.
        by rewrite (bool_decide_ext (h' ∈ called) (h' ∈ called ++ [h])) by set_solver. }
    destruct (h_suspend h) eqn:Eh; apply Hgo; intros h' Hh' Hsus Hr; simpl.
    + rewrite balance_app. simpl. case_bool_decide as Eq; [subst; rewrite Z.eqb_refl; lia|].
      destruct (h_addr h =? h_addr h') eqn:Ea; [|lia]. apply Z.eqb_eq in Ea. exfalso. apply Eq.
      by apply (addr_inj (early_suspend_handlers st)).
    + rewrite bool_decide_eq_false_2; [lia|]. intros ->. congruence.
Qed.

Lemma resume_call_inv st called todo :
  es_inv st -> pc st = CallingResume called todo -> es_inv (late_resume_call st called todo).
Proof.
  intros Hinv Hpc. pose proof (handlers_nodup _ Hinv) as Hnd.
  pose proof Hinv as [Hok Hs Hfree H1 H2 H3 Hp Hso Had Hbal]. rewrite Hpc in *. destruct Hp as [Hsu Hl].
  assert (Hnf : ml_held (wl st) <> false).
  { intros [_ Hm]%Hfree. unfold mutex_free in Hm. by rewrite Hpc in Hm. }
  assert (Hn3 : state st <> 3) by (intros E; unfold is_suspended in Hsu; by rewrite E in Hsu).
  assert (Hin : forall x, x ∈ early_suspend_handlers st <-> x ∈ called ++ todo)
    by (intros; by rewrite Hl, elem_of_reverse).
  rewrite <- (reverse_Permutation (early_suspend_handlers st)), <- Hl in Hnd.
  unfold late_resume_call. destruct todo as [|h todo].
  - split; simpl; try done. intros h Hh Hsus Hr. rewrite (Hbal h Hh Hsus Hr). unfold expected. rewrite Hpc.
    simpl. unfold is_suspended in *. simpl. rewrite Hsu, bool_decide_eq_true_2; [done|].
    apply Hin in Hh. by rewrite app_nil_r in Hh.
  - assert (Hx : h ∉ called).
    { apply NoDup_app in Hnd as (_ & Hd & _). intros Hi. apply (Hd h Hi). by left. }
    assert (Hhin : h ∈ early_suspend_handlers st) by (apply Hin; set_solver).
    assert (Hgo : forall tr, (forall h', h' ∈ early_suspend_handlers st -> h_suspend h' = true -> h_resume h' = true ->
        balance (h_addr h') tr = balance (h_addr h') (trace st) - if bool_decide (h' = h) then 1 else 0) ->
      es_inv (mk_es (state st) (early_suspend_handlers st) (queue st) (CallingResume (called ++ [h]) todo)
                tr (requested_suspend_state st) (wl st))).
    { intros tr Htr. split; simpl; try done; [by rewrite <- app_assoc|].
      intros h' Hh' Hsus Hr. rewrite Htr, (Hbal h' Hh' Hsus Hr) by done. unfold expected. rewrite Hpc. simpl.
      destruct (decide (h' = h)) as [-> |Hne].
      - rewrite bool_decide_eq_false_2, !bool_decide_eq_true_2; [done|set_solver|done|done].
      - rewrite (bool_decide_eq_false_2 (h' = h)) by done. rewrite Z.sub_0_r.
        by rewrite (bool_decide_ext (h' ∈ called) (h' ∈ called ++ [h])) by set_solver. }
    destruct (h_resume h) eqn:Eh; apply Hgo; intros h' Hh' Hsus Hr; simpl.
    + rewrite balance_app. simpl. case_bool_decide as Eq; [subst; rewrite Z.eqb_refl; lia|].
      destruct (h_addr h =? h_addr h') eqn:Ea; [|lia]. apply Z.eqb_eq in Ea. exfalso. apply Eq.
      by apply (addr_inj (early_suspend_handlers st)).
    + rewrite bool_decide_eq_false_2; [lia|]. intros ->. congruence.
Qed.

Lemma decide_inv st c :
  es_inv st -> pc st = Deciding -> exists st', early_suspend_decide st c = Some st' /\ es_inv st'.
Proof.
  intros Hinv Hpc. pose proof Hinv as [Hok Hs Hfree H1 H2 H3 _ Hso Had Hbal].
  unfold early_suspend_decide. destruct (state st =? SUSPEND_REQUESTED_AND_SUSPENDED) eqn:Es.
  - apply Z.eqb_eq in Es. destruct (ml_unlock_free c (wl st) Hok) as (w & -> & Hw & Hh). simpl.
    eexists. split; [done|]. split; simpl; try done.
    + intros _. by left.
    + intros h Hin Hsu Hr. rewrite (Hbal h Hin Hsu Hr). unfold expected. simpl. by rewrite Hpc.
  - apply Z.eqb_neq in Es. eexists. split; [done|]. split; simpl; try done.
    + intros [? _]%Hfree. done.
    + intros h Hin Hsu Hr. rewrite (Hbal h Hin Hsu Hr). unfold expected. simpl. by rewrite Hpc.
Qed.

Lemma register_inv st h :
  es_inv st -> mutex_free st -> (forall e, e ∈ early_suspend_handlers st -> h_addr e <> h_addr h) ->
  balance (h_addr h) (trace st) = 0 -> es_inv (register_early_suspend st h).
Proof.
  intros Hinv Hm Hne Hb. pose proof Hinv as [Hok Hs Hfree H1 H2 H3 Hp Hso Had Hbal].
  assert (Hpc : forall h', expected st h' = if is_suspended st then 1 else 0).
  { intros h'. unfold expected, mutex_free in *. by destruct (pc st). }
  unfold register_early_suspend. fold (is_suspended (set_handlers st (insert_handler h (early_suspend_handlers st)))).
  change (is_suspended (set_handlers _ _)) with (is_suspended st).
  assert (Hgo : forall tr, (forall h', h' ∈ insert_handler h (early_suspend_handlers st) ->
      h_suspend h' = true -> h_resume h' = true ->
      balance (h_addr h') tr = if is_suspended st then 1 else 0) ->
    es_inv (mk_es (state st) (insert_handler h (early_suspend_handlers st)) (queue st) (pc st) tr
              (requested_suspend_state st) (wl st))).
  { intros tr Htr. split; simpl; try done.
    - unfold mutex_free in Hm. by destruct (pc st).
    - by apply insert_sorted.
    - by apply insert_addr.
    - intros h' Hin Hsu Hr. rewrite Htr by done. rewrite <- (Hpc h'). done. }
  destruct (is_suspended st) eqn:Es; [destruct (h_suspend h) eqn:Eh|]; simpl; apply Hgo;
    intros h' [-> |Hin]%elem_insert Hsu Hr.
  - rewrite balance_app. simpl. rewrite Z.eqb_refl, Hb. done.
  - rewrite balance_app. simpl. rewrite (Hbal h' Hin Hsu Hr), Hpc.
    rewrite (proj2 (Z.eqb_neq (h_addr h) (h_addr h'))); [done|]. intros E. by apply (Hne h').
  - congruence.
  - by rewrite (Hbal h' Hin Hsu Hr), Hpc.
  - done.
  - by rewrite (Hbal h' Hin Hsu Hr), Hpc.
Qed.

Lemma unregister_inv st h : es_inv st -> mutex_free st -> es_inv (unregister_early_suspend st h).
Proof.
  intros Hinv Hm. pose proof Hinv as [Hok Hs Hfree H1 H2 H3 Hp Hso Had Hbal].
  split; simpl; try done.
  - unfold mutex_free in Hm. by destruct (pc st).
  - by apply filter_sorted.
  - by apply filter_addr.
  - intros h' [_ Hin]%list_elem_of_filter Hsu Hr. by apply Hbal.
Qed.

Lemma worker_inv st c st' : es_inv st -> worker_step st c = Some st' -> es_inv st'.
Proof.
  intros Hinv. unfold worker_step. destruct (pc st) as [|called todo| |called todo] eqn:Hpc.
  - destruct (queue st) as [|[|] q] eqn:Hq; intros; simplify_eq; [by apply early_start_inv|by apply late_start_inv].
  - intros [= <-]. by apply suspend_call_inv.
  - intros H. destruct (decide_inv st c Hinv Hpc) as (st1 & ? & ?). by simplify_eq.
  - intros [= <-]. by apply resume_call_inv.
Qed.

Lemma step_inv st st' : es_inv st -> es_step st st' -> es_inv st'.
Proof.
  intros Hinv Hst. destruct Hst as [n c st' H|c st' H|h Hm Hne Hb|h Hm Hin|w Hw Hh].
  - destruct (request_inv st n c Hinv) as (st1 & ? & ?). by simplify_eq.
  - by eapply worker_inv.
  - by apply register_inv.
  - by apply unregister_inv.
  - destruct Hinv. split; simpl; rewrite ?Hh; try done.
Qed.

Lemma init_inv w : ml_ok w -> ml_held w = true -> es_inv (es_init w).
Proof.
  intros Hok Hh. split; simpl; try done; [by left|by rewrite Hh|..]; try constructor.
Qed.

Lemma reachable_inv st : es_reachable st -> es_inv st.
Proof. induction 1; [by apply init_inv|by eapply step_inv]. Qed.

(** ** A pass of the worker *)

Fixpoint worker_run (n : nat) (st : es) (c : C) : option es :=
  match n with
  | O => Some st
  | S n' => st ← worker_step st c; worker_run n' st c
  end.

Definition suspend_calls (l : list handler) : list call :=
  (fun h => Suspend (h_addr h)) <$> filter (fun h => h_suspend h = true) l.
Definition resume_calls (l : list handler) : list call :=
  (fun h => Resume (h_addr h)) <$> filter (fun h => h_resume h = true) l.

Lemma suspend_pass c todo : forall st called,
  pc st = CallingSuspend called todo ->
  worker_run (S (length todo)) st c =
    Some (mk_es (state st) (early_suspend_handlers st) (queue st) Deciding
            (trace st ++ suspend_calls todo) (requested_suspend_state st) (wl st)).
Proof.
  induction todo as [|h todo IH]; intros st called Hpc.
  - simpl. unfold worker_step. rewrite Hpc. simpl. unfold suspend_calls. simpl. by rewrite app_nil_r.
  - change (worker_run (S (length (h :: todo))) st c) with
      (st ← worker_step st c; worker_run (S (length todo)) st c).
    unfold worker_step. rewrite Hpc. cbn [mbind option_bind]. unfold early_suspend_call.
    unfold suspend_calls. rewrite filter_cons. destruct (h_suspend h) eqn:E.
    + rewrite (IH _ (called ++ [h])) by done. rewrite decide_True by done. simpl.
      by rewrite <- app_assoc.
    + rewrite (IH _ (called ++ [h])) by done. by rewrite decide_False by done.
Qed.

Lemma resume_pass c todo : forall st called,
  pc st = CallingResume called todo ->
  worker_run (S (length todo)) st c =
    Some (mk_es (state st) (early_suspend_handlers st) (queue st) Idle
            (trace st ++ resume_calls todo) (requested_suspend_state st) (wl st)).
Proof.
  induction todo as [|h todo IH]; intros st called Hpc.
  - simpl. unfold worker_step. rewrite Hpc. simpl. unfold resume_calls. simpl. by rewrite app_nil_r.
  - change (worker_run (S (length (h :: todo))) st c) with
      (st ← worker_step st c; worker_run (S (length todo)) st c).
    unfold worker_step. rewrite Hpc. cbn [mbind option_bind]. unfold late_resume_call.
    unfold resume_calls. rewrite filter_cons. destruct (h_resume h) eqn:E.
    + rewrite (IH _ (called ++ [h])) by done. rewrite decide_True by done. simpl.
      by rewrite <- app_assoc.
    + rewrite (IH _ (called ++ [h])) by done. by rewrite decide_False by done.
Qed.

(** * Properties *)

(** Whatever the interleaving of requests, registrations and the worker,
    the main wake lock is released only while sleep is requested and the
    system is early-suspended: no handlers are being called, and every
    registered handler (with both callbacks) has had its suspend callback and
    no resume callback since. *)
Lemma main_lock_released_suspended st :
  es_reachable st -> ml_held (wl st) = false ->
  state st = SUSPEND_REQUESTED_AND_SUSPENDED /\ mutex_free st /\
  forall h, h ∈ early_suspend_handlers st -> h_suspend h = true -> h_resume h = true ->
    balance (h_addr h) (trace st) = 1.
Proof.
  intros Hr Hh. pose proof (reachable_inv _ Hr) as Hinv. destruct (i_free _ Hinv Hh) as [Hs Hm].
  split_and!; [done..|]. intros h Hin Hsu Hre. rewrite (i_bal _ Hinv h Hin Hsu Hre).
  unfold expected, mutex_free, is_suspended in *. rewrite Hs. by destruct (pc st).
Qed.

(** When the worker is idle and its queue empty, the request has been
    carried out: either sleep is requested, every handler is suspended and the
    main lock is released, or it is not, every handler is resumed and the main
    lock is held. *)
Lemma quiescent_consistent st :
  es_reachable st -> pc st = Idle -> queue st = [] ->
  (state st = SUSPEND_REQUESTED_AND_SUSPENDED /\ ml_held (wl st) = false \/
   state st = 0 /\ ml_held (wl st) = true) /\
  forall h, h ∈ early_suspend_handlers st -> h_suspend h = true -> h_resume h = true ->
    balance (h_addr h) (trace st) = if ml_held (wl st) then 0 else 1.
Proof.
  intros Hr Hpc Hq. pose proof (reachable_inv _ Hr) as Hinv.
  pose proof Hinv as [_ Hs Hfree H1 H2 H3 _ _ _ Hbal]. rewrite Hpc, Hq in *.
  assert (Hcases : state st = 3 /\ ml_held (wl st) = false \/ state st = 0 /\ ml_held (wl st) = true).
  { destruct Hs as [E|[E|[E|E]]].
    - right. split; [done|]. destruct (ml_held (wl st)) eqn:Eh; [done|].
      destruct (Hfree eq_refl) as [? _]. congruence.
    - by apply H1, elem_of_nil in E.
    - by apply H2, elem_of_nil in E.
    - left. split; [done|]. by destruct (H3 E) as [?|[?%elem_of_nil|]]. }
  split; [done|]. intros h Hin Hsu Hre. rewrite (Hbal h Hin Hsu Hre). unfold expected, is_suspended. rewrite Hpc.
  by destruct Hcases as [[-> ->]|[-> ->]].
Qed.

(** A pass of the worker: the suspend callbacks are called once each, in
    the order of the handlers' levels, and the resume callbacks in the
    opposite order. *)
Lemma handlers_called_in_order st c q :
  es_reachable st -> pc st = Idle ->
  StronglySorted le_level (early_suspend_handlers st) /\
  (queue st = EarlyWork :: q -> state st = SUSPEND_REQUESTED ->
   exists st', worker_run (S (S (length (early_suspend_handlers st)))) st c = Some st' /\
     pc st' = Deciding /\ trace st' = trace st ++ suspend_calls (early_suspend_handlers st)) /\
  (queue st = LateWork :: q -> state st = SUSPENDED ->
   exists st', worker_run (S (S (length (early_suspend_handlers st)))) st c = Some st' /\
     pc st' = Idle /\ trace st' = trace st ++ resume_calls (reverse (early_suspend_handlers st))).
Proof.
  intros Hr Hpc. split; [apply (i_sorted _ (reachable_inv _ Hr))|]. split; intros Hq Hs.
  - change (worker_run (S ?n) st c) with (st ← worker_step st c; worker_run n st c).
    unfold worker_step. rewrite Hpc, Hq. cbn [mbind option_bind]. unfold early_suspend_start. simpl state.
    rewrite Hs. cbn [Z.eqb SUSPEND_REQUESTED].
    erewrite (suspend_pass c (early_suspend_handlers st)) by done. by eexists.
  - change (worker_run (S ?n) st c) with (st ← worker_step st c; worker_run n st c).
    unfold worker_step. rewrite Hpc, Hq. cbn [mbind option_bind]. unfold late_resume_start. simpl state.
    rewrite Hs. rewrite <- (length_reverse (early_suspend_handlers st)).
    erewrite (resume_pass c (reverse (early_suspend_handlers st))) by done. by eexists.
Qed.

(** ** Runs, for the examples *)

Inductive action := Request (n : Z) | Work | Register (h : handler).

Definition act (st : es) (c : C) (x : action) : option es :=
  match x with
  | Request n => request_suspend_state st n c
  | Work => worker_step st c
  | Register h =>
      match pc st with
      | Idle | Deciding =>
          if bool_decide (Forall (fun e => h_addr e <> h_addr h) (early_suspend_handlers st)) &&
             (balance (h_addr h) (trace st) =? 0)
          then Some (register_early_suspend st h) else None
      | _ => None
      end
  end.

Definition run (c : C) (st : es) (xs : list action) : option es :=
  foldl (fun o x => st ← o; act st c x) (Some st) xs.

Lemma act_step st c x st' : act st c x = Some st' -> es_step st st'.
Proof.
  destruct x as [n| |h]; simpl; intros H; [by eapply step_request|by eapply step_worker|].
  assert (Hm : mutex_free st) by (unfold mutex_free; by destruct (pc st)).
  assert (H' : (if bool_decide (Forall (fun e => h_addr e <> h_addr h) (early_suspend_handlers st)) &&
             (balance (h_addr h) (trace st) =? 0)
          then Some (register_early_suspend st h) else None) = Some st') by (by destruct (pc st)).
  case_bool_decide as Hf; [|done]. simpl in H'. destruct (_ =? 0) eqn:Eb; [|done]. simplify_eq.
  apply step_register; [done| |by apply Z.eqb_eq]. by apply Forall_forall.
Qed.

Lemma run_reachable c xs : forall st st',
  es_reachable st -> run c st xs = Some st' -> es_reachable st'.
Proof.
  unfold run. induction xs as [|x xs IH]; intros st st' Hr H; simpl in H; [by simplify_eq|].
  destruct (act st c x) as [st1|] eqn:E.
  - eapply IH; [|exact H]. eapply reach_step; [exact Hr|]. by eapply act_step.
  - exfalso. clear -H. induction xs; simpl in H; [done|auto].
Qed.
End machine.

Arguments es : clear implicits.

(** ** The wake locks are such a lock *)

Module W := Wakelock.

Definition main_ok (w : W.pm) : Prop :=
  W.wl_inv w /\ forall v e, W.core w !! W.main_wake_lock = Some (v, e) -> W.v_expire v = false.

Definition main_held (w : W.pm) : bool :=
  match W.wake_lock_active w W.main_wake_lock with Some b => b | None => false end.

Lemma main_held_core w v e : W.core w !! W.main_wake_lock = Some (v, e) -> main_held w = W.v_active v.
Proof.
  intros H. unfold main_held, W.wake_lock_active. apply W.core_Some in H as (l & -> & Hv & _). simpl.
  by rewrite <- W.view_active, Hv.
Qed.

#[export] Instance wakelock_main : MainLock W.clock W.pm.
Proof.
  refine {| ml_ok := main_ok; ml_held := main_held;
            ml_lock := fun c w => W.wake_lock w W.main_wake_lock c;
            ml_unlock := fun c w => W.wake_unlock w W.main_wake_lock c |}.
  - intros c w [Hinv Hx].
    destruct (W.inv_static _ Hinv W.main_wake_lock) as (v & e & Hc & Hi & _); [by left|].
    destruct (W.wake_lock_internal_spec w W.main_wake_lock 0 false c v e Hinv Hc Hi)
      as (w' & Hw & Hinv' & Hp & _). specialize (Hp (or_introl eq_refl)).
    exists w'. split_and!; [done|split; [done|]|by rewrite (main_held_core _ _ _ Hp)].
    intros v' e' Hc'. by simplify_eq.
  - intros c w [Hinv Hx].
    destruct (W.inv_static _ Hinv W.main_wake_lock) as (v & e & Hc & Hi & _); [by left|].
    destruct (W.wake_unlock_spec w W.main_wake_lock c v e Hinv Hc Hi) as (w' & Hw & Hinv' & Hp & _).
    exists w'. split_and!; [done|split; [done|]|by rewrite (main_held_core _ _ _ Hp)].
    intros v' e' Hc'. by simplify_eq.
Defined.

Lemma main_active_ok w t e :
  W.wl_inv w -> W.core w !! W.main_wake_lock = Some (W.mk_view true true false t, e) ->
  ml_ok w /\ ml_held w = true.
Proof.
  intros Hinv Hm. split; [|exact (main_held_core _ _ _ Hm)]. split; [done|]. intros v e' Hc. by simplify_eq.
Qed.

Lemma booted_main_ok c : ml_ok (W.booted c) /\ ml_held (W.booted c) = true.
Proof. exact (main_active_ok _ _ _ (W.booted_inv c) (W.booted_main c)). Qed.

(** A handler is registered, sleep is requested, and the worker runs. *)
Definition demo_handler : handler := mk_handler 77 50 true true.
Definition demo_asleep : option (es W.pm) :=
  run W.clock0 (es_init (W.booted W.clock0)) [Register demo_handler; Request 3; Work; Work; Work; Work].

Lemma demo_asleep_reachable st : demo_asleep = Some st -> es_reachable st.
Proof.
  apply run_reachable. destruct (booted_main_ok W.clock0). by apply reach_init.
Qed.

Definition demo_requested : option (es W.pm) :=
  run W.clock0 (es_init (W.booted W.clock0)) [Register demo_handler; Request 3].

(** C8. Early suspend and wake locks together: in any reachable state, if the
    suspend work puts the system to sleep, then sleep was requested, the
    system was early-suspended, and no handler was being called. *)
Theorem system_sleeps_only_suspended (st : es W.pm) c pm_suspend w' :
  es_reachable st -> W.suspend (wl st) c pm_suspend = Some (true, w') ->
  state st = SUSPEND_REQUESTED_AND_SUSPENDED /\ mutex_free st.
Proof.
  intros Hr Hs. pose proof (reachable_inv _ Hr) as Hinv. destruct (i_ok _ Hinv) as [Hwl Hx].
  apply (i_free _ Hinv). destruct (W.inv_static _ Hwl W.main_wake_lock) as (v & e & Hc & Hi & Ht); [by left|].
  change (main_held (wl st) = false). rewrite (main_held_core _ _ _ Hc).
  destruct (W.v_active v) eqn:Ha; [|done]. exfalso.
  assert (Hin : W.main_wake_lock ∈ W.active_suspend (wl st)).
  { pose proof (W.inv_listed _ Hwl _ _ _ Hc Hi) as Hl. unfold W.all_listed in Hl. rewrite !elem_of_app in Hl.
    destruct Hl as [Hl|[Hl|Hl]]; [|done|].
    - destruct (W.inv_inactive _ Hwl _ Hl) as (? & ? & ? & _). by simplify_eq.
    - destruct (W.inv_active _ Hwl W.WAKE_LOCK_IDLE _ (or_intror eq_refl) Hl) as (? & ? & ?). by simplify_eq. }
  assert (Hu : W.unlimited (wl st) W.WAKE_LOCK_SUSPEND).
  { exists W.main_wake_lock, v, e. split_and!; [done|done|]. by eapply Hx. }
  unfold W.suspend, W.has_wake_lock in Hs.
  destruct (W.no_lock_zero (W.set_suspend_work (wl st) false) c) as (r & st1 & Hh & _ & _ & Hz);
    [by apply (W.same_lists_inv (wl st))|].
  rewrite Hh in Hs. simpl in Hs. destruct (r =? 0) eqn:Er; simpl in Hs; [|by simplify_eq].
  apply Z.eqb_eq, Hz in Er as [Hnu _]. by apply Hnu.
Qed.

Lemma system_sleeps_only_suspended_witness :
  exists st w', demo_asleep = Some st /\ W.suspend (wl st) W.clock1 (fun s => (s, W.clock1)) = Some (true, w') /\
  state st = SUSPEND_REQUESTED_AND_SUSPENDED /\ mutex_free st.
Proof.
  assert (H : (st ← demo_asleep; fst <$> W.suspend (wl st) W.clock1 (fun s => (s, W.clock1))) = Some true)
    by (vm_compute; reflexivity).
  destruct demo_asleep as [st|] eqn:E; [|discriminate]. simpl in H.
  destruct (W.suspend (wl st) W.clock1 (fun s => (s, W.clock1))) as [[b w']|] eqn:E2; [|discriminate].
  injection H as ->. exists st, w'. split; [reflexivity|]. split; [exact E2|].
  exact (system_sleeps_only_suspended st W.clock1 (fun s => (s, W.clock1)) w' (demo_asleep_reachable st E) E2).
Defined.

End EarlySuspend.
