(* ===== verification/RamConsole.v ===== *)
(** The RAM console, drivers/staging/android/ram_console.c: the kernel log in
    memory that keeps its contents when the system restarts.

    The configuration is that of the device, without error correction and
    without early initialisation.  [ram_console_buffer] is what is in the
    reserved memory, [console] has the variables of the driver.  The console
    code calls ram_console_write() with its lock held.  What ioremap(),
    kmalloc() and create_proc_entry() do is a parameter. *)

From S2P Require Import Prelude.
Local Open Scope Z_scope.
Local Open Scope kernel_scope.

Module RamConsole.

(** ** Data *)

Record ram_console_buffer := mk_buffer {
  sig : Z;
  start : Z;
  size : Z;
  data : list Z
}.

Definition RAM_CONSOLE_SIG : Z := 0x43474244.

(** [enabled] is CON_ENABLED of the console, [last_kmsg] the size of the file
    in procfs. *)
Record console := mk_console {
  buffer : ram_console_buffer;
  buffer_size : Z;
  old_log : option (list Z);
  old_log_size : Z;
  registered : bool;
  enabled : bool;
  last_kmsg : option Z
}.

Definition set_data (b : ram_console_buffer) (d : list Z) : ram_console_buffer := mk_buffer (sig b) (start b) (size b) d.
Definition set_start (b : ram_console_buffer) (v : Z) : ram_console_buffer := mk_buffer (sig b) v (size b) (data b).
Definition set_size (b : ram_console_buffer) (v : Z) : ram_console_buffer := mk_buffer (sig b) (start b) v (data b).

Definition set_buffer (c : console) (b : ram_console_buffer) : console :=
  mk_console b (buffer_size c) (old_log c) (old_log_size c) (registered c) (enabled c) (last_kmsg c).
Definition set_old (c : console) (log : option (list Z)) (n : Z) : console :=
  mk_console (buffer c) (buffer_size c) log n (registered c) (enabled c) (last_kmsg c).

(** ** Writing *)

Definition ram_console_update (b : ram_console_buffer) (s : list Z) : option ram_console_buffer :=
  d ← mem_write (data b) (start b) s; Some (set_data b d).

(** The part that wraps around: the buffer and what is left of [s]. *)
Definition write_wrap (b : ram_console_buffer) (n : Z) (s : list Z) : option (ram_console_buffer * list Z) :=
  let rem := n -ᵤ start b in
  if rem <? Zlen s then
    b ← ram_console_update b (take (Z.to_nat rem) s);
    Some (set_size (set_start b 0) n, drop (Z.to_nat rem) s)
  else Some (b, s).

(** [n] is ram_console_buffer_size. *)
Definition ram_console_write (b : ram_console_buffer) (n : Z) (s : list Z) : option ram_console_buffer :=
  let s := if n <? Zlen s then drop (Z.to_nat (Zlen s - n)) s else s in
  '(b, s) ← write_wrap b n s;
  b ← ram_console_update b s;
  let b := set_start b (start b +ᵤ Zlen s) in
  Some (if size b <? n then set_size b (size b +ᵤ Zlen s) else b).

Definition ram_console_enable_console (c : console) (on : bool) : console :=
  mk_console (buffer c) (buffer_size c) (old_log c) (old_log_size c) (registered c) on (last_kmsg c).

(** What __call_console_drivers() does for this console. *)
Definition call_console (c : console) (s : list Z) : option console :=
  if registered c && enabled c
  then b ← ram_console_write (buffer c) (buffer_size c) s; Some (set_buffer c b)
  else Some c.

(** ** Start *)

(** [memory] tells whether kmalloc() finds memory. *)
Definition ram_console_save_old (c : console) (memory : bool) : option console :=
  let b := buffer c in
  if negb memory then Some c
  else
    newer ← mem_read (data b) (start b) (size b - start b);
    older ← mem_read (data b) 0 (start b);
    Some (set_old c (Some (newer ++ older)) (size b)).

Definition ram_console_init (c : console) (b : ram_console_buffer) (size_of_buffer : Z) (memory : bool) : option console :=
  let n := size_of_buffer -ᵤ 12 in
  let c := mk_console b n (old_log c) (old_log_size c) (registered c) (enabled c) (last_kmsg c) in
  if size_of_buffer <? n then Some c
  else
    c ← (if sig b =? RAM_CONSOLE_SIG then
           if (n <? size b) || (size b <? start b) then Some c else ram_console_save_old c memory
         else Some c);
    let b := buffer c in
    Some (mk_console (mk_buffer RAM_CONSOLE_SIG 0 0 (data b)) (buffer_size c) (old_log c) (old_log_size c) true (enabled c) (last_kmsg c)).

Definition IORESOURCE_MEM : Z := 0x200.

(** [res] is the resource with its flags, [ioremap] what is mapped there. *)
Definition ram_console_driver_probe (c : console) (res : option (Z * Z * Z)) (num_resources : Z)
    (ioremap : option ram_console_buffer) (memory : bool) : option (console * Z) :=
  match res with
  | None => Some (c, - ENXIO)
  | Some (first, last, flags) =>
      if negb (num_resources =? 1) || (flags &ᵤ IORESOURCE_MEM =? 0) then Some (c, - ENXIO)
      else match ioremap with
           | None => Some (c, - ENOMEM)
           | Some b => c ← ram_console_init c b (last -ᵤ first +ᵤ 1) memory; Some (c, 0)
           end
  end.

(** ** The file last_kmsg *)

(** What is copied, the new offset and what is returned. *)
Definition ram_console_read_old (c : console) (u : user_dst) (len offset : Z) : option (list Z * Z * Z) :=
  if old_log_size c <=? offset then Some ([], offset, 0)
  else
    let count := Z.min len (u32 (old_log_size c - offset)) in
    log ← old_log c;
    d ← mem_read log offset count;
    let '(got, missed) := copy_to_user u 0 d in
    if negb (missed =? 0) then Some (got, offset, - EFAULT) else Some (got, offset + count, count).

Definition ram_console_late_init (c : console) (create_proc_entry : bool) : console :=
  match old_log c with
  | None => c
  | Some _ =>
      if create_proc_entry
      then mk_console (buffer c) (buffer_size c) (old_log c) (old_log_size c) (registered c) (enabled c) (Some (old_log_size c))
      else set_old c None (old_log_size c)
  end.

(** ** The stores of a write

    The memory keeps what was stored before a reset, so the order of the
    stores matters.  memcpy() stores bytes in ascending order. *)

Inductive store :=
| Data (off x : Z)
| Start (v : Z)
| Size (v : Z).

Definition apply_store (b : ram_console_buffer) (x : store) : option ram_console_buffer :=
  match x with
  | Data off x => d ← mem_write (data b) off [x]; Some (set_data b d)
  | Start v => Some (set_start b v)
  | Size v => Some (set_size b v)
  end.

Fixpoint stores (b : ram_console_buffer) (l : list store) : option ram_console_buffer :=
  match l with
  | [] => Some b
  | x :: l => b ← apply_store b x; stores b l
  end.

Fixpoint memcpy_stores (off : Z) (s : list Z) : list store :=
  match s with
  | [] => []
  | x :: s => Data off x :: memcpy_stores (off + 1) s
  end.

(** The stores of ram_console_write(), from the start and the size the buffer
    has before. *)
Definition write_stores (first used n : Z) (s : list Z) : list store :=
  let s := if n <? Zlen s then drop (Z.to_nat (Zlen s - n)) s else s in
  let rem := n -ᵤ first in
  let '(wrap, first, used, s) :=
    if rem <? Zlen s
    then (memcpy_stores first (take (Z.to_nat rem) s) ++ [Start 0; Size n], 0, n, drop (Z.to_nat rem) s)
    else ([], first, used, s) in
  wrap ++ memcpy_stores first s ++ [Start (first +ᵤ Zlen s)] ++
  (if used <? n then [Size (used +ᵤ Zlen s)] else []).

(** ** The ring *)

Definition last_n (n : Z) (l : list Z) : list Z := drop (length l - Z.to_nat n) l.

(** The text in the buffer, the oldest byte first. *)
Definition contents (b : ram_console_buffer) : list Z :=
  drop (Z.to_nat (start b)) (take (Z.to_nat (size b)) (data b)) ++ take (Z.to_nat (start b)) (data b).

Record ring (b : ram_console_buffer) (n : Z) : Prop := {
  ring_sig : sig b = RAM_CONSOLE_SIG;
  ring_data : Zlen (data b) = n;
  ring_start : 0 <= start b <= size b;
  ring_size : size b <= n < 4294967296 - 12;
  ring_full : size b < n -> start b = size b
}.

Lemma last_n_short n l : Zlen l <= n -> last_n n l = l.
Proof. intros. unfold last_n. replace (length l - Z.to_nat n)%nat with 0%nat by lia. done. Qed.

Lemma last_n_app n l s : Zlen s <= n -> last_n n (l ++ s) = last_n (n - Zlen s) l ++ s.
Proof.
  intros. unfold last_n. rewrite length_app, drop_app_le by lia. do 2 f_equal. lia.
Qed.

Lemma last_n_long n l s : 0 <= n <= Zlen s -> last_n n (l ++ s) = last_n n s.
Proof.
  intros. unfold last_n. rewrite length_app, drop_app_ge by lia. f_equal. lia.
Qed.

Lemma last_n_length n l : 0 <= n -> Zlen (last_n n l) = Z.min n (Zlen l).
Proof. intros. unfold last_n. rewrite length_drop. lia. Qed.

Lemma last_n_last n l s : 0 <= n -> last_n n (last_n n l ++ s) = last_n n (l ++ s).
Proof.
  intros. destruct (decide (Zlen s <= n)).
  - rewrite !last_n_app by done. f_equal. unfold last_n. rewrite drop_drop, length_drop. f_equal. lia.
  - rewrite !last_n_long by lia. done.
Qed.

(** The bytes of [s] put in at the start, the oldest ones. *)
Definition put (d : list Z) (st : nat) (s : list Z) : list Z := take st d ++ s ++ drop (st + length s) d.

Lemma put_torn d st s :
  (st + length s <= length d)%nat ->
  drop st (put d st s) ++ take st (put d st s) = s ++ drop (length s) (drop st d ++ take st d).
Proof.
  intros. unfold put.
  rewrite drop_app_ge, take_app_le by (rewrite length_take; lia).
  rewrite length_take, take_take, Nat.min_l, Nat.sub_diag, drop_0, Nat.min_id by lia.
  rewrite drop_app_le by (rewrite length_drop; lia). rewrite drop_drop. by rewrite <- app_assoc.
Qed.

Lemma put_advance d st s :
  (st + length s <= length d)%nat ->
  drop (st + length s) (put d st s) ++ take (st + length s) (put d st s) =
  drop (length s) (drop st d ++ take st d) ++ s.
Proof.
  intros. unfold put. rewrite (app_assoc (take st d) s).
  assert (length (take st d ++ s) = st + length s)%nat as E by (rewrite length_app, length_take; lia).
  rewrite drop_app_length', take_app_length' by done.
  rewrite drop_app_le by (rewrite length_drop; lia). rewrite drop_drop. by rewrite <- !app_assoc.
Qed.

Lemma put_length d st s : (st + length s <= length d)%nat -> length (put d st s) = length d.
Proof. intros. unfold put. rewrite !length_app, length_take, length_drop. lia. Qed.

Lemma take_put d st s : (st <= length d)%nat -> take st (put d st s) = take st d.
Proof. intros. unfold put. rewrite take_app_le, take_take by (rewrite length_take; lia). f_equal. lia. Qed.

(** [s] in the data of the buffer, from the start on. *)
Definition filled (b : ram_console_buffer) (s : list Z) : ram_console_buffer :=
  set_data b (put (data b) (Z.to_nat (start b)) s).

(** The buffer when the copy of [s] is complete, and when it filled the end of
    the data. *)
Definition advanced (b : ram_console_buffer) (n : Z) (s : list Z) : ram_console_buffer :=
  mk_buffer (sig b) (start b + Zlen s) (if size b <? n then size b + Zlen s else size b) (data (filled b s)).
Definition wrapped (b : ram_console_buffer) (n : Z) (s : list Z) : ram_console_buffer :=
  mk_buffer (sig b) 0 n (data (filled b s)).

Lemma contents_full b n :
  ring b n -> size b = n ->
  contents b = drop (Z.to_nat (start b)) (data b) ++ take (Z.to_nat (start b)) (data b).
Proof. intros [] E. unfold contents. rewrite (take_ge (data b)) by lia. done. Qed.

Lemma contents_short b n : ring b n -> size b < n -> contents b = take (Z.to_nat (start b)) (data b).
Proof.
  intros R E. unfold contents. rewrite <- (ring_full _ _ R E), drop_ge; [done|].
  rewrite length_take. lia.
Qed.

Lemma ring_contents_length b n : ring b n -> Zlen (contents b) = size b.
Proof. intros []. unfold contents. rewrite length_app, length_drop, !length_take. lia. Qed.

Section ring_steps.
Context (b : ram_console_buffer) (n : Z) (s : list Z).
Context (R : ring b n) (F : start b + Zlen s <= n).

Lemma filled_fits : (Z.to_nat (start b) + length s <= length (data b))%nat.
Proof. destruct R. lia. Qed.

Lemma ram_console_update_spec : ram_console_update b s = Some (filled b s).
Proof.
  destruct R. unfold ram_console_update. rewrite mem_write_Some by lia. done.
Qed.

Lemma contents_filled :
  contents (filled b s) = if size b <? n then contents b else s ++ drop (length s) (contents b).
Proof.
  pose proof filled_fits as P. destruct (Z.ltb_spec (size b) n) as [E|E].
  - rewrite (contents_short _ _ R E). unfold contents. simpl. destruct R.
    rewrite <- (ring_full0 E), take_put, drop_ge by (rewrite ?length_take; lia). done.
  - rewrite (contents_full _ _ R) by (destruct R; lia). unfold contents. simpl.
    rewrite (take_ge (put _ _ _)) by (rewrite put_length by done; destruct R; lia).
    by apply put_torn.
Qed.

Lemma advanced_contents : contents (advanced b n s) = last_n n (contents b ++ s).
Proof.
  pose proof filled_fits as P. pose proof (ring_contents_length b n R) as L. destruct (Z.ltb_spec (size b) n) as [E|E].
  - rewrite last_n_short by (destruct R; rewrite length_app; lia).
    rewrite (contents_short _ _ R E). unfold contents, advanced. simpl. rewrite (proj2 (Z.ltb_lt _ _) E).
    rewrite <- (ring_full _ _ R E), drop_ge by (rewrite length_take; lia). simpl.
    unfold put. rewrite app_assoc, take_app_length'; [done|]. destruct R. rewrite length_app, length_take. lia.
  - rewrite last_n_app by (destruct R; lia). unfold last_n.
    rewrite (contents_full _ _ R ltac:(destruct R; lia)). unfold contents, advanced. simpl.
    rewrite (proj2 (Z.ltb_ge _ _) E). destruct R.
    rewrite (take_ge (put _ _ _)) by (rewrite put_length by done; lia).
    replace (Z.to_nat (start b + Zlen s)) with (Z.to_nat (start b) + length s)%nat by lia.
    rewrite put_advance by done. do 2 f_equal. rewrite length_app, length_drop, length_take. lia.
Qed.

Lemma advanced_ring : ring (advanced b n s) n.
Proof.
  pose proof filled_fits. destruct R. constructor; simpl; rewrite ?put_length by done; try done;
    destruct (Z.ltb_spec (size b) n); lia.
Qed.

Lemma wrapped_contents : start b + Zlen s = n -> contents (wrapped b n s) = last_n n (contents b ++ s).
Proof.
  intros E. rewrite <- advanced_contents. pose proof filled_fits as P. unfold contents. simpl. destruct R.
  rewrite E. assert ((if size b <? n then size b + Zlen s else size b) = n) as -> by (destruct (Z.ltb_spec (size b) n); lia).
  rewrite !(take_ge (put _ _ _) (Z.to_nat n)), (drop_ge (put _ _ _) (Z.to_nat n)) by (rewrite put_length by done; lia).
  by rewrite app_nil_r.
Qed.

Lemma wrapped_ring : ring (wrapped b n s) n.
Proof. pose proof filled_fits. destruct R. constructor; simpl; rewrite ?put_length by done; lia || done. Qed.

End ring_steps.

(** ** A write as a whole *)

(** What of [s] fits. *)
Definition kept (n : Z) (s : list Z) : list Z := if n <? Zlen s then drop (Z.to_nat (Zlen s - n)) s else s.

Lemma kept_last n s : 0 <= n -> kept n s = last_n n s.
Proof.
  intros. unfold kept. destruct (Z.ltb_spec n (Zlen s)); [|by rewrite last_n_short].
  unfold last_n. f_equal. lia.
Qed.

Lemma kept_length n s : 0 <= n -> Zlen (kept n s) <= n.
Proof. intros. rewrite kept_last, last_n_length by done. lia. Qed.

Lemma last_n_kept n l s : 0 <= n -> last_n n (l ++ kept n s) = last_n n (l ++ s).
Proof.
  intros. unfold kept. destruct (Z.ltb_spec n (Zlen s)); [|done].
  rewrite !last_n_long by (rewrite ?length_drop; lia). unfold last_n. rewrite drop_drop, length_drop. f_equal. lia.
Qed.

(** A write either fits behind the start or wraps around once. *)
Lemma ram_console_write_cases b n s :
  ring b n ->
  let t := kept n s in
  let rem := n - start b in
  ram_console_write b n s =
    Some (if rem <? Zlen t
          then advanced (wrapped b n (take (Z.to_nat rem) t)) n (drop (Z.to_nat rem) t)
          else advanced b n t).
Proof.
  intros R t rem. assert (0 <= n) by (destruct R; lia). pose proof (kept_length n s ltac:(done)) as L.
  fold t in L. unfold ram_console_write. fold (kept n s). fold t. unfold write_wrap.
  rewrite u32_small by (destruct R; lia). fold rem. destruct (Z.ltb_spec rem (Zlen t)) as [E|E].
  - assert (start b + Zlen (take (Z.to_nat rem) t) <= n) by (rewrite length_take; destruct R; lia).
    rewrite (ram_console_update_spec b n) by done. simpl.
    change (set_size (set_start (filled b (take (Z.to_nat rem) t)) 0) n) with (wrapped b n (take (Z.to_nat rem) t)).
    pose proof (wrapped_ring b n _ R H0) as R1.
    rewrite (ram_console_update_spec _ n) by (try done; simpl; rewrite length_drop; lia). simpl.
    rewrite Z.ltb_irrefl. unfold advanced. simpl. rewrite Z.ltb_irrefl, u32_small by (rewrite length_drop; destruct R; lia).
    done.
  - simpl. rewrite (ram_console_update_spec b n) by (try done; lia). simpl.
    unfold advanced. destruct R. destruct (Z.ltb_spec (size b) n); unfold set_size, set_start; simpl; by rewrite !u32_small by lia.
Qed.

Lemma ram_console_write_spec b n s :
  ring b n ->
  exists b', ram_console_write b n s = Some b' /\ ring b' n /\ contents b' = last_n n (contents b ++ s).
Proof.
  intros R. assert (0 <= n) by (destruct R; lia). rewrite ram_console_write_cases by done. cbv zeta.
  rewrite <- last_n_kept by done. pose proof (kept_length n s ltac:(done)) as L.
  set (t := kept n s) in *. clearbody t. remember (n - start b) as rem.
  destruct (Z.ltb_spec rem (Zlen t)) as [E|E]; eexists; (split; [done|]).
  - assert (start b + Zlen (take (Z.to_nat rem) t) = n) as E1 by (rewrite length_take; destruct R; lia).
    assert (ring (wrapped b n (take (Z.to_nat rem) t)) n) as R1 by (apply wrapped_ring; [done|lia]).
    assert (start (wrapped b n (take (Z.to_nat rem) t)) + Zlen (drop (Z.to_nat rem) t) <= n)
      by (simpl; rewrite length_drop; lia).
    split; [by apply advanced_ring|]. rewrite advanced_contents, wrapped_contents by (done || lia).
    by rewrite last_n_last, <- app_assoc, take_drop.
  - split; [by apply advanced_ring; [|lia]|]. by apply advanced_contents; [|lia].
Qed.

(** ** A reset in the middle of a write *)

(** The variables of the driver when the kernel starts. *)
Definition boot : console := mk_console (mk_buffer 0 0 0 []) 0 None 0 false true None.

(** What the next start finds in the memory. *)
Definition recovered (b : ram_console_buffer) (n : Z) : option (option (list Z)) :=
  c ← ram_console_init boot b (n + 12) true; Some (old_log c).

(** The log [l] after [i] bytes of [t], with its oldest [j] bytes overwritten by
    the [j] that follow. *)
Definition torn (n : Z) (l t : list Z) (i j : nat) : list Z :=
  take j (drop i t) ++ drop j (last_n n (l ++ take i t)).

(** Only a full log is torn. *)
Definition survives (b : ram_console_buffer) (n : Z) (l t : list Z) : Prop :=
  exists i j, (i + j <= length t)%nat /\ (j = 0%nat \/ n <= Zlen (l ++ take i t)) /\
    recovered b n = Some (Some (torn n l t i j)).

Lemma init_found b n c memory :
  0 <= n < 4294967296 - 12 ->
  exists c', ram_console_init c b (n + 12) memory =
    (c1 ← (if sig b =? RAM_CONSOLE_SIG then
           if (n <? size b) || (size b <? start b) then Some c' else ram_console_save_old c' memory
         else Some c');
    Some (mk_console (mk_buffer RAM_CONSOLE_SIG 0 0 (data (buffer c1))) (buffer_size c1) (old_log c1) (old_log_size c1) true (enabled c1) (last_kmsg c1))) /\
    c' = mk_console b n (old_log c) (old_log_size c) (registered c) (enabled c) (last_kmsg c).
Proof.
  intros Hn. eexists. split; [|done]. unfold ram_console_init.
  rewrite (u32_small (n + 12 - 12)) by lia. replace (n + 12 - 12) with n by lia.
  rewrite (proj2 (Z.ltb_ge (n + 12) n)) by lia. done.
Qed.

Lemma save_old_contents c :
  0 <= start (buffer c) <= size (buffer c) -> size (buffer c) <= Zlen (data (buffer c)) ->
  ram_console_save_old c true = Some (set_old c (Some (contents (buffer c))) (size (buffer c))).
Proof.
  intros H1 H2. unfold ram_console_save_old. simpl. rewrite !mem_read_Some by lia. simpl.
  unfold contents. rewrite drop_0, skipn_firstn_comm. do 5 f_equal. lia.
Qed.

Lemma recovered_valid b n :
  sig b = RAM_CONSOLE_SIG -> Zlen (data b) = n -> 0 <= start b <= size b -> size b <= n < 4294967296 - 12 ->
  recovered b n = Some (Some (contents b)).
Proof.
  intros E1 E2 E3 E4. unfold recovered. destruct (init_found b n boot true) as (c & -> & ->); [lia|].
  rewrite E1, Z.eqb_refl. rewrite (proj2 (Z.ltb_ge n (size b))), (proj2 (Z.ltb_ge (size b) (start b))) by lia.
  simpl orb. cbv iota. rewrite save_old_contents by (simpl; lia). done.
Qed.

Lemma recovered_lost b n :
  0 <= n < 4294967296 - 12 -> size b < start b -> recovered b n = Some None.
Proof.
  intros Hn E. unfold recovered. destruct (init_found b n boot true) as (c & -> & ->); [lia|].
  rewrite (proj2 (Z.ltb_lt (size b) (start b))), orb_true_r by lia. by destruct (_ =? _).
Qed.

Lemma recovered_ring b n : ring b n -> recovered b n = Some (Some (contents b)).
Proof. intros []. by apply recovered_valid. Qed.

Lemma stores_app b l1 l2 : stores b (l1 ++ l2) = b1 ← stores b l1; stores b1 l2.
Proof. revert b. induction l1 as [|x l1 IH]; intros b; simpl; [done|]. destruct (apply_store b x); simpl; auto. Qed.

Lemma stores_memcpy b off s d :
  mem_write (data b) off s = Some d -> stores b (memcpy_stores off s) = Some (set_data b d).
Proof.
  revert b off. induction s as [|x s IH]; intros b off H; simpl.
  - unfold mem_write in H. case_bool_decide; simplify_eq. simpl.
    rewrite Nat.add_0_r, take_drop. by destruct b.
  - destruct (mem_write (data b) off [x]) as [d1|] eqn:E; simpl.
    + pose proof (mem_write_app _ _ _ _ s E) as H1. simpl in H1. rewrite H in H1.
      rewrite (IH (set_data b d1) (off + 1)) by done. done.
    + exfalso. unfold mem_write in E, H. repeat case_bool_decide; simplify_eq. simpl in *. lia.
Qed.

Lemma memcpy_stores_take off s k : take k (memcpy_stores off s) = memcpy_stores off (take k s).
Proof. revert off k. induction s as [|x s IH]; intros off [|k]; simpl; [done..|]. by rewrite IH. Qed.

Lemma memcpy_stores_length off s : length (memcpy_stores off s) = length s.
Proof. revert off. induction s; intros; simpl; auto. Qed.

Lemma stores_filled b n s :
  ring b n -> start b + Zlen s <= n -> stores b (memcpy_stores (start b) s) = Some (filled b s).
Proof. intros R F. apply stores_memcpy. destruct R. rewrite mem_write_Some by lia. done. Qed.

(** The first [k] stores of a copy at the start, or all of them and [k] of the
    rest. *)
Lemma stores_copy_prefix b n s rest k :
  ring b n -> start b + Zlen s <= n ->
  stores b (take k (memcpy_stores (start b) s ++ rest)) =
    if decide (k <= length s)%nat then Some (filled b (take k s)) else stores (filled b s) (take (k - length s) rest).
Proof.
  intros R F. rewrite take_app, memcpy_stores_take, memcpy_stores_length. destruct (decide _).
  - replace (k - length s)%nat with 0%nat by lia. rewrite take_0, app_nil_r.
    apply (stores_filled b n); [done|]. rewrite length_take. lia.
  - rewrite (take_ge s) by lia. rewrite stores_app, (stores_filled b n) by done. done.
Qed.

Lemma filled_survives b n t k :
  ring b n -> start b + Zlen t <= n -> survives (filled b (take k t)) n (contents b) t.
Proof.
  intros R F. assert (start b + Zlen (take k t) <= n) as F1 by (rewrite length_take; lia).
  pose proof (filled_fits b n _ R F1) as P. pose proof (ring_contents_length b n R) as L.
  assert (recovered (filled b (take k t)) n = Some (Some (contents (filled b (take k t))))) as E.
  { destruct R. apply recovered_valid; simpl; rewrite ?put_length by done; lia || done. }
  rewrite (contents_filled b n) in E by done. destruct (Z.ltb_spec (size b) n) as [S|S].
  - exists 0%nat, 0%nat. split; [lia|]. split; [by left|]. rewrite E. do 2 f_equal.
    unfold torn. simpl. rewrite take_0, app_nil_r, last_n_short by (destruct R; lia). done.
  - exists 0%nat, (length (take k t)). split; [rewrite length_take; lia|].
    split; [right; rewrite take_0, app_nil_r; lia|]. rewrite E. do 2 f_equal.
    unfold torn. simpl. rewrite take_0, app_nil_r, last_n_short by (destruct R; lia). f_equal.
    rewrite drop_0, length_take. destruct (decide (k <= length t)%nat); [by rewrite Nat.min_l by lia|].
    by rewrite Nat.min_r, !take_ge by lia.
Qed.

Lemma complete_survives b n l t : ring b n -> contents b = last_n n (l ++ t) -> survives b n l t.
Proof.
  intros R E. exists (length t), 0%nat. split; [lia|]. split; [by left|]. rewrite recovered_ring by done.
  unfold torn. by rewrite take_0, drop_0, (take_ge t), E by lia.
Qed.

(** The stores of a copy that does not wrap: the copy, the start, the size. *)
Definition advance_stores (first used n : Z) (t : list Z) : list store :=
  memcpy_stores first t ++ [Start (first + Zlen t)] ++ (if used <? n then [Size (used + Zlen t)] else []).

(** Between the stores of the start and of the size of a log that is not full
    the header is not valid. *)
Definition window (b : ram_console_buffer) (n : Z) (t : list Z) (k : nat) : Prop :=
  size b < n /\ start b + Zlen t <= n /\ t <> [] /\ k = S (length t).

Lemma advance_survives b n t k :
  ring b n -> start b + Zlen t <= n ->
  exists b', stores b (take k (advance_stores (start b) (size b) n t)) = Some b' /\
    (window b n t k /\ recovered b' n = Some None \/ ~ window b n t k /\ survives b' n (contents b) t).
Proof.
  intros R F. unfold advance_stores. rewrite (stores_copy_prefix b n) by done.
  destruct (decide (k <= length t)%nat) as [K|K].
  { eexists. split; [done|]. right. split; [|by apply filled_survives]. unfold window. lia. }
  pose proof (advanced_ring b n t R F) as R1. pose proof (advanced_contents b n t R F) as C1.
  destruct (Z.ltb_spec (size b) n) as [S|S]; cycle 1.
  { exists (advanced b n t). split; [|right; split; [unfold window; lia|by apply complete_survives]].
    rewrite take_ge by (simpl; lia). unfold advanced. by rewrite (proj2 (Z.ltb_ge _ _) S). }
  destruct (decide (k = Datatypes.S (length t))) as [K1|K1]; cycle 1.
  { exists (advanced b n t). split; [|right; split; [unfold window; lia|by apply complete_survives]].
    rewrite take_ge by (simpl; lia). unfold advanced. by rewrite (proj2 (Z.ltb_lt _ _) S). }
  replace (k - length t)%nat with 1%nat by lia. eexists. split; [done|].
  destruct t as [|x t']; [right|left].
  - split; [unfold window; naive_solver|]. simpl in *.
    replace (set_start _ _) with (filled b (take 0 [])); [by apply filled_survives|].
    destruct b; simpl. unfold filled, set_start, set_data. simpl. f_equal. lia.
  - split; [unfold window; naive_solver|]. apply recovered_lost; [destruct R; lia|].
    simpl. rewrite (ring_full _ _ R S). simpl in *. lia.
Qed.

(** A write is a copy to the end of the data, if it does not fit, and a copy
    that fits. *)
Lemma write_stores_cases b n s :
  ring b n ->
  let t := kept n s in
  let rem := Z.to_nat (n - start b) in
  write_stores (start b) (size b) n s =
    if n - start b <? Zlen t
    then memcpy_stores (start b) (take rem t) ++ [Start 0; Size n] ++ advance_stores 0 n n (drop rem t)
    else advance_stores (start b) (size b) n t.
Proof.
  intros R t rem. pose proof (kept_length n s ltac:(destruct R; lia)) as L. fold t in L.
  unfold write_stores. fold (kept n s). fold t. rewrite (u32_small (n - start b)) by (destruct R; lia). fold rem.
  destruct (Z.ltb_spec (n - start b) (Zlen t)) as [E|E]; unfold advance_stores.
  - rewrite u32_small by (rewrite length_drop; destruct R; lia). rewrite Z.ltb_irrefl, <- app_assoc. done.
  - destruct (Z.ltb_spec (size b) n); simpl; by rewrite !u32_small by (destruct R; lia).
Qed.

Lemma torn_later n l t1 t2 i j :
  0 <= n -> torn n (last_n n (l ++ t1)) t2 i j = torn n l (t1 ++ t2) (length t1 + i) j.
Proof.
  intros. unfold torn. rewrite last_n_last, <- app_assoc by done.
  rewrite drop_app_ge, take_app_ge by lia. by rewrite Nat.add_comm, Nat.add_sub.
Qed.

Lemma survives_later b n l t1 t2 :
  0 <= n -> survives b n (last_n n (l ++ t1)) t2 -> survives b n l (t1 ++ t2).
Proof.
  intros Hn (i & j & H1 & H2 & H3). exists (length t1 + i)%nat, j. rewrite length_app. split; [lia|].
  split; [|by rewrite H3, torn_later]. destruct H2 as [->|H2]; [by left|]. right.
  rewrite take_app_ge by lia. replace (length t1 + i - length t1)%nat with i by lia.
  rewrite app_assoc, length_app. rewrite length_app in H2. pose proof (last_n_length n (l ++ t1)). lia.
Qed.

Lemma survives_earlier b n l t1 t2 : survives b n l t1 -> survives b n l (t1 ++ t2).
Proof.
  intros (i & j & H1 & H2 & H3). exists i, j. rewrite length_app. split; [lia|].
  unfold torn in *. rewrite take_app_le, drop_app_le, take_app_le by (rewrite ?length_drop; lia). done.
Qed.

Lemma wrap_survives b n t k :
  ring b n -> start b + Zlen t = n -> (k <= length t + 2)%nat ->
  exists b', stores b (take k (memcpy_stores (start b) t ++ [Start 0; Size n])) = Some b' /\
    survives b' n (contents b) t.
Proof.
  intros R F K. rewrite (stores_copy_prefix b n) by (done || lia). destruct (decide _) as [K1|K1].
  { eexists. split; [done|]. apply filled_survives; [done|lia]. }
  pose proof (wrapped_ring b n t R ltac:(lia)) as R1. pose proof (wrapped_contents b n t R ltac:(lia) F) as C1.
  destruct (decide (k = S (length t))) as [K2|K2]; cycle 1.
  { exists (wrapped b n t). split; [by rewrite take_ge by (simpl; lia)|by apply complete_survives]. }
  replace (k - length t)%nat with 1%nat by lia. eexists. split; [done|].
  destruct (decide (size b = n)) as [S|S].
  - replace (set_start _ _) with (wrapped b n t); [by apply complete_survives|]. by rewrite <- S at 1.
  - pose proof (filled_fits b n t R ltac:(lia)) as P. pose proof (ring_contents_length b n R) as L.
    exists 0%nat, 0%nat. split; [lia|]. split; [by left|].
    rewrite recovered_valid by (destruct R; simpl; rewrite ?put_length by done; lia || done).
    unfold torn. rewrite !take_0, app_nil_r, last_n_short by (destruct R; lia). do 2 f_equal. simpl.
    rewrite (contents_short b n) by (done || (destruct R; lia)). unfold contents. simpl.
    rewrite app_nil_r, <- (ring_full _ _ R) by (destruct R; lia). rewrite drop_0, take_put; [done|lia].
Qed.

Lemma stores_prefix_app b l1 l2 k :
  stores b (take k (l1 ++ l2)) =
    if decide (k <= length l1)%nat then stores b (take k l1)
    else b1 ← stores b l1; stores b1 (take (k - length l1) l2).
Proof.
  rewrite take_app. destruct (decide _).
  - replace (k - length l1)%nat with 0%nat by lia. by rewrite take_0, app_nil_r.
  - rewrite (take_ge l1) by lia. by rewrite stores_app.
Qed.

Lemma write_stores_survives b n s k :
  ring b n ->
  exists b', stores b (take k (write_stores (start b) (size b) n s)) = Some b' /\
    (window b n (kept n s) k /\ recovered b' n = Some None \/
     ~ window b n (kept n s) k /\ survives b' n (contents b) (kept n s)).
Proof.
  intros R. rewrite write_stores_cases by done. cbv zeta.
  pose proof (kept_length n s ltac:(destruct R; lia)) as L. set (t := kept n s) in *. clearbody t.
  remember (Z.to_nat (n - start b)) as rem eqn:Er.
  destruct (Z.ltb_spec (n - start b) (Zlen t)) as [E|E]; [|by apply advance_survives; [|lia]].
  assert (~ window b n t k) as NW by (unfold window; lia).
  assert (start b + Zlen (take rem t) = n) as F by (rewrite length_take; destruct R; lia).
  rewrite app_assoc, stores_prefix_app, length_app, memcpy_stores_length.
  destruct (decide _) as [K|K].
  { destruct (wrap_survives b n (take rem t) k R F K) as (b' & H & S). exists b'. split; [done|].
    right. split; [done|]. rewrite <- (take_drop rem t). by apply survives_earlier. }
  assert (stores b (memcpy_stores (start b) (take rem t) ++ [Start 0; Size n]) = Some (wrapped b n (take rem t))) as ->.
  { rewrite stores_app, (stores_filled b n) by (done || lia). done. }
  pose proof (wrapped_ring b n (take rem t) R ltac:(lia)) as R1.
  destruct (advance_survives (wrapped b n (take rem t)) n (drop rem t) (k - (length (take rem t) + 2)) R1)
    as (b' & H & S); [simpl; rewrite length_drop; lia|].
  exists b'. split; [exact H|]. right. split; [done|].
  rewrite <- (take_drop rem t). apply survives_later; [lia|].
  rewrite <- (wrapped_contents b n) by (done || lia). destruct S as [[W _]|[_ S]]; [|done].
  unfold window in W. simpl in W. lia.
Qed.

Lemma write_stores_all b n s :
  ring b n -> stores b (write_stores (start b) (size b) n s) = ram_console_write b n s.
Proof.
  intros R. rewrite write_stores_cases, ram_console_write_cases by done. cbv zeta.
  pose proof (kept_length n s ltac:(destruct R; lia)) as L. set (t := kept n s) in *. clearbody t.
  assert (forall b t, ring b n -> start b + Zlen t <= n ->
    stores b (advance_stores (start b) (size b) n t) = Some (advanced b n t)) as A.
  { clear. intros b t R F. unfold advance_stores. rewrite stores_app, (stores_filled b n) by done.
    unfold advanced. by destruct (size b <? n). }
  destruct (Z.ltb_spec (n - start b) (Zlen t)) as [E|E]; [|by apply A; [|lia]].
  assert (start b + Zlen (take (Z.to_nat (n - start b)) t) <= n) by (rewrite length_take; destruct R; lia).
  rewrite !stores_app, (stores_filled b n) by done.
  apply (A (wrapped b n (take (Z.to_nat (n - start b)) t))); [by apply wrapped_ring|].
  simpl. rewrite length_drop. lia.
Qed.

(** ** From one start to the next *)

Inductive event :=
| Write (s : list Z)
| Enable (on : bool).

Definition exec (c : console) (e : event) : option console :=
  match e with
  | Write s => call_console c s
  | Enable on => Some (ram_console_enable_console c on)
  end.

Fixpoint run (c : console) (l : list event) : option console :=
  match l with
  | [] => Some c
  | e :: l => c ← exec c e; run c l
  end.

(** The text written while the console is on. *)
Fixpoint written (on : bool) (l : list event) : list Z :=
  match l with
  | [] => []
  | Write s :: l => (if on then s else []) ++ written on l
  | Enable on :: l => written on l
  end.

(** A program that reads the file with buffers of these sizes. *)
Fixpoint cat (c : console) (lens : list Z) (offset : Z) : option (list Z) :=
  match lens with
  | [] => Some []
  | len :: lens =>
      '(d, offset, ret) ← ram_console_read_old c {| ud_ok := true; ud_room := len |} len offset;
      rest ← cat c lens offset;
      Some (d ++ rest)
  end.

Lemma run_spec l c n :
  registered c = true -> buffer_size c = n -> ring (buffer c) n ->
  exists c', run c l = Some c' /\ ring (buffer c') n /\
    contents (buffer c') = last_n n (contents (buffer c) ++ written (enabled c) l).
Proof.
  revert c. induction l as [|[s|on] l IH]; intros c Hr Hn R; simpl.
  - exists c. split; [done|]. split; [done|]. rewrite app_nil_r, last_n_short; [done|].
    rewrite (ring_contents_length _ n) by done. destruct R; lia.
  - unfold call_console. rewrite Hr. destruct (enabled c) eqn:E; simpl; [|by rewrite <- E; apply IH].
    rewrite Hn. destruct (ram_console_write_spec (buffer c) n s R) as (b & -> & R' & C). simpl.
    destruct (IH (set_buffer c b)) as (c' & Hc & Rc & Cc); [done..|]. exists c'. split; [done|]. split; [done|].
    rewrite Cc. simpl. rewrite C, E, last_n_last, <- app_assoc by (destruct R; lia). done.
  - by apply (IH (ram_console_enable_console c on)).
Qed.

Lemma read_old_spec c log u len offset :
  old_log c = Some log -> old_log_size c = Zlen log -> Zlen log < 4294967296 -> 0 <= len -> 0 <= offset ->
  ud_ok u = true -> len <= ud_room u ->
  let d := take (Z.to_nat len) (drop (Z.to_nat offset) log) in
  ram_console_read_old c u len offset = Some (d, offset + Zlen d, Zlen d).
Proof.
  intros E1 E2 E3 Hl Ho Hu Hr. cbv zeta. unfold ram_console_read_old. rewrite E1, E2.
  destruct (Z.leb_spec (Zlen log) offset).
  - rewrite (drop_ge log), take_nil by lia. simpl. do 3 f_equal. lia.
  - rewrite u32_small by lia. simpl. rewrite mem_read_Some by lia. simpl.
    set (d := drop (Z.to_nat offset) log). assert (Zlen d = Zlen log - offset) by (unfold d; rewrite length_drop; lia).
    replace (take (Z.to_nat (Z.min len (Zlen log - offset))) d) with (take (Z.to_nat len) d);
      [|destruct (decide (len <= Zlen log - offset)); [by rewrite Z.min_l|rewrite Z.min_r, !take_ge by lia; done]].
    assert (snd (copy_to_user u 0 (take (Z.to_nat len) d)) = 0) as S.
    { apply copy_to_user_left; [lia|]. right. split; [done|]. rewrite length_take. lia. }
    pose proof (copy_to_user_ok _ _ _ S) as O. destruct (copy_to_user _ _ _) as [x y]. simpl in S, O. subst x y. simpl.
    do 3 f_equal; rewrite length_take; lia.
Qed.

Lemma cat_spec c log lens offset :
  old_log c = Some log -> old_log_size c = Zlen log -> Zlen log < 4294967296 -> 0 <= offset ->
  Forall (fun len => 0 <= len) lens ->
  cat c lens offset = Some (take (Z.to_nat (foldr Z.add 0 lens)) (drop (Z.to_nat offset) log)).
Proof.
  intros E1 E2 E3. revert offset. induction lens as [|len lens IH]; intros offset Ho Hl; simpl; [done|].
  apply Forall_cons in Hl as [Hl Hs]. assert (0 <= foldr Z.add 0 lens) by (clear -Hs; induction Hs; simpl; lia).
  rewrite (read_old_spec c log) by (simpl; done || lia). simpl. rewrite IH by (done || lia). simpl. f_equal.
  set (d := drop (Z.to_nat offset) log).
  replace (Z.to_nat (len + foldr Z.add 0 lens)) with (Z.to_nat len + Z.to_nat (foldr Z.add 0%Z lens))%nat by lia.
  rewrite <- take_take_drop. f_equal.
  destruct (decide (Zlen d <= len)) as [D|D].
  - rewrite (take_ge d), (drop_ge d), take_nil by lia. rewrite drop_ge, take_nil; [done|].
    unfold d. rewrite length_drop. lia.
  - rewrite length_take, Nat.min_l by lia. unfold d. rewrite drop_drop. do 2 f_equal. lia.
Qed.

Lemma init_ring c b n memory c' :
  0 <= n < 4294967296 - 12 -> Zlen (data b) = n -> 0 <= start b -> 0 <= size b ->
  ram_console_init c b (n + 12) memory = Some c' ->
  registered c' = true /\ buffer_size c' = n /\ enabled c' = enabled c /\
  ring (buffer c') n /\ contents (buffer c') = [].
Proof.
  intros Hn Hd Hs1 Hs2. destruct (init_found b n c memory Hn) as (c0 & -> & E0). intros H.
  apply bind_Some in H as (c1 & H1 & [= <-]).
  assert (buffer_size c1 = n /\ enabled c1 = enabled c /\ data (buffer c1) = data b) as (E1 & E2 & E3).
  { unfold ram_console_save_old in H1. subst c0.
    destruct (_ =? _); [destruct (_ || _); [|destruct (negb memory)]|]; follow; done. }
  simpl. rewrite E3. repeat split; simpl; lia || done.
Qed.

(** Whether a start takes over what is in the memory. *)
Definition valid (b : ram_console_buffer) (n : Z) : bool :=
  (sig b =? RAM_CONSOLE_SIG) && (size b <=? n) && (start b <=? size b).

Lemma init_total c b n memory :
  0 <= n < 4294967296 - 12 -> Zlen (data b) = n -> 0 <= start b -> 0 <= size b ->
  exists c', ram_console_init c b (n + 12) memory = Some c' /\
    old_log c' = (if valid b n && memory then Some (contents b) else old_log c) /\
    old_log_size c' = (if valid b n && memory then size b else old_log_size c).
Proof.
  intros Hn Hd Hs1 Hs2. destruct (init_found b n c memory Hn) as (c0 & -> & ->). unfold valid.
  destruct (sig b =? RAM_CONSOLE_SIG); simpl; [|by eexists].
  destruct (Z.ltb_spec n (size b)), (Z.leb_spec (size b) n); try lia; simpl; [by eexists|].
  destruct (Z.ltb_spec (size b) (start b)), (Z.leb_spec (start b) (size b)); try lia; simpl; [by eexists|].
  destruct memory; [|by eexists]. rewrite save_old_contents by (simpl; lia). by eexists.
Qed.

(** Whatever the memory holds when the kernel starts, the probe of the
    RAM console stays inside it: it takes over a log exactly when the header is
    valid and memory for the copy is found, and that log is the text in the
    ring; a console it registers has an empty ring of the size of the memory
    without the header, and one it does not register is never written. *)
Lemma ram_console_probe_safe first last flags num_resources b memory :
  0 <= first <= last -> last < 4294967296 -> 0 <= start b -> 0 <= size b ->
  Zlen (data b) = Z.max 0 (last - first + 1 - 12) ->
  exists c ret, ram_console_driver_probe boot (Some (first, last, flags)) num_resources (Some b) memory = Some (c, ret) /\
    (registered c = true -> ring (buffer c) (Zlen (data b)) /\ buffer_size c = Zlen (data b) /\ contents (buffer c) = []) /\
    (forall log, old_log c = Some log <->
       registered c = true /\ memory = true /\ valid b (Zlen (data b)) = true /\ log = contents b) /\
    (registered c = false -> forall s, call_console c s = Some c).
Proof.
  intros H1 H2 H3 H4 H5. unfold ram_console_driver_probe.
  destruct (_ || _); [by exists boot, (- ENXIO); repeat split; naive_solver|]. cbv zeta beta iota.
  destruct (decide (12 <= last - first + 1 < 4294967296)) as [S|S].
  - rewrite (u32_small (last - first)), (u32_small (last - first + 1)) by lia.
    replace (last - first + 1) with (Zlen (data b) + 12) by lia.
    destruct (init_total boot b (Zlen (data b)) memory) as (c & E & O & _); [lia..|]. rewrite E.
    destruct (init_ring boot b (Zlen (data b)) memory c) as (Er & En & _ & R & C); [lia|done..|].
    exists c, 0. split; [done|]. rewrite O, Er. split; [done|].
    split; [|done]. intros log. destruct (valid _ _), memory; simpl; naive_solver.
  - set (z := u32 (u32 (last - first) + 1)). assert (0 <= z < 12) as Z.
    { unfold z. rewrite (u32_small (last - first)) by lia. destruct (decide (last - first + 1 = 4294967296)) as [-> |].
      - done. 
      - rewrite u32_small by lia. lia. }
    clearbody z. unfold ram_console_init.
    assert (u32 (z - 12) = z - 12 + 4294967296) as -> by (unfold u32; rewrite <- (Z_mod_plus_full _ 1), Z.mod_small by lia; lia).
    rewrite (proj2 (Z.ltb_lt z (z - 12 + 4294967296))) by lia. simpl.
    eexists _, 0. split; [done|]. simpl. naive_solver.
Qed.

(** C10. What is written while the console is on is in last_kmsg after a
    restart, up to the size of the memory: whatever the memory held at the
    first start, and however the text is split into writes, the second start
    recovers exactly the last bytes of it, and a program that reads the file
    with buffers of any sizes gets them in order. *)
Theorem ram_console_keeps_log b n memory l lens :
  0 <= n < 4294967296 - 12 -> Zlen (data b) = n -> 0 <= start b -> 0 <= size b ->
  Forall (fun len => 0 <= len) lens ->
  exists c1 c2 c3,
    ram_console_init boot b (n + 12) memory = Some c1 /\ run c1 l = Some c2 /\
    ram_console_init boot (buffer c2) (n + 12) true = Some c3 /\
    let log := last_n n (written true l) in
    let c := ram_console_late_init c3 true in
    last_kmsg c = Some (Zlen log) /\ cat c lens 0 = Some (take (Z.to_nat (foldr Z.add 0 lens)) log).
Proof.
  intros Hn Hd H1 H2 Hl. destruct (init_total boot b n memory) as (c1 & E1 & _); [done..|].
  destruct (init_ring _ _ _ _ _ Hn Hd H1 H2 E1) as (Er & En & Ee & R1 & C1).
  destruct (run_spec l c1 n) as (c2 & E2 & R2 & C2); [done..|]. rewrite C1, Ee in C2. simpl in C2.
  pose proof (ring_contents_length _ _ R2) as L2.
  destruct (init_total boot (buffer c2) n true) as (c3 & E3 & O3 & S3); [destruct R2; lia || done..|].
  exists c1, c2, c3. do 3 (split; [done|]). cbv zeta.
  assert (valid (buffer c2) n = true) as V.
  { destruct R2. unfold valid. rewrite ring_sig0, Z.eqb_refl, !(proj2 (Z.leb_le _ _)) by lia. done. }
  rewrite V in O3, S3. simpl in O3, S3. unfold ram_console_late_init. rewrite O3, <- C2. split; [simpl; congruence|].
  rewrite (cat_spec _ (contents (buffer c2))); simpl; try done; [congruence|]. destruct R2. lia.
Qed.

Lemma ram_console_keeps_log_witness :
  exists c1 c2 c3,
    ram_console_init boot (mk_buffer 77 99 1 [0; 0; 0; 0]) 16 false = Some c1 /\
    run c1 [Write [1; 2; 3]; Enable false; Write [9]; Enable true; Write [4; 5]] = Some c2 /\
    ram_console_init boot (buffer c2) 16 true = Some c3 /\
    cat (ram_console_late_init c3 true) [3; 0; 7] 0 = Some [2; 3; 4; 5].
Proof.
  destruct (ram_console_keeps_log (mk_buffer 77 99 1 [0; 0; 0; 0]) 4 false
    [Write [1; 2; 3]; Enable false; Write [9]; Enable true; Write [4; 5]] [3; 0; 7])
    as (c1 & c2 & c3 & H1 & H2 & H3 & _ & H4);
    [lia|reflexivity|simpl; lia|simpl; lia|repeat constructor; lia|].
  exists c1, c2, c3. split; [exact H1|]. split; [exact H2|]. split; [exact H3|]. exact H4.
Defined.

(** C11. A reset in the middle of a write: stopping after any number of the
    stores of ram_console_write(), the next start recovers the log with a part
    of the new text, of which at most the oldest bytes of a full log are
    overwritten by the text that follows; except in the moment between the
    stores of the start and of the size of a log that is not full, when the
    whole log is lost. *)
Theorem ram_console_reset_in_write b n s :
  ring b n ->
  stores b (write_stores (start b) (size b) n s) = ram_console_write b n s /\
  forall k, exists b', stores b (take k (write_stores (start b) (size b) n s)) = Some b' /\
    (window b n (kept n s) k /\ recovered b' n = Some None \/
     ~ window b n (kept n s) k /\ survives b' n (contents b) (kept n s)).
Proof.
  intros R. split; [by apply write_stores_all|]. intros k. by apply write_stores_survives.
Qed.

(** A log with one byte and a write of two: a reset after three of the four
    stores loses the log, one after two does not. *)
Lemma ram_console_reset_in_write_witness :
  let b := mk_buffer RAM_CONSOLE_SIG 1 1 [1; 0; 0; 0] in
  (exists b', stores b (take 3 (write_stores 1 1 4 [2; 3])) = Some b' /\ recovered b' 4 = Some None) /\
  exists b', stores b (take 2 (write_stores 1 1 4 [2; 3])) = Some b' /\ survives b' 4 [1] [2; 3].
Proof.
  cbv zeta.
  assert (ring (mk_buffer RAM_CONSOLE_SIG 1 1 [1; 0; 0; 0]) 4) as R by (constructor; simpl; lia || reflexivity).
  destruct (ram_console_reset_in_write (mk_buffer RAM_CONSOLE_SIG 1 1 [1; 0; 0; 0]) 4 [2; 3] R) as [_ H]. split.
  - destruct (H 3%nat) as (b' & E & [[_ L]|[N _]]); [exists b'; split; [exact E|exact L]|].
    exfalso. apply N. split; [simpl; lia|]. split; [simpl; lia|]. split; [discriminate|reflexivity].
  - destruct (H 2%nat) as (b' & E & [[W _]|[_ S]]); [|exists b'; split; [exact E|exact S]].
    destruct W as (_ & _ & _ & W). simpl in W. lia.
Defined.

End RamConsole.
