(* ===== verification/LowMem.v ===== *)
(** The low memory killer, drivers/staging/android/lowmemorykiller.c: a
    shrinker that kills the process that matters least when little memory is
    left, and waits until it is gone before it kills another.

    lowmem_shrink() runs in any context that needs memory, and is split where
    others can run: the test of lowmem_deathpending, the walk along the
    processes under tasklist_lock, the critical section of
    lowmem_deathpending_lock.  The oom_adj and the size of a process can change
    at any time; what the walk sees is an argument.  Tasks are their
    addresses, which are used again.  The chain of notifiers called when a task
    is freed is a list; to register a block that is on it, which makes the
    list a cycle, is [None].  The work item runs in one worker thread. *)

From S2P Require Import Prelude.
From Stdlib Require Import Sorted.
Local Open Scope Z_scope.
Local Open Scope kernel_scope.

Module LowMem.

(** ** Data *)

Definition OOM_ADJUST_MAX : Z := 15.

(** The module parameters. *)
Record params := mk_params {
  lowmem_adj : list Z;
  lowmem_adj_size : Z;
  lowmem_minfree : list Z;
  lowmem_minfree_size : Z
}.

Definition default_params : params :=
  mk_params [0; 1; 6; 12; 0; 0] 4 [3 * 512; 2 * 1024; 4 * 1024; 16 * 1024; 0; 0] 4.

(** The page counters of global_page_state(). *)
Record vm_stat := mk_vm_stat {
  NR_FILE_PAGES : Z;
  NR_ACTIVE_ANON : Z;
  NR_ACTIVE_FILE : Z;
  NR_INACTIVE_ANON : Z;
  NR_INACTIVE_FILE : Z
}.

(** What the walk sees of a process: the file and anonymous pages of its
    memory, the oom_adj of its signal structure. *)
Record task := mk_task { mm : option (Z * Z); signal : option Z }.

(** A call of lowmem_shrink() after the first test and after the walk, in which
    it holds tasklist_lock. *)
Inductive phase :=
| Checked (min_adj rem : Z)
| Walked (selected : option (Z * Z * Z)) (rem : Z).

Inductive work_phase := Idle | Started | Unregistered.

#[export] Instance work_phase_eq_dec : EqDecision work_phase.
Proof. solve_decision. Defined.

(** [processes] is the list of for_each_process(), [released] the tasks that
    are off it and not freed, [dying] those SIGKILL was sent to that are not
    freed. *)
Record lowmem := mk_lowmem {
  processes : list Z;
  released : list Z;
  lowmem_deathpending : option Z;
  task_free_notifier : list Z;
  work_pending : bool;
  worker : work_phase;
  calls : gmap Z phase;
  dying : list Z
}.

(** The address of the notifier block task_nb. *)
Definition task_nb : Z := 1.

Definition set_processes (st : lowmem) (l r : list Z) : lowmem :=
  mk_lowmem l r (lowmem_deathpending st) (task_free_notifier st) (work_pending st) (worker st) (calls st) (dying st).
Definition set_deathpending (st : lowmem) (p : option Z) : lowmem :=
  mk_lowmem (processes st) (released st) p (task_free_notifier st) (work_pending st) (worker st) (calls st) (dying st).
Definition set_notifier (st : lowmem) (c : list Z) : lowmem :=
  mk_lowmem (processes st) (released st) (lowmem_deathpending st) c (work_pending st) (worker st) (calls st) (dying st).
Definition set_work (st : lowmem) (p : bool) (w : work_phase) : lowmem :=
  mk_lowmem (processes st) (released st) (lowmem_deathpending st) (task_free_notifier st) p w (calls st) (dying st).
Definition set_dying (st : lowmem) (l : list Z) : lowmem :=
  mk_lowmem (processes st) (released st) (lowmem_deathpending st) (task_free_notifier st) (work_pending st) (worker st) (calls st) l.
Definition set_calls (st : lowmem) (c : gmap Z phase) : lowmem :=
  mk_lowmem (processes st) (released st) (lowmem_deathpending st) (task_free_notifier st) (work_pending st) (worker st) c (dying st).

(** ** The chain of notifiers *)

(** The blocks have the same priority, so a new one goes to the end. *)
Definition notifier_chain_register (chain : list Z) (n : Z) : option (list Z) :=
  if bool_decide (n ∈ chain) then None else Some (chain ++ [n]).

Fixpoint notifier_chain_unregister (chain : list Z) (n : Z) : list Z * Z :=
  match chain with
  | [] => ([], - ENOENT)
  | x :: chain =>
      if x =? n then (chain, 0) else let '(chain, ret) := notifier_chain_unregister chain n in (x :: chain, ret)
  end.

Definition task_free_register (st : lowmem) (n : Z) : option lowmem :=
  c ← notifier_chain_register (task_free_notifier st) n; Some (set_notifier st c).

Definition task_free_unregister (st : lowmem) (n : Z) : lowmem :=
  set_notifier st (notifier_chain_unregister (task_free_notifier st) n).1.

Definition force_sig_kill (st : lowmem) (p : Z) : lowmem := set_dying st (dying st ++ [p]).

(** ** lowmem_shrink() *)

Definition global_page_state_lru (m : vm_stat) : Z :=
  s32 (NR_ACTIVE_ANON m + NR_ACTIVE_FILE m + NR_INACTIVE_ANON m + NR_INACTIVE_FILE m).

Fixpoint min_adj_loop (n : nat) (other_file : Z) (minfree adj : list Z) : Z :=
  match n, minfree, adj with
  | S n, m :: minfree, a :: adj => if u32 other_file <? m then a else min_adj_loop n other_file minfree adj
  | _, _, _ => OOM_ADJUST_MAX + 1
  end.

Definition array_size (c : params) : Z :=
  let array_size := 6 in
  let array_size := if lowmem_adj_size c <? array_size then lowmem_adj_size c else array_size in
  if lowmem_minfree_size c <? array_size then lowmem_minfree_size c else array_size.

(** The part before tasklist_lock is taken: what is returned, or the smallest
    oom_adj to kill and the number of pages. *)
Definition shrink_check (st : lowmem) (c : params) (m : vm_stat) (nr_to_scan : Z) : Z + Z * Z :=
  match lowmem_deathpending st with
  | Some _ => inl 0
  | None =>
      let other_file := s32 (NR_FILE_PAGES m) in
      let min_adj := min_adj_loop (Z.to_nat (array_size c)) other_file (lowmem_minfree c) (lowmem_adj c) in
      let rem := global_page_state_lru m in
      if (nr_to_scan <=? 0) || (min_adj =? OOM_ADJUST_MAX + 1) then inl rem else inr (min_adj, rem)
  end.

Definition get_mm_rss (mm : Z * Z) : Z := u32 (mm.1 + mm.2).

(** One round of the walk; [selected] has the task, its size and oom_adj. *)
Definition visit (min_adj : Z) (selected : option (Z * Z * Z)) (e : Z * task) : option (Z * Z * Z) :=
  let '(p, t) := e in
  match mm t, signal t with
  | Some mm, Some oom_adj =>
      if oom_adj <? min_adj then selected
      else
        let tasksize := s32 (get_mm_rss mm) in
        if tasksize <=? 0 then selected
        else match selected with
             | Some (_, selected_tasksize, selected_oom_adj) =>
                 if oom_adj <? selected_oom_adj then selected
                 else if (oom_adj =? selected_oom_adj) && (tasksize <=? selected_tasksize) then selected
                 else Some (p, tasksize, oom_adj)
             | None => Some (p, tasksize, oom_adj)
             end
  | _, _ => selected
  end.

Definition walk (min_adj : Z) (l : list (Z * task)) : option (Z * Z * Z) := foldl (visit min_adj) None l.

(** The critical section, and what is returned. *)
Definition shrink_kill (st : lowmem) (selected : option (Z * Z * Z)) (rem : Z) : option (lowmem * Z) :=
  match selected with
  | None => Some (st, rem)
  | Some (p, tasksize, _) =>
      match lowmem_deathpending st with
      | Some _ => Some (st, rem)
      | None =>
          let st := set_deathpending st (Some p) in
          st ← task_free_register st task_nb;
          Some (force_sig_kill st p, s32 (rem - tasksize))
      end
  end.

(** The whole function when nothing else runs; [seen] is what it sees of each
    process. *)
Definition lowmem_shrink (st : lowmem) (c : params) (m : vm_stat) (nr_to_scan : Z) (seen : Z -> task) : option (lowmem * Z) :=
  match shrink_check st c m nr_to_scan with
  | inl ret => Some (st, ret)
  | inr (min_adj, rem) => shrink_kill st (walk min_adj (map (fun p => (p, seen p)) (processes st))) rem
  end.

(** ** The end of a task *)

(** schedule_work() of a work item that is queued does nothing. *)
Definition schedule_work (st : lowmem) : lowmem := set_work st true (worker st).

Definition task_notify_func (st : lowmem) (task : Z) : lowmem :=
  if bool_decide (lowmem_deathpending st = Some task) then schedule_work st else st.

(** __put_task_struct(): the other blocks of the chain do nothing here. *)
Definition put_task_struct (st : lowmem) (p : Z) : lowmem :=
  let st := if bool_decide (task_nb ∈ task_free_notifier st) then task_notify_func st p else st in
  let st := set_dying st (filter (fun q => q <> p) (dying st)) in
  set_processes st (processes st) (filter (fun q => q <> p) (released st)).

(** task_free_fn() in two parts: others run while it waits in
    task_free_unregister(). *)
Definition task_free_fn_unregister (st : lowmem) : lowmem := task_free_unregister st task_nb.
Definition task_free_fn_clear (st : lowmem) : lowmem := set_deathpending st None.

(** ** Steps *)

Inductive event :=
| Fork (p : Z)
| Release (p : Z)
| Free (p : Z)
| ShrinkCheck (w : Z) (c : params) (m : vm_stat) (nr_to_scan : Z)
| ShrinkWalk (w : Z) (seen : Z -> task)
| ShrinkKill (w : Z)
| WorkStart
| WorkUnregister
| WorkClear.

Definition is_walked (ph : phase) : bool := match ph with Walked _ _ => true | _ => false end.

(** Whether some call holds tasklist_lock. *)
Definition tasklist_held (st : lowmem) : bool := existsb (fun x => is_walked x.2) (map_to_list (calls st)).

(** When an event can happen: the processes change only when nobody holds
    tasklist_lock, a new task has an address that is free, and the worker runs
    one work item at a time. *)
Definition enabled (st : lowmem) (e : event) : bool :=
  match e with
  | Fork p => negb (tasklist_held st) && negb (bool_decide (p ∈ processes st ++ released st))
  | Release p => negb (tasklist_held st) && bool_decide (p ∈ processes st)
  | Free p => bool_decide (p ∈ released st)
  | ShrinkCheck w _ _ _ => match calls st !! w with None => true | _ => false end
  | ShrinkWalk w _ => match calls st !! w with Some (Checked _ _) => true | _ => false end
  | ShrinkKill w => match calls st !! w with Some (Walked _ _) => true | _ => false end
  | WorkStart => work_pending st && bool_decide (worker st = Idle)
  | WorkUnregister => bool_decide (worker st = Started)
  | WorkClear => bool_decide (worker st = Unregistered)
  end.

Definition exec (st : lowmem) (e : event) : option lowmem :=
  match e with
  | Fork p => Some (set_processes st (processes st ++ [p]) (released st))
  | Release p => Some (set_processes st (filter (fun q => q <> p) (processes st)) (p :: released st))
  | Free p => Some (put_task_struct st p)
  | ShrinkCheck w c m nr_to_scan =>
      match shrink_check st c m nr_to_scan with
      | inl _ => Some st
      | inr (min_adj, rem) => Some (set_calls st (<[w := Checked min_adj rem]> (calls st)))
      end
  | ShrinkWalk w seen =>
      match calls st !! w with
      | Some (Checked min_adj rem) =>
          Some (set_calls st (<[w := Walked (walk min_adj (map (fun p => (p, seen p)) (processes st))) rem]> (calls st)))
      | _ => Some st
      end
  | ShrinkKill w =>
      match calls st !! w with
      | Some (Walked selected rem) =>
          '(st, _) ← shrink_kill st selected rem; Some (set_calls st (delete w (calls st)))
      | _ => Some st
      end
  | WorkStart => Some (set_work st false Started)
  | WorkUnregister => Some (set_work (task_free_fn_unregister st) (work_pending st) Unregistered)
  | WorkClear => Some (set_work (task_free_fn_clear st) (work_pending st) Idle)
  end.

(** The start: some processes and some other notifiers. *)
Definition boot (procs chain : list Z) : lowmem := mk_lowmem procs [] None chain false Idle ∅ [].

(** No new task gets the address of one whose death is pending. *)
Definition fresh (st : lowmem) (e : event) : Prop :=
  match e with Fork p => lowmem_deathpending st <> Some p | _ => True end.

Inductive reachable (ok : lowmem -> event -> Prop) : lowmem -> Prop :=
| reach_boot procs chain : NoDup procs -> NoDup chain -> task_nb ∉ chain -> reachable ok (boot procs chain)
| reach_step st e st' : reachable ok st -> enabled st e = true -> ok st e -> exec st e = Some st' -> reachable ok st'.

(** ** The choice of the victim *)

(** A process the walk considers, with its oom_adj and size. *)
Definition candidate (min_adj : Z) (t : task) : option (Z * Z) :=
  mm ← mm t; adj ← signal t;
  if (min_adj <=? adj) && (0 <? s32 (get_mm_rss mm)) then Some (adj, s32 (get_mm_rss mm)) else None.

Definition key_le (a b : Z * Z) : Prop := a.1 < b.1 \/ a.1 = b.1 /\ a.2 <= b.2.
Definition key_lt (a b : Z * Z) : Prop := a.1 < b.1 \/ a.1 = b.1 /\ a.2 < b.2.

(** [p] with key [k] is the first of the candidates with the largest key. *)
Definition victim (min_adj : Z) (l : list (Z * task)) (p : Z) (k : Z * Z) : Prop :=
  exists l1 t l2, l = l1 ++ (p, t) :: l2 /\ candidate min_adj t = Some k /\
    (forall x k', x ∈ l1 -> candidate min_adj x.2 = Some k' -> key_lt k' k) /\
    (forall x k', x ∈ l2 -> candidate min_adj x.2 = Some k' -> key_le k' k).

Definition selection (min_adj : Z) (l : list (Z * task)) (sel : option (Z * Z * Z)) : Prop :=
  match sel with
  | None => forall x, x ∈ l -> candidate min_adj x.2 = None
  | Some (p, size, adj) => victim min_adj l p (adj, size)
  end.

Lemma visit_candidate min_adj sel p t :
  visit min_adj sel (p, t) =
    match candidate min_adj t with
    | None => sel
    | Some (adj, size) =>
        match sel with
        | Some (q, size0, adj0) =>
            if (adj <? adj0) || (adj =? adj0) && (size <=? size0) then sel else Some (p, size, adj)
        | None => Some (p, size, adj)
        end
    end.
Proof.
  unfold visit, candidate. destruct (mm t) as [m|], (signal t) as [adj|]; simpl; try done.
  rewrite (Z.leb_antisym adj min_adj), (Z.ltb_antisym (s32 (get_mm_rss m)) 0). destruct (adj <? min_adj), (s32 (get_mm_rss m) <=? 0); simpl; try done.
  destruct sel as [[[q size0] adj0]|]; [|done]. by destruct (adj <? adj0).
Qed.

Lemma visit_selection min_adj l sel p t :
  selection min_adj l sel -> selection min_adj (l ++ [(p, t)]) (visit min_adj sel (p, t)).
Proof.
  intros H. rewrite visit_candidate. destruct (candidate min_adj t) as [[adj size]|] eqn:C; cycle 1.
  - destruct sel as [[[q size0] adj0]|]; simpl in *.
    + destruct H as (l1 & t' & l2 & -> & H1 & H2 & H3). exists l1, t', (l2 ++ [(p, t)]).
      split; [by rewrite <- app_assoc|]. split; [done|]. split; [done|]. intros x k Hx. set_solver.
    + intros x. set_solver.
  - destruct sel as [[[q size0] adj0]|]; simpl in *.
    + destruct H as (l1 & t' & l2 & -> & H1 & H2 & H3).
      destruct ((adj <? adj0) || (adj =? adj0) && (size <=? size0)) eqn:E; simpl.
      * exists l1, t', (l2 ++ [(p, t)]). split; [by rewrite <- app_assoc|]. split; [done|]. split; [done|].
        intros x k [Hx| ->%list_elem_of_singleton]%elem_of_app Hk; [by eapply H3|]. simpl in Hk. simplify_eq.
        unfold key_le. simpl. lia.
      * exists (l1 ++ (q, t') :: l2), t, []. split; [done|]. split; [done|].
        split; [|intros x k Hx; by apply not_elem_of_nil in Hx].
        assert (key_lt (adj0, size0) (adj, size)) by (unfold key_lt; simpl; lia).
        intros x k [Hx|[-> |Hx]%elem_of_cons]%elem_of_app Hk; [|simpl in Hk; by simplify_eq|];
          [pose proof (H2 _ _ Hx Hk)|pose proof (H3 _ _ Hx Hk)]; unfold key_lt, key_le in *; simpl in *; lia.
    + exists l, t, []. split; [done|]. split; [done|]. split; [|intros x k Hx; by apply not_elem_of_nil in Hx].
      intros x k Hx Hk. by rewrite H in Hk.
Qed.

Lemma walk_selection min_adj l : selection min_adj l (walk min_adj l).
Proof.
  unfold walk. induction l as [|[p t] l IH] using rev_ind; simpl; [intros x Hx; by apply not_elem_of_nil in Hx|].
  rewrite foldl_snoc. by apply visit_selection.
Qed.

(** The thresholds as the documentation gives them: with ascending values of
    oom_adj, a process is considered when some threshold is not reached and
    its oom_adj is at least the one of that threshold. *)
Lemma min_adj_loop_spec n file minfree adj a :
  StronglySorted Z.le (take n adj) -> a <= OOM_ADJUST_MAX ->
  min_adj_loop n file minfree adj <= a <->
  exists i m b, (i < n)%nat /\ minfree !! i = Some m /\ adj !! i = Some b /\ u32 file < m /\ b <= a.
Proof.
  intros Hs Ha. revert minfree adj Hs. induction n as [|n IH]; intros minfree adj Hs; simpl.
  { split; [unfold OOM_ADJUST_MAX in *; lia|intros (i & ? & ? & ? & _); lia]. }
  destruct minfree as [|m minfree].
  { split; [unfold OOM_ADJUST_MAX in *; lia|intros (i & ? & ? & _ & H & _); done]. }
  destruct adj as [|b adj].
  { split; [unfold OOM_ADJUST_MAX in *; lia|intros (i & ? & ? & _ & _ & H & _); done]. }
  simpl in Hs. inversion Hs as [|? ? Hs' Hb]; subst. destruct (Z.ltb_spec (u32 file) m) as [E|E].
  - split; [intros Hle; exists 0%nat, m, b; naive_solver lia|].
    intros ([|i] & m' & b' & Hi & Hm & Hb' & Hf & Hle); [naive_solver|].
    simpl in Hb'. assert (b' ∈ take n adj) as Hin.
    { apply list_elem_of_lookup_2 with i. rewrite lookup_take_lt by lia. done. }
    rewrite Forall_forall in Hb. specialize (Hb b' Hin). lia.
  - rewrite IH by done. split.
    + intros (i & m' & b' & ? & ? & ? & ? & ?). exists (S i), m', b'. naive_solver lia.
    + intros ([|i] & m' & b' & ? & ? & ? & ? & ?); [naive_solver lia|]. exists i, m', b'. naive_solver lia.
Qed.

(** ** One death at a time *)

(** Where the death of a victim is: nobody is dying, the victim is there, it is
    freed and the work is queued, or the worker runs. *)
Definition stage (st : lowmem) : Prop :=
  match lowmem_deathpending st with
  | None => work_pending st = false /\ worker st = Idle /\ dying st = [] /\ task_nb ∉ task_free_notifier st
  | Some p =>
      if bool_decide (p ∈ processes st ++ released st)
      then work_pending st = false /\ worker st = Idle /\ dying st = [p] /\ task_nb ∈ task_free_notifier st
      else dying st = [] /\
        match worker st with
        | Idle => work_pending st = true /\ task_nb ∈ task_free_notifier st
        | Started => work_pending st = false /\ task_nb ∈ task_free_notifier st
        | Unregistered => work_pending st = false /\ task_nb ∉ task_free_notifier st
        end
  end.

Record lowmem_inv (st : lowmem) : Prop := {
  inv_tasks : NoDup (processes st ++ released st);
  inv_chain : NoDup (task_free_notifier st);
  inv_stage : stage st;
  inv_selected : forall w p size adj rem, calls st !! w = Some (Walked (Some (p, size, adj)) rem) -> p ∈ processes st
}.

Lemma notifier_chain_unregister_spec chain n :
  NoDup chain -> let c := (notifier_chain_unregister chain n).1 in NoDup c /\ (n ∉ c) /\ (c ⊆ chain).
Proof.
  cbv zeta. induction chain as [|x chain IH]; intros H; simpl; [set_solver|].
  apply NoDup_cons in H as [H1 H2]. specialize (IH H2). destruct (Z.eqb_spec x n) as [-> |E]; simpl; [set_solver|].
  destruct (notifier_chain_unregister chain n) as [c ret]. simpl in *. destruct IH as (I1 & I2 & I3).
  rewrite NoDup_cons. set_solver.
Qed.

Lemma notifier_chain_register_spec chain n :
  NoDup chain -> n ∉ chain ->
  notifier_chain_register chain n = Some (chain ++ [n]) /\ NoDup (chain ++ [n]) /\ n ∈ chain ++ [n].
Proof.
  intros H1 H2. unfold notifier_chain_register. rewrite bool_decide_eq_false_2 by done. split; [done|].
  split; [|set_solver]. apply NoDup_app. split; [done|]. split; [set_solver|]. apply NoDup_singleton.
Qed.

Lemma not_held st w sel rem : tasklist_held st = false -> calls st !! w <> Some (Walked sel rem).
Proof.
  intros H E. assert (tasklist_held st = true); [|congruence]. apply existsb_exists. exists (w, Walked sel rem).
  split; [|done]. apply list_elem_of_In. by apply elem_of_map_to_list.
Qed.

Lemma walked_in_processes min_adj st seen p size adj :
  walk min_adj (map (fun p => (p, seen p)) (processes st)) = Some (p, size, adj) -> p ∈ processes st.
Proof.
  intros E. pose proof (walk_selection min_adj (map (fun p => (p, seen p)) (processes st))) as H. rewrite E in H.
  destruct H as (l1 & t & l2 & H & _). assert ((p, t) ∈ map (fun p => (p, seen p)) (processes st)) as Hin.
  { rewrite H. set_solver. }
  apply list_elem_of_fmap in Hin as (q & [= -> _] & Hq). done.
Qed.

Lemma boot_inv procs chain : NoDup procs -> NoDup chain -> task_nb ∉ chain -> lowmem_inv (boot procs chain).
Proof.
  intros. constructor; simpl; [by rewrite app_nil_r|done|done|]. intros w p size adj rem. by rewrite lookup_empty.
Qed.

(** The steps that leave the victim alone keep its stage. *)
Lemma stage_frame st st' :
  lowmem_deathpending st' = lowmem_deathpending st -> work_pending st' = work_pending st -> worker st' = worker st ->
  dying st' = dying st -> task_free_notifier st' = task_free_notifier st ->
  (forall p, lowmem_deathpending st = Some p -> p ∈ processes st' ++ released st' <-> p ∈ processes st ++ released st) ->
  stage st -> stage st'.
Proof.
  intros E1 E2 E3 E4 E5 E6. unfold stage. rewrite E1, E2, E3, E4, E5.
  destruct (lowmem_deathpending st) as [p|]; [|done].
  by rewrite (bool_decide_ext _ _ (E6 p eq_refl)).
Qed.

Lemma fork_inv st p :
  lowmem_inv st -> enabled st (Fork p) = true -> lowmem_deathpending st <> Some p ->
  lowmem_inv (set_processes st (processes st ++ [p]) (released st)).
Proof.
  intros [I1 I2 I3 I4] [_ E]%andb_true_iff F. apply negb_true_iff, bool_decide_eq_false in E.
  constructor; simpl; [|done| |].
  - rewrite <- app_assoc, (Permutation_app_comm [p]), app_assoc. apply NoDup_app. split; [done|]. 
    split; [set_solver|apply NoDup_singleton].
  - eapply stage_frame; [..|done]; try done. intros q Hq. simpl. set_solver.
  - intros w q size adj rem Hw. specialize (I4 _ _ _ _ _ Hw). set_solver.
Qed.

Lemma release_inv st p :
  lowmem_inv st -> enabled st (Release p) = true ->
  lowmem_inv (set_processes st (filter (fun q => q <> p) (processes st)) (p :: released st)).
Proof.
  intros [I1 I2 I3 I4] [H E]%andb_true_iff. apply negb_true_iff in H. apply bool_decide_eq_true in E.
  apply NoDup_app in I1 as (N1 & N2 & N3). constructor; simpl; [|done| |].
  - apply NoDup_app. split; [by apply NoDup_filter|]. split; [intros x; rewrite list_elem_of_filter; set_solver|].
    apply NoDup_cons. split; [by apply N2|done].
  - eapply stage_frame; [..|done]; try done. intros q Hq. simpl.
    rewrite !elem_of_app, elem_of_cons, list_elem_of_filter. destruct (decide (q = p)) as [-> |]; naive_solver.
  - intros w q size adj rem Hw. exfalso. by eapply not_held.
Qed.

Lemma free_inv st p : lowmem_inv st -> enabled st (Free p) = true -> lowmem_inv (put_task_struct st p).
Proof.
  intros [I1 I2 I3 I4] E. apply bool_decide_eq_true in E. apply NoDup_app in I1 as (N1 & N2 & N3).
  assert (NoDup (processes st ++ filter (fun q => q <> p) (released st))) as N.
  { apply NoDup_app. split; [done|]. split; [intros x Hx; rewrite list_elem_of_filter; set_solver|by apply NoDup_filter]. }
  assert (p ∉ processes st ++ filter (fun q => q <> p) (released st)) as Np.
  { rewrite elem_of_app, list_elem_of_filter. set_solver. }
  pose proof I3 as I3'. unfold stage in I3. unfold put_task_struct, task_notify_func.
  destruct (lowmem_deathpending st) as [q|] eqn:D; cycle 1.
  { destruct I3 as (J1 & J2 & J3 & J4). rewrite bool_decide_eq_false_2 by done.
    constructor; simpl; [done|done| |done]. unfold stage. simpl. rewrite D. by rewrite J3. }
  destruct (decide (q = p)) as [-> |Q].
  - rewrite bool_decide_eq_true_2 in I3 by set_solver. destruct I3 as (J1 & J2 & J3 & J4).
    rewrite !bool_decide_eq_true_2 by done. constructor; simpl; [done|done| |done].
    unfold stage. simpl. rewrite D, bool_decide_eq_false_2 by done. rewrite J3, J2.
    rewrite filter_cons_False by naive_solver. done.
  - rewrite (bool_decide_eq_false_2 (Some q = Some p)) by naive_solver.
    replace (if bool_decide (task_nb ∈ task_free_notifier st) then st else st) with st by (by destruct (bool_decide (task_nb ∈ task_free_notifier st))).
    assert (filter (fun q => q <> p) (dying st) = dying st) as F.
    { case_bool_decide; [destruct I3 as (_ & _ & -> & _)|by destruct I3 as [-> _]].
      by rewrite filter_cons_True. }
    constructor; simpl; [done|done| |done]. eapply stage_frame; [..|exact I3']; try done.
    simpl. intros r Hr. rewrite !elem_of_app, list_elem_of_filter. naive_solver.
Qed.

Lemma kill_inv st w sel rem :
  lowmem_inv st -> calls st !! w = Some (Walked sel rem) ->
  exists st' ret, shrink_kill st sel rem = Some (st', ret) /\ lowmem_inv (set_calls st' (delete w (calls st'))).
Proof.
  intros [I1 I2 I3 I4] Hw. assert (forall st', processes st' = processes st -> calls st' = calls st ->
    forall w' p size adj rem, delete w (calls st') !! w' = Some (Walked (Some (p, size, adj)) rem) -> p ∈ processes st') as I4'.
  { intros st' -> -> w' p size adj rem' [_ H]%lookup_delete_Some. by eapply I4. }
  assert (lowmem_inv (set_calls st (delete w (calls st)))) as I by (constructor; simpl; [done..|by apply (I4' st)]).
  unfold shrink_kill. destruct sel as [[[p size] adj]|]; [|by eexists _, _].
  unfold stage in I3. destruct (lowmem_deathpending st) as [q|] eqn:D; [by eexists _, _|].
  destruct I3 as (J1 & J2 & J3 & J4).
  destruct (notifier_chain_register_spec _ _ I2 J4) as (E & N & Hin).
  unfold task_free_register. simpl. rewrite E. simpl. eexists _, _. split; [done|].
  constructor; simpl; [done|done| |by apply (I4' st)]. unfold stage. simpl.
  rewrite bool_decide_eq_true_2; [by rewrite J3|]. apply elem_of_app. left. by eapply I4.
Qed.

Lemma work_inv st e st' :
  lowmem_inv st -> enabled st e = true -> e = WorkStart \/ e = WorkUnregister \/ e = WorkClear ->
  exec st e = Some st' -> lowmem_inv st'.
Proof.
  intros [I1 I2 I3 I4] En He H. unfold stage in I3. destruct He as [->|[->| ->]]; simpl in *; injection H as <-.
  - apply andb_true_iff in En as [E1 E2%bool_decide_eq_true]. rewrite E1, E2 in I3.
    destruct (lowmem_deathpending st) as [p|] eqn:D; [|naive_solver].
    constructor; simpl; [done|done| |done]. unfold stage. simpl. rewrite D. case_bool_decide; naive_solver.
  - apply bool_decide_eq_true in En. rewrite En in I3.
    destruct (notifier_chain_unregister_spec _ task_nb I2) as (N1 & N2 & N3).
    destruct (lowmem_deathpending st) as [p|] eqn:D; [|naive_solver].
    constructor; simpl; [done|done| |done]. unfold stage. simpl. rewrite D. case_bool_decide; naive_solver.
  - apply bool_decide_eq_true in En. rewrite En in I3.
    destruct (lowmem_deathpending st) as [p|] eqn:D; [|naive_solver].
    constructor; simpl; [done|done| |done]. unfold stage. simpl. case_bool_decide; naive_solver.
Qed.

Lemma lowmem_exec_inv st e :
  lowmem_inv st -> enabled st e = true -> fresh st e -> exists st', exec st e = Some st' /\ lowmem_inv st'.
Proof.
  intros I En F. pose proof I as [I1 I2 I3 I4]. destruct e as [p|p|p|w c m nr|w seen|w| | |].
  - eexists. split; [done|]. by apply fork_inv.
  - eexists. split; [done|]. by apply release_inv.
  - eexists. split; [done|]. by apply free_inv.
  - simpl. destruct (shrink_check st c m nr) as [ret|[min_adj rem]]; eexists; (split; [done|]); [done|].
    constructor; simpl; [done..|]. intros w' p size adj rem' [[_ ?]|[_ H]]%lookup_insert_Some; [done|]. by eapply I4.
  - simpl in *. destruct (calls st !! w) as [[min_adj rem|]|] eqn:Ew; try done. eexists. split; [done|].
    constructor; simpl; [done..|].
    intros w' p size adj rem' [[_ [= E _]]|[_ H]]%lookup_insert_Some; [|by eapply I4]. by eapply walked_in_processes.
  - simpl in *. destruct (calls st !! w) as [[|sel rem]|] eqn:Ew; try done.
    destruct (kill_inv st w sel rem I Ew) as (st' & ret & -> & I'). simpl. by eexists.
  - eexists. split; [done|]. apply (work_inv st WorkStart); auto.
  - eexists. split; [done|]. apply (work_inv st WorkUnregister); auto.
  - eexists. split; [done|]. apply (work_inv st WorkClear); auto.
Qed.

Lemma lowmem_reachable_inv st : reachable fresh st -> lowmem_inv st.
Proof.
  induction 1 as [procs chain|st e st' _ IH En F E]; [by apply boot_inv|].
  destruct (lowmem_exec_inv st e IH En F) as (st1 & E1 & I). congruence.
Qed.

(** The worker from here on: what is left of task_free_fn(). *)
Definition worker_steps (st : lowmem) : list event :=
  match worker st with
  | Idle => [WorkStart; WorkUnregister; WorkClear]
  | Started => [WorkUnregister; WorkClear]
  | Unregistered => [WorkClear]
  end.

(** Events one after the other, each when it can happen. *)
Fixpoint run (st : lowmem) (l : list event) : option lowmem :=
  match l with
  | [] => Some st
  | e :: l => if enabled st e then st ← exec st e; run st l else None
  end.

Lemma lowmem_run_reachable ok st l st' :
  (forall st e, e ∈ l -> ok st e) -> reachable ok st -> run st l = Some st' -> reachable ok st'.
Proof.
  revert st. induction l as [|e l IH]; intros st Hok R H; simpl in H; [by simplify_eq|].
  destruct (enabled st e) eqn:En; [|done]. destruct (exec st e) as [st1|] eqn:E; [|done]. simpl in H.
  eapply IH; [|eapply reach_step; [exact R|exact En| |exact E]|exact H]; intros; apply Hok; set_solver.
Qed.

Definition any_memory : vm_stat := mk_vm_stat 100 500 500 500 500.
Definition seen1 (p : Z) : task := mk_task (Some (10 * p, 0)) (Some (if p =? 30 then 8 else 12)).

Lemma booted ok : reachable ok (boot [30; 10; 20] [7]).
Proof.
  apply reach_boot; [|apply NoDup_singleton|]; apply (bool_decide_unpack _); vm_compute; exact I.
Qed.



(** C13. In every interleaving of calls of lowmem_shrink(), forks, exits and
    the work item, as long as no new task gets the address of a victim whose
    death is pending: every step succeeds, in particular the notifier is never
    registered twice; at most one task is dying of SIGKILL, and it is the one
    pending; and a victim that is gone is forgotten by the worker alone, after
    which the next call can kill again. *)
Theorem lowmem_one_death st :
  reachable fresh st ->
  (forall e, enabled st e = true -> fresh st e -> exists st', exec st e = Some st') /\
  (dying st = [] \/ exists p, dying st = [p] /\ lowmem_deathpending st = Some p) /\
  (forall p, lowmem_deathpending st = Some p ->
     p ∈ processes st ++ released st /\ dying st = [p] \/
     exists st', run st (worker_steps st) = Some st' /\ lowmem_deathpending st' = None /\ task_nb ∉ task_free_notifier st').
Proof.
  intros R%lowmem_reachable_inv. split; [|split].
  - intros e En F. destruct (lowmem_exec_inv st e R En F) as (st' & E & _). by exists st'.
  - destruct R as [_ _ I3 _]. unfold stage in I3. destruct (lowmem_deathpending st) as [p|]; [|naive_solver].
    case_bool_decide; naive_solver.
  - intros p D. pose proof R as [_ _ I3 _]. unfold stage in I3. rewrite D in I3.
    case_bool_decide as B; [left; naive_solver|right]. destruct I3 as [_ I3]. unfold worker_steps.
    destruct (notifier_chain_unregister_spec _ task_nb (inv_chain _ R)) as (_ & N & _).
    destruct (worker st) eqn:W; destruct I3 as [E1 E2]; simpl; rewrite ?E1, W; simpl; by eexists.
Qed.

Definition shrink_events : list event :=
  [ShrinkCheck 0 default_params any_memory 128; ShrinkWalk 0 seen1; ShrinkKill 0].

Lemma lowmem_one_death_witness :
  exists st, run (boot [30; 10; 20] [7]) (shrink_events ++ [Release 20; Free 20; WorkStart]) = Some st /\
    (dying st = [] \/ exists p, dying st = [p] /\ lowmem_deathpending st = Some p).
Proof.
  destruct (run (boot [30; 10; 20] [7]) (shrink_events ++ [Release 20; Free 20; WorkStart])) as [st|] eqn:E;
    [|vm_compute in E; discriminate E].
  exists st. split; [reflexivity|]. apply (lowmem_one_death st).
  apply (lowmem_run_reachable fresh (boot [30; 10; 20] [7]) (shrink_events ++ [Release 20; Free 20; WorkStart]));
    [|apply booted|exact E].
  intros st0 e He. repeat (apply elem_of_cons in He as [-> |He]; [exact I|]). apply elem_of_nil in He. destruct He.
Defined.

Definition reuse_events : list event :=
  shrink_events ++ [Release 20; Free 20; Fork 20; Release 20; WorkStart; Free 20; WorkUnregister; WorkClear;
  WorkStart; WorkUnregister] ++ shrink_events ++ [WorkClear] ++ take 2 shrink_events.

(** C14. Without that proviso the notifier can be registered twice, which makes
    the chain a cycle: a new task at the address of the victim ends while
    task_free_fn() has started and not yet unregistered, which queues the work
    again; the second run of it forgets a death that became pending while it
    waits in task_free_unregister(), but leaves the notifier registered, and the
    next call registers it again. *)
Theorem lowmem_notifier_registered_twice :
  exists st, reachable (fun _ _ => True) st /\
    enabled st (ShrinkKill 0) = true /\ exec st (ShrinkKill 0) = None.
Proof.
  assert (match run (boot [30; 10; 20] [7]) reuse_events with
          | Some st => enabled st (ShrinkKill 0) && match exec st (ShrinkKill 0) with None => true | _ => false end
          | None => false
          end = true) as C by (vm_compute; reflexivity).
  destruct (run (boot [30; 10; 20] [7]) reuse_events) as [st|] eqn:E; [|discriminate C].
  apply andb_true_iff in C as [C1 C2]. exists st. split; [|split; [exact C1|]].
  - apply (lowmem_run_reachable _ (boot [30; 10; 20] [7]) reuse_events); [done|apply booted|exact E].
  - destruct (exec st (ShrinkKill 0)); [discriminate C2|reflexivity].
Qed.

End LowMem.
