(* ===== verification/Dpm.v ===== *)
(** System sleep of devices, drivers/base/power/main.c: the list of devices,
    their callbacks, and the phases that visit the devices one after the
    other, prepare, late suspend, early resume and complete.

    A device is its address.  [devs] has the parts of struct device the code
    uses, [dpm_list] the list in which parents come before their children.
    Which callbacks a device has is part of it; what a callback returns is a
    parameter.  [log] is what is called, in order. *)

From S2P Require Import Prelude.
Local Open Scope Z_scope.
Local Open Scope kernel_scope.

Module Dpm.

(** ** Data *)

Definition DPM_ON : Z := 1.
Definition DPM_PREPARING : Z := 2.
Definition DPM_RESUMING : Z := 3.
Definition DPM_SUSPENDING : Z := 4.
Definition DPM_OFF : Z := 5.
Definition DPM_OFF_IRQ : Z := 6.

(** Which operations of a struct dev_pm_ops are set. *)
Record dev_pm_ops := mk_ops {
  prepare : bool;
  complete : bool;
  suspend : bool;
  resume : bool;
  suspend_noirq : bool;
  resume_noirq : bool
}.

(** A bus or class: its operations, and the older callbacks. *)
Record subsystem := mk_subsystem {
  pm : option dev_pm_ops;
  legacy_suspend : bool;
  legacy_resume : bool
}.

Record device := mk_device {
  parent : option Z;
  bus : option subsystem;
  type : option (option dev_pm_ops);
  class : option subsystem;
  async_suspend : bool;
  status : Z;
  completion : bool;
  usage_count : Z
}.

Inductive level := Bus | Type_ | Class_.
Inductive op := Prepare | Complete | Suspend | Resume | SuspendNoirq | ResumeNoirq.

Definition callback : Type := level * op.

Definition set_status (s : Z) (d : device) : device :=
  mk_device (parent d) (bus d) (type d) (class d) (async_suspend d) s (completion d) (usage_count d).
Definition set_completion (b : bool) (d : device) : device :=
  mk_device (parent d) (bus d) (type d) (class d) (async_suspend d) (status d) b (usage_count d).
Definition add_usage (n : Z) (d : device) : device :=
  mk_device (parent d) (bus d) (type d) (class d) (async_suspend d) (status d) (completion d) (usage_count d + n).

(** ** The callbacks of a device

    Each is a list of what is called, and the error; [ret] has what the
    callbacks return. *)

Definition has_op (ops : dev_pm_ops) (o : op) : bool :=
  match o with
  | Prepare => prepare ops
  | Complete => complete ops
  | Suspend => suspend ops
  | Resume => resume ops
  | SuspendNoirq => suspend_noirq ops
  | ResumeNoirq => resume_noirq ops
  end.

(** pm_op() and pm_noirq_op() for the events of suspend and resume, and the
    calls of prepare(). *)
Definition pm_op (l : level) (ops : dev_pm_ops) (o : op) (ret : callback -> Z) : list callback * Z :=
  if has_op ops o then ([(l, o)], ret (l, o)) else ([], 0).

Definition legacy (l : level) (set : bool) (o : op) (ret : callback -> Z) : list callback * Z :=
  if set then ([(l, o)], ret (l, o)) else ([], 0).

(** One part after the other, up to the first error. *)
Definition and_then (a : list callback * Z) (b : list callback * Z) : list callback * Z :=
  if a.2 =? 0 then (a.1 ++ b.1, b.2) else a.

Definition subsystem_pm (l : level) (s : option subsystem) (o : op) (ret : callback -> Z) : list callback * Z :=
  match s with
  | Some s => match pm s with Some ops => pm_op l ops o ret | None => ([], 0) end
  | None => ([], 0)
  end.

Definition type_pm (t : option (option dev_pm_ops)) (o : op) (ret : callback -> Z) : list callback * Z :=
  match t with
  | Some (Some ops) => pm_op Type_ ops o ret
  | _ => ([], 0)
  end.

(** With the older callback where there are no operations. *)
Definition subsystem_op (l : level) (s : option subsystem) (o : op) (ret : callback -> Z) : list callback * Z :=
  match s with
  | Some s =>
      match pm s with
      | Some ops => pm_op l ops o ret
      | None => legacy l (match o with Suspend => legacy_suspend s | _ => legacy_resume s end) o ret
      end
  | None => ([], 0)
  end.

Definition device_prepare (d : device) (ret : callback -> Z) : list callback * Z :=
  and_then (subsystem_pm Bus (bus d) Prepare ret)
    (and_then (type_pm (type d) Prepare ret) (subsystem_pm Class_ (class d) Prepare ret)).

(** The callbacks of __device_suspend(). *)
Definition suspend_callbacks (d : device) (ret : callback -> Z) : list callback * Z :=
  and_then (subsystem_op Class_ (class d) Suspend ret)
    (and_then (type_pm (type d) Suspend ret) (subsystem_op Bus (bus d) Suspend ret)).

(** The callbacks of device_resume(). *)
Definition resume_callbacks (d : device) (ret : callback -> Z) : list callback * Z :=
  and_then (subsystem_op Bus (bus d) Resume ret)
    (and_then (type_pm (type d) Resume ret) (subsystem_op Class_ (class d) Resume ret)).

Definition device_suspend_noirq (d : device) (ret : callback -> Z) : list callback * Z :=
  and_then (subsystem_pm Class_ (class d) SuspendNoirq ret)
    (and_then (type_pm (type d) SuspendNoirq ret) (subsystem_pm Bus (bus d) SuspendNoirq ret)).

Definition device_resume_noirq (d : device) (ret : callback -> Z) : list callback * Z :=
  and_then (subsystem_pm Bus (bus d) ResumeNoirq ret)
    (and_then (type_pm (type d) ResumeNoirq ret) (subsystem_pm Class_ (class d) ResumeNoirq ret)).

Definition no_error (c : callback) : Z := 0.

(** complete() returns nothing. *)
Definition device_complete (d : device) : list callback :=
  (subsystem_pm Class_ (class d) Complete no_error).1 ++ (type_pm (type d) Complete no_error).1 ++
  (subsystem_pm Bus (bus d) Complete no_error).1.

(** ** The list of devices *)

Record dpm := mk_dpm {
  dpm_list : list Z;
  devs : gmap Z device;
  transition_started : bool;
  log : list (Z * callback)
}.

Definition set_list (st : dpm) (l : list Z) : dpm := mk_dpm l (devs st) (transition_started st) (log st).
Definition set_devs (st : dpm) (m : gmap Z device) : dpm := mk_dpm (dpm_list st) m (transition_started st) (log st).
Definition set_transition (st : dpm) (b : bool) : dpm := mk_dpm (dpm_list st) (devs st) b (log st).
Definition update (d : Z) (f : device -> device) (st : dpm) : dpm := set_devs st (alter f d (devs st)).
Definition add_log (d : Z) (l : list callback) (st : dpm) : dpm :=
  mk_dpm (dpm_list st) (devs st) (transition_started st) (log st ++ map (pair d) l).

(** device_pm_init() and device_pm_add() of a device that is registered; the
    result tells whether it warns. *)
Definition device_pm_init (x : device) : device := set_completion true (set_status DPM_ON x).

Definition device_pm_add (st : dpm) (d : Z) (x : device) : option (dpm * bool) :=
  warn ← match parent x with
         | Some p => y ← devs st !! p; Some (DPM_SUSPENDING <=? status y)
         | None => Some (transition_started st)
         end;
  Some (set_list (set_devs st (<[d := device_pm_init x]> (devs st))) (dpm_list st ++ [d]), warn).

Definition device_pm_remove (st : dpm) (d : Z) : dpm :=
  set_list (set_devs st (delete d (devs st))) (filter (fun x => x <> d) (dpm_list st)).

Definition list_insert_before (l : list Z) (a b : Z) : list Z :=
  foldr (fun x r => if x =? b then a :: x :: r else x :: r) [] l.
Definition list_insert_after (l : list Z) (a b : Z) : list Z :=
  foldr (fun x r => if x =? b then x :: a :: r else x :: r) [] l.

Definition device_pm_move_before (st : dpm) (deva devb : Z) : dpm :=
  set_list st (list_insert_before (filter (fun x => x <> deva) (dpm_list st)) deva devb).
Definition device_pm_move_after (st : dpm) (deva devb : Z) : dpm :=
  set_list st (list_insert_after (filter (fun x => x <> deva) (dpm_list st)) deva devb).
Definition device_pm_move_last (st : dpm) (d : Z) : dpm :=
  set_list st (filter (fun x => x <> d) (dpm_list st) ++ [d]).

(** ** Prepare *)

(** What happens to one device: whether it asked to wake the system while the
    transition is under way, and what its callbacks return. *)
Definition answer : Type := bool * (callback -> Z).

Definition prepare_one (st : dpm) (d : Z) (a : answer) : option (dpm * Z) :=
  let st := update d (set_status DPM_PREPARING) st in
  let st := update d (add_usage 1) st in
  if a.1 then Some (update d (add_usage (-1)) st, - EBUSY)
  else
    x ← devs st !! d;
    let r := device_prepare x a.2 in
    Some (add_log d r.1 st, r.2).

(** The loop of dpm_prepare(), [moved] is the local list.  A device that
    answers -EAGAIN is tried again; [None] is that no answer is left. *)
Fixpoint prepare_loop (st : dpm) (moved : list Z) (answers : list answer) : option (dpm * list Z * Z) :=
  match dpm_list st with
  | [] => Some (st, moved, 0)
  | d :: rest =>
      match answers with
      | [] => None
      | a :: answers =>
          '(st, error) ← prepare_one st d a;
          if error =? 0 then prepare_loop (set_list (update d (set_status DPM_SUSPENDING) st) rest) (moved ++ [d]) answers
          else
            let st := update d (set_status DPM_ON) st in
            if error =? - EAGAIN then prepare_loop st moved answers else Some (st, moved, error)
      end
  end.

Definition dpm_prepare (st : dpm) (answers : list answer) : option (dpm * Z) :=
  '(st, moved, error) ← prepare_loop (set_transition st true) [] answers;
  Some (set_list st (moved ++ dpm_list st), error).

(** ** Complete *)

(** From the end of the list. *)
Fixpoint complete_loop (st : dpm) (l : list Z) : option dpm :=
  match l with
  | [] => Some st
  | d :: l =>
      x ← devs st !! d;
      complete_loop
        (if DPM_ON <? status x
         then update d (add_usage (-1)) (add_log d (device_complete x) (update d (set_status DPM_ON) st))
         else st) l
  end.

Definition dpm_complete (st : dpm) : option dpm :=
  complete_loop (set_transition st false) (rev (dpm_list st)).

(** ** Late suspend and early resume *)

Fixpoint resume_noirq_loop (st : dpm) (l : list Z) (ret : Z -> callback -> Z) : option dpm :=
  match l with
  | [] => Some st
  | d :: l =>
      x ← devs st !! d;
      resume_noirq_loop
        (if DPM_OFF <? status x
         then add_log d (device_resume_noirq x (ret d)).1 (update d (set_status DPM_OFF) st)
         else st) l ret
  end.

Definition dpm_resume_noirq (st : dpm) (ret : Z -> callback -> Z) : option dpm :=
  resume_noirq_loop (set_transition st false) (dpm_list st) ret.

Fixpoint suspend_noirq_loop (st : dpm) (l : list Z) (ret : Z -> callback -> Z) : option (dpm * Z) :=
  match l with
  | [] => Some (st, 0)
  | d :: l =>
      x ← devs st !! d;
      let r := device_suspend_noirq x (ret d) in
      let st := add_log d r.1 st in
      if r.2 =? 0 then suspend_noirq_loop (update d (set_status DPM_OFF_IRQ) st) l ret else Some (st, r.2)
  end.

Definition dpm_suspend_noirq (st : dpm) (ret : Z -> callback -> Z) : option (dpm * Z) :=
  '(st, error) ← suspend_noirq_loop st (rev (dpm_list st)) ret;
  if error =? 0 then Some (st, 0)
  else st ← dpm_resume_noirq st ret; Some (st, error).

(** ** The order of the list *)

(** What the phases leave alone in a device. *)
Definition fixed (x : device) : option Z * option subsystem * option (option dev_pm_ops) * option subsystem * bool :=
  (parent x, bus x, type x, class x, async_suspend x).

(** Every device and its parent are once on the list, children behind their
    parents. *)
Record tree (st : dpm) : Prop := {
  tree_nodup : NoDup (dpm_list st);
  tree_devs d : d ∈ dpm_list st <-> is_Some (devs st !! d);
  tree_parent q x p : devs st !! q = Some x -> parent x = Some p -> is_Some (devs st !! p);
  tree_order l1 p l2 q x : dpm_list st = l1 ++ p :: l2 -> devs st !! q = Some x -> parent x = Some p -> q ∈ l2
}.

Lemma fixed_alter (f : device -> device) (m : gmap Z device) d :
  (forall x, fixed (f x) = fixed x) -> fixed <$> alter f d m = fixed <$> m.
Proof.
  intros H. apply map_eq. intros i. rewrite !lookup_fmap. destruct (decide (i = d)) as [-> |N].
  - rewrite lookup_alter_eq. destruct (m !! d); simpl; [by rewrite H|done].
  - by rewrite lookup_alter_ne.
Qed.

Lemma sum_list_update (f g : Z -> nat) (l : list Z) d :
  NoDup l -> d ∈ l -> (forall q, q <> d -> g q = f q) ->
  (sum_list_with g l + f d = sum_list_with f l + g d)%nat.
Proof.
  intros N Hd Hg. induction l as [|x l IH]; [by apply not_elem_of_nil in Hd|]. simpl.
  apply NoDup_cons in N as [Nx N]. apply elem_of_cons in Hd as [<-|Hd].
  - assert (sum_list_with g l = sum_list_with f l) as ->; [|lia].
    clear IH N. induction l as [|y l IH]; [done|]. simpl. rewrite Hg by set_solver. rewrite IH by set_solver. done.
  - assert (x <> d) by set_solver. rewrite (Hg x) by done. specialize (IH N Hd). lia.
Qed.

Lemma alter_Some (f : device -> device) (m : gmap Z device) d q y :
  alter f d m !! q = Some y -> exists x, m !! q = Some x /\ (q = d /\ y = f x \/ q <> d /\ y = x).
Proof.
  destruct (decide (q = d)) as [-> |N].
  - rewrite lookup_alter_eq. intros (x & -> & ->)%fmap_Some. eauto.
  - rewrite lookup_alter_ne by done. eauto.
Qed.

Lemma split_last {A} (h h1 h2 : list A) (a b : A) :
  h ++ [a] = h1 ++ b :: h2 -> (h2 = [] /\ a = b /\ h1 = h) \/ exists h3, h2 = h3 ++ [a] /\ h = h1 ++ b :: h3.
Proof.
  destruct h2 as [|z h2 _] using rev_ind; intros E.
  - apply app_inj_tail in E as [-> ->]. by left.
  - right. rewrite app_comm_cons, app_assoc in E. apply app_inj_tail in E as [-> ->]. by exists h2.
Qed.

Lemma alter_twice (f g : device -> device) (m : gmap Z device) d :
  alter f d (alter g d m) = alter (fun x => f (g x)) d m.
Proof.
  apply map_eq. intros i. destruct (decide (i = d)) as [-> |N].
  - rewrite !lookup_alter_eq. by destruct (m !! d).
  - by rewrite !lookup_alter_ne.
Qed.

Lemma fixed_lookup (m m' : gmap Z device) d x :
  fixed <$> m = fixed <$> m' -> m !! d = Some x -> exists y, m' !! d = Some y /\ fixed y = fixed x.
Proof.
  intros E H. assert ((fixed <$> m) !! d = Some (fixed x)) as F by by rewrite lookup_fmap, H.
  rewrite E, lookup_fmap in F. destruct (m' !! d) as [y|]; [|done]. exists y. split; [done|]. by apply (inj Some) in F.
Qed.

Lemma fixed_parent x y : fixed x = fixed y -> parent x = parent y.
Proof. by intros [= -> _ _ _ _]. Qed.

Lemma fixed_async x y : fixed x = fixed y -> async_suspend x = async_suspend y.
Proof. by intros [= _ _ _ _ ->]. Qed.

Lemma tree_same st st' :
  dpm_list st' = dpm_list st -> fixed <$> devs st' = fixed <$> devs st -> tree st -> tree st'.
Proof.
  intros E1 E2 [T1 T2 Tp T3]. constructor; rewrite ?E1; [done| | |].
  - intros d. rewrite T2, <- !(fmap_is_Some fixed), <- !lookup_fmap. by rewrite E2.
  - intros q x p H2 H3. destruct (fixed_lookup _ _ _ _ E2 H2) as (y & Hy & F).
    rewrite <- (fmap_is_Some fixed), <- lookup_fmap, E2, lookup_fmap, fmap_is_Some.
    apply (Tp q y); [done|]. by rewrite (fixed_parent _ _ F).
  - intros l1 p l2 q x H1 H2 H3. destruct (fixed_lookup _ _ _ _ E2 H2) as (y & Hy & F).
    eapply T3; [done|exact Hy|]. by rewrite (fixed_parent _ _ F).
Qed.

(** Behind a device on the list are its children; what is behind some place is
    closed under children. *)
Lemma tree_suffix st l1 l2 p q x :
  tree st -> dpm_list st = l1 ++ l2 -> p ∈ l2 -> devs st !! q = Some x -> parent x = Some p -> q ∈ l2.
Proof.
  intros T E (a & b & ->)%list_elem_of_split Hq Hp.
  assert (q ∈ b); [|set_solver]. eapply (tree_order _ T (l1 ++ a)); [by rewrite E, <- app_assoc|done|done].
Qed.

Lemma device_pm_add_tree st d x st' warn :
  tree st -> devs st !! d = None -> parent x <> Some d -> (forall q y, devs st !! q = Some y -> parent y <> Some d) ->
  device_pm_add st d x = Some (st', warn) -> tree st'.
Proof.
  intros [T1 T2 Tp T3] Hd Hself Hc H. unfold device_pm_add in H. apply bind_Some in H as (w & Hw & [= <- <-]).
  assert (d ∉ dpm_list st) as Hnd by (rewrite T2, Hd; by intros [? ?]).
  constructor; simpl.
  - apply NoDup_app. split; [done|]. split; [set_solver|apply NoDup_singleton].
  - intros q. rewrite elem_of_app, list_elem_of_singleton, T2. destruct (decide (q = d)) as [-> |N].
    + rewrite lookup_insert_eq. naive_solver.
    + rewrite lookup_insert_ne by done. naive_solver.
  - intros q y p Hq Hp. apply lookup_insert_is_Some. destruct (decide (d = p)); [by left|right]. split; [done|].
    apply lookup_insert_Some in Hq as [[<- <-]|[_ Hq]]; [|by eapply Tp].
    simpl in Hp. rewrite Hp in Hw. apply bind_Some in Hw as (z & Hz & _). by eexists.
  - intros l1 p l2 q y E Hq Hp. destruct (decide (q = d)) as [-> |N].
    + rewrite lookup_insert_eq in Hq. injection Hq as <-. simpl in Hp.
      destruct l2 as [|z l2 _] using rev_ind; [|rewrite app_comm_cons, app_assoc in E; apply app_inj_tail in E as [_ <-]; set_solver].
      apply app_inj_tail in E as [_ <-]. done.
    + rewrite lookup_insert_ne in Hq by done.
      assert (p <> d) as Np by (intros ->; by eapply Hc).
      destruct l2 as [|z l2 _] using rev_ind; [by apply app_inj_tail in E as [_ <-]|].
      rewrite app_comm_cons, app_assoc in E. apply app_inj_tail in E as [E <-].
      assert (q ∈ l2); [by eapply T3|set_solver].
Qed.

Lemma filter_split (P : Z -> Prop) {dec : forall x, Decision (P x)} (l l1 l2 : list Z) (p : Z) :
  filter P l = l1 ++ p :: l2 -> exists k1 k2, l = k1 ++ p :: k2 /\ filter P k2 = l2.
Proof.
  revert l1. induction l as [|x l IH]; intros l1 H; simpl in *; [by destruct l1|].
  rewrite filter_cons in H. destruct (decide (P x)) as [Hx|Hx].
  - destruct l1 as [|y l1]; simpl in H.
    + injection H as -> <-. by exists [], l.
    + injection H as -> H. destruct (IH _ H) as (k1 & k2 & -> & E). by exists (y :: k1), k2.
  - destruct (IH _ H) as (k1 & k2 & -> & E). by exists (x :: k1), k2.
Qed.

Lemma device_pm_remove_tree st d :
  tree st -> (forall q y, devs st !! q = Some y -> parent y <> Some d) -> tree (device_pm_remove st d).
Proof.
  intros [T1 T2 Tp T3] Hc. constructor; simpl.
  - by apply NoDup_filter.
  - intros q. rewrite list_elem_of_filter, T2. destruct (decide (q = d)) as [-> |N].
    + rewrite lookup_delete_eq. split; [naive_solver|by intros [? ?]].
    + rewrite lookup_delete_ne by done. naive_solver.
  - intros q y p [Nq Hq]%lookup_delete_Some Hp. rewrite lookup_delete_ne; [by eapply Tp|]. intros <-. by eapply Hc.
  - intros l1 p l2 q y E [Nq Hq]%lookup_delete_Some Hp.
    destruct (filter_split _ _ _ _ _ E) as (k1 & k2 & E' & <-). apply list_elem_of_filter. split; [done|]. by eapply T3.
Qed.

End Dpm.
