(* ===== verification/DpmSuspend.v ===== *)
(** Suspending the devices, dpm_suspend() of drivers/base/power/main.c: the
    devices are visited from the end of the list, those that allow it by
    asynchronous calls (kernel/async.c), which run at the same time as the
    main loop and each other and wait for the children of their device.

    The state has the main thread, the calls that are scheduled or running and
    the history of the callbacks; [step] is one step of one of them.  The
    callbacks of a device begin and end in different steps.  A call for which
    there is no memory is made by the main thread, as async_schedule() does.
    Devices are not added or removed meanwhile. *)

From S2P Require Import Prelude Dpm.
Local Open Scope Z_scope.
Local Open Scope kernel_scope.

Module DpmSuspend.

Import Dpm.

(** ** The state *)

(** Where a call of __device_suspend() is: before the wait for the children is
    over, in the callbacks, returned with an error number. *)
Inductive phase := Waits | Runs | Returned (error : Z).

(** The main thread: at the head of the loop; in device_suspend() of a device,
    [inlined] when it makes the asynchronous call itself; behind the loop; at
    the end. *)
Inductive pc :=
| Loop
| InDevice (d : Z) (inlined : bool) (ph : phase)
| Synchronize (error : Z)
| Done (error : Z).

Inductive entry := Began (d : Z) | Ended (d error : Z).

#[export] Instance entry_eq_dec : EqDecision entry.
Proof. solve_decision. Defined.

(** [moved] is the local list of dpm_suspend(). *)
Record suspending := mk_suspending {
  core : dpm;
  moved : list Z;
  async_error : Z;
  main : pc;
  tasks : gmap Z phase;
  history : list entry
}.

Definition set_core (st : suspending) (c : dpm) : suspending :=
  mk_suspending c (moved st) (async_error st) (main st) (tasks st) (history st).
Definition set_moved (st : suspending) (l : list Z) : suspending :=
  mk_suspending (core st) l (async_error st) (main st) (tasks st) (history st).
Definition set_async_error (st : suspending) (e : Z) : suspending :=
  mk_suspending (core st) (moved st) e (main st) (tasks st) (history st).
Definition set_main (st : suspending) (m : pc) : suspending :=
  mk_suspending (core st) (moved st) (async_error st) m (tasks st) (history st).
Definition set_tasks (st : suspending) (t : gmap Z phase) : suspending :=
  mk_suspending (core st) (moved st) (async_error st) (main st) t (history st).
Definition add_history (st : suspending) (e : entry) : suspending :=
  mk_suspending (core st) (moved st) (async_error st) (main st) (tasks st) (history st ++ [e]).
Definition change (d : Z) (f : device -> device) (st : suspending) : suspending :=
  set_core st (update d f (core st)).

Section steps.
(** Whether asynchronous suspend is on. *)
Context (pm_async_enabled : bool).

Definition is_async (x : device) : bool := pm_async_enabled && async_suspend x.

(** ** Calls of __device_suspend() *)

(** dpm_wait_for_children() is over. *)
Definition children_done (st : suspending) (d : Z) (async : bool) : bool :=
  forallb (fun y : Z * device =>
      negb (bool_decide (parent y.2 = Some d)) || negb (async || is_async y.2) || completion y.2)
    (map_to_list (devs (core st))).

(** The wait is over: the callbacks begin, unless an asynchronous call has
    failed. *)
Definition begin_suspend (st : suspending) (d : Z) : suspending * phase :=
  if async_error st =? 0 then (add_history st (Began d), Runs)
  else (change d (set_completion true) st, Returned 0).

Definition end_suspend (st : suspending) (d : Z) (ret : callback -> Z) : option (suspending * phase) :=
  x ← devs (core st) !! d;
  let r := suspend_callbacks x ret in
  let st := set_core st (add_log d r.1 (core st)) in
  let st := if r.2 =? 0 then change d (set_status DPM_OFF) st else st in
  let st := add_history (change d (set_completion true) st) (Ended d r.2) in
  Some (st, Returned r.2).

(** async_suspend() after __device_suspend() has returned. *)
Definition async_return (st : suspending) (error : Z) : suspending :=
  if error =? 0 then st else set_async_error st error.

(** ** The main loop *)

(** The device in hand goes to the local list, and the loop ends when an
    asynchronous call has failed. *)
Definition move (st : suspending) (d : Z) : suspending :=
  set_moved (set_core st (set_list (core st) (removelast (dpm_list (core st))))) (d :: moved st).

Definition leave (st : suspending) (error : Z) : suspending :=
  set_main (set_core st (set_list (core st) (dpm_list (core st) ++ moved st))) (Synchronize error).

Definition next (st : suspending) : suspending :=
  if async_error st =? 0 then set_main st Loop else leave st 0.

(** The main thread takes the last device; [memory] tells whether an
    asynchronous call can be scheduled. *)
Definition take_device (st : suspending) (memory : bool) : option suspending :=
  match last (dpm_list (core st)) with
  | None => Some (leave st 0)
  | Some d =>
      x ← devs (core st) !! d;
      let st := change d (set_completion false) st in
      if is_async x then
        if memory then Some (next (move (set_tasks st (<[d := Waits]> (tasks st))) d))
        else Some (set_main st (InDevice d true Waits))
      else Some (set_main st (InDevice d false Waits))
  end.

(** device_suspend() has returned to the loop. *)
Definition main_return (st : suspending) (d : Z) (inlined : bool) (error : Z) : suspending :=
  if inlined then next (move (async_return st error) d)
  else if error =? 0 then next (move st d)
  else leave st error.

(** ** Steps *)

Inductive event :=
| Take (memory : bool)
| MainBegin
| MainEnd (ret : callback -> Z)
| MainReturn
| TaskBegin (d : Z)
| TaskEnd (d : Z) (ret : callback -> Z)
| TaskReturn (d : Z)
| Finish.

(** [None] is that the event cannot happen now. *)
Definition step (st : suspending) (e : event) : option suspending :=
  match e, main st with
  | Take memory, Loop => take_device st memory
  | MainBegin, InDevice d inlined Waits =>
      if children_done st d inlined
      then let r := begin_suspend st d in Some (set_main r.1 (InDevice d inlined r.2))
      else None
  | MainEnd ret, InDevice d inlined Runs =>
      r ← end_suspend st d ret; Some (set_main r.1 (InDevice d inlined r.2))
  | MainReturn, InDevice d inlined (Returned error) => Some (main_return st d inlined error)
  | Finish, Synchronize error =>
      if bool_decide (tasks st = ∅)
      then Some (set_main st (Done (if error =? 0 then async_error st else error)))
      else None
  | TaskBegin d, _ =>
      match tasks st !! d with
      | Some Waits =>
          if children_done st d true
          then let r := begin_suspend st d in Some (set_tasks r.1 (<[d := r.2]> (tasks st)))
          else None
      | _ => None
      end
  | TaskEnd d ret, _ =>
      match tasks st !! d with
      | Some Runs => r ← end_suspend st d ret; Some (set_tasks r.1 (<[d := r.2]> (tasks st)))
      | _ => None
      end
  | TaskReturn d, _ =>
      match tasks st !! d with
      | Some (Returned error) => Some (set_tasks (async_return st error) (delete d (tasks st)))
      | _ => None
      end
  | _, _ => None
  end.

(** dpm_suspend() begins with no asynchronous error and an empty list. *)
Definition start (c : dpm) : suspending := mk_suspending c [] 0 Loop ∅ [].

Inductive reachable (c : dpm) : suspending -> Prop :=
| reach_start : reachable c (start c)
| reach_step st e st' : reachable c st -> step st e = Some st' -> reachable c st'.

End steps.

(** ** The invariant

    [H] are the devices the main loop has taken, the end of the list; [F] tells
    where the call for a device is, in the main thread or a task; [ae] is
    async_error and [me] the error of the main loop. *)

Definition idle (ph : option phase) : bool :=
  match ph with Some Waits | Some Runs => false | _ => true end.

Section invariant.
Context (c : dpm) (T : tree c).

Record inv (m : gmap Z device) (H : list Z) (ae me : Z) (F : Z -> option phase) (h : list entry) : Prop := {
  i_fixed : fixed <$> m = fixed <$> devs c;
  i_suffix : exists l, dpm_list c = l ++ H;
  i_phase d ph : F d = Some ph -> d ∈ H;
  i_compl d x : m !! d = Some x -> d ∈ H -> completion x = idle (F d);
  i_began d : Began d ∈ h -> d ∈ H /\ forall q y, m !! q = Some y -> parent y = Some d -> completion y = true;
  i_ended d : Began d ∈ h -> F d = Some Runs \/ exists e, Ended d e ∈ h;
  i_waits d : F d = Some Waits -> Began d ∉ h;
  i_order h1 d h2 : h = h1 ++ Began d :: h2 -> forall q y, devs c !! q = Some y -> parent y = Some d ->
    Began q ∈ h -> exists e, Ended q e ∈ h1;
  i_status d x : m !! d = Some x ->
    status x = DPM_OFF /\ Ended d 0 ∈ h \/ status x = DPM_SUSPENDING /\ Ended d 0 ∉ h;
  i_ok d x : d ∈ H -> m !! d = Some x -> idle (F d) = true ->
    status x = DPM_OFF \/ ae <> 0 \/ me <> 0 \/ exists e, F d = Some (Returned e) /\ e <> 0
}.

(** The children of a device the main loop has taken are taken. *)
Lemma inv_child m H ae me F h d q y :
  inv m H ae me F h -> d ∈ H -> m !! q = Some y -> parent y = Some d -> q ∈ H /\ q <> d.
Proof.
  intros I Hd Hq Hp. destruct (fixed_lookup _ _ _ _ (i_fixed _ _ _ _ _ _ I) Hq) as (z & Hz & E).
  apply fixed_parent in E. rewrite Hp in E. destruct (i_suffix _ _ _ _ _ _ I) as [l El].
  split; [by eapply tree_suffix|]. intros ->.
  apply list_elem_of_split in Hd as (a & b & ->). pose proof (tree_nodup _ T) as N. rewrite El in N.
  assert (d ∈ b) as Hb by (eapply (tree_order _ T (l ++ a)); [by rewrite El, <- app_assoc|done|done]).
  apply NoDup_app in N as (_ & _ & N). apply NoDup_app in N as (_ & _ & N). by apply NoDup_cons in N as [? _].
Qed.

Section moves.
Context (m : gmap Z device) (H : list Z) (ae me : Z) (F : Z -> option phase) (h : list entry).
Context (I : inv m H ae me F h) (d : Z) (F' : Z -> option phase).

(** The main loop takes a device. *)
Lemma inv_take l :
  dpm_list c = l ++ d :: H -> (forall q, F' q = if decide (q = d) then Some Waits else F q) ->
  inv (alter (set_completion false) d m) (d :: H) ae me F' h.
Proof.
  intros El HF. assert (d ∉ H) as Nd.
  { pose proof (tree_nodup _ T) as N. rewrite El in N. apply NoDup_app in N as (_ & _ & N). by apply NoDup_cons in N as [? _]. }
  destruct I as [I1 I2 I3 I4 I5 I6 I7 I8 I9 I10]. constructor.
  - rewrite fixed_alter by done. done.
  - by exists l.
  - intros q ph. rewrite HF. case_decide; [set_solver|]. intros ?%I3. set_solver.
  - intros q y (x & Hx & [[-> ->]|[N ->]])%alter_Some Hq; rewrite HF.
    + by rewrite decide_True.
    + rewrite decide_False by done. apply I4; [done|set_solver].
  - intros q Hq. destruct (I5 _ Hq) as [J1 J2]. split; [set_solver|].
    intros r y (x & Hx & [[-> ->]|[N ->]])%alter_Some Hp; [|by eapply J2].
    exfalso. simpl in Hp. by destruct (inv_child _ _ _ _ _ _ _ _ _ I J1 Hx Hp).
  - intros q Hq. rewrite HF. case_decide as D; [subst q; by destruct (I5 _ Hq)|by apply I6].
  - intros q. rewrite HF. case_decide as D; [|by apply I7]. intros _ Hq. subst q. by destruct (I5 _ Hq).
  - done.
  - intros q y (x & Hx & [[-> ->]|[N ->]])%alter_Some; simpl; by apply I9.
  - intros q y Hq (x & Hx & [[-> ->]|[N ->]])%alter_Some; rewrite HF; [by rewrite decide_True|].
    rewrite decide_False by done. apply I10; [set_solver|done].
Qed.

(** The callbacks of a device begin. *)
Lemma inv_begin :
  F d = Some Waits -> (forall q y, m !! q = Some y -> parent y = Some d -> completion y = true) ->
  (forall q, F' q = if decide (q = d) then Some Runs else F q) ->
  inv m H ae me F' (h ++ [Began d]).
Proof.
  intros Fd Hc HF. pose proof (i_phase _ _ _ _ _ _ I _ _ Fd) as Hd.
  destruct I as [I1 I2 I3 I4 I5 I6 I7 I8 I9 I10]. constructor.
  - done.
  - done.
  - intros q ph. rewrite HF. case_decide as D; [by subst q|]. by apply I3.
  - intros q y Hy Hq. rewrite HF. case_decide as D; [|by apply I4]. subst q. by rewrite (I4 _ _ Hy Hq), Fd.
  - intros q [Hq|[= ->]%list_elem_of_singleton]%elem_of_app; [by apply I5|done].
  - intros q Hq. rewrite HF. case_decide as D; [by left|].
    apply elem_of_app in Hq as [Hq|[= ->]%list_elem_of_singleton]; [|done].
    destruct (I6 _ Hq) as [?|[e He]]; [by left|right]. exists e. set_solver.
  - intros q. rewrite HF. case_decide as D; [done|]. intros Hq. specialize (I7 _ Hq). set_solver.
  - intros h1 p h2 E q y Hq Hp Hb. destruct (fixed_lookup _ _ _ _ (eq_sym I1) Hq) as (x & Hx & Ex).
    apply fixed_parent in Ex. rewrite Hp in Ex. apply split_last in E as [(_ & [= <-] & ->)|(h3 & _ & E)].
    + destruct (inv_child _ _ _ _ _ _ _ _ _ I Hd Hx Ex) as [Hqh Hn].
      apply elem_of_app in Hb as [Hb|[= ->]%list_elem_of_singleton]; [|done].
      destruct (I6 _ Hb) as [R|R]; [|done]. pose proof (Hc _ _ Hx Ex) as C.
      rewrite (I4 _ _ Hx Hqh), R in C. done.
    + apply elem_of_app in Hb as [Hb|[= ->]%list_elem_of_singleton]; [by eapply I8|].
      destruct (I5 p) as [_ J]; [rewrite E; set_solver|]. specialize (J _ _ Hx Ex).
      rewrite (I4 _ _ Hx Hd), Fd in J. done.
  - intros q y Hy. destruct (I9 _ _ Hy) as [[? ?]|[? ?]]; [left|right]; (split; [done|set_solver]).
  - intros q y Hq Hy. rewrite HF. case_decide as D; [done|]. by apply I10.
Qed.

(** A device is skipped because an asynchronous call has failed. *)
Lemma inv_skip :
  ae <> 0 -> F d = Some Waits -> (forall q, F' q = if decide (q = d) then Some (Returned 0) else F q) ->
  inv (alter (set_completion true) d m) H ae me F' h.
Proof.
  intros Hae Fd HF. pose proof (i_phase _ _ _ _ _ _ I _ _ Fd) as Hd.
  destruct I as [I1 I2 I3 I4 I5 I6 I7 I8 I9 I10]. constructor.
  - by rewrite fixed_alter.
  - done.
  - intros q ph. rewrite HF. case_decide as D; [by subst q|]. by apply I3.
  - intros q y (x & Hx & [[-> ->]|[N ->]])%alter_Some Hq; rewrite HF; [by rewrite decide_True|].
    rewrite decide_False by done. by apply I4.
  - intros q Hq. destruct (I5 _ Hq) as [J1 J2]. split; [done|].
    intros r y (x & Hx & [[-> ->]|[N ->]])%alter_Some Hp; [done|by eapply J2].
  - intros q Hq. rewrite HF. case_decide as D; [subst q; by destruct (I7 _ Fd)|by apply I6].
  - intros q. rewrite HF. case_decide as D; [done|]. by apply I7.
  - done.
  - intros q y (x & Hx & [[-> ->]|[N ->]])%alter_Some; simpl; by apply I9.
  - intros. auto.
Qed.

(** The callbacks of a device end. *)
Lemma inv_end e (f : device -> device) :
  F d = Some Runs -> (forall x, fixed (f x) = fixed x) -> (forall x, completion (f x) = true) ->
  (forall x, status (f x) = if e =? 0 then DPM_OFF else status x) ->
  (forall q, F' q = if decide (q = d) then Some (Returned e) else F q) ->
  inv (alter f d m) H ae me F' (h ++ [Ended d e]).
Proof.
  intros Fd Hf1 Hf2 Hf3 HF. pose proof (i_phase _ _ _ _ _ _ I _ _ Fd) as Hd.
  destruct I as [I1 I2 I3 I4 I5 I6 I7 I8 I9 I10].
  assert (forall q, Began q ∈ h ++ [Ended d e] -> Began q ∈ h) as Hb by set_solver. constructor.
  - by rewrite fixed_alter.
  - done.
  - intros q ph. rewrite HF. case_decide as D; [by subst q|]. by apply I3.
  - intros q y (x & Hx & [[-> ->]|[N ->]])%alter_Some Hq; rewrite HF; [by rewrite decide_True, Hf2|].
    rewrite decide_False by done. by apply I4.
  - intros q Hq%Hb. destruct (I5 _ Hq) as [J1 J2]. split; [done|].
    intros r y (x & Hx & [[-> ->]|[N ->]])%alter_Some Hp; [by apply Hf2|by eapply J2].
  - intros q Hq%Hb. rewrite HF. case_decide as D; [subst q; right; exists e; set_solver|].
    destruct (I6 _ Hq) as [?|[e' He]]; [by left|right]. exists e'. set_solver.
  - intros q. rewrite HF. case_decide as D; [done|]. intros Hq Hbq%Hb. by apply (I7 _ Hq).
  - intros h1 p h2 E q y Hq Hp Hbq%Hb. apply split_last in E as [(_ & [=] & _)|(h3 & _ & E)]. by eapply I8.
  - intros q y (x & Hx & [[-> ->]|[N ->]])%alter_Some.
    + rewrite Hf3. destruct (Z.eqb_spec e 0) as [-> |Ne]; [left; set_solver|].
      destruct (I9 _ _ Hx) as [[? ?]|[? ?]]; [left; set_solver|right]. split; [done|]. set_solver.
    + destruct (I9 _ _ Hx) as [[? ?]|[? ?]]; [left; set_solver|right]. split; [done|]. set_solver.
  - intros q y Hq (x & Hx & [[-> ->]|[N ->]])%alter_Some; rewrite HF.
    + rewrite decide_True by done. intros _. rewrite Hf3. destruct (Z.eqb_spec e 0); [by left|]. eauto 6.
    + rewrite decide_False by done. by apply I10.
Qed.

(** A call returns its error, to async_error or to the main loop. *)
Lemma inv_return e ae' me' :
  F d = Some (Returned e) -> (forall q, F' q = if decide (q = d) then None else F q) ->
  (e <> 0 -> ae' <> 0 \/ me' <> 0) -> (ae <> 0 -> ae' <> 0) -> (me <> 0 -> me' <> 0) ->
  inv m H ae' me' F' h.
Proof.
  intros Fd HF He Hae Hme. destruct I as [I1 I2 I3 I4 I5 I6 I7 I8 I9 I10]. constructor; try done.
  - intros q ph. rewrite HF. case_decide as D; [done|]. by apply I3.
  - intros q y Hy Hq. rewrite HF. case_decide as D; [subst q|by apply I4]. by rewrite (I4 _ _ Hy Hq), Fd.
  - intros q Hq. rewrite HF. destruct (I6 _ Hq) as [R|R]; [|by right]. left.
    case_decide; [subst q; congruence|done].
  - intros q. rewrite HF. case_decide as D; [done|]. by apply I7.
  - intros q y Hq Hy. rewrite HF. case_decide as D; intros J.
    + subst q. destruct (I10 _ _ Hq Hy) as [?|[?|[?|(e' & E & Ne)]]]; [by rewrite Fd|by left|auto|auto|].
      rewrite Fd in E. injection E as <-. destruct (He Ne); auto.
    + destruct (I10 _ _ Hq Hy J) as [?|[?|[?|?]]]; auto.
Qed.

Lemma inv_error me' : (me <> 0 -> me' <> 0) -> (forall q, F' q = F q) -> inv m H ae me' F' h.
Proof.
  intros Hme HF. destruct I as [I1 I2 I3 I4 I5 I6 I7 I8 I9 I10]. constructor; try done.
  - intros q ph. rewrite HF. apply I3.
  - intros q y. rewrite HF. apply I4.
  - intros q. rewrite HF. apply I6.
  - intros q. rewrite HF. apply I7.
  - intros q y Hq Hy. rewrite HF. intros J. destruct (I10 _ _ Hq Hy J) as [?|[?|[?|?]]]; auto.
Qed.

End moves.

(** ** The invariant of the states *)

Definition phase_of (st : suspending) (d : Z) : option phase :=
  match main st with
  | InDevice d' _ ph => if decide (d = d') then Some ph else tasks st !! d
  | _ => tasks st !! d
  end.

Definition main_error (st : suspending) : Z :=
  match main st with Synchronize e | Done e => e | _ => 0 end.

(** Where the devices are. *)
Definition lists (st : suspending) (H : list Z) : Prop :=
  match main st with
  | Loop => dpm_list c = dpm_list (core st) ++ H /\ moved st = H
  | InDevice d _ _ =>
      exists l, dpm_list (core st) = l ++ [d] /\ H = d :: moved st /\ dpm_list c = l ++ H /\ tasks st !! d = None
  | Synchronize e =>
      dpm_list (core st) = dpm_list c /\ (H = dpm_list c \/ async_error st <> 0 \/ e <> 0)
  | Done e =>
      dpm_list (core st) = dpm_list c /\ (H = dpm_list c \/ e <> 0) /\ tasks st = ∅ /\ (e = 0 -> async_error st = 0)
  end.

Context (pm_async_enabled : bool).

(** Only devices that allow it are suspended by tasks. *)
Definition tasks_async (st : suspending) : Prop :=
  forall q y, devs (core st) !! q = Some y -> is_Some (tasks st !! q) -> is_async pm_async_enabled y = true.

Definition good (st : suspending) : Prop :=
  tasks_async st /\
  exists H, lists st H /\ inv (devs (core st)) H (async_error st) (main_error st) (phase_of st) (history st).

Lemma good_start : (forall d x, devs c !! d = Some x -> status x = DPM_SUSPENDING) -> good (start c).
Proof.
  intros S0. split; [intros q y _ [? H]; simpl in H; by rewrite lookup_empty in H|]. exists []. split; [unfold lists; simpl; by rewrite app_nil_r|].
  assert (forall d, phase_of (start c) d = None) as Ph by (intros; unfold phase_of; simpl; by rewrite lookup_empty).
  constructor; simpl.
  - done.
  - exists (dpm_list c). by rewrite app_nil_r.
  - intros d ph. by rewrite Ph.
  - intros d x _ Hd. by apply not_elem_of_nil in Hd.
  - intros d Hd. by apply not_elem_of_nil in Hd.
  - intros d Hd. by apply not_elem_of_nil in Hd.
  - intros d. by rewrite Ph.
  - intros h1 d h2 E. by destruct h1.
  - intros d x Hx. right. split; [by eapply S0|apply not_elem_of_nil].
  - intros d x Hd. by apply not_elem_of_nil in Hd.
Qed.

Lemma children_done_true st d async :
  children_done pm_async_enabled st d async = true <->
  forall q y, devs (core st) !! q = Some y -> parent y = Some d -> (async || is_async pm_async_enabled y) = true ->
    completion y = true.
Proof.
  unfold children_done. rewrite forallb_forall. split.
  - intros H q y Hq Hp Ha. specialize (H (q, y)). simpl in H.
    rewrite (bool_decide_eq_true_2 (parent y = Some d)), Ha in H by done. apply H.
    apply list_elem_of_In. by apply elem_of_map_to_list.
  - intros H [q y] Hin. apply list_elem_of_In, elem_of_map_to_list in Hin. simpl.
    case_bool_decide as Hp; simpl; [|done]. destruct (async || is_async pm_async_enabled y) eqn:Ha; simpl; [|done].
    by eapply H.
Qed.

(** A synchronous child is done when the main loop is at its parent. *)
Lemma main_children st H d inlined ph q y :
  lists st H -> main st = InDevice d inlined ph ->
  inv (devs (core st)) H (async_error st) (main_error st) (phase_of st) (history st) ->
  children_done pm_async_enabled st d inlined = true ->
  tasks_async st -> devs (core st) !! q = Some y -> parent y = Some d -> completion y = true.
Proof.
  intros Hl Hm I Hc Ha Hq Hp. unfold lists in Hl. rewrite Hm in Hl. destruct Hl as (l & E1 & -> & E3 & E4).
  assert (d ∈ d :: moved st) as Hd by set_solver.
  destruct (inv_child _ _ _ _ _ _ _ _ _ I Hd Hq Hp) as [Hqh Hn].
  destruct (is_async pm_async_enabled y) eqn:A.
  - eapply children_done_true; [done..|]. by rewrite A, orb_true_r.
  - rewrite (i_compl _ _ _ _ _ _ I _ _ Hq Hqh). unfold phase_of. rewrite Hm, decide_False by done.
    destruct (tasks st !! q) eqn:Et; [|done]. rewrite (Ha q y) in A; [done|done|by eexists].
Qed.

Lemma tasks_async_same st st' :
  fixed <$> devs (core st') = fixed <$> devs (core st) ->
  (forall q, is_Some (tasks st' !! q) -> is_Some (tasks st !! q)) -> tasks_async st -> tasks_async st'.
Proof.
  intros E1 E2 A q y Hq Ht. destruct (fixed_lookup _ _ _ _ E1 Hq) as (z & Hz & Ez).
  unfold is_async. rewrite <- (fixed_async _ _ Ez). eapply A; [exact Hz|]. by apply E2.
Qed.

(** The device in hand goes to the local list, or stays behind. *)
Lemma good_next st d l H ae :
  dpm_list (core st) = l ++ [d] -> moved st = H -> dpm_list c = l ++ d :: H -> tasks_async st ->
  async_error st = ae -> (forall ph, main st <> Synchronize ph) -> (forall ph, main st <> Done ph) ->
  inv (devs (core st)) (d :: H) ae 0 (fun q => tasks st !! q) (history st) ->
  good (next (move st d)).
Proof.
  intros E1 E2 E3 A Ea N1 N2 I. unfold next, move. simpl. rewrite Ea.
  assert (removelast (dpm_list (core st)) = l) as El by (rewrite E1; apply removelast_last).
  destruct (Z.eqb_spec ae 0) as [-> |Hae].
  - split; [done|]. exists (d :: H). simpl. split; [unfold lists; simpl; by rewrite El, E2|]. simpl. by rewrite Ea.
  - split; [done|]. exists (d :: H). simpl. split; [|by rewrite Ea].
    unfold lists. simpl. rewrite El, E2. split; [done|]. rewrite Ea. auto.
Qed.

Lemma good_leave st H e :
  dpm_list c = dpm_list (core st) ++ moved st -> tasks_async st -> (H = dpm_list c \/ async_error st <> 0 \/ e <> 0) ->
  inv (devs (core st)) H (async_error st) e (fun q => tasks st !! q) (history st) -> good (leave st e).
Proof.
  intros E A Ho I. split; [done|]. exists H. split; [|done]. unfold lists. simpl. done.
Qed.

Lemma good_take st memory st' : good st -> main st = Loop -> take_device pm_async_enabled st memory = Some st' -> good st'.
Proof.
  intros (A & H & Hl & I) Hm E. unfold lists in Hl. rewrite Hm in Hl. destruct Hl as [E1 E2].
  assert (forall q, phase_of st q = tasks st !! q) as Ph by (intros; unfold phase_of; by rewrite Hm).
  assert (main_error st = 0) as Me by (unfold main_error; by rewrite Hm). rewrite Me in I.
  unfold take_device in E. destruct (last (dpm_list (core st))) as [d|] eqn:El; cycle 1.
  { injection E as <-. apply last_None in El. rewrite El in E1.
    apply (good_leave st H); [by rewrite El, E2|done|by left|]. by eapply inv_error. }
  apply last_Some in El as [l El]. apply bind_Some in E as (x & Hx & E).
  rewrite El, <- app_assoc in E1. simpl in E1.
  assert (tasks st !! d = None) as Ht.
  { destruct (tasks st !! d) as [ph|] eqn:Et; [|done]. exfalso. rewrite <- Ph in Et.
    apply (i_phase _ _ _ _ _ _ I) in Et. pose proof (tree_nodup _ T) as N. rewrite E1 in N.
    apply NoDup_app in N as (_ & _ & N). by apply NoDup_cons in N as [? _]. }
  assert (forall F', (forall q, F' q = if decide (q = d) then Some Waits else phase_of st q) ->
    inv (alter (set_completion false) d (devs (core st))) (d :: H) (async_error st) 0 F' (history st)) as I'.
  { intros F' HF. by eapply inv_take. }
  assert (tasks_async (change d (set_completion false) st)) as A'.
  { apply (tasks_async_same st); [|done|done]. simpl. by rewrite fixed_alter. }
  destruct (is_async pm_async_enabled x) eqn:Ax; [destruct memory|]; injection E as <-.
  - apply (good_next _ d l H (async_error st)); simpl; [done|done|done| |done|by rewrite Hm|by rewrite Hm|].
    + intros q y Hq Hs. simpl in *. destruct (decide (q = d)) as [-> |N].
      * rewrite lookup_alter_eq, Hx in Hq. injection Hq as <-. done.
      * rewrite lookup_insert_ne in Hs by done. by apply (A' q y).
    + apply I'. intros q. rewrite Ph. case_decide as D; [subst; by rewrite lookup_insert_eq|by rewrite lookup_insert_ne].
  - split; [exact A'|]. exists (d :: H). split; [unfold lists; simpl; exists l; by rewrite E2|].
    apply I'. intros q. unfold phase_of at 1. simpl. rewrite Ph. by case_decide.
  - split; [exact A'|]. exists (d :: H). split; [unfold lists; simpl; exists l; by rewrite E2|].
    apply I'. intros q. unfold phase_of at 1. simpl. rewrite Ph. by case_decide.
Qed.

Definition state_inv (st : suspending) (H : list Z) : Prop :=
  inv (devs (core st)) H (async_error st) (main_error st) (phase_of st) (history st).

Lemma begin_inv st H d st' :
  state_inv st H -> phase_of st d = Some Waits ->
  (forall q y, devs (core st) !! q = Some y -> parent y = Some d -> completion y = true) ->
  let r := begin_suspend st d in
  core st' = core r.1 -> history st' = history r.1 -> async_error st' = async_error st ->
  main_error st' = main_error st -> (forall q, phase_of st' q = if decide (q = d) then Some r.2 else phase_of st q) ->
  state_inv st' H /\ fixed <$> devs (core st') = fixed <$> devs (core st) /\ dpm_list (core st') = dpm_list (core st).
Proof.
  intros I Fd Hc r E1 E2 E3 E4 HF. unfold state_inv in *. rewrite E1, E2, E3, E4. unfold r, begin_suspend in *.
  destruct (Z.eqb_spec (async_error st) 0) as [Ha|Ha]; simpl in *.
  - split; [|done]. by eapply inv_begin.
  - split; [by eapply inv_skip|]. split; [by rewrite fixed_alter|done].
Qed.

Lemma end_inv st H d ret r st' :
  state_inv st H -> phase_of st d = Some Runs -> end_suspend st d ret = Some r ->
  core st' = core r.1 -> history st' = history r.1 -> async_error st' = async_error st ->
  main_error st' = main_error st -> (forall q, phase_of st' q = if decide (q = d) then Some r.2 else phase_of st q) ->
  state_inv st' H /\ fixed <$> devs (core st') = fixed <$> devs (core st) /\ dpm_list (core st') = dpm_list (core st).
Proof.
  intros I Fd Hr E1 E2 E3 E4 HF. unfold end_suspend in Hr. apply bind_Some in Hr as (x & Hx & Hr).
  set (e := (suspend_callbacks x ret).2) in *. injection Hr as <-.
  unfold state_inv in *. rewrite E1, E2, E3, E4. clear E1 E2 E3 E4. simpl in *.
  assert (history (if e =? 0
      then change d (set_status DPM_OFF) (set_core st (add_log d (suspend_callbacks x ret).1 (core st)))
      else set_core st (add_log d (suspend_callbacks x ret).1 (core st))) = history st) as -> by by destruct (e =? 0).
  assert (dpm_list (core (if e =? 0
      then change d (set_status DPM_OFF) (set_core st (add_log d (suspend_callbacks x ret).1 (core st)))
      else set_core st (add_log d (suspend_callbacks x ret).1 (core st)))) = dpm_list (core st)) as -> by by destruct (e =? 0).
  pose (f := fun y => set_completion true (if e =? 0 then set_status DPM_OFF y else y)).
  assert (alter (set_completion true) d (devs (core (if e =? 0
      then change d (set_status DPM_OFF) (set_core st (add_log d (suspend_callbacks x ret).1 (core st)))
      else set_core st (add_log d (suspend_callbacks x ret).1 (core st))))) = alter f d (devs (core st))) as ->.
  { unfold f. destruct (e =? 0); simpl; [|done]. apply alter_twice. }
  assert (forall y, fixed (f y) = fixed y) as Hf by (intros y; unfold f; by destruct (e =? 0)).
  split; [|by rewrite fixed_alter]. eapply inv_end; [done|done|done|done| |done].
  intros y. unfold f. by destruct (e =? 0).
Qed.

Lemma lists_same st st' H :
  lists st H -> dpm_list (core st') = dpm_list (core st) -> moved st' = moved st -> async_error st' = async_error st ->
  (tasks st = ∅ -> tasks st' = ∅) -> (forall d, tasks st !! d = None -> tasks st' !! d = None) ->
  match main st, main st' with
  | InDevice d _ _, InDevice d' _ _ => d' = d
  | m, m' => m' = m
  end -> lists st' H.
Proof.
  intros Hl E1 E2 E3 E4 E5 Em. unfold lists in *. rewrite E1, E2, E3.
  destruct (main st); [by rewrite Em| |by rewrite Em|].
  - destruct (main st'); try done. subst. destruct Hl as (l & ? & ? & ? & ?). exists l. auto.
  - rewrite Em. naive_solver.
Qed.

Lemma good_main_begin st d inlined :
  good st -> main st = InDevice d inlined Waits -> children_done pm_async_enabled st d inlined = true ->
  good (set_main (begin_suspend st d).1 (InDevice d inlined (begin_suspend st d).2)).
Proof.
  intros (A & H & Hl & I) Hm Hc.
  assert (phase_of st d = Some Waits) as Fd by (unfold phase_of; by rewrite Hm, decide_True).
  edestruct (begin_inv st H d (set_main (begin_suspend st d).1 (InDevice d inlined (begin_suspend st d).2)))
    as (I' & Ef & El); [done|done| |done|done|..].
  - intros q y Hq Hp. by eapply main_children.
  - unfold begin_suspend. by destruct (_ =? 0).
  - unfold main_error. rewrite Hm. done.
  - intros q. unfold phase_of. rewrite Hm. simpl. case_decide; [done|].
    unfold begin_suspend. by destruct (_ =? 0).
  - split; [|exists H; split; [|done]].
    + apply (tasks_async_same st); [done| |done]. intros q. unfold begin_suspend. by destruct (_ =? 0).
    + apply (lists_same st); [done|done|..]; rewrite ?Hm; try done; unfold begin_suspend; by destruct (_ =? 0).
Qed.

Lemma end_frame st d ret r :
  end_suspend st d ret = Some r ->
  moved r.1 = moved st /\ async_error r.1 = async_error st /\ tasks r.1 = tasks st /\ main r.1 = main st.
Proof. unfold end_suspend. intros (x & _ & [= <-])%bind_Some. simpl. by destruct (_ =? 0). Qed.

Lemma begin_frame st d :
  let r := begin_suspend st d in
  moved r.1 = moved st /\ async_error r.1 = async_error st /\ tasks r.1 = tasks st /\ main r.1 = main st.
Proof. unfold begin_suspend. by destruct (_ =? 0). Qed.

Lemma good_main_end st d inlined ret r :
  good st -> main st = InDevice d inlined Runs -> end_suspend st d ret = Some r ->
  good (set_main r.1 (InDevice d inlined r.2)).
Proof.
  intros (A & H & Hl & I) Hm Hr. destruct (end_frame _ _ _ _ Hr) as (F1 & F2 & F3 & F4).
  assert (phase_of st d = Some Runs) as Fd by (unfold phase_of; by rewrite Hm, decide_True).
  destruct (end_inv st H d ret r (set_main r.1 (InDevice d inlined r.2))) as (I' & Ef & El);
    [done|done|done|done|done|done| | |].
  - unfold main_error. by rewrite Hm.
  - intros q. unfold phase_of. rewrite Hm. simpl. by rewrite F3; case_decide.
  - split; [|exists H; split; [|done]].
    + apply (tasks_async_same st); [done| |done]. intros q. simpl. by rewrite F3.
    + apply (lists_same st); simpl; rewrite ?Hm, ?F3; done.
Qed.

Lemma good_main_return st d inlined e :
  good st -> main st = InDevice d inlined (Returned e) -> good (main_return st d inlined e).
Proof.
  intros (A & H & Hl & I) Hm. unfold lists in Hl. rewrite Hm in Hl. destruct Hl as (l & E1 & -> & E3 & E4).
  assert (phase_of st d = Some (Returned e)) as Fd by (unfold phase_of; by rewrite Hm, decide_True).
  assert (main_error st = 0) as Me by (unfold main_error; by rewrite Hm). rewrite Me in I.
  assert (forall q, tasks st !! q = if decide (q = d) then None else phase_of st q) as HF.
  { intros q. unfold phase_of. rewrite Hm. case_decide; [by subst|done]. }
  unfold main_return. destruct inlined; [|destruct (Z.eqb_spec e 0) as [-> |Ne]].
  - apply (good_next _ d l (moved st) (if e =? 0 then async_error st else e)); unfold async_return;
      destruct (Z.eqb_spec e 0); simpl; rewrite ?Hm; try done; eapply inv_return; done || auto.
  - apply (good_next _ d l (moved st) (async_error st)); rewrite ?Hm; try done. eapply inv_return; done || auto.
  - apply (good_leave st (d :: moved st)); [by rewrite E3, E1, <- app_assoc|done|auto|]. eapply inv_return; done || auto.
Qed.

Lemma phase_task st H d ph : lists st H -> tasks st !! d = Some ph -> phase_of st d = Some ph.
Proof.
  intros Hl Ht. unfold phase_of. unfold lists in Hl. destruct (main st) as [|d' i ph'| |]; try done.
  case_decide; [|done]. subst. destruct Hl as (l & _ & _ & _ & E). congruence.
Qed.

Lemma phase_insert st H d ph ph' t :
  lists st H -> tasks st !! d = Some ph -> main t = main st -> tasks t = <[d := ph']> (tasks st) ->
  forall q, phase_of t q = if decide (q = d) then Some ph' else phase_of st q.
Proof.
  intros Hl Ht E1 E2 q. unfold phase_of. rewrite E1, E2. unfold lists in Hl.
  destruct (main st) as [|d' i ph0| |].
  2:{ destruct Hl as (l & _ & _ & _ & E). case_decide; [subst q|].
      - rewrite decide_False by congruence. done.
      - case_decide; [subst; by rewrite lookup_insert_eq|by rewrite lookup_insert_ne]. }
  all: case_decide; [subst; by rewrite lookup_insert_eq|by rewrite lookup_insert_ne].
Qed.

Lemma phase_delete st H d ph t :
  lists st H -> tasks st !! d = Some ph -> main t = main st -> tasks t = delete d (tasks st) ->
  forall q, phase_of t q = if decide (q = d) then None else phase_of st q.
Proof.
  intros Hl Ht E1 E2 q. unfold phase_of. rewrite E1, E2. unfold lists in Hl.
  destruct (main st) as [|d' i ph0| |].
  2:{ destruct Hl as (l & _ & _ & _ & E). case_decide; [subst q|].
      - rewrite decide_False by congruence. done.
      - case_decide; [subst; by rewrite lookup_delete_eq|by rewrite lookup_delete_ne]. }
  all: case_decide; [subst; by rewrite lookup_delete_eq|by rewrite lookup_delete_ne].
Qed.

Lemma lists_insert st H d ph ph' t :
  lists st H -> tasks st !! d = Some ph -> dpm_list (core t) = dpm_list (core st) -> moved t = moved st ->
  async_error t = async_error st -> main t = main st -> tasks t = <[d := ph']> (tasks st) -> lists t H.
Proof.
  intros Hl Ht E1 E2 E3 E4 E5. apply (lists_same st); rewrite ?E5; try done.
  - intros E. rewrite E, lookup_empty in Ht. done.
  - intros q Hq. rewrite lookup_insert_ne; [done|]. congruence.
  - rewrite E4. by destruct (main st).
Qed.

Lemma tasks_async_insert st t d ph ph' :
  tasks_async st -> tasks st !! d = Some ph -> fixed <$> devs (core t) = fixed <$> devs (core st) ->
  tasks t = <[d := ph']> (tasks st) -> tasks_async t.
Proof.
  intros A Ht Ef E. apply (tasks_async_same st); [done| |done]. intros q. rewrite E.
  destruct (decide (q = d)) as [-> |N]; [by rewrite Ht|by rewrite lookup_insert_ne].
Qed.

Lemma good_task_begin st d :
  good st -> tasks st !! d = Some Waits -> children_done pm_async_enabled st d true = true ->
  good (set_tasks (begin_suspend st d).1 (<[d := (begin_suspend st d).2]> (tasks st))).
Proof.
  intros (A & H & Hl & I) Ht Hc. destruct (begin_frame st d) as (F1 & F2 & F3 & F4).
  destruct (begin_inv st H d (set_tasks (begin_suspend st d).1 (<[d := (begin_suspend st d).2]> (tasks st))))
    as (I' & Ef & El); [done|by eapply phase_task| |done|done|done| | |].
  - intros q y Hq Hp. by eapply children_done_true.
  - unfold main_error. simpl. by rewrite F4.
  - by eapply phase_insert.
  - split; [by eapply tasks_async_insert|]. exists H. split; [by eapply lists_insert|done].
Qed.

Lemma good_task_end st d ret r :
  good st -> tasks st !! d = Some Runs -> end_suspend st d ret = Some r ->
  good (set_tasks r.1 (<[d := r.2]> (tasks st))).
Proof.
  intros (A & H & Hl & I) Ht Hr. destruct (end_frame _ _ _ _ Hr) as (F1 & F2 & F3 & F4).
  destruct (end_inv st H d ret r (set_tasks r.1 (<[d := r.2]> (tasks st)))) as (I' & Ef & El);
    [done|by eapply phase_task|done|done|done|done| | |].
  - unfold main_error. simpl. by rewrite F4.
  - by eapply phase_insert.
  - split; [by eapply tasks_async_insert|]. exists H. split; [by eapply lists_insert|done].
Qed.

Lemma good_task_return st d e :
  good st -> tasks st !! d = Some (Returned e) ->
  good (set_tasks (async_return st e) (delete d (tasks st))).
Proof.
  intros (A & H & Hl & I) Ht.
  assert (main (async_return st e) = main st /\ core (async_return st e) = core st /\ moved (async_return st e) = moved st /\
    history (async_return st e) = history st) as (F1 & F2 & F3 & F4) by (unfold async_return; by destruct (e =? 0)).
  assert ((e <> 0 -> async_error (async_return st e) <> 0) /\
    (async_error st <> 0 -> async_error (async_return st e) <> 0)) as [F5 F6].
  { unfold async_return. by destruct (Z.eqb_spec e 0). }
  split; [apply (tasks_async_same st); simpl; rewrite ?F2; [done| |done]; intros q [ph [_ ?]%lookup_delete_Some]; by eexists|].
  exists H. split.
  - unfold lists in *. simpl. rewrite F1, F2, F3. destruct (main st); [done| |naive_solver|].
    + destruct Hl as (l & ? & ? & ? & ?). exists l. do 3 (split; [done|]). apply lookup_delete_None. by right.
    + destruct Hl as (_ & _ & Et & _). rewrite Et, lookup_empty in Ht. done.
  - unfold state_inv, main_error in *. simpl. rewrite F1, F2, F4.
    eapply inv_return; [done|by eapply phase_task|by eapply phase_delete|auto|done|done].
Qed.

Lemma good_finish st e :
  good st -> main st = Synchronize e -> tasks st = ∅ ->
  good (set_main st (Done (if e =? 0 then async_error st else e))).
Proof.
  intros (A & H & Hl & I) Hm Ht. split; [done|]. exists H. unfold lists in *. rewrite Hm in Hl. destruct Hl as [E1 E2].
  unfold main_error in I. rewrite Hm in I. split.
  - simpl. split; [done|]. split; [|split; [done|]]; destruct (Z.eqb_spec e 0); naive_solver.
  - simpl. unfold main_error. simpl. eapply inv_error; [done| |].
    + by destruct (Z.eqb_spec e 0).
    + intros q. unfold phase_of. by rewrite Hm.
Qed.

Lemma good_step st e st' : good st -> step pm_async_enabled st e = Some st' -> good st'.
Proof.
  intros G H. unfold step in H.
  destruct e as [memory| |ret| |d|d ret|d|].
  5,6,7: destruct (tasks st !! d) as [[| |error]|] eqn:Ht; try done.
  - destruct (main st) eqn:Hm; try done. by eapply good_take.
  - destruct (main st) as [|d i [| |]| |] eqn:Hm; try done. destruct (children_done _ _ _ _) eqn:Hc; [|done].
    injection H as <-. by apply good_main_begin.
  - destruct (main st) as [|d i [| |]| |] eqn:Hm; try done. apply bind_Some in H as (r & Hr & [= <-]).
    by eapply good_main_end.
  - destruct (main st) as [|d i [| |error]| |] eqn:Hm; try done. injection H as <-. by apply good_main_return.
  - destruct (children_done _ _ _ _) eqn:Hc; [|done]. injection H as <-. by apply good_task_begin.
  - apply bind_Some in H as (r & Hr & [= <-]). by eapply good_task_end.
  - injection H as <-. by apply good_task_return.
  - destruct (main st) as [| |error|] eqn:Hm; try done. case_bool_decide; [|done]. injection H as <-. by apply good_finish.
Qed.

Lemma reachable_good st :
  (forall d x, devs c !! d = Some x -> status x = DPM_SUSPENDING) -> reachable pm_async_enabled c st -> good st.
Proof.
  intros S0. induction 1 as [|st e st' _ IH E]; [by apply good_start|]. by eapply good_step.
Qed.

(** ** Progress *)

Lemma good_lookup st H d : good st -> lists st H -> state_inv st H -> d ∈ dpm_list c -> is_Some (devs (core st) !! d).
Proof.
  intros _ _ I Hd. apply (tree_devs _ T) in Hd as [x Hx].
  destruct (fixed_lookup _ _ _ _ (eq_sym (i_fixed _ _ _ _ _ _ I)) Hx) as (y & Hy & _). by eexists.
Qed.

Lemma suffix_in H l d : dpm_list c = l ++ H -> d ∈ H -> d ∈ dpm_list c.
Proof. intros ->. set_solver. Qed.

(** A device that is not done waiting has a child that is not done. *)
Lemma not_done_child st H d async :
  state_inv st H -> d ∈ H -> children_done pm_async_enabled st d async = false ->
  exists q y, devs (core st) !! q = Some y /\ parent y = Some d /\ completion y = false /\ q ∈ H /\ q <> d.
Proof.
  intros I Hd Hc. apply not_true_iff_false in Hc. rewrite children_done_true in Hc.
  destruct (decide (Exists (fun y : Z * device => parent y.2 = Some d /\ completion y.2 = false)
    (map_to_list (devs (core st))))) as [E|E].
  - apply Exists_exists in E as ([q y] & Hin & Hp & Hf). apply elem_of_map_to_list in Hin. simpl in *.
    exists q, y. destruct (inv_child _ _ _ _ _ _ _ _ _ I Hd Hin Hp). auto.
  - exfalso. apply Hc. intros q y Hq Hp _. destruct (completion y) eqn:C; [done|]. exfalso. apply E.
    apply Exists_exists. exists (q, y). rewrite elem_of_map_to_list. done.
Qed.

(** The device in hand is in front of those in the local list. *)
Lemma main_not_behind st H q d i ph l1 l2 :
  lists st H -> main st = InDevice q i ph -> d ∈ H -> q <> d -> dpm_list c = l1 ++ d :: l2 -> q ∉ l2.
Proof.
  intros Hl Hm Hd Hn El Hq. unfold lists in Hl. rewrite Hm in Hl. destruct Hl as (l & _ & -> & El' & _).
  apply elem_of_cons in Hd as [->|(u & v & E)%list_elem_of_split]; [done|].
  pose proof (tree_nodup _ T) as N. rewrite El in El', N. rewrite E in El'.
  replace (l ++ q :: u ++ d :: v) with ((l ++ q :: u) ++ d :: v) in El' by by rewrite <- app_assoc.
  destruct (NoDup_middle_eq _ _ _ _ _ N El') as [-> ->]. apply NoDup_app in N as (_ & N & _). apply (N q); set_solver.
Qed.

(** When a task is there, a task can go on: the one farthest back. *)
Lemma task_progress st H :
  good st -> lists st H -> state_inv st H ->
  forall l2 l1 d, dpm_list c = l1 ++ d :: l2 -> is_Some (tasks st !! d) -> exists e st', step pm_async_enabled st e = Some st'.
Proof.
  intros G Hl I. induction l2 as [l2 IH] using (induction_ltof1 _ (@length Z)). unfold ltof in IH.
  intros l1 d El [ph Ht]. pose proof (phase_task _ _ _ _ Hl Ht) as Fd. pose proof (i_phase _ _ _ _ _ _ I _ _ Fd) as Hd.
  assert (d ∈ dpm_list c) as Hin by (rewrite El; set_solver). destruct (good_lookup _ _ _ G Hl I Hin) as [x Hx].
  destruct ph as [| |e].
  - destruct (children_done pm_async_enabled st d true) eqn:Hc.
    + eexists (TaskBegin d), _. simpl. rewrite Ht, Hc. by destruct (main st).
    + destruct (not_done_child st H d true I Hd Hc) as (q & y & Hq & Hp & Hf & Hqh & Hn).
      destruct (fixed_lookup _ _ _ _ (i_fixed _ _ _ _ _ _ I) Hq) as (z & Hz & Ez). apply fixed_parent in Ez.
      assert (q ∈ l2) as Hq2 by (eapply (tree_order _ T); [done|done|congruence]).
      pose proof (i_compl _ _ _ _ _ _ I _ _ Hq Hqh) as Hi. rewrite Hf in Hi.
      apply list_elem_of_split in Hq2 as (a & b & ->).
      apply (IH b ltac:(rewrite length_app; simpl; lia) (l1 ++ d :: a) q); [by rewrite El, <- app_assoc|].
      destruct (tasks st !! q) eqn:Et; [by eexists|]. exfalso.
      unfold phase_of in Hi. destruct (main st) as [|d' i ph'| |] eqn:Hm; rewrite ?Et in Hi; try done.
      case_decide; [subst d'|done]. eapply (main_not_behind st H q d); [done|done|done|done|done|set_solver].
  - destruct (end_suspend st d (fun _ => 0)) as [r|] eqn:Hr; [|unfold end_suspend in Hr; by rewrite Hx in Hr].
    eexists (TaskEnd d (fun _ => 0)), _. simpl. rewrite Ht, Hr. by destruct (main st).
  - eexists (TaskReturn d), _. simpl. rewrite Ht. by destruct (main st).
Qed.

Lemma main_progress st :
  good st -> (exists e, main st = Done e) \/ exists e st', step pm_async_enabled st e = Some st'.
Proof.
  intros G. pose proof G as (A & H & Hl & I).
  assert (forall q, is_Some (tasks st !! q) -> exists e st', step pm_async_enabled st e = Some st') as Tp.
  { intros q [ph Hq]. assert (q ∈ dpm_list c) as (l1 & l2 & E)%list_elem_of_split.
    { destruct (i_suffix _ _ _ _ _ _ I) as [l El]. eapply suffix_in; [done|].
      eapply (i_phase _ _ _ _ _ _ I). by eapply phase_task. }
    eapply task_progress; [done|done|done|exact E|by eexists]. }
  destruct (main st) as [|d i ph|e|e] eqn:Hm; [right..|by left; eexists].
  - unfold lists in Hl. rewrite Hm in Hl. destruct Hl as [E1 E2]. exists (Take true).
    simpl. rewrite Hm. unfold take_device. destruct (last (dpm_list (core st))) as [d|] eqn:El; [|by eexists].
    apply last_Some in El as [l El]. destruct (good_lookup st H d) as [x ->]; [done|unfold lists; by rewrite Hm|done| |].
    { rewrite E1, El. set_solver. }
    simpl. destruct (is_async _ _); by eexists.
  - assert (d ∈ H) as Hd. { unfold lists in Hl. rewrite Hm in Hl. destruct Hl as (l & _ & -> & _). set_solver. }
    destruct (i_suffix _ _ _ _ _ _ I) as [l El]. destruct (good_lookup st H d) as [x Hx]; [done|done|done|by eapply suffix_in|].
    destruct ph as [| |e].
    + destruct (children_done pm_async_enabled st d i) eqn:Hc; [exists MainBegin; simpl; rewrite Hm, Hc; by eexists|].
      destruct (not_done_child st H d i I Hd Hc) as (q & y & Hq & Hp & Hf & Hqh & Hn).
      pose proof (i_compl _ _ _ _ _ _ I _ _ Hq Hqh) as Hi. rewrite Hf in Hi. unfold phase_of in Hi.
      rewrite Hm, decide_False in Hi by done. apply (Tp q). by destruct (tasks st !! q); [eexists|].
    + exists (MainEnd (fun _ => 0)). simpl. rewrite Hm. unfold end_suspend. rewrite Hx. by eexists.
    + exists MainReturn. simpl. rewrite Hm. by eexists.
  - destruct (decide (tasks st = ∅)) as [E|E].
    + exists Finish. simpl. rewrite Hm, bool_decide_eq_true_2 by done. by eexists.
    + apply map_choose in E as (q & ph & Hq). apply (Tp q). by eexists.
Qed.

(** ** A bound on the number of steps *)

Definition phase_weight (ph : option phase) : nat :=
  match ph with Some Waits => 3 | Some Runs => 2 | Some (Returned _) => 1 | None => 0 end.

Definition main_weight (st : suspending) : nat :=
  match main st with
  | Loop => 5 * length (dpm_list (core st)) + 2
  | InDevice _ _ ph => 5 * (length (dpm_list (core st)) - 1) + 2 + phase_weight (Some ph)
  | Synchronize _ => 1
  | Done _ => 0
  end.

Definition weight (st : suspending) : nat :=
  main_weight st + sum_list_with (fun d => phase_weight (tasks st !! d)) (dpm_list c).

(** The weight when the phase of a task changes. *)
Lemma task_weight st t d :
  d ∈ dpm_list c -> (forall q, q <> d -> tasks t !! q = tasks st !! q) ->
  (weight t + main_weight st + phase_weight (tasks st !! d) = weight st + main_weight t + phase_weight (tasks t !! d))%nat.
Proof.
  intros Hd E. unfold weight.
  pose proof (sum_list_update (fun d => phase_weight (tasks st !! d)) (fun d => phase_weight (tasks t !! d)) (dpm_list c) d
    (tree_nodup _ T) Hd ltac:(intros; simpl; by rewrite E)). simpl in *. lia.
Qed.

Lemma weight_tasks st t :
  tasks t = tasks st -> (weight t + main_weight st = weight st + main_weight t)%nat.
Proof. intros E. unfold weight. rewrite E. lia. Qed.

Lemma next_weight st d l :
  dpm_list (core st) = l ++ [d] -> (main_weight (next (move st d)) <= 5 * length l + 2)%nat.
Proof.
  intros E. unfold next, move. simpl. destruct (_ =? 0); unfold main_weight; simpl; [|lia].
  by rewrite E, removelast_last.
Qed.

Lemma next_tasks st d : tasks (next (move st d)) = tasks st.
Proof. unfold next. by destruct (_ =? 0). Qed.

Lemma take_weight st memory st' :
  good st -> main st = Loop -> take_device pm_async_enabled st memory = Some st' -> (weight st' < weight st)%nat.
Proof.
  intros (A & H & Hl & I) Hm E. unfold lists in Hl. rewrite Hm in Hl. destruct Hl as [E1 E2].
  assert (main_weight st = 5 * length (dpm_list (core st)) + 2)%nat as W by (unfold main_weight; by rewrite Hm).
  unfold take_device in E. destruct (last (dpm_list (core st))) as [d|] eqn:El; cycle 1.
  { injection E as <-. pose proof (weight_tasks st (leave st 0) eq_refl).
    assert (main_weight (leave st 0) = 1%nat) by done. lia. }
  apply last_Some in El as [l El]. apply bind_Some in E as (x & Hx & E). rewrite El, length_app in W. simpl in W.
  assert (d ∈ dpm_list c) as Hd by (rewrite E1, El; set_solver).
  assert (tasks st !! d = None) as Ht.
  { destruct (tasks st !! d) as [ph|] eqn:Et; [|done]. exfalso.
    assert (phase_of st d = Some ph) as Ep by (unfold phase_of; by rewrite Hm).
    apply (i_phase _ _ _ _ _ _ I) in Ep. pose proof (tree_nodup _ T) as N. rewrite E1, El in N.
    apply NoDup_app in N as (_ & N & _). apply (N d); set_solver. }
  destruct (is_async pm_async_enabled x); [destruct memory|]; injection E as <-.
  - set (t := set_tasks _ _). pose proof (next_weight t d l El) as Wn.
    pose proof (task_weight st (next (move t d)) d Hd) as Wt. rewrite next_tasks in Wt. simpl in Wt.
    rewrite Ht, lookup_insert_eq in Wt. simpl in Wt. specialize (Wt ltac:(intros; by rewrite lookup_insert_ne)). lia.
  - set (t := set_main _ _). pose proof (weight_tasks st t eq_refl) as Wt.
    assert (main_weight t = 5 * length l + 5)%nat; [|lia].
    unfold main_weight. simpl. rewrite El, length_app. simpl. lia.
  - set (t := set_main _ _). pose proof (weight_tasks st t eq_refl) as Wt.
    assert (main_weight t = 5 * length l + 5)%nat; [|lia].
    unfold main_weight. simpl. rewrite El, length_app. simpl. lia.
Qed.

Lemma return_weight st d i e :
  good st -> main st = InDevice d i (Returned e) -> (weight (main_return st d i e) < weight st)%nat.
Proof.
  intros (A & H & Hl & I) Hm. unfold lists in Hl. rewrite Hm in Hl. destruct Hl as (l & E1 & _).
  assert (main_weight st = 5 * length l + 3)%nat as W.
  { unfold main_weight. rewrite Hm, E1, length_app. simpl. lia. }
  assert (tasks (main_return st d i e) = tasks st) as Et.
  { unfold main_return, async_return. destruct i, (e =? 0); rewrite ?next_tasks; done. }
  pose proof (weight_tasks _ _ Et). enough (main_weight (main_return st d i e) <= 5 * length l + 2)%nat by lia.
  unfold main_return, async_return. destruct i, (e =? 0); try (by apply next_weight). unfold main_weight. simpl. lia.
Qed.

(** A call whose phase goes on. *)
Lemma begin_weight st d : (phase_weight (Some (begin_suspend st d).2) < 3)%nat.
Proof. unfold begin_suspend. destruct (_ =? 0); simpl; lia. Qed.

Lemma end_weight st d ret r : end_suspend st d ret = Some r -> (phase_weight (Some r.2) < 2)%nat.
Proof. unfold end_suspend. intros (x & _ & [= <-])%bind_Some. simpl. lia. Qed.

Lemma main_phase_weight st t d i ph ph' :
  main st = InDevice d i ph -> main t = InDevice d i ph' -> tasks t = tasks st ->
  dpm_list (core t) = dpm_list (core st) -> (phase_weight (Some ph') < phase_weight (Some ph))%nat ->
  (weight t < weight st)%nat.
Proof.
  intros E1 E2 E3 E4 Hp. pose proof (weight_tasks _ _ E3) as W. unfold main_weight in W. rewrite E1, E2, E4 in W. lia.
Qed.

Lemma task_phase_weight st t d ph v :
  d ∈ dpm_list c -> tasks st !! d = Some ph -> tasks t = v -> main t = main st ->
  dpm_list (core t) = dpm_list (core st) -> (forall q, q <> d -> v !! q = tasks st !! q) ->
  (phase_weight (v !! d) < phase_weight (Some ph))%nat -> (weight t < weight st)%nat.
Proof.
  intros Hd Ht Ev Em El Hv Hp. subst v. pose proof (task_weight st t d Hd Hv) as W. rewrite Ht in W.
  assert (main_weight t = main_weight st) by (unfold main_weight; by rewrite Em, El). lia.
Qed.

Lemma step_weight st e st' : good st -> step pm_async_enabled st e = Some st' -> (weight st' < weight st)%nat.
Proof.
  intros G H. pose proof G as (A & L & Hl & I). unfold step in H.
  assert (forall d ph, tasks st !! d = Some ph -> d ∈ dpm_list c) as Hd.
  { intros d ph Ht. destruct (i_suffix _ _ _ _ _ _ I) as [l El]. eapply suffix_in; [done|].
    eapply (i_phase _ _ _ _ _ _ I). by eapply phase_task. }
  destruct e as [memory| |ret| |d|d ret|d|].
  5,6,7: destruct (tasks st !! d) as [[| |error]|] eqn:Ht; try done; pose proof (Hd _ _ Ht) as Hin.
  - destruct (main st) eqn:Hm; try done. by eapply take_weight.
  - destruct (main st) as [|d i [| |]| |] eqn:Hm; try done. destruct (children_done _ _ _ _); [|done].
    injection H as <-. destruct (begin_frame st d) as (_ & _ & F3 & _).
    eapply (main_phase_weight st); [done|done|done| |apply begin_weight]. simpl. unfold begin_suspend. by destruct (_ =? 0).
  - destruct (main st) as [|d i [| |]| |] eqn:Hm; try done. apply bind_Some in H as (r & Hr & [= <-]).
    destruct (end_frame _ _ _ _ Hr) as (_ & _ & F3 & _).
    eapply (main_phase_weight st); [done|done|done| |by eapply end_weight].
    unfold end_suspend in Hr. apply bind_Some in Hr as (x & _ & [= <-]). simpl. by destruct (_ =? 0).
  - destruct (main st) as [|d i [| |error]| |] eqn:Hm; try done. injection H as <-. by apply return_weight.
  - destruct (children_done _ _ _ _); [|done]. injection H as <-. destruct (begin_frame st d) as (_ & _ & _ & F4).
    eapply (task_phase_weight st _ d); [done|done|done|done| | |].
    + simpl. unfold begin_suspend. by destruct (_ =? 0).
    + intros q Hq. simpl. by rewrite lookup_insert_ne.
    + simpl. rewrite lookup_insert_eq. apply begin_weight.
  - apply bind_Some in H as (r & Hr & [= <-]). destruct (end_frame _ _ _ _ Hr) as (_ & _ & _ & F4).
    eapply (task_phase_weight st _ d); [done|done|done|done| | |].
    + unfold end_suspend in Hr. apply bind_Some in Hr as (x & _ & [= <-]). simpl. by destruct (_ =? 0).
    + intros q Hq. simpl. by rewrite lookup_insert_ne.
    + simpl. rewrite lookup_insert_eq. by eapply end_weight.
  - injection H as <-. eapply (task_phase_weight st _ d); [done|done|done| | | |].
    + unfold async_return. by destruct (_ =? 0).
    + unfold async_return. by destruct (_ =? 0).
    + intros q Hq. simpl. by rewrite lookup_delete_ne.
    + simpl. rewrite lookup_delete_eq. simpl. lia.
  - destruct (main st) as [| |error|] eqn:Hm; try done. case_bool_decide; [|done]. injection H as <-.
    pose proof (weight_tasks st (set_main st (Done (if error =? 0 then async_error st else error))) eq_refl) as W.
    unfold main_weight in W. rewrite Hm in W. simpl in W. lia.
Qed.

End invariant.

(** ** Theorems *)

(** dpm_suspend() is called when dpm_prepare() has prepared every device. *)
Definition prepared (c : dpm) : Prop :=
  tree c /\ forall d x, devs c !! d = Some x -> status x = DPM_SUSPENDING.

Fixpoint run (pm_async_enabled : bool) (st : suspending) (l : list event) : option suspending :=
  match l with
  | [] => Some st
  | e :: l => st ← step pm_async_enabled st e; run pm_async_enabled st l
  end.

Lemma suspend_run_reachable b c l st st' : reachable b c st -> run b st l = Some st' -> reachable b c st'.
Proof.
  revert st. induction l as [|e l IH]; intros st R H; simpl in H; [by simplify_eq|].
  apply bind_Some in H as (st1 & E & H). eapply IH; [|done]. by eapply reach_step.
Qed.

Lemma run_weight b c l st st' :
  tree c -> good c b st -> run b st l = Some st' -> (length l + weight c st' <= weight c st)%nat /\ good c b st'.
Proof.
  intros T. revert st. induction l as [|e l IH]; intros st G H; simpl in H; [simplify_eq; simpl; split; [lia|done]|].
  apply bind_Some in H as (st1 & E & H). pose proof (step_weight c T b st e st1 G E).
  destruct (IH st1 (good_step c T b st e st1 G E) H). simpl. split; [lia|done].
Qed.

(** A device 1 with the child 2, which can suspend asynchronously. *)
Definition bus_ops : subsystem := mk_subsystem (Some (mk_ops false false true true false false)) false false.
Definition two_devices : dpm :=
  mk_dpm [1; 2] (<[1 := mk_device None (Some bus_ops) None None false DPM_SUSPENDING true 0]>
    {[2 := mk_device (Some 1) (Some bus_ops) None None true DPM_SUSPENDING true 0]}) true [].

Lemma two_devices_prepared : prepared two_devices.
Proof.
  assert (forall d x, devs two_devices !! d = Some x ->
    d = 1 /\ parent x = None /\ status x = DPM_SUSPENDING \/ d = 2 /\ parent x = Some 1 /\ status x = DPM_SUSPENDING) as D.
  { intros d x H. unfold two_devices in H. simpl in H.
    apply lookup_insert_Some in H as [[<- <-]|[_ [<- <-]%lookup_singleton_Some]]; auto. }
  split; [constructor|].
  - apply (bool_decide_unpack _). vm_compute. exact I.
  - intros d. simpl. split.
    + intros [->|[->|[]%elem_of_nil]%elem_of_cons]%elem_of_cons; by eexists.
    + intros [x Hx]. destruct (D d x Hx) as [[-> _]|[-> _]]; set_solver.
  - intros q x p Hq Hp. destruct (D q x Hq) as [(_ & E & _)|(_ & E & _)]; [congruence|].
    assert (p = 1) as -> by congruence. by eexists.
  - intros l1 p l2 q x E Hq Hp. destruct (D q x Hq) as [(-> & E' & _)|(-> & E' & _)]; [congruence|].
    assert (p = 1) as -> by congruence. destruct l1 as [|a [|b [|]]]; simpl in E; simplify_eq. set_solver.
  - intros d x Hx. by destruct (D d x Hx) as [(_ & _ & ?)|(_ & _ & ?)].
Qed.

Definition ok_events : list event :=
  [Take true; Take true; TaskBegin 2; TaskEnd 2 no_error; MainBegin; MainEnd no_error; MainReturn; TaskReturn 2;
   Take true; Finish].

Definition suspended : suspending :=
  match run true (start two_devices) ok_events with Some st => st | None => start two_devices end.

Lemma suspended_reachable : reachable true two_devices suspended.
Proof.
  unfold suspended. destruct (run true (start two_devices) ok_events) as [st|] eqn:E; [|apply reach_start].
  by eapply suspend_run_reachable; [apply reach_start|].
Qed.

Lemma suspend_fixed pm_async_enabled c st :
  prepared c -> reachable pm_async_enabled c st -> fixed <$> devs (core st) = fixed <$> devs c.
Proof.
  intros [T S0] R. destruct (reachable_good c T pm_async_enabled st S0 R) as (_ & H & _ & I).
  apply (i_fixed _ _ _ _ _ _ _ I).
Qed.

(** When dpm_suspend() returns, no asynchronous call is left and the list
    of devices is in its order; a device is DPM_OFF if its callbacks ended
    without an error, and otherwise as it was; without an error all devices
    are DPM_OFF. *)
Lemma suspend_done pm_async_enabled c st e :
  prepared c -> reachable pm_async_enabled c st -> main st = Done e ->
  tasks st = ∅ /\ dpm_list (core st) = dpm_list c /\
  (forall d x, devs (core st) !! d = Some x ->
     status x = (if bool_decide (Ended d 0 ∈ history st) then DPM_OFF else DPM_SUSPENDING) /\
     (e = 0 -> status x = DPM_OFF)).
Proof.
  intros [T S0] R Hm. destruct (reachable_good c T pm_async_enabled st S0 R) as (_ & H & Hl & I).
  unfold lists in Hl. rewrite Hm in Hl. destruct Hl as (E1 & E2 & E3 & E4). split; [done|]. split; [done|].
  intros d x Hx. split.
  - destruct (i_status _ _ _ _ _ _ _ I _ _ Hx) as [[-> ?]|[-> ?]]; by case_bool_decide.
  - intros ->. destruct E2 as [->|?]; [|done].
    destruct (fixed_lookup _ _ _ _ (i_fixed _ _ _ _ _ _ _ I) Hx) as (y & Hy & _).
    assert (phase_of st d = None) as Hp by (unfold phase_of; by rewrite Hm, E3, lookup_empty).
    destruct (i_ok _ _ _ _ _ _ _ I d x) as [?|[?|[?|(e & E & _)]]]; [..|done| | |].
    + apply (tree_devs _ T). by eexists.
    + done.
    + by rewrite Hp.
    + by rewrite E4 in *.
    + unfold main_error in *. by rewrite Hm in *.
    + by rewrite Hp in E.
Qed.

Lemma complete_run pm_async_enabled c :
  prepared c -> exists l st e, run pm_async_enabled (start c) l = Some st /\ main st = Done e.
Proof.
  intros [T S0]. pose proof (good_start c pm_async_enabled S0) as G. revert G. generalize (start c). intros st.
  induction st as [st IH] using (induction_ltof1 _ (weight c)). unfold ltof in IH. intros G.
  destruct (main_progress c T _ st G) as [[e He]|(e & st' & E)]; [by exists [], st, e|].
  destruct (IH st') as (l & st1 & e1 & H1 & H2); [by eapply step_weight|by eapply good_step|].
  exists (e :: l), st1, e1. split; [|done]. simpl. by rewrite E.
Qed.

(** C17. In every interleaving of the main loop of dpm_suspend() and the
    asynchronous calls, when the suspend callbacks of a device begin, those of
    each of its children have ended or are never called. *)
Theorem dpm_suspend_order pm_async_enabled c st :
  prepared c -> reachable pm_async_enabled c st ->
  forall h1 d h2, history st = h1 ++ Began d :: h2 ->
  forall q y, devs c !! q = Some y -> parent y = Some d ->
  Began q ∈ history st -> exists e, Ended q e ∈ h1.
Proof.
  intros [T S0] R. destruct (reachable_good c T pm_async_enabled st S0 R) as (_ & H & _ & I). apply I.
Qed.

Lemma dpm_suspend_order_witness : exists e, Ended 2 e ∈ [Began 2; Ended 2 0].
Proof.
  apply (dpm_suspend_order true two_devices suspended two_devices_prepared suspended_reachable
    [Began 2; Ended 2 0] 1 [Ended 1 0] ltac:(vm_compute; reflexivity) 2
    (mk_device (Some 1) (Some bus_ops) None None true DPM_SUSPENDING true 0) ltac:(reflexivity) ltac:(reflexivity)).
  replace (history suspended) with [Began 2; Ended 2 0; Began 1; Ended 1 0] by (vm_compute; reflexivity). left.
Defined.

(** C18. dpm_suspend() terminates: however the steps are interleaved there are
    at most five for each device and two more, and as long as the main thread
    is not at the end some step is possible, that is no call waits for ever. *)
Theorem dpm_suspend_terminates pm_async_enabled c l st :
  prepared c -> run pm_async_enabled (start c) l = Some st ->
  (length l <= 5 * length (dpm_list c) + 2)%nat /\
  ((exists e, main st = Done e) \/ exists e st', step pm_async_enabled st e = Some st').
Proof.
  intros [T S0] H. destruct (run_weight _ c _ _ _ T (good_start c pm_async_enabled S0) H) as [W G].
  split; [|by apply (main_progress c)].
  assert (weight c (start c) = 5 * length (dpm_list c) + 2)%nat as E; [|lia].
  unfold weight, main_weight. simpl. enough (forall k : list Z,
    sum_list_with (fun d => phase_weight ((∅ : gmap Z phase) !! d)) k = 0%nat) as -> by lia.
  intros k. induction k; simpl; rewrite ?lookup_empty; done.
Qed.

Lemma dpm_suspend_terminates_witness :
  exists st, run true (start two_devices) ok_events = Some st /\ (length ok_events <= 12)%nat.
Proof.
  destruct (run true (start two_devices) ok_events) as [st|] eqn:E; [|vm_compute in E; discriminate E].
  exists st. split; [reflexivity|].
  apply (dpm_suspend_terminates true two_devices ok_events st two_devices_prepared E).
Defined.

(** C19. The suspend callbacks of a device can be called although a child of it
    has failed to suspend: __device_suspend() wakes the parent up before
    async_suspend() stores the error in async_error. *)
Theorem dpm_suspend_parent_after_failure :
  exists c st d q y e, prepared c /\ reachable true c st /\ devs c !! q = Some y /\ parent y = Some d /\ e <> 0 /\
    history st = [Began q; Ended q e; Began d].
Proof.
  exists two_devices. destruct (run true (start two_devices)
    [Take true; Take true; TaskBegin 2; TaskEnd 2 (fun _ => - EBUSY); MainBegin]) as [st|] eqn:E;
    [|vm_compute in E; discriminate E].
  exists st, 1, 2, (mk_device (Some 1) (Some bus_ops) None None true DPM_SUSPENDING true 0), (- EBUSY).
  split; [apply two_devices_prepared|]. split; [by eapply suspend_run_reachable; [apply reach_start|]|].
  split; [reflexivity|]. split; [reflexivity|]. split; [discriminate|].
  vm_compute in E. injection E as <-. reflexivity.
Qed.

End DpmSuspend.
