(* ===== verification/DpmResume.v ===== *)
(** Resuming the devices, dpm_resume() of drivers/base/power/main.c: a first
    loop schedules the asynchronous calls, a second one resumes the other
    devices from the start of the list; a device waits for its parent.

    The model is like that of DpmSuspend.v. *)

From S2P Require Import Prelude Dpm.
Local Open Scope Z_scope.
Local Open Scope kernel_scope.

Module DpmResume.

Import Dpm.

(** ** The state *)

(** A call of device_resume(): before it stops waiting for the parent, in the
    callbacks, returned. *)
Inductive phase := Waits | Runs | Returned.

(** The main thread: in the first loop with the rest of the list, there in a
    call it makes itself for want of memory, at the head of the second loop,
    in a device of it, behind the loops, at the end. *)
Inductive pc :=
| Scan (rest : list Z)
| ScanInline (d : Z) (rest : list Z) (ph : phase)
| Loop
| InDevice (d : Z) (ph : phase)
| Synchronize
| Done.

Inductive entry := Began (d : Z) | Ended (d error : Z).

(** [moved] is the local list of dpm_resume(). *)
Record resuming := mk_resuming {
  core : dpm;
  moved : list Z;
  main : pc;
  tasks : gmap Z phase;
  history : list entry
}.

Definition set_core (st : resuming) (c : dpm) : resuming :=
  mk_resuming c (moved st) (main st) (tasks st) (history st).
Definition set_moved (st : resuming) (l : list Z) : resuming :=
  mk_resuming (core st) l (main st) (tasks st) (history st).
Definition set_main (st : resuming) (m : pc) : resuming :=
  mk_resuming (core st) (moved st) m (tasks st) (history st).
Definition set_tasks (st : resuming) (t : gmap Z phase) : resuming :=
  mk_resuming (core st) (moved st) (main st) t (history st).
Definition add_history (st : resuming) (e : entry) : resuming :=
  mk_resuming (core st) (moved st) (main st) (tasks st) (history st ++ [e]).
Definition change (d : Z) (f : device -> device) (st : resuming) : resuming :=
  set_core st (update d f (core st)).

Section steps.
(** Whether asynchronous resume is on. *)
Context (pm_async_enabled : bool).

Definition is_async (x : device) : bool := pm_async_enabled && async_suspend x.

(** ** Calls of device_resume() *)

(** The device does not wait, or no longer, for its parent. *)
Definition parent_done (st : resuming) (d : Z) (async : bool) : option bool :=
  x ← devs (core st) !! d;
  match parent x with
  | None => Some true
  | Some p =>
      y ← devs (core st) !! p;
      Some ((status y <? DPM_OFF) || negb (async || is_async y) || completion y)
  end.

Definition begin_resume (st : resuming) (d : Z) : resuming :=
  add_history (change d (set_status DPM_RESUMING) st) (Began d).

Definition end_resume (st : resuming) (d : Z) (ret : callback -> Z) : option resuming :=
  x ← devs (core st) !! d;
  let r := resume_callbacks x ret in
  let st := set_core st (add_log d r.1 (core st)) in
  Some (add_history (change d (set_completion true) st) (Ended d r.2)).

(** ** The loops *)

(** One round of the first loop; [memory] tells whether an asynchronous call can
    be scheduled. *)
Definition scan_device (st : resuming) (d : Z) (rest : list Z) (memory : bool) : option resuming :=
  x ← devs (core st) !! d;
  if status x <? DPM_OFF then Some (set_main st (Scan rest))
  else
    let st := change d (set_completion false) st in
    if is_async x then
      if memory then Some (set_main (set_tasks st (<[d := Waits]> (tasks st))) (Scan rest))
      else Some (set_main st (ScanInline d rest Waits))
    else Some (set_main st (Scan rest)).

(** The device in hand goes to the end of the local list. *)
Definition move (st : resuming) (d : Z) : resuming :=
  set_main (set_moved (set_core st (set_list (core st) (tail (dpm_list (core st))))) (moved st ++ [d])) Loop.

Definition take_device (st : resuming) : option resuming :=
  match dpm_list (core st) with
  | [] => Some (set_main (set_core st (set_list (core st) (moved st ++ dpm_list (core st)))) Synchronize)
  | d :: _ =>
      x ← devs (core st) !! d;
      if (DPM_OFF <=? status x) && negb (is_async x) then Some (set_main st (InDevice d Waits))
      else Some (move (if status x =? DPM_SUSPENDING then change d (set_status DPM_RESUMING) st else st) d)
  end.

(** ** Steps *)

Inductive event :=
| ScanStep (memory : bool)
| Take
| MainBegin
| MainEnd (ret : callback -> Z)
| MainReturn
| TaskBegin (d : Z)
| TaskEnd (d : Z) (ret : callback -> Z)
| TaskReturn (d : Z)
| Finish.

(** [None] is that the event cannot happen now. *)
Definition step (st : resuming) (e : event) : option resuming :=
  match e, main st with
  | ScanStep memory, Scan [] => Some (set_main st Loop)
  | ScanStep memory, Scan (d :: rest) => scan_device st d rest memory
  | Take, Loop => take_device st
  | MainBegin, ScanInline d rest Waits =>
      b ← parent_done st d true;
      if (b : bool) then Some (set_main (begin_resume st d) (ScanInline d rest Runs)) else None
  | MainBegin, InDevice d Waits =>
      b ← parent_done st d false;
      if (b : bool) then Some (set_main (begin_resume st d) (InDevice d Runs)) else None
  | MainEnd ret, ScanInline d rest Runs =>
      st ← end_resume st d ret; Some (set_main st (ScanInline d rest Returned))
  | MainEnd ret, InDevice d Runs => st ← end_resume st d ret; Some (set_main st (InDevice d Returned))
  | MainReturn, ScanInline d rest Returned => Some (set_main st (Scan rest))
  | MainReturn, InDevice d Returned => Some (move st d)
  | Finish, Synchronize => if bool_decide (tasks st = ∅) then Some (set_main st Done) else None
  | TaskBegin d, _ =>
      match tasks st !! d with
      | Some Waits =>
          b ← parent_done st d true;
          if (b : bool) then Some (set_tasks (begin_resume st d) (<[d := Runs]> (tasks st))) else None
      | _ => None
      end
  | TaskEnd d ret, _ =>
      match tasks st !! d with
      | Some Runs => t ← end_resume st d ret; Some (set_tasks t (<[d := Returned]> (tasks st)))
      | _ => None
      end
  | TaskReturn d, _ =>
      match tasks st !! d with
      | Some Returned => Some (set_tasks st (delete d (tasks st)))
      | _ => None
      end
  | _, _ => None
  end.

Definition start (c : dpm) : resuming := mk_resuming c [] (Scan (dpm_list c)) ∅ [].

Fixpoint run (st : resuming) (l : list event) : option resuming :=
  match l with
  | [] => Some st
  | e :: l => st ← step st e; run st l
  end.

Inductive reachable (c : dpm) : resuming -> Prop :=
| reach_start : reachable c (start c)
| reach_step st e st' : reachable c st -> step st e = Some st' -> reachable c st'.

End steps.

(** ** The invariant

    [Sc] are the devices the first loop has seen, [P] those the second one has
    dealt with, both the start of the list; [F] tells where the call for a
    device is. *)

Section invariant.
Context (c : dpm) (T : tree c) (pm_async_enabled : bool).

Definition ended (h : list entry) (d : Z) (x : device) : Prop :=
  Began d ∈ h /\ (exists e, Ended d e ∈ h) /\ status x = DPM_RESUMING /\ completion x = true.

(** Where a device is, now [x] and at first [x0]: those that were not off are not
    resumed. *)
Definition stage (x x0 : device) (d : Z) (Sc P : list Z) (F : option phase) (h : list entry) : Prop :=
  if DPM_OFF <=? status x0 then
    match F with
    | Some Waits => (Began d ∉ h) /\ status x = status x0 /\ completion x = false /\ d ∈ Sc
    | Some Runs => Began d ∈ h /\ status x = DPM_RESUMING /\ completion x = false /\ d ∈ Sc
    | Some Returned => ended h d x /\ d ∈ Sc
    | None =>
        ended h d x /\ d ∈ Sc \/
        (Began d ∉ h) /\ status x = status x0 /\
        (d ∈ Sc -> completion x = false /\ is_async pm_async_enabled x = false /\ d ∉ P)
    end
  else F = None /\ (Began d ∉ h) /\ status x < DPM_OFF /\ (status x = status x0 \/ status x = DPM_RESUMING).

Record inv (m : gmap Z device) (Sc P : list Z) (F : Z -> option phase) (h : list entry) : Prop := {
  r_fixed : fixed <$> m = fixed <$> devs c;
  r_scanned : exists l, dpm_list c = Sc ++ l;
  r_moved : exists l, dpm_list c = P ++ l;
  r_phase d ph : F d = Some ph -> d ∈ dpm_list c;
  r_stage d x x0 : m !! d = Some x -> devs c !! d = Some x0 -> stage x x0 d Sc P (F d) h;
  r_order h1 q h2 : h = h1 ++ Began q :: h2 -> forall y p x, devs c !! q = Some y -> parent y = Some p ->
    devs c !! p = Some x -> DPM_OFF <= status x ->
    Began p ∈ h1 /\ (is_async pm_async_enabled y = false -> is_async pm_async_enabled x = false -> exists e, Ended p e ∈ h1);
  r_once h1 d h2 : h = h1 ++ Began d :: h2 -> Began d ∉ h1 ++ h2
}.

Lemma is_async_fixed x y : fixed x = fixed y -> is_async pm_async_enabled x = is_async pm_async_enabled y.
Proof. intros E. unfold is_async. by rewrite (fixed_async _ _ E). Qed.

(** The parent of a device is in front of it. *)
Lemma parent_before l l' d x p :
  dpm_list c = l ++ l' -> d ∈ l -> devs c !! d = Some x -> parent x = Some p -> is_Some (devs c !! p) -> p ∈ l.
Proof.
  intros E Hd Hx Hp Hs. apply (tree_devs _ T) in Hs. rewrite E in Hs. apply elem_of_app in Hs as [?|Hs]; [done|].
  exfalso. assert (d ∈ l') by by eapply tree_suffix. pose proof (tree_nodup _ T) as N. rewrite E in N.
  apply NoDup_app in N as (_ & N & _). by apply (N d).
Qed.

Section moves.
Context (m : gmap Z device) (Sc P : list Z) (F : Z -> option phase) (h : list entry).
Context (I : inv m Sc P F h) (d : Z) (F' : Z -> option phase).

Lemma stage_ne q x x0 Sc' P' ph h' :
  (q ∈ Sc' <-> q ∈ Sc) -> (q ∈ P' <-> q ∈ P) -> (Began q ∈ h' <-> Began q ∈ h) ->
  (forall e, Ended q e ∈ h -> Ended q e ∈ h') -> stage x x0 q Sc P ph h -> stage x x0 q Sc' P' ph h'.
Proof.
  intros E1 E2 E3 E4. unfold stage, ended. destruct (DPM_OFF <=? status x0).
  - destruct ph as [[| |]|]; rewrite ?E1, ?E2, ?E3; naive_solver.
  - by rewrite E3.
Qed.

Lemma inv_ext : (forall q, F' q = F q) -> inv m Sc P F' h.
Proof.
  intros HF. destruct I as [I1 I2 I3 I4 I5 I6 I7]. constructor; try done.
  - intros q ph. rewrite HF. apply I4.
  - intros q x x0. rewrite HF. apply I5.
Qed.

(** The first loop sees a device: one that is not off, or its completion is
    reset and [F'] says whether there is a call for it. *)
Lemma inv_scan_skip l x0 :
  dpm_list c = Sc ++ d :: l -> devs c !! d = Some x0 -> status x0 < DPM_OFF -> inv m (Sc ++ [d]) P F h.
Proof.
  intros El Hx0 Hs. destruct I as [I1 I2 I3 I4 I5 I6 I7]. constructor; try done.
  - exists l. by rewrite <- app_assoc.
  - intros q x y Hx Hy. destruct (decide (q = d)) as [-> |N].
    + specialize (I5 _ _ _ Hx Hy). assert (y = x0) as -> by congruence. unfold stage in *.
      by rewrite (proj2 (Z.leb_gt _ _) Hs) in *.
    + eapply stage_ne; [..|by apply I5]; set_solver.
Qed.

Lemma inv_scan l x x0 :
  P = [] -> dpm_list c = Sc ++ d :: l -> m !! d = Some x -> devs c !! d = Some x0 -> DPM_OFF <= status x0 ->
  (F' d = Some Waits \/ F' d = None /\ is_async pm_async_enabled x = false) -> (forall q, q <> d -> F' q = F q) ->
  inv (alter (set_completion false) d m) (Sc ++ [d]) P F' h.
Proof.
  intros EP El Hx Hx0 Hs HFd HF. assert (d ∉ Sc) as Nd.
  { pose proof (tree_nodup _ T) as N. rewrite El in N. apply NoDup_app in N as (_ & N & _). intros ?. apply (N d); set_solver. }
  destruct I as [I1 I2 I3 I4 I5 I6 I7]. constructor; try done.
  - by rewrite fixed_alter.
  - exists l. by rewrite <- app_assoc.
  - intros q ph Hq. destruct (decide (q = d)) as [-> |N]; [rewrite El; set_solver|]. rewrite HF in Hq by done. by eapply I4.
  - intros q y y0 (z & Hz & [[-> ->]|[N ->]])%alter_Some Hy0.
    + assert (y0 = x0) as -> by congruence. assert (z = x) as -> by congruence. specialize (I5 _ _ _ Hz Hx0).
      unfold stage in *. rewrite (proj2 (Z.leb_le _ _) Hs) in *. unfold ended in I5.
      destruct (F d) as [[| |]|] eqn:Fd; [naive_solver..|]. destruct I5 as [[_ ?]|(J1 & J2 & _)]; [done|].
      destruct HFd as [->|[-> Ha]].
      * split; [done|]. split; [done|]. split; [done|set_solver].
      * right. split; [done|]. split; [done|]. intros _. split; [done|]. split; [done|]. rewrite EP. set_solver.
    + rewrite HF by done. eapply stage_ne; [..|by apply I5]; set_solver.
Qed.

(** The callbacks of a device begin; its parent has begun, or ended when neither
    is asynchronous. *)
Lemma resume_inv_begin x0 :
  F d = Some Waits -> devs c !! d = Some x0 ->
  (forall p y, parent x0 = Some p -> devs c !! p = Some y -> DPM_OFF <= status y -> Began p ∈ h /\
     (is_async pm_async_enabled x0 = false -> is_async pm_async_enabled y = false -> exists e, Ended p e ∈ h)) ->
  (forall q, F' q = if decide (q = d) then Some Runs else F q) ->
  inv (alter (set_status DPM_RESUMING) d m) Sc P F' (h ++ [Began d]).
Proof.
  intros Fd Hx0 Hp HF. destruct I as [I1 I2 I3 I4 I5 I6 I7].
  assert (Began d ∉ h) as Nb.
  { destruct (fixed_lookup _ _ _ _ (eq_sym I1) Hx0) as (x & Hx & _). specialize (I5 _ _ _ Hx Hx0).
    rewrite Fd in I5. unfold stage in I5. destruct (_ <=? _); naive_solver. }
  constructor; try done.
  - by rewrite fixed_alter.
  - intros q ph. rewrite HF. case_decide; [subst|]; eauto.
  - intros q y y0 (z & Hz & [[-> ->]|[N ->]])%alter_Some Hy0; rewrite HF.
    + rewrite decide_True by done. specialize (I5 _ _ _ Hz Hy0). rewrite Fd in I5. unfold stage in *.
      destruct (_ <=? _); [|naive_solver]. destruct I5 as (J1 & J2 & J3 & J4). split; [set_solver|]. done.
    + rewrite decide_False by done. eapply stage_ne; [..|by apply I5]; set_solver.
  - intros h1 q h2 E y p z Hq Hpar Hz Hs. apply split_last in E as [(_ & [= <-] & ->)|(h3 & _ & E)].
    + assert (y = x0) as -> by congruence. by apply (Hp p z).
    + by eapply I6.
  - intros h1 q h2 E. apply split_last in E as [(-> & [= <-] & ->)|(h3 & -> & E)].
    + by rewrite app_nil_r.
    + pose proof (I7 _ _ _ E). rewrite app_assoc. apply not_elem_of_app. split; [done|].
      intros [= ->]%list_elem_of_singleton. apply Nb. rewrite E. set_solver.
Qed.

Lemma resume_inv_end e :
  F d = Some Runs -> (forall q, F' q = if decide (q = d) then Some Returned else F q) ->
  inv (alter (set_completion true) d m) Sc P F' (h ++ [Ended d e]).
Proof.
  intros Fd HF. destruct I as [I1 I2 I3 I4 I5 I6 I7]. constructor; try done.
  - by rewrite fixed_alter.
  - intros q ph. rewrite HF. case_decide; [subst|]; eauto.
  - intros q y y0 (z & Hz & [[-> ->]|[N ->]])%alter_Some Hy0; rewrite HF.
    + rewrite decide_True by done. specialize (I5 _ _ _ Hz Hy0). rewrite Fd in I5. unfold stage, ended in *.
      destruct (_ <=? _); [|naive_solver]. destruct I5 as (J1 & J2 & J3 & J4). simpl.
      split; [|done]. split; [set_solver|]. split; [exists e; set_solver|done].
    + rewrite decide_False by done. eapply stage_ne; [..|by apply I5]; set_solver.
  - intros h1 q h2 E. apply split_last in E as [(_ & [=] & _)|(h3 & -> & E)]. by eapply I6.
  - intros h1 q h2 E. apply split_last in E as [(_ & [=] & _)|(h3 & -> & E)]. pose proof (I7 _ _ _ E).
    rewrite app_assoc. apply not_elem_of_app. split; [done|]. by intros ?%list_elem_of_singleton.
Qed.

Lemma resume_inv_return :
  F d = Some Returned -> (forall q, F' q = if decide (q = d) then None else F q) -> inv m Sc P F' h.
Proof.
  intros Fd HF. destruct I as [I1 I2 I3 I4 I5 I6 I7]. constructor; try done.
  - intros q ph. rewrite HF. case_decide; [done|]. by apply I4.
  - intros q y y0 Hy Hy0. rewrite HF. specialize (I5 _ _ _ Hy Hy0). case_decide; [subst|done].
    rewrite Fd in I5. unfold stage in *. destruct (_ <=? _); naive_solver.
Qed.

(** The second loop takes a device that is off. *)
Lemma resume_inv_take x x0 :
  Sc = dpm_list c -> d ∈ dpm_list c -> d ∉ P -> m !! d = Some x -> devs c !! d = Some x0 -> F d = None -> Began d ∉ h ->
  DPM_OFF <= status x -> is_async pm_async_enabled x = false ->
  (forall q, F' q = if decide (q = d) then Some Waits else F q) -> inv m Sc P F' h.
Proof.
  intros ES Hd NP Hx Hx0 Fd Nb Hs Ha HF. destruct I as [I1 I2 I3 I4 I5 I6 I7]. constructor; try done.
  - intros q ph. rewrite HF. case_decide; [by subst|]. by apply I4.
  - intros q y y0 Hy Hy0. rewrite HF. specialize (I5 _ _ _ Hy Hy0). case_decide; [subst q|done].
    assert (y = x) as -> by congruence. rewrite Fd in I5. unfold stage in *.
    destruct (Z.leb_spec DPM_OFF (status y0)); [|lia]. destruct I5 as [[[? _] _]|(J1 & J2 & J3)]; [done|].
    rewrite ES in *. naive_solver.
Qed.

(** The second loop is done with a device. *)
Lemma inv_move l x :
  Sc = dpm_list c -> dpm_list c = P ++ d :: l -> m !! d = Some x -> (forall q, F' q = F q) ->
  (DPM_OFF <= status x -> is_async pm_async_enabled x = true) -> inv m Sc (P ++ [d]) F' h.
Proof.
  intros ES El Hx HF Ha. destruct I as [I1 I2 I3 I4 I5 I6 I7]. constructor; try done.
  - exists l. by rewrite <- app_assoc.
  - intros q ph. rewrite HF. by apply I4.
  - intros q y y0 Hy Hy0. rewrite HF. specialize (I5 _ _ _ Hy Hy0). destruct (decide (q = d)) as [-> |N].
    + assert (y = x) as -> by congruence. unfold stage in *. destruct (Z.leb_spec DPM_OFF (status y0)); [|done].
      destruct (F d) as [[| |]|]; [done..|]. destruct I5 as [?|(J1 & J2 & J3)]; [by left|].
      rewrite J2 in Ha. destruct J3 as (_ & J3 & _); [rewrite ES, El; set_solver|]. rewrite Ha in J3 by done. done.
    + eapply stage_ne; [..|done]; set_solver.
Qed.

(** A device that was only prepared. *)
Lemma inv_mark x :
  m !! d = Some x -> status x = DPM_SUSPENDING -> inv (alter (set_status DPM_RESUMING) d m) Sc P F h.
Proof.
  intros Hx Hs. destruct I as [I1 I2 I3 I4 I5 I6 I7]. constructor; try done.
  - by rewrite fixed_alter.
  - intros q y y0 (z & Hz & [[-> ->]|[N ->]])%alter_Some Hy0; [|by apply I5].
    assert (z = x) as -> by congruence. specialize (I5 _ _ _ Hz Hy0). unfold stage, ended in *.
    destruct (Z.leb_spec DPM_OFF (status y0)) as [H|H]; [exfalso|naive_solver].
    rewrite Hs in I5. unfold DPM_OFF, DPM_SUSPENDING, DPM_RESUMING in *.
    destruct (F d) as [[| |]|]; naive_solver lia.
Qed.

End moves.

(** ** The invariant of the states *)

Definition phase_of (st : resuming) (d : Z) : option phase :=
  match main st with
  | ScanInline d' _ ph | InDevice d' ph => if decide (d = d') then Some ph else tasks st !! d
  | _ => tasks st !! d
  end.

(** Where the devices are. *)
Definition lists (st : resuming) (Sc P : list Z) : Prop :=
  match main st with
  | Scan rest => dpm_list c = Sc ++ rest /\ P = [] /\ moved st = [] /\ dpm_list (core st) = dpm_list c
  | ScanInline d rest _ =>
      dpm_list c = Sc ++ rest /\ P = [] /\ moved st = [] /\ dpm_list (core st) = dpm_list c /\ d ∈ Sc /\
      tasks st !! d = None /\ forall x, devs (core st) !! d = Some x -> is_async pm_async_enabled x = true
  | Loop => Sc = dpm_list c /\ P = moved st /\ dpm_list c = moved st ++ dpm_list (core st)
  | InDevice d _ =>
      Sc = dpm_list c /\ P = moved st /\ dpm_list c = moved st ++ dpm_list (core st) /\
      (exists l, dpm_list (core st) = d :: l) /\ tasks st !! d = None
  | Synchronize => Sc = dpm_list c /\ P = dpm_list c /\ dpm_list (core st) = dpm_list c
  | Done => Sc = dpm_list c /\ P = dpm_list c /\ dpm_list (core st) = dpm_list c /\ tasks st = ∅
  end.

(** Only devices that allow it are resumed by tasks. *)
Definition tasks_async (st : resuming) : Prop :=
  forall q y, devs (core st) !! q = Some y -> is_Some (tasks st !! q) -> is_async pm_async_enabled y = true.

Definition state_inv (st : resuming) (Sc P : list Z) : Prop :=
  inv (devs (core st)) Sc P (phase_of st) (history st).

Definition good (st : resuming) : Prop :=
  tasks_async st /\ exists Sc P, lists st Sc P /\ state_inv st Sc P.

Lemma resume_good_start : good (start c).
Proof.
  split; [intros q y _ [? H]; simpl in H; by rewrite lookup_empty in H|].
  exists [], []. split; [done|].
  assert (forall d, phase_of (start c) d = None) as Ph by (intros; unfold phase_of; simpl; by rewrite lookup_empty).
  constructor; simpl.
  - done.
  - by exists (dpm_list c).
  - by exists (dpm_list c).
  - intros d ph. by rewrite Ph.
  - intros d x x0 Hx Hx0. assert (x0 = x) as -> by congruence. rewrite Ph. unfold stage.
    destruct (Z.leb_spec DPM_OFF (status x)); [right|].
    + split; [apply not_elem_of_nil|]. split; [done|]. intros Hd. by apply not_elem_of_nil in Hd.
    + split; [done|]. split; [apply not_elem_of_nil|auto].
  - intros h1 q h2 E. by destruct h1.
  - intros h1 q h2 E. by destruct h1.
Qed.

Lemma resume_tasks_async_same st st' :
  fixed <$> devs (core st') = fixed <$> devs (core st) ->
  (forall q, is_Some (tasks st' !! q) -> is_Some (tasks st !! q)) -> tasks_async st -> tasks_async st'.
Proof.
  intros E1 E2 A q y Hq Ht. destruct (fixed_lookup _ _ _ _ E1 Hq) as (z & Hz & Ez).
  rewrite <- (is_async_fixed _ _ Ez). eapply A; [exact Hz|]. by apply E2.
Qed.

Lemma state_lookup st Sc P d x0 :
  state_inv st Sc P -> devs c !! d = Some x0 -> exists x, devs (core st) !! d = Some x /\ fixed x = fixed x0.
Proof. intros I H. exact (fixed_lookup _ _ _ _ (eq_sym (r_fixed _ _ _ _ _ I)) H). Qed.

(** A device that is not off any more has begun to resume; one that is completed
    or that the second loop has dealt with has ended. *)
Lemma stage_begun x x0 d Sc P ph h :
  stage x x0 d Sc P ph h -> DPM_OFF <= status x0 -> status x < DPM_OFF -> Began d ∈ h.
Proof.
  unfold stage, ended. intros S H1 H2. rewrite (proj2 (Z.leb_le _ _) H1) in S.
  destruct ph as [[| |]|]; naive_solver lia.
Qed.

Lemma stage_completed x x0 d Sc P ph h :
  stage x x0 d Sc P ph h -> DPM_OFF <= status x0 -> d ∈ Sc -> completion x = true -> ended h d x.
Proof.
  unfold stage. intros S H1 H2 H3. rewrite (proj2 (Z.leb_le _ _) H1) in S.
  destruct ph as [[| |]|]; naive_solver congruence.
Qed.

Lemma stage_moved x x0 d Sc P h :
  stage x x0 d Sc P None h -> DPM_OFF <= status x0 -> d ∈ Sc -> d ∈ P -> ended h d x.
Proof. unfold stage. intros S H1 H2 H3. rewrite (proj2 (Z.leb_le _ _) H1) in S. naive_solver. Qed.

(** What the wait for the parent gives. *)
Lemma parent_begun st Sc P d async x0 p y0 :
  good st -> lists st Sc P -> state_inv st Sc P -> d ∈ Sc -> devs c !! d = Some x0 ->
  parent_done pm_async_enabled st d async = Some true ->
  (async = true -> is_async pm_async_enabled x0 = true) ->
  (async = false -> exists ph, main st = InDevice d ph) ->
  parent x0 = Some p -> devs c !! p = Some y0 -> DPM_OFF <= status y0 ->
  Began p ∈ history st /\
  (is_async pm_async_enabled x0 = false -> is_async pm_async_enabled y0 = false -> exists e, Ended p e ∈ history st).
Proof.
  intros G Hl I Hd Hx0 Hdone Ha Hs Hp Hy0 Ht.
  destruct (state_lookup _ _ _ _ _ I Hx0) as (x & Hx & Ex). destruct (state_lookup _ _ _ _ _ I Hy0) as (y & Hy & Ey).
  pose proof (r_stage _ _ _ _ _ I _ _ _ Hy Hy0) as S.
  destruct (r_scanned _ _ _ _ _ I) as [l El].
  assert (p ∈ Sc) as HpS by (eapply parent_before; [done|done|done|done|by eexists]).
  assert (async = false -> is_async pm_async_enabled y0 = false -> ended (history st) p y) as Sync.
  { intros As Ay. destruct (Hs As) as [ph Hm]. unfold lists in Hl. rewrite Hm in Hl.
    destruct Hl as (_ & -> & E & (k & Ek) & _). rewrite Ek in E.
    assert (p <> d) as Npd.
    { intros ->. assert (x0 = y0) as -> by congruence.
      assert (d ∈ k) by (eapply (tree_order _ T); [exact E|done|done]).
      pose proof (tree_nodup _ T) as N. rewrite E in N. apply NoDup_app in N as (_ & _ & N). by apply NoDup_cons in N as [? _]. }
    assert (phase_of st p = None) as Fp.
    { unfold phase_of. rewrite Hm, decide_False by done. destruct (tasks st !! p) eqn:Et; [|done].
      destruct G as [A _]. rewrite <- (is_async_fixed _ _ Ey), (A p y Hy) in Ay; [done|by eexists]. }
    rewrite Fp in S. eapply stage_moved; [done|done|done|].
    assert (p ∈ moved st ++ [d]) as Hin; [|set_solver].
    eapply (parent_before (moved st ++ [d]) k d); [by rewrite <- app_assoc|set_solver|done|done|by eexists]. }
  unfold parent_done in Hdone. rewrite Hx in Hdone. simpl in Hdone. rewrite (fixed_parent _ _ Ex), Hp, Hy in Hdone. simpl in Hdone.
  injection Hdone as Hdone. rewrite (is_async_fixed _ _ Ey) in Hdone.
  assert (Began p ∈ history st) as B.
  { apply orb_true_iff in Hdone as [[Hd1%Z.ltb_lt|Hd1%negb_true_iff]%orb_true_iff|Hd1].
    - by eapply stage_begun.
    - apply orb_false_iff in Hd1 as [-> Hd1]. by destruct Sync.
    - by destruct (stage_completed _ _ _ _ _ _ _ S Ht HpS Hd1). }
  split; [done|]. intros Ax Ay. destruct async; [by rewrite Ha in Ax|]. by destruct Sync as (_ & ? & _).
Qed.

(** Before the first loop sees a device it is as it was. *)
Lemma unseen_status st Sc P d x x0 :
  state_inv st Sc P -> d ∉ Sc -> devs (core st) !! d = Some x -> devs c !! d = Some x0 ->
  (status x <? DPM_OFF) = (status x0 <? DPM_OFF) /\ (DPM_OFF <= status x0 -> phase_of st d = None).
Proof.
  intros I Hd Hx Hx0. pose proof (r_stage _ _ _ _ _ I _ _ _ Hx Hx0) as S. unfold stage, ended in S.
  destruct (Z.leb_spec DPM_OFF (status x0)) as [H|H].
  - destruct (phase_of st d) as [[| |]|]; [naive_solver..|]. destruct S as [[_ ?]|(_ & -> & _)]; done.
  - destruct S as (_ & _ & S & _). split; [|lia]. by rewrite !(proj2 (Z.ltb_lt _ _)).
Qed.

Lemma nodup_notin Sc d rest : dpm_list c = Sc ++ d :: rest -> (d ∉ Sc) /\ (d ∉ rest).
Proof.
  intros E. pose proof (tree_nodup _ T) as N. rewrite E in N. apply NoDup_app in N as (_ & N1 & N2).
  apply NoDup_cons in N2 as [N2 _]. split; [|done]. intros H. apply (N1 d); set_solver.
Qed.

Lemma good_scan st d rest memory st' :
  good st -> main st = Scan (d :: rest) -> scan_device pm_async_enabled st d rest memory = Some st' -> good st'.
Proof.
  intros (A & Sc & P & Hl & I) Hm E. unfold lists in Hl. rewrite Hm in Hl. destruct Hl as (El & -> & Em & Ec).
  destruct (nodup_notin _ _ _ El) as [Nd _].
  assert (forall q, phase_of st q = tasks st !! q) as Ph by (intros; unfold phase_of; by rewrite Hm).
  unfold scan_device in E. apply bind_Some in E as (x & Hx & E).
  destruct (fixed_lookup _ _ _ _ (r_fixed _ _ _ _ _ I) Hx) as (x0 & Hx0 & Ex).
  destruct (unseen_status _ _ _ _ _ _ I Nd Hx Hx0) as [Es Fd]. rewrite Es in E.
  destruct (Z.ltb_spec (status x0) DPM_OFF) as [Hs|Hs].
  { injection E as <-. split; [done|]. exists (Sc ++ [d]), []. split.
    - unfold lists. simpl. by rewrite <- app_assoc.
    - pose proof (inv_scan_skip _ _ _ _ _ I d (phase_of st) rest x0 El Hx0 Hs) as I'.
      eapply inv_ext; [exact I'|]. intros q. unfold phase_of. by rewrite Hm. }
  specialize (Fd Hs). rewrite Ph in Fd.
  assert (tasks_async (change d (set_completion false) st)) as A'.
  { apply (resume_tasks_async_same st); [|done|done]. simpl. by rewrite fixed_alter. }
  assert (forall F', (F' d = Some Waits \/ F' d = None /\ is_async pm_async_enabled x = false) ->
    (forall q, q <> d -> F' q = tasks st !! q) ->
    inv (alter (set_completion false) d (devs (core st))) (Sc ++ [d]) [] F' (history st)) as I'.
  { intros F' H1 H2. eapply inv_scan; [done|done|done|done|done|done|done|]. intros q Hq. by rewrite Ph, H2. }
  destruct (is_async pm_async_enabled x) eqn:Ax; [destruct memory|]; injection E as <-.
  - split.
    + intros q y Hq Hs'. simpl in *. destruct (decide (q = d)) as [-> |N].
      * rewrite lookup_alter_eq, Hx in Hq. by injection Hq as <-.
      * rewrite lookup_insert_ne in Hs' by done. by apply (A' q y).
    + exists (Sc ++ [d]), []. split; [unfold lists; simpl; by rewrite <- app_assoc|].
      apply I'; unfold phase_of; simpl; [left; by rewrite lookup_insert_eq|]. intros q Hq. by rewrite lookup_insert_ne.
  - split; [done|]. exists (Sc ++ [d]), []. split.
    + unfold lists. simpl. rewrite <- app_assoc. do 4 (split; [done|]). split; [set_solver|]. split; [done|].
      rewrite lookup_alter_eq, Hx. by intros y [= <-].
    + apply I'; unfold phase_of; simpl; [left; by rewrite decide_True|]. intros q Hq. by rewrite decide_False.
  - split; [done|]. exists (Sc ++ [d]), []. split; [unfold lists; simpl; by rewrite <- app_assoc|].
    apply I'; unfold phase_of; simpl; auto.
Qed.

Lemma resume_good_take st st' :
  good st -> main st = Loop -> take_device pm_async_enabled st = Some st' -> good st'.
Proof.
  intros (A & Sc & P & Hl & I) Hm E. unfold lists in Hl. rewrite Hm in Hl. destruct Hl as (-> & -> & El).
  assert (forall q, phase_of st q = tasks st !! q) as Ph by (intros; unfold phase_of; by rewrite Hm).
  unfold take_device in E. destruct (dpm_list (core st)) as [|d l] eqn:Ec.
  { injection E as <-. split; [done|]. exists (dpm_list c), (dpm_list c).
    split; [unfold lists; simpl; by rewrite <- El|].
    rewrite app_nil_r in El. unfold state_inv. simpl. rewrite El at 2. eapply inv_ext; [exact I|]. intros q. by rewrite Ph. }
  apply bind_Some in E as (x & Hx & E).
  destruct (fixed_lookup _ _ _ _ (r_fixed _ _ _ _ _ I) Hx) as (x0 & Hx0 & Ex).
  destruct (nodup_notin _ _ _ El) as [Nd Nl]. assert (d ∈ dpm_list c) as Hd by (rewrite El; set_solver).
  destruct ((DPM_OFF <=? status x) && negb (is_async pm_async_enabled x)) eqn:Es.
  - injection E as <-. apply andb_true_iff in Es as [Es%Z.leb_le Ea%negb_true_iff].
    assert (tasks st !! d = None) as Ht.
    { destruct (tasks st !! d) eqn:Et; [|done]. rewrite (A d x Hx) in Ea; [done|by eexists]. }
    pose proof (r_stage _ _ _ _ _ I _ _ _ Hx Hx0) as S. rewrite Ph, Ht in S.
    assert (Began d ∉ history st) as Nb.
    { unfold stage, ended in S. unfold DPM_RESUMING, DPM_OFF in *. destruct (_ <=? _); naive_solver lia. }
    split; [done|]. exists (dpm_list c), (moved st). split; [unfold lists; simpl; rewrite Ec; do 3 (split; [done|]); eauto|].
    eapply resume_inv_take; [exact I|done|done|done|done|done|by rewrite Ph|done|done|done|].
    intros q. unfold phase_of at 1. simpl. by rewrite Ph.
  - injection E as <-.
    assert (DPM_OFF <= status x -> is_async pm_async_enabled x = true) as Ha.
    { intros Hs. rewrite (proj2 (Z.leb_le _ _) Hs) in Es. simpl in Es. by apply negb_false_iff in Es. }
    destruct (Z.eqb_spec (status x) DPM_SUSPENDING) as [Hsus|Hsus].
    + split; [apply (resume_tasks_async_same st); [|done|done]; simpl; by rewrite fixed_alter|].
      exists (dpm_list c), (moved st ++ [d]).
      split; [unfold lists; simpl; rewrite Ec; simpl; split; [done|]; split; [done|]; by rewrite <- app_assoc|].
      unfold state_inv. simpl. pose proof (inv_mark _ _ _ _ _ I d (phase_of st) x Hx Hsus) as I'.
      eapply inv_move; [exact I'|done|exact El|by rewrite lookup_alter_eq, Hx| |].
      * intros q. by rewrite Ph.
      * simpl. unfold DPM_OFF, DPM_RESUMING. lia.
    + split; [done|]. exists (dpm_list c), (moved st ++ [d]).
      split; [unfold lists; simpl; rewrite Ec; simpl; split; [done|]; split; [done|]; by rewrite <- app_assoc|].
      eapply inv_move; [exact I|done|exact El|exact Hx| |done]. intros q. by rewrite Ph.
Qed.

Lemma phase_scanned st Sc P d ph :
  state_inv st Sc P -> phase_of st d = Some ph ->
  exists x0, devs c !! d = Some x0 /\ d ∈ Sc /\ DPM_OFF <= status x0.
Proof.
  intros I Fd. pose proof (r_phase _ _ _ _ _ I _ _ Fd) as Hd. apply (tree_devs _ T) in Hd as [x0 Hx0].
  destruct (state_lookup _ _ _ _ _ I Hx0) as (x & Hx & _). pose proof (r_stage _ _ _ _ _ I _ _ _ Hx Hx0) as S.
  exists x0. split; [done|]. rewrite Fd in S. unfold stage in S.
  destruct (Z.leb_spec DPM_OFF (status x0)); [|naive_solver]. split; [|done]. destruct ph; naive_solver.
Qed.

Lemma resume_begin_inv st Sc P d async st' :
  good st -> lists st Sc P -> state_inv st Sc P -> phase_of st d = Some Waits ->
  parent_done pm_async_enabled st d async = Some true ->
  (async = true -> forall x, devs (core st) !! d = Some x -> is_async pm_async_enabled x = true) ->
  (async = false -> exists ph, main st = InDevice d ph) ->
  core st' = core (begin_resume st d) -> history st' = history (begin_resume st d) ->
  (forall q, phase_of st' q = if decide (q = d) then Some Runs else phase_of st q) ->
  state_inv st' Sc P /\ fixed <$> devs (core st') = fixed <$> devs (core st) /\ dpm_list (core st') = dpm_list (core st).
Proof.
  intros G Hl I Fd Hdone Ha Hs E1 E2 HF. destruct (phase_scanned _ _ _ _ _ I Fd) as (x0 & Hx0 & Hd & Ht).
  destruct (state_lookup _ _ _ _ _ I Hx0) as (x & Hx & Ex).
  unfold state_inv. rewrite E1, E2. simpl. split; [|by rewrite fixed_alter].
  eapply resume_inv_begin; [exact I|done|done| |done]. intros p y Hp Hy Hty.
  eapply (parent_begun st Sc P d async); try done. intros Hat. rewrite <- (is_async_fixed _ _ Ex). by apply Ha.
Qed.

Lemma resume_end_inv st Sc P d ret t st' :
  state_inv st Sc P -> phase_of st d = Some Runs -> end_resume st d ret = Some t ->
  core st' = core t -> history st' = history t ->
  (forall q, phase_of st' q = if decide (q = d) then Some Returned else phase_of st q) ->
  state_inv st' Sc P /\ fixed <$> devs (core st') = fixed <$> devs (core st) /\ dpm_list (core st') = dpm_list (core st).
Proof.
  intros I Fd Hr E1 E2 HF. unfold end_resume in Hr. apply bind_Some in Hr as (x & Hx & [= <-]).
  unfold state_inv. rewrite E1, E2. simpl. split; [by eapply resume_inv_end|by rewrite fixed_alter].
Qed.

Lemma resume_end_frame st d ret t :
  end_resume st d ret = Some t -> moved t = moved st /\ tasks t = tasks st /\ main t = main st.
Proof. unfold end_resume. by intros (x & _ & [= <-])%bind_Some. Qed.

(** The lists when a call goes on. *)
Lemma resume_lists_same st st' Sc P :
  lists st Sc P -> dpm_list (core st') = dpm_list (core st) -> fixed <$> devs (core st') = fixed <$> devs (core st) ->
  moved st' = moved st -> (tasks st = ∅ -> tasks st' = ∅) -> (forall d, tasks st !! d = None -> tasks st' !! d = None) ->
  match main st, main st' with
  | InDevice d _, InDevice d' _ => d' = d
  | ScanInline d rest _, ScanInline d' rest' _ => d' = d /\ rest' = rest
  | m, m' => m' = m
  end -> lists st' Sc P.
Proof.
  intros Hl E1 Ef E2 E3 E4 Em. unfold lists in *. rewrite E1, E2.
  destruct (main st) as [rest|d rest ph| |d ph| |]; [by rewrite Em| |by rewrite Em| |by rewrite Em|].
  - destruct (main st') as [|d' rest' ph'| | | |]; try done. destruct Em as [-> ->].
    destruct Hl as (? & ? & ? & ? & ? & ? & Ha). do 5 (split; [done|]). split; [auto|].
    intros x Hx. destruct (fixed_lookup _ _ _ _ Ef Hx) as (y & Hy & Ey). rewrite <- (is_async_fixed _ _ Ey). by apply Ha.
  - destruct (main st'); try done. subst. naive_solver.
  - rewrite Em. naive_solver.
Qed.

Lemma resume_phase_task st Sc P d ph : lists st Sc P -> tasks st !! d = Some ph -> phase_of st d = Some ph.
Proof.
  intros Hl Ht. unfold phase_of. unfold lists in Hl. destruct (main st); try done; case_decide; try done; subst;
    destruct_and! Hl; congruence.
Qed.

Lemma phase_change st Sc P d ph v t :
  lists st Sc P -> tasks st !! d = Some ph -> main t = main st ->
  (forall q, tasks t !! q = if decide (q = d) then v else tasks st !! q) ->
  forall q, phase_of t q = if decide (q = d) then v else phase_of st q.
Proof.
  intros Hl Ht E1 E2 q. unfold phase_of. rewrite E1. unfold lists in Hl.
  destruct (main st) as [|d' rest ph'| |d' ph'| |]; try apply E2.
  - destruct Hl as (_ & _ & _ & _ & _ & E & _). destruct (decide (q = d')) as [-> |N]; [|apply E2].
    destruct (decide (d' = d)) as [-> |]; [congruence|done].
  - destruct Hl as (_ & _ & _ & _ & E). destruct (decide (q = d')) as [-> |N]; [|apply E2].
    destruct (decide (d' = d)) as [-> |]; [congruence|done].
Qed.

Definition main_device (m : pc) : option (Z * phase) :=
  match m with ScanInline d _ ph | InDevice d ph => Some (d, ph) | _ => None end.

Lemma phase_main st d ph q :
  main_device (main st) = Some (d, ph) -> phase_of st q = if decide (q = d) then Some ph else tasks st !! q.
Proof. unfold phase_of. by destruct (main st); intros [= -> ->]. Qed.

Lemma resume_good_main_begin st d m' async :
  good st -> main_device (main st) = Some (d, Waits) -> parent_done pm_async_enabled st d async = Some true ->
  (exists rest, async = true /\ main st = ScanInline d rest Waits /\ m' = ScanInline d rest Runs) \/
  (async = false /\ main st = InDevice d Waits /\ m' = InDevice d Runs) ->
  good (set_main (begin_resume st d) m').
Proof.
  intros G Hd Hp Hm. pose proof G as (A & Sc & P & Hl & I).
  assert (main_device m' = Some (d, Runs)) as Hd'.
  { destruct Hm as [(rest & _ & _ & ->)|(_ & _ & ->)]; done. }
  destruct (resume_begin_inv st Sc P d async (set_main (begin_resume st d) m')) as (I' & Ef & El); try done.
  - by rewrite (phase_main _ _ _ _ Hd), decide_True.
  - intros ->. destruct Hm as [(rest & _ & Hm & _)|(? & _)]; [|done]. unfold lists in Hl. rewrite Hm in Hl. naive_solver.
  - intros ->. destruct Hm as [(rest & ? & _)|(_ & Hm & _)]; [done|]. eauto.
  - intros q. rewrite (phase_main (set_main _ m') d Runs), (phase_main st d Waits) by done. simpl. by case_decide.
  - split; [by apply (resume_tasks_async_same st)|]. exists Sc, P. split; [|done].
    apply (resume_lists_same st); try done. simpl. destruct Hm as [(rest & _ & -> & ->)|(_ & -> & ->)]; done.
Qed.

Lemma resume_good_main_end st d m' ret t :
  good st -> main_device (main st) = Some (d, Runs) -> end_resume st d ret = Some t ->
  (exists rest, main st = ScanInline d rest Runs /\ m' = ScanInline d rest Returned) \/
  (main st = InDevice d Runs /\ m' = InDevice d Returned) ->
  good (set_main t m').
Proof.
  intros (A & Sc & P & Hl & I) Hd Ht Hm. destruct (resume_end_frame _ _ _ _ Ht) as (F1 & F2 & F3).
  assert (main_device m' = Some (d, Returned)) as Hd' by (destruct Hm as [(rest & _ & ->)|(_ & ->)]; done).
  destruct (resume_end_inv st Sc P d ret t (set_main t m')) as (I' & Ef & El); try done.
  - by rewrite (phase_main _ _ _ _ Hd), decide_True.
  - intros q. rewrite (phase_main (set_main _ m') d Returned), (phase_main st d Runs) by done. simpl. rewrite F2. by case_decide.
  - split; [apply (resume_tasks_async_same st); simpl; rewrite ?F2; done|]. exists Sc, P. split; [|done].
    apply (resume_lists_same st); simpl; rewrite ?F1, ?F2; try done. destruct Hm as [(rest & -> & ->)|(-> & ->)]; done.
Qed.

Lemma good_scan_return st d rest :
  good st -> main st = ScanInline d rest Returned -> good (set_main st (Scan rest)).
Proof.
  intros (A & Sc & P & Hl & I) Hm. split; [done|]. exists Sc, P. unfold lists in *. rewrite Hm in Hl. simpl.
  destruct Hl as (? & ? & ? & ? & ? & Ht & _). split; [done|]. unfold state_inv. simpl.
  eapply resume_inv_return; [exact I|unfold phase_of; by rewrite Hm, decide_True|].
  intros q. unfold phase_of. rewrite Hm. simpl. case_decide; by subst.
Qed.

Lemma resume_good_main_return st d : good st -> main st = InDevice d Returned -> good (move st d).
Proof.
  intros (A & Sc & P & Hl & I) Hm. unfold lists in Hl. rewrite Hm in Hl.
  destruct Hl as (-> & -> & El & (l & Ec) & Ht). rewrite Ec in El.
  assert (phase_of st d = Some Returned) as Fd by (unfold phase_of; by rewrite Hm, decide_True).
  destruct (phase_scanned _ _ _ _ _ I Fd) as (x0 & Hx0 & _ & Hs). destruct (state_lookup _ _ _ _ _ I Hx0) as (x & Hx & _).
  pose proof (r_stage _ _ _ _ _ I _ _ _ Hx Hx0) as S. rewrite Fd in S. unfold stage in S.
  rewrite (proj2 (Z.leb_le _ _) Hs) in S. destruct S as [(_ & _ & Est & _) _].
  split; [done|]. exists (dpm_list c), (moved st ++ [d]). split.
  - unfold lists. simpl. rewrite Ec. simpl. by rewrite <- app_assoc.
  - unfold state_inv. simpl.
    assert (inv (devs (core st)) (dpm_list c) (moved st) (fun q => tasks st !! q) (history st)) as I'.
    { eapply resume_inv_return; [exact I|exact Fd|]. intros q. unfold phase_of. rewrite Hm. case_decide; by subst. }
    eapply inv_move; [exact I'|done|exact El|exact Hx|done|]. rewrite Est. unfold DPM_OFF, DPM_RESUMING. lia.
Qed.

Lemma good_task st d ph v t :
  good st -> tasks st !! d = Some ph -> moved t = moved st -> main t = main st ->
  fixed <$> devs (core t) = fixed <$> devs (core st) -> dpm_list (core t) = dpm_list (core st) ->
  (forall q, tasks t !! q = if decide (q = d) then v else tasks st !! q) ->
  (forall Sc P, lists st Sc P -> state_inv st Sc P -> state_inv t Sc P) -> good t.
Proof.
  intros (A & Sc & P & Hl & I) Ht E1 E2 Ef E3 E4 H. split.
  - apply (resume_tasks_async_same st); [done| |done]. intros q. rewrite E4. case_decide; [subst; by rewrite Ht|done].
  - exists Sc, P. split; [|by apply H]. apply (resume_lists_same st); try done.
    + intros E. rewrite E, lookup_empty in Ht. done.
    + intros q Hq. rewrite E4. case_decide; [congruence|done].
    + rewrite E2. by destruct (main st).
Qed.

Lemma insert_decide (t : gmap Z phase) d v q : <[d := v]> t !! q = if decide (q = d) then Some v else t !! q.
Proof. case_decide; [subst; by rewrite lookup_insert_eq|by rewrite lookup_insert_ne]. Qed.

Lemma delete_decide (t : gmap Z phase) d q : delete d t !! q = if decide (q = d) then None else t !! q.
Proof. case_decide; [subst; by rewrite lookup_delete_eq|by rewrite lookup_delete_ne]. Qed.

Lemma resume_good_task_begin st d :
  good st -> tasks st !! d = Some Waits -> parent_done pm_async_enabled st d true = Some true ->
  good (set_tasks (begin_resume st d) (<[d := Runs]> (tasks st))).
Proof.
  intros G Ht Hp. eapply (good_task st d Waits (Some Runs)); [done|done|done|done| |done|apply insert_decide|].
  - simpl. by rewrite fixed_alter.
  - intros Sc P Hl I. eapply (resume_begin_inv st Sc P d true); try done; [by eapply resume_phase_task| |].
    + intros _ x Hx. destruct G as [A _]. apply (A d x Hx). by eexists.
    + eapply phase_change; [done|done|done|]. apply insert_decide.
Qed.

Lemma resume_good_task_end st d ret t :
  good st -> tasks st !! d = Some Runs -> end_resume st d ret = Some t ->
  good (set_tasks t (<[d := Returned]> (tasks st))).
Proof.
  intros G Ht Hr. destruct (resume_end_frame _ _ _ _ Hr) as (F1 & F2 & F3).
  eapply (good_task st d Runs (Some Returned)); [done|done|done|done| | |apply insert_decide|].
  1,2: unfold end_resume in Hr; apply bind_Some in Hr as (x & _ & [= <-]); simpl; by rewrite ?fixed_alter.
  intros Sc P Hl I. eapply (resume_end_inv st Sc P d ret t); try done; [by eapply resume_phase_task|].
  eapply phase_change; [done|done|done|]. apply insert_decide.
Qed.

Lemma resume_good_task_return st d :
  good st -> tasks st !! d = Some Returned -> good (set_tasks st (delete d (tasks st))).
Proof.
  intros G Ht. eapply (good_task st d Returned None); [done|done|done|done|done|done|apply delete_decide|].
  intros Sc P Hl I. eapply resume_inv_return; [exact I|by eapply resume_phase_task|].
  eapply phase_change; [done|done|done|]. apply delete_decide.
Qed.

Lemma resume_good_finish st : good st -> main st = Synchronize -> tasks st = ∅ -> good (set_main st Done).
Proof.
  intros (A & Sc & P & Hl & I) Hm Ht. split; [done|]. exists Sc, P. unfold lists in *. rewrite Hm in Hl.
  split; [naive_solver|]. eapply inv_ext; [exact I|]. intros q. unfold phase_of. by rewrite Hm.
Qed.

Lemma good_scan_end st : good st -> main st = Scan [] -> good (set_main st Loop).
Proof.
  intros (A & Sc & P & Hl & I) Hm. split; [done|]. exists Sc, P. unfold lists in *. rewrite Hm in Hl. simpl.
  rewrite app_nil_r in Hl. destruct Hl as (-> & -> & E & E'). rewrite E, E'. split; [done|].
  eapply inv_ext; [exact I|]. intros q. unfold phase_of. by rewrite Hm.
Qed.

Lemma resume_good_step st e st' : good st -> step pm_async_enabled st e = Some st' -> good st'.
Proof.
  intros G H. unfold step in H. destruct e as [memory| | |ret| |d|d ret|d|].
  6,7,8: destruct (tasks st !! d) as [[| |]|] eqn:Ht; try done.
  - destruct (main st) as [[|d rest]| | | | |] eqn:Hm; try done; [injection H as <-; by apply good_scan_end|by eapply good_scan].
  - destruct (main st) eqn:Hm; try done. by eapply resume_good_take.
  - destruct (main st) as [|d rest [| |]| |d [| |]| |] eqn:Hm; try done;
      apply bind_Some in H as ([] & Hp & [= <-]);
      (eapply resume_good_main_begin; [done|by rewrite Hm|exact Hp|]; eauto 6).
  - destruct (main st) as [|d rest [| |]| |d [| |]| |] eqn:Hm; try done;
      apply bind_Some in H as (t & Hr & [= <-]);
      (eapply resume_good_main_end; [done|by rewrite Hm|exact Hr|]; eauto 6).
  - destruct (main st) as [|d rest [| |]| |d [| |]| |] eqn:Hm; try done; injection H as <-;
      [by eapply good_scan_return|by apply resume_good_main_return].
  - apply bind_Some in H as ([] & Hp & [= <-]). by apply resume_good_task_begin.
  - apply bind_Some in H as (t & Hr & [= <-]). by eapply resume_good_task_end.
  - injection H as <-. by apply resume_good_task_return.
  - destruct (main st) eqn:Hm; try done. case_bool_decide; [|done]. injection H as <-. by apply resume_good_finish.
Qed.

Lemma resume_reachable_good st : reachable pm_async_enabled c st -> good st.
Proof. induction 1 as [|st e st' _ IH E]; [apply resume_good_start|]. by eapply resume_good_step. Qed.

(** ** Progress *)

(** What a device waits for: its parent, whose call has not begun. *)
Lemma waits_for_parent st Sc P d async :
  state_inv st Sc P -> d ∈ dpm_list c -> exists b, parent_done pm_async_enabled st d async = Some b /\
  (b = false -> exists x0 p y y0, devs c !! d = Some x0 /\ parent x0 = Some p /\
     devs (core st) !! p = Some y /\ devs c !! p = Some y0 /\
     DPM_OFF <= status y /\ (async || is_async pm_async_enabled y) = true /\ completion y = false).
Proof.
  intros I Hd. apply (tree_devs _ T) in Hd as [x0 Hx0]. destruct (state_lookup _ _ _ _ _ I Hx0) as (x & Hx & Ex).
  unfold parent_done. rewrite Hx. simpl. rewrite (fixed_parent _ _ Ex).
  destruct (parent x0) as [p|] eqn:Hp; [|by exists true].
  destruct (tree_parent _ T _ _ _ Hx0 Hp) as [y0 Hy0]. destruct (state_lookup _ _ _ _ _ I Hy0) as (y & Hy & Ey).
  rewrite Hy. simpl. eexists. split; [done|]. intros [[H1%Z.ltb_ge H2%negb_false_iff]%orb_false_iff H3]%orb_false_iff.
  by exists x0, p, y, y0.
Qed.

Lemma blocked_parent st Sc P d x0 p y y0 :
  lists st Sc P -> state_inv st Sc P -> Sc = dpm_list c -> (exists l, dpm_list c = P ++ d :: l) \/ d ∈ P ->
  devs c !! d = Some x0 -> parent x0 = Some p -> devs (core st) !! p = Some y -> devs c !! p = Some y0 ->
  DPM_OFF <= status y -> p ∈ P /\ p <> d /\ (main_device (main st) <> Some (p, Waits) -> tasks st !! p = Some Waits).
Proof.
  intros Hl I ES HdP Hx0 Hp Hy Hy0 Hs.
  assert (p <> d) as N.
  { intros ->. assert (d ∈ dpm_list c) as (a & k & E)%list_elem_of_split by (apply (tree_devs _ T); by eexists).
    assert (d ∈ k) by (eapply (tree_order _ T); [exact E|exact Hx0|done]). by destruct (nodup_notin _ _ _ E). }
  assert (p ∈ P) as HpP.
  { destruct HdP as [[l E]|HdP].
    - assert (p ∈ P ++ [d]); [|set_solver].
      eapply (parent_before _ l d); [by rewrite <- app_assoc|set_solver|done|done|by eexists].
    - destruct (r_moved _ _ _ _ _ I) as [l E]. eapply parent_before; [done|done|done|done|by eexists]. }
  split; [done|]. split; [done|]. intros Hm.
  pose proof (r_stage _ _ _ _ _ I _ _ _ Hy Hy0) as S. unfold stage, ended in S.
  assert (p ∈ dpm_list c) as HpL by (apply (tree_devs _ T); by eexists). rewrite ES in S.
  unfold DPM_OFF, DPM_RESUMING in *. destruct (5 <=? status y0); [|naive_solver lia].
  assert (phase_of st p = Some Waits) as Fp.
  { destruct (phase_of st p) as [[| |]|]; [done|naive_solver lia..]. }
  destruct (main_device (main st)) as [[d' ph]|] eqn:Ed.
  - rewrite (phase_main _ _ _ _ Ed) in Fp. case_decide; [subst; congruence|done].
  - unfold phase_of in Fp. by destruct (main st).
Qed.

(** When the second loop is over or waits, a task in front of it can go on. *)
Lemma resume_task_progress st Sc P :
  good st -> lists st Sc P -> state_inv st Sc P -> Sc = dpm_list c ->
  (forall q, main_device (main st) = Some (q, Waits) -> q ∉ P) ->
  forall l1 l2 d, dpm_list c = l1 ++ d :: l2 -> d ∈ P -> is_Some (tasks st !! d) ->
  exists e st', step pm_async_enabled st e = Some st'.
Proof.
  intros G Hl I ES Hm. induction l1 as [l1 IH] using (induction_ltof1 _ (@length Z)). unfold ltof in IH.
  intros l2 d El HdP [ph Ht]. assert (d ∈ dpm_list c) as Hin by (rewrite El; set_solver).
  pose proof Hin as Hin'. apply (tree_devs _ T) in Hin' as [x0 Hx0]. destruct (state_lookup _ _ _ _ _ I Hx0) as (x & Hx & Ex).
  destruct ph.
  - destruct (waits_for_parent st Sc P d true I Hin) as ([] & Hb & Hf).
    { exists (TaskBegin d). simpl. rewrite Ht, Hb. destruct (main st); by eexists. }
    destruct (Hf eq_refl) as (x1 & p & y & y0 & Hx1 & Hp & Hy & Hy0 & Hs & _ & Hc).
    destruct (blocked_parent st Sc P d x1 p y y0) as (HpP & Npd & Htp); [done|done|done|by right|done..|].
    assert (p ∈ l1) as Hpl.
    { assert (p ∈ l1 ++ [d]); [|set_solver].
      eapply (parent_before _ l2 d); [by rewrite <- app_assoc|set_solver|exact Hx1|done|by eexists]. }
    apply list_elem_of_split in Hpl as (a & b & ->).
    eapply (IH a); [rewrite length_app; simpl; lia|rewrite El, <- app_assoc; done|done|].
    rewrite Htp; [by eexists|]. intros E. by apply (Hm p).
  - exists (TaskEnd d (fun _ => 0)). simpl. rewrite Ht. unfold end_resume. rewrite Hx. destruct (main st); by eexists.
  - exists (TaskReturn d). simpl. rewrite Ht. destruct (main st); by eexists.
Qed.

Lemma resume_main_progress st :
  good st -> (forall d rest ph, main st <> ScanInline d rest ph) ->
  main st = Done \/ exists e st', step pm_async_enabled st e = Some st'.
Proof.
  intros G Ni. pose proof G as (A & Sc & P & Hl & I).
  assert (forall d, d ∈ dpm_list c -> is_Some (devs (core st) !! d)) as Lk.
  { intros d [x0 Hx0]%(tree_devs _ T). destruct (state_lookup _ _ _ _ _ I Hx0) as (x & Hx & _). by eexists. }
  pose proof Hl as Hl'. unfold lists in Hl'. destruct (main st) as [[|d rest]|d rest ph| |d ph| |] eqn:Hm; [right..|by left].
  - exists (ScanStep true). simpl. rewrite Hm. by eexists.
  - exists (ScanStep true). simpl. rewrite Hm. unfold scan_device. destruct Hl' as (El & _).
    destruct (Lk d) as [x ->]; [rewrite El; set_solver|]. simpl. destruct (_ <? _); [by eexists|]. destruct (is_async _ _); by eexists.
  - by destruct (Ni d rest ph).
  - exists Take. simpl. rewrite Hm. unfold take_device. destruct Hl' as (_ & _ & El).
    destruct (dpm_list (core st)) as [|d l]; [by eexists|]. destruct (Lk d) as [x ->]; [rewrite El; set_solver|]. simpl.
    destruct (_ && _); by eexists.
  - destruct Hl' as (ES & EP & El & (l & Ec) & Ht). rewrite Ec in El.
    assert (d ∈ dpm_list c) as Hin by (rewrite El; set_solver). destruct (Lk d Hin) as [x Hx]. destruct ph.
    + destruct (waits_for_parent st Sc P d false I Hin) as ([] & Hb & Hf).
      { exists MainBegin. simpl. rewrite Hm, Hb. by eexists. }
      destruct (Hf eq_refl) as (x1 & p & y & y0 & Hx1 & Hp & Hy & Hy0 & Hs & _ & Hc).
      destruct (blocked_parent st Sc P d x1 p y y0) as (HpP & Npd & Htp); [done|done|done|left; subst; eauto|done..|].
      destruct (r_moved _ _ _ _ _ I) as [k Ek]. pose proof HpP as (a & b & E)%list_elem_of_split.
      eapply (resume_task_progress st Sc P G Hl I ES); [|rewrite Ek, E, <- app_assoc; done|done|].
      * rewrite Hm. simpl. intros q [= <-]. rewrite EP. by destruct (nodup_notin _ _ _ El).
      * rewrite Htp; [by eexists|]. rewrite Hm. simpl. congruence.
    + exists (MainEnd (fun _ => 0)). simpl. rewrite Hm. unfold end_resume. rewrite Hx. by eexists.
    + exists MainReturn. simpl. rewrite Hm. by eexists.
  - destruct Hl' as (ES & EP & El). destruct (decide (tasks st = ∅)) as [E|E].
    + exists Finish. simpl. rewrite Hm, bool_decide_eq_true_2 by done. by eexists.
    + apply map_choose in E as (q & ph & Hq).
      assert (q ∈ dpm_list c) as Hin by (eapply (r_phase _ _ _ _ _ I); by eapply resume_phase_task).
      pose proof Hin as (a & b & E)%list_elem_of_split.
      eapply (resume_task_progress st Sc P G Hl I ES); [|exact E|by rewrite EP|by eexists]. by rewrite Hm.
Qed.

(** ** A bound on the number of steps *)

Definition phase_weight (ph : option phase) : nat :=
  match ph with Some Waits => 3 | Some Runs => 2 | Some Returned => 1 | None => 0 end.

Definition main_weight (st : resuming) : nat :=
  match main st with
  | Scan rest => 5 * length (dpm_list c) + 4 * length rest + 4
  | ScanInline _ rest ph => 5 * length (dpm_list c) + 4 * length rest + 4 + phase_weight (Some ph)
  | Loop => 5 * length (dpm_list (core st)) + 2
  | InDevice _ ph => 5 * (length (dpm_list (core st)) - 1) + 2 + phase_weight (Some ph)
  | Synchronize => 1
  | Done => 0
  end.

Definition weight (st : resuming) : nat :=
  main_weight st + sum_list_with (fun d => phase_weight (tasks st !! d)) (dpm_list c).

Lemma resume_task_weight st t d :
  d ∈ dpm_list c -> (forall q, q <> d -> tasks t !! q = tasks st !! q) ->
  (weight t + main_weight st + phase_weight (tasks st !! d) = weight st + main_weight t + phase_weight (tasks t !! d))%nat.
Proof.
  intros Hd E. unfold weight.
  pose proof (sum_list_update (fun d => phase_weight (tasks st !! d)) (fun d => phase_weight (tasks t !! d)) (dpm_list c) d
    (tree_nodup _ T) Hd ltac:(intros; simpl; by rewrite E)). simpl in *. lia.
Qed.

Lemma resume_weight_tasks st t :
  tasks t = tasks st -> (weight t + main_weight st = weight st + main_weight t)%nat.
Proof. intros E. unfold weight. rewrite E. lia. Qed.

Lemma main_less st t : tasks t = tasks st -> (main_weight t < main_weight st)%nat -> (weight t < weight st)%nat.
Proof. intros E H. pose proof (resume_weight_tasks _ _ E). lia. Qed.

Lemma task_less st t d ph :
  d ∈ dpm_list c -> tasks st !! d = Some ph -> main_weight t = main_weight st ->
  (forall q, q <> d -> tasks t !! q = tasks st !! q) -> (phase_weight (tasks t !! d) < phase_weight (Some ph))%nat ->
  (weight t < weight st)%nat.
Proof. intros Hd Ht Em Hq Hp. pose proof (resume_task_weight st t d Hd Hq) as W. rewrite Ht in W. lia. Qed.

Lemma scan_weight st d rest memory st' :
  good st -> main st = Scan (d :: rest) -> scan_device pm_async_enabled st d rest memory = Some st' -> (weight st' < weight st)%nat.
Proof.
  intros (A & Sc & P & Hl & I) Hm E. unfold lists in Hl. rewrite Hm in Hl. destruct Hl as (El & _).
  assert (d ∈ dpm_list c) as Hd by (rewrite El; set_solver). destruct (nodup_notin _ _ _ El) as [Nd _].
  assert (main_weight st = 5 * length (dpm_list c) + 4 * length rest + 8)%nat as W.
  { unfold main_weight. rewrite Hm. simpl. lia. }
  unfold scan_device in E. apply bind_Some in E as (x & Hx & E).
  destruct (fixed_lookup _ _ _ _ (r_fixed _ _ _ _ _ I) Hx) as (x0 & Hx0 & _).
  destruct (unseen_status _ _ _ _ _ _ I Nd Hx Hx0) as [Es Fd]. rewrite Es in E.
  destruct (Z.ltb_spec (status x0) DPM_OFF) as [Hs|Hs]; [injection E as <-; apply main_less; [done|unfold main_weight at 1; simpl; lia]|].
  specialize (Fd Hs). unfold phase_of in Fd. rewrite Hm in Fd.
  destruct (is_async pm_async_enabled x); [destruct memory|]; injection E as <-.
  - set (t := set_main _ _). pose proof (resume_task_weight st t d Hd) as Wt. simpl in Wt. rewrite lookup_insert_eq, Fd in Wt.
    specialize (Wt ltac:(intros; by rewrite lookup_insert_ne)). simpl in Wt.
    assert (main_weight t = 5 * length (dpm_list c) + 4 * length rest + 4)%nat by done. lia.
  - apply main_less; [done|]. rewrite W. unfold main_weight. simpl. lia.
  - apply main_less; [done|]. rewrite W. unfold main_weight. simpl. lia.
Qed.

Lemma resume_step_weight st e st' : good st -> step pm_async_enabled st e = Some st' -> (weight st' < weight st)%nat.
Proof.
  intros G H. pose proof G as (A & Sc & P & Hl & I). unfold step in H.
  assert (forall d ph, tasks st !! d = Some ph -> d ∈ dpm_list c) as Hd.
  { intros d ph Ht. eapply (r_phase _ _ _ _ _ I). by eapply resume_phase_task. }
  destruct e as [memory| | |ret| |d|d ret|d|].
  6,7,8: destruct (tasks st !! d) as [[| |]|] eqn:Ht; try done; pose proof (Hd _ _ Ht) as Hin.
  - destruct (main st) as [[|d rest]| | | | |] eqn:Hm; try done; [|by eapply scan_weight].
    injection H as <-. apply main_less; [done|]. unfold lists in Hl. rewrite Hm in Hl. destruct Hl as (_ & _ & _ & E).
    unfold main_weight. rewrite Hm. simpl. rewrite E. lia.
  - destruct (main st) eqn:Hm; try done. unfold take_device in H. destruct (dpm_list (core st)) as [|d l] eqn:Ec.
    + injection H as <-. apply main_less; [done|]. unfold main_weight. rewrite Hm. simpl. rewrite Ec. simpl. lia.
    + apply bind_Some in H as (x & _ & H).
      destruct (_ && _); injection H as <-.
      * apply main_less; [done|]. unfold main_weight. rewrite Hm. simpl. rewrite Ec. simpl. lia.
      * apply main_less; [by destruct (_ =? _)|]. unfold main_weight. rewrite Hm.
        destruct (_ =? _); simpl; rewrite Ec; simpl; lia.
  - destruct (main st) as [|d rest [| |]| |d [| |]| |] eqn:Hm; try done;
      apply bind_Some in H as ([] & _ & [= <-]); (apply main_less; [done|]);
      unfold main_weight; rewrite Hm; simpl; lia.
  - destruct (main st) as [|d rest [| |]| |d [| |]| |] eqn:Hm; try done;
      apply bind_Some in H as (t & Hr & [= <-]); unfold end_resume in Hr; apply bind_Some in Hr as (x & _ & [= <-]);
      (apply main_less; [done|]); unfold main_weight; rewrite Hm; simpl; lia.
  - destruct (main st) as [|d rest [| |]| |d [| |]| |] eqn:Hm; try done; injection H as <-; (apply main_less; [done|]);
      unfold main_weight; rewrite Hm; simpl; [lia|].
    unfold lists in Hl. rewrite Hm in Hl. destruct Hl as (_ & _ & _ & (l & ->) & _). simpl. lia.
  - apply bind_Some in H as ([] & _ & [= <-]). eapply (task_less st); [exact Hin|done|done| |].
    + intros q Hq. simpl. by rewrite lookup_insert_ne.
    + simpl. rewrite lookup_insert_eq. simpl. lia.
  - apply bind_Some in H as (t & Hr & [= <-]). unfold end_resume in Hr. apply bind_Some in Hr as (x & _ & [= <-]).
    eapply (task_less st); [exact Hin|done|done| |].
    + intros q Hq. simpl. by rewrite lookup_insert_ne.
    + simpl. rewrite lookup_insert_eq. simpl. lia.
  - injection H as <-. eapply (task_less st); [exact Hin|done|done| |].
    + intros q Hq. simpl. by rewrite lookup_delete_ne.
    + simpl. rewrite lookup_delete_eq. simpl. lia.
  - destruct (main st) eqn:Hm; try done. case_bool_decide; [|done]. injection H as <-. apply main_less; [done|].
    unfold main_weight. rewrite Hm. simpl. lia.
Qed.

End invariant.

(** ** Theorems *)

Lemma resume_run_reachable b c l st st' : reachable b c st -> run b st l = Some st' -> reachable b c st'.
Proof.
  revert st. induction l as [|e l IH]; intros st R H; simpl in H; [by simplify_eq|].
  apply bind_Some in H as (st1 & E & H). eapply IH; [|done]. by eapply reach_step.
Qed.

Lemma resume_run_weight b c l st st' :
  tree c -> good c b st -> run b st l = Some st' -> (length l + weight c st' <= weight c st)%nat /\ good c b st'.
Proof.
  intros T. revert st. induction l as [|e l IH]; intros st G H; simpl in H; [simplify_eq; simpl; split; [lia|done]|].
  apply bind_Some in H as (st1 & E & H). pose proof (resume_step_weight c T b st e st1 G E).
  destruct (IH st1 (resume_good_step c T b st e st1 G E) H). simpl. split; [lia|done].
Qed.

Definition inlined (m : pc) : bool := match m with ScanInline _ _ _ => true | _ => false end.

(** With memory the main thread makes no asynchronous call itself. *)
Lemma step_not_inlined b st e st' :
  e <> ScanStep false -> inlined (main st) = false -> step b st e = Some st' -> inlined (main st') = false.
Proof.
  intros He Hm E. unfold step in E.
  destruct e as [[]| | |ret| |d|d ret|d|]; try done.
  6,7,8: destruct (tasks st !! d) as [[| |]|]; try done.
  - destruct (main st) as [[|d rest]| | | | |]; try done; [by injection E as <-|].
    unfold scan_device in E. apply bind_Some in E as (x & _ & E). destruct (_ <? _); [by injection E as <-|].
    by destruct (is_async _ _); injection E as <-.
  - destruct (main st); try done. unfold take_device in E. destruct (dpm_list (core st)); [by injection E as <-|].
    apply bind_Some in E as (x & _ & E). by destruct (_ && _); injection E as <-.
  - destruct (main st) as [|? ? [| |]| |? [| |]| |]; try done. by apply bind_Some in E as ([] & _ & [= <-]).
  - destruct (main st) as [|? ? [| |]| |? [| |]| |]; try done. by apply bind_Some in E as (t & _ & [= <-]).
  - destruct (main st) as [|? ? [| |]| |? [| |]| |]; try done. by injection E as <-.
  - apply bind_Some in E as ([] & _ & [= <-]). done.
  - apply bind_Some in E as (t & Hr & [= <-]). unfold end_resume in Hr. by apply bind_Some in Hr as (x & _ & [= <-]).
  - by injection E as <-.
  - destruct (main st); try done. case_bool_decide; [|done]. by injection E as <-.
Qed.

Lemma run_not_inlined b l st st' :
  ScanStep false ∉ l -> inlined (main st) = false -> run b st l = Some st' -> inlined (main st') = false.
Proof.
  revert st. induction l as [|e l IH]; intros st Hl Hm H; simpl in H; [by simplify_eq|].
  apply bind_Some in H as (st1 & E & H). apply not_elem_of_cons in Hl as [He Hl]. eapply (IH st1); [done| |done].
  by eapply step_not_inlined.
Qed.

(** A device 1 with the child 2, which can resume asynchronously, both off. *)
Definition bus_ops : subsystem := mk_subsystem (Some (mk_ops false false true true false false)) false false.
Definition two_devices : dpm :=
  mk_dpm [1; 2] (<[1 := mk_device None (Some bus_ops) None None false DPM_OFF true 0]>
    {[2 := mk_device (Some 1) (Some bus_ops) None None true DPM_OFF true 0]}) false [].

Lemma two_devices_tree : tree two_devices.
Proof.
  assert (forall d x, devs two_devices !! d = Some x ->
    d = 1 /\ parent x = None \/ d = 2 /\ parent x = Some 1) as D.
  { intros d x H. unfold two_devices in H. simpl in H.
    apply lookup_insert_Some in H as [[<- <-]|[_ [<- <-]%lookup_singleton_Some]]; auto. }
  constructor.
  - apply (bool_decide_unpack _). vm_compute. exact I.
  - intros d. simpl. split.
    + intros [->|[->|[]%elem_of_nil]%elem_of_cons]%elem_of_cons; by eexists.
    + intros [x Hx]. destruct (D d x Hx) as [[-> _]|[-> _]]; set_solver.
  - intros q x p Hq Hp. destruct (D q x Hq) as [(_ & E)|(_ & E)]; [congruence|].
    assert (p = 1) as -> by congruence. by eexists.
  - intros l1 p l2 q x E Hq Hp. destruct (D q x Hq) as [(-> & E')|(-> & E')]; [congruence|].
    assert (p = 1) as -> by congruence. destruct l1 as [|a [|b [|]]]; simpl in E; simplify_eq. set_solver.
Qed.

Definition ok_events : list event :=
  [ScanStep true; ScanStep true; ScanStep true; Take; MainBegin; MainEnd no_error; TaskBegin 2; MainReturn;
   TaskEnd 2 no_error; Take; TaskReturn 2; Take; Finish].

Definition resumed : resuming :=
  match run true (start two_devices) ok_events with Some st => st | None => start two_devices end.

Lemma resumed_reachable : reachable true two_devices resumed.
Proof.
  unfold resumed. destruct (run true (start two_devices) ok_events) as [st|] eqn:E; [|apply reach_start].
  by eapply resume_run_reachable; [apply reach_start|].
Qed.

Lemma resume_fixed pm_async_enabled c st :
  tree c -> reachable pm_async_enabled c st -> fixed <$> devs (core st) = fixed <$> devs c.
Proof.
  intros T R. destruct (resume_reachable_good c T pm_async_enabled st R) as (_ & Sc & P & _ & I).
  apply (r_fixed _ _ _ _ _ _ _ I).
Qed.

(** When dpm_resume() returns, no asynchronous call is left, the list of
    devices is in its order and no device is off; the callbacks of those that
    were off were called and have ended, those of the others were not called. *)
Lemma resume_done pm_async_enabled c st :
  tree c -> reachable pm_async_enabled c st -> main st = Done ->
  tasks st = ∅ /\ dpm_list (core st) = dpm_list c /\
  forall d x x0, devs (core st) !! d = Some x -> devs c !! d = Some x0 ->
    status x < DPM_OFF /\ (status x = status x0 \/ status x = DPM_RESUMING) /\
    (if DPM_OFF <=? status x0 then Began d ∈ history st /\ (exists e, Ended d e ∈ history st) /\ completion x = true
     else Began d ∉ history st).
Proof.
  intros T R Hm. destruct (resume_reachable_good c T pm_async_enabled st R) as (_ & Sc & P & Hl & I).
  unfold lists in Hl. rewrite Hm in Hl. destruct Hl as (-> & -> & E1 & E2). split; [done|]. split; [done|].
  intros d x x0 Hx Hx0. pose proof (r_stage _ _ _ _ _ _ _ I _ _ _ Hx Hx0) as S.
  assert (phase_of st d = None) as Fd by (unfold phase_of; by rewrite Hm, E2, lookup_empty). rewrite Fd in S.
  destruct (Z.leb_spec DPM_OFF (status x0)) as [Hs|Hs].
  - assert (d ∈ dpm_list c) as Hd by (apply (tree_devs _ T); by eexists).
    destruct (stage_moved _ _ _ _ _ _ _ S Hs Hd Hd) as (B & En & St & Co). rewrite St. unfold DPM_RESUMING, DPM_OFF. split; [lia|]. auto.
  - unfold stage in S. rewrite (proj2 (Z.leb_gt _ _) Hs) in S. naive_solver.
Qed.

Lemma memory_step b st e st' :
  step b st e = Some st' -> exists e1 st1, e1 <> ScanStep false /\ step b st e1 = Some st1.
Proof.
  intros E. destruct e as [[]| | | | | | | |]; [eexists _, _; split; [|exact E]; done| |eexists _, _; split; [|exact E]; done..].
  exists (ScanStep true). simpl in *. destruct (main st) as [[|d rest]| | | | |]; try done; [by eexists|].
  unfold scan_device in *. apply bind_Some in E as (x & -> & _). simpl.
  destruct (_ <? _); [by eexists|]. destruct (is_async _ _); by eexists.
Qed.

Lemma resume_complete_run pm_async_enabled c :
  tree c -> exists l st, run pm_async_enabled (start c) l = Some st /\ main st = Done.
Proof.
  intros T. pose proof (resume_good_start c pm_async_enabled) as G.
  assert (inlined (main (start c)) = false) as Hi by done. revert G Hi. generalize (start c). intros st.
  induction st as [st IH] using (induction_ltof1 _ (weight c)). unfold ltof in IH. intros G Hi.
  destruct (resume_main_progress c T _ st G) as [He|(e & st' & E)]; [|by exists [], st|].
  { intros d rest ph E. by rewrite E in Hi. }
  destruct (memory_step _ _ _ _ E) as (e1 & st1 & Ne & E1).
  destruct (IH st1) as (l & st2 & H1 & H2);
    [by eapply resume_step_weight|by eapply resume_good_step|by eapply step_not_inlined|].
  exists (e1 :: l), st2. split; [|done]. simpl. by rewrite E1.
Qed.

(** C20. In every interleaving of the loops of dpm_resume() and the
    asynchronous calls, when the resume callbacks of a device begin, those of
    its parent have begun if the parent was off, and have ended if neither of
    the two resumes asynchronously; no device is resumed twice. *)
Theorem dpm_resume_order pm_async_enabled c st :
  tree c -> reachable pm_async_enabled c st ->
  forall h1 q h2, history st = h1 ++ Began q :: h2 ->
  (Began q ∉ h1 ++ h2) /\
  forall y p x, devs c !! q = Some y -> parent y = Some p -> devs c !! p = Some x -> DPM_OFF <= status x ->
  Began p ∈ h1 /\
  (is_async pm_async_enabled y = false -> is_async pm_async_enabled x = false -> exists e, Ended p e ∈ h1).
Proof.
  intros T R h1 q h2 E. destruct (resume_reachable_good c T pm_async_enabled st R) as (_ & Sc & P & _ & I).
  split; [by apply (r_once _ _ _ _ _ _ _ I)|by apply (r_order _ _ _ _ _ _ _ I _ _ h2)].
Qed.

Lemma dpm_resume_order_witness : Began 1 ∈ [Began 1; Ended 1 0].
Proof.
  refine (proj1 (proj2 (dpm_resume_order true two_devices resumed two_devices_tree resumed_reachable
    [Began 1; Ended 1 0] 2 [Ended 2 0] ltac:(vm_compute; reflexivity))
    (mk_device (Some 1) (Some bus_ops) None None true DPM_OFF true 0) 1
    (mk_device None (Some bus_ops) None None false DPM_OFF true 0) ltac:(reflexivity) ltac:(reflexivity) ltac:(reflexivity) _)).
  simpl. lia.
Defined.

(** C21. As long as there is memory for the asynchronous calls, dpm_resume()
    terminates: there are at most nine steps for each device and four more, and
    some step is possible until the main thread is at the end. *)
Theorem dpm_resume_terminates pm_async_enabled c l st :
  tree c -> ScanStep false ∉ l -> run pm_async_enabled (start c) l = Some st ->
  (length l <= 9 * length (dpm_list c) + 4)%nat /\
  (main st = Done \/ exists e st', step pm_async_enabled st e = Some st').
Proof.
  intros T Hl H. destruct (resume_run_weight _ c _ _ _ T (resume_good_start c pm_async_enabled) H) as [W G]. split.
  - assert (weight c (start c) = 9 * length (dpm_list c) + 4)%nat as E; [|lia].
    unfold weight, main_weight. simpl. enough (forall k : list Z,
      sum_list_with (fun d => phase_weight ((∅ : gmap Z phase) !! d)) k = 0%nat) as -> by lia.
    intros k. induction k; simpl; rewrite ?lookup_empty; done.
  - apply (resume_main_progress c T); [done|]. pose proof (run_not_inlined pm_async_enabled l (start c) st Hl eq_refl H) as Hi.
    intros d rest ph E. by rewrite E in Hi.
Qed.

Lemma dpm_resume_terminates_witness :
  exists st, run true (start two_devices) ok_events = Some st /\ (length ok_events <= 22)%nat.
Proof.
  destruct (run true (start two_devices) ok_events) as [st|] eqn:E; [|vm_compute in E; discriminate E].
  exists st. split; [reflexivity|].
  apply (dpm_resume_terminates true two_devices ok_events st two_devices_tree); [|exact E].
  unfold ok_events. intros H. repeat (apply elem_of_cons in H as [H|H]; [discriminate H|]). apply elem_of_nil in H. exact H.
Defined.

(** C22. Two faults of dpm_resume().  The resume callbacks of a device can be
    called while those of its parent run: device_resume() makes a parent
    DPM_RESUMING before its callbacks and a child does not wait for a parent
    that is not off.  And when there is no memory for an asynchronous call, the
    first loop makes it and waits for a parent that only the second loop
    resumes: nothing can go on. *)
Theorem dpm_resume_async_faults :
  (exists c st d q y, tree c /\ reachable true c st /\ devs c !! q = Some y /\ parent y = Some d /\
     history st = [Began d; Began q]) /\
  (exists c st, tree c /\ reachable true c st /\ main st <> Done /\ forall e, step true st e = None).
Proof.
  split.
  - exists two_devices. destruct (run true (start two_devices)
      [ScanStep true; ScanStep true; ScanStep true; Take; MainBegin; TaskBegin 2]) as [st|] eqn:E;
      [|vm_compute in E; discriminate E].
    exists st, 1, 2, (mk_device (Some 1) (Some bus_ops) None None true DPM_OFF true 0).
    split; [apply two_devices_tree|]. split; [by eapply resume_run_reachable; [apply reach_start|]|].
    split; [reflexivity|]. split; [reflexivity|]. vm_compute in E. injection E as <-. reflexivity.
  - exists two_devices. destruct (run true (start two_devices) [ScanStep true; ScanStep false]) as [st|] eqn:E;
      [|vm_compute in E; discriminate E].
    exists st. split; [apply two_devices_tree|]. split; [by eapply resume_run_reachable; [apply reach_start|]|].
    vm_compute in E. injection E as <-. split; [discriminate|]. intros [| | | | |d|d ret|d|]; reflexivity.
Qed.

End DpmResume.
