(* ===== verification/Freezer.v ===== *)
(** The freezer, kernel/freezer.c and kernel/power/process.c: stopping all
    processes before the system is suspended, and letting them go on.

    The thread that freezes walks along the tasks while they run.  The walk is
    split where a task can run in between: the two tests of freeze_task(), and
    setting TIF_FREEZE.  So is the refrigerator: frozen_process() sets
    PF_FROZEN before it clears TIF_FREEZE, with the lock of the task held, and
    a task that is about to sleep can be woken before it does.  [None] is that
    a step cannot be taken now.  Tasks are not created meanwhile; control groups
    do not freeze them. *)

From S2P Require Import Prelude.
Local Open Scope Z_scope.
Local Open Scope kernel_scope.

Module Freezer.

(** ** Tasks *)

(** Where a task is: outside, in try_to_freeze() after it has seen TIF_FREEZE,
    in frozen_process() between its two assignments with the lock held, at the
    head of the loop of refrigerator(), after set_current_state(), in
    schedule(). *)
Inductive place := Outside | Entering | Marked | Loop | Checks | Schedules.

#[export] Instance place_eq_dec : EqDecision place.
Proof. solve_decision. Defined.

(** PF_NOFREEZE, exit_state, PF_FREEZER_NOSIG, PF_FREEZER_SKIP, whether the task
    is stopped or traced, TIF_FREEZE, PF_FROZEN, and whether its state is
    TASK_UNINTERRUPTIBLE. *)
Record task := mk_task {
  nofreeze : bool;
  exited : bool;
  nosig : bool;
  skip : bool;
  stopped : bool;
  freezing : bool;
  frozen : bool;
  sleeping : bool;
  at_place : place
}.

Definition set_freeze_flag (b : bool) (p : task) : task :=
  mk_task (nofreeze p) (exited p) (nosig p) (skip p) (stopped p) b (frozen p) (sleeping p) (at_place p).
Definition set_frozen (b : bool) (p : task) : task :=
  mk_task (nofreeze p) (exited p) (nosig p) (skip p) (stopped p) (freezing p) b (sleeping p) (at_place p).
Definition set_sleeping (b : bool) (p : task) : task :=
  mk_task (nofreeze p) (exited p) (nosig p) (skip p) (stopped p) (freezing p) (frozen p) b (at_place p).
Definition set_place (a : place) (p : task) : task :=
  mk_task (nofreeze p) (exited p) (nosig p) (skip p) (stopped p) (freezing p) (frozen p) (sleeping p) a.
Definition set_skip (b : bool) (p : task) : task :=
  mk_task (nofreeze p) (exited p) (nosig p) b (stopped p) (freezing p) (frozen p) (sleeping p) (at_place p).
Definition set_stopped (b : bool) (p : task) : task :=
  mk_task (nofreeze p) (exited p) (nosig p) (skip p) b (freezing p) (frozen p) (sleeping p) (at_place p).
Definition set_exited (p : task) : task :=
  mk_task (nofreeze p) true (nosig p) (skip p) (stopped p) (freezing p) (frozen p) (sleeping p) (at_place p).

(** The thread that freezes is not one of the tasks. *)
Definition freezeable (p : task) : bool := negb (nofreeze p) && negb (exited p).
Definition should_send_signal (p : task) : bool := negb (nosig p).

(** ** What a task does *)

(** A step of try_to_freeze() and refrigerator(). *)
Definition task_step (p : task) : option task :=
  match at_place p with
  | Outside => if freezing p && negb (stopped p) && negb (exited p) then Some (set_place Entering p) else None
  | Entering =>
      if freezing p then
        if nofreeze p then Some (set_place Loop (set_freeze_flag false p))
        else Some (set_place Marked (set_frozen true p))
      else Some (set_place Outside p)
  | Marked => Some (set_place Loop (set_freeze_flag false p))
  | Loop => Some (set_place Checks (set_sleeping true p))
  | Checks =>
      if frozen p then Some (set_place Schedules p)
      else Some (set_place Outside (set_sleeping false p))
  | Schedules => if sleeping p then None else Some (set_place Loop p)
  end.

(** ** The thread that freezes *)

(** The scan of try_to_freeze_tasks() at the head of a round, and in
    freeze_task() of a task: before the test of TIF_FREEZE, before the test of
    PF_FROZEN, before TIF_FREEZE is set, before the signal.  [todo] counts, and
    [excused] are the tasks of the round that are stopped or not to be counted. *)
Inductive pc :=
| Idle
| Scan (sig_only : bool) (rest : list Z) (todo : Z) (excused : list Z)
| TestFreezing (sig_only : bool) (p : Z) (rest : list Z) (todo : Z) (excused : list Z)
| TestFrozen (sig_only : bool) (p : Z) (rest : list Z) (todo : Z) (excused : list Z)
| SetFlag (sig_only : bool) (p : Z) (rest : list Z) (todo : Z) (excused : list Z)
| Signal (sig_only : bool) (p : Z) (rest : list Z) (todo : Z) (excused : list Z)
| Cancel (rest : list Z)
| FreezeDone (error : Z) (excused : list Z)
| Thaw (nosig_only : bool) (rest : list Z)
| WakeUp (p : Z) (nosig_only : bool) (rest : list Z)
| ThawDone.

(** [threads] is the list of do_each_thread(). *)
Record state := mk_state {
  threads : list Z;
  tasks : gmap Z task;
  main : pc;
  oom_killer_disabled : bool
}.

Definition set_main (st : state) (m : pc) : state := mk_state (threads st) (tasks st) m (oom_killer_disabled st).
Definition set_tasks (st : state) (t : gmap Z task) : state := mk_state (threads st) t (main st) (oom_killer_disabled st).
Definition set_oom (st : state) (b : bool) : state := mk_state (threads st) (tasks st) (main st) b.
Definition put (st : state) (p : Z) (x : task) : state := set_tasks st (<[p := x]> (tasks st)).

(** A round of the scan that goes on with freeze_task(). *)
Definition scan_task (st : state) (sig_only : bool) (p : Z) (rest : list Z) (todo : Z) (excused : list Z) : option state :=
  x ← tasks st !! p;
  if frozen x || negb (freezeable x) then Some (set_main st (Scan sig_only rest todo excused))
  else Some (set_main st (TestFreezing sig_only p rest todo excused)).

Definition test_freezing (st : state) (sig_only : bool) (p : Z) (rest : list Z) (todo : Z) (excused : list Z) : option state :=
  x ← tasks st !! p;
  if freezing x then Some (set_main st (Signal sig_only p rest todo excused))
  else Some (set_main st (TestFrozen sig_only p rest todo excused)).

Definition test_frozen (st : state) (sig_only : bool) (p : Z) (rest : list Z) (todo : Z) (excused : list Z) : option state :=
  x ← tasks st !! p;
  if frozen x then Some (set_main st (Scan sig_only rest todo excused))
  else if negb sig_only || should_send_signal x then Some (set_main st (SetFlag sig_only p rest todo excused))
  else Some (set_main st (Scan sig_only rest todo excused)).

Definition set_flag (st : state) (sig_only : bool) (p : Z) (rest : list Z) (todo : Z) (excused : list Z) : option state :=
  x ← tasks st !! p;
  Some (set_main (put st p (set_freeze_flag true x)) (Signal sig_only p rest todo excused)).

(** The end of freeze_task() and of the round.  A task outside can always go on,
    so the signal and the wake-up have no effect here. *)
Definition signal_task (st : state) (sig_only : bool) (p : Z) (rest : list Z) (todo : Z) (excused : list Z) : option state :=
  x ← tasks st !! p;
  if negb (should_send_signal x) && sig_only then Some (set_main st (Scan sig_only rest todo excused))
  else if negb (stopped x) && negb (skip x) then Some (set_main st (Scan sig_only rest (todo + 1) excused))
  else Some (set_main st (Scan sig_only rest todo (p :: excused))).

(** The end of a scan.  With tasks to wait for, [abort] tells whether a wake
    lock is held or the time is over. *)
Definition scan_end (st : state) (sig_only : bool) (todo : Z) (excused : list Z) (abort : bool) : state :=
  if todo =? 0 then
    if sig_only then set_main st (Scan false (threads st) 0 [])
    else set_main (set_oom st true) (FreezeDone 0 excused)
  else if abort then set_main st (Cancel (threads st))
  else set_main st (Scan sig_only (threads st) 0 []).

(** cancel_freezing() and thaw_process() take the lock of the task. *)
Definition locked (x : task) : bool := bool_decide (at_place x = Marked).

Definition cancel_task (st : state) (p : Z) (rest : list Z) : option state :=
  x ← tasks st !! p;
  if locked x then None
  else Some (set_main (if freezing x then put st p (set_freeze_flag false x) else st) (Cancel rest)).

Definition thaw_task (st : state) (nosig_only : bool) (p : Z) (rest : list Z) : option state :=
  x ← tasks st !! p;
  if negb (freezeable x) || nosig_only && should_send_signal x then Some (set_main st (Thaw nosig_only rest))
  else if locked x then None
  else if frozen x then Some (set_main (put st p (set_frozen false x)) (WakeUp p nosig_only rest))
  else Some (set_main (put st p (set_freeze_flag false x)) (Thaw nosig_only rest)).

Definition wake_up (st : state) (p : Z) (nosig_only : bool) (rest : list Z) : option state :=
  x ← tasks st !! p;
  Some (set_main (put st p (set_sleeping false x)) (Thaw nosig_only rest)).

(** A step of freeze_processes() or thaw_processes(), which are called one
    after the other. *)
Definition main_step (st : state) (abort : bool) : option state :=
  match main st with
  | Idle | ThawDone => Some (set_main st (Scan true (threads st) 0 []))
  | Scan sig_only [] todo excused => Some (scan_end st sig_only todo excused abort)
  | Scan sig_only (p :: rest) todo excused => scan_task st sig_only p rest todo excused
  | TestFreezing sig_only p rest todo excused => test_freezing st sig_only p rest todo excused
  | TestFrozen sig_only p rest todo excused => test_frozen st sig_only p rest todo excused
  | SetFlag sig_only p rest todo excused => set_flag st sig_only p rest todo excused
  | Signal sig_only p rest todo excused => signal_task st sig_only p rest todo excused
  | Cancel [] => Some (set_main st (FreezeDone (- EBUSY) []))
  | Cancel (p :: rest) => cancel_task st p rest
  | FreezeDone _ _ => Some (set_main (set_oom st false) (Thaw true (threads st)))
  | Thaw true [] => Some (set_main st (Thaw false (threads st)))
  | Thaw false [] => Some (set_main st ThawDone)
  | Thaw nosig_only (p :: rest) => thaw_task st nosig_only p rest
  | WakeUp p nosig_only rest => wake_up st p nosig_only rest
  end.

(** ** Steps *)

Inductive event :=
| Main (abort : bool)
| Task (p : Z)
| Stop (p : Z) (b : bool)
| Skip (p : Z) (b : bool)
| Exit (p : Z).

(** A task that is outside the refrigerator can be stopped and go on, tell the
    freezer not to count it, and exit. *)
Definition outside (st : state) (p : Z) (f : task -> task) : option state :=
  x ← tasks st !! p;
  if bool_decide (at_place x = Outside) && negb (exited x) then Some (put st p (f x)) else None.

Definition step (st : state) (e : event) : option state :=
  match e with
  | Main abort => main_step st abort
  | Task p => x ← tasks st !! p; y ← task_step x; Some (put st p y)
  | Stop p b => outside st p (set_stopped b)
  | Skip p b => outside st p (set_skip b)
  | Exit p => outside st p set_exited
  end.

(** At first no task is frozen or asked to freeze. *)
Definition fresh (x : task) : Prop :=
  freezing x = false /\ frozen x = false /\ sleeping x = false /\ at_place x = Outside.

Record initial (st : state) : Prop := {
  init_main : main st = Idle;
  init_threads p : p ∈ threads st <-> is_Some (tasks st !! p);
  init_fresh p x : tasks st !! p = Some x -> fresh x
}.

Inductive reachable : state -> Prop :=
| reach_start st : initial st -> reachable st
| reach_step st e st' : reachable st -> step st e = Some st' -> reachable st'.

(** ** The invariant *)

(** Of one task; [waking] tells that PF_FROZEN has just been cleared and the
    wake-up is to come. *)
Record task_ok (waking : bool) (x : task) : Prop := {
  t_frozen : frozen x = true -> at_place x <> Outside /\ at_place x <> Entering /\ nofreeze x = false;
  t_flag : frozen x = true -> at_place x <> Marked -> freezing x = false;
  t_marked : at_place x = Marked -> frozen x = true;
  t_exited : exited x = true -> at_place x = Outside;
  t_asleep : at_place x = Schedules -> sleeping x = true -> frozen x = true \/ waking = true
}.

(** Neither frozen nor asked to freeze. *)
Definition unasked (x : task) : Prop := freezing x = false /\ frozen x = false.

(** Frozen, or asked to and [E]. *)
Definition asked (E : Prop) (x : task) : Prop :=
  freezeable x = true -> frozen x = true \/ freezing x = true /\ E.

(** What no task does of its own. *)
Record evolves (x y : task) : Prop := {
  e_ok w : task_ok w x -> task_ok w y;
  e_flag : freezing x = false -> freezing y = false;
  e_unasked : unasked x -> unasked y;
  e_free : (freezeable x = true -> unasked x) -> freezeable y = true -> unasked y;
  e_asked w E : task_ok w x -> asked E x -> asked E y
}.

(** The flags are known: what follows from the hypotheses. *)
Ltac flags :=
  repeat match goal with
  | H : ?a = ?a -> _ |- _ => specialize (H eq_refl)
  | H : ?a <> ?b -> _ |- _ => specialize (H ltac:(discriminate))
  | H : _ /\ _ |- _ => destruct H
  | H : _ \/ _ |- _ => destruct H
  | |- _ /\ _ => split
  | |- _ -> _ => intros ?
  | |- _ <> _ => intros ?
  end; try discriminate; try congruence; auto.

Lemma task_step_evolves x y : task_step x = Some y -> evolves x y.
Proof.
  destruct x as [nf ex ns sk sp fl fz sl pl]. unfold task_step. simpl. intros H.
  assert (forall w, task_ok w (mk_task nf ex ns sk sp fl fz sl pl) -> task_ok w y) as Hok.
  { intros w [H1 H2 H3 H4 H5]. simpl in *.
    destruct pl, fl, fz, nf, ex, sp, sl; simpl in H; try discriminate H; injection H as <-; constructor; simpl; flags. }
  constructor; [done|..]; unfold unasked, asked, freezeable.
  - destruct pl, fl, fz, nf, ex, sp, sl; simpl in H; try discriminate H; injection H as <-; simpl; flags.
  - destruct pl, fl, fz, nf, ex, sp, sl; simpl in H; try discriminate H; injection H as <-; simpl; flags.
  - destruct pl, fl, fz, nf, ex, sp, sl; simpl in H; try discriminate H; injection H as <-; simpl; flags.
  - intros w E [H1 H2 H3 H4 H5]. simpl in *.
    destruct pl, fl, fz, nf, ex, sp, sl; simpl in H; try discriminate H; injection H as <-; simpl; flags.
Qed.

Lemma outside_evolves f x :
  f = set_stopped true \/ f = set_stopped false \/ f = set_skip true \/ f = set_skip false \/ f = set_exited ->
  at_place x = Outside -> exited x = false -> evolves x (f x).
Proof.
  intros Hf Hp He. destruct x as [nf ex ns sk sp fl fz sl pl]. simpl in *. subst pl ex.
  destruct Hf as [->|[->|[->|[->| ->]]]]; (constructor; unfold unasked, asked, freezeable; simpl;
    [intros w [H1 H2 H3 H4 H5]; simpl in *; destruct fz, nf, fl; constructor; simpl; flags
    |destruct fl; flags|destruct fl, fz; flags|destruct nf, fl, fz; simpl; flags
    |intros w E [H1 H2 H3 H4 H5]; simpl in *; destruct nf, fl, fz; simpl; flags]).
Qed.

(** What holds of a task of the state. *)
Definition holds (st : state) (p : Z) (P : task -> Prop) : Prop := forall x, tasks st !! p = Some x -> P x.

(** The tasks that the scan has seen. *)
Definition covered (st : state) (seen : list Z) (todo : Z) (excused : list Z) : Prop :=
  forall p, p ∈ seen -> holds st p (asked (p ∈ excused \/ 0 < todo)).

(** The tasks that are let go. *)
Definition released (st : state) (seen : list Z) : Prop :=
  forall p, p ∈ seen -> holds st p (fun x => freezeable x = true -> unasked x).

Definition scanned (st : state) (sig_only : bool) (rest : list Z) (todo : Z) (excused : list Z) : Prop :=
  exists seen, threads st = seen ++ rest /\ 0 <= todo /\ (sig_only = false -> covered st seen todo excused).

Definition pc_ok (st : state) : Prop :=
  match main st with
  | Idle => True
  | Cancel rest => exists seen, threads st = seen ++ rest
  | Scan sig_only rest todo excused => scanned st sig_only rest todo excused
  | TestFreezing sig_only p rest todo excused => scanned st sig_only (p :: rest) todo excused
  | TestFrozen sig_only p rest todo excused =>
      scanned st sig_only (p :: rest) todo excused /\ holds st p (fun x => freezing x = false)
  | SetFlag sig_only p rest todo excused => scanned st sig_only (p :: rest) todo excused /\ holds st p unasked
  | Signal sig_only p rest todo excused => scanned st sig_only (p :: rest) todo excused /\ holds st p (asked True)
  | FreezeDone error excused => error = 0 -> covered st (threads st) 0 excused
  | Thaw nosig_only rest => exists seen, threads st = seen ++ rest /\ (nosig_only = false -> released st seen)
  | WakeUp p nosig_only rest =>
      exists seen, threads st = seen ++ p :: rest /\ (nosig_only = false -> released st seen) /\ holds st p unasked
  | ThawDone => released st (threads st)
  end.

Definition waking (m : pc) (p : Z) : bool := match m with WakeUp q _ _ => q =? p | _ => false end.

Record inv (st : state) : Prop := {
  i_threads p : p ∈ threads st <-> is_Some (tasks st !! p);
  i_tasks p x : tasks st !! p = Some x -> task_ok (waking (main st) p) x;
  i_pc : pc_ok st
}.

Lemma holds_put st p q x y (P Q : task -> Prop) :
  tasks st !! p = Some x -> holds st q P -> (q <> p -> forall z, P z -> Q z) -> (q = p -> P x -> Q y) -> holds (put st p y) q Q.
Proof.
  intros Hx H Hne He z Hz. simpl in Hz. apply lookup_insert_Some in Hz as [[<- <-]|[N Hz]]; [by auto|].
  apply Hne; [done|]. by apply H.
Qed.

Lemma put_threads st p x y :
  tasks st !! p = Some x -> (forall q, q ∈ threads st <-> is_Some (tasks st !! q)) ->
  forall q, q ∈ threads st <-> is_Some (tasks (put st p y) !! q).
Proof.
  intros Hx H q. rewrite H. simpl. destruct (decide (q = p)) as [->|N].
  - rewrite lookup_insert_eq, Hx. split; by eexists.
  - by rewrite lookup_insert_ne.
Qed.

(** *** A step of a task *)

Section evolve.
Context (st : state) (p : Z) (x y : task) (Hx : tasks st !! p = Some x) (Hev : evolves x y) (w : bool) (Hok : task_ok w x).

Lemma covered_put seen todo excused : covered st seen todo excused -> covered (put st p y) seen todo excused.
Proof.
  intros C q Hq. eapply holds_put; [exact Hx|by apply C|done|]. intros -> ?. by eapply (e_asked _ _ Hev).
Qed.

Lemma released_put seen : released st seen -> released (put st p y) seen.
Proof. intros C q Hq. eapply holds_put; [exact Hx|by apply C|done|]. intros -> ?. by eapply (e_free _ _ Hev). Qed.

Lemma scanned_put sig_only rest todo excused :
  scanned st sig_only rest todo excused -> scanned (put st p y) sig_only rest todo excused.
Proof. intros (seen & E & H0 & C). exists seen. split; [done|]. split; [done|]. intros ?. by apply covered_put, C. Qed.

Lemma pc_ok_put : pc_ok st -> pc_ok (put st p y).
Proof.
  unfold pc_ok. simpl. destruct (main st) as [|? ? ? ?|? ? ? ? ?|? q ? ? ?|? q ? ? ?|? q ? ? ?|?|? ?|? ?|q ? ?|].
  - done.
  - apply scanned_put.
  - apply scanned_put.
  - intros [H1 H2]. split; [by apply scanned_put|]. eapply holds_put; [exact Hx|exact H2|done|]. intros _. apply (e_flag _ _ Hev).
  - intros [H1 H2]. split; [by apply scanned_put|]. eapply holds_put; [exact Hx|exact H2|done|]. intros _. apply (e_unasked _ _ Hev).
  - intros [H1 H2]. split; [by apply scanned_put|]. eapply holds_put; [exact Hx|exact H2|done|]. intros _. by apply (e_asked _ _ Hev w).
  - done.
  - intros H1 H2. by apply covered_put, H1.
  - intros (seen & E & H). exists seen. split; [done|]. intros ?. by apply released_put, H.
  - intros (seen & E & H & H2). exists seen. split; [done|]. split; [intros ?; by apply released_put, H|].
    eapply holds_put; [exact Hx|exact H2|done|]. intros _. apply (e_unasked _ _ Hev).
  - apply released_put.
Qed.

End evolve.

Lemma inv_evolve st p x y : inv st -> tasks st !! p = Some x -> evolves x y -> inv (put st p y).
Proof.
  intros [I1 I2 I3] Hx Hev. constructor.
  - intros q. apply (put_threads st p x y Hx I1).
  - intros q z Hz. simpl in *. apply lookup_insert_Some in Hz as [[<- <-]|[N Hz]]; [|by apply I2].
    by apply (e_ok _ _ Hev), I2.
  - by eapply pc_ok_put; [..|apply (I2 p x)|].
Qed.

(** *** The steps of the thread that freezes *)

(** It goes on without a change to the tasks. *)
Lemma inv_main st m :
  inv st -> (forall p, waking (main st) p = true -> waking m p = true) -> pc_ok (set_main st m) -> inv (set_main st m).
Proof.
  intros [I1 I2 I3] Hw Hp. constructor; [done| |done]. intros p x Hx. destruct (I2 p x Hx) as [H1 H2 H3 H4 H5].
  constructor; try done. intros A B. destruct (H5 A B) as [?|?]; [by left|right]. simpl. by apply Hw.
Qed.

(** With a change to one task. *)
Lemma inv_put st p x y m :
  inv st -> tasks st !! p = Some x -> (forall q, q <> p -> waking (main st) q = true -> waking m q = true) ->
  (task_ok (waking (main st) p) x -> task_ok (waking m p) y) -> pc_ok (set_main (put st p y) m) -> inv (set_main (put st p y) m).
Proof.
  intros [I1 I2 I3] Hx Hw Hy Hp. constructor; [apply (put_threads st p x y Hx I1)| |done].
  intros q z Hz. simpl in *. apply lookup_insert_Some in Hz as [[<- <-]|[N Hz]]; [by apply Hy, I2|].
  destruct (I2 q z Hz) as [H1 H2 H3 H4 H5]. constructor; try done.
  intros A B. destruct (H5 A B) as [?|?]; [by left|right]. by apply Hw.
Qed.

(** The scan goes on to the next task. *)
Lemma scanned_next st sig_only p rest todo excused todo' excused' :
  scanned st sig_only (p :: rest) todo excused -> todo <= todo' -> excused ⊆ excused' ->
  (sig_only = false -> holds st p (asked (p ∈ excused' \/ 0 < todo'))) -> scanned st sig_only rest todo' excused'.
Proof.
  intros (seen & E & H0 & C) Ht He Hp. exists (seen ++ [p]). split; [by rewrite <- app_assoc|]. split; [lia|].
  intros Hs q [Hq|Hq%list_elem_of_singleton]%elem_of_app; [|subst q; by apply Hp].
  intros x Hx Hf. destruct (C Hs q Hq x Hx Hf) as [?|[? [?|?]]]; [by left|right..]; (split; [done|]); [left; set_solver|right; lia].
Qed.

Lemma asked_mono (E E' : Prop) x : (E -> E') -> asked E x -> asked E' x.
Proof. unfold asked. naive_solver. Qed.

Lemma freezer_inv_scan st abort st' sig_only rest todo excused :
  inv st -> main st = Scan sig_only rest todo excused -> main_step st abort = Some st' -> inv st'.
Proof.
  intros I Hm H. unfold main_step in H. rewrite Hm in H. pose proof (i_pc _ I) as P. unfold pc_ok in P. rewrite Hm in P.
  assert (forall m, forall p, waking (main st) p = true -> waking m p = true) as Hw by (intros m p; by rewrite Hm).
  destruct rest as [|p rest].
  - injection H as <-. unfold scan_end. destruct P as (seen & E & H0 & C). rewrite app_nil_r in E.
    destruct (todo =? 0) eqn:E0; [|destruct abort].
    + apply Z.eqb_eq in E0 as ->. destruct sig_only.
      * apply inv_main; [done|apply Hw|]. exists []. split; [done|]. split; [done|]. intros _ q []%elem_of_nil.
      * apply (inv_main (set_oom st true)); [by destruct I|apply Hw|]. intros _. simpl. rewrite E. by apply C.
    + apply inv_main; [done|apply Hw|]. by exists [].
    + apply inv_main; [done|apply Hw|]. exists []. split; [done|]. split; [done|]. intros _ q []%elem_of_nil.
  - unfold scan_task in H. apply bind_Some in H as (x & Hx & H).
    destruct (frozen x || negb (freezeable x)) eqn:E; injection H as <-; apply inv_main; try first [done|apply Hw].
    eapply scanned_next; [done|lia|done|]. intros _ z Hz Hf. assert (z = x) as -> by (simpl in Hz; congruence).
    left. destruct (frozen x); [done|]. by rewrite Hf in E.
Qed.

Lemma inv_freeze_task st abort st' sig_only p rest todo excused :
  inv st -> main st = TestFreezing sig_only p rest todo excused \/ main st = TestFrozen sig_only p rest todo excused \/
    main st = SetFlag sig_only p rest todo excused \/ main st = Signal sig_only p rest todo excused ->
  main_step st abort = Some st' -> inv st'.
Proof.
  intros I Hm H. pose proof (i_pc _ I) as P. unfold pc_ok in P. unfold main_step in H.
  assert (forall m, forall p, waking (main st) p = true -> waking m p = true) as Hw
    by (intros m q; destruct Hm as [->|[->|[->| ->]]]; done).
  destruct Hm as [Hm|[Hm|[Hm|Hm]]]; rewrite Hm in H, P; apply bind_Some in H as (x & Hx & H).
  - destruct (freezing x) eqn:E; injection H as <-; apply inv_main; try first [done|apply Hw]; (split; [done|]); intros z Hz;
      assert (z = x) as -> by (simpl in Hz; congruence); [|done]. intros _. by right.
  - destruct P as [P1 P2]. destruct (frozen x) eqn:E; [|destruct (negb sig_only || should_send_signal x) eqn:E'];
      injection H as <-; apply inv_main; try first [done|apply Hw].
    + eapply scanned_next; [done|lia|done|]. intros _ z Hz _. left. simpl in Hz. congruence.
    + split; [done|]. intros z Hz. assert (z = x) as -> by (simpl in Hz; congruence). split; [by apply P2|done].
    + eapply scanned_next; [done|lia|done|]. intros ->. done.
  - destruct P as [P1 P2]. injection H as <-. destruct (P2 x Hx) as [U1 U2].
    eapply inv_put; [done|done|by rewrite Hm| |].
    + intros [H1 H2 H3 H4 H5]. rewrite Hm in H5. constructor; simpl; try done. intros ?. congruence.
    + split.
      * destruct P1 as (seen & E & H0 & C). exists seen. split; [done|]. split; [done|]. intros Hs q Hq.
        eapply (holds_put st p q x); [done|by apply (C Hs)|done|]. intros -> A F. destruct (A F) as [?|[? ?]]; [congruence|by right].
      * intros z Hz _. simpl in Hz. rewrite lookup_insert_eq in Hz. injection Hz as <-. by right.
  - destruct P as [P1 P2]. destruct (negb (should_send_signal x) && sig_only) eqn:E;
      [|destruct (negb (stopped x) && negb (skip x)) eqn:E']; injection H as <-; apply inv_main; try first [done|apply Hw].
    + eapply scanned_next; [done|lia|done|]. intros ->. by rewrite andb_false_r in E.
    + pose proof P1 as (_ & _ & H0 & _). eapply scanned_next; [done|lia|done|]. intros _ z Hz.
      eapply asked_mono; [|by apply P2]. intros _. right. lia.
    + eapply scanned_next; [done|lia|set_solver|]. intros _ z Hz.
      eapply asked_mono; [|by apply P2]. intros _. left. set_solver.
Qed.

Lemma not_locked x : locked x = false -> at_place x <> Marked.
Proof. unfold locked. by intros ?%bool_decide_eq_false. Qed.

Lemma flag_cleared w x : at_place x <> Marked -> task_ok w x -> task_ok w (set_freeze_flag false x).
Proof. intros N [H1 H2 H3 H4 H5]. by constructor. Qed.

Lemma inv_cancel st abort st' rest :
  inv st -> main st = Cancel rest -> main_step st abort = Some st' -> inv st'.
Proof.
  intros I Hm H. pose proof (i_pc _ I) as P. unfold pc_ok in P. rewrite Hm in P. destruct P as [seen E].
  unfold main_step in H. rewrite Hm in H. destruct rest as [|p rest].
  - injection H as <-. apply inv_main; [done|by rewrite Hm|]. by intros ?.
  - apply bind_Some in H as (x & Hx & H). destruct (locked x) eqn:El; [done|]. apply not_locked in El.
    assert (threads st = (seen ++ [p]) ++ rest) as E' by by rewrite <- app_assoc.
    destruct (freezing x); injection H as <-; [|apply inv_main; [done|by rewrite Hm|by exists (seen ++ [p])]].
    apply (inv_put st p x); [done|done|by rewrite Hm| |by exists (seen ++ [p])]. rewrite Hm. by apply flag_cleared.
Qed.

Lemma released_next st p rest x y seen m :
  tasks st !! p = Some x -> released st seen -> (unasked x -> unasked y) -> freezeable y = freezeable x ->
  (freezeable y = true -> unasked y) -> threads st = seen ++ p :: rest ->
  threads (set_main (put st p y) m) = (seen ++ [p]) ++ rest /\ released (set_main (put st p y) m) (seen ++ [p]).
Proof.
  intros Hx R U F Hy E. split; [by rewrite <- app_assoc|].
  intros q [Hq|Hq%list_elem_of_singleton]%elem_of_app; [|subst q; intros z Hz; simpl in Hz; rewrite lookup_insert_eq in Hz; by injection Hz as <-].
  apply (holds_put st p q x y (fun x => freezeable x = true -> unasked x)); [done|by apply R|done|]. by intros ->.
Qed.

Lemma inv_thaw st abort st' nosig_only rest :
  inv st -> main st = Thaw nosig_only rest -> main_step st abort = Some st' -> inv st'.
Proof.
  intros I Hm H. unfold main_step in H. rewrite Hm in H. pose proof (i_pc _ I) as P. unfold pc_ok in P. rewrite Hm in P.
  destruct P as (seen & E & R). destruct rest as [|p rest].
  - rewrite app_nil_r in E. destruct nosig_only; injection H as <-; (apply inv_main; [done|by rewrite Hm|]).
    + exists []. split; [done|]. by intros _ q []%elem_of_nil.
    + unfold pc_ok. simpl. rewrite E. by apply R.
  - assert (thaw_task st nosig_only p rest = Some st') as H' by by destruct nosig_only. clear H.
    apply bind_Some in H' as (x & Hx & H).
    destruct (negb (freezeable x) || nosig_only && should_send_signal x) eqn:Es.
    { injection H as <-. apply inv_main; [done|by rewrite Hm|]. exists (seen ++ [p]). split; [by rewrite <- app_assoc|].
      intros -> q [Hq|Hq%list_elem_of_singleton]%elem_of_app; [by apply R|]. subst q. intros z Hz F. simpl in Hz.
      assert (z = x) as -> by congruence. by rewrite F in Es. }
    destruct (locked x) eqn:El; [done|]. apply not_locked in El. pose proof (i_tasks _ I p x Hx) as Ok. rewrite Hm in Ok.
    destruct (frozen x) eqn:Ef; injection H as <-.
    + assert (unasked (set_frozen false x)) as U by (split; [by apply (t_flag _ _ Ok)|done]).
      apply (inv_put st p x); [done|done|by rewrite Hm| |].
      * intros [H1 H2 H3 H4 H5]. constructor; simpl; try done. right. apply Z.eqb_refl.
      * exists seen. split; [done|]. split; [|intros z Hz; simpl in Hz; rewrite lookup_insert_eq in Hz; by injection Hz as <-].
        intros Hn q Hq. apply (holds_put st p q x _ (fun x => freezeable x = true -> unasked x)); [done|by apply R|done|done].
    + assert (unasked (set_freeze_flag false x)) as U by by split.
      apply (inv_put st p x); [done|done|by rewrite Hm|rewrite Hm; by apply flag_cleared|].
      destruct nosig_only; [by exists (seen ++ [p]); split; [simpl; by rewrite <- app_assoc|]|].
      destruct (released_next st p rest x (set_freeze_flag false x) seen (Thaw false rest)) as [F1 F2]; try done; [by apply R|].
      by exists (seen ++ [p]).
Qed.

Lemma inv_wake_up st abort st' p nosig_only rest :
  inv st -> main st = WakeUp p nosig_only rest -> main_step st abort = Some st' -> inv st'.
Proof.
  intros I Hm H. unfold main_step in H. rewrite Hm in H. pose proof (i_pc _ I) as P. unfold pc_ok in P. rewrite Hm in P.
  destruct P as (seen & E & R & U). apply bind_Some in H as (x & Hx & [= <-]). specialize (U x Hx).
  apply (inv_put st p x); [done|done| | |].
  - intros q N. rewrite Hm. simpl. intros ?%Z.eqb_eq. congruence.
  - intros [H1 H2 H3 H4 H5]. by constructor.
  - destruct nosig_only; [by exists (seen ++ [p]); split; [simpl; by rewrite <- app_assoc|]|].
    destruct (released_next st p rest x (set_sleeping false x) seen (Thaw false rest)) as [F1 F2]; try done; [by apply R|].
    by exists (seen ++ [p]).
Qed.

Lemma inv_main_step st abort st' : inv st -> main_step st abort = Some st' -> inv st'.
Proof.
  intros I H. destruct (main st) as [|? ? ? ?|? ? ? ? ?|? ? ? ? ?|? ? ? ? ?|? ? ? ? ?|?|e exc|? ?|? ? ?|] eqn:Hm.
  - unfold main_step in H. rewrite Hm in H. injection H as <-. apply inv_main; [done|by rewrite Hm|].
    exists []. split; [done|]. split; [done|]. by intros _ q []%elem_of_nil.
  - by eapply freezer_inv_scan.
  - eapply inv_freeze_task; [done| |done]. rewrite Hm. auto.
  - eapply inv_freeze_task; [done| |done]. rewrite Hm. auto.
  - eapply inv_freeze_task; [done| |done]. rewrite Hm. auto.
  - eapply inv_freeze_task; [done| |done]. rewrite Hm. auto.
  - by eapply inv_cancel.
  - unfold main_step in H. rewrite Hm in H. injection H as <-.
    apply (inv_main (set_oom st false)); [by destruct I|by simpl; rewrite Hm|]. exists []. split; [done|]. by intros ?.
  - by eapply inv_thaw.
  - by eapply inv_wake_up.
  - unfold main_step in H. rewrite Hm in H. injection H as <-. apply inv_main; [done|by rewrite Hm|].
    exists []. split; [done|]. split; [done|]. by intros _ q []%elem_of_nil.
Qed.

Lemma inv_outside st p f st' :
  f = set_stopped true \/ f = set_stopped false \/ f = set_skip true \/ f = set_skip false \/ f = set_exited ->
  inv st -> outside st p f = Some st' -> inv st'.
Proof.
  intros Hf I H. apply bind_Some in H as (x & Hx & H). destruct (_ && _) eqn:E; [|done]. injection H as <-.
  apply andb_true_iff in E as [E1 E2]. apply bool_decide_eq_true in E1. apply negb_true_iff in E2.
  eapply inv_evolve; [done|done|]. by apply outside_evolves.
Qed.

Lemma freezer_step_inv st e st' : inv st -> step st e = Some st' -> inv st'.
Proof.
  intros I H. destruct e as [abort|p|p []|p []|p]; simpl in H.
  - by eapply inv_main_step.
  - apply bind_Some in H as (x & Hx & (y & Hy & [= <-])%bind_Some). eapply inv_evolve; [done|done|]. by apply task_step_evolves.
  - eapply inv_outside; [|done|done]; auto.
  - eapply inv_outside; [|done|done]; auto.
  - eapply inv_outside; [|done|done]; auto.
  - eapply inv_outside; [|done|done]; auto.
  - eapply inv_outside; [|done|done]; auto 6.
Qed.

Lemma freezer_reachable_inv st : reachable st -> inv st.
Proof.
  induction 1 as [st [H1 H2 H3]|st e st' _ IH H]; [|by eapply freezer_step_inv].
  constructor; [done| |unfold pc_ok; by rewrite H1]. intros p x Hx. destruct (H3 p x Hx) as (F1 & F2 & F3 & F4).
  constructor; intros; try congruence. all: by rewrite F4 in *.
Qed.

(** ** Theorems *)

Fixpoint run (st : state) (l : list event) : option state :=
  match l with
  | [] => Some st
  | e :: l => st ← step st e; run st l
  end.

Lemma freezer_run_reachable st l st' : reachable st -> run st l = Some st' -> reachable st'.
Proof.
  revert st. induction l as [|e l IH]; intros st R H; simpl in H; [by simplify_eq|].
  apply bind_Some in H as (st1 & E & H). eapply IH; [|done]. by eapply reach_step.
Qed.

(** The task the thread that freezes is at. *)
Definition current (m : pc) : option Z :=
  match m with
  | Scan _ (p :: _) _ _ | TestFreezing _ p _ _ _ | TestFrozen _ p _ _ _ | SetFlag _ p _ _ _ | Signal _ p _ _ _
  | Cancel (p :: _) | Thaw _ (p :: _) | WakeUp p _ _ => Some p
  | _ => None
  end.

Lemma current_exists st p : inv st -> current (main st) = Some p -> is_Some (tasks st !! p).
Proof.
  intros I Hc. apply (i_threads _ I). assert (exists seen rest, threads st = seen ++ p :: rest) as (seen & rest & ->);
    [|apply elem_of_app; right; by left].
  pose proof (i_pc _ I) as P. unfold pc_ok, scanned in P.
  destruct (main st) as [|? [|? ?] ? ?|? ? ? ? ?|? ? ? ? ?|? ? ? ? ?|? ? ? ? ?|[|? ?]|? ?|? [|? ?]|? ? ?|]; simpl in Hc;
    try discriminate Hc; injection Hc as ->.
  - destruct P as (seen & E & _). eauto.
  - destruct P as (seen & E & _). eauto.
  - destruct P as [(seen & E & _) _]. eauto.
  - destruct P as [(seen & E & _) _]. eauto.
  - destruct P as [(seen & E & _) _]. eauto.
  - destruct P as [seen E]. eauto.
  - destruct P as (seen & E & _). eauto.
  - destruct P as (seen & E & _). eauto.
Qed.

(** The thread that freezes waits only for a task that is in frozen_process(). *)
Lemma main_blocked st abort :
  inv st -> main_step st abort = None -> exists p x y, tasks st !! p = Some x /\ task_step x = Some y.
Proof.
  intros I H. destruct (current (main st)) as [p|] eqn:Hc.
  - destruct (current_exists st p I Hc) as [x Hx].
    assert (locked x = true) as L.
    { unfold main_step in H. unfold scan_task, test_freezing, test_frozen, set_flag, signal_task, cancel_task, thaw_task, wake_up in H.
      destruct (main st) as [|? [|? ?] ? ?|? ? ? ? ?|? ? ? ? ?|? ? ? ? ?|? ? ? ? ?|[|? ?]|? ?|[] [|? ?]|? ? ?|]; simpl in Hc; simplify_eq;
        rewrite Hx in H; simpl in H; by repeat case_match. }
    apply bool_decide_eq_true in L. exists p, x. eexists. split; [done|]. unfold task_step. by rewrite L.
  - unfold main_step in H.
    destruct (main st) as [|? [|? ?] ? ?|? ? ? ? ?|? ? ? ? ?|? ? ? ? ?|? ? ? ? ?|[|? ?]|? ?|[] [|? ?]|? ? ?|]; simpl in Hc; simplify_eq.
Qed.

(** The steps of a task that leaves the refrigerator. *)
Fixpoint task_run (x : task) (n : nat) : option task :=
  match n with
  | O => Some x
  | S n => x ← task_step x; task_run x n
  end.

Lemma leaves w x :
  task_ok w x -> w = false -> unasked x -> exists n y, (n <= 3)%nat /\ task_run x n = Some y /\ at_place y = Outside.
Proof.
  intros [H1 H2 H3 H4 H5] -> [U1 U2]. destruct x as [nf ex ns sk sp fl fz sl pl]. simpl in *. subst fl fz. destruct pl.
  - exists 0%nat. eexists. split; [lia|]. by split.
  - exists 1%nat. eexists. split; [lia|]. by split.
  - by specialize (H3 eq_refl).
  - exists 2%nat. eexists. split; [lia|]. by split.
  - exists 1%nat. eexists. split; [lia|]. by split.
  - destruct sl; [by destruct (H5 eq_refl eq_refl)|]. exists 3%nat. eexists. split; [lia|]. by split.
Qed.

(** A user process, one that is stopped, a kernel thread and one that is not to
    be frozen. *)
Definition some_tasks : state :=
  mk_state [1; 2; 3; 4]
    (list_to_map [(1, mk_task false false false false false false false false Outside);
                  (2, mk_task false false false false true false false false Outside);
                  (3, mk_task false false true false false false false false Outside);
                  (4, mk_task true false true false false false false false Outside)]) Idle false.

Lemma some_tasks_initial : initial some_tasks.
Proof.
  assert (forall p x, tasks some_tasks !! p = Some x -> p ∈ [1; 2; 3; 4] /\ fresh x) as D.
  { intros p x H. unfold some_tasks in H. simpl in H.
    repeat (apply lookup_insert_Some in H as [[<- <-]|[_ H]]; [split; [set_solver|done]|]). by rewrite lookup_empty in H. }
  constructor; [done| |intros p x Hx; by apply (D p x)]. intros p. split.
  - simpl. intros H. repeat (apply elem_of_cons in H as [->|H]; [by eexists|]). by apply elem_of_nil in H.
  - intros [x Hx]. by apply (D p x).
Qed.

Definition freeze_events : list event :=
  replicate 5 (Main false) ++ [Task 1; Task 1] ++ replicate 10 (Main false) ++ [Task 1; Task 1; Task 1] ++
  replicate 20 (Main false) ++ [Task 3; Task 3] ++ replicate 8 (Main false).

Definition thaw_events : list event := Task 3 :: replicate 13 (Main false).

Definition frozen_tasks : state := default some_tasks (run some_tasks freeze_events).
Definition thawed_tasks : state := default some_tasks (run some_tasks (freeze_events ++ thaw_events)).

Lemma run_default_reachable l : reachable (default some_tasks (run some_tasks l)).
Proof.
  destruct (run some_tasks l) as [st|] eqn:E; [|apply reach_start, some_tasks_initial].
  eapply freezer_run_reachable; [|exact E]. apply reach_start, some_tasks_initial.
Qed.

(** C15. When freeze_processes() returns 0, in every interleaving with the tasks,
    every task that is to be frozen is in the refrigerator, or it was stopped
    or not to be counted when the scan saw it and still has the request, which
    it follows before it goes on. *)
Theorem freeze_complete st excused p x :
  reachable st -> main st = FreezeDone 0 excused -> tasks st !! p = Some x -> freezeable x = true ->
  frozen x = true /\ at_place x <> Outside /\ at_place x <> Entering \/ freezing x = true /\ p ∈ excused.
Proof.
  intros R Hm Hx Hf. pose proof (freezer_reachable_inv st R) as I. pose proof (i_pc _ I) as P. unfold pc_ok in P. rewrite Hm in P.
  destruct (P eq_refl p (proj2 (i_threads _ I p) (ex_intro _ x Hx)) x Hx Hf) as [F|[F [?|?]]]; [left|by right|lia].
  destruct (t_frozen _ _ (i_tasks _ I p x Hx) F) as (? & ? & _). done.
Qed.

Lemma freeze_complete_witness :
  main frozen_tasks = FreezeDone 0 [2] /\
  exists x, tasks frozen_tasks !! 3 = Some x /\
    (frozen x = true /\ at_place x <> Outside /\ at_place x <> Entering \/ freezing x = true /\ 3 ∈ [2]).
Proof.
  assert (main frozen_tasks = FreezeDone 0 [2]) as M by (vm_compute; reflexivity). split; [exact M|].
  destruct (tasks frozen_tasks !! 3) as [x|] eqn:E; [|vm_compute in E; discriminate E]. exists x. split; [reflexivity|].
  apply (freeze_complete frozen_tasks [2] 3 x (run_default_reachable _) M E).
  vm_compute in E. injection E as <-. reflexivity.
Defined.



End Freezer.
