(* ===== verification/Suspend.v ===== *)
(** Suspending the system, kernel/power/suspend.c: the way into a sleep state
    and back, with the parts of the system that are stopped on the way.

    The devices are used through the class [DevicePm], which says what the
    functions of drivers/base/power/main.c promise.  What can fail, the
    notifiers, the freezer, the platform and so on, is in [answers]; a flag of
    [system] tells whether a part is stopped.  [None] is a run of the device
    functions that does not come to an end, or a BUG().  The configuration is
    without CONFIG_PM_DEBUG. *)

From S2P Require Import Prelude.
Local Open Scope Z_scope.
Local Open Scope kernel_scope.

(** What the functions for devices promise: [all_off] and [all_off_irq] are all
    devices suspended, without and with their interrupts; [some_off] is what a
    failure leaves. *)
Class DevicePm (D : Type) := {
  dpm_suspend_start : D -> option (D * Z);
  dpm_suspend_noirq : D -> option (D * Z);
  dpm_resume_noirq : D -> option D;
  dpm_resume_end : D -> option D;
  all_on : D -> Prop;
  some_off : D -> Prop;
  all_off : D -> Prop;
  all_off_irq : D -> Prop;
  all_off_some d : all_off d -> some_off d;
  suspend_start_spec d d' e :
    all_on d -> dpm_suspend_start d = Some (d', e) -> some_off d' /\ (e = 0 -> all_off d');
  suspend_noirq_spec d d' e :
    all_off d -> dpm_suspend_noirq d = Some (d', e) -> if e =? 0 then all_off_irq d' else all_off d';
  resume_noirq_spec d d' : all_off_irq d -> dpm_resume_noirq d = Some d' -> all_off d';
  resume_end_spec d d' : some_off d -> dpm_resume_end d = Some d' -> all_on d'
}.

Module Suspend.

(** ** Data *)

Definition PM_SUSPEND_ON : Z := 0.
Definition PM_SUSPEND_MEM : Z := 3.
Definition PM_SUSPEND_MAX : Z := 4.

(** __GFP_IO and __GFP_FS. *)
Definition GFP_IOFS : Z := 0xC0.

(** The callbacks of struct platform_suspend_ops. *)
Inductive platform_call :=
| Begin | Prepare | PrepareLate | Enter | Wake | Finish | End | Recover.

#[export] Instance platform_call_eq_dec : EqDecision platform_call.
Proof. solve_decision. Defined.

(** Which are set, and the states the platform supports. *)
Record platform_suspend_ops := mk_ops {
  has : platform_call -> bool;
  has_valid : bool;
  valid : Z -> bool
}.

(** What happens to be returned: whether a notifier answers NOTIFY_BAD, whether
    helpers run for too long, and error numbers. *)
Record answers := mk_answers {
  notify_bad : bool;
  helpers_running : bool;
  freezer : Z;
  platform : platform_call -> Z;
  nonboot_cpus : Z;
  sysdevs : Z
}.

(** Which parts of the system are stopped. *)
Record machine := mk_machine {
  console_switched : bool;
  notified : bool;
  usermodehelper_disabled : bool;
  frozen : bool;
  console_suspended : bool;
  gfp_allowed_mask : Z;
  device_irqs_off : bool;
  cpus_off : bool;
  irqs_disabled : bool;
  sysdevs_off : bool
}.

Definition set_console (b : bool) (m : machine) : machine :=
  mk_machine b (notified m) (usermodehelper_disabled m) (frozen m) (console_suspended m) (gfp_allowed_mask m)
    (device_irqs_off m) (cpus_off m) (irqs_disabled m) (sysdevs_off m).
Definition set_notified (b : bool) (m : machine) : machine :=
  mk_machine (console_switched m) b (usermodehelper_disabled m) (frozen m) (console_suspended m) (gfp_allowed_mask m)
    (device_irqs_off m) (cpus_off m) (irqs_disabled m) (sysdevs_off m).
Definition set_helpers (b : bool) (m : machine) : machine :=
  mk_machine (console_switched m) (notified m) b (frozen m) (console_suspended m) (gfp_allowed_mask m)
    (device_irqs_off m) (cpus_off m) (irqs_disabled m) (sysdevs_off m).
Definition set_frozen (b : bool) (m : machine) : machine :=
  mk_machine (console_switched m) (notified m) (usermodehelper_disabled m) b (console_suspended m) (gfp_allowed_mask m)
    (device_irqs_off m) (cpus_off m) (irqs_disabled m) (sysdevs_off m).
Definition set_console_suspended (b : bool) (m : machine) : machine :=
  mk_machine (console_switched m) (notified m) (usermodehelper_disabled m) (frozen m) b (gfp_allowed_mask m)
    (device_irqs_off m) (cpus_off m) (irqs_disabled m) (sysdevs_off m).
Definition set_gfp (z : Z) (m : machine) : machine :=
  mk_machine (console_switched m) (notified m) (usermodehelper_disabled m) (frozen m) (console_suspended m) z
    (device_irqs_off m) (cpus_off m) (irqs_disabled m) (sysdevs_off m).
Definition set_device_irqs (b : bool) (m : machine) : machine :=
  mk_machine (console_switched m) (notified m) (usermodehelper_disabled m) (frozen m) (console_suspended m)
    (gfp_allowed_mask m) b (cpus_off m) (irqs_disabled m) (sysdevs_off m).
Definition set_cpus (b : bool) (m : machine) : machine :=
  mk_machine (console_switched m) (notified m) (usermodehelper_disabled m) (frozen m) (console_suspended m)
    (gfp_allowed_mask m) (device_irqs_off m) b (irqs_disabled m) (sysdevs_off m).
Definition set_irqs (b : bool) (m : machine) : machine :=
  mk_machine (console_switched m) (notified m) (usermodehelper_disabled m) (frozen m) (console_suspended m)
    (gfp_allowed_mask m) (device_irqs_off m) (cpus_off m) b (sysdevs_off m).
Definition set_sysdevs (b : bool) (m : machine) : machine :=
  mk_machine (console_switched m) (notified m) (usermodehelper_disabled m) (frozen m) (console_suspended m)
    (gfp_allowed_mask m) (device_irqs_off m) (cpus_off m) (irqs_disabled m) b.

(** The system with the calls of the platform; [entered] has the state of the
    system at each call of enter(). *)
Record system (D : Type) := mk_system {
  pm_mutex : bool;
  mach : machine;
  devices : D;
  calls : list platform_call;
  entered : list (machine * D)
}.

Arguments mk_system {D}.
Arguments pm_mutex {D}.
Arguments mach {D}.
Arguments devices {D}.
Arguments calls {D}.
Arguments entered {D}.

Section suspend.
Context {D : Type} `{!DevicePm D} (console_suspend_enabled : bool).
Context (suspend_ops : option platform_suspend_ops) (a : answers).

Definition change (f : machine -> machine) (s : system D) : system D :=
  mk_system (pm_mutex s) (f (mach s)) (devices s) (calls s) (entered s).
Definition set_mutex (s : system D) (b : bool) : system D :=
  mk_system b (mach s) (devices s) (calls s) (entered s).
Definition set_devices (s : system D) (d : D) : system D :=
  mk_system (pm_mutex s) (mach s) d (calls s) (entered s).

(** A callback of the platform, if it is set. *)
Definition call (o : platform_suspend_ops) (c : platform_call) (s : system D) : system D * Z :=
  if has o c
  then (mk_system (pm_mutex s) (mach s) (devices s) (calls s ++ [c])
          (match c with Enter => entered s ++ [(mach s, devices s)] | _ => entered s end), platform a c)
  else (s, 0).

(** ** The functions *)

Definition valid_state (state : Z) : bool :=
  match suspend_ops with Some o => has_valid o && valid o state | None => false end.

Definition suspend_valid_only_mem (state : Z) : bool := state =? PM_SUSPEND_MEM.

(** Notifiers are told of the suspend, and that it is over. *)
Definition notify_prepare (s : system D) : system D * Z :=
  (change (set_notified true) s, if notify_bad a then - EINVAL else 0).
Definition notify_post (s : system D) : system D := change (set_notified false) s.

Definition usermodehelper_disable (s : system D) : system D * Z :=
  let s := change (set_helpers true) s in
  if helpers_running a then (change (set_helpers false) s, - EAGAIN) else (s, 0).
Definition usermodehelper_enable (s : system D) : system D := change (set_helpers false) s.

(** A freezer that fails leaves processes frozen. *)
Definition suspend_freeze_processes (s : system D) : system D * Z := (change (set_frozen true) s, freezer a).
Definition suspend_thaw_processes (s : system D) : system D := change (set_frozen false) s.

Definition suspend_prepare (s : system D) : system D * Z :=
  match suspend_ops with
  | None => (s, - EPERM)
  | Some o =>
      if negb (has o Enter) then (s, - EPERM)
      else
        let finish s := change (set_console false) (notify_post s) in
        let s := change (set_console true) s in
        let '(s, error) := notify_prepare s in
        if negb (error =? 0) then (finish s, error)
        else
          let '(s, error) := usermodehelper_disable s in
          if negb (error =? 0) then (finish s, error)
          else
            let '(s, error) := suspend_freeze_processes s in
            if error =? 0 then (s, 0)
            else (finish (usermodehelper_enable (suspend_thaw_processes s)), error)
  end.

Definition suspend_console (s : system D) : system D :=
  if console_suspend_enabled then change (set_console_suspended true) s else s.
Definition resume_console (s : system D) : system D :=
  if console_suspend_enabled then change (set_console_suspended false) s else s.

Definition set_gfp_allowed_mask (mask : Z) (s : system D) : system D := change (set_gfp mask) s.
Definition clear_gfp_allowed_mask (mask : Z) (s : system D) : system D * Z :=
  (change (fun m => set_gfp (Z.ldiff (gfp_allowed_mask m) mask) m) s, gfp_allowed_mask (mach s)).

(** With the interrupts of devices, as dpm_suspend_noirq() and
    dpm_resume_noirq() switch them. *)
Definition suspend_noirq (s : system D) : option (system D * Z) :=
  let s := change (set_device_irqs true) s in
  '(d, error) ← dpm_suspend_noirq (devices s);
  let s := set_devices s d in
  Some (if error =? 0 then s else change (set_device_irqs false) s, error).

Definition resume_noirq (s : system D) : option (system D) :=
  d ← dpm_resume_noirq (devices s);
  Some (change (set_device_irqs false) (set_devices s d)).

(** The part with interrupts off; there is no check for enter(). *)
Definition enter_core (o : platform_suspend_ops) (s : system D) : option (system D * Z) :=
  let s := change (set_irqs true) s in
  if negb (irqs_disabled (mach s) && has o Enter) then None
  else
    let '(s, error) :=
      if sysdevs a =? 0 then
        let s := change (set_sysdevs true) s in
        let '(s, error) := call o Enter s in
        (change (set_sysdevs false) s, error)
      else (s, sysdevs a) in
    let s := change (set_irqs false) s in
    if irqs_disabled (mach s) then None else Some (s, error).

Definition suspend_enter (o : platform_suspend_ops) (s : system D) : option (system D * Z) :=
  let '(s, error) := call o Prepare s in
  if negb (error =? 0) then Some (s, error)
  else
    '(s, error) ← suspend_noirq s;
    let platform_finish s := (call o Finish s).1 in
    if negb (error =? 0) then Some (platform_finish s, error)
    else
      let '(s, error) := call o PrepareLate s in
      if negb (error =? 0) then s ← resume_noirq s; Some (platform_finish s, error)
      else
        let s := change (set_cpus true) s in
        '(s, error) ← (if nonboot_cpus a =? 0 then enter_core o s else Some (s, nonboot_cpus a));
        let s := change (set_cpus false) s in
        let s := (call o Wake s).1 in
        s ← resume_noirq s;
        Some (platform_finish s, error).

(** The result of suspend_enter() is not used. *)
Definition suspend_devices_and_enter (s : system D) : option (system D * Z) :=
  match suspend_ops with
  | None => Some (s, - ENOSYS)
  | Some o =>
      let '(s, error) := call o Begin s in
      if negb (error =? 0) then Some ((call o End s).1, error)
      else
        let s := suspend_console s in
        let '(s, saved_mask) := clear_gfp_allowed_mask GFP_IOFS s in
        '(d, error) ← dpm_suspend_start (devices s);
        let s := set_devices s d in
        s ← (if error =? 0 then '(s, _) ← suspend_enter o s; Some s else Some (call o Recover s).1);
        d ← dpm_resume_end (devices s);
        let s := set_devices s d in
        let s := resume_console (set_gfp_allowed_mask saved_mask s) in
        Some ((call o End s).1, error)
  end.

Definition suspend_finish (s : system D) : system D :=
  change (set_console false) (notify_post (usermodehelper_enable (suspend_thaw_processes s))).

Definition enter_state (s : system D) (state : Z) : option (system D * Z) :=
  if negb (valid_state state) then Some (s, - ENODEV)
  else if pm_mutex s then Some (s, - EBUSY)
  else
    let s := set_mutex s true in
    let '(s, error) := suspend_prepare s in
    if negb (error =? 0) then Some (set_mutex s false, error)
    else
      '(s, error) ← suspend_devices_and_enter s;
      Some (set_mutex (suspend_finish s) false, error).

Definition pm_suspend (s : system D) (state : Z) : option (system D * Z) :=
  if (PM_SUSPEND_ON <? state) && (state <=? PM_SUSPEND_MAX) then enter_state s state else Some (s, - EINVAL).

(** ** What it restores *)

(** Nothing is stopped. *)
Definition running (mask : Z) : machine := mk_machine false false false false false mask false false false false.

(** All is stopped, as it has to be when the platform enters the sleep state. *)
Definition quiet (mask : Z) : machine :=
  mk_machine true true true true console_suspend_enabled (Z.ldiff mask GFP_IOFS) true true true true.

(** The calls of the platform on the ways into sleep and back. *)
Definition protocol : list (list platform_call) :=
  [ []; [Begin; End]; [Begin; Recover; End]; [Begin; Prepare; End]; [Begin; Prepare; Finish; End];
    [Begin; Prepare; PrepareLate; Finish; End]; [Begin; Prepare; PrepareLate; Wake; Finish; End];
    [Begin; Prepare; PrepareLate; Enter; Wake; Finish; End] ].

Definition only_set (o : platform_suspend_ops) (l : list platform_call) : list platform_call :=
  List.filter (has o) l.

Arguments only_set : simpl never.

Lemma call_eq o c s :
  call o c s = (mk_system (pm_mutex s) (mach s) (devices s) (calls s ++ only_set o [c])
    (match c with Enter => if has o c then entered s ++ [(mach s, devices s)] else entered s | _ => entered s end),
    if has o c then platform a c else 0).
Proof.
  unfold call, only_set. simpl. destruct (has o c); [done|]. destruct s; simpl. rewrite app_nil_r. by destruct c.
Qed.

(** What suspend_enter() adds to the machine before the platform enters the
    sleep state. *)
Definition deepest (m : machine) : machine := set_sysdevs true (set_irqs true (set_cpus true (set_device_irqs true m))).

Definition enter_protocol : list (list platform_call) :=
  [ [Prepare]; [Prepare; Finish]; [Prepare; PrepareLate; Finish]; [Prepare; PrepareLate; Wake; Finish];
    [Prepare; PrepareLate; Enter; Wake; Finish] ].

Definition enters (l : list platform_call) : bool := bool_decide (Enter ∈ l).

(** From [s] to [s'] nothing but the devices has changed, the platform was called
    as in [l], and it entered the sleep state with the machine [m] and devices
    that are off if [Enter] is in [l]. *)
Definition passed (o : platform_suspend_ops) (m : machine) (s s' : system D) (l : list platform_call) : Prop :=
  pm_mutex s' = pm_mutex s /\ mach s' = mach s /\ calls s' = calls s ++ only_set o l /\
  (if enters l then exists d, all_off_irq d /\ entered s' = entered s ++ [(m, d)]
   else entered s' = entered s).

Lemma enter_core_eq o s :
  has o Enter = true -> irqs_disabled (mach s) = false -> sysdevs_off (mach s) = false ->
  enter_core o s = Some
    (if sysdevs a =? 0
     then (mk_system (pm_mutex s) (mach s) (devices s) (calls s ++ only_set o [Enter])
             (entered s ++ [(set_sysdevs true (set_irqs true (mach s)), devices s)]), platform a Enter)
     else (s, sysdevs a)).
Proof.
  destruct s as [mu [c1 c2 c3 c4 c5 c6 c7 c8 c9 c10] d l t]. simpl. intros H -> ->.
  unfold enter_core. rewrite call_eq. simpl. rewrite H. by destruct (sysdevs a =? 0).
Qed.

(** The device functions and the interrupts of devices. *)
Lemma suspend_noirq_eq s s' e :
  device_irqs_off (mach s) = false -> all_off (devices s) -> suspend_noirq s = Some (s', e) ->
  exists d, s' = change (set_device_irqs (e =? 0)) (set_devices s d) /\ if e =? 0 then all_off_irq d else all_off d.
Proof.
  destruct s as [mu [c1 c2 c3 c4 c5 c6 c7 c8 c9 c10] d l t]. simpl. intros -> Hd H.
  apply bind_Some in H as ([d' e'] & Hs & [= <- <-]). exists d'. simpl in Hs.
  apply suspend_noirq_spec in Hs; [|done]. destruct (e' =? 0); by split.
Qed.

Lemma resume_noirq_eq s s' :
  all_off_irq (devices s) -> resume_noirq s = Some s' ->
  exists d, s' = change (set_device_irqs false) (set_devices s d) /\ all_off d.
Proof.
  intros Hd H. apply bind_Some in H as (d & Hr & [= <-]). exists d. split; [done|]. by apply (resume_noirq_spec (devices s)).
Qed.

Lemma only_set_app o l l' : only_set o (l ++ l') = only_set o l ++ only_set o l'.
Proof. apply List.filter_app. Qed.

Ltac path l :=
  split; [done|]; exists l; split; [unfold enter_protocol; set_solver|];
  split; [|intros E; first [by vm_compute | match goal with H : (_ =? 0) = false |- _ => by rewrite E in H end]];
  split; [done|]; split; [done|]; split; [simpl; rewrite <- ?app_assoc, <- ?only_set_app; done|];
  let b := eval vm_compute in (enters l) in change (enters l) with b; simpl; eauto.

Lemma suspend_enter_spec o s s' e :
  has o Enter = true -> device_irqs_off (mach s) = false -> cpus_off (mach s) = false ->
  irqs_disabled (mach s) = false -> sysdevs_off (mach s) = false -> all_off (devices s) ->
  suspend_enter o s = Some (s', e) ->
  all_off (devices s') /\
  exists l, l ∈ enter_protocol /\ passed o (deepest (mach s)) s s' l /\ (e = 0 -> enters l = true).
Proof.
  destruct s as [mu [c1 c2 c3 c4 c5 c6 c7 c8 c9 c10] d l t]. simpl. intros HE -> -> -> -> Hd H.
  unfold suspend_enter in H. rewrite call_eq in H. simpl in H.
  destruct (_ =? 0) eqn:E1; simpl in H.
  2:{ injection H as <- <-. path [Prepare]. }
  apply bind_Some in H as ([s1 e1] & H1 & H). apply suspend_noirq_eq in H1 as (d1 & -> & Hd1); [|done..].
  destruct (e1 =? 0) eqn:E2; simpl in H.
  2:{ rewrite call_eq in H. injection H as <- <-. path [Prepare; Finish]. }
  rewrite call_eq in H. simpl in H.
  destruct (_ =? 0) eqn:E3 in H; simpl in H.
  2:{ apply bind_Some in H as (s2 & H2 & H). apply resume_noirq_eq in H2 as (d2 & -> & Hd2); [|done].
      rewrite call_eq in H. injection H as <- <-. path [Prepare; PrepareLate; Finish]. }
  apply bind_Some in H as ([s2 e2] & H2 & H). apply bind_Some in H as (s3 & H3 & H).
  rewrite call_eq in H, H3. simpl in H, H3.
  destruct (nonboot_cpus a =? 0) eqn:E4; [rewrite enter_core_eq in H2 by done; destruct (sysdevs a =? 0) eqn:E5|];
    injection H2 as <- <-; apply resume_noirq_eq in H3 as (d3 & -> & Hd3); try done; injection H as <- <-.
  - path [Prepare; PrepareLate; Enter; Wake; Finish].
  - path [Prepare; PrepareLate; Wake; Finish].
  - path [Prepare; PrepareLate; Wake; Finish].
Qed.

(** The machine in suspend_devices_and_enter(), before the devices are
    suspended. *)
Definition devices_stage (m : machine) : machine :=
  set_gfp (Z.ldiff (gfp_allowed_mask m) GFP_IOFS) (set_console_suspended console_suspend_enabled m).

Lemma passed_around o m s s1 s2 s' pre l post :
  enters pre = false -> enters post = false ->
  pm_mutex s1 = pm_mutex s -> calls s1 = calls s ++ only_set o pre -> entered s1 = entered s ->
  passed o m s1 s2 l ->
  pm_mutex s' = pm_mutex s2 -> calls s' = calls s2 ++ only_set o post -> entered s' = entered s2 ->
  mach s' = mach s -> passed o m s s' (pre ++ l ++ post).
Proof.
  intros P1 P2 E1 E2 E3 (H1 & _ & H2 & H3) E4 E5 E6 E7. unfold passed. rewrite E4, E5, E6, H1, H2, E2, !only_set_app, <- !app_assoc.
  split; [done|]. split; [done|]. split; [done|].
  assert (enters (pre ++ l ++ post) = enters l) as ->; [|destruct (enters l); by rewrite <- E3].
  unfold enters in *. apply bool_decide_eq_false in P1, P2. apply bool_decide_ext. set_solver.
Qed.

Lemma suspend_console_eq s :
  console_suspended (mach s) = false -> suspend_console s = change (set_console_suspended console_suspend_enabled) s.
Proof. destruct s as [mu [] d l t]. unfold suspend_console. simpl. intros ->. by destruct console_suspend_enabled. Qed.

Lemma resume_console_eq s :
  console_suspended (mach s) = console_suspend_enabled -> resume_console s = change (set_console_suspended false) s.
Proof. destruct s as [mu [] d l t]. unfold resume_console. simpl. intros ->. by destruct console_suspend_enabled. Qed.

Lemma suspend_devices_and_enter_spec s s' e o :
  suspend_ops = Some o -> has o Enter = true -> device_irqs_off (mach s) = false -> cpus_off (mach s) = false ->
  irqs_disabled (mach s) = false -> sysdevs_off (mach s) = false -> console_suspended (mach s) = false ->
  all_on (devices s) -> suspend_devices_and_enter s = Some (s', e) ->
  all_on (devices s') /\
  exists l, l ∈ tail protocol /\ passed o (deepest (devices_stage (mach s))) s s' l /\ (enters l = true -> e = 0).
Proof.
  intros Ho HE M1 M2 M3 M4 M5 Hd H. unfold suspend_devices_and_enter in H. rewrite Ho, call_eq in H.
  destruct s as [mu [c1 c2 c3 c4 c5 c6 c7 c8 c9 c10] d l t]. simpl in *. subst c5 c7 c8 c9 c10.
  destruct (_ =? 0) eqn:E1 in H; simpl in H.
  2:{ rewrite call_eq in H. injection H as <- <-. split; [done|]. exists [Begin; End]. split; [set_solver|]. split; [|done].
      split; [done|]. split; [done|]. split; [simpl; by rewrite <- app_assoc, <- only_set_app|done]. }
  rewrite suspend_console_eq in H by done. simpl in H.
  apply bind_Some in H as ([d1 e1] & H1 & H). simpl in H1, H. apply bind_Some in H as (s2 & H2 & H).
  apply bind_Some in H as (d3 & H3 & H). apply suspend_start_spec in H1 as [Hd1 Hd1']; [|done].
  assert (exists l', (Begin :: l' ++ [End]) ∈ tail protocol /\ (enters l' = true -> e1 = 0) /\ some_off (devices s2) /\
    passed o (deepest (set_gfp (Z.ldiff c6 GFP_IOFS) (mk_machine c1 c2 c3 c4 console_suspend_enabled c6 false false false false)))
      (mk_system mu (set_gfp (Z.ldiff c6 GFP_IOFS) (mk_machine c1 c2 c3 c4 console_suspend_enabled c6 false false false false))
         d1 (l ++ only_set o [Begin]) t) s2 l') as (l' & Hl & He & Hs & Hp).
  { destruct (e1 =? 0) eqn:E2.
    - apply Z.eqb_eq in E2 as ->. apply bind_Some in H2 as ([s1 e'] & H2 & [= <-]).
      apply suspend_enter_spec in H2 as (Hd2 & l' & Hl & Hp & _); [|by auto..].
      exists l'. split; [|by auto using all_off_some]. revert Hl. unfold enter_protocol, protocol. simpl. set_solver.
    - injection H2 as <-. exists [Recover]. rewrite call_eq. split; [unfold protocol; set_solver|]. split; [by intros ?|].
      split; [done|]. by repeat split. }
  apply resume_end_spec in H3; [|done]. pose proof Hp as (_ & Hm & _).
  rewrite resume_console_eq in H by (simpl; by rewrite Hm). rewrite call_eq in H. injection H as <- <-.
  split; [done|]. exists (Begin :: l' ++ [End]). split; [done|]. split.
  - eapply (passed_around _ _ _ _ _ _ [Begin] l' [End]); [..|exact Hp| | | |]; try done. simpl. by rewrite Hm.
  - intros Hent. apply He. revert Hent. unfold enters. rewrite !bool_decide_eq_true. set_solver.
Qed.

Definition with_machine (s : system D) (m : machine) : system D :=
  mk_system (pm_mutex s) m (devices s) (calls s) (entered s).

Definition stopped (mask : Z) : machine := mk_machine true true true true false mask false false false false.

Lemma suspend_prepare_spec s mask s' e :
  mach s = running mask -> suspend_prepare s = (s', e) ->
  s' = with_machine s (if e =? 0 then stopped mask else running mask) /\
  (e = 0 -> exists o, suspend_ops = Some o /\ has o Enter = true).
Proof.
  destruct s as [mu m d l t]. simpl. intros ->. unfold suspend_prepare.
  destruct suspend_ops as [o|]; [|intros [= <- <-]; by split].
  destruct (has o Enter) eqn:HE; simpl; [|intros [= <- <-]; by split].
  destruct (notify_bad a); simpl; [intros [= <- <-]; by split|].
  unfold usermodehelper_disable. destruct (helpers_running a); simpl; [intros [= <- <-]; by split|].
  destruct (freezer a =? 0) eqn:E; intros [= <- <-]; (split; [by rewrite ?E|]); [by eauto|intros E'; by rewrite E' in E].
Qed.

(** Once the system is prepared, enter_state() comes back to where it was. *)
Lemma enter_state_prepared s mask s1 s' o e :
  mach s = running mask -> suspend_prepare (set_mutex s true) = (s1, 0) ->
  all_on (devices s) -> suspend_ops = Some o -> has o Enter = true -> suspend_devices_and_enter s1 = Some (s', e) ->
  all_on (devices s') /\ mach s' = stopped mask /\
  exists l, l ∈ protocol /\ calls s' = calls s ++ only_set o l /\ (enters l = true -> e = 0) /\
    if enters l then exists d, all_off_irq d /\ entered s' = entered s ++ [(quiet mask, d)] else entered s' = entered s.
Proof.
  intros Hm H1 Hd Ho HE H2. apply (suspend_prepare_spec _ mask) in H1 as [-> _]; [|done].
  eapply suspend_devices_and_enter_spec in H2 as (Hd' & l & Hl & (P1 & P2 & P3 & P4) & He); [|done..].
  split; [done|]. split; [done|]. exists l. split; [|by split]. by right.
Qed.

(** The calls of the platform, those it has. *)
Definition platform_calls (l : list platform_call) : list platform_call :=
  match suspend_ops with Some o => only_set o l | None => [] end.

(** Whatever fails on the way, when enter_state() returns the system runs
    again: the mutex is free, all that was stopped is running with the mask of
    the memory allocator as before, and all devices are on.  The platform was
    called as its documentation says, and if it entered the sleep state
    everything was stopped at that moment, each device with its interrupts. *)
Lemma enter_state_restores s mask state s' e :
  pm_mutex s = false -> mach s = running mask -> all_on (devices s) -> enter_state s state = Some (s', e) ->
  pm_mutex s' = false /\ mach s' = running mask /\ all_on (devices s') /\
  exists l, l ∈ protocol /\ calls s' = calls s ++ platform_calls l /\ (enters l = true -> e = 0) /\
    if enters l then exists d, all_off_irq d /\ entered s' = entered s ++ [(quiet mask, d)] else entered s' = entered s.
Proof.
  intros Hmu Hm Hd H. unfold enter_state in H. rewrite Hmu in H.
  assert (platform_calls [] = []) as P0 by (unfold platform_calls; by destruct suspend_ops).
  assert ([] ∈ protocol) as P1 by (unfold protocol; set_solver).
  destruct (valid_state state); simpl in H.
  2:{ injection H as <- <-. split; [done|]. split; [done|]. split; [done|]. exists []. rewrite P0, app_nil_r. by repeat split. }
  destruct (suspend_prepare (set_mutex s true)) as [s1 e1] eqn:H1. destruct (e1 =? 0) eqn:E1; simpl in H.
  - apply Z.eqb_eq in E1 as ->. apply bind_Some in H as ([s2 e2] & H2 & [= <- <-]).
    destruct (suspend_prepare_spec (set_mutex s true) mask _ _ Hm H1) as [_ (o & Ho & HE)]; [done|].
    destruct (enter_state_prepared _ _ _ _ _ _ Hm H1 Hd Ho HE H2) as (Hd' & Hm' & l & Hl & Hc & He & Hent).
    split; [done|]. split; [simpl; by rewrite Hm'|]. split; [done|]. exists l. unfold platform_calls. by rewrite Ho.
  - injection H as <- <-. apply (suspend_prepare_spec _ mask) in H1 as [-> _]; [|done]. rewrite E1. split; [done|].
    split; [done|]. split; [done|]. exists []. rewrite P0, app_nil_r. by repeat split.
Qed.

(** ** That it returns *)

(** A function for devices that does not come to an end. *)
Definition stuck : Prop :=
  (exists d, all_on d /\ dpm_suspend_start d = None) \/ (exists d, all_off d /\ dpm_suspend_noirq d = None) \/
  (exists d, all_off_irq d /\ dpm_resume_noirq d = None) \/ (exists d, some_off d /\ dpm_resume_end d = None).

Lemma resume_noirq_returns s : all_off_irq (devices s) -> is_Some (resume_noirq s) \/ stuck.
Proof.
  intros Hd. unfold resume_noirq. destruct (dpm_resume_noirq (devices s)) as [d|] eqn:E; [left; by eexists|].
  right. unfold stuck. eauto 6.
Qed.

Lemma suspend_enter_returns o s :
  has o Enter = true -> device_irqs_off (mach s) = false -> irqs_disabled (mach s) = false ->
  sysdevs_off (mach s) = false -> all_off (devices s) -> is_Some (suspend_enter o s) \/ stuck.
Proof.
  intros HE M1 M2 M3 Hd. unfold suspend_enter. rewrite call_eq. destruct (_ =? 0); [|left; by eexists]. simpl.
  set (s0 := mk_system _ _ _ _ _). destruct (suspend_noirq s0) as [[s1 e1]|] eqn:H1.
  2:{ right. unfold suspend_noirq in H1. simpl in H1. destruct (dpm_suspend_noirq (devices s)) as [[]|] eqn:E; [done|].
      unfold stuck. eauto 6. }
  simpl. apply suspend_noirq_eq in H1 as (d1 & -> & Hd1); [|done..].
  destruct (e1 =? 0); [|left; by eexists]. simpl. rewrite call_eq. destruct (_ =? 0); simpl.
  - destruct (nonboot_cpus a =? 0); [rewrite enter_core_eq by done; destruct (sysdevs a =? 0)|]; simpl;
      rewrite call_eq; simpl; set (s2 := mk_system _ _ _ _ _);
      (destruct (resume_noirq_returns s2 Hd1) as [[s3 ->]|?]; [left; by eexists|by right]).
  - set (s2 := mk_system _ _ _ _ _). destruct (resume_noirq_returns s2 Hd1) as [[s3 ->]|?]; [left; by eexists|by right].
Qed.

Lemma dpm_resume_end_returns d : some_off d -> is_Some (dpm_resume_end d) \/ stuck.
Proof. intros Hd. destruct (dpm_resume_end d) eqn:E; [left; by eexists|]. right. unfold stuck. eauto 6. Qed.

(** If the functions for devices return, so does the rest. *)
Lemma enter_state_returns s mask state :
  mach s = running mask -> all_on (devices s) -> is_Some (enter_state s state) \/ stuck.
Proof.
  intros Hm Hd. unfold enter_state. destruct (valid_state state); [|left; by eexists]. simpl.
  destruct (pm_mutex s); [left; by eexists|].
  destruct (suspend_prepare (set_mutex s true)) as [s1 e1] eqn:H1. destruct (e1 =? 0) eqn:E1; [|left; by eexists]. simpl.
  apply Z.eqb_eq in E1 as ->.
  destruct (suspend_prepare_spec (set_mutex s true) mask _ _ Hm H1) as [-> (o & Ho & HE)]; [done|].
  unfold suspend_devices_and_enter. rewrite Ho, call_eq. change (0 =? 0) with true. simpl.
  destruct ((if has o Begin then _ else _) =? 0); simpl; [|left; by eexists]. clear H1.
  rewrite suspend_console_eq by done. simpl.
  destruct (dpm_suspend_start (devices s)) as [[d1 e1]|] eqn:H1; [simpl|right; unfold stuck; eauto].
  apply suspend_start_spec in H1 as [Hd1 Hd1']; [|done]. destruct (e1 =? 0) eqn:E1.
  - apply Z.eqb_eq in E1. set (s2 := set_devices _ _).
    destruct (suspend_enter_returns o s2) as [[[s3 e3] H3]|?]; [by auto..| |by right]. rewrite H3. simpl.
    apply suspend_enter_spec in H3 as [Hd3 _]; [|by auto..].
    destruct (dpm_resume_end_returns (devices s3)) as [[d4 ->]|?]; [by apply all_off_some|left; by eexists|by right].
  - simpl. rewrite call_eq. simpl. destruct (dpm_resume_end_returns _ Hd1) as [[d4 ->]|?]; [left; by eexists|by right].
Qed.

End suspend.
End Suspend.
