(* ===== verification/DpmCycle.v ===== *)
(** The devices through suspend and resume: the functions of
    drivers/base/power/main.c one after the other, with the interleavings of
    DpmSuspend.v and DpmResume.v in the middle.

    What the phases do to the list and the states of the devices is proved for
    each of them; together they are what suspending the system (Suspend.v) needs
    of the devices. *)

From S2P Require Import Prelude Dpm DpmSuspend DpmResume Suspend.
Local Open Scope Z_scope.
Local Open Scope kernel_scope.

Module DpmCycle.

Import Dpm.

(** ** States of all devices *)

(** The devices of [c] with the states given by [P]. *)
Definition states (c : dpm) (P : Z -> Z -> Prop) : Prop :=
  forall d x, devs c !! d = Some x -> P d (status x).

(** The list and what is fixed in the devices is the same. *)
Definition same (c c' : dpm) : Prop :=
  dpm_list c' = dpm_list c /\ fixed <$> devs c' = fixed <$> devs c.

Lemma same_tree c c' : same c c' -> tree c -> tree c'.
Proof. intros [E1 E2]. by apply tree_same. Qed.

Lemma same_trans c1 c2 c3 : same c1 c2 -> same c2 c3 -> same c1 c3.
Proof. intros [E1 E2] [E3 E4]. split; congruence. Qed.

Lemma states_update (P Q : Z -> Z -> Prop) c d f :
  states c P -> (forall x, devs c !! d = Some x -> Q d (status (f x))) -> (forall q s, q <> d -> P q s -> Q q s) ->
  states (update d f c) Q.
Proof.
  intros H Hd Hq q y (x & Hx & [[-> ->]|[N ->]])%alter_Some; [by apply Hd|]. apply Hq; [done|]. by apply H.
Qed.

Lemma states_mono (P Q : Z -> Z -> Prop) c : states c P -> (forall d s, is_Some (devs c !! d) -> P d s -> Q d s) -> states c Q.
Proof. intros H HQ d x Hx. apply HQ; [by eexists|]. by apply H. Qed.

(** ** Prepare *)

Definition after_prepare (moved : list Z) (d s : Z) : Prop :=
  s = if bool_decide (d ∈ moved) then DPM_SUSPENDING else DPM_ON.

Lemma prepare_one_devs c d a c' e :
  prepare_one c d a = Some (c', e) ->
  dpm_list c' = dpm_list c /\ exists g, devs c' = alter g d (devs c) /\ forall x, fixed (g x) = fixed x.
Proof.
  unfold prepare_one. destruct a.1.
  - intros [= <- _]. split; [done|]. simpl. rewrite !alter_twice. by eexists.
  - intros (x & _ & [= <- _])%bind_Some. split; [done|]. simpl. rewrite alter_twice. by eexists.
Qed.

(** A round of the loop, which ends with a state for the device. *)
Lemma prepare_round c d a c' e s moved (Q : Z -> Z -> Prop) :
  prepare_one c d a = Some (c', e) -> states c (after_prepare moved) -> Q d s ->
  (forall q t, q <> d -> after_prepare moved q t -> Q q t) ->
  let c1 := update d (set_status s) c' in
  dpm_list c1 = dpm_list c /\ fixed <$> devs c1 = fixed <$> devs c /\ states c1 Q.
Proof.
  intros (E1 & g & E2 & G)%prepare_one_devs S Hd Hq. simpl. rewrite E2, alter_twice. split; [done|].
  split; [apply fixed_alter; intros x; apply G|]. intros q y Hy. simpl in Hy. rewrite E2, alter_twice in Hy.
  apply alter_Some in Hy as (x & Hx & [[-> ->]|[N ->]]); [done|]. apply Hq; [done|]. by apply S.
Qed.

Lemma prepare_loop_spec answers : forall c moved c' moved' e,
  NoDup (moved ++ dpm_list c) -> states c (after_prepare moved) ->
  prepare_loop c moved answers = Some (c', moved', e) ->
  moved' ++ dpm_list c' = moved ++ dpm_list c /\ fixed <$> devs c' = fixed <$> devs c /\
  states c' (after_prepare moved') /\ (e = 0 -> dpm_list c' = []).
Proof.
  induction answers as [|a answers IH]; intros c moved c' moved' e N S H; simpl in H;
    destruct (dpm_list c) as [|d rest] eqn:El; [by injection H as <- <- <-; rewrite El|done|by injection H as <- <- <-; rewrite El|].
  apply bind_Some in H as ([c1 e1] & H1 & H).
  assert (d ∉ moved) as Nd by (apply NoDup_app in N as (_ & N & _); intros ?; by apply (N d); [|left]).
  destruct (e1 =? 0) eqn:E1.
  - destruct (prepare_round _ _ _ _ _ DPM_SUSPENDING moved (after_prepare (moved ++ [d])) H1 S) as (F1 & F2 & F3).
    { unfold after_prepare. by rewrite bool_decide_true by set_solver. }
    { intros q t Nq. unfold after_prepare. by rewrite (bool_decide_ext (q ∈ moved ++ [d]) (q ∈ moved)) by set_solver. }
    apply IH in H as (G1 & G2 & G3 & G4); [|simpl; by rewrite <- app_assoc|done]. simpl in *.
    by rewrite G1, <- app_assoc, G2.
  - destruct (prepare_round _ _ _ _ _ DPM_ON moved (after_prepare moved) H1 S) as (F1 & F2 & F3); [|done|].
    { unfold after_prepare. by rewrite bool_decide_false. }
    destruct (e1 =? - EAGAIN).
    + apply IH in H as (G1 & G2 & G3 & G4); [|by rewrite F1, El|done]. rewrite F1, El in G1. by rewrite G1, G2.
    + injection H as <- <- <-. rewrite F1, El. split; [done|]. split; [done|]. split; [done|]. intros ->. by simpl in E1.
Qed.

Lemma dpm_prepare_spec c answers c' e :
  tree c -> states c (fun _ s => s = DPM_ON) -> dpm_prepare c answers = Some (c', e) ->
  same c c' /\ states c' (fun _ s => s = DPM_ON \/ s = DPM_SUSPENDING) /\
  (e = 0 -> states c' (fun _ s => s = DPM_SUSPENDING)).
Proof.
  intros T S H. unfold dpm_prepare in H. apply bind_Some in H as ([[c1 moved] e1] & H & [= <- <-]).
  destruct (prepare_loop_spec _ (set_transition c true) [] _ _ _ (tree_nodup _ T) S H) as (F1 & F2 & F3 & F4). simpl in *.
  assert (same c (set_list c1 (moved ++ dpm_list c1))) as Hs by done.
  split; [done|]. split.
  - intros d x Hx. rewrite (F3 _ _ Hx). case_bool_decide; auto.
  - intros E d x Hx. rewrite (F3 _ _ Hx), bool_decide_true; [done|].
    assert (d ∈ dpm_list (set_list c1 (moved ++ dpm_list c1))) as Hd by (apply (tree_devs _ (same_tree _ _ Hs T)); by eexists).
    simpl in Hd. by rewrite F4, app_nil_r in Hd.
Qed.

(** A device that is not to wake the system and whose callbacks succeed is
    prepared in one round. *)
Definition willing : answer := (false, no_error).

Lemma and_then_no_error a b : a.2 = 0 -> b.2 = 0 -> (and_then a b).2 = 0.
Proof. intros Ha Hb. unfold and_then. by rewrite Ha. Qed.

Lemma device_prepare_no_error x : (device_prepare x no_error).2 = 0.
Proof.
  assert (forall l o, (subsystem_pm l o Prepare no_error).2 = 0) as Hs.
  { intros l [[[ops|] ? ?]|]; [|done..]. unfold subsystem_pm, pm_op. simpl. by destruct (prepare ops). }
  unfold device_prepare. apply and_then_no_error; [apply Hs|]. apply and_then_no_error; [|apply Hs].
  destruct (type x) as [[ops|]|]; [|done..]. unfold type_pm, pm_op. simpl. by destruct (prepare ops).
Qed.

Lemma prepare_loop_returns l : forall c moved,
  dpm_list c = l -> (forall d, d ∈ l -> is_Some (devs c !! d)) -> is_Some (prepare_loop c moved (replicate (length l) willing)).
Proof.
  induction l as [|d l IH]; intros c moved El Hc; simpl; rewrite El; [by eexists|].
  destruct (Hc d) as [x Hx]; [by left|].
  unfold prepare_one. simpl. rewrite !lookup_alter_eq, Hx. simpl.
  match goal with |- context [device_prepare ?y no_error] => rewrite (device_prepare_no_error y) end. simpl.
  apply IH; [done|]. intros q Hq. simpl. rewrite !lookup_alter_is_Some. apply Hc. by right.
Qed.

(** ** Loops that bring all devices to a state *)

(** The devices in [l] are still to be dealt with, their states as [P] says; the
    others have the state [t]. *)
Definition pending (l : list Z) (P : Z -> Prop) (t : Z) (d s : Z) : Prop :=
  if bool_decide (d ∈ l) then P s else s = t.

Lemma pending_update c d l P t :
  states c (pending (d :: l) P t) -> (d ∈ l -> P t) -> states (update d (set_status t) c) (pending l P t).
Proof.
  intros S Hd. apply (states_update _ _ _ _ _ S); unfold pending.
  - intros x _. simpl. case_bool_decide; auto.
  - intros q s N. by rewrite (bool_decide_ext (q ∈ d :: l) (q ∈ l)) by set_solver.
Qed.

Lemma pending_skip c d x l (P : Z -> Prop) t :
  states c (pending (d :: l) P t) -> devs c !! d = Some x -> (P (status x) -> status x = t) ->
  states c (pending l P t).
Proof.
  intros S Hx Ht q y Hy. specialize (S q y Hy). unfold pending in *. destruct (decide (q = d)) as [-> |N].
  - rewrite bool_decide_true in S by set_solver. assert (y = x) as -> by congruence. case_bool_decide; auto.
  - by rewrite (bool_decide_ext (q ∈ d :: l) (q ∈ l)) in S by set_solver.
Qed.

Lemma states_pending c l P t :
  (forall d, is_Some (devs c !! d) -> d ∈ l) -> states c (fun _ s => P s) -> states c (pending l P t).
Proof. intros Hl S. apply (states_mono _ _ _ S). intros d s Hd Hs. unfold pending. rewrite bool_decide_true; auto. Qed.

Lemma elem_rev (l : list Z) d : d ∈ rev l <-> d ∈ l.
Proof. rewrite !list_elem_of_In. symmetry. apply in_rev. Qed.

Lemma tree_rev c d : tree c -> is_Some (devs c !! d) -> d ∈ rev (dpm_list c).
Proof. intros T Hd. apply elem_rev. by apply (tree_devs _ T). Qed.

Lemma update_status_same c d t : same c (update d (set_status t) c).
Proof. split; [done|]. by apply fixed_alter. Qed.

Lemma present c c' d : same c c' -> is_Some (devs c !! d) -> is_Some (devs c' !! d).
Proof. intros [_ E]. rewrite <- !(fmap_is_Some fixed), <- !lookup_fmap. by rewrite E. Qed.

(** ** Complete *)

Lemma complete_loop_spec l : forall c,
  (forall d, d ∈ l -> is_Some (devs c !! d)) -> states c (pending l (fun s => DPM_ON <= s) DPM_ON) ->
  exists c', complete_loop c l = Some c' /\ same c c' /\ transition_started c' = transition_started c /\
    states c' (fun _ s => s = DPM_ON).
Proof.
  induction l as [|d l IH]; intros c Hl S; simpl; [by exists c|].
  destruct (Hl d) as [x Hx]; [by left|]. rewrite Hx. simpl. destruct (Z.ltb_spec DPM_ON (status x)) as [L|L].
  - set (c1 := update d (add_usage (-1)) _).
    assert (same c c1) as E1 by (split; [done|]; simpl; rewrite !fixed_alter by done; done).
    destruct (IH c1) as (c' & H1 & H2 & H3 & H4).
    + intros q Hq. apply (present _ _ _ E1). apply Hl. by right.
    + intros q y Hy. apply alter_Some in Hy as (z & Hz & Hy).
      assert (pending l (fun s => DPM_ON <= s) DPM_ON q (status z)) as Hp by (by apply (pending_update _ _ _ _ _ S)).
      destruct Hy as [[-> ->]|[N ->]]; done.
    + exists c'. split; [done|]. split; [by apply (same_trans _ c1)|]. by rewrite H3.
  - apply IH; [intros q Hq; apply Hl; by right|]. apply (pending_skip _ _ _ _ _ _ S Hx). intros. lia.
Qed.

Lemma dpm_complete_spec c :
  tree c -> states c (fun _ s => DPM_ON <= s) ->
  exists c', dpm_complete c = Some c' /\ same c c' /\ transition_started c' = false /\ states c' (fun _ s => s = DPM_ON).
Proof.
  intros T S. apply (complete_loop_spec (rev (dpm_list c)) (set_transition c false)).
  - intros d Hd. apply (tree_devs c T). rewrite elem_rev in Hd. exact Hd.
  - apply (states_pending (set_transition c false)); [|done]. intros d Hd. apply (tree_rev c d T Hd).
Qed.

(** ** Late suspend and early resume *)

Lemma resume_noirq_loop_spec ret l : forall c,
  (forall d, d ∈ l -> is_Some (devs c !! d)) -> states c (pending l (fun s => s = DPM_OFF \/ s = DPM_OFF_IRQ) DPM_OFF) ->
  exists c', resume_noirq_loop c l ret = Some c' /\ same c c' /\ states c' (fun _ s => s = DPM_OFF).
Proof.
  induction l as [|d l IH]; intros c Hl S; simpl; [by exists c|].
  destruct (Hl d) as [x Hx]; [by left|]. rewrite Hx. simpl. destruct (Z.ltb_spec DPM_OFF (status x)) as [L|L].
  - set (c1 := add_log _ _ _). assert (same c c1) as E1 by apply update_status_same.
    destruct (IH c1) as (c' & H1 & H2 & H3).
    + intros q Hq. apply (present _ _ _ E1). apply Hl. by right.
    + apply (pending_update _ _ _ _ _ S). auto.
    + exists c'. split; [done|]. split; [by apply (same_trans _ c1)|done].
  - apply IH; [intros q Hq; apply Hl; by right|]. apply (pending_skip _ _ _ _ _ _ S Hx).
    unfold DPM_OFF, DPM_OFF_IRQ in *. lia.
Qed.

Lemma dpm_resume_noirq_spec c ret :
  tree c -> states c (fun _ s => s = DPM_OFF \/ s = DPM_OFF_IRQ) ->
  exists c', dpm_resume_noirq c ret = Some c' /\ same c c' /\ states c' (fun _ s => s = DPM_OFF).
Proof.
  intros T S. apply (resume_noirq_loop_spec ret (dpm_list c) (set_transition c false)).
  - intros d Hd. by apply (tree_devs _ T).
  - apply (states_pending (set_transition c false)); [|done]. intros d Hd. by apply (tree_devs c T).
Qed.

Lemma suspend_noirq_loop_spec ret l : forall c,
  NoDup l -> (forall d, d ∈ l -> is_Some (devs c !! d)) -> states c (pending l (fun s => s = DPM_OFF) DPM_OFF_IRQ) ->
  exists c' e, suspend_noirq_loop c l ret = Some (c', e) /\ same c c' /\
    states c' (fun _ s => s = DPM_OFF \/ s = DPM_OFF_IRQ) /\ (e = 0 -> states c' (fun _ s => s = DPM_OFF_IRQ)).
Proof.
  induction l as [|d l IH]; intros c N Hl S; simpl.
  { exists c, 0. split; [done|]. split; [done|]. split; [|done]. intros d x Hx. right. by apply (S d x). }
  destruct (Hl d) as [x Hx]; [by left|]. rewrite Hx. simpl. apply NoDup_cons in N as [Nd N].
  set (r := device_suspend_noirq x (ret d)). destruct (r.2 =? 0) eqn:E.
  - set (c1 := update _ _ _). assert (same c c1) as E1 by apply (update_status_same (add_log d r.1 c)).
    destruct (IH c1) as (c' & e & H1 & H2 & H3 & H4); [done| | |].
    + intros q Hq. apply (present _ _ _ E1). apply Hl. by right.
    + by apply (pending_update (add_log d r.1 c) _ _ _ _ S).
    + exists c', e. split; [done|]. split; [by apply (same_trans _ c1)|done].
  - exists (add_log d r.1 c), r.2. split; [done|]. split; [done|]. split; [|intros E0; by rewrite E0 in E].
    intros q y Hy. specialize (S q y Hy). unfold pending in S. case_bool_decide; auto.
Qed.

Lemma dpm_suspend_noirq_spec c ret :
  tree c -> states c (fun _ s => s = DPM_OFF) ->
  exists c' e, dpm_suspend_noirq c ret = Some (c', e) /\ same c c' /\
    states c' (fun _ s => s = if e =? 0 then DPM_OFF_IRQ else DPM_OFF).
Proof.
  intros T S. destruct (suspend_noirq_loop_spec ret (rev (dpm_list c)) c) as (c1 & e & H1 & H2 & H3 & H4).
  - apply NoDup_ListNoDup, NoDup_rev, NoDup_ListNoDup, (tree_nodup _ T).
  - intros d Hd. apply (tree_devs c T). rewrite elem_rev in Hd. exact Hd.
  - apply states_pending; [|done]. intros d. by apply tree_rev.
  - unfold dpm_suspend_noirq. rewrite H1. simpl. destruct (e =? 0) eqn:E.
    + apply Z.eqb_eq in E. exists c1, 0. split; [done|]. split; [done|]. by apply H4.
    + destruct (dpm_resume_noirq_spec c1 ret) as (c2 & -> & H5 & H6); [by eapply same_tree|done|].
      exists c2, e. rewrite E. split; [done|]. split; [by apply (same_trans _ c1)|done].
Qed.

(** ** The functions of drivers/base/power/main.c *)

(** What happens on the way: the answers of the devices, and the steps of the
    main thread and the asynchronous calls. *)
Record schedule := mk_schedule {
  answers : list answer;
  suspend_events : list DpmSuspend.event;
  suspend_returns : Z -> callback -> Z;
  resume_returns : Z -> callback -> Z;
  resume_events : list DpmResume.event
}.

Section functions.
Context (pm_async_enabled : bool) (sch : schedule).

(** [None] is that the events do not get to the end. *)
Definition dpm_suspend (c : dpm) : option (dpm * Z) :=
  st ← DpmSuspend.run pm_async_enabled (DpmSuspend.start c) (suspend_events sch);
  match DpmSuspend.main st with
  | DpmSuspend.Done error => Some (DpmSuspend.core st, error)
  | _ => None
  end.

Definition dpm_resume (c : dpm) : option dpm :=
  st ← DpmResume.run pm_async_enabled (DpmResume.start c) (resume_events sch);
  match DpmResume.main st with
  | DpmResume.Done => Some (DpmResume.core st)
  | _ => None
  end.

Definition dpm_suspend_start (c : dpm) : option (dpm * Z) :=
  '(c, error) ← dpm_prepare c (answers sch);
  if error =? 0 then dpm_suspend c else Some (c, error).

Definition dpm_resume_end (c : dpm) : option dpm :=
  c ← dpm_resume c; dpm_complete c.

Definition devices_on (c : dpm) : Prop :=
  tree c /\ transition_started c = false /\ states c (fun _ s => s = DPM_ON).
Definition devices_partly_off (c : dpm) : Prop := tree c /\ states c (fun _ s => DPM_ON <= s).
Definition devices_off (c : dpm) : Prop := tree c /\ states c (fun _ s => s = DPM_OFF).
Definition devices_off_irq (c : dpm) : Prop := tree c /\ states c (fun _ s => s = DPM_OFF_IRQ).

Lemma dpm_suspend_spec c c' e :
  DpmSuspend.prepared c -> dpm_suspend c = Some (c', e) ->
  same c c' /\ states c' (fun _ s => s = DPM_OFF \/ s = DPM_SUSPENDING) /\ (e = 0 -> states c' (fun _ s => s = DPM_OFF)).
Proof.
  intros P H. unfold dpm_suspend in H. apply bind_Some in H as (st & H & Hm).
  destruct (DpmSuspend.main st) as [| | |e'] eqn:Em; try done. injection Hm as <- <-.
  apply (DpmSuspend.suspend_run_reachable _ c) in H; [|constructor].
  destruct (DpmSuspend.suspend_done _ _ _ _ P H Em) as (_ & El & S). split; [by split; [|eapply DpmSuspend.suspend_fixed]|]. split.
  - intros d x Hx. destruct (S d x Hx) as [-> _]. case_bool_decide; auto.
  - intros E d x Hx. by apply (proj2 (S d x Hx)).
Qed.

Lemma dpm_resume_spec c c' :
  tree c -> states c (fun _ s => DPM_ON <= s) -> dpm_resume c = Some c' ->
  same c c' /\ states c' (fun _ s => DPM_ON <= s < DPM_OFF).
Proof.
  intros T S0 H. unfold dpm_resume in H. apply bind_Some in H as (st & H & Hm).
  destruct (DpmResume.main st) eqn:Em; try done. injection Hm as <-.
  apply (DpmResume.resume_run_reachable _ c) in H; [|constructor].
  destruct (DpmResume.resume_done _ _ _ T H Em) as (_ & El & S). pose proof (DpmResume.resume_fixed _ _ _ T H) as Ef.
  split; [done|]. intros d x Hx. destruct (fixed_lookup _ _ _ _ Ef Hx) as (x0 & Hx0 & _).
  destruct (S d x x0 Hx Hx0) as (L & [E|E] & _); [specialize (S0 d x0 Hx0); simpl in S0; lia|]. by rewrite E in *.
Qed.

Lemma devices_off_partly c : devices_off c -> devices_partly_off c.
Proof. intros [T S]. split; [done|]. apply (states_mono _ _ _ S). by intros d s _ ->. Qed.

Lemma start_spec c c' e :
  devices_on c -> dpm_suspend_start c = Some (c', e) -> devices_partly_off c' /\ (e = 0 -> devices_off c').
Proof.
  intros (T & _ & S) H. unfold dpm_suspend_start in H. apply bind_Some in H as ([c1 e1] & H1 & H).
  destruct (dpm_prepare_spec _ _ _ _ T S H1) as (E1 & S1 & P1). pose proof (same_tree _ _ E1 T) as T1.
  destruct (e1 =? 0) eqn:E.
  - apply Z.eqb_eq in E. destruct (dpm_suspend_spec c1 c' e) as (E2 & S2 & P2); [by split; [|apply P1]|done|].
    pose proof (same_tree _ _ E2 T1) as T2. split; [|by intros ?; split; [|apply P2]].
    split; [done|]. apply (states_mono _ _ _ S2). by intros d s _ [-> | ->].
  - injection H as <- <-. split; [|intros ->; by simpl in E]. split; [done|].
    apply (states_mono _ _ _ S1). by intros d s _ [-> | ->].
Qed.

Lemma noirq_spec c c' e :
  devices_off c -> dpm_suspend_noirq c (suspend_returns sch) = Some (c', e) ->
  if e =? 0 then devices_off_irq c' else devices_off c'.
Proof.
  intros [T S] H. destruct (dpm_suspend_noirq_spec c (suspend_returns sch) T S) as (c1 & e1 & H1 & E1 & S1).
  rewrite H1 in H. injection H as <- <-. pose proof (same_tree _ _ E1 T). by destruct (e1 =? 0).
Qed.

Lemma noirq_end_spec c c' :
  devices_off_irq c -> dpm_resume_noirq c (resume_returns sch) = Some c' -> devices_off c'.
Proof.
  intros [T S] H. destruct (dpm_resume_noirq_spec c (resume_returns sch) T) as (c1 & H1 & E1 & S1).
  - apply (states_mono _ _ _ S). auto.
  - rewrite H1 in H. injection H as <-. split; [by eapply same_tree|done].
Qed.

Lemma resume_complete c c' :
  devices_partly_off c -> dpm_resume c = Some c' -> exists c2, dpm_complete c' = Some c2 /\ devices_on c2.
Proof.
  intros [T S] H. apply dpm_resume_spec in H as [E1 S1]; [|done..]. pose proof (same_tree _ _ E1 T) as T1.
  destruct (dpm_complete_spec c' T1) as (c2 & H2 & E2 & Ht & S2).
  - apply (states_mono _ _ _ S1). intros; lia.
  - exists c2. split; [done|]. split; [by eapply same_tree|done].
Qed.

Lemma end_spec c c' : devices_partly_off c -> dpm_resume_end c = Some c' -> devices_on c'.
Proof.
  intros P H. unfold dpm_resume_end in H. apply bind_Some in H as (c1 & H1 & H).
  destruct (resume_complete c c1 P H1) as (c2 & H2 & O). congruence.
Qed.

(** What suspending the system needs of the devices. *)
#[local] Instance device_pm : DevicePm dpm := {|
  Suspend.dpm_suspend_start := dpm_suspend_start;
  Suspend.dpm_suspend_noirq c := dpm_suspend_noirq c (suspend_returns sch);
  Suspend.dpm_resume_noirq c := dpm_resume_noirq c (resume_returns sch);
  Suspend.dpm_resume_end := dpm_resume_end;
  all_on := devices_on;
  some_off := devices_partly_off;
  all_off := devices_off;
  all_off_irq := devices_off_irq;
  all_off_some := devices_off_partly;
  suspend_start_spec := start_spec;
  suspend_noirq_spec := noirq_spec;
  resume_noirq_spec := noirq_end_spec;
  resume_end_spec := end_spec
|}.

End functions.

(** ** The system with its devices *)

(** enter_state() with the devices of [Dpm.dpm]. *)
Definition enter_state (pm_async_enabled console_suspend_enabled : bool) (sch : schedule)
    (suspend_ops : option Suspend.platform_suspend_ops) (a : Suspend.answers) (s : Suspend.system dpm) (state : Z) :
    option (Suspend.system dpm * Z) :=
  Suspend.enter_state (DevicePm0 := device_pm pm_async_enabled sch) console_suspend_enabled suspend_ops a s state.

(** The system runs, with this mask of the memory allocator. *)
Definition system_runs (mask : Z) (s : Suspend.system dpm) : Prop :=
  Suspend.pm_mutex s = false /\ Suspend.mach s = Suspend.running mask /\ devices_on (Suspend.devices s).

Definition two_devices : dpm :=
  mk_dpm [1; 2] (<[1 := mk_device None (Some DpmSuspend.bus_ops) None None false DPM_ON true 0]>
    {[2 := mk_device (Some 1) (Some DpmSuspend.bus_ops) None None true DPM_ON true 0]}) false [].

Lemma two_devices_on : devices_on two_devices.
Proof.
  split; [|split; [done|]].
  - apply (tree_same DpmResume.two_devices); [done|reflexivity|apply DpmResume.two_devices_tree].
  - intros d x Hx. unfold two_devices in Hx. simpl in Hx.
    by apply lookup_insert_Some in Hx as [[<- <-]|[_ [<- <-]%lookup_singleton_Some]].
Qed.

Definition platform_ops : Suspend.platform_suspend_ops :=
  Suspend.mk_ops (fun _ => true) true Suspend.suspend_valid_only_mem.

(** Nothing fails but the callbacks of the platform, as [f] says. *)
Definition fine (f : Suspend.platform_call -> Z) : Suspend.answers := Suspend.mk_answers false false 0 f 0 0.

Definition fine_schedule : schedule :=
  mk_schedule [willing; willing] DpmSuspend.ok_events (fun _ => no_error) (fun _ => no_error) DpmResume.ok_events.

Definition awake : Suspend.system dpm := Suspend.mk_system false (Suspend.running 0xFF) two_devices [] [].

Lemma awake_runs : system_runs 0xFF awake.
Proof. split; [done|]. split; [done|]. apply two_devices_on. Qed.



(** A device whose prepare callback fails. *)
Definition refusing : dpm :=
  mk_dpm [1] {[1 := mk_device None (Some (mk_subsystem (Some (mk_ops true true true true false false)) false false))
    None None false DPM_ON true 0]} false [].

Definition refusing_schedule : schedule :=
  mk_schedule [(false, fun _ => - EBUSY)] [] (fun _ => no_error) (fun _ => no_error)
    [DpmResume.ScanStep true; DpmResume.ScanStep true; DpmResume.Take; DpmResume.Take; DpmResume.Finish].

Lemma refusing_on : devices_on refusing.
Proof.
  assert (forall d x, devs refusing !! d = Some x -> d = 1 /\ parent x = None /\ status x = DPM_ON) as D.
  { intros d x H. unfold refusing in H. simpl in H. by apply lookup_singleton_Some in H as [<- <-]. }
  split; [constructor|split; [done|]].
  - apply NoDup_singleton.
  - intros d. simpl. rewrite list_elem_of_singleton. split; [intros ->; by eexists|]. intros [x Hx]. by destruct (D d x Hx).
  - intros q x p Hq Hp. destruct (D q x Hq) as (_ & E & _). congruence.
  - intros l1 p l2 q x _ Hq Hp. destruct (D q x Hq) as (_ & E & _). congruence.
  - intros d x Hx. by destruct (D d x Hx) as (_ & _ & ?).
Qed.

(** C24. Two faults.  suspend_devices_and_enter() drops the result of
    suspend_enter(): the system reports success though the platform refused
    and never entered the sleep state.  And a device that refuses to be
    prepared keeps the reference that was taken for its runtime power
    management: when the suspend has failed and all devices are on, its usage
    count has grown. *)
Theorem enter_state_faults :
  (exists s', enter_state true true fine_schedule (Some platform_ops)
       (fine (fun c => match c with Suspend.Prepare => - EBUSY | _ => 0 end)) awake Suspend.PM_SUSPEND_MEM = Some (s', 0) /\
     Suspend.entered s' = []) /\
  (exists sch c x s' y e, system_runs 0xFF (Suspend.mk_system false (Suspend.running 0xFF) c [] []) /\
     enter_state true true sch (Some platform_ops) (fine (fun _ => 0))
       (Suspend.mk_system false (Suspend.running 0xFF) c [] []) Suspend.PM_SUSPEND_MEM = Some (s', e) /\
     devs c !! 1 = Some x /\ devs (Suspend.devices s') !! 1 = Some y /\
     status y = DPM_ON /\ usage_count y = usage_count x + 1).
Proof.
  split.
  - destruct (enter_state true true fine_schedule (Some platform_ops)
      (fine (fun c => match c with Suspend.Prepare => - EBUSY | _ => 0 end)) awake Suspend.PM_SUSPEND_MEM) as [[s' e]|] eqn:E;
      [|vm_compute in E; discriminate E].
    exists s'. vm_compute in E. injection E as <- <-. split; reflexivity.
  - exists refusing_schedule, refusing.
    destruct (enter_state true true refusing_schedule (Some platform_ops) (fine (fun _ => 0))
      (Suspend.mk_system false (Suspend.running 0xFF) refusing [] []) Suspend.PM_SUSPEND_MEM) as [[s' e]|] eqn:E;
      [|vm_compute in E; discriminate E].
    eexists _, s', _, e. split; [split; [done|]; split; [done|apply refusing_on]|]. split; [reflexivity|].
    split; [reflexivity|]. vm_compute in E. injection E as <- <-. split; [reflexivity|]. split; reflexivity.
Qed.

End DpmCycle.
