(* ===== verification/Crc32.v ===== *)
(** Checksums, lib/crc32.c: crc32_le() and crc32_be() with tables, as they are
    built for a little-endian processor with eight bits at a time, the tables
    as lib/gen_crc32table.c makes them, and the versions that go bit by bit.

    A buffer is a place in memory; a read outside memory is [None]. *)

From S2P Require Import Prelude.
Local Open Scope Z_scope.
Local Open Scope kernel_scope.

Module Crc32.

(** ** Bit by bit *)

Definition CRCPOLY_LE : Z := 0xedb88320.
Definition CRCPOLY_BE : Z := 0x04c11db7.

Definition load8 (mem : list Z) (p : Z) : option Z := if p <? 0 then None else mem !! Z.to_nat p.

Definition step_le (crc : Z) : Z :=
  Z.lxor (Z.shiftr crc 1) (if Z.land crc 1 =? 0 then 0 else CRCPOLY_LE).

Definition byte_le (crc : Z) : Z := Nat.iter 8 step_le crc.

(** crc32_le() for CRC_LE_BITS = 1. *)
Fixpoint crc32_le_bits (crc : Z) (mem : list Z) (p : Z) (len : nat) {struct len} : option Z :=
  match len with
  | O => Some crc
  | S len => x ← load8 mem p; crc32_le_bits (byte_le (Z.lxor crc x)) mem (p + 1) len
  end.

Definition step_be (crc : Z) : Z :=
  Z.lxor (u32 (Z.shiftl crc 1)) (if Z.land crc 0x80000000 =? 0 then 0 else CRCPOLY_BE).

Definition byte_be (crc : Z) : Z := Nat.iter 8 step_be crc.

(** crc32_be() for CRC_BE_BITS = 1. *)
Fixpoint crc32_be_bits (crc : Z) (mem : list Z) (p : Z) (len : nat) {struct len} : option Z :=
  match len with
  | O => Some crc
  | S len => x ← load8 mem p; crc32_be_bits (byte_be (Z.lxor crc (Z.shiftl x 24))) mem (p + 1) len
  end.

(** ** The tables *)

Definition at_ (t : list Z) (i : Z) : Z := default 0 (t !! Z.to_nat i).

(** for (j = j0; j < limit; j += d), [n] rounds are enough. *)
Fixpoint for_each (n : nat) (j limit d : Z) (f : Z -> list Z -> list Z) (t : list Z) {struct n} : list Z :=
  match n with
  | O => t
  | S n => if j <? limit then for_each n (j + d) limit d f (f j t) else t
  end.

(** The first row of crc32init_le(), from [i] down; eight rounds. *)
Fixpoint init_le_row (n : nat) (i crc : Z) (t : list Z) {struct n} : list Z :=
  match n with
  | O => t
  | S n =>
      if i =? 0 then t
      else
        let crc := step_le crc in
        let t := for_each 256 0 256 (2 * i) (fun j t => <[Z.to_nat (i + j) := Z.lxor crc (at_ t j)]> t) t in
        init_le_row n (Z.shiftr i 1) crc t
  end.

(** The first row of crc32init_be(), from [i] up. *)
Fixpoint init_be_row (n : nat) (i crc : Z) (t : list Z) {struct n} : list Z :=
  match n with
  | O => t
  | S n =>
      if i <? 256 then
        let crc := step_be crc in
        let t := for_each 256 0 i 1 (fun j t => <[Z.to_nat (i + j) := Z.lxor crc (at_ t j)]> t) t in
        init_be_row n (Z.shiftl i 1) crc t
      else t
  end.

Definition no_entries : list Z := replicate 256 0.

Definition next_le (row : list Z) (crc : Z) : Z := Z.lxor (at_ row (Z.land crc 0xff)) (Z.shiftr crc 8).
Definition next_be (row : list Z) (crc : Z) : Z :=
  Z.lxor (at_ row (Z.land (Z.shiftr crc 24) 0xff)) (u32 (Z.shiftl crc 8)).

(** The other rows, each from the one before. *)
Definition rows (row : list Z) (next : Z -> Z) : list (list Z) :=
  [row; map next row; map next (map next row); map next (map next (map next row))].

Definition crc32init_le : list (list Z) :=
  let row := init_le_row 9 128 1 (<[0%nat := 0]> no_entries) in rows row (next_le row).
Definition crc32init_be : list (list Z) :=
  let row := init_be_row 9 1 0x80000000 (<[0%nat := 0]> no_entries) in rows row (next_be row).

Definition swab32 (x : Z) : Z :=
  Z.shiftl (Z.land x 0xff) 24 |ᵤ Z.shiftl (Z.land x 0xff00) 8 |ᵤ
  Z.shiftr (Z.land x 0xff0000) 8 |ᵤ Z.shiftr (Z.land x 0xff000000) 24.

(** The tables of crc32table.h, with tole() and tobe(). *)
Definition crc32table_le : list (list Z) := crc32init_le.
Definition crc32table_be : list (list Z) := map (map swab32) crc32init_be.

(** ** With the tables *)

Definition load32 (mem : list Z) (p : Z) : option Z :=
  a ← load8 mem p; b ← load8 mem (p + 1); c ← load8 mem (p + 2); d ← load8 mem (p + 3);
  Some (a + Z.shiftl b 8 + Z.shiftl c 16 + Z.shiftl d 24).

Section body.
Context (tab : list (list Z)) (mem : list Z).

Definition entry (k : nat) (i : Z) : Z := at_ (default [] (tab !! k)) i.

Definition DO_CRC (crc x : Z) : Z := Z.lxor (entry 0 (Z.land (Z.lxor crc x) 255)) (Z.shiftr crc 8).
Definition DO_CRC4 (crc : Z) : Z :=
  Z.lxor (Z.lxor (Z.lxor (entry 3 (Z.land crc 255)) (entry 2 (Z.land (Z.shiftr crc 8) 255)))
    (entry 1 (Z.land (Z.shiftr crc 16) 255))) (entry 0 (Z.land (Z.shiftr crc 24) 255)).

(** The bytes up to a multiple of four; three rounds are enough. *)
Fixpoint align (n : nat) (crc buf len : Z) {struct n} : option (Z * Z * Z) :=
  x ← load8 mem buf;
  let crc := DO_CRC crc x in
  let buf := buf + 1 in
  let len := len - 1 in
  match n with
  | S n => if negb (len =? 0) && negb (Z.land buf 3 =? 0) then align n crc buf len else Some (crc, buf, len)
  | O => Some (crc, buf, len)
  end.

(** [b] is in front of the next word. *)
Fixpoint words (len : nat) (crc b : Z) {struct len} : option (Z * Z) :=
  match len with
  | O => Some (crc, b)
  | S len => let b := b + 4 in w ← load32 mem b; words len (DO_CRC4 (Z.lxor crc w)) b
  end.

(** [p] is in front of the next byte. *)
Fixpoint last_bytes (len : nat) (crc p : Z) {struct len} : option Z :=
  match len with
  | O => Some crc
  | S len => let p := p + 1 in x ← load8 mem p; last_bytes len (DO_CRC crc x) p
  end.

Definition crc32_body (crc buf len : Z) : option Z :=
  '(crc, buf, len) ←
    (if negb (Z.land buf 3 =? 0) && negb (len =? 0) then align 2 crc buf len else Some (crc, buf, len));
  let rem_len := Z.land len 3 in
  let len := Z.shiftr len 2 in
  '(crc, b) ← words (Z.to_nat len) crc (buf - 4);
  last_bytes (Z.to_nat rem_len) crc (b + 4 - 1).

End body.

Definition crc32_le (crc : Z) (mem : list Z) (p len : Z) : option Z :=
  crc32_body crc32table_le mem crc p len.

Definition crc32_be (crc : Z) (mem : list Z) (p len : Z) : option Z :=
  crc ← crc32_body crc32table_be mem (swab32 crc) p len; Some (swab32 crc).

(** ** Words of some width *)

Definition fits (n x : Z) : Prop := 0 <= x < 2 ^ n.

Lemma fits_shiftr n x : 0 <= n -> fits n x <-> 0 <= x /\ Z.shiftr x n = 0.
Proof.
  intros Hn. unfold fits. rewrite Z.shiftr_div_pow2 by done. pose proof (Z.pow_pos_nonneg 2 n ltac:(lia) Hn). split.
  - intros [H1 H2]. split; [done|]. by apply Z.div_small.
  - intros [H1 H2]. split; [done|]. apply Z.div_small_iff in H2; lia.
Qed.

Lemma fits_lxor n x y : 0 <= n -> fits n x -> fits n y -> fits n (Z.lxor x y).
Proof.
  intros Hn. rewrite !fits_shiftr by done. intros [H1 H2] [H3 H4]. rewrite Z.shiftr_lxor, H2, H4.
  split; [|done]. by apply Z.lxor_nonneg.
Qed.

Lemma fits_low x : fits 8 (Z.land x 255).
Proof. unfold fits. change 255 with (Z.ones 8). rewrite Z.land_ones by lia. by apply Z.mod_pos_bound. Qed.

Lemma fits_high n x : 0 <= n -> fits (n + 8) x -> fits n (Z.shiftr x 8).
Proof.
  intros Hn. rewrite !fits_shiftr by lia. rewrite Z.shiftr_shiftr by lia. intros [H1 H2]. split; [by apply Z.shiftr_nonneg|].
  by rewrite Z.add_comm.
Qed.

Lemma fits_mono n m x : 0 <= n <= m -> fits n x -> fits m x.
Proof. intros Hn [H1 H2]. split; [done|]. pose proof (Z.pow_le_mono_r 2 n m). lia. Qed.

(** A word is its low byte and the rest. *)
Lemma split8 x : 0 <= x -> x = Z.lxor (Z.land x 255) (Z.shiftl (Z.shiftr x 8) 8).
Proof.
  intros Hx. change 255 with (Z.ones 8). rewrite <- Z.ldiff_ones_r by lia. apply Z.bits_inj'. intros i Hi.
  rewrite Z.lxor_spec, Z.land_spec, Z.ldiff_spec. destruct (Z.testbit x i), (Z.testbit (Z.ones 8) i); done.
Qed.

Lemma join8 x y : fits 8 x -> x + Z.shiftl y 8 = Z.lxor x (Z.shiftl y 8).
Proof.
  intros Hx. apply Z.add_nocarry_lxor. apply Z.bits_inj'. intros i Hi. rewrite Z.land_spec, Z.bits_0.
  destruct (Z.lt_ge_cases i 8) as [L|L].
  - by rewrite Z.shiftl_spec_low, andb_false_r.
  - rewrite (Z.bits_above_log2 x); [done|unfold fits in Hx; lia|].
    destruct (decide (x = 0)) as [->|N]; [simpl; lia|]. destruct Hx as [H1 H2].
    apply Z.log2_lt_pow2 in H2; lia.
Qed.

(** ** Any checksum that goes byte by byte

    [F] takes in a byte that is already added to the checksum; the table has
    what [F] makes of the bytes, once to four times. *)

Section linear.
Context (F : Z -> Z) (tab : list (list Z)) (mem : list Z).
Context (F_fits : forall x, fits 32 x -> fits 32 (F x)).
Context (F_lxor : forall x y, fits 32 x -> fits 32 y -> F (Z.lxor x y) = Z.lxor (F x) (F y)).
Context (F_shift : forall x, fits 24 x -> F (Z.shiftl x 8) = x).
Context (F_tab : forall k i, (k < 4)%nat -> fits 8 i -> entry tab k i = Nat.iter (S k) F i).
Context (mem_bytes : forall i x, mem !! i = Some x -> fits 8 x).

Fixpoint crc_bytes (crc p : Z) (len : nat) {struct len} : option Z :=
  match len with
  | O => Some crc
  | S len => x ← load8 mem p; crc_bytes (F (Z.lxor crc x)) (p + 1) len
  end.

Lemma fits_shifted x : fits 24 x -> fits 32 (Z.shiftl x 8).
Proof. unfold fits. rewrite Z.shiftl_mul_pow2 by lia. change (2 ^ 24) with 16777216. change (2 ^ 32) with 4294967296. lia. Qed.

Lemma F_split x : fits 32 x -> F x = Z.lxor (F (Z.land x 255)) (Z.shiftr x 8).
Proof.
  intros H. rewrite (split8 x) at 1 by apply H. rewrite F_lxor, F_shift; [done|by apply (fits_high 24)| |].
  - apply (fits_mono 8); [lia|apply fits_low].
  - by apply fits_shifted, (fits_high 24).
Qed.

Lemma iter_fits k x : fits 32 x -> fits 32 (Nat.iter k F x).
Proof. intros H. induction k as [|k IH]; [done|]. simpl. by apply F_fits. Qed.

Lemma DO_CRC_eq crc x : fits 32 crc -> fits 8 x -> DO_CRC tab crc x = F (Z.lxor crc x).
Proof.
  intros Hc Hx. unfold DO_CRC. rewrite F_tab by (try lia; apply fits_low). simpl.
  rewrite (F_split (Z.lxor crc x)) by (apply fits_lxor; [lia|done|]; by apply (fits_mono 8); [lia|]).
  f_equal. rewrite Z.shiftr_lxor. apply fits_shiftr in Hx as [_ ->]; [|lia]. by rewrite Z.lxor_0_r.
Qed.

(** [k] times on the rest of a word. *)
Lemma iter_split k x : fits 32 x -> Nat.iter (S k) F x = Z.lxor (Nat.iter (S k) F (Z.land x 255)) (Nat.iter k F (Z.shiftr x 8)).
Proof.
  intros H. assert (fits 32 (Z.shiftr x 8)) as H1 by (apply (fits_mono 24); [lia|]; by apply (fits_high 24)).
  assert (fits 32 (Z.land x 255)) as H2 by (apply (fits_mono 8); [lia|apply fits_low]).
  induction k as [|k IH]; simpl in *; [by apply F_split|]. rewrite IH. apply F_lxor; [apply F_fits|]; by apply (iter_fits k).
Qed.

Lemma DO_CRC4_eq crc : fits 32 crc -> DO_CRC4 tab crc = Nat.iter 4 F crc.
Proof.
  intros H0. pose proof (fits_high 24 _ ltac:(lia) H0) as H1. pose proof (fits_high 16 _ ltac:(lia) H1) as H2.
  pose proof (fits_high 8 _ ltac:(lia) H2) as H3. pose proof (fits_high 0 _ ltac:(lia) H3) as H4.
  unfold DO_CRC4. rewrite !F_tab by (try lia; apply fits_low).
  rewrite (iter_split 3 crc H0), (iter_split 2 (Z.shiftr crc 8)) by (by apply (fits_mono 24); [lia|]).
  rewrite (iter_split 1 (Z.shiftr (Z.shiftr crc 8) 8)) by (by apply (fits_mono 16); [lia|]).
  rewrite (iter_split 0 (Z.shiftr (Z.shiftr (Z.shiftr crc 8) 8) 8)) by (by apply (fits_mono 8); [lia|]).
  apply fits_shiftr in H3 as [_ H3]; [|lia]. rewrite H3. simpl Nat.iter at 8. rewrite Z.lxor_0_r, !Z.lxor_assoc.
  by rewrite !Z.shiftr_shiftr by lia.
Qed.

Lemma absorb crc x y :
  fits 32 crc -> fits 8 x -> fits 24 y -> F (Z.lxor crc (x + Z.shiftl y 8)) = Z.lxor (F (Z.lxor crc x)) y.
Proof.
  intros Hc Hx Hy. rewrite join8 by done. rewrite <- Z.lxor_assoc, F_lxor.
  - by rewrite F_shift.
  - apply fits_lxor; [lia|done|]. by apply (fits_mono 8); [lia|].
  - by apply fits_shifted.
Qed.

Lemma fits_join n x y : 0 <= n -> fits 8 x -> fits n y -> fits (n + 8) (x + Z.shiftl y 8).
Proof. unfold fits. intros Hn Hx Hy. rewrite Z.shiftl_mul_pow2, Z.pow_add_r by lia. lia. Qed.

Lemma F_byte crc x : fits 32 crc -> fits 8 x -> fits 32 (F (Z.lxor crc x)).
Proof. intros Hc Hx. apply F_fits, fits_lxor; [lia|done|]. by apply (fits_mono 8); [lia|]. Qed.

(** The four bytes of a word, one after the other. *)
Lemma word_bytes crc a b c d :
  fits 32 crc -> fits 8 a -> fits 8 b -> fits 8 c -> fits 8 d ->
  Nat.iter 4 F (Z.lxor crc (a + Z.shiftl b 8 + Z.shiftl c 16 + Z.shiftl d 24)) =
  F (Z.lxor (F (Z.lxor (F (Z.lxor (F (Z.lxor crc a)) b)) c)) d).
Proof.
  intros Hc Ha Hb Hcc Hd.
  assert (a + Z.shiftl b 8 + Z.shiftl c 16 + Z.shiftl d 24 = a + Z.shiftl (b + Z.shiftl (c + Z.shiftl d 8) 8) 8) as ->
    by (rewrite !Z.shiftl_mul_pow2 by lia; lia).
  pose proof (fits_join 8 c d ltac:(lia) Hcc Hd) as H1. pose proof (fits_join 16 b _ ltac:(lia) Hb H1) as H2.
  cbn [Nat.iter Nat.iter nat_rect]. simpl Nat.iter. rewrite absorb by done.
  rewrite absorb by first [done|by apply F_byte|by apply (fits_mono 16); [lia|]].
  rewrite absorb by first [done|by repeat apply F_byte|by apply (fits_mono 8); [lia|]].
  done.
Qed.

(** ** The loops *)

Lemma load8_fits p x : load8 mem p = Some x -> fits 8 x.
Proof. unfold load8. destruct (p <? 0); [done|]. apply mem_bytes. Qed.

Lemma crc_bytes_app n m crc p :
  crc_bytes crc p (n + m) = (crc ← crc_bytes crc p n; crc_bytes crc (p + Z.of_nat n) m).
Proof.
  revert crc p. induction n as [|n IH]; intros crc p; simpl; [by rewrite Z.add_0_r|].
  destruct (load8 mem p) as [x|]; [|done]. simpl. rewrite IH. by replace (p + Z.of_nat (S n)) with (p + 1 + Z.of_nat n) by lia.
Qed.

Lemma crc_bytes_fits n crc p crc' : fits 32 crc -> crc_bytes crc p n = Some crc' -> fits 32 crc'.
Proof.
  revert crc p. induction n as [|n IH]; intros crc p Hc H; simpl in H; [by injection H as <-|].
  apply bind_Some in H as (x & Hx & H). eapply IH; [|exact H]. apply F_byte; [done|]. by eapply load8_fits.
Qed.

Lemma last_bytes_eq n crc p : fits 32 crc -> last_bytes tab mem n crc p = crc_bytes crc (p + 1) n.
Proof.
  revert crc p. induction n as [|n IH]; intros crc p Hc; simpl; [done|].
  destruct (load8 mem (p + 1)) as [x|] eqn:Hx; [|done]. simpl. apply load8_fits in Hx.
  rewrite DO_CRC_eq by done. apply IH. by apply F_byte.
Qed.

Lemma crc_word crc p :
  fits 32 crc -> crc_bytes crc p 4 = (w ← load32 mem p; Some (Nat.iter 4 F (Z.lxor crc w))).
Proof.
  intros Hc. unfold load32, crc_bytes. replace (p + 2) with (p + 1 + 1) by lia. replace (p + 3) with (p + 1 + 1 + 1) by lia.
  destruct (load8 mem p) as [x0|] eqn:E0; [|reflexivity]. cbn [mbind option_bind].
  destruct (load8 mem (p + 1)) as [x1|] eqn:E1; [|reflexivity]. cbn [mbind option_bind].
  destruct (load8 mem (p + 1 + 1)) as [x2|] eqn:E2; [|reflexivity]. cbn [mbind option_bind].
  destruct (load8 mem (p + 1 + 1 + 1)) as [x3|] eqn:E3; [|reflexivity]. cbn [mbind option_bind].
  apply load8_fits in E0, E1, E2, E3. by rewrite word_bytes.
Qed.

Lemma load32_fits p w : load32 mem p = Some w -> fits 32 w.
Proof.
  unfold load32. intros (x0 & E0 & (x1 & E1 & (x2 & E2 & (x3 & E3 & [= <-])%bind_Some)%bind_Some)%bind_Some)%bind_Some.
  apply load8_fits in E0, E1, E2, E3. unfold fits in *. rewrite !Z.shiftl_mul_pow2 by lia.
  change (2 ^ 8) with 256 in *. change (2 ^ 16) with 65536. change (2 ^ 24) with 16777216. change (2 ^ 32) with 4294967296. lia.
Qed.

Lemma words_eq n crc b :
  fits 32 crc ->
  words tab mem n crc b = (crc ← crc_bytes crc (b + 4) (4 * n); Some (crc, b + 4 * Z.of_nat n)).
Proof.
  revert crc b. induction n as [|n IH]; intros crc b Hc; [simpl; by rewrite Z.add_0_r|].
  replace (4 * S n)%nat with (4 + 4 * n)%nat by lia. rewrite crc_bytes_app, crc_word by done. simpl words.
  destruct (load32 mem (b + 4)) as [w|] eqn:Hw; [|reflexivity]. cbn [mbind option_bind]. apply load32_fits in Hw.
  pose proof (fits_lxor 32 _ _ ltac:(lia) Hc Hw) as Hcw. rewrite DO_CRC4_eq, IH by (try done; by apply (iter_fits 4)).
  change (Z.of_nat 4) with 4. by replace (b + 4 + 4 * Z.of_nat n) with (b + 4 * Z.of_nat (S n)) by lia.
Qed.

Lemma land3 x : Z.land x 3 = x mod 4.
Proof. change 3 with (Z.ones 2). by rewrite Z.land_ones. Qed.

Lemma align_eq n crc buf len :
  fits 32 crc -> 0 < len ->
  exists k, Z.of_nat k <= len /\
    align tab mem n crc buf len = (crc ← crc_bytes crc buf k; Some (crc, buf + Z.of_nat k, len - Z.of_nat k)).
Proof.
  revert crc buf len. induction n as [|n IH]; intros crc buf len Hc Hl; simpl;
    (destruct (load8 mem buf) as [x|] eqn:Hx; [simpl|exists 1%nat; split; [lia|]; simpl; by rewrite Hx]);
    pose proof (load8_fits _ _ Hx) as Fx; rewrite DO_CRC_eq by done.
  - exists 1%nat. split; [lia|]. simpl. by rewrite Hx.
  - destruct (negb (len - 1 =? 0) && negb (Z.land (buf + 1) 3 =? 0)) eqn:E.
    + apply andb_true_iff in E as [E _]. apply negb_true_iff, Z.eqb_neq in E.
      destruct (IH (F (Z.lxor crc x)) (buf + 1) (len - 1)) as (k & Hk & ->); [by apply F_byte|lia|].
      exists (S k). split; [lia|]. simpl crc_bytes. rewrite Hx. simpl.
      by replace (buf + 1 + Z.of_nat k) with (buf + Z.of_nat (S k)) by lia;
        replace (len - 1 - Z.of_nat k) with (len - Z.of_nat (S k)) by lia.
    + exists 1%nat. split; [lia|]. simpl. by rewrite Hx.
Qed.

(** Three rounds are enough: then the address is a multiple of four or nothing is
    left. *)
Lemma align_enough n crc buf len crc' buf' len' :
  4 <= Z.land buf 3 + Z.of_nat (S n) -> align tab mem n crc buf len = Some (crc', buf', len') ->
  len' = 0 \/ Z.land buf' 3 = 0.
Proof.
  revert crc buf len. induction n as [|n IH]; intros crc buf len Hb H; simpl in H; apply bind_Some in H as (x & _ & H);
    rewrite land3 in Hb.
  - injection H as <- <- <-. right. rewrite land3. Z.div_mod_to_equations. lia.
  - destruct (len - 1 =? 0) eqn:E1; simpl in H; [injection H as <- <- <-; left; lia|].
    destruct (Z.land (buf + 1) 3 =? 0) eqn:E2; simpl in H; [injection H as <- <- <-; right; lia|].
    eapply IH; [|exact H]. rewrite land3 in *. Z.div_mod_to_equations. lia.
Qed.

Lemma crc32_body_eq crc buf len :
  fits 32 crc -> 0 <= len -> crc32_body tab mem crc buf len = crc_bytes crc buf (Z.to_nat len).
Proof.
  intros Hc Hl. unfold crc32_body.
  assert (exists k, Z.of_nat k <= len /\
    (if negb (Z.land buf 3 =? 0) && negb (len =? 0) then align tab mem 2 crc buf len else Some (crc, buf, len)) =
    (crc ← crc_bytes crc buf k; Some (crc, buf + Z.of_nat k, len - Z.of_nat k))) as (k & Hk & ->).
  { destruct (negb (Z.land buf 3 =? 0) && negb (len =? 0)) eqn:E.
    - destruct (align_eq 2 crc buf len Hc) as (k & H1 & H2); [|by exists k].
      apply andb_true_iff in E as [_ E]. apply negb_true_iff, Z.eqb_neq in E. lia.
    - exists 0%nat. simpl. by rewrite Z.add_0_r, Z.sub_0_r. }
  set (r := len - Z.of_nat k). pose proof (Z.div_mod r 4 ltac:(lia)) as D. pose proof (Z.mod_pos_bound r 4 ltac:(lia)).
  replace (Z.to_nat len) with (k + (4 * Z.to_nat (r / 4) + Z.to_nat (r mod 4)))%nat by lia.
  rewrite crc_bytes_app. destruct (crc_bytes crc buf k) as [c1|] eqn:E1; [|done]. cbn [mbind option_bind].
  rewrite land3, Z.shiftr_div_pow2 by lia. change (2 ^ 2) with 4.
  apply crc_bytes_fits in E1; [|done]. rewrite words_eq, crc_bytes_app by done.
  replace (buf + Z.of_nat k - 4 + 4) with (buf + Z.of_nat k) by lia.
  destruct (crc_bytes c1 (buf + Z.of_nat k) (4 * Z.to_nat (r / 4))) as [c2|] eqn:E2; [|done]. simpl.
  apply crc_bytes_fits in E2; [|done]. rewrite last_bytes_eq by done. f_equal. lia.
Qed.

End linear.
(** ** Functions that respect exclusive or *)

Definition additive (n : Z) (f : Z -> Z) : Prop :=
  forall x y, fits n x -> fits n y -> f (Z.lxor x y) = Z.lxor (f x) (f y).

Definition bytes : list Z := map Z.of_nat (seq 0 256).

Lemma bytes_all (P : Z -> bool) : forallb P bytes = true -> forall x, fits 8 x -> P x = true.
Proof.
  intros H x [H1 H2]. rewrite forallb_forall in H. apply H. unfold bytes. apply in_map_iff. exists (Z.to_nat x).
  split; [lia|]. apply in_seq. change (2 ^ 8) with 256 in H2. lia.
Qed.

(** Two such functions are equal if they are on words with one byte. *)
Definition agree (n : nat) (f g : Z -> Z) : bool :=
  forallb (fun k => forallb (fun b => f (Z.shiftl b (8 * Z.of_nat k)) =? g (Z.shiftl b (8 * Z.of_nat k))) bytes) (seq 0 n).

Lemma additive_0 n f : 0 <= n -> additive n f -> f 0 = 0.
Proof.
  intros Hn A. assert (fits n 0) as H0 by (split; [done|]; by apply Z.pow_pos_nonneg).
  specialize (A 0 0 H0 H0). by rewrite !Z.lxor_nilpotent in A.
Qed.

Lemma fits_shiftl8 n x : 0 <= n -> fits n x -> fits (8 + n) (Z.shiftl x 8).
Proof. unfold fits. intros Hn H. rewrite Z.shiftl_mul_pow2, Z.pow_add_r by lia. change (2 ^ 8) with 256. lia. Qed.

Lemma additive_shift n f : 0 <= n -> additive (8 + n) f -> additive n (fun x => f (Z.shiftl x 8)).
Proof. intros Hn A x y Hx Hy. rewrite Z.shiftl_lxor. apply A; by apply fits_shiftl8. Qed.

Lemma agree_shift n f g :
  agree (S n) f g = true ->
  (forall b, fits 8 b -> f b = g b) /\ agree n (fun x => f (Z.shiftl x 8)) (fun x => g (Z.shiftl x 8)) = true.
Proof.
  unfold agree. change (seq 0 (S n)) with (0%nat :: seq 1 n). cbn [forallb]. intros [H0 H]%andb_true_iff. split.
  - intros b Hb. apply Z.eqb_eq. apply (bytes_all _ H0) in Hb. change (8 * Z.of_nat 0) with 0 in Hb.
    by rewrite !Z.shiftl_0_r in Hb.
  - rewrite <- seq_shift, forallb_forall in H. rewrite forallb_forall. intros k Hk.
    specialize (H (S k) (in_map S _ _ Hk)). rewrite forallb_forall in *. intros b Hb. specialize (H b Hb).
    rewrite !Z.shiftl_shiftl by lia. by replace (8 * Z.of_nat k + 8) with (8 * Z.of_nat (S k)) by lia.
Qed.

Lemma agree_eq n : forall f g,
  additive (8 * Z.of_nat n) f -> additive (8 * Z.of_nat n) g -> agree n f g = true ->
  forall x, fits (8 * Z.of_nat n) x -> f x = g x.
Proof.
  induction n as [|n IH]; intros f g Af Ag H x Hx.
  { unfold fits in Hx. simpl in Hx. assert (x = 0) as -> by lia. by rewrite (additive_0 _ f (Z.le_refl 0) Af), (additive_0 _ g (Z.le_refl 0) Ag). }
  apply agree_shift in H as [H0 H]. replace (8 * Z.of_nat (S n)) with (8 + 8 * Z.of_nat n) in * by lia.
  assert (fits (8 * Z.of_nat n) (Z.shiftr x 8)) as Hh by (apply fits_high; [lia|]; by rewrite Z.add_comm).
  assert (fits (8 + 8 * Z.of_nat n) (Z.land x 255)) as Hlow by (apply (fits_mono 8); [lia|apply fits_low]).
  rewrite (split8 x) by apply Hx. rewrite Af, Ag by first [done|apply fits_shiftl8; [lia|done]].
  rewrite H0 by apply fits_low. f_equal.
  apply (IH (fun x => f (Z.shiftl x 8)) (fun x => g (Z.shiftl x 8))); [apply additive_shift; [lia|done]..|done|done].
Qed.

(** ** Least significant bit first *)

Lemma bit_clear x k : 0 <= k -> (Z.land x (2 ^ k) =? 0) = negb (Z.testbit x k).
Proof.
  intros Hk. destruct (Z.testbit x k) eqn:E; simpl.
  - apply Z.eqb_neq. intros H. apply (f_equal (fun z => Z.testbit z k)) in H.
    rewrite Z.land_spec, Z.pow2_bits_true, Z.bits_0, E in H by done. done.
  - apply Z.eqb_eq. apply Z.bits_inj'. intros i Hi. rewrite Z.land_spec, Z.bits_0. destruct (decide (i = k)) as [->|N].
    + by rewrite E.
    + rewrite Z.pow2_bits_false by done. apply andb_false_r.
Qed.

Lemma bit0_clear x : (Z.land x 1 =? 0) = negb (Z.testbit x 0).
Proof. by apply (bit_clear x 0). Qed.

Lemma poly_lxor (a b : bool) p :
  (if negb (xorb a b) then 0 else p) = Z.lxor (if negb a then 0 else p) (if negb b then 0 else p).
Proof. destruct a, b; simpl; by rewrite ?Z.lxor_0_l, ?Z.lxor_0_r, ?Z.lxor_nilpotent. Qed.

Lemma lxor_swap a b c d : Z.lxor (Z.lxor a b) (Z.lxor c d) = Z.lxor (Z.lxor a c) (Z.lxor b d).
Proof. rewrite !Z.lxor_assoc. f_equal. rewrite <- !Z.lxor_assoc. f_equal. apply Z.lxor_comm. Qed.

Lemma lxor_swap4 a a' b b' c c' d d' :
  Z.lxor (Z.lxor (Z.lxor (Z.lxor a a') (Z.lxor b b')) (Z.lxor c c')) (Z.lxor d d') =
  Z.lxor (Z.lxor (Z.lxor (Z.lxor a b) c) d) (Z.lxor (Z.lxor (Z.lxor a' b') c') d').
Proof.
  by rewrite (lxor_swap a a' b b'), (lxor_swap (Z.lxor a b) (Z.lxor a' b') c c'),
    (lxor_swap (Z.lxor (Z.lxor a b) c) (Z.lxor (Z.lxor a' b') c') d d').
Qed.

Lemma land_lxor a b c : Z.land (Z.lxor a b) c = Z.lxor (Z.land a c) (Z.land b c).
Proof.
  apply Z.bits_inj'. intros i Hi. rewrite !Z.land_spec, !Z.lxor_spec, !Z.land_spec.
  by destruct (Z.testbit a i), (Z.testbit b i), (Z.testbit c i).
Qed.

Lemma step_le_additive n : additive n step_le.
Proof.
  intros x y _ _. unfold step_le. rewrite !bit0_clear.
  rewrite Z.shiftr_lxor, Z.lxor_spec, poly_lxor. apply lxor_swap.
Qed.

Lemma step_be_additive n : additive n step_be.
Proof.
  intros x y _ _. unfold step_be. change 0x80000000 with (2 ^ 31). rewrite !bit_clear by done.
  unfold u32. change 4294967296 with (2 ^ 32). rewrite <- !Z.land_ones by done.
  rewrite Z.shiftl_lxor, Z.lxor_spec, poly_lxor.
  rewrite land_lxor. apply lxor_swap.
Qed.

Lemma step_le_fits x : fits 32 x -> fits 32 (step_le x).
Proof.
  intros H. apply fits_lxor; [done| |destruct (_ =? 0); by vm_compute].
  apply fits_shiftr in H as [H1 H2]; [|done]. apply fits_shiftr; [done|]. split; [by apply Z.shiftr_nonneg|].
  rewrite Z.shiftr_shiftr, Z.add_comm, <- Z.shiftr_shiftr, H2 by done. done.
Qed.

Lemma step_be_fits x : fits 32 (step_be x).
Proof.
  apply fits_lxor; [done| |destruct (_ =? 0); by vm_compute]. unfold fits, u32. by apply Z.mod_pos_bound.
Qed.

Lemma iter_additive k f : (forall x, fits 32 x -> fits 32 (f x)) -> additive 32 f -> additive 32 (Nat.iter k f).
Proof.
  intros Hf Ha x y Hx Hy. induction k as [|k IH]; [done|]. simpl. rewrite IH. apply Ha; by apply iter_fits.
Qed.

Lemma step_le_shift x : step_le (Z.shiftl x 1) = x.
Proof.
  unfold step_le. rewrite bit0_clear.
  rewrite Z.shiftl_spec_low by lia. simpl. rewrite Z.lxor_0_r, Z.shiftr_shiftl_l by lia. apply Z.shiftl_0_r.
Qed.

Lemma byte_le_shift x : byte_le (Z.shiftl x 8) = x.
Proof.
  unfold byte_le. replace (Z.shiftl x 8) with (Nat.iter 8 (fun x => Z.shiftl x 1) x)
    by (simpl; rewrite !Z.shiftl_shiftl by lia; done).
  simpl. by rewrite !step_le_shift.
Qed.

Definition table_ok (F : Z -> Z) (tab : list (list Z)) : bool :=
  forallb (fun k => forallb (fun b => entry tab k b =? Nat.iter (S k) F b) bytes) (seq 0 4).

Lemma table_ok_spec F tab k i :
  table_ok F tab = true -> (k < 4)%nat -> fits 8 i -> entry tab k i = Nat.iter (S k) F i.
Proof.
  intros H Hk Hi. unfold table_ok in H. rewrite forallb_forall in H.
  specialize (H k ltac:(apply in_seq; lia)). apply Z.eqb_eq. by apply (bytes_all _ H).
Qed.

Lemma table_le : table_ok byte_le crc32table_le = true.
Proof. vm_compute. reflexivity. Qed.

Lemma crc_bytes_le mem crc p n : crc_bytes byte_le mem crc p n = crc32_le_bits crc mem p n.
Proof.
  revert crc p. induction n as [|n IH]; intros crc p; [done|]. cbn [crc_bytes crc32_le_bits].
  destruct (load8 mem p); [|done]. apply IH.
Qed.

(** ** Most significant bit first *)

Lemma disjoint_bit m1 m2 i : Z.land m1 m2 = 0 -> Z.testbit m1 i && Z.testbit m2 i = false.
Proof. intros H. by rewrite <- Z.land_spec, H, Z.bits_0. Qed.

(** The bytes of a word that swab32() puts together are apart. *)
Lemma swab32_lxor x :
  swab32 x = Z.lxor (Z.lxor (Z.lxor (Z.land (Z.shiftl x 24) 0xff000000) (Z.land (Z.shiftl x 8) 0xff0000))
    (Z.land (Z.shiftr x 8) 0xff00)) (Z.land (Z.shiftr x 24) 0xff).
Proof.
  unfold swab32. rewrite !Z.shiftl_land, !Z.shiftr_land.
  change (Z.shiftl 0xff 24) with 0xff000000. change (Z.shiftl 0xff00 8) with 0xff0000.
  change (Z.shiftr 0xff0000 8) with 0xff00. change (Z.shiftr 0xff000000 24) with 0xff.
  apply Z.bits_inj'. intros i Hi. rewrite !Z.lor_spec, !Z.lxor_spec, !Z.land_spec.
  pose proof (disjoint_bit 0xff000000 0xff0000 i eq_refl). pose proof (disjoint_bit 0xff000000 0xff00 i eq_refl).
  pose proof (disjoint_bit 0xff000000 0xff i eq_refl). pose proof (disjoint_bit 0xff0000 0xff00 i eq_refl).
  pose proof (disjoint_bit 0xff0000 0xff i eq_refl). pose proof (disjoint_bit 0xff00 0xff i eq_refl).
  destruct (Z.testbit 0xff000000 i), (Z.testbit 0xff0000 i), (Z.testbit 0xff00 i), (Z.testbit 0xff i); try done;
    rewrite ?andb_false_r, ?orb_false_r, ?xorb_false_r, ?orb_false_l, ?xorb_false_l; done.
Qed.

Lemma swab32_additive n : additive n swab32.
Proof.
  intros x y _ _. rewrite !swab32_lxor, !Z.shiftl_lxor, !Z.shiftr_lxor, !land_lxor.
  apply lxor_swap4.
Qed.

Lemma swab32_fits x : fits 32 (swab32 x).
Proof.
  rewrite swab32_lxor. assert (forall a m, 0 <= m < 2 ^ 32 -> fits 32 (Z.land a m)) as H.
  { intros a m Hm. apply fits_shiftr; [done|]. split; [apply Z.land_nonneg; lia|].
    rewrite Z.shiftr_land. assert (fits 32 m) as [_ ->]%fits_shiftr by done; [|done]. apply Z.land_0_r. }
  repeat apply fits_lxor; try done; by apply H.
Qed.

Lemma swab32_swab32 x : fits 32 x -> swab32 (swab32 x) = x.
Proof.
  apply (agree_eq 4 (fun x => swab32 (swab32 x)) (fun x => x)).
  - intros a b Ha Hb. rewrite !(swab32_additive 32); try done; apply swab32_fits.
  - done.
  - vm_compute. reflexivity.
Qed.

Lemma swab32_byte x : fits 8 x -> swab32 x = Z.shiftl x 24.
Proof.
  apply (agree_eq 1 swab32 (fun x => Z.shiftl x 24)).
  - apply swab32_additive.
  - intros a b _ _. apply Z.shiftl_lxor.
  - vm_compute. reflexivity.
Qed.

(** On words as the little-endian processor has them. *)
Definition swapped_be (crc : Z) : Z := swab32 (byte_be (swab32 crc)).

Lemma swapped_be_additive : additive 32 swapped_be.
Proof.
  intros x y Hx Hy. unfold swapped_be, byte_be. rewrite (swab32_additive 32 x y) by done.
  rewrite (iter_additive 8 step_be) by first [apply step_be_additive|by intros; apply step_be_fits|apply swab32_fits].
  by apply (swab32_additive 33); apply (fits_mono 32); try done; apply iter_fits; try apply swab32_fits; intros; apply step_be_fits.
Qed.

Lemma swapped_be_shift x : fits 24 x -> swapped_be (Z.shiftl x 8) = x.
Proof.
  apply (agree_eq 3 (fun x => swapped_be (Z.shiftl x 8)) (fun x => x)).
  - apply (additive_shift 24); [done|]. apply swapped_be_additive.
  - done.
  - vm_compute. reflexivity.
Qed.

Lemma table_be : table_ok swapped_be crc32table_be = true.
Proof. vm_compute. reflexivity. Qed.

Lemma byte_be_fits x : fits 32 (byte_be x).
Proof. unfold byte_be. rewrite (Nat.iter_succ 7). apply step_be_fits. Qed.

Lemma crc_bytes_be mem crc p n :
  (forall i x, mem !! i = Some x -> fits 8 x) -> fits 32 crc ->
  crc_bytes swapped_be mem (swab32 crc) p n = swab32 <$> crc32_be_bits crc mem p n.
Proof.
  intros Hm. revert crc p. induction n as [|n IH]; intros crc p Hc; [done|]. cbn [crc_bytes crc32_be_bits].
  destruct (load8 mem p) as [x|] eqn:Hx; [|done]. cbn [mbind option_bind].
  pose proof (load8_fits mem Hm _ _ Hx) as Fx. assert (fits 32 x) as Fx' by (by apply (fits_mono 8)).
  assert (swapped_be (Z.lxor (swab32 crc) x) = swab32 (byte_be (Z.lxor crc (Z.shiftl x 24)))) as ->.
  { unfold swapped_be. by rewrite (swab32_additive 32 _ x (swab32_fits crc) Fx'), (swab32_swab32 crc Hc), (swab32_byte x Fx). }
  rewrite IH by apply byte_be_fits. reflexivity.
Qed.

Lemma crc32_be_fits mem crc p n crc' : fits 32 crc -> crc32_be_bits crc mem p n = Some crc' -> fits 32 crc'.
Proof.
  revert crc p. induction n as [|n IH]; intros crc p Hc H; [by injection H as <-|]. cbn [crc32_be_bits] in H.
  apply bind_Some in H as (x & _ & H). apply (IH _ _ (byte_be_fits _) H).
Qed.

(** C25. crc32_le() and crc32_be() with tables, for a buffer at any address and of
    any length, return what the versions that go bit by bit return, from any
    checksum; they read memory outside the buffer no more than those do. *)
Theorem crc32_tables_correct crc mem p len :
  fits 32 crc -> (forall i x, mem !! i = Some x -> fits 8 x) -> 0 <= len ->
  crc32_le crc mem p len = crc32_le_bits crc mem p (Z.to_nat len) /\
  crc32_be crc mem p len = crc32_be_bits crc mem p (Z.to_nat len).
Proof.
  intros Hc Hm Hl. split.
  - unfold crc32_le. rewrite <- crc_bytes_le. apply crc32_body_eq; try done.
    + intros x Hx. apply iter_fits; [apply step_le_fits|done].
    + apply iter_additive; [apply step_le_fits|apply step_le_additive].
    + intros x _. apply byte_le_shift.
    + intros k i. apply table_ok_spec, table_le.
  - unfold crc32_be. rewrite (crc32_body_eq swapped_be); try done.
    + rewrite crc_bytes_be by done. destruct (crc32_be_bits _ _ _ _) as [c|] eqn:E; [|done]. simpl.
      by rewrite swab32_swab32 by (by eapply crc32_be_fits).
    + intros x Hx. apply swab32_fits.
    + apply swapped_be_additive.
    + apply swapped_be_shift.
    + intros k i. apply table_ok_spec, table_be.
    + apply swab32_fits.
Qed.

(** The nine digits, with the check values of CRC-32 (before its final
    complement) and CRC-32/MPEG-2. *)
Definition digits : list Z := [0; 49; 50; 51; 52; 53; 54; 55; 56; 57].

Lemma crc32_tables_correct_witness :
  crc32_le_bits 0xffffffff digits 1 9 = Some 0x340bc6d9 /\ crc32_be_bits 0xffffffff digits 1 9 = Some 0x0376e6e7.
Proof.
  assert (fits 32 0xffffffff) as Hc by (split; [discriminate|reflexivity]).
  assert (forall i x, digits !! i = Some x -> fits 8 x) as Hm.
  { intros i x H. do 10 (destruct i as [|i]; [injection H as <-; split; [discriminate|reflexivity]|]). discriminate H. }
  destruct (crc32_tables_correct 0xffffffff digits 1 9 Hc Hm ltac:(discriminate)) as [E1 E2].
  change (Z.to_nat 9) with 9%nat in E1, E2. rewrite <- E1, <- E2. split; vm_compute; reflexivity.
Defined.

End Crc32.
