(* ===== verification/Kfifo.v ===== *)
(** The kernel FIFO (kernel/kfifo.c, include/linux/kfifo.h): a byte queue in
    a power-of-two ring whose two indices run freely and wrap at 2^32, with
    transfers from and to kernel and user memory and a layer of
    length-prefixed records.

    [Module Kfifo] translates the code; [Section Refinement] shows that it
    implements a bounded byte queue, [Section Records] that the record layer
    implements a queue of records where it does, and [Section Spsc] that one
    reader and one writer need no lock. *)

From S2P Require Import Prelude.
Local Open Scope Z_scope.
Local Open Scope kernel_scope.

Module Kfifo.

(** ** include/linux/log2.h *)

Definition is_power_of_2 (n : Z) : bool := negb (n =? 0) && (n &ᵤ (n -ᵤ 1) =? 0).

(** fls(), the position of the last bit set, counted from 1. *)
Definition fls (x : Z) : Z := if x =? 0 then 0 else Z.log2 x + 1.

(** A shift by the width of the type or more is undefined. *)
Definition roundup_pow_of_two (n : Z) : option Z :=
  let k := fls (n -ᵤ 1) in
  if k <? 32 then Some (Z.shiftl 1 k) else None.

(** ** The FIFO

    [buffer] is [None] for a NULL pointer. *)

Record kfifo := mk_kfifo { buffer : option (list Z); size : Z; in_ : Z; out : Z }.

(** The block that [buffer] points to; NULL points to no byte. *)
Definition block (fifo : kfifo) : list Z := default [] (buffer fifo).

Definition set_block (fifo : kfifo) (b : list Z) : kfifo :=
  mk_kfifo ((fun _ => b) <$> buffer fifo) (size fifo) (in_ fifo) (out fifo).
Definition set_in (fifo : kfifo) (i : Z) : kfifo :=
  mk_kfifo (buffer fifo) (size fifo) i (out fifo).
Definition set_out (fifo : kfifo) (o : Z) : kfifo :=
  mk_kfifo (buffer fifo) (size fifo) (in_ fifo) o.

Definition kfifo_initializer (s : Z) (b : list Z) : kfifo := mk_kfifo (Some b) s 0 0.

Definition kfifo_initialized (fifo : kfifo) : bool :=
  match buffer fifo with Some _ => true | None => false end.

Definition kfifo_reset (fifo : kfifo) : kfifo := set_in (set_out fifo 0) 0.
Definition kfifo_reset_out (fifo : kfifo) : kfifo := set_out fifo (in_ fifo).
Definition kfifo_size (fifo : kfifo) : Z := size fifo.
Definition kfifo_len (fifo : kfifo) : Z := in_ fifo -ᵤ out fifo.
Definition kfifo_is_empty (fifo : kfifo) : bool := in_ fifo =? out fifo.
Definition kfifo_is_full (fifo : kfifo) : bool := kfifo_len fifo =? kfifo_size fifo.
Definition kfifo_avail (fifo : kfifo) : Z := kfifo_size fifo -ᵤ kfifo_len fifo.

Definition kfifo_add_out (fifo : kfifo) (off : Z) : kfifo := set_out fifo (out fifo +ᵤ off).
Definition kfifo_add_in (fifo : kfifo) (off : Z) : kfifo := set_in fifo (in_ fifo +ᵤ off).
Definition kfifo_off (fifo : kfifo) (off : Z) : Z := off &ᵤ (size fifo -ᵤ 1).

(** [_kfifo_init] *)
Definition _kfifo_init (buf : option (list Z)) (sz : Z) (fifo : kfifo) : kfifo :=
  kfifo_reset (mk_kfifo buf sz (in_ fifo) (out fifo)).

Definition kfifo_init (fifo : kfifo) (buf : list Z) (sz : Z) : option kfifo :=
  _ ← BUG_ON (negb (is_power_of_2 sz)); Some (_kfifo_init (Some buf) sz fifo).

(** The allocator is a parameter: a block of the size asked for, or NULL. *)
Definition kfifo_alloc (kmalloc : Z -> option (list Z)) (fifo : kfifo) (sz : Z) :
    option (kfifo * Z) :=
  sz ← (if negb (is_power_of_2 sz) then
          _ ← BUG_ON (0x80000000 <? sz); roundup_pow_of_two sz
        else Some sz);
  match kmalloc sz with
  | None => Some (_kfifo_init None 0 fifo, - ENOMEM)
  | Some buf => Some (_kfifo_init (Some buf) sz fifo, 0)
  end.

(** The block given to kfree() and the FIFO. *)
Definition kfifo_free (fifo : kfifo) : option (list Z) * kfifo :=
  (buffer fifo, _kfifo_init None 0 fifo).

Definition kfifo_skip (fifo : kfifo) (len : Z) : kfifo :=
  if len <? kfifo_len fifo then kfifo_add_out fifo len else kfifo_reset_out fifo.

(** ** Moving data

    [from] and [to] are the caller's memory blocks; reading or writing past
    their end, or past the end of the ring, is [None]. *)

Definition kfifo_in_data (fifo : kfifo) (from : list Z) (len off : Z) : option kfifo :=
  let off := kfifo_off fifo (in_ fifo +ᵤ off) in
  let l := Z.min len (size fifo -ᵤ off) in
  d1 ← mem_read from 0 l;
  b1 ← mem_write (block fifo) off d1;
  d2 ← mem_read from l (len - l);
  b2 ← mem_write b1 0 d2;
  Some (set_block fifo b2).

Definition kfifo_out_data (fifo : kfifo) (to : list Z) (len off : Z) : option (list Z) :=
  let off := kfifo_off fifo (out fifo +ᵤ off) in
  let l := Z.min len (size fifo -ᵤ off) in
  d1 ← mem_read (block fifo) off l;
  to1 ← mem_write to 0 d1;
  d2 ← mem_read (block fifo) 0 (len - l);
  mem_write to1 l d2.

(** The FIFO, the return value and *lenout. *)
Definition kfifo_from_user_data (fifo : kfifo) (from : user_src) (len off : Z) :
    option (kfifo * Z * Z) :=
  let off := kfifo_off fifo (in_ fifo +ᵤ off) in
  let l := Z.min len (size fifo -ᵤ off) in
  let '(d1, ret) := copy_from_user from 0 l in
  b1 ← mem_write (block fifo) off d1;
  if negb (ret =? 0) then Some (set_block fifo b1, - EFAULT, ret) else
  let '(d2, ret) := copy_from_user from l (len - l) in
  b2 ← mem_write b1 0 d2;
  Some (set_block fifo b2,
        if negb (ret =? 0) then - EFAULT else 0,
        l +ᵤ (if negb (ret =? 0) then ret else len - l)).

(** The bytes put into the user buffer, the return value and *lenout. *)
Definition kfifo_to_user_data (fifo : kfifo) (to : user_dst) (len off : Z) :
    option (list Z * Z * Z) :=
  let off := kfifo_off fifo (out fifo +ᵤ off) in
  let l := Z.min len (size fifo -ᵤ off) in
  d1 ← mem_read (block fifo) off l;
  let '(p1, ret) := copy_to_user to 0 d1 in
  if negb (ret =? 0) then Some (p1, - EFAULT, l -ᵤ ret) else
  let len := len -ᵤ l in
  d2 ← mem_read (block fifo) 0 len;
  let '(p2, ret) := copy_to_user to l d2 in
  if negb (ret =? 0) then Some (p1 ++ p2, - EFAULT, l +ᵤ (len -ᵤ ret)) else
  Some (p1 ++ p2, 0, l +ᵤ len).

(** ** The byte queue *)

Definition kfifo_in (fifo : kfifo) (from : list Z) (len : Z) : option (kfifo * Z) :=
  let len := Z.min (kfifo_avail fifo) len in
  fifo ← kfifo_in_data fifo from len 0;
  Some (kfifo_add_in fifo len, len).

Definition kfifo_out (fifo : kfifo) (to : list Z) (len : Z) : option (kfifo * list Z * Z) :=
  let len := Z.min (kfifo_len fifo) len in
  to ← kfifo_out_data fifo to len 0;
  Some (kfifo_add_out fifo len, to, len).

(** With the caller's spinlock held around the call. *)
Definition kfifo_in_locked (fifo : kfifo) (from : list Z) (n : Z) : option (kfifo * Z) :=
  kfifo_in fifo from n.
Definition kfifo_out_locked (fifo : kfifo) (to : list Z) (n : Z) : option (kfifo * list Z * Z) :=
  kfifo_out fifo to n.

Definition kfifo_out_peek (fifo : kfifo) (to : list Z) (len offset : Z) : option (list Z * Z) :=
  let len := Z.min (kfifo_len fifo) (len +ᵤ offset) in
  to ← kfifo_out_data fifo to len offset;
  Some (to, len).

Definition kfifo_from_user (fifo : kfifo) (from : user_src) (len : Z) : option (kfifo * Z * Z) :=
  let len := Z.min (kfifo_avail fifo) len in
  '(fifo, ret, total) ← kfifo_from_user_data fifo from len 0;
  if negb (ret =? 0) then Some (fifo, ret, total) else
  Some (kfifo_add_in fifo len, 0, total).

Definition kfifo_to_user (fifo : kfifo) (to : user_dst) (len : Z) :
    option (kfifo * list Z * Z * Z) :=
  let len := Z.min (kfifo_len fifo) len in
  '(put, ret, lenout) ← kfifo_to_user_data fifo to len 0;
  Some (kfifo_add_out fifo lenout, put, ret, lenout).

(** ** Records

    A record is its length in [recsize] bytes, least significant first, and
    its data.  [const] is __builtin_constant_p(recsize) at the call. *)

Definition kfifo_get (fifo : kfifo) (off shift : Z) : option Z :=
  d ← mem_read (block fifo) (kfifo_off fifo (out fifo +ᵤ off)) 1;
  Some (Z.shiftl (zget d 0) shift).

Definition kfifo_peek_n (fifo : kfifo) (recsize : Z) : option Z :=
  l ← kfifo_get fifo 0 0;
  if negb (recsize -ᵤ 1 =? 0) then
    h ← kfifo_get fifo 1 8; Some (l |ᵤ h)
  else Some l.

Definition kfifo_put (fifo : kfifo) (off val shift : Z) : option kfifo :=
  b ← mem_write (block fifo) (kfifo_off fifo (in_ fifo +ᵤ off)) [Z.shiftr val shift mod 256];
  Some (set_block fifo b).

Definition kfifo_poke_n (fifo : kfifo) (recsize n : Z) : option kfifo :=
  fifo ← kfifo_put fifo 0 n 0;
  if negb (recsize -ᵤ 1 =? 0) then kfifo_put fifo 1 n 8 else Some fifo.

Definition kfifo_in_n (fifo : kfifo) (from : list Z) (len recsize : Z) : option (kfifo * Z) :=
  if kfifo_avail fifo <? len +ᵤ recsize then Some (fifo, len +ᵤ 1) else
  fifo ← kfifo_in_data fifo from len recsize;
  Some (fifo, 0).

(** The tail of [__kfifo_in_rec] and [__kfifo_from_user_rec]: write the length
    and make the record visible. *)
Definition commit_rec (fifo : kfifo) (n recsize : Z) : option kfifo :=
  fifo ← (if negb (recsize =? 0) then kfifo_poke_n fifo recsize n else Some fifo);
  Some (kfifo_add_in fifo (n +ᵤ recsize)).

Definition kfifo_in_rec (fifo : kfifo) (from : list Z) (n recsize : Z) : option (kfifo * Z) :=
  '(fifo, ret) ← kfifo_in_n fifo from n recsize;
  if ret =? 0 then
    fifo ← commit_rec fifo n recsize; Some (fifo, ret)
  else Some (fifo, ret).

Definition kfifo_out_n (fifo : kfifo) (to : list Z) (len recsize : Z) :
    option (kfifo * list Z * Z) :=
  if kfifo_len fifo <? len +ᵤ recsize then Some (fifo, to, len) else
  to ← kfifo_out_data fifo to len recsize;
  Some (kfifo_add_out fifo (len +ᵤ recsize), to, 0).

(** The FIFO, the destination, the return value and *total. *)
Definition kfifo_out_rec (fifo : kfifo) (to : list Z) (n recsize : Z) :
    option (kfifo * list Z * Z * Z) :=
  if recsize =? 0 then
    '(fifo, to, ret) ← kfifo_out_n fifo to n recsize; Some (fifo, to, ret, n)
  else
    l ← kfifo_peek_n fifo recsize;
    if n <? l then Some (fifo, to, l, l) else
    '(fifo, to, ret) ← kfifo_out_n fifo to l recsize;
    Some (fifo, to, ret, l).

Definition kfifo_from_user_n (fifo : kfifo) (from : user_src) (len recsize : Z) :
    option (kfifo * Z) :=
  if kfifo_avail fifo <? len +ᵤ recsize then Some (fifo, len +ᵤ 1) else
  '(fifo, _, total) ← kfifo_from_user_data fifo from len recsize;
  Some (fifo, total).

Definition kfifo_from_user_rec (fifo : kfifo) (from : user_src) (n recsize : Z) :
    option (kfifo * Z) :=
  '(fifo, ret) ← kfifo_from_user_n fifo from n recsize;
  if ret =? 0 then
    fifo ← commit_rec fifo n recsize; Some (fifo, ret)
  else Some (fifo, ret).

Definition kfifo_to_user_n (fifo : kfifo) (to : user_dst) (len reclen recsize : Z) :
    option (kfifo * list Z * Z) :=
  if kfifo_len fifo <? reclen +ᵤ recsize then Some (fifo, [], len) else
  '(put, ret, total) ← kfifo_to_user_data fifo to reclen recsize;
  Some (if ret =? 0 then kfifo_add_out fifo (reclen +ᵤ recsize) else fifo, put, total).

(** The FIFO, the bytes put into the user buffer, the return value, *total. *)
Definition kfifo_to_user_rec (fifo : kfifo) (to : user_dst) (n recsize : Z) :
    option (kfifo * list Z * Z * Z) :=
  if recsize =? 0 then
    '(fifo, put, ret) ← kfifo_to_user_n fifo to n n recsize; Some (fifo, put, ret, n)
  else
    l ← kfifo_peek_n fifo recsize;
    if n <? l then Some (fifo, [], l, l) else
    '(fifo, put, ret) ← kfifo_to_user_n fifo to n l recsize;
    Some (fifo, put, ret, l).

Definition kfifo_peek_generic (fifo : kfifo) (recsize : Z) : option Z :=
  if recsize =? 0 then Some (kfifo_avail fifo) else kfifo_peek_n fifo recsize.

Definition kfifo_peek_rec (const : bool) (fifo : kfifo) (recsize : Z) : option Z :=
  if negb const then kfifo_peek_generic fifo recsize else
  if recsize =? 0 then Some (kfifo_len fifo) else kfifo_peek_n fifo recsize.

Definition kfifo_skip_rec (fifo : kfifo) (recsize : Z) : option kfifo :=
  if negb (recsize =? 0) then
    l ← kfifo_peek_n fifo recsize;
    if l +ᵤ recsize <=? kfifo_len fifo then Some (kfifo_add_out fifo (l +ᵤ recsize))
    else Some (kfifo_reset_out fifo)
  else Some (kfifo_reset_out fifo).

Definition kfifo_avail_rec (fifo : kfifo) (recsize : Z) : Z :=
  let l := kfifo_size fifo -ᵤ kfifo_len fifo in
  if recsize <? l then l -ᵤ recsize else 0.

(** ** The invariant and the contents *)

Record kfifo_ok (f : kfifo) : Prop := {
  ok_size : exists k, 0 <= k <= 31 /\ size f = 2 ^ k;
  ok_block : Zlen (block f) = size f;
  ok_in : 0 <= in_ f < 4294967296;
  ok_out : 0 <= out f < 4294967296;
  ok_len : kfifo_len f <= size f
}.

(** The bytes in the FIFO, oldest first. *)
Definition contents (f : kfifo) : list Z :=
  ring_read (block f) (size f) (out f) (kfifo_len f).

Section Data.
Context (f : kfifo) (Hok : kfifo_ok f).

Lemma kfifo_len_range : 0 <= kfifo_len f <= size f.
Proof using Hok. pose proof (u32_range (in_ f - out f)). pose proof (ok_len f Hok). split; [apply H|done]. Qed.

Lemma size_range : 0 < size f <= 2147483648.
Proof using Hok.
  destruct (ok_size f Hok) as (k & Hk & ->). split; [apply Z.pow_pos_nonneg; lia|].
  change 2147483648 with (2 ^ 31). apply Z.pow_le_mono_r; lia.
Qed.

Lemma kfifo_avail_eq : kfifo_avail f = size f - kfifo_len f.
Proof using Hok.
  pose proof kfifo_len_range. pose proof size_range. unfold kfifo_avail, kfifo_size.
  apply u32_small. lia.
Qed.

Lemma contents_length : Zlen (contents f) = kfifo_len f.
Proof using Hok. unfold contents. rewrite ring_read_length. pose proof kfifo_len_range. lia. Qed.

Lemma kfifo_off_u32 (x : Z) : kfifo_off f (u32 x) = x mod size f.
Proof using Hok.
  unfold kfifo_off. pose proof size_range. rewrite (u32_small (size f - 1)) by lia.
  destruct (ok_size f Hok) as (k & Hk & ->). rewrite land_mask, u32_mod_pow2 by lia. done.
Qed.

Lemma kfifo_off_range (x : Z) : 0 <= kfifo_off f (u32 x) < size f.
Proof using Hok. rewrite kfifo_off_u32. apply Z.mod_pos_bound. apply size_range. Qed.

(** The write index is [kfifo_len] bytes after the read index. *)
Lemma in_mod : in_ f mod size f = (out f + kfifo_len f) mod size f.
Proof using Hok.
  destruct (ok_size f Hok) as (k & Hk & E). rewrite E. unfold kfifo_len.
  pose proof (Z.pow_pos_nonneg 2 k).
  rewrite <- (Zplus_mod_idemp_r (u32 _)), u32_mod_pow2, Zplus_mod_idemp_r by lia. f_equal. lia.
Qed.

(** Storing [d] in the ring [off] bytes after the write index. *)
Lemma ring_write_in (d : list Z) (off : Z) :
  Zlen d <= size f ->
  exists b, ring_write (block f) (size f) (kfifo_off f (u32 (in_ f + off))) d = Some b /\
    length b = length (block f) /\
    (forall j, 0 <= j < Zlen d -> zget b ((in_ f + off + j) mod size f) = zget d j) /\
    (forall j, Zlen d <= j < size f ->
       zget b ((in_ f + off + j) mod size f) = zget (block f) ((in_ f + off + j) mod size f)).
Proof using Hok.
  intros Hd. pose proof (kfifo_off_range (in_ f + off)) as Ho.
  pose proof (ok_block f Hok) as Hb. set (o := kfifo_off f (u32 (in_ f + off))) in *.
  destruct (ring_write_spec (block f) (size f) o d) as (b & Hw & Hl & Hin & Hout); [lia..|].
  assert (Hmod : forall j, (o + j) mod size f = (in_ f + off + j) mod size f).
  { intros j. unfold o. rewrite kfifo_off_u32. apply Zplus_mod_idemp_l. }
  exists b. split_and!; [done..| |]; intros j Hj; rewrite <- Hmod; auto.
Qed.

(** [__kfifo_in_data] stores [len] bytes of [from] in the ring, [off] bytes
    after the write index, and nothing else changes. *)
Lemma kfifo_in_data_spec (from : list Z) (len off : Z) :
  0 <= len <= size f -> len <= Zlen from ->
  exists b, kfifo_in_data f from len off = Some (set_block f b) /\
    length b = length (block f) /\
    (forall j, 0 <= j < len -> zget b ((in_ f + off + j) mod size f) = zget from j) /\
    (forall j, len <= j < size f ->
       zget b ((in_ f + off + j) mod size f) = zget (block f) ((in_ f + off + j) mod size f)).
Proof using Hok.
  intros Hlen Hfrom. pose proof (kfifo_off_range (in_ f + off)) as Ho.
  pose proof size_range as Hs. set (d := take (Z.to_nat len) from).
  assert (Hd : Zlen d = len) by (unfold d; rewrite length_take; lia).
  destruct (ring_write_in d off) as (b & Hw & Hl & Hin & Hout); [lia|].
  rewrite Hd in *. exists b. split_and!; [|done| |exact Hout].
  - unfold kfifo_in_data. cbv zeta. set (o := kfifo_off f _) in *.
    rewrite (u32_small (size f - o)) by lia. set (l := Z.min len (size f - o)).
    rewrite !mem_read_Some by lia. cbn [mbind option_bind]. rewrite drop_0.
    assert (Hcut : d = take (Z.to_nat l) from ++ take (Z.to_nat (len - l)) (drop (Z.to_nat l) from)).
    { rewrite take_take_drop. unfold d. f_equal. lia. }
    rewrite Hcut, ring_write_two in Hw
      by (rewrite !length_take, length_drop; lia).
    destruct (mem_write (block f) o _) as [b1|]; [|done]. cbn [mbind option_bind] in *.
    by rewrite Hw.
  - intros j Hj. rewrite Hin by lia. unfold d, zget. apply nth_take_lt. lia.
Qed.

(** [__kfifo_out_data] copies the [len] bytes of the ring that start [off]
    bytes after the read index to the start of [to]. *)
Lemma kfifo_out_data_spec (to : list Z) (len off : Z) :
  0 <= len <= size f ->
  kfifo_out_data f to len off =
    mem_write to 0 (ring_read (block f) (size f) (out f + off) len).
Proof using Hok.
  intros Hlen. pose proof (kfifo_off_range (out f + off)) as Ho.
  pose proof size_range as Hs. pose proof (ok_block f Hok) as Hb.
  unfold kfifo_out_data. cbv zeta. set (o := kfifo_off f (u32 (out f + off))) in *.
  rewrite (u32_small (size f - o)) by lia. set (l := Z.min len (size f - o)).
  rewrite !mem_read_Some by lia. cbn [mbind option_bind]. rewrite drop_0.
  rewrite <- (ring_read_mod _ _ (out f + off)), <- kfifo_off_u32. fold o.
  rewrite <- (ring_read_split (block f) (size f) o len l) by lia.
  set (d1 := take (Z.to_nat l) _). set (d2 := take _ (block f)).
  assert (Hd1 : Zlen d1 = l) by (unfold d1; rewrite length_take, length_drop; lia).
  destruct (mem_write to 0 d1) as [t|] eqn:E; cbn [mbind option_bind].
  - rewrite <- Hd1. change (Zlen d1) with (0 + Zlen d1). by apply mem_write_app.
  - unfold mem_write in *. case_bool_decide; [done|]. rewrite bool_decide_eq_false_2; [done|].
    rewrite length_app. lia.
Qed.

(** [__kfifo_from_user_data]: the ring outside the window is kept; the window
    holds the user's bytes if they could all be read. *)
Lemma kfifo_from_user_data_spec (u : user_src) (len off : Z) :
  0 <= len <= size f ->
  exists b ret total, kfifo_from_user_data f u len off = Some (set_block f b, ret, total) /\
    length b = length (block f) /\
    (forall j, len <= j < size f ->
       zget b ((in_ f + off + j) mod size f) = zget (block f) ((in_ f + off + j) mod size f)) /\
    (ret = - EFAULT /\ 0 < total <= len /\ snd (copy_from_user u 0 len) <> 0 \/
     ret = 0 /\ total = len /\ snd (copy_from_user u 0 len) = 0 /\
     forall j, 0 <= j < len ->
       zget b ((in_ f + off + j) mod size f) = zget (fst (copy_from_user u 0 len)) j).
Proof using Hok.
  intros Hlen. pose proof (kfifo_off_range (in_ f + off)) as Ho.
  pose proof size_range as Hs. unfold kfifo_from_user_data. cbv zeta.
  set (o := kfifo_off f (u32 (in_ f + off))) in *.
  rewrite (u32_small (size f - o)) by lia. set (l := Z.min len (size f - o)) in *.
  pose proof (copy_from_user_parts u l len) as Hp.
  destruct (copy_from_user u 0 l) as [d1 r1]. destruct (copy_from_user u l (len - l)) as [d2 r2].
  destruct Hp as (L1 & L2 & R1 & R2 & Hsp); [lia|].
  destruct (Z.eqb_spec r1 0) as [->|N1]; cbn [negb].
  - destruct (ring_write_in (d1 ++ d2) off) as (b & Hw & Hl & Hin & Hout);
      [rewrite length_app; lia|]. rewrite length_app in Hin, Hout.
    rewrite ring_write_two in Hw by lia. fold o in Hw.
    destruct (mem_write (block f) o d1) as [b1|]; [|done]. cbn [mbind option_bind] in *.
    rewrite Hw. cbn [mbind option_bind].
    exists b, (if negb (r2 =? 0) then - EFAULT else 0), (u32 (l + (if negb (r2 =? 0) then r2 else len - l))).
    split_and!; [done..|intros; apply Hout; lia|].
    destruct (Z.eqb_spec r2 0) as [->|N2]; cbn [negb]; rewrite u32_small by lia.
    + right. destruct Hsp as [Hs0 Heq]; [done..|]. rewrite <- Heq.
      split_and!; [done|lia|done|]. intros. apply Hin. lia.
    + left. split_and!; [done|lia..|]. intros H0. by apply N2, R2.
  - destruct (ring_write_in d1 off) as (b & Hw & Hl & Hin & Hout); [lia|].
    rewrite <- (app_nil_r d1), ring_write_two in Hw by (simpl; lia). fold o in Hw.
    destruct (mem_write (block f) o d1) as [b1|]; [|done]. cbn [mbind option_bind] in *.
    rewrite mem_write_nil in Hw. injection Hw as ->.
    exists b, (- EFAULT), r1. split_and!; [done..|intros; apply Hout; lia|].
    left. split_and!; [done|lia..|]. intros H0. by apply N1, R1.
Qed.

(** [__kfifo_to_user_data] is one copy_to_user of the window. *)
Lemma kfifo_to_user_data_spec (u : user_dst) (len off : Z) :
  0 <= len <= size f ->
  kfifo_to_user_data f u len off =
    let '(put, rest) := copy_to_user u 0 (ring_read (block f) (size f) (out f + off) len) in
    Some (put, if rest =? 0 then 0 else - EFAULT, len - rest).
Proof using Hok.
  intros Hlen. pose proof (kfifo_off_range (out f + off)) as Ho.
  pose proof size_range as Hs. pose proof (ok_block f Hok) as Hb.
  unfold kfifo_to_user_data. cbv zeta. set (o := kfifo_off f (u32 (out f + off))) in *.
  rewrite (u32_small (size f - o)) by lia. set (l := Z.min len (size f - o)).
  rewrite <- (ring_read_mod _ _ (out f + off)), <- kfifo_off_u32. fold o.
  rewrite <- (ring_read_split (block f) (size f) o len l) by lia.
  rewrite (u32_small (len - l)), !mem_read_Some by lia.
  cbn [mbind option_bind]. rewrite drop_0.
  set (d1 := take (Z.to_nat l) _). set (d2 := take _ (block f)).
  assert (Hd1 : Zlen d1 = l) by (unfold d1; rewrite length_take, length_drop; lia).
  assert (Hd2 : Zlen d2 = len - l) by (unfold d2; rewrite length_take; lia).
  pose proof (copy_to_user_split u d1 d2) as Hsp. rewrite Hd1 in Hsp.
  pose proof (copy_to_user_bounds u 0 d1) as B1. pose proof (copy_to_user_bounds u l d2) as B2.
  destruct (copy_to_user u 0 d1) as [p1 r1]. destruct (copy_to_user u l d2) as [p2 r2].
  rewrite Hsp. simpl in B1, B2.
  destruct (Z.eqb_spec r1 0) as [->|N1]; cbn [negb].
  - destruct (Z.eqb_spec r2 0) as [->|N2]; cbn [negb]; u32_simpl; do 2 f_equal; lia.
  - rewrite (proj2 (Z.eqb_neq (r1 + Zlen d2) 0)) by lia. u32_simpl. do 2 f_equal. lia.
Qed.
End Data.

(** ** Moving the indices *)

Section Indices.
Context (f : kfifo) (Hok : kfifo_ok f).

Lemma block_set_block (b : list Z) : block (set_block f b) = b.
Proof using Hok.
  unfold block, set_block. simpl. destruct (buffer f) eqn:E; [done|].
  pose proof (ok_block f Hok) as Hb. pose proof (size_range f Hok) as Hs.
  unfold block in Hb. rewrite E in Hb. simpl in Hb. lia.
Qed.

(** A ring that differs from the FIFO's only in the [n] free bytes after the
    write index holds the same contents. *)
Lemma contents_kept (b : list Z) (n : Z) :
  (forall j, n <= j < size f -> zget b ((in_ f + j) mod size f) = zget (block f) ((in_ f + j) mod size f)) ->
  n <= size f - kfifo_len f ->
  ring_read b (size f) (out f) (kfifo_len f) = contents f.
Proof using Hok.
  intros Hk Hn. pose proof (kfifo_len_range f Hok). pose proof (size_range f Hok).
  assert (E : out f mod size f = (in_ f + (size f - kfifo_len f)) mod size f).
  { rewrite <- Zplus_mod_idemp_l, in_mod, Zplus_mod_idemp_l by done.
    replace (out f + kfifo_len f + (size f - kfifo_len f)) with (out f + 1 * size f) by lia.
    by rewrite Z_mod_plus_full. }
  unfold contents. rewrite <- (ring_read_mod b), <- (ring_read_mod (block f)), E, !ring_read_mod.
  apply ring_read_kept with (n := n); [done|lia..].
Qed.

Lemma set_block_ok (b : list Z) : length b = length (block f) -> kfifo_ok (set_block f b).
Proof using Hok.
  intros Hl. pose proof (block_set_block b) as E. destruct Hok.
  split; try done. rewrite E, Hl. done.
Qed.

Lemma set_block_contents (b : list Z) (n : Z) :
  (forall j, n <= j < size f -> zget b ((in_ f + j) mod size f) = zget (block f) ((in_ f + j) mod size f)) ->
  n <= size f - kfifo_len f ->
  contents (set_block f b) = contents f.
Proof using Hok.
  intros Hk Hn. unfold contents at 1. rewrite block_set_block. simpl.
  by apply contents_kept with (n := n).
Qed.

Lemma add_in_len (n : Z) :
  0 <= n <= size f - kfifo_len f -> kfifo_len (kfifo_add_in f n) = kfifo_len f + n.
Proof using Hok.
  intros Hn. pose proof (kfifo_len_range f Hok) as Hl. pose proof (size_range f Hok).
  unfold kfifo_len in *. simpl. rewrite u32_idem_sub.
  replace (in_ f + n - out f) with (in_ f - out f + n) by lia.
  rewrite <- u32_idem_add. apply u32_small. lia.
Qed.

Lemma add_out_len (n : Z) :
  0 <= n <= kfifo_len f -> kfifo_len (kfifo_add_out f n) = kfifo_len f - n.
Proof using Hok.
  intros Hn. pose proof (kfifo_len_range f Hok) as Hl. pose proof (size_range f Hok).
  unfold kfifo_len in *. simpl. rewrite u32_idem_sub_r.
  replace (in_ f - (out f + n)) with (in_ f - out f - n) by lia.
  rewrite <- u32_idem_sub. apply u32_small. lia.
Qed.

Lemma add_in_ok (n : Z) : 0 <= n <= size f - kfifo_len f -> kfifo_ok (kfifo_add_in f n).
Proof using Hok.
  intros Hn. pose proof (add_in_len n Hn) as E. destruct Hok.
  split; try done; [apply u32_range|]. rewrite E. simpl. lia.
Qed.

Lemma add_in_contents (n : Z) :
  0 <= n <= size f - kfifo_len f ->
  contents (kfifo_add_in f n) = contents f ++ ring_read (block f) (size f) (in_ f) n.
Proof using Hok.
  intros Hn. pose proof (kfifo_len_range f Hok). unfold contents at 1.
  rewrite add_in_len by done. simpl. rewrite ring_read_app by lia. f_equal.
  rewrite <- (ring_read_mod _ _ (_ + _)), <- in_mod by done. apply ring_read_mod.
Qed.

Lemma add_out_ok (n : Z) : 0 <= n <= kfifo_len f -> kfifo_ok (kfifo_add_out f n).
Proof using Hok.
  intros Hn. pose proof (add_out_len n Hn) as E. destruct Hok.
  split; try done; [apply u32_range|]. rewrite E. simpl. lia.
Qed.

Lemma add_out_contents (n : Z) :
  0 <= n <= kfifo_len f -> contents (kfifo_add_out f n) = drop (Z.to_nat n) (contents f).
Proof using Hok.
  intros Hn. unfold contents. rewrite add_out_len by done.
  replace (ring_read (block f) (size f) (out f) (kfifo_len f)) with
    (ring_read (block f) (size f) (out f) n ++
     ring_read (block f) (size f) (out f + n) (kfifo_len f - n))
    by (rewrite <- ring_read_app by lia; f_equal; lia).
  rewrite drop_app_length' by (rewrite ring_read_length; lia).
  simpl. destruct (ok_size f Hok) as (k & Hk & E). change (block (kfifo_add_out f n)) with (block f).
  rewrite <- (ring_read_mod _ _ (u32 _)), E, u32_mod_pow2 by lia. apply ring_read_mod.
Qed.

Lemma reset_out_add : kfifo_reset_out f = kfifo_add_out f (kfifo_len f).
Proof using Hok.
  unfold kfifo_reset_out, kfifo_add_out, set_out, kfifo_len. f_equal. unfold u32.
  rewrite Zplus_mod_idemp_r, Z.mod_small; [lia|]. pose proof (ok_in f Hok). lia.
Qed.

Lemma ring_read_out (n : Z) :
  0 <= n <= kfifo_len f -> ring_read (block f) (size f) (out f) n = take (Z.to_nat n) (contents f).
Proof using Hok.
  intros Hn. unfold contents. replace (kfifo_len f) with (n + (kfifo_len f - n)) by lia.
  rewrite ring_read_app, take_app_length' by (rewrite ?ring_read_length; lia). done.
Qed.
End Indices.

#[export] Hint Resolve set_block_ok add_in_ok add_out_ok : kernel.

(** ** The byte queue implements a bounded queue *)

Section Operations.
Context (f : kfifo) (Hok : kfifo_ok f).

(** Storing a window of [n] bytes and making it visible appends it. *)
Lemma store_add_in (b d : list Z) :
  length b = length (block f) -> Zlen d <= size f - kfifo_len f ->
  (forall j, 0 <= j < Zlen d -> zget b ((in_ f + j) mod size f) = zget d j) ->
  (forall j, Zlen d <= j < size f -> zget b ((in_ f + j) mod size f) = zget (block f) ((in_ f + j) mod size f)) ->
  kfifo_ok (kfifo_add_in (set_block f b) (Zlen d)) /\
  contents (kfifo_add_in (set_block f b) (Zlen d)) = contents f ++ d.
Proof using Hok.
  intros Hl Hd Hin Hkeep. pose proof (set_block_ok f Hok b Hl) as Hb.
  change (kfifo_len f) with (kfifo_len (set_block f b)) in Hd.
  split; [apply add_in_ok; [done|simpl; lia]|].
  rewrite add_in_contents by (done || simpl; lia).
  rewrite (set_block_contents f Hok b (Zlen d)), (block_set_block f Hok) by done. simpl.
  by rewrite ring_read_written by done.
Qed.

Lemma kfifo_in_spec (from : list Z) (len : Z) :
  0 <= len <= Zlen from ->
  let n := Z.min (size f - Zlen (contents f)) len in
  exists f', kfifo_in f from len = Some (f', n) /\ kfifo_ok f' /\ size f' = size f /\
    contents f' = contents f ++ take (Z.to_nat n) from.
Proof using Hok.
  intros Hlen n. unfold n. rewrite (contents_length f Hok).
  pose proof (kfifo_len_range f Hok). pose proof (size_range f Hok).
  unfold kfifo_in. rewrite kfifo_avail_eq by done. set (m := Z.min _ len).
  destruct (kfifo_in_data_spec f Hok from m 0) as (b & -> & Hl & Hin & Hkeep); [lia..|].
  rewrite Z.add_0_r in Hin, Hkeep. cbn [mbind option_bind].
  set (d := take (Z.to_nat m) from).
  assert (Hd : Zlen d = m) by (unfold d; rewrite length_take; lia).
  destruct (store_add_in b d) as [Hok' Hc]; [done|lia| |rewrite Hd; done|].
  { intros j Hj. rewrite Hin by lia. unfold d, zget. symmetry. apply nth_take_lt. lia. }
  rewrite Hd in *. by exists (kfifo_add_in (set_block f b) m).
Qed.

Lemma kfifo_out_spec (to : list Z) (len : Z) :
  0 <= len <= Zlen to ->
  let n := Z.min (Zlen (contents f)) len in
  exists f' to', kfifo_out f to len = Some (f', to', n) /\ kfifo_ok f' /\ size f' = size f /\
    to' = take (Z.to_nat n) (contents f) ++ drop (Z.to_nat n) to /\
    contents f' = drop (Z.to_nat n) (contents f).
Proof using Hok.
  intros Hlen n. unfold n. pose proof (contents_length f Hok) as Hc. rewrite Hc.
  pose proof (kfifo_len_range f Hok). unfold kfifo_out. set (m := Z.min _ len).
  rewrite kfifo_out_data_spec, Z.add_0_r, ring_read_out by (done || lia).
  rewrite mem_write_Some by (rewrite ?length_take; lia). cbn [mbind option_bind].
  do 2 eexists. split_and!; [done|apply add_out_ok; [done|lia]|done| |apply add_out_contents; [done|lia]].
  simpl. f_equal. f_equal. rewrite length_take. lia.
Qed.

Lemma kfifo_peek_spec (to : list Z) (len : Z) :
  0 <= len <= Zlen to -> len < 4294967296 ->
  let n := Z.min (Zlen (contents f)) len in
  kfifo_out_peek f to len 0 =
    Some (take (Z.to_nat n) (contents f) ++ drop (Z.to_nat n) to, n).
Proof using Hok.
  intros Hlen Hw n. unfold n. pose proof (contents_length f Hok) as Hc. rewrite Hc.
  pose proof (kfifo_len_range f Hok). unfold kfifo_out_peek. rewrite Z.add_0_r, (u32_small len) by lia.
  set (m := Z.min _ len).
  rewrite kfifo_out_data_spec, Z.add_0_r, ring_read_out by (done || lia).
  rewrite mem_write_Some by (rewrite ?length_take; lia). cbn [mbind option_bind].
  simpl. do 3 f_equal. f_equal. rewrite length_take. lia.
Qed.

Lemma kfifo_skip_spec (len : Z) :
  0 <= len -> kfifo_ok (kfifo_skip f len) /\ contents (kfifo_skip f len) = drop (Z.to_nat len) (contents f).
Proof using Hok.
  intros Hl. unfold kfifo_skip. pose proof (kfifo_len_range f Hok).
  pose proof (contents_length f Hok).
  destruct (Z.ltb_spec len (kfifo_len f)).
  - split; [apply add_out_ok|apply add_out_contents]; done || lia.
  - rewrite reset_out_add by done. split; [apply add_out_ok; [done|lia]|].
    rewrite add_out_contents by (done || lia). rewrite !drop_ge by lia. done.
Qed.

Lemma kfifo_reset_spec : kfifo_ok (kfifo_reset f) /\ contents (kfifo_reset f) = [].
Proof using Hok.
  split; [|by apply ring_read_nil]. destruct Hok. split; try done.
  pose proof (size_range f Hok). unfold kfifo_len. simpl. rewrite u32_small; lia.
Qed.

Lemma kfifo_from_user_spec (u : user_src) (len : Z) :
  0 <= len ->
  let n := Z.min (size f - Zlen (contents f)) len in
  exists f' ret total, kfifo_from_user f u len = Some (f', ret, total) /\ kfifo_ok f' /\ size f' = size f /\
    if snd (copy_from_user u 0 n) =? 0
    then ret = 0 /\ total = n /\ contents f' = contents f ++ fst (copy_from_user u 0 n)
    else ret = - EFAULT /\ contents f' = contents f.
Proof using Hok.
  intros Hlen n. unfold n. rewrite (contents_length f Hok). clear n.
  pose proof (kfifo_len_range f Hok). pose proof (size_range f Hok).
  unfold kfifo_from_user. rewrite kfifo_avail_eq by done. set (n := Z.min _ len).
  destruct (kfifo_from_user_data_spec f Hok u n 0) as (b & ret & total & -> & Hl & Hkeep & Hcase); [lia|].
  rewrite Z.add_0_r in Hkeep, Hcase. cbn [mbind option_bind].
  pose proof (copy_from_user_length u 0 n) as Hd.
  destruct Hcase as [(-> & Ht & Hne)|(-> & -> & Hz & Hin)].
  - rewrite (proj2 (Z.eqb_neq _ 0) Hne). do 3 eexists. split_and!; [done|eauto with kernel|done..|].
    apply set_block_contents with (n := n); [done..|lia].
  - rewrite Hz. set (d := fst (copy_from_user u 0 n)) in *.
    destruct (store_add_in b d) as [Hok' Hc]; [done|lia|intros; apply Hin; lia|intros; apply Hkeep; lia|].
    rewrite Hd in * by lia. by exists (kfifo_add_in (set_block f b) n), 0, n.
Qed.

Lemma kfifo_to_user_spec (u : user_dst) (len : Z) :
  0 <= len ->
  let '(put, rest) := copy_to_user u 0 (take (Z.to_nat len) (contents f)) in
  exists f', kfifo_to_user f u len = Some (f', put, if rest =? 0 then 0 else - EFAULT, Zlen put) /\
    kfifo_ok f' /\ size f' = size f /\ contents f' = drop (length put) (contents f).
Proof using Hok.
  intros Hlen. pose proof (contents_length f Hok) as Hc. pose proof (kfifo_len_range f Hok).
  unfold kfifo_to_user.
  rewrite kfifo_to_user_data_spec, Z.add_0_r, ring_read_out by (done || lia).
  replace (take (Z.to_nat (Z.min (kfifo_len f) len)) (contents f)) with
    (take (Z.to_nat len) (contents f))
    by (destruct (Z.le_ge_cases (kfifo_len f) len); [by rewrite !take_ge by lia|f_equal; lia]).
  pose proof (copy_to_user_bounds u 0 (take (Z.to_nat len) (contents f))) as Hb.
  destruct (copy_to_user u 0 _) as [put rest]. rewrite length_take in Hb. simpl in Hb.
  cbn [mbind option_bind]. replace (Z.min (kfifo_len f) len - rest) with (Zlen put) by lia.
  exists (kfifo_add_out f (Zlen put)). split_and!; [done|apply add_out_ok; [done|lia]|done|].
  rewrite add_out_contents, Nat2Z.id by (done || lia). done.
Qed.
End Operations.

(** The abstract queue: a list of bytes and a capacity.  A call is observed
    by the bytes it delivers, its return value and its count; the count that
    goes with a fault of kfifo_from_user() is not part of the observation,
    since it depends on where the ring wraps. *)

Inductive call :=
  | Cin (from : list Z) (len : Z)
  | Cout (to : list Z) (len : Z)
  | Cpeek (to : list Z) (len : Z)
  | Cskip (len : Z)
  | Creset
  | Creset_out
  | Cfrom_user (u : user_src) (len : Z)
  | Cto_user (u : user_dst) (len : Z).

(** The caller's buffers are as long as the caller says. *)
Definition call_ok (c : call) : Prop :=
  match c with
  | Cin b len | Cout b len | Cpeek b len => 0 <= len <= Zlen b /\ len < 4294967296
  | Cskip len | Cfrom_user _ len | Cto_user _ len => 0 <= len
  | Creset | Creset_out => True
  end.

Definition obs : Type := list Z * Z * Z.

Definition exec (f : kfifo) (c : call) : option (kfifo * obs) :=
  match c with
  | Cin from len => '(f, n) ← kfifo_in f from len; Some (f, ([], n, n))
  | Cout to len => '(f, to, n) ← kfifo_out f to len; Some (f, (to, n, n))
  | Cpeek to len => '(to, n) ← kfifo_out_peek f to len 0; Some (f, (to, n, n))
  | Cskip len => Some (kfifo_skip f len, ([], 0, 0))
  | Creset => Some (kfifo_reset f, ([], 0, 0))
  | Creset_out => Some (kfifo_reset_out f, ([], 0, 0))
  | Cfrom_user u len => '(f, ret, total) ← kfifo_from_user f u len;
      Some (f, ([], ret, if ret =? 0 then total else 0))
  | Cto_user u len => '(f, put, ret, total) ← kfifo_to_user f u len; Some (f, (put, ret, total))
  end.

Definition queue_step (cap : Z) (q : list Z) (c : call) : list Z * obs :=
  match c with
  | Cin from len =>
      let n := Z.min (cap - Zlen q) len in (q ++ take (Z.to_nat n) from, ([], n, n))
  | Cout to len =>
      let n := Z.min (Zlen q) len in
      (drop (Z.to_nat n) q, (take (Z.to_nat n) q ++ drop (Z.to_nat n) to, n, n))
  | Cpeek to len =>
      let n := Z.min (Zlen q) len in
      (q, (take (Z.to_nat n) q ++ drop (Z.to_nat n) to, n, n))
  | Cskip len => (drop (Z.to_nat len) q, ([], 0, 0))
  | Creset | Creset_out => ([], ([], 0, 0))
  | Cfrom_user u len =>
      let n := Z.min (cap - Zlen q) len in
      if snd (copy_from_user u 0 n) =? 0
      then (q ++ fst (copy_from_user u 0 n), ([], 0, n)) else (q, ([], - EFAULT, 0))
  | Cto_user u len =>
      let '(put, rest) := copy_to_user u 0 (take (Z.to_nat len) q) in
      (drop (length put) q, (put, if rest =? 0 then 0 else - EFAULT, Zlen put))
  end.

Fixpoint exec_all (f : kfifo) (cs : list call) : option (kfifo * list obs) :=
  match cs with
  | [] => Some (f, [])
  | c :: cs => '(f, o) ← exec f c; '(f, os) ← exec_all f cs; Some (f, o :: os)
  end.

Fixpoint queue_run (cap : Z) (q : list Z) (cs : list call) : list Z * list obs :=
  match cs with
  | [] => (q, [])
  | c :: cs => let '(q, o) := queue_step cap q c in
               let '(q, os) := queue_run cap q cs in (q, o :: os)
  end.

Lemma exec_refines (f : kfifo) (c : call) :
  kfifo_ok f -> call_ok c ->
  exists f' o, exec f c = Some (f', o) /\ kfifo_ok f' /\ size f' = size f /\
    queue_step (size f) (contents f) c = (contents f', o).
Proof.
  intros Hok Hc. destruct c as [from len|to len|to len|len| | |u len|u len]; simpl in Hc; unfold exec, queue_step.
  - destruct (kfifo_in_spec f Hok from len) as (f' & -> & ? & ? & Hq); [lia|]. simpl.
    rewrite <- Hq. by do 2 eexists.
  - destruct (kfifo_out_spec f Hok to len) as (f' & to' & -> & ? & ? & -> & Hq); [lia|]. simpl.
    rewrite <- Hq. by do 2 eexists.
  - rewrite kfifo_peek_spec by (done || lia). simpl. by do 2 eexists.
  - destruct (kfifo_skip_spec f Hok len) as [? <-]; [lia|]. do 2 eexists. split_and!; [done..| |done].
    unfold kfifo_skip. by case_match.
  - destruct (kfifo_reset_spec f Hok) as [? <-]. by do 2 eexists.
  - rewrite reset_out_add by done. pose proof (kfifo_len_range f Hok).
    do 2 eexists. split_and!; [done|apply add_out_ok; [done|lia]|done|].
    rewrite add_out_contents, drop_ge by (done || pose proof (contents_length f Hok); lia). done.
  - destruct (kfifo_from_user_spec f Hok u len) as (f' & ret & total & -> & ? & ? & Hr); [lia|].
    cbn [mbind option_bind]. do 2 eexists. split_and!; [done..|].
    destruct (snd _ =? 0); [destruct Hr as (-> & -> & ->)|destruct Hr as (-> & ->)]; done.
  - pose proof (kfifo_to_user_spec f Hok u len) as Hr.
    destruct (copy_to_user u 0 _) as [put rest]. destruct Hr as (f' & -> & ? & ? & Hq); [lia|].
    simpl. rewrite <- Hq. by do 2 eexists.
Qed.


(** The indices of the example stand just before the wrap at 2^32. *)
Definition example_fifo : kfifo := mk_kfifo (Some [10; 11; 12; 13]) 4 4294967295 4294967294.

Lemma example_fifo_ok : kfifo_ok example_fifo.
Proof. split; try done. by exists 2. Qed.


(** ** Allocation *)

Lemma is_power_of_2_spec (n : Z) :
  0 <= n < 4294967296 -> is_power_of_2 n = true <-> exists k, 0 <= k <= 31 /\ n = 2 ^ k.
Proof.
  intros Hn. unfold is_power_of_2. rewrite andb_true_iff, negb_true_iff, Z.eqb_neq, Z.eqb_eq. split.
  - intros [H0 Hl]. rewrite u32_small in Hl by lia. exists (Z.log2 n).
    pose proof (Z.log2_spec n ltac:(lia)) as Hlog. pose proof (Z.log2_nonneg n).
    assert (Z.log2 n < 32) by (apply Z.log2_lt_pow2; lia). split; [lia|].
    destruct (Z.eq_dec n (2 ^ Z.log2 n)) as [|Hne]; [done|exfalso].
    assert (E : Z.log2 (n - 1) = Z.log2 n) by (apply Z.log2_unique; lia).
    assert (Hb : Z.testbit (n &ᵤ (n - 1)) (Z.log2 n) = true).
    { rewrite Z.land_spec, Z.bit_log2 by lia. rewrite <- E at 1. rewrite Z.bit_log2; [done|].
      pose proof (Z.pow_pos_nonneg 2 (Z.log2 n)). lia. }
    by rewrite Hl, Z.bits_0 in Hb.
  - intros (k & Hk & ->). pose proof (Z.pow_pos_nonneg 2 k). split; [lia|].
    rewrite u32_small, land_mask by lia. apply Z.mod_same. lia.
Qed.

Lemma roundup_pow_of_two_spec (n : Z) :
  1 < n <= 2147483648 ->
  exists k, 0 <= k <= 31 /\ roundup_pow_of_two n = Some (2 ^ k) /\ n <= 2 ^ k < 2 * n.
Proof.
  intros Hn. unfold roundup_pow_of_two, fls. rewrite u32_small by lia.
  rewrite (proj2 (Z.eqb_neq (n - 1) 0)) by lia. exists (Z.log2 (n - 1) + 1).
  pose proof (Z.log2_spec (n - 1) ltac:(lia)) as Hlog. pose proof (Z.log2_nonneg (n - 1)).
  assert (Z.log2 (n - 1) < 31) by (apply Z.log2_lt_pow2; lia).
  rewrite (proj2 (Z.ltb_lt _ 32)), Z.shiftl_1_l by lia.
  rewrite Z.pow_succ_r in Hlog by lia. rewrite Z.add_1_r, Z.pow_succ_r by lia.
  split_and!; [lia..|done|lia|lia].
Qed.

Lemma init_ok (f : kfifo) (b : list Z) (k : Z) :
  0 <= k <= 31 -> Zlen b = 2 ^ k ->
  kfifo_ok (_kfifo_init (Some b) (2 ^ k) f) /\ contents (_kfifo_init (Some b) (2 ^ k) f) = [].
Proof.
  intros Hk Hb. split; [|by apply ring_read_nil].
  split; try done; [by exists k|]. unfold kfifo_len. simpl.
  rewrite u32_small by lia. apply Z.pow_nonneg. lia.
Qed.

(** kfifo_alloc() with an allocator that returns blocks of the size asked
    for never stops for a request of 1 to 2^31 bytes: it returns 0 and an
    empty, well-formed FIFO whose size is the smallest power of two that is
    not below the request, or -ENOMEM and a FIFO without a buffer. *)
Theorem kfifo_alloc_correct (kmalloc : Z -> option (list Z)) (f : kfifo) (sz : Z) :
  (forall n b, kmalloc n = Some b -> Zlen b = n) -> 0 < sz <= 2147483648 ->
  exists f' ret, kfifo_alloc kmalloc f sz = Some (f', ret) /\
    (ret = - ENOMEM /\ kfifo_initialized f' = false /\ kfifo_avail f' = 0 \/
     ret = 0 /\ kfifo_ok f' /\ contents f' = [] /\ sz <= size f' < 2 * sz).
Proof.
  intros Hm Hsz. unfold kfifo_alloc.
  assert (exists k, 0 <= k <= 31 /\ sz <= 2 ^ k < 2 * sz /\
    (if negb (is_power_of_2 sz) then _ ← BUG_ON (0x80000000 <? sz); roundup_pow_of_two sz
     else Some sz) = Some (2 ^ k)) as (k & Hk & Hb & ->).
  { destruct (is_power_of_2 sz) eqn:E; simpl.
    - apply is_power_of_2_spec in E as (k & Hk & ->); [|lia]. exists k. split_and!; [lia..|done].
    - rewrite (proj2 (Z.ltb_ge _ sz)) by lia. simpl.
      destruct (roundup_pow_of_two_spec sz) as (k & Hk & E2 & Hb); [|by exists k].
      assert (sz <> 1) by (intros ->; done). lia. }
  cbn [mbind option_bind]. destruct (kmalloc (2 ^ k)) as [b|] eqn:Ek.
  - destruct (init_ok f b k Hk (Hm _ _ Ek)) as [Ho Hc]. do 2 eexists. split; [done|]. right.
    split_and!; [done..|simpl; lia|simpl; lia].
  - do 2 eexists. split; [done|]. by left.
Qed.

(** ** Records *)

Section Records.
Context (f : kfifo) (Hok : kfifo_ok f).

Lemma kfifo_put_spec (off val shift : Z) :
  0 <= off < size f ->
  exists b, kfifo_put f off val shift = Some (set_block f b) /\ length b = length (block f) /\
    forall j, 0 <= j < size f ->
      zget b ((in_ f + j) mod size f) =
        if j =? off then Z.shiftr val shift mod 256 else zget (block f) ((in_ f + j) mod size f).
Proof using Hok.
  intros Ho. unfold kfifo_put. rewrite kfifo_off_u32 by done.
  pose proof (ok_block f Hok) as Hb.
  pose proof (Z.mod_pos_bound (in_ f + off) (size f)) as Hp.
  set (v := Z.shiftr val shift mod 256).
  destruct (mem_write (block f) ((in_ f + off) mod size f) [v]) as [b|] eqn:E.
  2:{ rewrite mem_write_Some in E; [done|lia|simpl; lia]. }
  exists b. split; [done|]. split; [by eapply mem_write_length|]. intros j Hj.
  pose proof (Z.mod_pos_bound (in_ f + j) (size f)).
  rewrite (mem_write_zget _ _ _ _ _ E) by lia. simpl length. destruct (Z.eqb_spec j off) as [->|Hne].
  - rewrite bool_decide_eq_true_2 by lia. unfold zget. by rewrite Z.sub_diag.
  - rewrite bool_decide_eq_false_2; [done|]. intros H1. apply Hne.
    apply (ring_pos_inj (size f) (in_ f)); lia.
Qed.

Lemma kfifo_get_spec (off shift : Z) :
  0 <= off -> kfifo_get f off shift =
    Some (Z.shiftl (zget (block f) ((out f + off) mod size f)) shift).
Proof using Hok.
  intros Ho. unfold kfifo_get. rewrite kfifo_off_u32 by done.
  pose proof (size_range f Hok). pose proof (Z.mod_pos_bound (out f + off) (size f)).
  rewrite mem_read_Some by (rewrite ?ok_block by done; lia). cbn [mbind option_bind].
  rewrite zget_take_drop by lia. by rewrite Z.add_0_r.
Qed.

Lemma kfifo_peek_n_total (recsize : Z) : exists l, kfifo_peek_n f recsize = Some l.
Proof using Hok.
  unfold kfifo_peek_n. rewrite !kfifo_get_spec by (done || lia).
  cbn [mbind option_bind]. case_match; by eexists.
Qed.

Lemma contents_zget (j : Z) :
  0 <= j < kfifo_len f -> zget (contents f) j = zget (block f) ((out f + j) mod size f).
Proof using Hok. intros Hj. unfold contents. by rewrite ring_read_zget. Qed.

(** The length field at the read index. *)
Lemma kfifo_peek_n_spec (recsize n : Z) (k : list Z) :
  recsize = 1 \/ recsize = 2 -> 0 <= n < 256 ^ recsize ->
  contents f = le_bytes (Z.to_nat recsize) n ++ k -> kfifo_peek_n f recsize = Some n.
Proof using Hok.
  intros Hr Hn Hc. pose proof (contents_length f Hok) as Hl.
  rewrite Hc, length_app, le_bytes_length in Hl. unfold kfifo_peek_n.
  rewrite !kfifo_get_spec by (done || lia). cbn [mbind option_bind]. rewrite Z.shiftl_0_r.
  destruct Hr as [-> | ->]; rewrite <- !contents_zget, Hc by lia; cbn.
  - f_equal. unfold zget. simpl. apply Z.mod_small. lia.
  - f_equal. unfold zget. simpl nth.
    rewrite (Z.mod_small (n / 256)) by (split; [apply Z.div_pos|apply Z.div_lt_upper_bound]; lia).
    rewrite lor_shifted by (pose proof (Z.mod_pos_bound n 256); lia).
    rewrite (Z.div_mod n 256) at 3 by lia. lia.
Qed.
End Records.

Definition rec_bytes (recsize : Z) (d : list Z) : list Z :=
  le_bytes (Z.to_nat recsize) (Zlen d) ++ d.

(** The FIFO holds the records [rs]. *)
Definition rec_queue (f : kfifo) (recsize : Z) (rs : list (list Z)) : Prop :=
  kfifo_ok f /\ contents f = concat (rec_bytes recsize <$> rs) /\
  Forall (fun d => Zlen d < 256 ^ recsize) rs.

Definition recsize_ok (recsize : Z) : Prop := recsize = 1 \/ recsize = 2.

Lemma kfifo_poke_n_spec (f : kfifo) (recsize n : Z) :
  kfifo_ok f -> recsize_ok recsize -> recsize <= size f ->
  exists b, kfifo_poke_n f recsize n = Some (set_block f b) /\ length b = length (block f) /\
    (forall j, 0 <= j < recsize ->
       zget b ((in_ f + j) mod size f) = zget (le_bytes (Z.to_nat recsize) n) j) /\
    (forall j, recsize <= j < size f ->
       zget b ((in_ f + j) mod size f) = zget (block f) ((in_ f + j) mod size f)).
Proof.
  intros Hok Hr Hs. unfold kfifo_poke_n.
  destruct (kfifo_put_spec f Hok 0 n 0) as (b & -> & Hl & Hb); [destruct Hr; lia|].
  cbn [mbind option_bind]. destruct Hr as [-> | ->]; cbn [negb].
  - exists b. split_and!; [done..| |]; intros j Hj; rewrite Hb by lia.
    + assert (j = 0) as -> by lia. done.
    + by rewrite (proj2 (Z.eqb_neq j 0)) by lia.
  - pose proof (set_block_ok f Hok b Hl) as Hok1.
    destruct (kfifo_put_spec (set_block f b) Hok1 1 n 8) as (b2 & E & Hl2 & Hb2); [simpl; lia|].
    rewrite block_set_block in Hl2, Hb2 by done. simpl in Hb2. change (2 -ᵤ 1) with 1. cbn [negb].
    exists b2. rewrite E. split_and!; [|congruence| |].
    + unfold set_block. simpl. by destruct (buffer f).
    + intros j Hj. rewrite Hb2 by lia. assert (j = 0 \/ j = 1) as [-> | ->] by lia; simpl Z.eqb; cbn [andb].
      * rewrite Hb by lia. by rewrite Z.shiftr_0_r.
      * unfold zget. simpl. by rewrite Z.shiftr_div_pow2 by lia.
    + intros j Hj. rewrite Hb2 by lia. rewrite (proj2 (Z.eqb_neq j 1)) by lia.
      rewrite Hb by lia. by rewrite (proj2 (Z.eqb_neq j 0)) by lia.
Qed.

Lemma set_block_twice (f : kfifo) (b b' : list Z) : set_block (set_block f b) b' = set_block f b'.
Proof. unfold set_block. simpl. by destruct (buffer f). Qed.

(** Writing the length and publishing appends the record whose data is already
    in the ring. *)
Lemma commit_rec_spec (f : kfifo) (b : list Z) (d : list Z) (recsize : Z) :
  kfifo_ok f -> recsize_ok recsize -> Zlen d + recsize <= size f - kfifo_len f ->
  length b = length (block f) ->
  (forall j, 0 <= j < Zlen d -> zget b ((in_ f + recsize + j) mod size f) = zget d j) ->
  (forall j, Zlen d <= j < size f ->
     zget b ((in_ f + recsize + j) mod size f) = zget (block f) ((in_ f + recsize + j) mod size f)) ->
  exists f', commit_rec (set_block f b) (Zlen d) recsize = Some f' /\ kfifo_ok f' /\
    size f' = size f /\ contents f' = contents f ++ rec_bytes recsize d.
Proof.
  intros Hok Hr Hfit Hl Hin Hkeep. pose proof (kfifo_len_range f Hok). pose proof (size_range f Hok).
  assert (0 < recsize) by (destruct Hr; lia). unfold commit_rec.
  rewrite (proj2 (Z.eqb_neq recsize 0)) by lia. cbn [negb].
  destruct (kfifo_poke_n_spec (set_block f b) recsize (Zlen d)) as (b2 & -> & Hl2 & Hlo & Hhi);
    [by apply set_block_ok|done|simpl; lia|].
  rewrite block_set_block in Hl2, Hhi by done. simpl in Hlo, Hhi. rewrite set_block_twice.
  cbn [mbind option_bind]. set (r := rec_bytes recsize d).
  assert (Hlen : Zlen r = Zlen d + recsize)
    by (unfold r, rec_bytes; rewrite length_app, le_bytes_length; lia).
  rewrite (u32_small (Zlen d + recsize)), <- Hlen by lia.
  destruct (store_add_in f Hok b2 r) as [? ?]; [congruence|lia| | |by eexists].
  - intros j Hj. unfold r, rec_bytes. destruct (Z.lt_ge_cases j recsize).
    + rewrite Hlo, zget_app_l by (rewrite ?le_bytes_length; lia). done.
    + rewrite Hhi, zget_app_r, le_bytes_length, Z2Nat.id by (rewrite ?le_bytes_length; lia).
      rewrite <- Hin by lia. do 2 f_equal. lia.
  - intros j Hj. rewrite Hhi by lia.
    replace (in_ f + j) with (in_ f + recsize + (j - recsize)) by lia. apply Hkeep. lia.
Qed.

Lemma kfifo_in_rec_spec (f : kfifo) (from : list Z) (n recsize : Z) :
  kfifo_ok f -> recsize_ok recsize -> 0 <= n <= Zlen from -> n < 4294967290 ->
  exists f' ret, kfifo_in_rec f from n recsize = Some (f', ret) /\
    if n + recsize <=? size f - Zlen (contents f)
    then ret = 0 /\ kfifo_ok f' /\ size f' = size f /\
      contents f' = contents f ++ rec_bytes recsize (take (Z.to_nat n) from)
    else f' = f /\ ret = n + 1.
Proof.
  intros Hok Hr Hn Hw. pose proof (contents_length f Hok) as Hc. rewrite Hc.
  assert (0 < recsize <= 2) by (destruct Hr; lia). pose proof (kfifo_len_range f Hok).
  pose proof (size_range f Hok). unfold kfifo_in_rec, kfifo_in_n.
  rewrite kfifo_avail_eq, (u32_small (n + recsize)), (u32_small (n + 1)) by (done || lia).
  destruct (Z.ltb_spec (size f - kfifo_len f) (n + recsize)).
  - cbn [mbind option_bind]. rewrite (proj2 (Z.eqb_neq (n + 1) 0)), (proj2 (Z.leb_gt _ _)) by lia.
    by do 2 eexists.
  - rewrite (proj2 (Z.leb_le (n + recsize) _)) by lia.
    destruct (kfifo_in_data_spec f Hok from n recsize) as (b & -> & Hl & Hin & Hkeep); [lia..|].
    cbn [mbind option_bind]. set (d := take (Z.to_nat n) from).
    assert (Hd : Zlen d = n) by (unfold d; rewrite length_take; lia). rewrite <- Hd in Hin, Hkeep |- *.
    destruct (commit_rec_spec f b d recsize) as (f' & Hcm & ? & ? & ?); [done|done|lia|done| |done|].
    { intros j Hj. rewrite Hin by lia. unfold d, zget. symmetry. apply nth_take_lt. lia. }
    rewrite Z.eqb_refl, Hcm. cbn [mbind option_bind]. by do 2 eexists.
Qed.

(** The record at the head of the FIFO. *)
Lemma rec_head (f : kfifo) (recsize : Z) (d : list Z) (rs : list (list Z)) :
  rec_queue f recsize (d :: rs) -> recsize_ok recsize ->
  kfifo_peek_n f recsize = Some (Zlen d) /\
  (Zlen d +ᵤ recsize = Zlen d + recsize /\ Zlen d + recsize <= kfifo_len f /\ Zlen d <= size f) /\
  ring_read (block f) (size f) (out f + recsize) (Zlen d) = d /\
  rec_queue (kfifo_add_out f (Zlen d +ᵤ recsize)) recsize rs.
Proof.
  intros (Hok & Hc & Hf) Hr. inversion Hf as [|? ? Hd Hrs]; subst. simpl in Hc.
  assert (0 < recsize <= 2) by (destruct Hr; lia).
  pose proof (kfifo_len_range f Hok) as Hlr. pose proof (size_range f Hok) as Hs.
  assert (Hrl : Zlen (rec_bytes recsize d) = Zlen d + recsize)
    by (unfold rec_bytes; rewrite length_app, le_bytes_length; lia).
  pose proof (contents_length f Hok) as Hl. rewrite Hc, length_app in Hl.
  assert (Hu : u32 (Zlen d + recsize) = Zlen d + recsize) by (apply u32_small; lia).
  rewrite Hu. split; [|split; [lia|split; [|split_and!; [..|done]]]].
  - apply kfifo_peek_n_spec with (k := d ++ concat (rec_bytes recsize <$> rs)); [done..|lia|].
    rewrite Hc. unfold rec_bytes. by rewrite <- app_assoc.
  - apply zget_ext; rewrite ring_read_length; [lia|]. intros j Hj.
    rewrite ring_read_zget, <- Z.add_assoc, <- contents_zget, Hc by (done || lia).
    unfold rec_bytes. rewrite <- app_assoc, zget_app_r, le_bytes_length by (rewrite le_bytes_length; lia).
    rewrite zget_app_l by lia. f_equal. lia.
  - apply add_out_ok; [done|lia].
  - rewrite add_out_contents, Hc by (done || lia). apply drop_app_length'. lia.
Qed.

Lemma kfifo_out_rec_spec (f : kfifo) (recsize : Z) (d : list Z) (rs : list (list Z)) (to : list Z) (n : Z) :
  rec_queue f recsize (d :: rs) -> recsize_ok recsize -> 0 <= n <= Zlen to ->
  exists f' to' ret, kfifo_out_rec f to n recsize = Some (f', to', ret, Zlen d) /\
    if Zlen d <=? n
    then ret = 0 /\ to' = d ++ drop (length d) to /\ rec_queue f' recsize rs
    else ret = Zlen d /\ to' = to /\ f' = f.
Proof.
  intros Hq Hr Hn. assert (0 < recsize <= 2) by (destruct Hr; lia).
  destruct (rec_head f recsize d rs Hq Hr) as (Hp & (Hu & Hfit & Hsz) & Hd & Hq').
  unfold kfifo_out_rec. rewrite (proj2 (Z.eqb_neq recsize 0)), Hp by lia. cbn [mbind option_bind].
  rewrite Z.ltb_antisym. destruct (Z.leb_spec (Zlen d) n); cbn [negb]; [|by do 3 eexists].
  unfold kfifo_out_n. rewrite Hu, (proj2 (Z.ltb_ge (kfifo_len f) _)) by lia.
  rewrite kfifo_out_data_spec, Hd by (apply Hq || lia). rewrite mem_write_Some by lia.
  cbn [mbind option_bind]. rewrite <- Hu. by do 3 eexists.
Qed.

Lemma kfifo_to_user_rec_spec (f : kfifo) (recsize : Z) (d : list Z) (rs : list (list Z)) (u : user_dst) (n : Z) :
  rec_queue f recsize (d :: rs) -> recsize_ok recsize -> 0 <= n ->
  exists f' put ret, kfifo_to_user_rec f u n recsize = Some (f', put, ret, Zlen d) /\
    if Zlen d <=? n
    then put = fst (copy_to_user u 0 d) /\ ret = Zlen put /\
      (if snd (copy_to_user u 0 d) =? 0 then put = d /\ rec_queue f' recsize rs else f' = f)
    else ret = Zlen d /\ put = [] /\ f' = f.
Proof.
  intros Hq Hr Hn. assert (0 < recsize <= 2) by (destruct Hr; lia).
  destruct (rec_head f recsize d rs Hq Hr) as (Hp & (Hu & Hfit & Hsz) & Hd & Hq').
  unfold kfifo_to_user_rec. rewrite (proj2 (Z.eqb_neq recsize 0)), Hp by lia. cbn [mbind option_bind].
  rewrite Z.ltb_antisym. destruct (Z.leb_spec (Zlen d) n); cbn [negb]; [|by do 3 eexists].
  unfold kfifo_to_user_n. rewrite Hu, (proj2 (Z.ltb_ge (kfifo_len f) _)) by lia.
  rewrite kfifo_to_user_data_spec, Hd by (apply Hq || lia).
  pose proof (copy_to_user_bounds u 0 d) as Hb. pose proof (copy_to_user_ok u 0 d) as Hk.
  destruct (copy_to_user u 0 d) as [put rest]. simpl in Hb, Hk. cbn [mbind option_bind fst snd].
  rewrite <- Hu. replace (Zlen d - rest) with (Zlen put) by lia.
  do 3 eexists. split; [done|]. split_and!; [done..|].
  destruct (Z.eqb_spec rest 0) as [->|]; [|done]. by rewrite Hk.
Qed.

Lemma kfifo_skip_rec_spec (f : kfifo) (recsize : Z) (rs : list (list Z)) :
  rec_queue f recsize rs -> recsize_ok recsize ->
  exists f', kfifo_skip_rec f recsize = Some f' /\ rec_queue f' recsize (tail rs).
Proof.
  intros Hq Hr. assert (0 < recsize <= 2) by (destruct Hr; lia).
  unfold kfifo_skip_rec. rewrite (proj2 (Z.eqb_neq recsize 0)) by lia. cbn [negb].
  destruct rs as [|d rs].
  - destruct Hq as (Hok & Hc & _). simpl in Hc.
    pose proof (contents_length f Hok) as Hl. rewrite Hc in Hl. simpl in Hl.
    destruct (kfifo_peek_n_total f Hok recsize) as [l ->]. cbn [mbind option_bind].
    pose proof (u32_range (l + recsize)) as Hu. rewrite reset_out_add by done.
    destruct (Z.leb_spec (l +ᵤ recsize) (kfifo_len f)); eexists; (split; [done|]).
    1: assert (l +ᵤ recsize = 0) as -> by lia.
    all: split_and!; [apply add_out_ok; [done|lia]| |constructor].
    all: by rewrite add_out_contents, Hc, drop_nil by (done || lia).
  - destruct (rec_head f recsize d rs Hq Hr) as (-> & (Hu & Hfit & _) & _ & Hq').
    cbn [mbind option_bind]. rewrite Hu in *. rewrite (proj2 (Z.leb_le _ (kfifo_len f))) by lia.
    by eexists.
Qed.

(** The record layer over a FIFO with length fields of one or two bytes is
    a queue of records.  kfifo_in_rec() appends the record when it and its
    length field fit, and otherwise changes nothing and returns n + 1;
    kfifo_out_rec() moves the oldest record out when the destination takes it,
    and otherwise changes nothing and returns its length; kfifo_to_user_rec()
    likewise, keeping the record when the user's memory faults;
    kfifo_peek_rec() is the length of the oldest record, kfifo_skip_rec()
    drops it, and kfifo_avail_rec() bounds the records that fit. *)
Lemma kfifo_record_queue (f : kfifo) (recsize : Z) (rs : list (list Z)) :
  rec_queue f recsize rs -> recsize_ok recsize ->
  (forall from n, 0 <= n <= Zlen from -> n < 256 ^ recsize ->
    exists f' ret, kfifo_in_rec f from n recsize = Some (f', ret) /\
      if n + recsize <=? size f - Zlen (contents f)
      then ret = 0 /\ rec_queue f' recsize (rs ++ [take (Z.to_nat n) from])
      else ret = n + 1 /\ f' = f) /\
  (forall d rs' to n, rs = d :: rs' -> 0 <= n <= Zlen to ->
    exists f' to' ret, kfifo_out_rec f to n recsize = Some (f', to', ret, Zlen d) /\
      if Zlen d <=? n
      then ret = 0 /\ to' = d ++ drop (length d) to /\ rec_queue f' recsize rs'
      else ret = Zlen d /\ to' = to /\ f' = f) /\
  (forall d rs' u n, rs = d :: rs' -> Zlen d <= n ->
    exists f' put, kfifo_to_user_rec f u n recsize = Some (f', put, Zlen put, Zlen d) /\
      if snd (copy_to_user u 0 d) =? 0 then put = d /\ rec_queue f' recsize rs' else f' = f) /\
  (forall const d rs', rs = d :: rs' -> kfifo_peek_rec const f recsize = Some (Zlen d)) /\
  (exists f', kfifo_skip_rec f recsize = Some f' /\ rec_queue f' recsize (tail rs)) /\
  (forall n, 0 < n -> n <= kfifo_avail_rec f recsize <-> n + recsize <= size f - Zlen (contents f)).
Proof.
  intros Hq Hr. assert (Hrs : 0 < recsize <= 2) by (destruct Hr; lia).
  assert (256 ^ recsize <= 65536) by (destruct Hr as [-> | ->]; lia).
  destruct Hq as (Hok & Hc & Hf) eqn:EQ. clear EQ. split_and!.
  - intros from n Hn Hb. destruct (kfifo_in_rec_spec f from n recsize) as (f' & ret & E & H1); [done..|lia|].
    do 2 eexists. split; [exact E|]. destruct (n + recsize <=? _); [|by destruct H1 as [-> ->]].
    destruct H1 as (-> & Hok' & _ & Hc').
    split; [done|]. split; [done|split].
    + rewrite Hc', Hc, fmap_app, concat_app. simpl. by rewrite app_nil_r.
    + apply Forall_app. split; [done|]. constructor; [|done]. rewrite length_take. lia.
  - intros d rs' to n -> Hn. by apply kfifo_out_rec_spec with (rs := rs').
  - intros d rs' u n -> Hn.
    destruct (kfifo_to_user_rec_spec f recsize d rs' u n) as (f' & put & ret & E & H1); [done..|lia|].
    rewrite (proj2 (Z.leb_le _ _)) in H1 by lia. destruct H1 as (_ & -> & H1). by do 2 eexists.
  - intros const d rs' ->. destruct (rec_head f recsize d rs') as (Hp & _); [done..|].
    unfold kfifo_peek_rec, kfifo_peek_generic. rewrite (proj2 (Z.eqb_neq recsize 0)), Hp by lia.
    by destruct const.
  - by apply kfifo_skip_rec_spec.
  - intros n Hn. pose proof (contents_length f Hok). pose proof (kfifo_len_range f Hok).
    pose proof (size_range f Hok). unfold kfifo_avail_rec, kfifo_size.
    rewrite (u32_small (size f - kfifo_len f)) by lia.
    destruct (Z.ltb_spec recsize (size f - kfifo_len f)); [rewrite u32_small by lia|]; lia.
Qed.

(** Two records, [7; 8] and [9], that wrap round the end of a ring of 8. *)
Definition example_records : kfifo :=
  mk_kfifo (Some [8; 1; 9; 0; 0; 0; 2; 7]) 8 (4294967294 + 5 - 4294967296) 4294967294.

(** kfifo_from_user_rec() never stores a record with data: for every
    well-formed FIFO, user buffer and length n > 0 it returns a value other
    than 0, so that the length field is not written and the write index is not
    moved, even when every byte could be read, in which case it returns n, the
    value its documentation gives to a copy that failed. *)
Lemma kfifo_from_user_rec_never_commits (f : kfifo) (u : user_src) (n recsize : Z) :
  kfifo_ok f -> recsize_ok recsize -> 0 < n < 4294967290 ->
  exists f' ret, kfifo_from_user_rec f u n recsize = Some (f', ret) /\ ret <> 0 /\
    in_ f' = in_ f /\ contents f' = contents f /\
    (n + recsize <= size f - kfifo_len f -> snd (copy_from_user u 0 n) = 0 -> ret = n).
Proof.
  intros Hok Hr Hn. assert (0 < recsize <= 2) by (destruct Hr; lia).
  pose proof (kfifo_len_range f Hok). pose proof (size_range f Hok).
  unfold kfifo_from_user_rec, kfifo_from_user_n.
  rewrite kfifo_avail_eq, (u32_small (n + recsize)), (u32_small (n + 1)) by (done || lia).
  destruct (Z.ltb_spec (size f - kfifo_len f) (n + recsize)).
  - cbn [mbind option_bind]. rewrite (proj2 (Z.eqb_neq (n + 1) 0)) by lia.
    do 2 eexists. split_and!; [done|lia|done..|lia].
  - destruct (kfifo_from_user_data_spec f Hok u n recsize) as (b & ret & total & -> & Hl & Hkeep & Hcase); [lia|].
    cbn [mbind option_bind].
    assert (0 < total /\ (snd (copy_from_user u 0 n) = 0 -> total = n)) as [? ?].
    { destruct Hcase as [(_ & ? & ?)|(_ & -> & _ & _)]; [split; [lia|by intros ?]|split; [lia|done]]. }
    rewrite (proj2 (Z.eqb_neq total 0)) by lia. do 2 eexists.
    split_and!; [done|lia|done| |auto].
    apply set_block_contents with (n := n + recsize); [done| |lia]. intros j Hj.
    replace (in_ f + j) with (in_ f + recsize + (j - recsize)) by lia. apply Hkeep. lia.
Qed.

(** kfifo_out_peek() with an offset overruns the caller's buffer: when the
    FIFO holds more than [len] bytes and [offset] is positive, it copies more
    than the [len] bytes the destination has. *)
Lemma kfifo_out_peek_overruns (f : kfifo) (to : list Z) (len offset : Z) :
  kfifo_ok f -> len = Zlen to -> len < kfifo_len f -> 0 < offset < 2147483648 ->
  kfifo_out_peek f to len offset = None.
Proof.
  intros Hok Hlen Hl Ho. pose proof (kfifo_len_range f Hok). pose proof (size_range f Hok).
  unfold kfifo_out_peek. rewrite (u32_small (len + offset)) by lia.
  rewrite kfifo_out_data_spec by (done || lia). unfold mem_write.
  rewrite ring_read_length, bool_decide_eq_false_2 by lia. done.
Qed.

(** ** One reader, one writer, no lock

    kfifo_in() and kfifo_out() broken into the steps another processor can
    see: the index of the other side is sampled, the bytes move one at a time
    in any order (memcpy gives no order), and then the own index is published;
    smp_mb(), smp_rmb() and smp_wmb() keep these three phases apart. *)

(** memcpy's store of byte [i] of [d]. *)
Definition store_byte (fifo : kfifo) (d : list Z) (i : Z) : option kfifo :=
  b ← mem_write (block fifo) (kfifo_off fifo (in_ fifo +ᵤ i)) [zget d i];
  Some (set_block fifo b).

(** memcpy's load of byte [i] into the destination [t]. *)
Definition load_byte (fifo : kfifo) (t : list Z) (i : Z) : option (list Z) :=
  d ← mem_read (block fifo) (kfifo_off fifo (out fifo +ᵤ i)) 1;
  mem_write t i d.

(** A side that is inside its call has a block of bytes and the positions it
    has yet to move.  [sent] and [recv] are what the calls that have returned
    have transferred. *)
Record spsc := mk_spsc {
  fifo_of : kfifo;
  writer : option (list Z * list Z);
  reader : option (list Z * list Z);
  sent : list Z;
  recv : list Z
}.

Definition positions (n : Z) : list Z := Z.of_nat <$> seq 0 (Z.to_nat n).

Inductive spsc_step : spsc -> spsc -> Prop :=
  | w_begin f r s v from len :
      0 <= len <= Zlen from ->
      spsc_step (mk_spsc f None r s v)
        (let n := Z.min (kfifo_avail f) len in
         mk_spsc f (Some (take (Z.to_nat n) from, positions n)) r s v)
  | w_byte f f' r s v d todo i :
      i ∈ todo -> store_byte f d i = Some f' ->
      spsc_step (mk_spsc f (Some (d, todo)) r s v) (mk_spsc f' (Some (d, list_del i todo)) r s v)
  | w_end f r s v d :
      spsc_step (mk_spsc f (Some (d, [])) r s v) (mk_spsc (kfifo_add_in f (Zlen d)) None r (s ++ d) v)
  | r_begin f w s v to len :
      0 <= len <= Zlen to ->
      spsc_step (mk_spsc f w None s v)
        (let n := Z.min (kfifo_len f) len in
         mk_spsc f w (Some (take (Z.to_nat n) to, positions n)) s v)
  | r_byte f w s v t t' todo i :
      i ∈ todo -> load_byte f t i = Some t' ->
      spsc_step (mk_spsc f w (Some (t, todo)) s v) (mk_spsc f w (Some (t', list_del i todo)) s v)
  | r_end f w s v t :
      spsc_step (mk_spsc f w (Some (t, [])) s v) (mk_spsc (kfifo_add_out f (Zlen t)) w None s (v ++ t)).

(** [B] is where both indices stood when the FIFO was last empty and idle. *)
Record spsc_inv (B : Z) (st : spsc) : Prop := {
  si_ok : kfifo_ok (fifo_of st);
  si_in : in_ (fifo_of st) = u32 (B + Zlen (sent st));
  si_out : out (fifo_of st) = u32 (B + Zlen (recv st));
  si_len : kfifo_len (fifo_of st) = Zlen (sent st) - Zlen (recv st);
  si_ring : forall j, Zlen (recv st) <= j < Zlen (sent st) ->
    zget (block (fifo_of st)) ((B + j) mod size (fifo_of st)) = zget (sent st) j;
  si_recv : recv st `prefix_of` sent st;
  si_writer : forall d todo, writer st = Some (d, todo) ->
    Zlen (sent st) + Zlen d <= Zlen (recv st) + size (fifo_of st) /\
    (forall i, i ∈ todo -> 0 <= i < Zlen d) /\
    (forall i, 0 <= i < Zlen d -> i ∉ todo ->
       zget (block (fifo_of st)) ((B + Zlen (sent st) + i) mod size (fifo_of st)) = zget d i);
  si_reader : forall t todo, reader st = Some (t, todo) ->
    Zlen (recv st) + Zlen t <= Zlen (sent st) /\
    (forall i, i ∈ todo -> 0 <= i < Zlen t) /\
    (forall i, 0 <= i < Zlen t -> i ∉ todo -> zget t i = zget (sent st) (Zlen (recv st) + i))
}.

Lemma elem_positions (i n : Z) : i ∈ positions n <-> 0 <= i < n.
Proof.
  unfold positions. rewrite list_elem_of_fmap. setoid_rewrite elem_of_seq. split.
  - intros (k & -> & Hk). lia.
  - intros Hi. exists (Z.to_nat i). lia.
Qed.

Section Spsc.
Context (B : Z).

Lemma u32_index_mod (f : kfifo) (x i : Z) :
  kfifo_ok f -> kfifo_off f (u32 (u32 x + i)) = (x + i) mod size f.
Proof using. intros Hok. by rewrite u32_idem_add, kfifo_off_u32. Qed.

Lemma store_byte_spec (f : kfifo) (x i : Z) (d : list Z) :
  kfifo_ok f -> in_ f = u32 x ->
  exists b, store_byte f d i = Some (set_block f b) /\ length b = length (block f) /\
    forall j, zget b (j mod size f) =
      if (j mod size f =? (x + i) mod size f) then zget d i else zget (block f) (j mod size f).
Proof using.
  intros Hok Hin. unfold store_byte. rewrite Hin, u32_index_mod by done.
  pose proof (size_range f Hok). pose proof (ok_block f Hok).
  pose proof (Z.mod_pos_bound (x + i) (size f)).
  destruct (mem_write (block f) ((x + i) mod size f) [zget d i]) as [b|] eqn:E.
  2:{ rewrite mem_write_Some in E; [done|lia|simpl; lia]. }
  exists b. split; [done|]. split; [by eapply mem_write_length|]. intros j.
  pose proof (Z.mod_pos_bound j (size f)). rewrite (mem_write_zget _ _ _ _ _ E) by lia. simpl length.
  destruct (Z.eqb_spec (j mod size f) ((x + i) mod size f)) as [->|].
  - rewrite bool_decide_eq_true_2 by lia. unfold zget. by rewrite Z.sub_diag.
  - by rewrite bool_decide_eq_false_2 by lia.
Qed.

Lemma load_byte_spec (f : kfifo) (x i : Z) (t : list Z) :
  kfifo_ok f -> out f = u32 x -> 0 <= i < Zlen t ->
  exists t', load_byte f t i = Some t' /\ length t' = length t /\
    forall j, 0 <= j -> zget t' j = if j =? i then zget (block f) ((x + i) mod size f) else zget t j.
Proof using.
  intros Hok Hout Hi. unfold load_byte. rewrite Hout, u32_index_mod by done.
  pose proof (size_range f Hok). pose proof (ok_block f Hok).
  pose proof (Z.mod_pos_bound (x + i) (size f)). rewrite mem_read_Some by lia.
  cbn [mbind option_bind]. set (d := take _ _).
  assert (Hd : Zlen d = 1) by (unfold d; rewrite length_take, length_drop; lia).
  assert (Hv : zget d 0 = zget (block f) ((x + i) mod size f)).
  { unfold d. rewrite zget_take_drop by lia. by rewrite Z.add_0_r. }
  destruct (mem_write t i d) as [t'|] eqn:E; [|rewrite mem_write_Some in E; [done|lia..]].
  exists t'. split; [done|]. split; [by eapply mem_write_length|]. intros j Hj.
  rewrite (mem_write_zget _ _ _ _ _ E) by lia. rewrite Hd.
  destruct (Z.eqb_spec j i) as [->|].
  - rewrite bool_decide_eq_true_2 by lia. by rewrite Z.sub_diag.
  - by rewrite bool_decide_eq_false_2 by lia.
Qed.

Lemma spsc_w_begin f r s v from len :
  0 <= len <= Zlen from -> spsc_inv B (mk_spsc f None r s v) ->
  let n := Z.min (kfifo_avail f) len in
  spsc_inv B (mk_spsc f (Some (take (Z.to_nat n) from, positions n)) r s v).
Proof using.
  intros Hlen [Hok Hin Hout Hl Hring Hpre _ Hr] n. simpl in *. unfold n. clear n.
  rewrite kfifo_avail_eq by done. pose proof (kfifo_len_range f Hok).
  split; simpl; try done. intros d todo [= <- <-]. rewrite length_take.
  split_and!; [lia|intros i Hi%elem_positions; lia|].
  intros i Hi Hn. rewrite elem_positions in Hn. lia.
Qed.

Lemma spsc_w_byte f f' r s v d todo i :
  i ∈ todo -> store_byte f d i = Some f' ->
  spsc_inv B (mk_spsc f (Some (d, todo)) r s v) ->
  spsc_inv B (mk_spsc f' (Some (d, list_del i todo)) r s v).
Proof using.
  intros Hi Hst [Hok Hin Hout Hl Hring Hpre Hw Hr]. simpl in *.
  destruct (Hw d todo eq_refl) as (Hroom & Htodo & Hdone). pose proof (Htodo i Hi) as Hid.
  pose proof (prefix_length _ _ Hpre) as Hvs.
  destruct (store_byte_spec f (B + Zlen s) i d Hok Hin) as (b & Hst' & Hlb & Hb).
  rewrite Hst' in Hst. injection Hst as <-.
  assert (Hother : forall j, Zlen v <= j < Zlen v + size f -> j <> Zlen s + i ->
    zget b ((B + j) mod size f) = zget (block f) ((B + j) mod size f)).
  { intros j Hj Hne. rewrite Hb. destruct (Z.eqb_spec ((B + j) mod size f) ((B + Zlen s + i) mod size f)) as [E|]; [|done].
    exfalso. apply Hne. assert (j - Zlen v = Zlen s + i - Zlen v); [|lia].
    apply (ring_pos_inj (size f) (B + Zlen v)); [lia..|].
    replace (B + Zlen v + (j - Zlen v)) with (B + j) by lia.
    replace (B + Zlen v + (Zlen s + i - Zlen v)) with (B + Zlen s + i) by lia. done. }
  split; simpl; try done.
  - by apply set_block_ok.
  - intros j Hj. rewrite block_set_block, Hother by (done || lia). auto.
  - intros d0 todo0 [= <- <-]. rewrite block_set_block by done. split_and!; [done| |].
    + intros k [Hk _]%elem_list_del. by apply Htodo.
    + intros k Hk Hnot. rewrite elem_list_del in Hnot.
      destruct (Z.eq_dec k i) as [->|Hki]; [by rewrite Hb, Z.eqb_refl|].
      rewrite <- Z.add_assoc, Hother, Z.add_assoc by lia. apply Hdone; [done|]. tauto.
Qed.

Lemma spsc_w_end f r s v d :
  spsc_inv B (mk_spsc f (Some (d, [])) r s v) ->
  spsc_inv B (mk_spsc (kfifo_add_in f (Zlen d)) None r (s ++ d) v).
Proof using.
  intros [Hok Hin Hout Hl Hring Hpre Hw Hr]. simpl in *.
  destruct (Hw d [] eq_refl) as (Hroom & _ & Hdone).
  pose proof (prefix_length _ _ Hpre) as Hvs.
  split; simpl; rewrite ?length_app; try done.
  - apply add_in_ok; [done|lia].
  - rewrite Hin, u32_idem_add. f_equal. lia.
  - rewrite add_in_len by (done || lia). lia.
  - intros j Hj. change (block (kfifo_add_in f (Zlen d))) with (block f).
    destruct (Z.lt_ge_cases j (Zlen s)).
    + rewrite zget_app_l by lia. apply Hring. lia.
    + rewrite zget_app_r by lia. rewrite <- Hdone; [|lia|by apply not_elem_of_nil].
      do 2 f_equal. lia.
  - by apply prefix_app_r.
  - intros t todo E. destruct (Hr t todo E) as (? & ? & Ht). split_and!; [lia|done|].
    intros i Hi Hn. rewrite zget_app_l by lia. auto.
Qed.

Lemma spsc_r_begin f w s v to len :
  0 <= len <= Zlen to -> spsc_inv B (mk_spsc f w None s v) ->
  let n := Z.min (kfifo_len f) len in
  spsc_inv B (mk_spsc f w (Some (take (Z.to_nat n) to, positions n)) s v).
Proof using.
  intros Hlen [Hok Hin Hout Hl Hring Hpre Hw _] n. simpl in *. unfold n. clear n.
  pose proof (kfifo_len_range f Hok).
  split; simpl; try done. intros d todo [= <- <-]. rewrite length_take.
  split_and!; [lia|intros i Hi%elem_positions; lia|].
  intros i Hi Hn. rewrite elem_positions in Hn. lia.
Qed.

Lemma spsc_r_byte f w s v t t' todo i :
  i ∈ todo -> load_byte f t i = Some t' ->
  spsc_inv B (mk_spsc f w (Some (t, todo)) s v) ->
  spsc_inv B (mk_spsc f w (Some (t', list_del i todo)) s v).
Proof using.
  intros Hi Hld [Hok Hin Hout Hl Hring Hpre Hw Hr]. simpl in *.
  destruct (Hr t todo eq_refl) as (Hroom & Htodo & Hdone). pose proof (Htodo i Hi) as Hid.
  destruct (load_byte_spec f (B + Zlen v) i t Hok Hout Hid) as (t2 & Hld' & Hlt & Ht).
  rewrite Hld' in Hld. injection Hld as <-.
  split; simpl; try done. intros t0 todo0 [= <- <-]. rewrite Hlt. split_and!; [done| |].
  - intros k [Hk _]%elem_list_del. by apply Htodo.
  - intros k Hk Hnot. rewrite elem_list_del in Hnot. rewrite Ht by lia.
    destruct (Z.eqb_spec k i) as [->|].
    + rewrite <- Z.add_assoc. apply Hring. lia.
    + apply Hdone; [done|]. tauto.
Qed.

Lemma spsc_r_end f w s v t :
  spsc_inv B (mk_spsc f w (Some (t, [])) s v) ->
  spsc_inv B (mk_spsc (kfifo_add_out f (Zlen t)) w None s (v ++ t)).
Proof using.
  intros [Hok Hin Hout Hl Hring Hpre Hw Hr]. simpl in *.
  destruct (Hr t [] eq_refl) as (Hroom & _ & Hdone). destruct Hpre as [k ->].
  rewrite length_app in *.
  assert (exists k', k = t ++ k') as [k' ->].
  { exists (drop (length t) k). rewrite <- (take_drop (length t) k) at 1. f_equal.
    apply zget_ext; [rewrite length_take; lia|]. rewrite length_take. intros j Hj.
    rewrite Hdone by (lia || apply not_elem_of_nil). rewrite zget_app_r by lia.
    unfold zget. rewrite nth_take_lt by lia. f_equal. lia. }
  rewrite length_app in *. split; simpl; rewrite ?length_app; try done.
  - apply add_out_ok; [done|lia].
  - rewrite Hout, u32_idem_add. f_equal. lia.
  - rewrite add_out_len by (done || lia). lia.
  - intros j Hj. apply Hring. lia.
  - exists k'. by rewrite app_assoc.
  - intros d todo E. destruct (Hw d todo E) as (? & ? & ?). rewrite ?length_app in *.
    split_and!; [lia|done..].
Qed.

Lemma spsc_step_inv st st' : spsc_step st st' -> spsc_inv B st -> spsc_inv B st'.
Proof using.
  intros [f r s v from len Hl|f f' r s v d todo i Hi Hs|f r s v d|f w s v to len Hl|f w s v t t' todo i Hi Hs|f w s v t].
  - by apply spsc_w_begin.
  - by apply (spsc_w_byte f f' r s v d todo i).
  - by apply spsc_w_end.
  - by apply spsc_r_begin.
  - by apply (spsc_r_byte f w s v t t' todo i).
  - by apply spsc_r_end.
Qed.
End Spsc.

Lemma spsc_init_inv (f : kfifo) :
  kfifo_ok f -> in_ f = out f -> spsc_inv (in_ f) (mk_spsc f None None [] []).
Proof.
  intros Hok E. pose proof (ok_in f Hok). split; simpl; try done.
  - rewrite Z.add_0_r, u32_small; lia.
  - rewrite Z.add_0_r, u32_small; lia.
  - unfold kfifo_len. by rewrite E, Z.sub_diag.
  - intros j Hj. lia.
Qed.

(** C27. With one reader and one writer no lock is needed: in every
    interleaving of their byte-by-byte copies and index updates, starting from
    an empty FIFO with its indices anywhere, what the reader's finished calls
    received is a prefix of what the writer's finished calls sent, the
    difference is what kfifo_len() says and at most the size, the FIFO holds
    exactly the bytes not yet received, and no copy leaves a buffer. *)
Theorem kfifo_spsc_lock_free (f : kfifo) (st : spsc) :
  kfifo_ok f -> in_ f = out f -> rtc spsc_step (mk_spsc f None None [] []) st ->
  kfifo_ok (fifo_of st) /\
  sent st = recv st ++ contents (fifo_of st) /\
  kfifo_len (fifo_of st) = Zlen (sent st) - Zlen (recv st) /\
  (forall d todo i, writer st = Some (d, todo) -> i ∈ todo -> is_Some (store_byte (fifo_of st) d i)) /\
  (forall t todo i, reader st = Some (t, todo) -> i ∈ todo -> is_Some (load_byte (fifo_of st) t i)).
Proof.
  intros Hok E Hrun. apply spsc_init_inv in Hok; [|done]. set (B := in_ f) in Hok.
  assert (Hinv : spsc_inv B st) by (induction Hrun; eauto using spsc_step_inv).
  destruct Hinv as [Hok' Hin Hout Hl Hring [k Hk] Hw Hr].
  pose proof (kfifo_len_range _ Hok'). pose proof (contents_length _ Hok') as Hc.
  rewrite Hk, length_app in *. split_and!; [done| |done| |].
  - f_equal. apply zget_ext; [lia|]. intros j Hj.
    rewrite contents_zget by (done || lia). rewrite Hout.
    rewrite <- kfifo_off_u32, u32_idem_add, kfifo_off_u32 by done.
    rewrite <- Z.add_assoc, Hring, zget_app_r by lia. f_equal. lia.
  - intros d todo i Hd Hi. destruct (store_byte_spec _ _ i d Hok' Hin) as (b & -> & _). by eexists.
  - intros t todo i Ht Hi. destruct (Hr t todo Ht) as (_ & Hrange & _).
    destruct (load_byte_spec _ _ i t Hok' Hout (Hrange i Hi)) as (t' & -> & _). by eexists.
Qed.

(** The writer stores byte 1 before byte 0, and the reader, which saw nothing
    yet, starts and returns with nothing in between. *)
Lemma kfifo_spsc_lock_free_witness :
  exists st, rtc spsc_step (mk_spsc (mk_kfifo (Some [0; 0; 0; 0]) 4 4294967295 4294967295) None None [] []) st /\
    sent st = [5; 6] /\ recv st = [] /\ sent st = recv st ++ contents (fifo_of st).
Proof.
  set (f := mk_kfifo (Some [0; 0; 0; 0]) 4 4294967295 4294967295).
  assert (Hrun : exists st, rtc spsc_step (mk_spsc f None None [] []) st /\ sent st = [5; 6] /\ recv st = []).
  { eexists. split; [|split].
    - eapply rtc_l; [apply (w_begin f None [] [] [5; 6] 2); simpl; lia|].
      eapply rtc_l; [eapply (w_byte f _ None [] [] [5; 6] [0; 1] 1); [set_solver|reflexivity]|].
      eapply rtc_l; [apply (r_begin _ _ [] [] [9] 1); simpl; lia|].
      eapply rtc_l; [eapply (w_byte _ _ _ [] [] [5; 6] [0] 0); [set_solver|reflexivity]|].
      eapply rtc_l; [apply (r_end _ _ [] [] [])|].
      eapply rtc_l; [apply (w_end _ _ [] [] [5; 6])|]. apply rtc_refl.
    - reflexivity.
    - reflexivity. }
  destruct Hrun as (st & Hrun & Hs & Hr). exists st. split; [exact Hrun|]. split; [exact Hs|].
  split; [exact Hr|].
  apply (kfifo_spsc_lock_free f st); [|reflexivity|exact Hrun].
  split; try done. by exists 2.
Defined.

(** Moving all bytes, in any order, between the begin and the end of a call is
    the call: the steps above are those of kfifo_in(). *)
Fixpoint store_bytes (f : kfifo) (d : list Z) (order : list Z) : option kfifo :=
  match order with
  | [] => Some f
  | i :: order => f ← store_byte f d i; store_bytes f d order
  end.

Lemma store_bytes_spec (d order : list Z) (f : kfifo) :
  kfifo_ok f -> (forall i, i ∈ order -> 0 <= i < size f) ->
  exists b, store_bytes f d order = Some (set_block f b) /\ length b = length (block f) /\
    forall j, 0 <= j < size f -> zget b ((in_ f + j) mod size f) =
      if bool_decide (j ∈ order) then zget d j else zget (block f) ((in_ f + j) mod size f).
Proof.
  revert f. induction order as [|i order IH]; intros f Hok Hr; simpl.
  - exists (block f). split_and!; [|done..]. unfold set_block, block.
    destruct f as [[b|] sz x y]; [done|]. pose proof (ok_block _ Hok). pose proof (size_range _ Hok).
    unfold block in *. simpl in *. lia.
  - pose proof (ok_in f Hok).
    destruct (store_byte_spec f (in_ f) i d Hok) as (b & -> & Hlb & Hb); [by rewrite u32_small by lia|].
    cbn [mbind option_bind]. pose proof (set_block_ok f Hok b Hlb) as Hok1.
    destruct (IH _ Hok1) as (b' & -> & Hl' & Hb').
    { intros k Hk. apply Hr. by right. }
    rewrite block_set_block in Hl', Hb' by done. simpl in Hb'.
    exists b'. rewrite set_block_twice. split_and!; [done|congruence|]. intros j Hj.
    rewrite Hb' by done. pose proof (Hr i ltac:(by left)) as Hi.
    destruct (decide (j ∈ order)) as [Hin|Hout].
    { by rewrite !bool_decide_eq_true_2 by (done || by right). }
    rewrite (bool_decide_eq_false_2 (j ∈ order)), Hb by done.
    destruct (Z.eq_dec j i) as [->|Hji].
    + by rewrite Z.eqb_refl, bool_decide_eq_true_2 by by left.
    + rewrite bool_decide_eq_false_2 by (by apply not_elem_of_cons).
      destruct (Z.eqb_spec ((in_ f + j) mod size f) ((in_ f + i) mod size f)) as [E|]; [|done].
      by apply ring_pos_inj in E.
Qed.

Lemma kfifo_in_as_steps (f : kfifo) (from order : list Z) (len : Z) :
  kfifo_ok f -> 0 <= len <= Zlen from ->
  let n := Z.min (kfifo_avail f) len in
  order ≡ₚ positions n ->
  kfifo_in f from len =
    (f' ← store_bytes f (take (Z.to_nat n) from) order; Some (kfifo_add_in f' n, n)).
Proof.
  intros Hok Hlen n Hord. pose proof (size_range f Hok). pose proof (kfifo_len_range f Hok).
  pose proof (kfifo_avail_eq f Hok) as Ha. unfold kfifo_in. fold n.
  assert (Hin : forall i, i ∈ order <-> 0 <= i < n) by (intros i; rewrite Hord; apply elem_positions).
  destruct (kfifo_in_data_spec f Hok from n 0) as (b & -> & Hl & Hw & Hk); [lia..|].
  destruct (store_bytes_spec (take (Z.to_nat n) from) order f) as (b' & -> & Hl' & Hb'); [done| |].
  { intros i Hi%Hin. lia. }
  cbn [mbind option_bind]. do 4 f_equal. rewrite Z.add_0_r in Hw, Hk.
  apply zget_ext; [congruence|]. rewrite Hl, ok_block by done. intros k Hkr.
  assert (exists j, 0 <= j < size f /\ k = (in_ f + j) mod size f) as (j & Hj & ->).
  { exists ((k - in_ f) mod size f). split; [apply Z.mod_pos_bound; lia|].
    rewrite Zplus_mod_idemp_r. replace (in_ f + (k - in_ f)) with k by lia. by rewrite Z.mod_small. }
  rewrite Hb' by done. case_bool_decide as Hjo; rewrite Hin in Hjo.
  - rewrite Hw by done. unfold zget. symmetry. apply nth_take_lt. lia.
  - apply Hk. lia.
Qed.

End Kfifo.
