(* ===== verification/RbTree.v ===== *)
(** Red-black trees (lib/rbtree.c, include/linux/rbtree.h).

    A node is known by its address.  The C code works on nodes that point to
    their parent; here a node with its surroundings is the subtree below it
    and the path from it up to the root ([path], innermost frame first), so
    that following rb_parent is taking a frame off the path, and a change of a
    node or of its children is a change of the subtree or of a frame.  A NULL
    pointer that the code follows is [None].

    The theorems: insertion and removal keep the colour rules and change the
    in-order sequence as they should, and never follow a NULL pointer;
    rb_first() and rb_next() enumerate that sequence; a search makes at most
    2 log2(n + 1) steps. *)

From S2P Require Import Prelude.
Local Open Scope Z_scope.

Module RbTree.

Inductive color := Red | Black.

#[global] Instance color_eq_dec : EqDecision color.
Proof. solve_decision. Defined.

Inductive tree :=
  | Null
  | Node (c : color) (l : tree) (x : Z) (r : tree).

(** Which link of its parent a node hangs from. *)
Inductive side := Lft | Rgt.

(** A parent seen from one of its children: the side the child is on, the
    parent's colour and address, and its other child. *)
Record frame := mk_frame { f_side : side; f_color : color; f_node : Z; f_other : tree }.

Definition path := list frame.

Definition plug1 (f : frame) (t : tree) : tree :=
  match f_side f with
  | Lft => Node (f_color f) t (f_node f) (f_other f)
  | Rgt => Node (f_color f) (f_other f) (f_node f) t
  end.
Arguments plug1 !f t /.

Fixpoint plug (p : path) (t : tree) : tree :=
  match p with
  | [] => t
  | f :: p => plug p (plug1 f t)
  end.

(** rb_is_red and rb_is_black with the NULL tests the callers make. *)
Definition is_red (t : tree) : bool :=
  match t with Node Red _ _ _ => true | _ => false end.
Definition is_black (t : tree) : bool := negb (is_red t).

Definition rb_set_color (c : color) (t : tree) : option tree :=
  match t with
  | Null => None
  | Node _ l x r => Some (Node c l x r)
  end.

(** if (node) rb_set_black(node) *)
Definition set_black (t : tree) : tree :=
  match t with
  | Null => Null
  | Node _ l x r => Node Black l x r
  end.

(** The subtree at the rotated node. *)
Definition rb_rotate_left (t : tree) : option tree :=
  match t with
  | Node c l x (Node c' m y r) => Some (Node c' (Node c l x m) y r)
  | _ => None
  end.

Definition rb_rotate_right (t : tree) : option tree :=
  match t with
  | Node c (Node c' l y m) x r => Some (Node c' l y (Node c m x r))
  | _ => None
  end.

(** ** Insertion *)

(** The body of the loop once the uncle is black: the node is turned to the
    outer side of its parent, and the grandparent, made red, is rotated below
    the parent, made black. *)
Definition insert_rotate (gparent parent : frame) (node : tree) : option tree :=
  match f_side gparent with
  | Lft =>
      sub ← (match f_side parent with
             | Rgt => rb_rotate_left (plug1 parent node)
             | Lft => Some (plug1 parent node)
             end);
      sub ← rb_set_color Black sub;
      rb_rotate_right (Node Red sub (f_node gparent) (f_other gparent))
  | Rgt =>
      sub ← (match f_side parent with
             | Lft => rb_rotate_right (plug1 parent node)
             | Rgt => Some (plug1 parent node)
             end);
      sub ← rb_set_color Black sub;
      rb_rotate_left (Node Red (f_other gparent) (f_node gparent) sub)
  end.

(** The loop; after the rotations the parent of the node is black, which ends
    it. *)
Fixpoint insert_loop (p : path) (node : tree) : option tree :=
  match p with
  | [] => Some node
  | parent :: p1 =>
      if bool_decide (f_color parent = Red) then
        match p1 with
        | [] => None
        | gparent :: p2 =>
            let uncle := f_other gparent in
            if is_red uncle then
              let sub := set_black (plug1 parent node) in
              insert_loop p2
                (plug1 (mk_frame (f_side gparent) Red (f_node gparent) (set_black uncle)) sub)
            else sub ← insert_rotate gparent parent node; Some (plug p2 sub)
        end
      else Some (plug p node)
  end.

Definition rb_insert_color (p : path) (node : tree) : option tree :=
  root ← insert_loop p node; rb_set_color Black root.

(** A new node is red and has no children. *)
Definition rb_link_node (x : Z) : tree := Node Red Null x Null.

(** The walk that precedes rb_link_node() is the caller's: at each node it goes
    left, goes right or stops; [None] is a BUG(). *)
Inductive verdict := Go (d : side) | Stop.

(** The empty link it arrives at, or the node it stops at. *)
Fixpoint rb_walk (go : Z -> option verdict) (t : tree) (p : path) : option (path + Z) :=
  match t with
  | Null => Some (inl p)
  | Node c l x r =>
      v ← go x;
      match v with
      | Go Lft => rb_walk go l (mk_frame Lft c x r :: p)
      | Go Rgt => rb_walk go r (mk_frame Rgt c x l :: p)
      | Stop => Some (inr x)
      end
  end.

(** ** Removal *)

(** The position of a node in the tree. *)
Fixpoint locate (x : Z) (t : tree) (p : path) : option (path * tree) :=
  match t with
  | Null => None
  | Node c l y r =>
      if x =? y then Some (p, t) else
      match locate x l (mk_frame Lft c y r :: p) with
      | Some z => Some z
      | None => locate x r (mk_frame Rgt c y l :: p)
      end
  end.

(** while ((left = node->rb_left) != NULL) node = left: the leftmost node of a
    subtree, as its path, colour, address and right child. *)
Fixpoint leftmost (c : color) (l : tree) (x : Z) (r : tree) (p : path) : path * color * Z * tree :=
  match l with
  | Null => (p, c, x, r)
  | Node c' l' x' r' => leftmost c' l' x' r' (mk_frame Lft c x r :: p)
  end.

(** A red sibling is rotated above the parent; the frames above the node
    afterwards. *)
Definition erase_red_sibling (parent : frame) (p : path) : option (frame * path) :=
  match f_other parent with
  | Null => None
  | Node Red ol o or =>
      match f_side parent with
      | Lft => Some (mk_frame Lft Red (f_node parent) ol, mk_frame Lft Black o or :: p)
      | Rgt => Some (mk_frame Rgt Red (f_node parent) or, mk_frame Rgt Black o ol :: p)
      end
  | Node Black _ _ _ => Some (parent, p)
  end.

(** The sibling has a red child: the last rotations. *)
Definition erase_rotate (parent : frame) (node ol : tree) (o : Z) (or : tree) : option tree :=
  match f_side parent with
  | Lft =>
      other ← (if is_black or then
                 ol ← rb_set_color Black ol; rb_rotate_right (Node Red ol o or)
               else Some (Node Black ol o or));
      match other with
      | Null => None
      | Node _ ol o or =>
          or ← rb_set_color Black or;
          rb_rotate_left (Node Black node (f_node parent) (Node (f_color parent) ol o or))
      end
  | Rgt =>
      other ← (if is_black ol then
                 or ← rb_set_color Black or; rb_rotate_left (Node Red ol o or)
               else Some (Node Black ol o or));
      match other with
      | Null => None
      | Node _ ol o or =>
          ol ← rb_set_color Black ol;
          rb_rotate_right (Node Black (Node (f_color parent) ol o or) (f_node parent) node)
      end
  end.

(** The loop ends when the node is red or the root.  [fuel] bounds its rounds:
    each takes a frame off the path, but for a round with a red sibling, after
    which the node is red. *)
Fixpoint rb_erase_color (fuel : nat) (p : path) (node : tree) : option tree :=
  match fuel with
  | O => None
  | S fuel =>
      if is_red node then Some (plug p (set_black node)) else
      match p with
      | [] => Some (set_black node)
      | parent :: p =>
          '(parent, p) ← erase_red_sibling parent p;
          match f_other parent with
          | Null => None
          | Node oc ol o or =>
              if is_black ol && is_black or then
                rb_erase_color fuel p
                  (plug1 (mk_frame (f_side parent) (f_color parent) (f_node parent) (Node Red ol o or)) node)
              else
                sub ← erase_rotate parent node ol o or;
                Some (set_black (plug p sub))
          end
      end
  end.

Definition erase_color (p : path) (node : tree) : option tree :=
  rb_erase_color (S (S (length p))) p node.

Definition rb_erase (x : Z) (root : tree) : option tree :=
  '(p, node) ← locate x root [];
  match node with
  | Null => None
  | Node c Null _ child | Node c child _ Null =>
      if bool_decide (c = Black) then erase_color p child else Some (plug p child)
  | Node c l _ (Node rc rl rx rr) =>
      (* the next node takes the place and the colour of the removed one *)
      let '(q, nc, y, child) := leftmost rc rl rx rr [] in
      let p := q ++ mk_frame Rgt c y l :: p in
      if bool_decide (nc = Black) then erase_color p child else Some (plug p child)
  end.

(** ** Traversal *)

Fixpoint rb_first (root : tree) : option Z :=
  match root with
  | Null => None
  | Node _ Null x _ => Some x
  | Node _ l _ _ => rb_first l
  end.

Fixpoint rb_last (root : tree) : option Z :=
  match root with
  | Null => None
  | Node _ _ x Null => Some x
  | Node _ _ _ r => rb_last r
  end.

(** The first ancestor of which the node is on the side [s]. *)
Fixpoint climb (s : side) (p : path) : option Z :=
  match p with
  | [] => None
  | f :: p =>
      match s, f_side f with
      | Lft, Lft | Rgt, Rgt => Some (f_node f)
      | _, _ => climb s p
      end
  end.

(** For a node of the tree [root]; the outer [None] is a node that is in no
    tree. *)
Definition rb_next (root : tree) (x : Z) : option (option Z) :=
  '(p, node) ← locate x root [];
  match node with
  | Node _ _ _ Null => Some (climb Lft p)
  | Node _ _ _ r => Some (rb_first r)
  | Null => None
  end.

Definition rb_prev (root : tree) (x : Z) : option (option Z) :=
  '(p, node) ← locate x root [];
  match node with
  | Node _ Null _ _ => Some (climb Rgt p)
  | Node _ l _ _ => Some (rb_last l)
  | Null => None
  end.

Definition rb_replace_node (victim new : Z) (root : tree) : option tree :=
  '(p, node) ← locate victim root [];
  match node with
  | Null => None
  | Node c l _ r => Some (plug p (Node c l new r))
  end.

(** ** The in-order sequence *)

Fixpoint inorder (t : tree) : list Z :=
  match t with
  | Null => []
  | Node _ l x r => inorder l ++ x :: inorder r
  end.

Fixpoint before (p : path) : list Z :=
  match p with
  | [] => []
  | f :: p => before p ++ match f_side f with Lft => [] | Rgt => inorder (f_other f) ++ [f_node f] end
  end.

Fixpoint after (p : path) : list Z :=
  match p with
  | [] => []
  | f :: p => match f_side f with Lft => f_node f :: inorder (f_other f) | Rgt => [] end ++ after p
  end.

Lemma inorder_plug (p : path) (t : tree) : inorder (plug p t) = before p ++ inorder t ++ after p.
Proof.
  revert t. induction p as [|[[] c x o] p IH]; intros t; simpl; [by rewrite app_nil_r|..];
    rewrite IH; simpl; rewrite <- ?app_assoc; simpl; by rewrite ?app_nil_r, <- ?app_assoc.
Qed.

Lemma plug_app (p q : path) (t : tree) : plug (p ++ q) t = plug q (plug p t).
Proof. revert t. induction p as [|f p IH]; intros t; simpl; auto. Qed.

(** [inorder_tac] compares in-order sequences built by the operations. *)
Ltac inorder_tac :=
  repeat (rewrite !inorder_plug || simpl || rewrite <- !app_assoc || rewrite !app_nil_r); try done.

Lemma set_black_inorder (t : tree) : inorder (set_black t) = inorder t.
Proof. by destruct t. Qed.

Lemma rb_set_color_inorder (c : color) (t t' : tree) :
  rb_set_color c t = Some t' -> inorder t' = inorder t.
Proof. destruct t; simpl; intros; by simplify_eq. Qed.

Lemma rotate_left_inorder (t t' : tree) : rb_rotate_left t = Some t' -> inorder t' = inorder t.
Proof. destruct t as [|? ? ? []]; simpl; intros; simplify_eq. inorder_tac. Qed.

Lemma rotate_right_inorder (t t' : tree) : rb_rotate_right t = Some t' -> inorder t' = inorder t.
Proof. destruct t as [|? [] ? ?]; simpl; intros; simplify_eq. inorder_tac. Qed.

(** ** The colour rules

    [rb c n t]: the root of [t] has colour [c] (NULL counts as black), no red
    node has a red child, and every way down passes [n] black nodes. *)

Inductive rb : color -> nat -> tree -> Prop :=
  | rb_Null : rb Black 0 Null
  | rb_Red n l x r : rb Black n l -> rb Black n r -> rb Red n (Node Red l x r)
  | rb_Black n cl cr l x r : rb cl n l -> rb cr n r -> rb Black (S n) (Node Black l x r).

(** [rb_path p c n]: [p] with a subtree [rb c n] at its end is a tree that
    obeys the rules and has a black root. *)
Inductive rb_path : path -> color -> nat -> Prop :=
  | rp_root n : rb_path [] Black n
  | rp_red s x o p n : rb Black n o -> rb_path p Red n -> rb_path (mk_frame s Red x o :: p) Black n
  | rp_black s x o p n c co : rb co n o -> rb_path p Black (S n) -> rb_path (mk_frame s Black x o :: p) c n.

#[export] Hint Constructors rb rb_path : kernel.

Definition rb_tree (t : tree) : Prop := exists n, rb Black n t.

Lemma rb_plug (p : path) (c : color) (n : nat) (t : tree) :
  rb_path p c n -> rb c n t -> rb_tree (plug p t).
Proof.
  intros Hp. revert t. induction Hp as [n|s x o p n Ho Hp IH|s x o p n c co Ho Hp IH]; intros t Ht; simpl.
  - by exists n.
  - apply IH. destruct s; simpl; eauto with kernel.
  - apply IH. destruct s; simpl; eauto with kernel.
Qed.

Lemma rb_unplug (p : path) (t : tree) :
  rb_tree (plug p t) -> exists c n, rb c n t /\ rb_path p c n.
Proof.
  revert t. induction p as [|[s c x o] p IH]; intros t H; simpl in *.
  - destruct H as [n H]. eauto with kernel.
  - apply IH in H as (c' & n & H & Hp).
    destruct s; simpl in H; inversion H; subst; eauto 6 with kernel.
Qed.

Lemma rb_is_red (c : color) (n : nat) (t : tree) : rb c n t -> is_red t = bool_decide (c = Red).
Proof. by intros []. Qed.

Lemma rb_set_black (c : color) (n : nat) (t : tree) :
  rb c n t -> exists m, rb Black m (set_black t) /\ (c = Red -> m = S n) /\ (c = Black -> m = n).
Proof.
  intros [|m l x r Hl Hr|m cl cr l x r Hl Hr]; simpl;
    eexists; (split; [eauto with kernel|by split]).
Qed.

Lemma rb_path_red (p : path) (n : nat) : rb_path p Red n -> rb_path p Black n.
Proof. inversion 1; subst; eauto with kernel. Qed.
#[export] Hint Resolve rb_path_red : kernel.

(** ** Insertion keeps the rules *)

Lemma insert_rotate_inorder (g f : frame) (node t : tree) :
  insert_rotate g f node = Some t -> inorder t = inorder (plug1 g (plug1 f node)).
Proof.
  unfold insert_rotate. intros H.
  destruct g as [[] gc gx go], f as [[] fc fx fo]; simpl in *; destruct node; simpl in *; simplify_eq;
    inorder_tac.
Qed.

Lemma insert_rotate_rb (g f : frame) (n : nat) (node : tree) :
  f_color f = Red -> rb Black n (f_other f) -> rb Black n (f_other g) -> rb Red n node ->
  exists t, insert_rotate g f node = Some t /\ rb Black (S n) t.
Proof.
  intros Hc Ho Hg Hn. inversion Hn as [|? l x r Hl Hr|]; subst.
  destruct g as [[] gc gx go], f as [[] fc fx fo]; simpl in *; subst; simpl;
    eexists; (split; [reflexivity|]); eauto 8 with kernel.
Qed.

Lemma insert_loop_spec (p : path) : forall (n : nat) (node : tree),
  rb_path p Black n -> rb Red n node ->
  exists t, insert_loop p node = Some t /\ inorder t = inorder (plug p node) /\
    exists c m, rb c m t.
Proof.
  assert (H : forall k p, (length p <= k)%nat -> forall (n : nat) (node : tree),
    rb_path p Black n -> rb Red n node ->
    exists t, insert_loop p node = Some t /\ inorder t = inorder (plug p node) /\ exists c m, rb c m t).
  2:{ intros n node Hp Hn. by apply (H (length p) p (le_n _) n node). }
  clear p. induction k as [|k IH]; intros p Hk n node Hp Hn.
  { destruct p; simpl in *; [|lia]. exists node. eauto. }
  inversion Hp as [|s x o p1 ? Ho Hp1|s x o p1 ? ? co Ho Hp1]; subst; simpl.
  - exists node. eauto.
  - inversion Hp1 as [| |gs gx go p2 ? ? gc Hgo Hp2]; subst. simpl.
    rewrite (rb_is_red _ _ _ Hgo). case_bool_decide as Hgc.
    + subst gc. inversion Hgo as [|? ul ux ur Hul Hur|]; subst. simpl.
      match goal with |- context [insert_loop p2 ?t] => set (node' := t) end.
      assert (Hn' : rb Red (S n) node') by (destruct gs, s; simpl; eauto 6 with kernel).
      destruct (IH p2 ltac:(simpl in Hk; lia) (S n) node' Hp2 Hn') as (t & Ht & Hi & Hrb).
      exists t. split_and!; [done| |done]. rewrite Hi, !inorder_plug. by destruct gs, s.
    + destruct gc; [done|].
      destruct (insert_rotate_rb (mk_frame gs Black gx go) (mk_frame s Red x o) n node)
        as (t & E & Ht); [done..|]. rewrite E. simpl.
      destruct (rb_plug p2 Black (S n) t Hp2 Ht) as [m Hm].
      exists (plug p2 t). split_and!; [done| |eauto].
      by rewrite !inorder_plug, (insert_rotate_inorder _ _ _ _ E).
  - destruct (rb_plug (mk_frame s Black x o :: p1) Red n node) as [m Hm]; [eauto with kernel|done|].
    eexists. split; [done|]. split; [done|]. by exists Black, m.
Qed.

(** Linking a new node at an empty link and calling rb_insert_color(). *)
Lemma rb_insert_spec (p : path) (x : Z) :
  rb_tree (plug p Null) ->
  exists t, rb_insert_color p (rb_link_node x) = Some t /\ rb_tree t /\
    inorder t = before p ++ x :: after p.
Proof.
  intros (c & n & Hn & Hp)%rb_unplug. inversion Hn; subst.
  destruct (insert_loop_spec p 0 (rb_link_node x)) as (t & E & Hi & c & m & Hm);
    [done|unfold rb_link_node; eauto with kernel|].
  unfold rb_insert_color. rewrite E. simpl. rewrite inorder_plug in Hi.
  destruct Hm as [|m l y r Hl Hr|m cl cr l y r Hl Hr]; simpl in *.
  - by destruct (before p).
  - eexists. split_and!; [done|eexists; eauto with kernel|done].
  - eexists. split_and!; [done|eexists; eauto with kernel|done].
Qed.

(** ** Removal keeps the rules *)

Lemma erase_rotate_inorder (f : frame) (node ol : tree) (o : Z) (or t : tree) :
  erase_rotate f node ol o or = Some t ->
  inorder t = inorder (plug1 (mk_frame (f_side f) (f_color f) (f_node f) (Node Black ol o or)) node).
Proof.
  unfold erase_rotate. destruct f as [[] fc fx fo]; simpl; intros H.
  - destruct (is_black or); destruct ol as [|[] ? ? ?], or as [|[] ? ? ?]; simpl in *; simplify_eq; inorder_tac.
  - destruct (is_black ol); destruct ol as [|[] ? ? ?], or as [|[] ? ? ?]; simpl in *; simplify_eq; inorder_tac.
Qed.

(** The short side has [n] black nodes, the sibling [n] below its black root
    and a red child; the result has the parent's colour and the height the
    path expects. *)
Lemma erase_rotate_rb (f : frame) (n : nat) (node ol : tree) (o : Z) (or : tree) (c1 c2 : color) :
  rb Black n node -> rb c1 n ol -> rb c2 n or -> is_black ol && is_black or = false ->
  exists t, erase_rotate f node ol o or = Some t /\
    rb (f_color f) (match f_color f with Red => S n | Black => S (S n) end) t.
Proof.
  intros Hn Hl Hr Hb. unfold erase_rotate.
  destruct f as [s fc fx fo]; simpl.
  inversion Hl as [|? ll lx lr Hll Hlr|? ? ? ll lx lr Hll Hlr]; subst;
  inversion Hr as [|? rl rx rr Hrl Hrr|? ? ? rl rx rr Hrl Hrr]; subst; simpl in *; try done;
  destruct s; simpl; eexists; (split; [reflexivity|]); destruct fc; eauto 10 with kernel.
Qed.

Lemma set_black_rb_tree (t : tree) : rb_tree t -> rb_tree (set_black t).
Proof. intros [n H]. destruct (rb_set_black _ _ _ H) as (m & Hm & _). by exists m. Qed.

Lemma is_black_rb (c : color) (n : nat) (t : tree) : rb c n t -> is_black t = true -> c = Black.
Proof. intros H. unfold is_black. rewrite (rb_is_red _ _ _ H). by destruct c. Qed.

(** A round with a black sibling, given what the rest of the loop does for the
    parent. *)
Lemma erase_round (fuel : nat) s fc fx (ol : tree) o (or : tree) (p : path) (n : nat) (node : tree) c1 c2 :
  rb Black n node -> rb c1 n ol -> rb c2 n or ->
  rb_path p fc (match fc with Red => S n | Black => S (S n) end) ->
  (0 < fuel)%nat ->
  (forall node', fc = Black -> rb Black (S n) node' -> exists t,
     rb_erase_color fuel p node' = Some t /\ rb_tree t /\ inorder t = inorder (plug p node')) ->
  let f := mk_frame s fc fx (Node Black ol o or) in
  exists t,
    (if is_black ol && is_black or then
       rb_erase_color fuel p (plug1 (mk_frame s fc fx (Node Red ol o or)) node)
     else sub ← erase_rotate f node ol o or; Some (set_black (plug p sub))) = Some t /\
    rb_tree t /\ inorder t = inorder (plug p (plug1 f node)).
Proof.
  intros Hn Hl Hr Hp Hfuel Hrest f. destruct (is_black ol && is_black or) eqn:Eb.
  - apply andb_true_iff in Eb as [Hbl Hbr].
    rewrite (is_black_rb _ _ _ Hl Hbl) in Hl. rewrite (is_black_rb _ _ _ Hr Hbr) in Hr.
    destruct fc.
    + destruct fuel as [|fuel]; [lia|]. destruct s; simpl; eexists; (split; [reflexivity|]); split.
      1, 3: apply (rb_plug p Black (S n)); eauto with kernel.
      all: inorder_tac.
    + edestruct Hrest as (t & E & Ht & Hi); [done| |rewrite E].
      { destruct s; simpl; eauto with kernel. }
      exists t. split_and!; [done..|]. rewrite Hi. destruct s; inorder_tac.
  - destruct (erase_rotate_rb f n node ol o or c1 c2) as (t & E & Ht); [done..|].
    rewrite E. simpl. eexists. split; [done|]. split.
    + apply set_black_rb_tree, (rb_plug p _ _ t Hp). by destruct fc.
    + rewrite set_black_inorder, !inorder_plug, (erase_rotate_inorder _ _ _ _ _ _ E). done.
Qed.

Lemma rb_black_inv (n : nat) (t : tree) :
  rb Black (S n) t -> exists c1 c2 l x r, t = Node Black l x r /\ rb c1 n l /\ rb c2 n r.
Proof. inversion 1; subst. by do 5 eexists. Qed.

Lemma rb_erase_color_spec (fuel : nat) : forall (p : path) (n : nat) (node : tree),
  (S (length p) < fuel)%nat -> rb_path p Black (S n) -> rb Black n node ->
  exists t, rb_erase_color fuel p node = Some t /\ rb_tree t /\ inorder t = inorder (plug p node).
Proof.
  induction fuel as [|fuel IH]; intros p n node Hf Hp Hn; [lia|]. simpl.
  rewrite (rb_is_red _ _ _ Hn), bool_decide_eq_false_2 by done.
  inversion Hp as [|s x o p1 ? Ho Hp1|s x o p1 ? ? co Ho Hp1]; subst; simpl in Hf.
  - exists (set_black node). split_and!; [done|apply set_black_rb_tree; by exists n|].
    by rewrite set_black_inorder.
  - apply rb_black_inv in Ho as (c1 & c2 & ol & o' & or & -> & Hl & Hr). simpl.
    apply (erase_round fuel s Red x ol o' or p1 n node c1 c2); [done..|lia|done].
  - destruct co.
    + inversion Ho as [|? ol o' or Hl Hr|]; subst. destruct s; simpl.
      * apply rb_black_inv in Hl as (c1 & c2 & a & y & b & -> & Ha & Hb).
        destruct (erase_round fuel Lft Red x a y b (mk_frame Lft Black o' or :: p1) n node c1 c2)
          as (t & E & Ht & Hi); [done..|eauto with kernel|lia|done|].
        exists t. split_and!; [exact E|done|]. rewrite Hi. inorder_tac.
      * apply rb_black_inv in Hr as (c1 & c2 & a & y & b & -> & Ha & Hb).
        destruct (erase_round fuel Rgt Red x a y b (mk_frame Rgt Black o' ol :: p1) n node c1 c2)
          as (t & E & Ht & Hi); [done..|eauto with kernel|lia|done|].
        exists t. split_and!; [exact E|done|]. rewrite Hi. inorder_tac.
    + apply rb_black_inv in Ho as (c1 & c2 & ol & o' & or & -> & Hl & Hr). simpl.
      apply (erase_round fuel s Black x ol o' or p1 n node c1 c2); [done..|lia|].
      intros node' _ Hn'. apply (IH p1 (S n)); [lia|done..].
Qed.

(** Putting [child], one black node short, at the end of the path. *)
Lemma erase_color_spec (p : path) (c : color) (n : nat) (child : tree) :
  rb_path p Black (S n) -> rb c n child ->
  exists t, erase_color p child = Some t /\ rb_tree t /\ inorder t = inorder (plug p child).
Proof.
  intros Hp Hc. destruct c.
  - inversion Hc as [|? l x r Hl Hr|]; subst. simpl. eexists. split; [done|]. split.
    + apply (rb_plug p Black (S n)); eauto with kernel.
    + by rewrite !inorder_plug.
  - apply (rb_erase_color_spec _ p n); [lia|done..].
Qed.

Lemma leftmost_spec (l : tree) : forall (c : color) (x : Z) (r : tree) (p : path) q nc y child,
  leftmost c l x r p = (q, nc, y, child) -> plug q (Node nc Null y child) = plug p (Node c l x r).
Proof.
  induction l as [|c' l' IHl x' r' _]; intros c x r p q nc y child; simpl.
  - by intros [= -> -> -> ->].
  - intros H. apply IHl in H. by rewrite H.
Qed.

Lemma locate_spec (x : Z) (t : tree) : forall (p q : path) (node : tree),
  locate x t p = Some (q, node) ->
  plug q node = plug p t /\ exists c l r, node = Node c l x r.
Proof.
  induction t as [|c l IHl y r IHr]; intros p q node; simpl; [done|].
  destruct (Z.eqb_spec x y) as [->|].
  - intros [= -> <-]. eauto.
  - destruct (locate x l _) as [[q' node']|] eqn:E.
    + intros [= -> ->]. by apply IHl in E.
    + intros H. by apply IHr in H.
Qed.

Lemma locate_some (x : Z) (t : tree) (p : path) : x ∈ inorder t -> is_Some (locate x t p).
Proof.
  revert p. induction t as [|c l IHl y r IHr]; intros p; simpl; [by intros ?%not_elem_of_nil|].
  rewrite elem_of_app, elem_of_cons. intros Hx. destruct (Z.eqb_spec x y); [by eexists|].
  destruct (locate x l _) eqn:E; [by eexists|]. destruct Hx as [Hx|[Hx|Hx]]; [|done|by apply IHr].
  apply (IHl (mk_frame Lft c y r :: p)) in Hx as [? Hx]. congruence.
Qed.

(** Unlinking a node of which at most one child, [child], is not NULL. *)
Lemma erase_at (p : path) (nc : color) (n : nat) (a : tree) (x : Z) (b child : tree) :
  rb nc n (Node nc a x b) -> rb_path p nc n -> child = a \/ child = b ->
  exists t, (if bool_decide (nc = Black) then erase_color p child else Some (plug p child)) = Some t /\
    rb_tree t /\ inorder t = inorder (plug p child).
Proof.
  intros H Hp Hc. inversion H as [|? ? ? ? Ha Hb|m ca cb ? ? ? Ha Hb]; subst.
  - rewrite bool_decide_eq_false_2 by done. eexists. split_and!; [done| |done].
    apply (rb_plug p Black n); [eauto with kernel|]. by destruct Hc as [-> | ->].
  - rewrite bool_decide_eq_true_2 by done. destruct Hc as [-> | ->]; by eapply erase_color_spec.
Qed.

Lemma rb_path_rename (q p : path) s c x y o (c' : color) (n : nat) :
  rb_path (q ++ mk_frame s c x o :: p) c' n -> rb_path (q ++ mk_frame s c y o :: p) c' n.
Proof.
  revert c' n. induction q as [|f q IH]; intros c' n; simpl; intros H; inversion H; subst; eauto with kernel.
Qed.

Lemma leftmost_before (l : tree) : forall (c : color) (x : Z) (r : tree) (p : path) q nc y child,
  leftmost c l x r p = (q, nc, y, child) -> before q = before p.
Proof.
  induction l as [|c' l' IHl x' r' _]; intros c x r p q nc y child; simpl.
  - by intros [= -> _ _ _].
  - intros H. apply IHl in H. rewrite H. simpl. by rewrite app_nil_r.
Qed.

Lemma rb_erase_spec (x : Z) (t : tree) :
  rb_tree t -> NoDup (inorder t) -> x ∈ inorder t ->
  exists t', rb_erase x t = Some t' /\ rb_tree t' /\ inorder t' = list_del x (inorder t).
Proof.
  intros Ht Hnd Hx. destruct (locate_some x t [] Hx) as [[p node] E].
  unfold rb_erase. rewrite E. cbn [mbind option_bind].
  apply locate_spec in E as (Hplug & c & l & r & ->). simpl in Hplug. subst t.
  apply rb_unplug in Ht as (c' & n & Hn & Hp). assert (c' = c) as -> by (by inversion Hn).
  rewrite inorder_plug in Hnd |- *. simpl in Hnd |- *.
  assert (Hdel : list_del x (before p ++ (inorder l ++ x :: inorder r) ++ after p) =
    before p ++ inorder l ++ inorder r ++ after p).
  { replace (before p ++ (inorder l ++ x :: inorder r) ++ after p) with
      ((before p ++ inorder l) ++ x :: (inorder r ++ after p)) in Hnd |- * by inorder_tac.
    rewrite list_del_nodup by done. inorder_tac. }
  rewrite Hdel. clear Hdel.
  assert (Hone : forall child, child = r /\ l = Null \/ child = l /\ r = Null ->
    exists t', (if bool_decide (c = Black) then erase_color p child else Some (plug p child)) = Some t' /\
      rb_tree t' /\ inorder t' = before p ++ inorder l ++ inorder r ++ after p).
  { intros child Hc. destruct (erase_at p c n l x r child) as (t' & -> & Hrb & Hi); [done..|tauto|].
    eexists. split_and!; [done..|]. rewrite Hi, inorder_plug. by destruct Hc as [[-> ->]|[-> ->]]. }
  destruct l as [|lc ll lx lr]; [by apply (Hone r); left|].
  destruct r as [|rc rl rx rr]; [by apply (Hone (Node lc ll lx lr)); right|]. clear Hone.
  destruct (leftmost rc rl rx rr []) as [[[q nc] y] child] eqn:El.
  pose proof (leftmost_before _ _ _ _ _ _ _ _ _ El) as Hq. apply leftmost_spec in El. simpl in Hq, El.
  set (l := Node lc ll lx lr) in *. rewrite <- El in *. clear El.
  destruct (rb_unplug (q ++ mk_frame Rgt c x l :: p) (Node nc Null y child)) as (c2 & m & H2 & Hp2).
  { rewrite plug_app. simpl. by eapply rb_plug. }
  assert (c2 = nc) as -> by (by inversion H2). apply (rb_path_rename q p Rgt c x y) in Hp2.
  destruct (erase_at _ nc m Null y child child H2 Hp2) as (t' & E & Ht' & Hi); [by right|].
  exists t'. split_and!; [exact E|done|]. rewrite Hi, plug_app. inorder_tac. by rewrite Hq.
Qed.

(** ** Walks *)

Lemma rb_walk_inl (go : Z -> option verdict) (t : tree) : forall (p0 : path) (A B : list Z),
  inorder t = A ++ B ->
  (forall y, y ∈ A -> go y = Some (Go Rgt)) -> (forall y, y ∈ B -> go y = Some (Go Lft)) ->
  exists p, rb_walk go t p0 = Some (inl p) /\ plug p Null = plug p0 t /\
    before p = before p0 ++ A /\ after p = B ++ after p0.
Proof.
  induction t as [|c l IHl x r IHr]; intros p0 A B Hi HA HB; simpl in *.
  - symmetry in Hi. apply app_nil in Hi as [-> ->]. exists p0. by rewrite app_nil_r.
  - assert (Hcase : (exists B', B = B' ++ x :: inorder r /\ inorder l = A ++ B') \/
                    (exists A', A = inorder l ++ x :: A' /\ inorder r = A' ++ B)).
    { apply app_eq_inv in Hi as [(k & E & ->)|(k & -> & E)]; [left; by exists k|].
      destruct k as [|z k]; simpl in E.
      - left. exists []. by rewrite !app_nil_r.
      - right. injection E as -> E. by exists k. }
    destruct Hcase as [(B' & -> & Hl)|(A' & -> & Hr)].
    + rewrite HB by set_solver. simpl.
      destruct (IHl (mk_frame Lft c x r :: p0) A B' Hl) as (p & Hw & Hp & Hb & Ha);
        [done|intros; apply HB; set_solver|].
      exists p. split_and!; [done|done|by rewrite Hb; simpl; rewrite app_nil_r|].
      rewrite Ha. simpl. by rewrite <- app_assoc.
    + rewrite HA by set_solver. simpl.
      destruct (IHr (mk_frame Rgt c x l :: p0) A' B Hr) as (p & Hw & Hp & Hb & Ha);
        [intros; apply HA; set_solver|done|].
      exists p. split_and!; [done|done| |done]. rewrite Hb. simpl. by rewrite <- !app_assoc.
Qed.

Lemma rb_walk_inr (go : Z -> option verdict) (t : tree) : forall (p0 : path) (A B : list Z) (x : Z),
  inorder t = A ++ x :: B ->
  (forall y, y ∈ A -> go y = Some (Go Rgt)) -> (forall y, y ∈ B -> go y = Some (Go Lft)) ->
  go x = Some Stop -> rb_walk go t p0 = Some (inr x).
Proof.
  induction t as [|c l IHl z r IHr]; intros p0 A B x Hi HA HB Hx; simpl in *.
  - by destruct A.
  - assert (Hcase : z = x \/ (exists B', B = B' ++ z :: inorder r /\ inorder l = A ++ x :: B') \/
                    (exists A', A = inorder l ++ z :: A' /\ inorder r = A' ++ x :: B)).
    { apply app_eq_inv in Hi as [(k & E & Hk)|(k & -> & Hk)];
        (destruct k as [|w k]; simpl in Hk; [left; congruence|]); injection Hk as -> Hk; right; eauto. }
    destruct Hcase as [->|[(B' & -> & Hl)|(A' & -> & Hr)]].
    + by rewrite Hx.
    + rewrite HB by set_solver. simpl. apply (IHl _ A B'); [done|done|intros; apply HB; set_solver|done].
    + rewrite HA by set_solver. simpl. apply (IHr _ A' B); [done|intros; apply HA; set_solver|done|done].
Qed.

Lemma rb_insert_walk (go : Z -> option verdict) (t : tree) (x : Z) (A B : list Z) :
  rb_tree t -> inorder t = A ++ B ->
  (forall y, y ∈ A -> go y = Some (Go Rgt)) -> (forall y, y ∈ B -> go y = Some (Go Lft)) ->
  exists p t', rb_walk go t [] = Some (inl p) /\ rb_insert_color p (rb_link_node x) = Some t' /\
    rb_tree t' /\ inorder t' = A ++ x :: B.
Proof.
  intros Ht Hi HA HB. destruct (rb_walk_inl go t [] A B Hi HA HB) as (p & Hw & Hp & Hb & Ha).
  destruct (rb_insert_spec p x) as (t' & E & Ht' & Hi'); [by rewrite Hp|].
  exists p, t'. rewrite Hi', Hb, Ha. simpl. by rewrite app_nil_r.
Qed.

(** C28. Insertion into a red-black tree: when the caller's comparison sends
    the walk right at a first part [A] of the in-order sequence and left at
    the rest [B], the walk ends at an empty link, linking the new node there
    and rb_insert_color() never follow a NULL pointer, the result obeys the
    colour rules again, and its in-order sequence has the new node between [A]
    and [B]. *)
Theorem rb_insert_correct (go : Z -> option verdict) (t : tree) (x : Z) (A B : list Z) :
  rb_tree t -> inorder t = A ++ B ->
  (forall y, y ∈ A -> go y = Some (Go Rgt)) -> (forall y, y ∈ B -> go y = Some (Go Lft)) ->
  exists p t', rb_walk go t [] = Some (inl p) /\ rb_insert_color p (rb_link_node x) = Some t' /\
    rb_tree t' /\ inorder t' = A ++ x :: B.
Proof. apply rb_insert_walk. Qed.

(** Insertion by address. *)
Definition by_address (x y : Z) : option verdict :=
  Some (if x <? y then Go Lft else if y <? x then Go Rgt else Stop).

Definition insert_address (x : Z) (t : tree) : option tree :=
  w ← rb_walk (by_address x) t [];
  match w with
  | inl p => rb_insert_color p (rb_link_node x)
  | inr _ => None
  end.

Definition tree_of (xs : list Z) : option tree :=
  foldl (fun t x => t ← t; insert_address x t) (Some Null) xs.

Definition example_tree : tree := default Null (tree_of [1; 2; 3; 4; 6; 7; 8; 9; 10]).

Lemma example_tree_rb : rb_tree example_tree.
Proof. eexists. vm_compute. repeat econstructor. Qed.

Lemma rb_insert_correct_witness :
  exists p t', rb_walk (by_address 5) example_tree [] = Some (inl p) /\
    rb_insert_color p (rb_link_node 5) = Some t' /\ rb_tree t' /\
    inorder t' = [1; 2; 3; 4] ++ 5 :: [6; 7; 8; 9; 10].
Proof.
  apply (rb_insert_correct (by_address 5) example_tree 5 [1; 2; 3; 4] [6; 7; 8; 9; 10]);
    [apply example_tree_rb|reflexivity|..];
    intros y Hy; repeat (apply elem_of_cons in Hy as [->|Hy]; [reflexivity|]); by apply not_elem_of_nil in Hy.
Defined.

(** C29. rb_erase() of a node of a red-black tree never follows a NULL pointer,
    its loop ends, the result obeys the colour rules, and its in-order
    sequence is the old one without the node. *)
Theorem rb_erase_correct (x : Z) (t : tree) :
  rb_tree t -> NoDup (inorder t) -> x ∈ inorder t ->
  exists t', rb_erase x t = Some t' /\ rb_tree t' /\ inorder t' = list_del x (inorder t).
Proof. apply rb_erase_spec. Qed.

Lemma rb_erase_correct_witness :
  exists t', rb_erase 4 example_tree = Some t' /\ rb_tree t' /\
    inorder t' = list_del 4 (inorder example_tree).
Proof.
  apply (rb_erase_correct 4 example_tree); [apply example_tree_rb|..].
  - apply (bool_decide_unpack _). vm_compute. exact I.
  - apply (bool_decide_unpack _). vm_compute. exact I.
Defined.

(** ** Traversal *)

Lemma rb_first_head (t : tree) : rb_first t = head (inorder t).
Proof.
  induction t as [|c l IHl x r _]; [done|]. simpl. destruct l; [done|].
  rewrite IHl. simpl. by destruct (inorder l1).
Qed.

Lemma last_inorder (c : color) (l : tree) (x : Z) (r : tree) (k : list Z) :
  last (k ++ inorder (Node c l x r)) = last (inorder (Node c l x r)).
Proof.
  rewrite last_app. destruct (last (inorder (Node c l x r))) eqn:E; [done|].
  apply last_None in E. simpl in E. by destruct (inorder l).
Qed.

Lemma rb_last_last (t : tree) : rb_last t = last (inorder t).
Proof.
  induction t as [|c l _ x r IHr]; [done|]. destruct r as [|rc rl rx rr]; simpl rb_last.
  - simpl. by rewrite last_app.
  - simpl rb_last in IHr. rewrite IHr. change (inorder (Node c l x ?r)) with (inorder l ++ [x] ++ inorder r).
    by rewrite app_assoc, last_inorder.
Qed.

Lemma climb_head (p : path) : climb Lft p = head (after p).
Proof. induction p as [|[[] c x o] p IH]; simpl; auto. Qed.

Lemma climb_last (p : path) : climb Rgt p = last (before p).
Proof.
  induction p as [|[[] c x o] p IH]; simpl; [done|by rewrite app_nil_r|].
  by rewrite app_assoc, last_snoc.
Qed.

(** Where a node stands in the tree and in the in-order sequence. *)
Lemma locate_split (x : Z) (t : tree) (A B : list Z) :
  inorder t = A ++ x :: B -> NoDup (inorder t) ->
  exists p c l r, locate x t [] = Some (p, Node c l x r) /\ plug p (Node c l x r) = t /\
    A = before p ++ inorder l /\ B = inorder r ++ after p.
Proof.
  intros Hi Hnd. destruct (locate_some x t []) as [[p node] E]; [rewrite Hi; set_solver|].
  destruct (locate_spec _ _ _ _ _ E) as (Hp & c & l & r & ->). simpl in Hp.
  exists p, c, l, r. split; [done|]. split; [done|].
  pose proof (inorder_plug p (Node c l x r)) as Hi2. rewrite Hp, Hi in Hi2. simpl in Hi2.
  rewrite Hi in Hnd. rewrite <- app_assoc, app_assoc in Hi2. simpl in Hi2.
  by apply NoDup_middle_eq in Hi2.
Qed.

Lemma rb_next_spec (t : tree) (A B : list Z) (x : Z) :
  inorder t = A ++ x :: B -> NoDup (inorder t) -> rb_next t x = Some (head B).
Proof.
  intros Hi Hnd. destruct (locate_split x t A B Hi Hnd) as (p & c & l & r & E & Hp & -> & ->).
  unfold rb_next. rewrite E. cbn [mbind option_bind].
  destruct r; [by rewrite climb_head|]. rewrite rb_first_head. simpl. by destruct (inorder r1).
Qed.

(** rb_next() and rb_prev() of a node that stands between [A] and [B] in
    the in-order sequence are the first node of [B] and the last of [A], or
    NULL at the ends; rb_first() and rb_last() are the ends of the sequence;
    rb_replace_node() puts the new node in its place and keeps the colour
    rules. *)
Lemma rb_traversal_correct (t : tree) (A B : list Z) (x y : Z) :
  inorder t = A ++ x :: B -> NoDup (inorder t) ->
  rb_next t x = Some (head B) /\ rb_prev t x = Some (last A) /\
  rb_first t = head (inorder t) /\ rb_last t = last (inorder t) /\
  exists t', rb_replace_node x y t = Some t' /\ inorder t' = A ++ y :: B /\ (rb_tree t -> rb_tree t').
Proof.
  intros Hi Hnd. split; [by apply (rb_next_spec t A)|].
  destruct (locate_split x t A B Hi Hnd) as (p & c & l & r & E & Hp & -> & ->).
  unfold rb_prev, rb_replace_node. rewrite E. cbn [mbind option_bind].
  split_and!; [|apply rb_first_head|apply rb_last_last|].
  - destruct l as [|lc ll lx lr]; [by rewrite climb_last; simpl; rewrite app_nil_r|].
    by rewrite rb_last_last, last_inorder.
  - eexists. split; [done|]. split; [inorder_tac|]. rewrite <- Hp.
    intros (c' & n & H & Hpath)%rb_unplug. apply (rb_plug p c' n); [done|].
    inversion H; subst; eauto with kernel.
Qed.

(** ** The cost of a walk *)

Fixpoint walk_visits (go : Z -> option verdict) (t : tree) : Z :=
  match t with
  | Null => 0
  | Node _ l x r =>
      1 + match go x with
          | Some (Go Lft) => walk_visits go l
          | Some (Go Rgt) => walk_visits go r
          | _ => 0
          end
  end.

Lemma walk_visits_rb (go : Z -> option verdict) (c : color) (n : nat) (t : tree) :
  rb c n t -> walk_visits go t <= 2 * Z.of_nat n + match c with Red => 1 | Black => 0 end.
Proof.
  induction 1 as [|n l x r Hl IHl Hr IHr|n cl cr l x r Hl IHl Hr IHr]; simpl walk_visits; [lia|..];
    repeat case_match; lia.
Qed.

Lemma rb_size (c : color) (n : nat) (t : tree) : rb c n t -> 2 ^ Z.of_nat n <= Zlen (inorder t) + 1.
Proof.
  induction 1 as [|n l x r Hl IHl Hr IHr|n cl cr l x r Hl IHl Hr IHr]; simpl inorder; [done|..];
    rewrite length_app; simpl length; [|rewrite Nat2Z.inj_succ, Z.pow_succ_r by lia]; lia.
Qed.

(** A walk down a red-black tree of n nodes, whatever it compares, visits
    at most 2 log2(n + 1) of them. *)
Lemma rb_walk_logarithmic (go : Z -> option verdict) (t : tree) :
  rb_tree t -> walk_visits go t <= 2 * Z.log2 (Zlen (inorder t) + 1).
Proof.
  intros [n H]. pose proof (walk_visits_rb go _ _ _ H). pose proof (rb_size _ _ _ H).
  assert (Z.of_nat n <= Z.log2 (Zlen (inorder t) + 1)) by (apply Z.log2_le_pow2; lia). lia.
Qed.

End RbTree.
