(* ===== verification/BinderAlloc.v ===== *)
(** The buffer allocator of the binder driver (drivers/staging/android/binder.c,
    binder_buffer_size to binder_free_buf, and binder_mmap).

    A process maps an area of kernel memory; transactions to it are copied
    into buffers of the area.  Each buffer is a header followed by its data,
    the buffers follow one another without gaps, and pages of the area are
    backed by memory only where a header or the data of an allocated buffer
    needs it.  Free buffers are in a red-black tree by size, allocated ones in
    one by address.

    This file has the code, as operations on a process, and the arithmetic of
    its rounding and page ranges; BinderInv.v has the invariant and the
    theorems. *)

From S2P Require Import Prelude RbTree.
Local Open Scope Z_scope.
Local Open Scope kernel_scope.

Module BinderAlloc.
Import RbTree.

(** ** Data *)

(** The fields of struct binder_buffer other than its links. *)
Record binder_buffer := mk_buffer {
  free : bool;
  async_transaction : bool;
  transaction : option Z;
  data_size : Z;
  offsets_size : Z
}.

(** sizeof(struct binder_buffer) and offsetof(struct binder_buffer, data). *)
Definition sizeof_buffer : Z := 40.

(** What the allocator uses of struct binder_proc.  A buffer is known by its
    address; [headers] is the memory the headers are in, [pages] the indices
    of the entries of the page array that are not NULL, [npages] its length. *)
Record binder_proc := mk_proc {
  vma : bool;
  buffer : Z;
  buffer_size : Z;
  user_buffer_offset : Z;
  buffers : list Z;
  headers : gmap Z binder_buffer;
  free_buffers : tree;
  allocated_buffers : tree;
  free_async_space : Z;
  pages : gset Z;
  npages : Z
}.

Definition set_buffers (p : binder_proc) (l : list Z) : binder_proc :=
  mk_proc (vma p) (buffer p) (buffer_size p) (user_buffer_offset p) l (headers p)
    (free_buffers p) (allocated_buffers p) (free_async_space p) (pages p) (npages p).
Definition set_headers (p : binder_proc) (h : gmap Z binder_buffer) : binder_proc :=
  mk_proc (vma p) (buffer p) (buffer_size p) (user_buffer_offset p) (buffers p) h
    (free_buffers p) (allocated_buffers p) (free_async_space p) (pages p) (npages p).
Definition set_free_buffers (p : binder_proc) (t : tree) : binder_proc :=
  mk_proc (vma p) (buffer p) (buffer_size p) (user_buffer_offset p) (buffers p) (headers p)
    t (allocated_buffers p) (free_async_space p) (pages p) (npages p).
Definition set_allocated_buffers (p : binder_proc) (t : tree) : binder_proc :=
  mk_proc (vma p) (buffer p) (buffer_size p) (user_buffer_offset p) (buffers p) (headers p)
    (free_buffers p) t (free_async_space p) (pages p) (npages p).
Definition set_free_async_space (p : binder_proc) (n : Z) : binder_proc :=
  mk_proc (vma p) (buffer p) (buffer_size p) (user_buffer_offset p) (buffers p) (headers p)
    (free_buffers p) (allocated_buffers p) n (pages p) (npages p).
Definition set_pages (p : binder_proc) (s : gset Z) : binder_proc :=
  mk_proc (vma p) (buffer p) (buffer_size p) (user_buffer_offset p) (buffers p) (headers p)
    (free_buffers p) (allocated_buffers p) (free_async_space p) s (npages p).

Definition ALIGN4 (x : Z) : Z := (x +ᵤ 3) &ᵤ 0xFFFFFFFC.

(** buffer->data *)
Definition data (b : Z) : Z := b + sizeof_buffer.

Definition buffer_start_page (b : Z) : Z := PAGE_MASK b.
Definition buffer_end_page (b : Z) : Z := PAGE_MASK (b + sizeof_buffer - 1).

(** ** Headers and links

    Touching a header whose pages are not there is a page fault, [None]. *)

Definition page_index (p : binder_proc) (addr : Z) : Z := (addr - buffer p) / PAGE_SIZE.

Definition header_mapped (p : binder_proc) (b : Z) : bool :=
  bool_decide (page_index p (buffer_start_page b) ∈ pages p) &&
  bool_decide (page_index p (buffer_end_page b) ∈ pages p).

Definition header (p : binder_proc) (b : Z) : option binder_buffer :=
  if header_mapped p b then headers p !! b else None.

Definition set_header (p : binder_proc) (b : Z) (h : binder_buffer) : option binder_proc :=
  if header_mapped p b then Some (set_headers p (<[b := h]> (headers p))) else None.

Definition set_free (h : binder_buffer) (f : bool) : binder_buffer :=
  mk_buffer f (async_transaction h) (transaction h) (data_size h) (offsets_size h).

(** buffer->transaction = t, or NULL when the transaction is done with. *)
Definition set_transaction (h : binder_buffer) (t : option Z) : binder_buffer :=
  mk_buffer (free h) (async_transaction h) t (data_size h) (offsets_size h).

(** entry.next and entry.prev: the outer [None] is a buffer that is not in the
    list, the inner one the list head. *)
Fixpoint list_next (b : Z) (l : list Z) : option (option Z) :=
  match l with
  | [] => None
  | x :: l' => if b =? x then Some (head l') else list_next b l'
  end.

Fixpoint list_prev (b : Z) (l : list Z) (before : option Z) : option (option Z) :=
  match l with
  | [] => None
  | x :: l' => if b =? x then Some before else list_prev b l' (Some x)
  end.

(** list_add(&new->entry, &b->entry) *)
Fixpoint list_add (new b : Z) (l : list Z) : list Z :=
  match l with
  | [] => []
  | x :: l' => if b =? x then x :: new :: l' else x :: list_add new b l'
  end.

Definition binder_buffer_size (p : binder_proc) (b : Z) : option Z :=
  n ← list_next b (buffers p);
  match n with
  | None => Some (buffer p + buffer_size p -ᵤ data b)
  | Some next => Some (next -ᵤ data b)
  end.

(** ** The trees *)

Definition free_go (p : binder_proc) (new_size y : Z) : option verdict :=
  h ← header p y;
  _ ← BUG_ON (negb (free h));
  sz ← binder_buffer_size p y;
  Some (Go (if new_size <? sz then Lft else Rgt)).

Definition binder_insert_free_buffer (p : binder_proc) (new_buffer : Z) : option binder_proc :=
  h ← header p new_buffer;
  _ ← BUG_ON (negb (free h));
  new_size ← binder_buffer_size p new_buffer;
  w ← rb_walk (free_go p new_size) (free_buffers p) [];
  match w with
  | inl path =>
      t ← rb_insert_color path (rb_link_node new_buffer);
      Some (set_free_buffers p t)
  | inr _ => None
  end.

Definition allocated_go (p : binder_proc) (new_buffer y : Z) : option verdict :=
  h ← header p y;
  _ ← BUG_ON (free h);
  Some (if new_buffer <? y then Go Lft else if y <? new_buffer then Go Rgt else Stop).

Definition binder_insert_allocated_buffer (p : binder_proc) (new_buffer : Z) : option binder_proc :=
  h ← header p new_buffer;
  _ ← BUG_ON (free h);
  w ← rb_walk (allocated_go p new_buffer) (allocated_buffers p) [];
  match w with
  | inl path =>
      t ← rb_insert_color path (rb_link_node new_buffer);
      Some (set_allocated_buffers p t)
  | inr _ => None
  end.

(** The buffer whose data the process knows by [user_ptr], or NULL. *)
Definition binder_buffer_lookup (p : binder_proc) (user_ptr : Z) : option (option Z) :=
  let kern_ptr := user_ptr - user_buffer_offset p -ᵤ sizeof_buffer in
  w ← rb_walk (allocated_go p kern_ptr) (allocated_buffers p) [];
  match w with
  | inl _ => Some None
  | inr b => Some (Some b)
  end.

(** ** Pages

    The memory management is a parameter: whether get_task_mm() gives an
    address space, and for each page what alloc_page(), map_vm_area() and
    vm_insert_page() do. *)

Inductive page_result := PageOk | AllocPageFailed | MapKernelFailed | VmInsertFailed.

Record mm_env := mk_env { task_mm : bool; page_try : Z -> page_result }.

(** The slot of a page; outside the array is undefined. *)
Definition page_slot (p : binder_proc) (addr : Z) : option Z :=
  let i := page_index p addr in
  if bool_decide (0 <= i < npages p) then Some i else None.

(** __free_page( *page); *page = NULL *)
Definition free_page (p : binder_proc) (addr : Z) : option binder_proc :=
  i ← page_slot p addr;
  if bool_decide (i ∈ pages p) then Some (set_pages p (pages p ∖ {[ i ]})) else None.

(** The loop after free_range: [n] pages downwards from [addr]. *)
Fixpoint free_range (n : nat) (p : binder_proc) (addr : Z) : option binder_proc :=
  match n with
  | O => Some p
  | S n => p ← free_page p addr; free_range n p (addr - PAGE_SIZE)
  end.

(** The allocation loop: [n] pages are left to do at [addr], [done] have been
    done.  A failure jumps into the loop above, for this page (if it had been
    allocated) and the ones before it. *)
Fixpoint alloc_range (env : mm_env) (n done : nat) (p : binder_proc) (addr : Z) :
    option (binder_proc * Z) :=
  match n with
  | O => Some (p, 0)
  | S n =>
      i ← page_slot p addr;
      _ ← BUG_ON (bool_decide (i ∈ pages p));
      match page_try env addr with
      | AllocPageFailed =>
          p ← free_range done p (addr - PAGE_SIZE); Some (p, - ENOMEM)
      | MapKernelFailed | VmInsertFailed =>
          p ← free_page (set_pages p ({[ i ]} ∪ pages p)) addr;
          p ← free_range done p (addr - PAGE_SIZE); Some (p, - ENOMEM)
      | PageOk =>
          alloc_range env n (S done) (set_pages p ({[ i ]} ∪ pages p)) (addr + PAGE_SIZE)
      end
  end.

(** [vma_arg] is the last argument, NULL but for the call from binder_mmap(). *)
Definition binder_update_page_range (env : mm_env) (p : binder_proc) (allocate : bool)
    (start end_ : Z) (vma_arg : bool) : option (binder_proc * Z) :=
  if end_ <=? start then Some (p, 0) else
  let vma' := if vma_arg then true else if task_mm env then vma p else false in
  if negb allocate then
    p ← free_range (Z.to_nat ((end_ - start) / PAGE_SIZE)) p (end_ - PAGE_SIZE);
    Some (p, - ENOMEM)
  else if negb vma' then Some (p, - ENOMEM)
  else alloc_range env (Z.to_nat ((end_ - start + PAGE_SIZE - 1) / PAGE_SIZE)) 0 p start.

(** ** Allocation *)

(** The search for the smallest buffer that fits: the best fit so far and
    whether the walk stopped at a buffer of just the size ([n] not NULL). *)
Fixpoint best_fit_walk (p : binder_proc) (size : Z) (t : tree) (best : option Z) :
    option (option Z * bool) :=
  match t with
  | Null => Some (best, false)
  | Node _ l x r =>
      h ← header p x;
      _ ← BUG_ON (negb (free h));
      bsz ← binder_buffer_size p x;
      if size <? bsz then best_fit_walk p size l (Some x)
      else if bsz <? size then best_fit_walk p size r best
      else Some (Some x, true)
  end.

Definition set_allocated (h : binder_buffer) (dsize osize : Z) (is_async : bool) : binder_buffer :=
  mk_buffer (free h) is_async (transaction h) dsize osize.

(** A new header in memory that held data: every field but [free] is whatever
    was there. *)
Definition new_header (p : binder_proc) (garbage : binder_buffer) (b : Z) : option binder_proc :=
  set_header p b (set_free garbage true).

Definition binder_alloc_buf (env : mm_env) (garbage : binder_buffer) (p : binder_proc)
    (dsize osize : Z) (is_async : bool) : option (binder_proc * option Z) :=
  if negb (vma p) then Some (p, None) else
  let size := ALIGN4 dsize +ᵤ ALIGN4 osize in
  if (size <? dsize) || (size <? osize) then Some (p, None) else
  if is_async && (free_async_space p <? size +ᵤ sizeof_buffer) then Some (p, None) else
  '(best_fit, exact) ← best_fit_walk p size (free_buffers p) None;
  match best_fit with
  | None => Some (p, None)
  | Some b =>
      bsize ← binder_buffer_size p b;
      let has_page_addr := PAGE_MASK (data b +ᵤ bsize) in
      let bsize := if (exact : bool) then bsize
                   else if bsize <=? size +ᵤ sizeof_buffer +ᵤ 4 then size
                   else size +ᵤ sizeof_buffer in
      let end_page_addr := Z.min (PAGE_ALIGN (data b +ᵤ bsize)) has_page_addr in
      '(p', ret) ← binder_update_page_range env p true (PAGE_ALIGN (data b)) end_page_addr false;
      if negb (ret =? 0) then Some (p', None) else
      t ← rb_erase b (free_buffers p');
      let p := set_free_buffers p' t in
      h ← header p b;
      p ← set_header p b (set_free h false);
      p ← binder_insert_allocated_buffer p b;
      p ← (if negb (bsize =? size) then
             let new_buffer := data b + size in
             let p := set_buffers p (list_add new_buffer b (buffers p)) in
             p ← new_header p garbage new_buffer;
             binder_insert_free_buffer p new_buffer
           else Some p);
      h ← header p b;
      p ← set_header p b (set_allocated h dsize osize is_async);
      let p := if is_async
               then set_free_async_space p (free_async_space p -ᵤ (size +ᵤ sizeof_buffer))
               else p in
      Some (p, Some b)
  end.

(** ** Release *)

(** The pages of a header that no neighbour shares: free_page_start and
    free_page_end. *)
Definition free_page_flags (b prev : Z) (next : option Z) : bool * bool :=
  let '(fs, fe) :=
    if buffer_end_page prev =? buffer_start_page b
    then (false, negb (buffer_end_page prev =? buffer_end_page b))
    else (true, true) in
  match next with
  | None => (fs, fe)
  | Some next =>
      if buffer_start_page next =? buffer_end_page b
      then (if buffer_start_page next =? buffer_start_page b then false else fs, false)
      else (fs, fe)
  end.

Definition binder_delete_free_buffer (env : mm_env) (p : binder_proc) (b : Z) : option binder_proc :=
  prev ← list_prev b (buffers p) None;
  match prev with
  | None => None
  | Some prev =>
      h ← header p prev;
      _ ← BUG_ON (negb (free h));
      next ← list_next b (buffers p);
      let '(fs, fe) := free_page_flags b prev next in
      let p := set_buffers p (list_del b (buffers p)) in
      if fs || fe then
        '(p, _) ← binder_update_page_range env p false
          (if fs then buffer_start_page b else buffer_end_page b)
          ((if fe then buffer_end_page b else buffer_start_page b) + PAGE_SIZE) false;
        Some p
      else Some p
  end.

(** Merge with the buffer after [b], when there is one and it is free. *)
Definition merge_next (env : mm_env) (p : binder_proc) (b : Z) : option binder_proc :=
  next ← list_next b (buffers p);
  match next with
  | None => Some p
  | Some next =>
      h ← header p next;
      if free h then
        t ← rb_erase next (free_buffers p);
        binder_delete_free_buffer env (set_free_buffers p t) next
      else Some p
  end.

(** Merge with the buffer before [b]; the buffer to put into the free tree. *)
Definition merge_prev (env : mm_env) (p : binder_proc) (b : Z) : option (binder_proc * Z) :=
  prev ← list_prev b (buffers p) None;
  match prev with
  | None => Some (p, b)
  | Some prev =>
      h ← header p prev;
      if free h then
        p ← binder_delete_free_buffer env p b;
        t ← rb_erase prev (free_buffers p);
        Some (set_free_buffers p t, prev)
      else Some (p, b)
  end.

Definition binder_free_buf (env : mm_env) (p : binder_proc) (b : Z) : option binder_proc :=
  bsize ← binder_buffer_size p b;
  h ← header p b;
  let size := ALIGN4 (data_size h) +ᵤ ALIGN4 (offsets_size h) in
  _ ← BUG_ON (free h);
  _ ← BUG_ON (bsize <? size);
  _ ← BUG_ON (match transaction h with Some _ => true | None => false end);
  _ ← BUG_ON (b <? buffer p);
  _ ← BUG_ON (buffer p + buffer_size p <? b);
  let p := if async_transaction h
           then set_free_async_space p (free_async_space p +ᵤ (size +ᵤ sizeof_buffer))
           else p in
  '(p, _) ← binder_update_page_range env p false
    (PAGE_ALIGN (data b)) (PAGE_MASK (data b +ᵤ bsize)) false;
  t ← rb_erase b (allocated_buffers p);
  let p := set_allocated_buffers p t in
  p ← set_header p b (set_free h true);
  p ← merge_next env p b;
  '(p, b) ← merge_prev env p b;
  binder_insert_free_buffer p b.

(** ** Mapping

    The part of struct vm_area_struct that binder_mmap() uses; get_vm_area()
    and kzalloc() are parameters: the address of the kernel area or NULL, and
    whether the page array could be allocated. *)

Record vm_area := mk_vma { vm_start : Z; vm_end : Z; vm_flags : Z }.

Definition FORBIDDEN_MMAP_FLAGS : Z := VM_WRITE.
Definition VM_DONTCOPY : Z := 0x20000.
Definition SZ_4M : Z := 0x400000.

(** The kernel area and the user area have the same colour on a machine whose
    cache aliases; the colour has four values. *)
Definition CACHE_COLOUR (x : Z) : Z := Z.shiftr (x &ᵤ (4 * PAGE_SIZE - 1)) 12.

Fixpoint match_colour (fuel : nat) (start area : Z) : Z :=
  match fuel with
  | O => start
  | S fuel => if CACHE_COLOUR (Z.lxor start area) =? 0 then start
              else match_colour fuel (start + PAGE_SIZE) area
  end.

(** From the allocation of the page array on; [offset] is the
    user_buffer_offset already stored. *)
Definition mmap_setup (env : mm_env) (garbage : binder_buffer) (kzalloc : bool)
    (p : binder_proc) (v : vm_area) (area offset : Z) : option (binder_proc * vm_area * Z) :=
  let n := (vm_end v -ᵤ vm_start v) / PAGE_SIZE in
  if negb kzalloc then
    Some (mk_proc (vma p) 0 (buffer_size p) offset (buffers p) (headers p)
            (free_buffers p) (allocated_buffers p) (free_async_space p) (pages p) 0, v, - ENOMEM)
  else
  let p1 := mk_proc (vma p) area (vm_end v -ᵤ vm_start v) offset (buffers p) (headers p)
              (free_buffers p) (allocated_buffers p) (free_async_space p) ∅ n in
  '(p2, ret) ← binder_update_page_range env p1 true area (area + PAGE_SIZE) true;
  if negb (ret =? 0) then
    (* the page array and the area are given back *)
    Some (mk_proc (vma p) 0 (buffer_size p2) offset (buffers p) (headers p)
            (free_buffers p) (allocated_buffers p) (free_async_space p) ∅ 0, v, - ENOMEM)
  else
    let b := area in
    p ← new_header (set_buffers p2 [b]) garbage b;
    p ← binder_insert_free_buffer p b;
    let p := set_free_async_space p (buffer_size p / 2) in
    Some (mk_proc true (buffer p) (buffer_size p) (user_buffer_offset p) (buffers p) (headers p)
            (free_buffers p) (allocated_buffers p) (free_async_space p) (pages p) (npages p), v, 0).

Definition binder_mmap (env : mm_env) (garbage : binder_buffer) (aliasing : bool)
    (get_vm_area : option Z) (kzalloc : bool) (p : binder_proc) (v : vm_area) :
    option (binder_proc * vm_area * Z) :=
  let v := if SZ_4M <? vm_end v -ᵤ vm_start v
           then mk_vma (vm_start v) (vm_start v + SZ_4M) (vm_flags v) else v in
  if negb (vm_flags v &ᵤ FORBIDDEN_MMAP_FLAGS =? 0) then Some (p, v, - EPERM) else
  let v := mk_vma (vm_start v) (vm_end v)
             (Z.ldiff (vm_flags v |ᵤ VM_DONTCOPY) VM_MAYWRITE) in
  if negb (buffer p =? 0) then Some (p, v, - EBUSY) else
  match get_vm_area with
  | None => Some (p, v, - ENOMEM)
  | Some area =>
      let offset := vm_start v - area in
      let v := if aliasing then mk_vma (match_colour 4 (vm_start v) area) (vm_end v) (vm_flags v) else v in
      mmap_setup env garbage kzalloc p v area offset
  end.

(** The mapping is gone; the pages stay.  The deferred release of the files
    table does not concern the allocator. *)
Definition binder_vma_close (p : binder_proc) : binder_proc :=
  mk_proc false (buffer p) (buffer_size p) (user_buffer_offset p) (buffers p) (headers p)
    (free_buffers p) (allocated_buffers p) (free_async_space p) (pages p) (npages p).

(** ** Rounding *)

Lemma ALIGN4_eq (x : Z) :
  0 <= x < 4294967296 ->
  ALIGN4 x = if 4294967292 <? x then 0 else (x + 3) / 4 * 4.
Proof.
  intros Hx. unfold ALIGN4.
  pose proof (land_clear_low (u32 (x + 3)) 2 ltac:(lia) (u32_range _)) as E.
  change (Z.shiftl (Z.ones (32 - 2)) 2) with 0xFFFFFFFC in E. rewrite E. change (2 ^ 2) with 4.
  destruct (Z.ltb_spec 4294967292 x).
  - unfold u32. replace (x + 3) with (x - 4294967293 + 1 * 4294967296) by lia.
    rewrite Z_mod_plus_full, Z.mod_small by lia. rewrite Z.div_small by lia. done.
  - by rewrite u32_small by lia.
Qed.

(** The overflow check of binder_alloc_buf(): what passes is the exact sum of
    the two rounded sizes. *)
Lemma size_check (d o : Z) :
  0 <= d < 4294967296 -> 0 <= o < 4294967296 ->
  let size := ALIGN4 d +ᵤ ALIGN4 o in
  (size <? d) || (size <? o) = false ->
  size = (d + 3) / 4 * 4 + (o + 3) / 4 * 4 /\ d <= size /\ o <= size /\ size mod 4 = 0.
Proof.
  intros Hd Ho size H. apply orb_false_iff in H as [H1 H2].
  apply Z.ltb_ge in H1, H2. unfold size in *. rewrite !ALIGN4_eq in * by done.
  pose proof (Z.div_mod (d + 3) 4 ltac:(lia)) as D1. pose proof (Z.mod_pos_bound (d + 3) 4 ltac:(lia)) as D2.
  pose proof (Z.div_mod (o + 3) 4 ltac:(lia)) as O1. pose proof (Z.mod_pos_bound (o + 3) 4 ltac:(lia)) as O2.
  destruct (Z.ltb_spec 4294967292 d), (Z.ltb_spec 4294967292 o).
  - rewrite u32_small in * by lia. lia.
  - rewrite u32_small in * by lia. lia.
  - rewrite u32_small in * by lia. lia.
  - destruct (Z.lt_ge_cases ((d + 3) / 4 * 4 + (o + 3) / 4 * 4) 4294967296).
    + rewrite u32_small in * by lia. split_and!; [lia..|].
      rewrite <- Z.mul_add_distr_r. apply Z_mod_mult.
    + exfalso. unfold u32 in H1.
      replace ((d + 3) / 4 * 4 + (o + 3) / 4 * 4) with
        ((d + 3) / 4 * 4 + (o + 3) / 4 * 4 - 4294967296 + 1 * 4294967296) in H1 by lia.
      rewrite Z_mod_plus_full, Z.mod_small in H1 by lia. lia.
Qed.

(** ** Page ranges *)

(** [n] pages from index [i]. *)
Definition range (i n : Z) : gset Z := list_to_set (seqZ i n).

Lemma elem_of_range (i n j : Z) : j ∈ range i n <-> i <= j < i + n.
Proof. unfold range. rewrite elem_of_list_to_set, elem_of_seqZ. done. Qed.

Lemma page_index_at (p : binder_proc) (k : Z) : page_index p (buffer p + 4096 * k) = k.
Proof. unfold page_index. rewrite Z.add_simpl_l, Z.mul_comm. by apply Z.div_mul. Qed.

Lemma page_slot_at (p : binder_proc) (k : Z) :
  0 <= k < npages p -> page_slot p (buffer p + 4096 * k) = Some k.
Proof. intros Hk. unfold page_slot. rewrite page_index_at. by rewrite bool_decide_eq_true_2. Qed.

Lemma set_pages_twice (p : binder_proc) (s s' : gset Z) : set_pages (set_pages p s) s' = set_pages p s'.
Proof. done. Qed.

Lemma set_pages_same (p : binder_proc) (s : gset Z) : s = pages p -> set_pages p s = p.
Proof. intros ->. by destruct p. Qed.

Lemma free_range_spec (n : nat) : forall (p : binder_proc) (k : Z),
  Z.of_nat n <= k + 1 -> k < npages p -> range (k + 1 - Z.of_nat n) (Z.of_nat n) ⊆ pages p ->
  free_range n p (buffer p + 4096 * k) =
    Some (set_pages p (pages p ∖ range (k + 1 - Z.of_nat n) (Z.of_nat n))).
Proof.
  induction n as [|n IH]; intros p k Hn Hk Hsub; simpl.
  - f_equal. symmetry. apply set_pages_same, set_eq. intros i.
    rewrite elem_of_difference, elem_of_range. split; [tauto|]. intros. split; [done|lia].
  - unfold free_page. rewrite page_slot_at by lia. cbn [mbind option_bind].
    rewrite bool_decide_eq_true_2 by (apply Hsub, elem_of_range; lia). cbn [mbind option_bind].
    change (buffer p + 4096 * k - PAGE_SIZE) with (buffer p + 4096 * k - 4096).
    replace (buffer p + 4096 * k - 4096) with (buffer p + 4096 * (k - 1)) by lia.
    rewrite (IH (set_pages p _) (k - 1)).
    + f_equal. rewrite set_pages_twice. f_equal. simpl. apply set_eq. intros i.
      rewrite !elem_of_difference, elem_of_singleton, !elem_of_range. split.
      * intros [[H1 H2] H3]. split; [done|lia].
      * intros [H1 H2]. split_and!; [done|lia..].
    + lia.
    + simpl. lia.
    + intros i Hi. apply elem_of_range in Hi. simpl. apply elem_of_difference.
      rewrite elem_of_singleton. split; [apply Hsub, elem_of_range; lia|lia].
Qed.

Lemma free_page_spec (p : binder_proc) (k : Z) :
  0 <= k < npages p -> k ∈ pages p ->
  free_page p (buffer p + 4096 * k) = Some (set_pages p (pages p ∖ {[ k ]})).
Proof.
  intros Hk Hin. unfold free_page. rewrite page_slot_at by done. cbn [mbind option_bind].
  by rewrite bool_decide_eq_true_2.
Qed.

(** All pages of the range, or none of this call's and -ENOMEM. *)
Lemma alloc_range_spec (env : mm_env) (n : nat) : forall (dn : nat) (p : binder_proc) (k : Z),
  Z.of_nat dn <= k -> k + Z.of_nat n <= npages p ->
  range (k - Z.of_nat dn) (Z.of_nat dn) ⊆ pages p ->
  (forall i, k <= i < k + Z.of_nat n -> i ∉ pages p) ->
  alloc_range env n dn p (buffer p + 4096 * k) =
    Some (set_pages p (range k (Z.of_nat n) ∪ pages p), 0) \/
  alloc_range env n dn p (buffer p + 4096 * k) =
    Some (set_pages p (pages p ∖ range (k - Z.of_nat dn) (Z.of_nat dn)), - ENOMEM) /\
  exists a, page_try env a <> PageOk.
Proof.
  induction n as [|n IH]; intros dn p k Hdn Hk Hsub Hno; cbn [alloc_range].
  { left. do 2 f_equal. symmetry. apply set_pages_same. apply set_eq. intros i.
    rewrite elem_of_union, elem_of_range. split; [intros [|]; [lia|done]|by right]. }
  rewrite page_slot_at by lia. cbn [mbind option_bind].
  rewrite bool_decide_eq_false_2 by (apply Hno; lia). cbn [BUG_ON mbind option_bind].
  assert (Hback : free_range dn p (buffer p + 4096 * k - PAGE_SIZE) =
    Some (set_pages p (pages p ∖ range (k - Z.of_nat dn) (Z.of_nat dn)))).
  { change PAGE_SIZE with 4096. replace (buffer p + 4096 * k - 4096) with (buffer p + 4096 * (k - 1)) by lia.
    rewrite free_range_spec; replace (k - 1 + 1) with k by lia; done || lia. }
  set (p1 := set_pages p ({[k]} ∪ pages p)).
  assert (Hfp : free_page p1 (buffer p + 4096 * k) = Some p).
  { change (buffer p) with (buffer p1). rewrite free_page_spec; [|simpl; lia|simpl; set_solver].
    unfold p1. rewrite set_pages_twice. f_equal. apply set_pages_same. simpl.
    specialize (Hno k ltac:(lia)). set_solver. }
  destruct (page_try env _) eqn:Et; [|right; (split; [|eexists; by rewrite Et])..].
  - change (buffer p) with (buffer p1). replace (buffer p1 + 4096 * k + PAGE_SIZE) with (buffer p1 + 4096 * (k + 1))
      by (change PAGE_SIZE with 4096; lia).
    destruct (IH (S dn) p1 (k + 1)) as [->|[-> Hbad]].
    + lia.
    + simpl. lia.
    + intros i Hi. apply elem_of_range in Hi. simpl. destruct (decide (i = k)) as [->|]; [set_solver|].
      apply elem_of_union. right. apply Hsub, elem_of_range. lia.
    + intros i Hi. simpl. specialize (Hno i ltac:(lia)). assert (i <> k) by lia. set_solver.
    + left. do 2 f_equal. unfold p1. rewrite set_pages_twice. f_equal. simpl. apply set_eq. intros i.
      rewrite !elem_of_union, elem_of_singleton, !elem_of_range. split.
      * intros [|[->|]]; [left; lia|left; lia|by right].
      * intros [|]; [|by right; right]. destruct (decide (i = k)); [right; by left|left; lia].
    + right. split; [|done]. do 2 f_equal. unfold p1. rewrite set_pages_twice. f_equal. simpl. apply set_eq. intros i.
      rewrite !elem_of_difference, elem_of_union, elem_of_singleton, !elem_of_range.
      specialize (Hno k ltac:(lia)). split.
      * intros [[->|H1] H2]; [exfalso; lia|]. split; [done|lia].
      * intros [H1 H2]. split; [by right|]. intros H3. destruct (decide (i = k)) as [->|]; [done|lia].
  - by rewrite Hback.
  - rewrite Hfp. cbn [mbind option_bind]. by rewrite Hback.
  - rewrite Hfp. cbn [mbind option_bind]. by rewrite Hback.
Qed.

Lemma range_empty (a n : Z) : n <= 0 -> range a n = ∅.
Proof. intros Hn. apply set_eq. intros i. rewrite elem_of_range. split; [lia|set_solver]. Qed.

Lemma update_page_range_free (env : mm_env) (p : binder_proc) (a c : Z) (v : bool) :
  0 <= a -> c <= npages p -> range a (c - a) ⊆ pages p ->
  exists ret, binder_update_page_range env p false (buffer p + 4096 * a) (buffer p + 4096 * c) v =
    Some (set_pages p (pages p ∖ range a (c - a)), ret).
Proof.
  intros Ha Hc Hsub. unfold binder_update_page_range. destruct (Z.leb_spec (buffer p + 4096 * c) (buffer p + 4096 * a)).
  - exists 0. do 2 f_equal. rewrite range_empty by lia. symmetry. apply set_pages_same. set_solver.
  - exists (- ENOMEM). cbn [negb]. change PAGE_SIZE with 4096.
    replace (buffer p + 4096 * c - (buffer p + 4096 * a)) with ((c - a) * 4096) by lia.
    rewrite Z.div_mul by lia.
    replace (buffer p + 4096 * c - 4096) with (buffer p + 4096 * (c - 1)) by lia.
    rewrite free_range_spec; rewrite ?Z2Nat.id by lia; replace (c - 1 + 1 - (c - a)) with a by lia;
      done || lia.
Qed.

Lemma update_page_range_alloc (env : mm_env) (p : binder_proc) (a c : Z) (v : bool) :
  0 <= a -> c <= npages p -> (forall i, a <= i < c -> i ∉ pages p) ->
  binder_update_page_range env p true (buffer p + 4096 * a) (buffer p + 4096 * c) v =
    Some (set_pages p (range a (c - a) ∪ pages p), 0) \/
  binder_update_page_range env p true (buffer p + 4096 * a) (buffer p + 4096 * c) v =
    Some (p, - ENOMEM) /\
  (v = false /\ (task_mm env = false \/ vma p = false) \/ exists a, page_try env a <> PageOk).
Proof.
  intros Ha Hc Hno. unfold binder_update_page_range. destruct (Z.leb_spec (buffer p + 4096 * c) (buffer p + 4096 * a)).
  - left. do 2 f_equal. rewrite range_empty by lia. symmetry. apply set_pages_same. set_solver.
  - cbn [negb]. case_match eqn:Ev.
    { right. split; [done|]. left. destruct v; [done|]. split; [done|].
      destruct (task_mm env); [right|by left]. by destruct (vma p). }
    change PAGE_SIZE with 4096.
    replace (buffer p + 4096 * c - (buffer p + 4096 * a) + 4096 - 1) with (4095 + (c - a) * 4096) by lia.
    rewrite Z.div_add, Z.div_small, Z.add_0_l by lia.
    destruct (alloc_range_spec env (Z.to_nat (c - a)) 0 p a) as [->|[-> Hbad]].
    + lia.
    + lia.
    + rewrite range_empty by lia. set_solver.
    + intros i Hi. apply Hno. lia.
    + left. by rewrite Z2Nat.id by lia.
    + right. split; [|by right]. rewrite range_empty, difference_empty_L by lia. by destruct p.
Qed.

(** ** The layout of the area

    [nxt l e]: where the buffers [l] begin, the end [e] of the area if there
    is none. *)

Definition nxt (l : list Z) (e : Z) : Z := default e (head l).

(** The buffers [l] follow one another up to [e], each with room for its
    header. *)
Fixpoint chain (l : list Z) (e : Z) : Prop :=
  match l with
  | [] => True
  | b :: l' => b + sizeof_buffer <= nxt l' e /\ chain l' e
  end.

(** The page at [P] holds a part of a header, or of the data of a buffer that
    is not free. *)
Fixpoint need (fr : Z -> bool) (l : list Z) (e P : Z) : Prop :=
  match l with
  | [] => False
  | b :: l' =>
      (b < P + 4096 /\ P < (if fr b then b + sizeof_buffer else nxt l' e)) \/ need fr l' e P
  end.

Lemma nxt_app (l1 l2 : list Z) (b e : Z) : nxt (l1 ++ b :: l2) e = nxt l1 b.
Proof. by destruct l1. Qed.

Lemma chain_app (l1 l2 : list Z) (b e : Z) :
  chain (l1 ++ b :: l2) e <-> chain l1 b /\ chain (b :: l2) e.
Proof.
  induction l1 as [|x l1 IH]; simpl; [tauto|]. rewrite nxt_app, IH. simpl. tauto.
Qed.

Lemma chain_nxt (l : list Z) (e : Z) : chain l e -> nxt l e <= e.
Proof.
  unfold sizeof_buffer. induction l as [|x l IH]; simpl; [done|]. unfold sizeof_buffer.
  intros [H1 H2]. specialize (IH H2). unfold nxt in *. simpl. lia.
Qed.

Lemma chain_le (l : list Z) (e b : Z) : chain l e -> b ∈ l -> nxt l e <= b /\ b + sizeof_buffer <= e.
Proof.
  induction l as [|x l IH]; simpl; [by intros _ ?%not_elem_of_nil|].
  intros [H1 H2] Hb. pose proof (chain_nxt _ _ H2). unfold sizeof_buffer in *.
  apply elem_of_cons in Hb as [->|Hb]; unfold nxt at 1; simpl; [lia|]. specialize (IH H2 Hb). lia.
Qed.

Lemma chain_NoDup (l : list Z) (e : Z) : chain l e -> NoDup l.
Proof.
  induction l as [|x l IH]; simpl; [constructor|]. intros [H1 H2]. constructor; [|auto].
  intros Hx. destruct (chain_le _ _ _ H2 Hx). unfold sizeof_buffer in *. lia.
Qed.

Lemma need_app (fr : Z -> bool) (l1 l2 : list Z) (b e P : Z) :
  need fr (l1 ++ b :: l2) e P <-> need fr l1 b P \/ need fr (b :: l2) e P.
Proof.
  induction l1 as [|x l1 IH]; simpl; [tauto|]. rewrite nxt_app, IH. simpl. tauto.
Qed.

Lemma need_below (fr : Z -> bool) (l : list Z) (e P : Z) : chain l e -> need fr l e P -> P < e.
Proof.
  induction l as [|x l IH]; simpl; [done|]. intros [H1 H2] [[_ H]|H]; [|auto].
  pose proof (chain_nxt _ _ H2). destruct (fr x); lia.
Qed.

Lemma need_above (fr : Z -> bool) (l : list Z) (e P : Z) :
  chain l e -> need fr l e P -> nxt l e < P + 4096 /\ l <> [].
Proof.
  induction l as [|x l IH]; simpl; [done|]. change (nxt (x :: l) e) with x.
  intros [H1 H2] [[H _]|H]; [done|]. destruct (IH H2 H). unfold sizeof_buffer in *. split; [lia|done].
Qed.

Lemma need_ext (fr fr' : Z -> bool) (l : list Z) (e P : Z) :
  (forall b, b ∈ l -> fr b = fr' b) -> need fr l e P <-> need fr' l e P.
Proof.
  induction l as [|x l IH]; intros H; simpl; [done|].
  rewrite IH by (intros b Hb; apply H; by right). rewrite (H x) by (by left). done.
Qed.

(** A header that begins below the end of the page is needed on it. *)
Lemma need_head (fr : Z -> bool) (l : list Z) (e P : Z) :
  chain l e -> l <> [] -> nxt l e < P + 4096 -> P < nxt l e + sizeof_buffer -> need fr l e P.
Proof.
  destruct l as [|b l]; [done|]. unfold nxt. simpl. intros [H1 _] _ H2 H3. left.
  split; [done|]. destruct (fr b); lia.
Qed.

(** [page_facts x q] names the quotient of [x] and gives lia its bounds. *)
Tactic Notation "page_facts" constr(x) ident(q) :=
  let D := fresh "Dq" in let R := fresh "Rq" in
  pose proof (Z.div_mod x 4096 ltac:(lia)) as D;
  pose proof (Z.mod_pos_bound x 4096 ltac:(lia)) as R;
  set (q := x / 4096) in *; clearbody q.

Section Layout.
Context (l1 l2 : list Z) (b e : Z) (P : Z).
Context (Hc : chain (l1 ++ b :: l2) e) (HP : P mod 4096 = 0) (He : e mod 4096 = 0).
Context (fr fr' : Z -> bool) (Hfr : forall x, x ∈ l1 ++ l2 -> fr x = fr' x).

(** Pages that only the data of [b] needs. *)
Lemma data_pages :
  fr b = true -> fr' b = false ->
  let lo := (b + sizeof_buffer + 4095) / 4096 * 4096 in
  let hi := nxt l2 e / 4096 * 4096 in
  (need fr' (l1 ++ b :: l2) e P <-> need fr (l1 ++ b :: l2) e P \/ lo <= P < hi) /\
  (lo <= P < hi -> ~ need fr (l1 ++ b :: l2) e P).
Proof using Hc HP He Hfr.
  intros Hf Hf' lo hi. apply chain_app in Hc as [H1 [H2 H3]]. fold chain in H3.
  rewrite !need_app. simpl. rewrite Hf, Hf'.
  rewrite !(need_ext fr fr') by (intros x Hx; apply Hfr, elem_of_app; auto).
  pose proof (need_below fr' l1 b P H1) as Hbelow. pose proof (need_above fr' l2 e P H3) as Habove.
  pose proof (need_head fr' l2 e P H3) as Hhead.
  assert (Hlast : l2 = [] -> nxt l2 e mod 4096 = 0) by (by intros ->).
  unfold lo, hi in *. unfold sizeof_buffer in *. clear lo hi.
  page_facts (b + 40 + 4095) qlo. page_facts (nxt l2 e) qhi. page_facts P qP.
  split; [split|].
  - intros [H|[[Ha Hb]|H]]; [tauto| |tauto].
    destruct (Z.lt_ge_cases P (b + 40)); [tauto|].
    destruct (Z.lt_ge_cases P (qhi * 4096)); [right; lia|].
    left. right. right. apply Hhead; [|lia..]. intros ->. specialize (Hlast eq_refl). lia.
  - intros [[H|[H|H]]|H]; [tauto|right; left; lia|tauto|right; left; lia].
  - intros Hr [H|[H|H]]; [specialize (Hbelow H)|..|destruct (Habove H)]; lia.
Qed.

(** Pages needed when [b] is allocated up to a new free buffer at [nb]. *)
Lemma split_pages (nb : Z) :
  fr b = true -> fr' b = false -> fr' nb = true ->
  b + sizeof_buffer <= nb -> nb + sizeof_buffer <= nxt l2 e ->
  let lo := (b + sizeof_buffer + 4095) / 4096 * 4096 in
  let hi := Z.min ((nb + sizeof_buffer + 4095) / 4096 * 4096) (nxt l2 e / 4096 * 4096) in
  need fr' (l1 ++ b :: nb :: l2) e P <-> need fr (l1 ++ b :: l2) e P \/ lo <= P < hi.
Proof using Hc HP He Hfr.
  intros Hf Hf' Hn Hnb Hnn lo hi. apply chain_app in Hc as [H1 [H2 H3]]. fold chain in H3.
  rewrite !need_app. simpl. rewrite Hf, Hf', Hn. change (nxt (nb :: l2) e) with nb.
  rewrite !(need_ext fr fr') by (intros x Hx; apply Hfr, elem_of_app; auto).
  pose proof (need_head fr' l2 e P H3) as Hhead.
  assert (Hlast : l2 = [] -> nxt l2 e mod 4096 = 0) by (by intros ->).
  unfold lo, hi in *. unfold sizeof_buffer in *. clear lo hi.
  page_facts (b + 40 + 4095) qlo. page_facts (nb + 40 + 4095) qnb. page_facts (nxt l2 e) qhi.
  page_facts P qP.
  assert (Hend : P < nb + 40 -> b + 40 <= P -> need fr' l2 e P \/ qlo * 4096 <= P < Z.min (qnb * 4096) (qhi * 4096)).
  { intros Ha Hb. destruct (Z.lt_ge_cases P (qhi * 4096)); [right; lia|].
    left. apply Hhead; [|lia..]. intros ->. specialize (Hlast eq_refl). lia. }
  split.
  - intros [H|[[Ha Hb]|[[Ha Hb]|H]]]; [tauto| | |tauto];
      (destruct (Z.lt_ge_cases P (b + 40)); [left; right; left; lia|]);
      (destruct Hend; [lia..|tauto|tauto]).
  - intros [[H|[H|H]]|H]; [tauto|right; left; lia|tauto|].
    destruct (Z.lt_ge_cases P nb); [right; left; lia|right; right; left; lia].
Qed.

End Layout.

(** The pages freed when the header of [b] is deleted, and which they are:
    those [b]'s header is on and the headers beside it are not. *)
Definition freed_page (b P prev : Z) (next : option Z) : Prop :=
  let '(fs, fe) := free_page_flags b prev next in
  fs || fe = true /\
  (if fs then buffer_start_page b else buffer_end_page b) <= P <
  (if fe then buffer_end_page b else buffer_start_page b) + 4096.

Lemma freed_page_iff (a b P : Z) (next : option Z) :
  0 <= a -> a + sizeof_buffer <= b -> b < 0xFFFFF000 -> P mod 4096 = 0 ->
  (forall n, next = Some n -> b + sizeof_buffer <= n < 0xFFFFF000) ->
  freed_page b P a next <->
  (b < P + 4096 /\ P < b + sizeof_buffer) /\ ~ (a < P + 4096 /\ P < a + sizeof_buffer) /\
  ~ (exists n, next = Some n /\ n < P + 4096).
Proof.
  intros H0 Hab Hmax HP Hn.
  unfold freed_page, free_page_flags, buffer_start_page, buffer_end_page, sizeof_buffer in *.
  rewrite !PAGE_MASK_eq by lia.
  page_facts (a + 40 - 1) qa. page_facts b qs. page_facts (b + 40 - 1) qe. page_facts P qP.
  destruct next as [n|].
  - specialize (Hn n eq_refl). rewrite PAGE_MASK_eq by lia. page_facts n qn.
    assert (Hex : (exists n0, Some n = Some n0 /\ n0 < P + 4096) <-> n < P + 4096) by naive_solver.
    rewrite Hex. clear Hex.
    destruct (Z.eqb_spec (qa * 4096) (qs * 4096)), (Z.eqb_spec (qa * 4096) (qe * 4096)),
      (Z.eqb_spec (qn * 4096) (qe * 4096)), (Z.eqb_spec (qn * 4096) (qs * 4096)); simpl; lia.
  - assert (Hex : (exists n0, None = Some n0 /\ n0 < P + 4096) <-> False) by naive_solver.
    rewrite Hex. clear Hex.
    destruct (Z.eqb_spec (qa * 4096) (qs * 4096)), (Z.eqb_spec (qa * 4096) (qe * 4096)); simpl; lia.
Qed.

(** Deleting the free buffer [b] between the free buffer [a] and [l2]. *)
Lemma header_pages (l1 l2 : list Z) (a b e P : Z) (fr : Z -> bool) :
  chain (l1 ++ a :: b :: l2) e -> 0 <= a -> e <= 0xFFFFF000 -> P mod 4096 = 0 ->
  fr a = true -> fr b = true ->
  (need fr (l1 ++ a :: b :: l2) e P <->
   need fr (l1 ++ a :: l2) e P \/ freed_page b P a (head l2)) /\
  (freed_page b P a (head l2) -> ~ need fr (l1 ++ a :: l2) e P).
Proof.
  intros Hc H0 Hmax HP Ha Hb. apply chain_app in Hc as [H1 [H2 [H3 H4]]]. fold chain in H4.
  change (nxt (b :: l2) e) with b in H2. pose proof (chain_nxt _ _ H4) as Hnx.
  rewrite !need_app. simpl. rewrite Ha, Hb. rewrite freed_page_iff.
  2-4: unfold sizeof_buffer in *; lia.
  2: done.
  2:{ intros n Hn. destruct l2 as [|n' l2]; simplify_eq/=. destruct H4 as [? H4].
      pose proof (chain_nxt _ _ H4). unfold sizeof_buffer, nxt in *. simpl in *. lia. }
  pose proof (need_below fr l1 a P H1) as Hbelow.
  assert (Hl2 : P < b + sizeof_buffer -> need fr l2 e P <-> exists n, head l2 = Some n /\ n < P + 4096).
  { intros Ht. destruct l2 as [|n l2']; [simpl; naive_solver|]. split.
    - intros Hn. destruct (need_above _ _ _ _ H4 Hn) as [? _]. by exists n.
    - intros (? & [= <-] & ?). apply need_head; [done|done|done|]. unfold nxt, sizeof_buffer in *. simpl in *. lia. }
  assert (Hl1 : b < P + 4096 -> need fr l1 a P -> a < P + 4096 /\ P < a + sizeof_buffer).
  { intros ? Hn. specialize (Hbelow Hn). unfold sizeof_buffer in *. lia. }
  assert (Hda : (a < P + 4096 /\ P < a + sizeof_buffer) \/ ~ (a < P + 4096 /\ P < a + sizeof_buffer)) by lia.
  assert (Hdn : (exists n, head l2 = Some n /\ n < P + 4096) \/ ~ (exists n, head l2 = Some n /\ n < P + 4096)).
  { destruct (head l2) as [n|]; [destruct (Z.lt_ge_cases n (P + 4096)); naive_solver lia|naive_solver]. }
  clear Hbelow H1 H2 H3 H4 Hnx. tauto.
Qed.

End BinderAlloc.
