(* ===== verification/BinderInv.v ===== *)
(** The invariant of the binder buffer allocator and its theorems.

    [binder_inv] relates the list of buffers, their headers, the two trees, the
    pages that are backed and the space for asynchronous transactions; every
    operation of BinderAlloc.v keeps it, and none of them runs into a BUG(), a
    header without a page, a page array entry out of range or already in use,
    or an empty slot. *)

From S2P Require Import Prelude RbTree BinderAlloc.
From stdpp Require Import sorting.
Local Open Scope Z_scope.
Local Open Scope kernel_scope.

Module BinderInv.
Import RbTree BinderAlloc.

(** ** Lists of buffers *)

Lemma list_next_app (b : Z) (l1 l2 : list Z) :
  b ∉ l1 -> list_next b (l1 ++ b :: l2) = Some (head l2).
Proof.
  induction l1 as [|x l1 IH]; simpl; intros Hb; [by rewrite Z.eqb_refl|].
  apply not_elem_of_cons in Hb as [Hne Hb]. rewrite (proj2 (Z.eqb_neq b x)) by done. auto.
Qed.

Lemma list_prev_app (b : Z) (l1 l2 : list Z) (k : option Z) :
  b ∉ l1 -> list_prev b (l1 ++ b :: l2) k = Some (match last l1 with Some a => Some a | None => k end).
Proof.
  revert k. induction l1 as [|x l1 IH]; intros k Hb; [simpl; by rewrite Z.eqb_refl|].
  cbn [list_prev app].
  apply not_elem_of_cons in Hb as [Hne Hb]. rewrite (proj2 (Z.eqb_neq b x)), IH by done.
  rewrite last_cons. by destruct (last l1).
Qed.

Lemma list_add_app (n b : Z) (l1 l2 : list Z) :
  b ∉ l1 -> list_add n b (l1 ++ b :: l2) = l1 ++ b :: n :: l2.
Proof.
  induction l1 as [|x l1 IH]; simpl; intros Hb; [by rewrite Z.eqb_refl|].
  apply not_elem_of_cons in Hb as [Hne Hb]. rewrite (proj2 (Z.eqb_neq b x)) by done. f_equal. auto.
Qed.

(** A buffer put after [b] changes the successor of [b] only. *)
Lemma list_next_insert (y b n : Z) (l1 l2 : list Z) :
  y <> b -> y <> n -> list_next y (l1 ++ b :: n :: l2) = list_next y (l1 ++ b :: l2).
Proof.
  intros Hb Hn. induction l1 as [|x l1 IH]; simpl.
  - by rewrite (proj2 (Z.eqb_neq y b)), (proj2 (Z.eqb_neq y n)) by done.
  - destruct (y =? x); [|done]. by destruct l1.
Qed.

(** The size of the data of a buffer, as a number. *)
Definition bsize (l : list Z) (e b : Z) : Z :=
  match list_next b l with
  | Some (Some n) => n - data b
  | _ => e - data b
  end.

Definition area_end (p : binder_proc) : Z := buffer p + buffer_size p.

Lemma bsize_app (l1 l2 : list Z) (e b : Z) :
  b ∉ l1 -> bsize (l1 ++ b :: l2) e b = nxt l2 e - data b.
Proof. intros Hb. unfold bsize. rewrite list_next_app by done. by destruct l2. Qed.

(** ** The invariant of the memory: list, headers, pages *)

Definition fr_of (h : gmap Z binder_buffer) (b : Z) : bool :=
  match h !! b with Some x => free x | None => true end.

Definition fr (p : binder_proc) : Z -> bool := fr_of (headers p).

Record geometry (p : binder_proc) : Prop := {
  geo_base : 0 < buffer p /\ buffer p mod 4096 = 0;
  geo_size : 0 < npages p /\ buffer_size p = 4096 * npages p;
  geo_max : area_end p <= 0xFFFFF000
}.

(** The list is sound and every header in it can be touched. *)
Record readable (p : binder_proc) : Prop := {
  rd_geo : geometry p;
  rd_head : head (buffers p) = Some (buffer p);
  rd_chain : chain (buffers p) (area_end p);
  rd_headers : forall b, b ∈ buffers p -> is_Some (headers p !! b);
  rd_mapped : forall b, b ∈ buffers p -> header_mapped p b = true
}.

(** The pages that are backed are those that are needed. *)
Definition pages_exact (p : binder_proc) : Prop :=
  forall i, i ∈ pages p <->
    0 <= i < npages p /\ need (fr p) (buffers p) (area_end p) (buffer p + 4096 * i).

Lemma page_index_mask (p : binder_proc) (x : Z) :
  geometry p -> buffer p <= x < area_end p ->
  exists i, page_index p (PAGE_MASK x) = i /\ 0 <= i < npages p /\
    buffer p + 4096 * i <= x < buffer p + 4096 * i + 4096.
Proof.
  intros [[H0 Hal] [Hn Hs] Hmax] Hx. unfold area_end in *. rewrite PAGE_MASK_eq by lia.
  exists (x / 4096 - buffer p / 4096). unfold page_index. change PAGE_SIZE with 4096.
  page_facts (buffer p) qb. page_facts x qx. replace (qx * 4096 - buffer p) with ((qx - qb) * 4096) by lia.
  rewrite Z.div_mul by lia. lia.
Qed.

Lemma need_elem (f : Z -> bool) (l : list Z) (e P b : Z) :
  chain l e -> b ∈ l -> b < P + 4096 -> P < b + sizeof_buffer -> need f l e P.
Proof.
  intros Hc (l1 & l2 & ->)%list_elem_of_split Ha Hb. apply chain_app in Hc as [_ [H _]].
  apply need_app. right. left. split; [done|]. destruct (f b); lia.
Qed.

(** A header is on backed pages when the pages it needs are. *)
Lemma header_mapped_spec (p : binder_proc) (b : Z) :
  geometry p -> buffer p <= b -> b + sizeof_buffer <= area_end p ->
  (forall i, 0 <= i < npages p -> b < buffer p + 4096 * i + 4096 ->
     buffer p + 4096 * i < b + sizeof_buffer -> i ∈ pages p) ->
  header_mapped p b = true.
Proof.
  intros Hg Hb He Hin. unfold header_mapped, buffer_start_page, buffer_end_page, sizeof_buffer in *.
  destruct (page_index_mask p b Hg) as (i & -> & Hi & ?); [lia|].
  destruct (page_index_mask p (b + 40 - 1) Hg) as (j & -> & Hj & ?); [lia|].
  rewrite !bool_decide_eq_true_2; [done|apply Hin; lia..].
Qed.

Section Memory.
Context (p : binder_proc) (Hm : readable p).

Lemma buffer_range (b : Z) : b ∈ buffers p -> buffer p <= b /\ b + sizeof_buffer <= area_end p.
Proof using Hm.
  intros Hb. destruct (chain_le _ _ _ (rd_chain p Hm) Hb) as [H1 H2].
  unfold nxt in H1. rewrite (rd_head p Hm) in H1. done.
Qed.

Lemma buffers_NoDup : NoDup (buffers p).
Proof using Hm. apply (chain_NoDup _ (area_end p)), rd_chain, Hm. Qed.

(** A position in the list. *)
Lemma buffer_split (b : Z) :
  b ∈ buffers p -> exists l1 l2, buffers p = l1 ++ b :: l2 /\ (b ∉ l1) /\ (b ∉ l2).
Proof using Hm.
  intros Hb. apply list_elem_of_split in Hb as (l1 & l2 & E). exists l1, l2. split; [done|].
  pose proof buffers_NoDup as Hnd. rewrite E in Hnd. apply NoDup_app in Hnd as (_ & H1 & H2).
  apply NoDup_cons in H2 as [H2 _]. split; [|done]. intros Hin. apply (H1 b Hin). by left.
Qed.

Lemma buffer_size_spec (b : Z) :
  b ∈ buffers p -> binder_buffer_size p b = Some (bsize (buffers p) (area_end p) b) /\
    0 <= bsize (buffers p) (area_end p) b < 4294967296.
Proof using Hm.
  intros Hb. destruct (buffer_split b Hb) as (l1 & l2 & E & Hn1 & Hn2).
  pose proof (rd_chain p Hm) as Hc. pose proof (buffer_range b Hb) as Hr.
  destruct (rd_geo p Hm) as [[? ?] [? ?] ?].
  unfold binder_buffer_size. rewrite E in *. rewrite bsize_app, list_next_app by done.
  apply chain_app in Hc as [_ [Hc1 Hc2]]. pose proof (chain_nxt _ _ Hc2). fold chain in *.
  unfold area_end, data, sizeof_buffer in *. cbn [mbind option_bind].
  destruct l2 as [|n l2]; unfold nxt in *; simpl in *; rewrite u32_small; (split; [done|]) || idtac; lia.
Qed.

Lemma header_spec (b : Z) :
  b ∈ buffers p -> exists h, header p b = Some h /\ headers p !! b = Some h /\ fr p b = free h.
Proof using Hm.
  intros Hb. unfold header. rewrite rd_mapped by done. destruct (rd_headers p Hm b Hb) as [h E].
  exists h. split_and!; [done..|]. unfold fr, fr_of. by rewrite E.
Qed.

Lemma set_header_spec (b : Z) (h : binder_buffer) :
  b ∈ buffers p -> set_header p b h = Some (set_headers p (<[b := h]> (headers p))).
Proof using Hm. intros Hb. unfold set_header. by rewrite rd_mapped. Qed.
End Memory.

Lemma exact_mapped (p : binder_proc) :
  geometry p -> chain (buffers p) (area_end p) -> head (buffers p) = Some (buffer p) -> pages_exact p ->
  forall b, b ∈ buffers p -> header_mapped p b = true.
Proof.
  intros Hg Hc Hh Hp b Hb. destruct (chain_le _ _ _ Hc Hb) as [H1 H2].
  unfold nxt in H1. rewrite Hh in H1. apply header_mapped_spec; [done..|].
  intros i Hi Ha Hb'. apply Hp. split; [done|]. by apply need_elem with (b := b).
Qed.

(** ** The trees *)

(** The free tree holds the buffers [S], by size. *)
Record free_tree (p : binder_proc) (S : list Z) : Prop := {
  ft_rb : rb_tree (free_buffers p);
  ft_elems : inorder (free_buffers p) ≡ₚ S;
  ft_in : forall b, b ∈ S -> b ∈ buffers p /\ fr p b = true;
  ft_sorted : StronglySorted
    (fun x y => bsize (buffers p) (area_end p) x <= bsize (buffers p) (area_end p) y)
    (inorder (free_buffers p))
}.

Lemma sorted_split (sz : Z -> Z) (s : Z) (k : list Z) :
  StronglySorted (fun x y => sz x <= sz y) k ->
  exists A B, k = A ++ B /\ (forall y, y ∈ A -> sz y <= s) /\ (forall y, y ∈ B -> s < sz y).
Proof.
  induction 1 as [|x k Hk (A & B & -> & HA & HB) Hx].
  - exists [], []. split; [done|]. split; intros y Hy; by apply not_elem_of_nil in Hy.
  - destruct (Z.le_gt_cases (sz x) s).
    + exists (x :: A), B. split_and!; [done| |done]. intros y [->|Hy]%elem_of_cons; auto.
    + exists [], (x :: A ++ B). split_and!; [done|by intros y ?%not_elem_of_nil|].
      rewrite Forall_forall in Hx. intros y [->|Hy]%elem_of_cons; [done|]. specialize (Hx y Hy). lia.
Qed.

Lemma sorted_insert (sz : Z -> Z) (x : Z) (A B : list Z) :
  StronglySorted (fun x y => sz x <= sz y) (A ++ B) ->
  (forall y, y ∈ A -> sz y <= sz x) -> (forall y, y ∈ B -> sz x < sz y) ->
  StronglySorted (fun x y => sz x <= sz y) (A ++ x :: B).
Proof.
  rewrite !StronglySorted_app, StronglySorted_cons, Forall_forall. intros (H1 & H2 & H3) HA HB.
  split_and!; [|done| |done].
  - intros a b Ha [->|Hb]%elem_of_cons; auto.
  - intros b Hb. specialize (HB b Hb). lia.
Qed.

Lemma insert_free_spec (p : binder_proc) (x : Z) (S : list Z) :
  readable p -> free_tree p S -> x ∈ buffers p -> fr p x = true ->
  exists t, binder_insert_free_buffer p x = Some (set_free_buffers p t) /\
    free_tree (set_free_buffers p t) (x :: S).
Proof.
  intros Hm [Hrb Hel Hin Hs] Hx Hf. unfold binder_insert_free_buffer.
  destruct (header_spec p Hm x Hx) as (h & -> & _ & Hfh). cbn [mbind option_bind].
  rewrite <- Hfh, Hf. cbn [negb BUG_ON mbind option_bind].
  destruct (buffer_size_spec p Hm x Hx) as [-> _]. cbn [mbind option_bind].
  set (sz := bsize (buffers p) (area_end p)) in *.
  destruct (sorted_split sz (sz x) _ Hs) as (A & B & E & HA & HB).
  assert (Hgo : forall y, y ∈ inorder (free_buffers p) ->
    free_go p (sz x) y = Some (Go (if sz x <? sz y then Lft else Rgt))).
  { intros y Hy. rewrite Hel in Hy. destruct (Hin y Hy) as [Hyb Hyf]. unfold free_go.
    destruct (header_spec p Hm y Hyb) as (h' & -> & _ & Hfh'). cbn [mbind option_bind].
    rewrite <- Hfh', Hyf. cbn [negb BUG_ON mbind option_bind].
    by destruct (buffer_size_spec p Hm y Hyb) as [-> _]. }
  rewrite E in Hgo.
  destruct (rb_insert_walk (free_go p (sz x)) (free_buffers p) x A B) as (path & t & -> & Ht & Hrb' & Hi);
    [done|done| | |].
  { intros y Hy. rewrite Hgo by set_solver. specialize (HA y Hy).
    by rewrite (proj2 (Z.ltb_ge _ _)) by lia. }
  { intros y Hy. rewrite Hgo by set_solver. specialize (HB y Hy).
    by rewrite (proj2 (Z.ltb_lt _ _)) by lia. }
  cbn [mbind option_bind]. rewrite Ht. cbn [mbind option_bind]. exists t. split; [done|].
  split; simpl; [done| | |].
  - rewrite Hi, <- Hel, E. symmetry. apply Permutation_middle.
  - intros b [->|Hb]%elem_of_cons; [done|]. by apply Hin.
  - rewrite Hi. apply sorted_insert; [by rewrite <- E|done..].
Qed.

Lemma erase_free_spec (p : binder_proc) (x : Z) (S : list Z) :
  free_tree p S -> NoDup S -> x ∈ S ->
  exists t, rb_erase x (free_buffers p) = Some t /\ free_tree (set_free_buffers p t) (list_del x S).
Proof.
  intros [Hrb Hel Hin Hs] Hnd Hx.
  destruct (rb_erase_spec x (free_buffers p)) as (t & -> & Ht & Hi); [done|by rewrite Hel|by rewrite Hel|].
  exists t. split; [done|]. split; simpl; [done| | |].
  - rewrite Hi. unfold list_del. by rewrite Hel.
  - intros b [Hb _]%elem_list_del. by apply Hin.
  - rewrite Hi. by apply StronglySorted_filter.
Qed.

(** The tree of the allocated buffers is the list without the free ones. *)
Definition allocs (f : Z -> bool) (l : list Z) : list Z := filter (fun b => f b = false) l.
Definition frees (f : Z -> bool) (l : list Z) : list Z := filter (fun b => f b = true) l.
Definition allocated (p : binder_proc) (l : list Z) : list Z := allocs (fr p) l.

Definition allocated_tree (p : binder_proc) (l : list Z) : Prop :=
  rb_tree (allocated_buffers p) /\ inorder (allocated_buffers p) = allocated p l.

Lemma elem_allocated (p : binder_proc) (l : list Z) (b : Z) :
  b ∈ allocated p l <-> b ∈ l /\ fr p b = false.
Proof. unfold allocated, allocs. rewrite list_elem_of_filter. tauto. Qed.

Lemma allocated_go_spec (p : binder_proc) (x y : Z) :
  readable p -> y ∈ buffers p -> fr p y = false ->
  allocated_go p x y = Some (if x <? y then Go Lft else if y <? x then Go Rgt else Stop).
Proof.
  intros Hm Hy Hf. unfold allocated_go. destruct (header_spec p Hm y Hy) as (h & -> & _ & Hfh).
  cbn [mbind option_bind]. by rewrite <- Hfh, Hf.
Qed.

(** [x] is in the list, marked allocated, and not yet in the tree. *)
Lemma insert_allocated_spec (p : binder_proc) (x : Z) (l1 l2 : list Z) :
  readable p -> buffers p = l1 ++ x :: l2 -> fr p x = false ->
  rb_tree (allocated_buffers p) -> inorder (allocated_buffers p) = allocated p l1 ++ allocated p l2 ->
  exists t, binder_insert_allocated_buffer p x = Some (set_allocated_buffers p t) /\
    rb_tree t /\ inorder t = allocated p (l1 ++ x :: l2).
Proof.
  intros Hm Hl Hf Hrb Hi. unfold binder_insert_allocated_buffer.
  destruct (header_spec p Hm x) as (h & -> & _ & Hfh); [rewrite Hl; set_solver|].
  cbn [mbind option_bind]. rewrite <- Hfh, Hf. cbn [BUG_ON mbind option_bind].
  pose proof (rd_chain p Hm) as Hc. rewrite Hl in Hc. apply chain_app in Hc as [Hc1 [Hc2 Hc3]].
  fold chain in Hc3.
  destruct (rb_insert_walk (allocated_go p x) (allocated_buffers p) x (allocated p l1) (allocated p l2))
    as (path & t & -> & Ht & Hrb' & Hi'); [done..| | |].
  - intros y [Hy Hyf]%elem_allocated. rewrite allocated_go_spec by (done || rewrite Hl; set_solver).
    destruct (chain_le _ _ _ Hc1 Hy). unfold sizeof_buffer in *.
    rewrite (proj2 (Z.ltb_ge x y)), (proj2 (Z.ltb_lt y x)) by lia. done.
  - intros y [Hy Hyf]%elem_allocated. rewrite allocated_go_spec by (done || rewrite Hl; set_solver).
    destruct (chain_le _ _ _ Hc3 Hy). unfold sizeof_buffer in *.
    by rewrite (proj2 (Z.ltb_lt x y)) by lia.
  - cbn [mbind option_bind]. rewrite Ht. cbn [mbind option_bind]. exists t. split_and!; [done..|].
    rewrite Hi'. unfold allocated, allocs. rewrite filter_app, filter_cons. by rewrite decide_True.
Qed.

(** ** Best fit *)

Section BestFit.
Context (p : binder_proc) (Hm : readable p) (size : Z).
Let sz := bsize (buffers p) (area_end p).

(** The walk over a part of the tree whose buffers are [inorder t]. *)
Lemma best_fit_walk_spec (t : tree) : forall best,
  StronglySorted (fun x y => sz x <= sz y) (inorder t) ->
  (forall b, b ∈ inorder t -> b ∈ buffers p /\ fr p b = true) ->
  exists best' exact, best_fit_walk p size t best = Some (best', exact) /\
    if exact then exists b, best' = Some b /\ b ∈ inorder t /\ sz b = size
    else (best' = best /\ forall y, y ∈ inorder t -> sz y < size) \/
         (exists b, best' = Some b /\ b ∈ inorder t /\ size < sz b /\
            forall y, y ∈ inorder t -> size <= sz y -> sz b <= sz y).
Proof using Hm.
  induction t as [|c l IHl x r IHr]; intros best Hs Hin; simpl.
  { exists best, false. split; [done|]. left. split; [done|]. by intros y ?%not_elem_of_nil. }
  destruct (Hin x) as [Hxb Hxf]; [simpl; set_solver|].
  destruct (header_spec p Hm x Hxb) as (h & -> & _ & Hfh). cbn [mbind option_bind].
  rewrite <- Hfh, Hxf. cbn [negb BUG_ON mbind option_bind].
  destruct (buffer_size_spec p Hm x Hxb) as [-> _]. cbn [mbind option_bind]. fold sz.
  simpl in Hs. apply StronglySorted_app in Hs as (Hlx & Hsl & Hs).
  apply StronglySorted_cons in Hs as [Hxr Hsr]. rewrite Forall_forall in Hxr.
  destruct (Z.ltb_spec size (sz x)); [|destruct (Z.ltb_spec (sz x) size)].
  - destruct (IHl (Some x) Hsl) as (best' & exact & -> & Hres); [intros; apply Hin; simpl; set_solver|].
    exists best', exact. split; [done|]. destruct exact.
    + destruct Hres as (b & -> & Hb & He). exists b. split_and!; [done|set_solver|done].
    + right. destruct Hres as [[-> Hless]|(b & -> & Hb & Hlt & Hmin)].
      * exists x. split_and!; [done|set_solver|done|].
        intros y [Hy|[->|Hy]%elem_of_cons]%elem_of_app Hle; [specialize (Hless y Hy); lia|done|auto].
      * exists b. split_and!; [done|set_solver|done|].
        intros y [Hy|[->|Hy]%elem_of_cons]%elem_of_app Hle; [auto| |].
        -- apply Hlx; [done|by left].
        -- apply Hlx; [done|by right].
  - destruct (IHr best Hsr) as (best' & exact & -> & Hres); [intros; apply Hin; simpl; set_solver|].
    exists best', exact. split; [done|]. destruct exact.
    + destruct Hres as (b & -> & Hb & He). exists b. split_and!; [done|set_solver|done].
    + assert (Hsmall : forall y, y ∈ inorder l \/ y = x -> sz y < size).
      { intros y [Hy| ->]; [|done]. specialize (Hlx y x Hy ltac:(by left)). simpl in Hlx. lia. }
      destruct Hres as [[-> Hless]|(b & -> & Hb & Hlt & Hmin)]; [left|right].
      * split; [done|]. intros y [Hy|[->|Hy]%elem_of_cons]%elem_of_app; auto.
      * exists b. split_and!; [done|set_solver|done|].
        intros y [Hy|[->|Hy]%elem_of_cons]%elem_of_app Hle; [|lia|auto].
        specialize (Hsmall y (or_introl Hy)). lia.
  - exists (Some x), true. split; [done|]. exists x. split_and!; [done|set_solver|lia].
Qed.
End BestFit.

(** ** Flags, lists and sums *)

Lemma fr_insert (m : gmap Z binder_buffer) (b c : Z) (h : binder_buffer) :
  fr_of (<[b := h]> m) c = if decide (c = b) then free h else fr_of m c.
Proof.
  unfold fr_of. case_decide as E; [subst; by rewrite lookup_insert_eq|].
  by rewrite lookup_insert_ne.
Qed.

Lemma elem_frees (f : Z -> bool) (l : list Z) (b : Z) : b ∈ frees f l <-> b ∈ l /\ f b = true.
Proof. unfold frees. rewrite list_elem_of_filter. tauto. Qed.

Lemma frees_app (f : Z -> bool) (l1 l2 : list Z) (b : Z) :
  frees f (l1 ++ b :: l2) = frees f l1 ++ (if f b then [b] else []) ++ frees f l2.
Proof.
  unfold frees. rewrite filter_app, filter_cons. destruct (f b); [by rewrite decide_True|].
  by rewrite decide_False.
Qed.

Lemma allocs_app (f : Z -> bool) (l1 l2 : list Z) (b : Z) :
  allocs f (l1 ++ b :: l2) = allocs f l1 ++ (if f b then [] else [b]) ++ allocs f l2.
Proof.
  unfold allocs. rewrite filter_app, filter_cons. destruct (f b); [by rewrite decide_False|].
  by rewrite decide_True.
Qed.

Lemma frees_ext (f g : Z -> bool) (l : list Z) : (forall b, b ∈ l -> f b = g b) -> frees f l = frees g l.
Proof.
  intros H. induction l as [|x l IH]; [done|]. unfold frees in *. rewrite !filter_cons, (H x) by by left.
  rewrite IH by (intros; apply H; by right). done.
Qed.

Lemma allocs_ext (f g : Z -> bool) (l : list Z) : (forall b, b ∈ l -> f b = g b) -> allocs f l = allocs g l.
Proof.
  intros H. induction l as [|x l IH]; [done|]. unfold allocs in *. rewrite !filter_cons, (H x) by by left.
  rewrite IH by (intros; apply H; by right). done.
Qed.

(** No two neighbours are free. *)
Fixpoint merged (f : Z -> bool) (l : list Z) : Prop :=
  match l with
  | a :: l' =>
      match l' with
      | b :: _ => ~ (f a = true /\ f b = true)
      | [] => True
      end /\ merged f l'
  | [] => True
  end.

Lemma merged_app (f : Z -> bool) (l1 l2 : list Z) (b : Z) :
  merged f (l1 ++ b :: l2) <-> merged f (l1 ++ [b]) /\ merged f (b :: l2).
Proof.
  induction l1 as [|a l1 IH]; simpl app.
  - simpl. tauto.
  - destruct l1 as [|a' l1]; simpl app in *; [simpl; tauto|].
    change (merged f (a :: a' :: l1 ++ b :: l2)) with
      (~ (f a = true /\ f a' = true) /\ merged f (a' :: l1 ++ b :: l2)).
    change (merged f (a :: a' :: l1 ++ [b])) with
      (~ (f a = true /\ f a' = true) /\ merged f (a' :: l1 ++ [b])).
    rewrite IH. tauto.
Qed.

Lemma merged_mono (f g : Z -> bool) (l : list Z) :
  (forall b, b ∈ l -> g b = true -> f b = true) -> merged f l -> merged g l.
Proof.
  induction l as [|a l IH]; [done|]. intros H [H1 H2]. split.
  - destruct l as [|b l]; [done|]. intros [Ha Hb]. apply H1. split; apply H; set_solver.
  - apply IH; [|done]. intros b Hb. apply H. by right.
Qed.

(** The size of an allocation and what it costs of the asynchronous space. *)
Definition asize (h : binder_buffer) : Z :=
  (data_size h + 3) / 4 * 4 + (offsets_size h + 3) / 4 * 4.

Definition acost (m : gmap Z binder_buffer) (b : Z) : Z :=
  match m !! b with
  | Some h => if negb (free h) && async_transaction h then asize h + sizeof_buffer else 0
  | None => 0
  end.

Fixpoint asum (m : gmap Z binder_buffer) (l : list Z) : Z :=
  match l with
  | [] => 0
  | b :: l => acost m b + asum m l
  end.

Lemma asum_app (m : gmap Z binder_buffer) (l1 l2 : list Z) : asum m (l1 ++ l2) = asum m l1 + asum m l2.
Proof. induction l1; simpl; lia. Qed.

Lemma asum_ext (m m' : gmap Z binder_buffer) (l : list Z) :
  (forall b, b ∈ l -> m !! b = m' !! b) -> asum m l = asum m' l.
Proof.
  induction l as [|x l IH]; intros H; simpl; [done|]. unfold acost. rewrite (H x) by by left.
  f_equal. apply IH. intros b Hb. apply H. by right.
Qed.

(** ** The invariant *)

Record binder_inv (p : binder_proc) : Prop := {
  bi_read : readable p;
  bi_pages : pages_exact p;
  bi_free : free_tree p (frees (fr p) (buffers p));
  bi_alloc : rb_tree (allocated_buffers p) /\
    inorder (allocated_buffers p) = allocs (fr p) (buffers p);
  bi_merged : merged (fr p) (buffers p);
  bi_sizes : forall b h, b ∈ buffers p -> headers p !! b = Some h -> free h = false ->
    0 <= data_size h < 4294967296 /\ 0 <= offsets_size h < 4294967296 /\
    asize h <= bsize (buffers p) (area_end p) b;
  bi_async : 0 <= free_async_space p < 4294967296 /\
    free_async_space p + asum (headers p) (buffers p) = buffer_size p / 2
}.

Lemma readable_mono (p q : binder_proc) :
  readable p -> buffer q = buffer p -> buffer_size q = buffer_size p -> npages q = npages p ->
  buffers q = buffers p -> pages p ⊆ pages q ->
  (forall b, b ∈ buffers p -> is_Some (headers q !! b)) -> readable q.
Proof.
  intros [[H1 H2 H3] Hh Hc Hd Hmap] Eb Es En El Hp Hhd. unfold area_end in *.
  split; rewrite ?Eb, ?El; try done.
  - split; unfold area_end; rewrite ?Eb, ?Es, ?En; done.
  - unfold area_end. by rewrite Eb, Es.
  - intros b Hb. specialize (Hmap b Hb). unfold header_mapped, page_index in *. rewrite Eb.
    apply andb_true_iff in Hmap as [?%bool_decide_eq_true ?%bool_decide_eq_true].
    rewrite !bool_decide_eq_true_2 by set_solver. done.
Qed.

Lemma sorted_ext (sz sz' : Z -> Z) (l : list Z) :
  (forall x, x ∈ l -> sz x = sz' x) ->
  StronglySorted (fun x y => sz x <= sz y) l -> StronglySorted (fun x y => sz' x <= sz' y) l.
Proof.
  intros H Hs. induction Hs as [|x l Hl IH Hx]; [constructor|]. constructor.
  - apply IH. intros y Hy. apply H. by right.
  - apply Forall_forall. intros y Hy. rewrite Forall_forall in Hx.
    rewrite <- !H by (by left || by right). by apply Hx.
Qed.

Lemma free_tree_ext (p q : binder_proc) (S : list Z) :
  free_tree p S -> free_buffers q = free_buffers p ->
  (forall b, b ∈ S -> b ∈ buffers q /\ fr q b = true /\
     bsize (buffers q) (area_end q) b = bsize (buffers p) (area_end p) b) ->
  free_tree q S.
Proof.
  intros [Hrb Hel Hin Hs] E H. split; rewrite ?E; try done.
  - intros b Hb. by destruct (H b Hb) as (? & ? & _).
  - apply sorted_ext with (sz := bsize (buffers p) (area_end p)); [|done].
    intros x Hx. rewrite Hel in Hx. by destruct (H x Hx) as (_ & _ & ->).
Qed.

Lemma free_tree_perm (p : binder_proc) (S S' : list Z) : S ≡ₚ S' -> free_tree p S -> free_tree p S'.
Proof.
  intros E [Hrb Hel Hin Hs]. split; [done| | |done].
  - by rewrite Hel.
  - intros b Hb. apply Hin. by rewrite E.
Qed.

(** ** Page ranges by address *)

Lemma page_address (p : binder_proc) (x : Z) :
  geometry p -> x mod 4096 = 0 -> exists a, x = buffer p + 4096 * a.
Proof.
  intros [[_ Hb] _ _] Hx. exists (x / 4096 - buffer p / 4096).
  page_facts (buffer p) qb. page_facts x qx. lia.
Qed.

Lemma alloc_pages_spec (env : mm_env) (p : binder_proc) (x y : Z) (v : bool) :
  geometry p -> x mod 4096 = 0 -> y mod 4096 = 0 -> buffer p <= x -> y <= area_end p ->
  (forall i, 0 <= i < npages p -> x <= buffer p + 4096 * i < y -> i ∉ pages p) ->
  exists s, (forall i, i ∈ s <-> i ∈ pages p \/ x <= buffer p + 4096 * i < y) /\
    (binder_update_page_range env p true x y v = Some (set_pages p s, 0) \/
     binder_update_page_range env p true x y v = Some (p, - ENOMEM) /\
     (v = false /\ (task_mm env = false \/ vma p = false) \/ exists a, page_try env a <> PageOk)).
Proof.
  intros Hg Hx Hy Hlo Hhi Hno. destruct (page_address p x Hg Hx) as [a ->].
  destruct (page_address p y Hg Hy) as [c ->]. destruct Hg as [_ [_ Hs] _]. unfold area_end in *.
  exists (range a (c - a) ∪ pages p). split.
  - intros i. rewrite elem_of_union, elem_of_range. split; [intros [|]; [right; lia|by left]|].
    intros [|]; [by right|left; lia].
  - apply update_page_range_alloc; [lia..|]. intros i Hr. apply Hno; lia.
Qed.

Lemma free_pages_spec (env : mm_env) (p : binder_proc) (x y : Z) (v : bool) :
  geometry p -> x mod 4096 = 0 -> y mod 4096 = 0 -> buffer p <= x -> y <= area_end p ->
  (forall i, 0 <= i < npages p -> x <= buffer p + 4096 * i < y -> i ∈ pages p) ->
  exists s ret, (forall i, i ∈ s <-> i ∈ pages p /\ ~ (x <= buffer p + 4096 * i < y)) /\
    binder_update_page_range env p false x y v = Some (set_pages p s, ret).
Proof.
  intros Hg Hx Hy Hlo Hhi Hin. destruct (page_address p x Hg Hx) as [a ->].
  destruct (page_address p y Hg Hy) as [c ->]. destruct Hg as [_ [_ Hs] _]. unfold area_end in *.
  destruct (update_page_range_free env p a c v) as [ret E]; [lia..| |].
  { intros i Hr%elem_of_range. apply Hin; lia. }
  exists (pages p ∖ range a (c - a)), ret. split; [|done].
  intros i. rewrite elem_of_difference, elem_of_range. split; intros [? H]; (split; [done|lia]).
Qed.

(** ** Allocation *)

Section Alloc.
Context (p : binder_proc) (Hi : binder_inv p).
Context (l1 l2 : list Z) (b : Z) (h : binder_buffer).
Context (El : buffers p = l1 ++ b :: l2) (Hb : headers p !! b = Some h) (Hfree : free h = true).

Lemma alloc_notin : (b ∉ l1) /\ (b ∉ l2).
Proof using Hi El.
  pose proof (buffers_NoDup p (bi_read p Hi)) as Hnd. rewrite El in Hnd.
  apply NoDup_app in Hnd as (_ & H1 & H2). apply NoDup_cons in H2 as [H2 _].
  split; [|done]. intros Hin. apply (H1 b Hin). by left.
Qed.

Lemma alloc_in : b ∈ buffers p.
Proof using El. rewrite El. apply elem_of_app. right. by left. Qed.

Lemma alloc_fr : fr p b = true.
Proof using Hb Hfree. unfold fr, fr_of. by rewrite Hb. Qed.

(** [b] leaves the free tree, is marked and enters the other one. *)
Lemma alloc_mark (s : gset Z) :
  pages p ⊆ s ->
  exists t ta,
    let q0 := set_free_buffers (set_pages p s) t in
    let q1 := set_headers q0 (<[b := set_free h false]> (headers p)) in
    let q := set_allocated_buffers q1 ta in
    rb_erase b (free_buffers p) = Some t /\ header q0 b = Some h /\
    set_header q0 b (set_free h false) = Some q1 /\
    binder_insert_allocated_buffer q1 b = Some q /\
    readable q /\ free_tree q (frees (fr p) l1 ++ frees (fr p) l2) /\
    rb_tree ta /\ inorder ta = allocs (fr q) (buffers p).
Proof using Hi El Hb Hfree.
  intros Hs. pose proof alloc_notin as [Hn1 Hn2]. pose proof alloc_fr as Hfr.
  pose proof (bi_read p Hi) as Hrd. destruct (bi_alloc p Hi) as [Hrb Hin].
  pose proof (bi_free p Hi) as Hft. rewrite El, frees_app, Hfr in Hft. simpl in Hft.
  assert (Hnd : NoDup (frees (fr p) l1 ++ b :: frees (fr p) l2)).
  { change (b :: frees (fr p) l2) with ([b] ++ frees (fr p) l2).
    replace [b] with (if fr p b then [b] else []) by by rewrite Hfr.
    rewrite <- frees_app, <- El. apply NoDup_filter, buffers_NoDup, Hrd. }
  destruct (erase_free_spec p b _ Hft Hnd) as (t & Et & Hft'); [set_solver|].
  rewrite list_del_nodup in Hft' by done.
  set (q0 := set_free_buffers (set_pages p s) t).
  set (q1 := set_headers q0 (<[b := set_free h false]> (headers p))).
  assert (Hrd0 : readable q0) by (apply (readable_mono p); try done; apply Hrd).
  assert (Hrd1 : readable q1).
  { apply (readable_mono p); try done. intros c Hc. simpl. destruct (decide (c = b)) as [->|].
    - rewrite lookup_insert_eq. by eexists.
    - rewrite lookup_insert_ne by done. by apply Hrd. }
  assert (Hfr1 : forall c, c <> b -> fr q1 c = fr p c).
  { intros c Hc. unfold fr. simpl. rewrite fr_insert. by rewrite decide_False. }
  assert (Hfrb : fr q1 b = false).
  { unfold fr. simpl. rewrite fr_insert. by rewrite decide_True. }
  destruct (insert_allocated_spec q1 b l1 l2) as (ta & Eta & Hrta & Hita).
  - done.
  - done.
  - done.
  - done.
  - unfold allocated. simpl. rewrite Hin, El, allocs_app, Hfr. simpl.
    f_equal; apply allocs_ext; intros c Hc; symmetry; apply Hfr1; congruence.
  - exists t, ta. cbv zeta. fold q0 q1. split_and!; try done.
    + destruct (header_spec q0 Hrd0 b alloc_in) as (h' & -> & Hh & _). simpl in Hh. congruence.
    + unfold set_header. by rewrite (rd_mapped q0 Hrd0 b alloc_in).
    + apply (readable_mono q1); try done; apply Hrd1.
    + apply (free_tree_ext (set_free_buffers p t)); [done..|].
      intros c Hc. destruct (ft_in _ _ Hft' c Hc) as [Hc1 Hc2]. split; [done|]. split; [|done].
      assert (c <> b) by (intros ->; apply elem_of_app in Hc as [[? _]%elem_frees|[? _]%elem_frees]; done).
      rewrite <- Hc2. by apply Hfr1.
    + rewrite El. done.
Qed.

(** Where the neighbours of [b] are. *)
Lemma alloc_bounds :
  buffer p <= b /\ b + sizeof_buffer <= nxt l2 (area_end p) <= area_end p /\
  chain l1 b /\ chain l2 (area_end p).
Proof using Hi El.
  destruct (buffer_range p (bi_read p Hi) b alloc_in) as [Hr _].
  pose proof (rd_chain p (bi_read p Hi)) as Hc. rewrite El in Hc.
  apply chain_app in Hc as [H1 [H2 H3]]. fold chain in H3. pose proof (chain_nxt _ _ H3).
  split_and!; done.
Qed.

Lemma alloc_bsize : bsize (buffers p) (area_end p) b = nxt l2 (area_end p) - data b.
Proof using Hi El. rewrite El. apply bsize_app, alloc_notin. Qed.

(** The fields binder_alloc_buf() fills in. *)
Context (ds os : Z) (is_async : bool).
Context (Hds : 0 <= ds < 4294967296) (Hos : 0 <= os < 4294967296).
Let size := (ds + 3) / 4 * 4 + (os + 3) / 4 * 4.
Let h2 := mk_buffer false is_async (transaction h) ds os.
Context (Hasync : is_async = true -> size + sizeof_buffer <= free_async_space p).
Let async_left := if is_async then free_async_space p - (size + sizeof_buffer) else free_async_space p.

Lemma alloc_acost (m : gmap Z binder_buffer) :
  acost (<[b := h2]> m) b = free_async_space p - async_left.
Proof using.
  clear Hasync. unfold acost. rewrite lookup_insert_eq. unfold async_left. simpl.
  destruct is_async; simpl; unfold asize, size; simpl; lia.
Qed.

(** The state in which all of [b] is allocated. *)
Lemma alloc_whole (q : binder_proc) (t ta : tree) (s : gset Z) :
  q = mk_proc (vma p) (buffer p) (buffer_size p) (user_buffer_offset p) (buffers p)
        (<[b := h2]> (headers p)) t ta async_left s (npages p) ->
  free_tree q (frees (fr p) l1 ++ frees (fr p) l2) ->
  rb_tree ta -> inorder ta = allocs (fr q) (buffers p) ->
  size <= nxt l2 (area_end p) - data b ->
  (forall i, i ∈ s <-> i ∈ pages p \/
     (b + sizeof_buffer + 4095) / 4096 * 4096 <= buffer p + 4096 * i < nxt l2 (area_end p) / 4096 * 4096) ->
  binder_inv q.
Proof using All.
  intros -> Hft Hrta Hita Hsz Hs. set (q := mk_proc _ _ _ _ _ _ _ _ _ _ _) in *.
  pose proof alloc_notin as [Hn1 Hn2]. pose proof alloc_fr as Hfr.
  destruct alloc_bounds as (Hb1 & [Hb2 Hb3] & Hc1 & Hc2).
  assert (Hfrq : forall c, fr q c = if decide (c = b) then false else fr p c).
  { intros c. unfold fr. simpl. rewrite fr_insert. by case_decide. }
  assert (Hfrb : fr q b = false) by (by rewrite Hfrq, decide_True).
  assert (Hagree : forall c, c ∈ l1 ++ l2 -> fr p c = fr q c).
  { intros c Hc. rewrite Hfrq, decide_False; [done|]. intros ->. apply elem_of_app in Hc as [|]; done. }
  destruct (bi_read p Hi) as [Hgeo Hhead Hchain Hhd Hmap].
  assert (Hpages : pages_exact q).
  { intros i. change (pages q) with s. rewrite Hs, (bi_pages p Hi i). simpl. change (area_end q) with (area_end p).
    destruct Hgeo as [[? Hal] [? Hps] ?].
    destruct (data_pages l1 l2 b (area_end p) (buffer p + 4096 * i)) with (fr := fr p) (fr' := fr q) as [Hd _].
    - by rewrite <- El.
    - rewrite Z.mul_comm. by rewrite Z_mod_plus_full.
    - unfold area_end. rewrite Hps, Z.mul_comm. by rewrite Z_mod_plus_full.
    - done.
    - done.
    - done.
    - rewrite El. rewrite Hd. unfold area_end, sizeof_buffer in *.
      page_facts (b + 40 + 4095) qlo. page_facts (nxt l2 (buffer p + buffer_size p)) qhi.
      split; [intros [[? ?]|?]; [tauto|split; [lia|tauto]]|tauto]. }
  split.
  - apply (readable_mono p); try done.
    + intros i Hp. apply Hs. by left.
    + intros c Hc. simpl. destruct (decide (c = b)) as [->|]; [rewrite lookup_insert_eq; by eexists|].
      rewrite lookup_insert_ne by done. by apply Hhd.
  - done.
  - simpl. rewrite El, frees_app, Hfrb. simpl.
    rewrite <- (frees_ext (fr p) (fr q) l1), <- (frees_ext (fr p) (fr q) l2) by (intros; apply Hagree; set_solver).
    done.
  - by split.
  - apply (merged_mono (fr p)); [|apply Hi]. intros c Hc. rewrite Hfrq. by case_decide.
  - intros c hc Hc Hh Hf. simpl in Hh. destruct (decide (c = b)) as [->|].
    + rewrite lookup_insert_eq in Hh. injection Hh as <-. simpl.
      change (area_end q) with (area_end p). rewrite alloc_bsize. done.
    + rewrite lookup_insert_ne in Hh by done. by apply (bi_sizes p Hi).
  - simpl. destruct (bi_async p Hi) as [Ha1 Ha2]. split.
    + unfold async_left. destruct is_async; [|done]. specialize (Hasync eq_refl).
      unfold sizeof_buffer, size in *. pose proof (Z.div_pos (ds + 3) 4). pose proof (Z.div_pos (os + 3) 4). lia.
    + rewrite <- Ha2. rewrite El, !asum_app. simpl. rewrite alloc_acost.
      rewrite (asum_ext (<[b:=h2]> (headers p)) (headers p) l1), (asum_ext (<[b:=h2]> (headers p)) (headers p) l2)
        by (intros; apply lookup_insert_ne; congruence).
      unfold acost at 1. rewrite Hb, Hfree. simpl. lia.
Qed.

(** The state in which [b] is allocated and the rest of it is the free buffer
    [nb]. *)
Section Split.
Context (m : gmap Z binder_buffer) (t ta : tree) (s : gset Z) (g : binder_buffer).
Let nb := data b + size.
Let q := mk_proc (vma p) (buffer p) (buffer_size p) (user_buffer_offset p) (l1 ++ b :: nb :: l2)
           m t ta async_left s (npages p).
Context (Hmb : m !! b = Some h2) (Hmn : m !! nb = Some g) (Hg : free g = true).
Context (Hmo : forall c, c <> b -> c <> nb -> m !! c = headers p !! c).
Context (Hfit : nb + sizeof_buffer <= nxt l2 (area_end p)).
Context (Hs : forall i, i ∈ s <-> i ∈ pages p \/
     (b + sizeof_buffer + 4095) / 4096 * 4096 <= buffer p + 4096 * i <
     Z.min ((nb + sizeof_buffer + 4095) / 4096 * 4096) (nxt l2 (area_end p) / 4096 * 4096)).

Lemma split_new : b + sizeof_buffer <= nb /\ nb <> b /\ (nb ∉ l1) /\ (nb ∉ l2).
Proof using All.
  destruct alloc_bounds as (Hb1 & [Hb2 Hb3] & Hc1 & Hc2).
  assert (Hsize : 0 <= size) by (unfold size; pose proof (Z.div_pos (ds + 3) 4); pose proof (Z.div_pos (os + 3) 4); lia).
  assert (Hbnb : b + sizeof_buffer <= nb) by (unfold nb, data; lia). split; [done|].
  split; [unfold sizeof_buffer in *; lia|].
  split; intros Hin; [destruct (chain_le _ _ _ Hc1 Hin)|destruct (chain_le _ _ _ Hc2 Hin)]; unfold sizeof_buffer in *; lia.
Qed.

Lemma split_ne (c : Z) : c ∈ l1 ++ l2 -> c <> b /\ c <> nb.
Proof using All.
  destruct split_new as (_ & _ & ? & ?). pose proof alloc_notin as [? ?].
  intros Hc. split; intros ->; apply elem_of_app in Hc as [|]; done.
Qed.

Lemma split_fr : fr q b = false /\ fr q nb = true /\ forall c, c ∈ l1 ++ l2 -> fr p c = fr q c.
Proof using All.
  split; [unfold fr, fr_of; simpl; by rewrite Hmb|]. split; [unfold fr, fr_of; simpl; by rewrite Hmn|].
  intros c Hc. destruct (split_ne c Hc). unfold fr, fr_of. simpl. by rewrite Hmo.
Qed.

Lemma split_chain : chain (buffers q) (area_end q).
Proof using All.
  destruct alloc_bounds as (Hb1 & [Hb2 Hb3] & Hc1 & Hc2). destruct split_new as (Hbnb & _).
  change (area_end q) with (area_end p). apply chain_app. split; [done|]. split; [done|]. by split.
Qed.

Lemma split_exact : pages_exact q.
Proof using All.
  destruct split_new as (Hbnb & Hnb & Hnb1 & Hnb2). destruct split_fr as (Hfrb & Hfrn & Hagree).
  destruct alloc_bounds as (Hb1 & [Hb2 Hb3] & Hc1 & Hc2). pose proof alloc_fr as Hfr.
  destruct (bi_read p Hi) as [Hgeo Hhead Hchain Hhd Hmap]. pose proof Hgeo as [[? Hal] [? Hps] Hmax].
  intros i. change (pages q) with s. rewrite Hs, (bi_pages p Hi i). simpl. change (area_end q) with (area_end p).
  rewrite (split_pages l1 l2 b (area_end p) (buffer p + 4096 * i)) with (fr := fr p) (nb := nb); try done.
  - rewrite El. unfold area_end, sizeof_buffer in *.
    page_facts (b + 40 + 4095) qlo. page_facts (nxt l2 (buffer p + buffer_size p)) qhi.
    split; [intros [[? ?]|?]; [tauto|split; [lia|tauto]]|tauto].
  - by rewrite <- El.
  - rewrite Z.mul_comm. by rewrite Z_mod_plus_full.
  - unfold area_end. rewrite Hps, Z.mul_comm. by rewrite Z_mod_plus_full.
Qed.

Lemma split_readable : readable q.
Proof using All.
  destruct (bi_read p Hi) as [Hgeo Hhead Hchain Hhd Hmap]. assert (Hgeoq : geometry q) by (destruct Hgeo; by split).
  assert (Hheadq : head (buffers q) = Some (buffer q)) by (rewrite El in Hhead; by destruct l1).
  split; [done|done|apply split_chain| |apply exact_mapped; [done|apply split_chain|done|apply split_exact]].
  intros c Hc. simpl in Hc |- *.
  apply elem_of_app in Hc as [Hc|[->|[->|Hc]%elem_of_cons]%elem_of_cons]; [|by eexists|by eexists|];
    (destruct (split_ne c) as [? ?]; [set_solver|]; rewrite Hmo by done; apply Hhd; rewrite El; set_solver).
Qed.

Lemma split_frees : frees (fr q) (buffers q) ≡ₚ nb :: frees (fr p) l1 ++ frees (fr p) l2.
Proof using All.
  destruct split_fr as (Hfrb & Hfrn & Hagree). simpl. rewrite frees_app, Hfrb. simpl. change (nb :: l2) with ([] ++ nb :: l2).
  rewrite frees_app, Hfrn. simpl.
  rewrite <- (frees_ext (fr p) (fr q) l1), <- (frees_ext (fr p) (fr q) l2) by (intros; apply Hagree; set_solver).
  symmetry. apply Permutation_middle.
Qed.

Lemma split_merged : merged (fr q) (buffers q).
Proof using All.
  destruct split_fr as (Hfrb & Hfrn & Hagree). pose proof alloc_fr as Hfr.
  pose proof (bi_merged p Hi) as Hmg. rewrite El in Hmg. apply merged_app in Hmg as [Hm1 Hm2].
  simpl. apply merged_app. split.
  - apply (merged_mono (fr p)); [|done]. intros c [Hc|Hc]%elem_of_app.
    + rewrite <- Hagree by set_solver. done.
    + apply list_elem_of_singleton in Hc as ->. congruence.
  - split; [rewrite Hfrb; naive_solver|]. split.
    + destruct l2 as [|c l2']; [done|]. destruct Hm2 as [Hm2 _].
      rewrite <- (Hagree c) by set_solver. rewrite Hfr in Hm2. tauto.
    + destruct Hm2 as [_ Hm2]. apply (merged_mono (fr p)); [|done].
      intros c Hc. rewrite <- Hagree by set_solver. done.
Qed.

Lemma split_bsize (c : Z) : c ∈ buffers p -> c <> b -> bsize (buffers q) (area_end q) c = bsize (buffers p) (area_end p) c.
Proof using All.
  destruct split_new as (_ & Hnb & Hnb1 & Hnb2). pose proof alloc_notin as [? ?].
  intros Hc Hcb. change (area_end q) with (area_end p). unfold bsize. simpl. rewrite El in Hc |- *.
  rewrite list_next_insert; [done|done|]. intros ->. apply elem_of_app in Hc as [|[|]%elem_of_cons]; done.
Qed.

Lemma split_async : 0 <= async_left < 4294967296 /\ async_left + asum m (l1 ++ b :: nb :: l2) = buffer_size p / 2.
Proof using All.
  destruct (bi_async p Hi) as [Ha1 Ha2]. split.
  - unfold async_left. destruct is_async; [|done]. specialize (Hasync eq_refl).
    assert (0 <= size) by (unfold size; pose proof (Z.div_pos (ds + 3) 4); pose proof (Z.div_pos (os + 3) 4); lia).
    unfold sizeof_buffer in *. lia.
  - rewrite <- Ha2. rewrite El, !asum_app. simpl.
    rewrite (asum_ext m (headers p) l1), (asum_ext m (headers p) l2)
      by (intros c Hc; destruct (split_ne c); [set_solver|by apply Hmo]).
    unfold acost. rewrite Hmb, Hmn, Hb, Hg, Hfree. simpl. unfold async_left.
    destruct is_async; simpl; unfold asize, size; simpl; lia.
Qed.
End Split.

Lemma alloc_split (q : binder_proc) (m : gmap Z binder_buffer) (t ta : tree) (s : gset Z) (g : binder_buffer) :
  let nb := data b + size in
  q = mk_proc (vma p) (buffer p) (buffer_size p) (user_buffer_offset p) (l1 ++ b :: nb :: l2)
        m t ta async_left s (npages p) ->
  m !! b = Some h2 -> m !! nb = Some g -> free g = true ->
  (forall c, c <> b -> c <> nb -> m !! c = headers p !! c) ->
  free_tree q (nb :: frees (fr p) l1 ++ frees (fr p) l2) ->
  rb_tree ta -> inorder ta = allocs (fr q) (l1 ++ b :: nb :: l2) ->
  nb + sizeof_buffer <= nxt l2 (area_end p) ->
  (forall i, i ∈ s <-> i ∈ pages p \/
     (b + sizeof_buffer + 4095) / 4096 * 4096 <= buffer p + 4096 * i <
     Z.min ((nb + sizeof_buffer + 4095) / 4096 * 4096) (nxt l2 (area_end p) / 4096 * 4096)) ->
  binder_inv q.
Proof using All.
  intros nb -> Hmb Hmn Hg Hmo Hft Hrta Hita Hfit Hs. pose proof alloc_notin as [Hn1 Hn2]. split.
  - by apply (split_readable m t ta s g).
  - by apply (split_exact m t ta s g).
  - apply (free_tree_perm _ (nb :: frees (fr p) l1 ++ frees (fr p) l2)); [|done]. symmetry. by apply (split_frees m t ta s g).
  - by split.
  - by apply (split_merged m t ta s g).
  - intros c hc Hc Hh Hf. simpl in Hc, Hh.
    destruct (decide (c = b)) as [->|Hcb]; [|destruct (decide (c = nb)) as [->|Hcn]].
    + rewrite Hmb in Hh. injection Hh as <-. simpl. split; [done|]. split; [done|].
      rewrite bsize_app by done. change (nxt (nb :: l2) _) with nb. unfold nb, asize, size. simpl. lia.
    + congruence.
    + rewrite Hmo in Hh by done. assert (Hc' : c ∈ buffers p) by (rewrite El; set_solver).
      rewrite (split_bsize m t ta s g) by done. by apply (bi_sizes p Hi).
  - by apply (split_async m t ta s g).
Qed.
End Alloc.

(** What a successful allocation promises: the smallest free buffer that is
    large enough, marked with the sizes asked for, and every buffer that was
    allocated before untouched. *)
Definition alloc_post (p q : binder_proc) (b ds os : Z) (is_async : bool) : Prop :=
  let size := (ds + 3) / 4 * 4 + (os + 3) / 4 * 4 in
  let sz := bsize (buffers p) (area_end p) in
  (b ∈ buffers p /\ fr p b = true /\ size <= sz b /\
   forall y, y ∈ buffers p -> fr p y = true -> size <= sz y -> sz b <= sz y) /\
  (b ∈ buffers q /\ exists tr, headers q !! b = Some (mk_buffer false is_async tr ds os)) /\
  (forall c h, c ∈ buffers p -> headers p !! c = Some h -> free h = false ->
     c ∈ buffers q /\ headers q !! c = Some h /\ bsize (buffers q) (area_end q) c = sz c).

(** Why an allocation can fail. *)
Definition alloc_refused (env : mm_env) (p : binder_proc) (ds os : Z) (is_async : bool) : Prop :=
  let size := (ds + 3) / 4 * 4 + (os + 3) / 4 * 4 in
  vma p = false \/ 4294967296 <= size \/
  (is_async = true /\ free_async_space p < size + sizeof_buffer) \/
  (forall y, y ∈ buffers p -> fr p y = true -> bsize (buffers p) (area_end p) y < size) \/
  task_mm env = false \/ exists a, page_try env a <> PageOk.

Section AllocRun.
Context (p : binder_proc) (Hi : binder_inv p).
Context (l1 l2 : list Z) (b : Z) (h : binder_buffer).
Context (El : buffers p = l1 ++ b :: l2) (Hb : headers p !! b = Some h) (Hfree : free h = true).
Context (ds os : Z) (is_async : bool).
Context (Hds : 0 <= ds < 4294967296) (Hos : 0 <= os < 4294967296).
Let size := (ds + 3) / 4 * 4 + (os + 3) / 4 * 4.
Context (Hasync : is_async = true -> size + sizeof_buffer <= free_async_space p).
Context (Hfit : size <= bsize (buffers p) (area_end p) b).
Context (Hbest : forall y, y ∈ buffers p -> fr p y = true -> size <= bsize (buffers p) (area_end p) y ->
  bsize (buffers p) (area_end p) b <= bsize (buffers p) (area_end p) y).

(** binder_alloc_buf() after the pages have been added. *)
Definition alloc_rest (garbage : binder_buffer) (p' : binder_proc) (split : bool) : option (binder_proc * option Z) :=
  t ← rb_erase b (free_buffers p');
  let p := set_free_buffers p' t in
  h ← header p b;
  p ← set_header p b (set_free h false);
  p ← binder_insert_allocated_buffer p b;
  p ← (if split then
         let new_buffer := data b + size in
         let p := set_buffers p (list_add new_buffer b (buffers p)) in
         p ← new_header p garbage new_buffer;
         binder_insert_free_buffer p new_buffer
       else Some p);
  h ← header p b;
  p ← set_header p b (set_allocated h ds os is_async);
  let p := if is_async
           then set_free_async_space p (free_async_space p -ᵤ (size +ᵤ sizeof_buffer))
           else p in
  Some (p, Some b).

Lemma alloc_size_bound : 0 <= size /\ size + sizeof_buffer <= nxt l2 (area_end p) - b /\ nxt l2 (area_end p) < 4294967296.
Proof using Hi El Hds Hos Hfit.
  rewrite (alloc_bsize p Hi l1 l2 b El) in Hfit.
  destruct (alloc_bounds p Hi l1 l2 b El) as (? & ? & _). pose proof (rd_geo _ (bi_read p Hi)) as [_ _ ?].
  unfold size, data in *. pose proof (Z.div_pos (ds + 3) 4). pose proof (Z.div_pos (os + 3) 4). lia.
Qed.

Lemma async_wrap :
  (if is_async then free_async_space p -ᵤ (size +ᵤ sizeof_buffer) else free_async_space p) =
  (if is_async then free_async_space p - (size + sizeof_buffer) else free_async_space p).
Proof using Hi El Hds Hos Hfit Hasync.
  destruct alloc_size_bound as (? & ? & ?). destruct (alloc_bounds p Hi l1 l2 b El) as (? & _).
  pose proof (rd_geo _ (bi_read p Hi)) as [[? _] _ _].
  destruct is_async; [|done]. specialize (Hasync eq_refl). destruct (bi_async p Hi) as [? _].
  unfold sizeof_buffer in *. by rewrite !u32_small by (rewrite ?u32_small by lia; lia).
Qed.

Lemma alloc_rest_whole (garbage : binder_buffer) (s : gset Z) :
  (forall i, i ∈ s <-> i ∈ pages p \/
     (b + sizeof_buffer + 4095) / 4096 * 4096 <= buffer p + 4096 * i < nxt l2 (area_end p) / 4096 * 4096) ->
  exists q, alloc_rest garbage (set_pages p s) false = Some (q, Some b) /\ binder_inv q /\
    alloc_post p q b ds os is_async.
Proof using All.
  intros Hs. destruct (alloc_mark p Hi l1 l2 b h El Hb Hfree s) as
    (t & ta & Et & Eh & Es & Ei & Hrd & Hft & Hrta & Hita); [intros i ?; apply Hs; by left|].
  unfold alloc_rest. simpl free_buffers. rewrite Et. cbn [mbind option_bind]. rewrite Eh. cbn [mbind option_bind].
  rewrite Es. cbn [mbind option_bind]. rewrite Ei. cbn [mbind option_bind].
  set (q := set_allocated_buffers _ ta) in *.
  assert (Hin : b ∈ buffers q) by (apply (alloc_in p l1 l2 b El)).
  destruct (header_spec q Hrd b Hin) as (h' & -> & Hh' & _). simpl in Hh'. rewrite lookup_insert_eq in Hh'.
  injection Hh' as <-. cbn [mbind option_bind]. rewrite (set_header_spec q Hrd b _ Hin).
  cbn [mbind option_bind]. set (h2 := mk_buffer false is_async (transaction h) ds os).
  change (set_allocated (set_free h false) ds os is_async) with h2. simpl headers.
  rewrite insert_insert_eq.
  set (q' := if is_async then _ else _).
  set (left := if is_async then free_async_space p - (size + sizeof_buffer) else free_async_space p).
  assert (Eq : q' = mk_proc (vma p) (buffer p) (buffer_size p) (user_buffer_offset p) (buffers p)
        (<[b := h2]> (headers p)) t ta left s (npages p)).
  { unfold q', left. rewrite <- async_wrap. by destruct is_async. }
  assert (Hfr : forall c, fr q' c = fr q c).
  { intros c. rewrite Eq. unfold fr. simpl. rewrite !fr_insert. by case_decide. }
  exists q'. split; [done|]. split.
  - apply (alloc_whole p Hi l1 l2 b h El Hb Hfree ds os is_async Hds Hos Hasync q' t ta s Eq); try done.
    + apply (free_tree_ext q); [done|by rewrite Eq|]. intros c Hc.
      destruct (ft_in _ _ Hft c Hc). rewrite Hfr. by rewrite Eq.
    + rewrite Hita. apply allocs_ext. intros c _. by rewrite Hfr.
    + rewrite <- (alloc_bsize p Hi l1 l2 b El). done.
  - rewrite Eq. split; [split_and!; try done; by apply (alloc_in p l1 l2 b El) || by apply (alloc_fr p b h)|].
    split; [split; [done|]|].
    + exists (transaction h). simpl. by rewrite lookup_insert_eq.
    + intros c hc Hc Hhc Hf. simpl. split; [done|]. split; [|done].
      rewrite lookup_insert_ne; [done|]. intros ->. congruence.
Qed.

(** The new header is on backed pages. *)
Lemma new_header_mapped (q : binder_proc) (s : gset Z) :
  let nb := data b + size in
  nb + sizeof_buffer <= nxt l2 (area_end p) ->
  (forall i, i ∈ s <-> i ∈ pages p \/
     (b + sizeof_buffer + 4095) / 4096 * 4096 <= buffer p + 4096 * i <
     Z.min ((nb + sizeof_buffer + 4095) / 4096 * 4096) (nxt l2 (area_end p) / 4096 * 4096)) ->
  geometry q -> buffer q = buffer p -> buffer_size q = buffer_size p -> npages q = npages p -> pages q = s ->
  header_mapped q nb = true.
Proof using Hi El Hds Hos Hfit Hb Hfree.
  intros nb Hnb Hs Hg Eb Es En Ep.
  destruct (alloc_bounds p Hi l1 l2 b El) as (Hb1 & [Hb2 Hb3] & Hc1 & Hc2).
  destruct alloc_size_bound as (Hs0 & _ & _).
  assert (Hbnb : b + sizeof_buffer <= nb) by (unfold nb, data; lia).
  assert (Ee : area_end q = area_end p) by (unfold area_end; congruence).
  destruct (alloc_notin p Hi l1 l2 b El) as [Hn1 Hn2].
  apply header_mapped_spec; rewrite ?Eb, ?En, ?Ep, ?Ee; [done|unfold sizeof_buffer in *; lia|lia|].
  intros i Hr H1 H2. apply Hs. rewrite (bi_pages p Hi i).
  set (f := fun c => if decide (c = b) then false else if decide (c = nb) then true else fr p c).
  pose proof (rd_geo _ (bi_read p Hi)) as [[_ Hal] [_ Hps] _].
  assert (Hneed : need (fr p) (buffers p) (area_end p) (buffer p + 4096 * i) \/
    (b + sizeof_buffer + 4095) / 4096 * 4096 <= buffer p + 4096 * i <
     Z.min ((nb + sizeof_buffer + 4095) / 4096 * 4096) (nxt l2 (area_end p) / 4096 * 4096));
    [|tauto].
  rewrite El. apply (split_pages l1 l2 b (area_end p) (buffer p + 4096 * i)) with (fr' := f).
  - rewrite <- El. apply Hi.
  - rewrite Z.mul_comm. by rewrite Z_mod_plus_full.
  - unfold area_end. rewrite Hps, Z.mul_comm. by rewrite Z_mod_plus_full.
  - intros c Hc. unfold f. rewrite !decide_False; [done| |].
    + intros ->. apply elem_of_app in Hc as [Hc|Hc];
        [destruct (chain_le _ _ _ Hc1 Hc)|destruct (chain_le _ _ _ Hc2 Hc)]; unfold sizeof_buffer in *; lia.
    + intros ->. apply elem_of_app in Hc as [|]; done.
  - apply (alloc_fr p b h Hb Hfree).
  - unfold f. by rewrite decide_True.
  - unfold f. rewrite decide_False, decide_True; [done|done|unfold sizeof_buffer in *; lia].
  - done.
  - done.
  - apply need_elem with (b := nb); [|apply elem_of_app; right; right; by left|done..].
    apply chain_app. split; [done|]. split; [done|]. by split.
Qed.

(** The rest of [b] becomes a buffer of its own: [q] is the state in which
    [b] has been marked, [q3] the one with the new header. *)
Section RestSplit.
Context (garbage : binder_buffer) (s : gset Z) (t ta : tree).
Let nb := data b + size.
Let g := set_free garbage true.
Let l' := l1 ++ b :: nb :: l2.
Let q := set_allocated_buffers (set_headers (set_free_buffers (set_pages p s) t) (<[b := set_free h false]> (headers p))) ta.
Let q3 := set_headers (set_buffers q l') (<[nb := g]> (headers q)).
Context (Hnb : nb + sizeof_buffer <= nxt l2 (area_end p)).
Context (Hs : forall i, i ∈ s <-> i ∈ pages p \/
     (b + sizeof_buffer + 4095) / 4096 * 4096 <= buffer p + 4096 * i <
     Z.min ((nb + sizeof_buffer + 4095) / 4096 * 4096) (nxt l2 (area_end p) / 4096 * 4096)).
Context (Hrd : readable q) (Hft : free_tree q (frees (fr p) l1 ++ frees (fr p) l2)).

Lemma rest_new : b + sizeof_buffer <= nb /\ nb <> b /\ (nb ∉ buffers p).
Proof using All.
  destruct (alloc_bounds p Hi l1 l2 b El) as (Hb1 & [Hb2 Hb3] & Hc1 & Hc2). destruct alloc_size_bound as (Hs0 & _ & _).
  assert (Hbnb : b + sizeof_buffer <= nb) by (unfold nb, data; lia). split; [done|].
  assert (Hnbb : nb <> b) by (unfold sizeof_buffer in *; lia). split; [done|].
  rewrite El. intros [Hc|[Hc|Hc]%elem_of_cons]%elem_of_app;
    [destruct (chain_le _ _ _ Hc1 Hc)|done|destruct (chain_le _ _ _ Hc2 Hc)]; unfold sizeof_buffer in *; lia.
Qed.

Lemma rest_mapped : header_mapped (set_buffers q l') nb = true.
Proof using All.
  assert (Hg2 : geometry (set_buffers q l')) by (pose proof (rd_geo _ Hrd) as []; by split).
  by apply (new_header_mapped (set_buffers q l') s).
Qed.

Lemma rest_readable : readable q3.
Proof using All.
  destruct (alloc_bounds p Hi l1 l2 b El) as (Hb1 & [Hb2 Hb3] & Hc1 & Hc2). destruct rest_new as (Hbnb & Hnbb & Hnew).
  pose proof (rd_geo _ Hrd) as Hgq. split.
  - destruct Hgq. by split.
  - pose proof (rd_head p (bi_read p Hi)) as Hh. rewrite El in Hh. simpl. unfold l'. by destruct l1.
  - change (area_end q3) with (area_end p). apply chain_app. split; [done|]. split; [done|]. by split.
  - intros c Hc. simpl in Hc |- *. destruct (decide (c = nb)) as [->|].
    + rewrite lookup_insert_eq. by eexists.
    + rewrite lookup_insert_ne by done. apply (rd_headers q Hrd). simpl. rewrite El. unfold l' in Hc. set_solver.
  - intros c Hc. simpl in Hc. destruct (decide (c = nb)) as [->|]; [exact rest_mapped|].
    apply (rd_mapped q Hrd). simpl. rewrite El. unfold l' in Hc. set_solver.
Qed.

Lemma rest_bsize (c : Z) : c ∈ buffers p -> c <> b -> bsize l' (area_end p) c = bsize (buffers p) (area_end p) c.
Proof using All.
  destruct rest_new as (_ & _ & Hnew). destruct (alloc_notin p Hi l1 l2 b El) as [Hn1 Hn2].
  intros Hc Hcb. unfold bsize, l'. rewrite El. rewrite list_next_insert; [done|done|]. by intros ->.
Qed.

Lemma rest_free_tree : free_tree q3 (frees (fr p) l1 ++ frees (fr p) l2).
Proof using All.
  destruct rest_new as (_ & _ & Hnew). destruct (alloc_notin p Hi l1 l2 b El) as [Hn1 Hn2].
  assert (Hfr3 : forall c, c ∈ l1 ++ l2 -> fr q3 c = fr p c).
  { intros c Hc. unfold fr. simpl. rewrite !fr_insert, !decide_False; [done| |].
    - intros ->. apply elem_of_app in Hc as [|]; done.
    - intros ->. apply Hnew. rewrite El. set_solver. }
  apply (free_tree_ext q); [done|done|]. intros c Hc.
  assert (c ∈ l1 ++ l2 /\ fr p c = true) as [Hc1' Hc2'].
  { apply elem_of_app in Hc as [[??]%elem_frees|[??]%elem_frees]; set_solver. }
  split; [simpl; unfold l'; set_solver|]. split; [by rewrite Hfr3|].
  apply rest_bsize; [rewrite El; set_solver|]. intros ->. apply elem_of_app in Hc1' as [|]; done.
Qed.

(** The allocated buffers in the order of the list do not change. *)
Lemma rest_allocs (q' : binder_proc) (m : gmap Z binder_buffer) :
  headers q' = m -> m !! nb = Some g -> (exists h', m !! b = Some h' /\ free h' = false) ->
  (forall c, c <> b -> c <> nb -> m !! c = headers p !! c) -> allocs (fr q) (buffers p) = allocs (fr q') l'.
Proof using All.
  intros Em Hmn (h' & Hmb & Hh') Hmo. destruct rest_new as (_ & _ & Hnew). destruct (alloc_notin p Hi l1 l2 b El) as [Hn1 Hn2].
  unfold l'. rewrite El, !allocs_app. change (nb :: l2) with ([] ++ nb :: l2). rewrite allocs_app.
  assert (fr q' nb = true) as -> by (unfold fr, fr_of; by rewrite Em, Hmn).
  assert (fr q' b = false) as -> by (unfold fr, fr_of; by rewrite Em, Hmb).
  assert (fr q b = false) as -> by (unfold fr, fr_of; simpl; by rewrite lookup_insert_eq).
  assert (Hag : forall c, c ∈ l1 ++ l2 -> fr q c = fr q' c).
  { intros c Hc. assert (c <> b) by (intros ->; apply elem_of_app in Hc as [|]; done).
    assert (c <> nb) by (intros ->; apply Hnew; rewrite El; set_solver).
    unfold fr, fr_of. rewrite Em. simpl. rewrite Hmo by done. by rewrite lookup_insert_ne. }
  simpl. rewrite (allocs_ext (fr q) (fr q') l1), (allocs_ext (fr q) (fr q') l2) by (intros; apply Hag; set_solver).
  done.
Qed.
(** The sizes are set last. *)
Lemma rest_finish (t' : tree) :
  let q4 := set_free_buffers q3 t' in
  free_tree q4 (nb :: frees (fr p) l1 ++ frees (fr p) l2) -> rb_tree ta -> inorder ta = allocs (fr q) (buffers p) ->
  exists q', (h ← header q4 b; p ← set_header q4 b (set_allocated h ds os is_async);
    Some (if is_async then set_free_async_space p (free_async_space p -ᵤ (size +ᵤ sizeof_buffer)) else p, Some b)) =
      Some (q', Some b) /\ binder_inv q' /\ alloc_post p q' b ds os is_async.
Proof using All.
  intros q4 Hft4 Hrta Hita. destruct rest_new as (_ & Hnbb & Hnew). destruct (alloc_notin p Hi l1 l2 b El) as [Hn1 Hn2].
  assert (Hrd4 : readable q4) by (apply (readable_mono q3); try done; apply rest_readable).
  assert (Hin : b ∈ buffers q4) by (simpl; unfold l'; set_solver).
  destruct (header_spec q4 Hrd4 b Hin) as (h' & -> & Hh' & _). simpl in Hh'.
  rewrite lookup_insert_ne, lookup_insert_eq in Hh' by done.
  injection Hh' as <-. cbn [mbind option_bind]. rewrite (set_header_spec q4 Hrd4 b _ Hin).
  cbn [mbind option_bind]. set (h2 := mk_buffer false is_async (transaction h) ds os).
  change (set_allocated (set_free h false) ds os is_async) with h2.
  set (q' := if is_async then _ else _). set (m := <[b := h2]> (headers q4)).
  set (left := if is_async then free_async_space p - (size + sizeof_buffer) else free_async_space p).
  assert (Eq : q' = mk_proc (vma p) (buffer p) (buffer_size p) (user_buffer_offset p) l' m t' ta left s (npages p)).
  { unfold q', left. rewrite <- async_wrap. by destruct is_async. }
  assert (Hmo : forall c, c <> b -> c <> nb -> m !! c = headers p !! c).
  { intros c Hcb Hcn. unfold m. simpl. by rewrite !lookup_insert_ne. }
  assert (Hmb : m !! b = Some h2) by (unfold m; by rewrite lookup_insert_eq).
  assert (Hmnb : m !! nb = Some g) by (unfold m; simpl; by rewrite lookup_insert_ne, lookup_insert_eq).
  exists q'. split; [done|]. split.
  - apply (alloc_split p Hi l1 l2 b h El Hb Hfree ds os is_async Hds Hos Hasync q' m t' ta s g Eq); try done.
    + apply (free_tree_ext q4); [done|by rewrite Eq|]. intros c Hc. destruct (ft_in _ _ Hft4 c Hc) as [Hc1' Hc2'].
      rewrite Eq. split; [done|]. split; [|done]. rewrite <- Hc2'. unfold fr, fr_of. simpl.
      destruct (decide (c = b)) as [->|]; [|unfold m; by rewrite lookup_insert_ne by done].
      exfalso. apply elem_of_cons in Hc as [Hc|[[Hc _]%elem_frees|[Hc _]%elem_frees]%elem_of_app]; [by symmetry in Hc|done|done].
    + fold size. fold nb. rewrite Hita. apply (rest_allocs q' m); [by rewrite Eq|done|by exists h2|done].
  - rewrite Eq. split; [split_and!; try done; by apply (alloc_in p l1 l2 b El) || by apply (alloc_fr p b h)|].
    split; [split; [done|by exists (transaction h)]|].
    intros c hc Hc Hhc Hf. assert (c <> b) by congruence. assert (c <> nb) by congruence.
    simpl. split; [rewrite El in Hc; unfold l'; set_solver|]. split; [by rewrite Hmo|].
    by apply rest_bsize.
Qed.
End RestSplit.

Lemma alloc_rest_split (garbage : binder_buffer) (s : gset Z) :
  let nb := data b + size in
  nb + sizeof_buffer <= nxt l2 (area_end p) ->
  (forall i, i ∈ s <-> i ∈ pages p \/
     (b + sizeof_buffer + 4095) / 4096 * 4096 <= buffer p + 4096 * i <
     Z.min ((nb + sizeof_buffer + 4095) / 4096 * 4096) (nxt l2 (area_end p) / 4096 * 4096)) ->
  exists q, alloc_rest garbage (set_pages p s) true = Some (q, Some b) /\ binder_inv q /\
    alloc_post p q b ds os is_async.
Proof using All.
  intros nb Hnb Hs. destruct (alloc_mark p Hi l1 l2 b h El Hb Hfree s) as
    (t & ta & Et & Eh & Es & Ei & Hrd & Hft & Hrta & Hita); [intros i ?; apply Hs; by left|].
  unfold alloc_rest. fold nb. simpl free_buffers. rewrite Et. cbn [mbind option_bind].
  rewrite Eh. cbn [mbind option_bind]. rewrite Es. cbn [mbind option_bind]. rewrite Ei. cbn [mbind option_bind].
  destruct (alloc_notin p Hi l1 l2 b El) as [Hn1 Hn2].
  pose proof (rest_mapped garbage s t ta Hnb Hs Hrd Hft) as Hmn. pose proof (rest_readable garbage s t ta Hnb Hs Hrd Hft) as Hrd3.
  pose proof (rest_free_tree garbage s t ta Hnb Hs Hrd Hft) as Hft3. pose proof (rest_finish garbage s t ta Hnb Hs Hrd Hft) as Hfin.
  fold nb in Hmn, Hrd3, Hft3, Hfin. set (q := set_allocated_buffers _ ta) in *. simpl buffers.
  rewrite El, list_add_app by done. set (l' := l1 ++ b :: nb :: l2) in *.
  set (q3 := set_headers (set_buffers q l') (<[nb := set_free garbage true]> (headers q))) in *.
  assert (E3 : new_header (set_buffers q l') garbage nb = Some q3) by (unfold new_header, set_header; by rewrite Hmn).
  rewrite E3. cbn [mbind option_bind].
  assert (Hfr3n : fr q3 nb = true) by (unfold fr; simpl; by rewrite fr_insert, decide_True).
  destruct (insert_free_spec q3 nb _ Hrd3 Hft3) as (t' & E4 & Hft4); [simpl; unfold l'; set_solver|done|].
  rewrite E4. cbn [mbind option_bind]. destruct (Hfin t' Hft4 Hrta Hita) as (q' & E & Hq'). rewrite E. by exists q'.
Qed.
End AllocRun.

End BinderInv.
