(* ===== verification/BinderCorrect.v ===== *)
(** The theorems of the binder buffer allocator: allocation, release and
    mapping keep the invariant of BinderInv.v and do what they should, and so
    does every sequence of them. *)

From S2P Require Import Prelude RbTree BinderAlloc BinderInv.
From stdpp Require Import sorting.
Local Open Scope Z_scope.
Local Open Scope kernel_scope.

Module BinderCorrect.
Import RbTree BinderAlloc BinderInv.

(** ** Allocation *)

Lemma size_check_fail (d o : Z) :
  0 <= d < 4294967296 -> 0 <= o < 4294967296 ->
  (ALIGN4 d +ᵤ ALIGN4 o <? d) || (ALIGN4 d +ᵤ ALIGN4 o <? o) = true ->
  4294967296 <= (d + 3) / 4 * 4 + (o + 3) / 4 * 4.
Proof.
  intros Hd Ho H. destruct (Z.lt_ge_cases ((d + 3) / 4 * 4 + (o + 3) / 4 * 4) 4294967296); [|done].
  exfalso. pose proof (Z.div_mod (d + 3) 4 ltac:(lia)) as D1. pose proof (Z.mod_pos_bound (d + 3) 4 ltac:(lia)) as D2.
  pose proof (Z.div_mod (o + 3) 4 ltac:(lia)) as O1. pose proof (Z.mod_pos_bound (o + 3) 4 ltac:(lia)) as O2.
  rewrite !ALIGN4_eq in H by done.
  rewrite (proj2 (Z.ltb_ge 4294967292 d)), (proj2 (Z.ltb_ge 4294967292 o)), u32_small in H by lia.
  apply orb_true_iff in H as [H%Z.ltb_lt|H%Z.ltb_lt]; lia.
Qed.

(** The pages to be added for [b], in the three cases of the code. *)
Lemma alloc_page_end (p : binder_proc) (b n size P : Z) :
  geometry p -> buffer p <= b -> b + sizeof_buffer + size <= n <= area_end p -> 0 <= size -> P mod 4096 = 0 ->
  PAGE_MASK (data b +ᵤ (n - data b)) = n / 4096 * 4096 /\
  PAGE_ALIGN (data b) = (b + sizeof_buffer + 4095) / 4096 * 4096 /\
  PAGE_ALIGN (data b +ᵤ size) = (data b + size + 4095) / 4096 * 4096 /\
  (n - data b <= size + sizeof_buffer + 4 ->
   P < Z.min ((data b + size + 4095) / 4096 * 4096) (n / 4096 * 4096) <-> P < n / 4096 * 4096).
Proof.
  intros [[? ?] [? ?] ?] Hb Hn Hs HP. unfold data, sizeof_buffer, area_end in *.
  u32_simpl. replace (b + 40 + (n - (b + 40))) with n by lia.
  rewrite PAGE_MASK_eq, !PAGE_ALIGN_eq by lia. split_and!; [done..|]. intros Hle.
  page_facts (b + 40 + size + 4095) qe. page_facts n qn. page_facts P qP. lia.
Qed.

(** The data pages of a free buffer are not backed. *)
Lemma data_pages_unused (p : binder_proc) (l1 l2 : list Z) (b i : Z) :
  binder_inv p -> buffers p = l1 ++ b :: l2 -> fr p b = true ->
  (b + sizeof_buffer + 4095) / 4096 * 4096 <= buffer p + 4096 * i < nxt l2 (area_end p) / 4096 * 4096 ->
  i ∉ pages p.
Proof.
  intros Hi El Hf Hr. rewrite (bi_pages p Hi i). intros [_ Hn]. rewrite El in Hn.
  destruct (alloc_notin p Hi l1 l2 b El) as [Hn1 Hn2].
  pose proof (rd_geo _ (bi_read p Hi)) as [[_ Hal] [_ Hps] _].
  destruct (data_pages l1 l2 b (area_end p) (buffer p + 4096 * i))
    with (fr := fr p) (fr' := fun c => if decide (c = b) then false else fr p c) as [_ Hd].
  - rewrite <- El. apply Hi.
  - rewrite Z.mul_comm. by rewrite Z_mod_plus_full.
  - unfold area_end. rewrite Hps, Z.mul_comm. by rewrite Z_mod_plus_full.
  - intros c Hc. rewrite decide_False; [done|]. intros ->. apply elem_of_app in Hc as [|]; done.
  - done.
  - by rewrite decide_True.
  - by apply Hd.
Qed.

(** The part of binder_alloc_buf() after the search. *)
Lemma alloc_found (env : mm_env) (garbage : binder_buffer) (p : binder_proc) (ds os : Z) (is_async : bool)
    (b : Z) (exact : bool) :
  let S := (ds + 3) / 4 * 4 + (os + 3) / 4 * 4 in
  let sz := bsize (buffers p) (area_end p) in
  binder_inv p -> 0 <= ds < 4294967296 -> 0 <= os < 4294967296 ->
  (is_async = true -> S +ᵤ sizeof_buffer <= free_async_space p) ->
  b ∈ buffers p -> fr p b = true -> (if exact then sz b = S else S < sz b) ->
  (forall y, y ∈ buffers p -> fr p y = true -> S <= sz y -> sz b <= sz y) ->
  let has_page_addr := PAGE_MASK (data b +ᵤ sz b) in
  let bs := if exact then sz b else if sz b <=? S +ᵤ sizeof_buffer +ᵤ 4 then S else S +ᵤ sizeof_buffer in
  let end_page_addr := Z.min (PAGE_ALIGN (data b +ᵤ bs)) has_page_addr in
  exists r, binder_update_page_range env p true (PAGE_ALIGN (data b)) end_page_addr false = Some r /\
    (r = (p, - ENOMEM) /\ (task_mm env = false \/ vma p = false \/ exists a, page_try env a <> PageOk) \/
     exists p' q, r = (p', 0) /\
       alloc_rest b ds os is_async garbage p' (negb (bs =? S)) = Some (q, Some b) /\
       binder_inv q /\ alloc_post p q b ds os is_async).
Proof.
  intros S sz Hi Hds Hos Has Hb Hf Hex Hmin hpa bs epa.
  destruct (buffer_split p (bi_read p Hi) b Hb) as (l1 & l2 & El & Hn1 & Hn2).
  destruct (header_spec p (bi_read p Hi) b Hb) as (h & _ & Hh & Hfh). rewrite Hf in Hfh.
  pose proof (alloc_bsize p Hi l1 l2 b El) as Esz. fold sz in Esz.
  destruct (alloc_bounds p Hi l1 l2 b El) as (Hb1 & [Hb2 Hb3] & _ & _).
  pose proof (rd_geo _ (bi_read p Hi)) as Hg. pose proof Hg as [[Hg0 _] _ Hmax].
  assert (HS0 : 0 <= S) by (unfold S; pose proof (Z.div_pos (ds + 3) 4); pose proof (Z.div_pos (os + 3) 4); lia).
  assert (Hfit : S <= sz b) by (destruct exact; lia).
  set (n := nxt l2 (area_end p)) in *.
  assert (Hwrap : S +ᵤ sizeof_buffer +ᵤ 4 = S + sizeof_buffer + 4 /\ S +ᵤ sizeof_buffer = S + sizeof_buffer).
  { unfold data, sizeof_buffer in *. rewrite !u32_small by (rewrite ?u32_small by lia; lia). done. }
  destruct Hwrap as [Hw1 Hw2].
  assert (Hbs : bs = S /\ n - data b <= S + sizeof_buffer + 4 \/
                bs = S + sizeof_buffer /\ S + sizeof_buffer + 4 < n - data b).
  { unfold bs. rewrite Hw1, Hw2. destruct exact; [left; unfold sizeof_buffer; lia|].
    destruct (Z.leb_spec (sz b) (S + sizeof_buffer + 4)); [left|right]; lia. }
  assert (Hbs' : b + sizeof_buffer + bs <= n <= area_end p /\ 0 <= bs)
    by (unfold data, sizeof_buffer in *; lia).
  destruct (alloc_page_end p b n bs 0 Hg Hb1) as (E1 & E2 & E3 & _); [tauto|tauto|done|].
  rewrite Hw2 in Has. unfold epa, hpa. rewrite Esz, E1, E2, E3.
  destruct (alloc_pages_spec env p ((b + sizeof_buffer + 4095) / 4096 * 4096)
    (Z.min ((data b + bs + 4095) / 4096 * 4096) (n / 4096 * 4096)) false) as (s & Hs & Hres).
  - done.
  - apply Z_mod_mult.
  - destruct (Z.min_spec ((data b + bs + 4095) / 4096 * 4096) (n / 4096 * 4096)) as [[_ ->]|[_ ->]]; apply Z_mod_mult.
  - unfold sizeof_buffer in *. page_facts (b + 40 + 4095) ql. lia.
  - page_facts n qn. lia.
  - intros i _ Hr. apply (data_pages_unused p l1 l2 b i Hi El Hf). unfold n in *. lia.
  - destruct Hres as [->|[-> Hbad]]; eexists; (split; [done|]); [right|left; split; [done|naive_solver]].
    exists (set_pages p s).
    destruct Hbs as [[Ebs Hle]|[Ebs Hlt]]; rewrite Ebs in *.
    + destruct (alloc_rest_whole p Hi l1 l2 b h El Hh (eq_sym Hfh) ds os is_async Hds Hos Has Hfit Hmin garbage s)
        as (q & Eq & Hq & Hpost).
      { intros i. rewrite Hs. fold n.
        destruct (alloc_page_end p b n S (buffer p + 4096 * i) Hg Hb1) as (_ & _ & _ & Hend); [tauto|tauto| |].
        - destruct Hg as [[_ ?] _ _]. rewrite Z.mul_comm. by rewrite Z_mod_plus_full.
        - specialize (Hend Hle). tauto. }
      exists q. rewrite Z.eqb_refl. done.
    + destruct (alloc_rest_split p Hi l1 l2 b h El Hh (eq_sym Hfh) ds os is_async Hds Hos Has Hfit Hmin garbage s)
        as (q & Eq & Hq & Hpost).
      { fold n S. unfold data, sizeof_buffer in *. lia. }
      { intros i. rewrite Hs. fold n S. by rewrite Z.add_assoc. }
      exists q. rewrite (proj2 (Z.eqb_neq _ S)) by (unfold sizeof_buffer; lia). done.
Qed.

(** binder_alloc_buf() is its search, the pages, and [alloc_rest]. *)
Lemma alloc_buf_spec (env : mm_env) (garbage : binder_buffer) (p : binder_proc) (ds os : Z) (is_async : bool) :
  binder_inv p -> 0 <= ds < 4294967296 -> 0 <= os < 4294967296 ->
  exists q r, binder_alloc_buf env garbage p ds os is_async = Some (q, r) /\ binder_inv q /\
    match r with
    | Some b => alloc_post p q b ds os is_async
    | None => q = p /\ alloc_refused env p ds os is_async
    end.
Proof.
  intros Hi Hds Hos. unfold binder_alloc_buf, alloc_refused.
  set (S := (ds + 3) / 4 * 4 + (os + 3) / 4 * 4).
  assert (Hfail : forall P : Prop, P -> exists q r, Some (p, None) = Some (q, r) /\ binder_inv q /\
    match r with Some b => alloc_post p q b ds os is_async | None => q = p /\ P end).
  { intros P HP. by exists p, None. }
  destruct (vma p) eqn:Ev; cbn [negb]; [|apply Hfail; by left].
  destruct ((ALIGN4 ds +ᵤ ALIGN4 os <? ds) || (ALIGN4 ds +ᵤ ALIGN4 os <? os)) eqn:Ew.
  { apply Hfail. right. left. by apply size_check_fail. }
  destruct (size_check ds os Hds Hos Ew) as (ES & Hds' & Hos' & _). fold S in ES. rewrite ES in *. clear Ew.
  destruct (is_async && (free_async_space p <? S +ᵤ sizeof_buffer)) eqn:Ea.
  { apply Hfail. right. right. left. apply andb_true_iff in Ea as [-> Ea%Z.ltb_lt]. split; [done|].
    unfold u32 in Ea. pose proof (Z.mod_le (S + sizeof_buffer) 4294967296). unfold sizeof_buffer in *. lia. }
  destruct (best_fit_walk_spec p (bi_read p Hi) S (free_buffers p) None) as (best & exact & -> & Hbf).
  { apply Hi. }
  { intros b Hb. rewrite (ft_elems _ _ (bi_free p Hi)) in Hb. by apply elem_frees in Hb. }
  cbn [mbind option_bind].
  assert (Hmem : forall b, b ∈ inorder (free_buffers p) <-> b ∈ buffers p /\ fr p b = true).
  { intros b. rewrite (ft_elems _ _ (bi_free p Hi)). apply elem_frees. }
  destruct best as [b|].
  2:{ apply Hfail. do 3 right. left. destruct exact; [by destruct Hbf as (? & ? & _)|].
      destruct Hbf as [[_ Hless]|(? & ? & _)]; [|done]. intros y Hy Hyf. apply Hless, Hmem. done. }
  set (sz := bsize (buffers p) (area_end p)) in *.
  assert (Hb : b ∈ buffers p /\ fr p b = true /\ (if exact then sz b = S else S < sz b) /\
    forall y, y ∈ buffers p -> fr p y = true -> S <= sz y -> sz b <= sz y).
  { destruct exact.
    - destruct Hbf as (b' & [= <-] & Hb & He). apply Hmem in Hb as [??]. split_and!; [done..|].
      intros; lia.
    - destruct Hbf as [[? _]|(b' & [= <-] & Hb & Hlt & Hmin)]; [done|]. apply Hmem in Hb as [??].
      split_and!; [done..|]. intros y Hy Hyf. apply Hmin, Hmem. done. }
  destruct Hb as (Hb & Hf & Hex & Hmin).
  destruct (buffer_size_spec p (bi_read p Hi) b Hb) as [-> Hszr]. fold sz. cbn [mbind option_bind].
  destruct (alloc_found env garbage p ds os is_async b exact) as (r & Er & Hr); try done.
  { intros ->. apply andb_false_iff in Ea as [|Ea%Z.ltb_ge]; [done|]. done. }
  fold S sz in Er, Hr. cbv zeta. rewrite Er. cbn [mbind option_bind].
  destruct Hr as [[-> Hbad]|(p' & q & -> & Erest & Hq & Hpost)].
  - cbn [negb]. change (- ENOMEM =? 0) with false. cbn [negb]. apply Hfail.
    destruct Hbad as [?|[?|?]]; [do 4 right; by left|congruence|by do 5 right].
  - change (0 =? 0) with true. cbn [negb]. exists q, (Some b). split; [|done]. exact Erest.
Qed.

(** ** Release *)

(** The invariant without what it says of the free tree and of neighbours,
    which a release breaks and restores. *)
Record core_inv (p : binder_proc) : Prop := {
  co_read : readable p;
  co_pages : pages_exact p;
  co_alloc : rb_tree (allocated_buffers p) /\ inorder (allocated_buffers p) = allocs (fr p) (buffers p);
  co_sizes : forall b h, b ∈ buffers p -> headers p !! b = Some h -> free h = false ->
    0 <= data_size h < 4294967296 /\ 0 <= offsets_size h < 4294967296 /\
    asize h <= bsize (buffers p) (area_end p) b;
  co_async : 0 <= free_async_space p < 4294967296 /\
    free_async_space p + asum (headers p) (buffers p) = buffer_size p / 2
}.

Lemma binder_core (p : binder_proc) : binder_inv p -> core_inv p.
Proof. intros [? ? ? ? ? ? ?]. by split. Qed.

Lemma core_tree (p : binder_proc) (t : tree) : core_inv p -> core_inv (set_free_buffers p t).
Proof. intros [[[? ? ?] ? ? ? ?] ? ? ? ?]. split; [split; [split|..]|..]; done. Qed.

(** The buffer [x] is free and not in the free tree. *)
Record open_inv (p : binder_proc) (l1 : list Z) (x : Z) (l2 : list Z) : Prop := {
  oi_core : core_inv p;
  oi_buffers : buffers p = l1 ++ x :: l2;
  oi_free : fr p x = true;
  oi_tree : free_tree p (frees (fr p) l1 ++ frees (fr p) l2);
  oi_merged : merged (fr p) l1 /\ merged (fr p) l2
}.

(** The allocated buffers of [p] and of [q] are the same. *)
Definition same_live (p q : binder_proc) : Prop :=
  headers q = headers p /\
  forall c, fr p c = false ->
    (c ∈ buffers q <-> c ∈ buffers p) /\
    (c ∈ buffers p -> bsize (buffers q) (area_end q) c = bsize (buffers p) (area_end p) c).

Lemma same_live_refl (p : binder_proc) : same_live p p.
Proof. split; [done|]. by intros. Qed.

Lemma same_live_trans (p q r : binder_proc) : same_live p q -> same_live q r -> same_live p r.
Proof.
  intros [E1 H1] [E2 H2]. split; [congruence|]. intros c Hc.
  destruct (H1 c Hc) as [H1a H1b]. destruct (H2 c) as [H2a H2b]; [unfold fr; by rewrite E1|].
  split; [by rewrite H2a|]. intros Hin. rewrite H2b by (by apply H1a). auto.
Qed.

(** Whole pages of a header. *)
Lemma header_page_bounds (p : binder_proc) (b : Z) :
  geometry p -> buffer p <= b -> b + sizeof_buffer <= area_end p ->
  buffer_start_page b mod 4096 = 0 /\ buffer_end_page b mod 4096 = 0 /\
  buffer p <= buffer_start_page b <= buffer_end_page b /\ buffer_end_page b + 4096 <= area_end p.
Proof.
  intros [[? ?] [? Hs] ?] Hb He. unfold buffer_start_page, buffer_end_page, sizeof_buffer, area_end in *.
  rewrite !PAGE_MASK_eq by lia. split; [apply Z_mod_mult|]. split; [apply Z_mod_mult|].
  page_facts (buffer p) q0. page_facts b q1. page_facts (b + 40 - 1) q2. lia.
Qed.

Lemma page_aligned (p : binder_proc) (i : Z) : geometry p -> (buffer p + 4096 * i) mod 4096 = 0.
Proof. intros [[_ H] _ _]. rewrite Z.mul_comm. by rewrite Z_mod_plus_full. Qed.

Lemma area_end_aligned (p : binder_proc) : geometry p -> area_end p mod 4096 = 0.
Proof. intros [[_ H] [_ Hs] _]. unfold area_end. rewrite Hs, Z.mul_comm. by rewrite Z_mod_plus_full. Qed.

Section Delete.
Context (env : mm_env) (p : binder_proc) (Hrd : readable p) (Hpg : pages_exact p).
Context (l1 l2 : list Z) (a y : Z) (El : buffers p = l1 ++ a :: y :: l2).
Context (Ha : fr p a = true) (Hy : fr p y = true).

Lemma delete_in : a ∈ buffers p /\ y ∈ buffers p.
Proof using El. clear -El. rewrite El. set_solver. Qed.

Lemma delete_need (i : Z) :
  (need (fr p) (buffers p) (area_end p) (buffer p + 4096 * i) <->
   need (fr p) (l1 ++ a :: l2) (area_end p) (buffer p + 4096 * i) \/
   freed_page y (buffer p + 4096 * i) a (head l2)) /\
  (freed_page y (buffer p + 4096 * i) a (head l2) ->
   ~ need (fr p) (l1 ++ a :: l2) (area_end p) (buffer p + 4096 * i)).
Proof using Hrd El Ha Hy.
  rewrite El. pose proof (rd_geo p Hrd) as Hg. pose proof Hg as [[? ?] _ ?].
  destruct (buffer_range p Hrd a) as [? _]; [apply delete_in|].
  apply header_pages; [rewrite <- El; apply Hrd|lia|done|by apply page_aligned|done..].
Qed.

(** binder_delete_free_buffer(): [y] leaves the list, and exactly the pages of
    its header that are no longer needed are given back. *)
Lemma delete_free_run :
  exists s, binder_delete_free_buffer env p y = Some (set_pages (set_buffers p (l1 ++ a :: l2)) s) /\
    forall i, i ∈ s <-> i ∈ pages p /\ ~ freed_page y (buffer p + 4096 * i) a (head l2).
Proof using Hrd Hpg El Ha Hy.
  destruct delete_in as [Hina Hiny]. pose proof (buffers_NoDup p Hrd) as Hnd. pose proof (rd_geo p Hrd) as Hg.
  assert (El' : buffers p = (l1 ++ [a]) ++ y :: l2) by (by rewrite El, <- app_assoc).
  assert (Hn : y ∉ l1 ++ [a]).
  { rewrite El' in Hnd. apply NoDup_app in Hnd as (_ & Hd & _). intros Hin. apply (Hd y Hin). by left. }
  assert (Eprev : list_prev y (buffers p) None = Some (Some a)) by (rewrite El', list_prev_app, last_snoc; done).
  assert (Enext : list_next y (buffers p) = Some (head l2)) by (rewrite El', list_next_app; done).
  unfold binder_delete_free_buffer. rewrite Eprev.
  cbn [mbind option_bind]. destruct (header_spec p Hrd a Hina) as (h & -> & _ & Hf). cbn [mbind option_bind].
  rewrite <- Hf, Ha. cbn [negb BUG_ON mbind option_bind]. rewrite Enext.
  cbn [mbind option_bind].
  replace (list_del y (buffers p)) with (l1 ++ a :: l2)
    by (rewrite El' in Hnd |- *; rewrite list_del_nodup by done; by rewrite <- app_assoc).
  pose proof delete_need as Hneed. unfold freed_page in *.
  destruct (free_page_flags y a (head l2)) as [fs fe]. destruct (buffer_range p Hrd y Hiny) as [Hy1 Hy2].
  destruct (header_page_bounds p y Hg Hy1 Hy2) as (Hm1 & Hm2 & Hm3 & Hm4).
  destruct (fs || fe) eqn:Efe.
  2:{ exists (pages p). split; [by destruct p|]. intros i. naive_solver. }
  destruct (free_pages_spec env (set_buffers p (l1 ++ a :: l2))
    (if fs then buffer_start_page y else buffer_end_page y)
    ((if fe then buffer_end_page y else buffer_start_page y) + PAGE_SIZE) false) as (s & ret & Hs & ->).
  - by destruct Hg.
  - by destruct fs.
  - change PAGE_SIZE with (1 * 4096). rewrite Z_mod_plus_full. by destruct fe.
  - simpl. destruct fs; lia.
  - change (area_end (set_buffers p (l1 ++ a :: l2))) with (area_end p). change PAGE_SIZE with 4096. destruct fe; lia.
  - simpl. intros i Hi Hr. apply Hpg. split; [done|]. apply (Hneed i). by right.
  - exists s. split; [done|]. intros i. rewrite Hs. simpl. change PAGE_SIZE with 4096. tauto.
Qed.

Lemma delete_bsize (c : Z) :
  c <> a -> c <> y -> bsize (l1 ++ a :: l2) (area_end p) c = bsize (buffers p) (area_end p) c.
Proof using El. clear Hy Ha. intros Hca Hcy. rewrite El. unfold bsize. by rewrite list_next_insert. Qed.
End Delete.

Lemma acost_free (p : binder_proc) (b : Z) : fr p b = true -> acost (headers p) b = 0.
Proof. unfold fr, fr_of, acost. destruct (headers p !! b) as [h|]; [|done]. by intros ->. Qed.

(** Deleting [y] keeps the core and the allocated buffers. *)
Lemma delete_core (p : binder_proc) (l1 l2 : list Z) (a y : Z) (s : gset Z) :
  core_inv p -> buffers p = l1 ++ a :: y :: l2 -> fr p a = true -> fr p y = true ->
  (forall i, i ∈ s <-> i ∈ pages p /\ ~ freed_page y (buffer p + 4096 * i) a (head l2)) ->
  let q := set_pages (set_buffers p (l1 ++ a :: l2)) s in
  core_inv q /\ same_live p q.
Proof.
  intros [Hrd Hpg Hal Hsz Has] El Ha Hy Hs q. pose proof Hrd as [Hg Hhead Hchain Hhd Hmap].
  assert (Hne : forall c, fr p c = false -> c <> a /\ c <> y) by (intros c Hc; split; congruence).
  assert (Hbs : forall c, fr p c = false -> bsize (buffers q) (area_end q) c = bsize (buffers p) (area_end p) c).
  { intros c Hc. destruct (Hne c Hc). by apply (delete_bsize p l1 l2 a y El). }
  assert (Hin : forall c, c ∈ buffers q -> c ∈ buffers p) by (intros c; simpl; rewrite El; clear; set_solver).
  assert (Hgq : geometry q) by (by destruct Hg).
  assert (Hcq : chain (buffers q) (area_end q)).
  { change (area_end q) with (area_end p). rewrite El in Hchain. simpl in *.
    apply chain_app in Hchain as [H1 [H2 [H3 H4]]]. apply chain_app. split; [done|]. split; [|done].
    unfold sizeof_buffer, nxt in *. simpl in *. lia. }
  assert (Hhq : head (buffers q) = Some (buffer q)) by (rewrite El in Hhead; simpl; by destruct l1).
  assert (Hpq : pages_exact q).
  { intros i. change (pages q) with s. rewrite Hs, (Hpg i). simpl.
    destruct (delete_need p Hrd l1 l2 a y El Ha Hy i) as [H1 H2].
    change (fr q) with (fr p). change (area_end q) with (area_end p). tauto. }
  split; [split|].
  - split; [done..| |by apply exact_mapped]. intros c Hc. by apply Hhd, Hin.
  - done.
  - change (fr q) with (fr p). simpl. destruct Hal as [Hr Hi]. split; [done|]. rewrite Hi, El, !allocs_app, Ha.
    change (y :: l2) with ([] ++ y :: l2). by rewrite allocs_app, Hy.
  - intros b h Hb Hh Hf. rewrite Hbs by (unfold fr, fr_of; simpl in Hh; by rewrite Hh). apply Hsz; [by apply Hin|done..].
  - destruct Has as [Ha1 Ha2]. split; [done|]. rewrite El in Ha2. simpl. rewrite asum_app in Ha2 |- *. simpl in *.
    rewrite (acost_free p y Hy) in Ha2. lia.
  - split; [done|]. intros c Hc. destruct (Hne c Hc). split; [|by auto]. simpl. rewrite El.
    rewrite !elem_of_app, !elem_of_cons. tauto.
Qed.

(** binder_delete_free_buffer() as a whole. *)
Lemma delete_free_spec (env : mm_env) (p : binder_proc) (l1 l2 : list Z) (a y : Z) :
  core_inv p -> buffers p = l1 ++ a :: y :: l2 -> fr p a = true -> fr p y = true ->
  exists q, binder_delete_free_buffer env p y = Some q /\ core_inv q /\ same_live p q /\
    buffers q = l1 ++ a :: l2 /\ free_buffers q = free_buffers p /\
    forall c, c <> a -> c <> y -> bsize (buffers q) (area_end q) c = bsize (buffers p) (area_end p) c.
Proof.
  intros Hc El Ha Hy.
  destruct (delete_free_run env p (co_read p Hc) (co_pages p Hc) l1 l2 a y El Ha Hy) as (s & E & Hs).
  destruct (delete_core p l1 l2 a y s Hc El Ha Hy Hs) as [Hq Hl].
  eexists. split; [exact E|]. split_and!; try done. intros c. exact (delete_bsize p l1 l2 a y El c).
Qed.

(** Free buffers other than those beside the deleted one keep their place. *)
Lemma free_tree_delete (p q : binder_proc) (S : list Z) (a y : Z) :
  free_tree p S -> headers q = headers p -> free_buffers q = free_buffers p ->
  (forall c, c ∈ S -> c <> a /\ c <> y /\ c ∈ buffers q) ->
  (forall c, c <> a -> c <> y -> bsize (buffers q) (area_end q) c = bsize (buffers p) (area_end p) c) ->
  free_tree q S.
Proof.
  intros Hft Eh Et Hin Hbs. apply (free_tree_ext p); [done..|]. intros c Hc.
  destruct (Hin c Hc) as (? & ? & ?). split; [done|]. split; [|by apply Hbs].
  unfold fr. rewrite Eh. by apply (ft_in p S Hft).
Qed.

Lemma merged_cons_inv (f : Z -> bool) (b : Z) (l : list Z) :
  merged f (b :: l) -> f b = true -> merged f l /\ forall c, head l = Some c -> f c = false.
Proof.
  intros [H1 H2] Hb. split; [done|]. intros c. destruct l as [|c' l]; [done|]. intros [= ->].
  destruct (f c); [|done]. by destruct H1.
Qed.

Lemma merged_snoc_inv (f : Z -> bool) (a : Z) (l : list Z) :
  merged f (l ++ [a]) -> f a = true -> merged f l /\ forall c, last l = Some c -> f c = false.
Proof.
  induction l as [|x l IH]; intros Hm Ha; [done|]. destruct l as [|x' l].
  - simpl in Hm. split; [done|]. intros c [= <-]. destruct (f x) eqn:E; [|done]. exfalso. apply Hm. done.
  - destruct Hm as [H1 H2]. destruct (IH H2 Ha) as [H3 H4]. split; [by split|]. done.
Qed.

Lemma merged_join (f : Z -> bool) (l1 l2 : list Z) (x : Z) :
  merged f l1 -> merged f l2 -> (forall c, last l1 = Some c -> f c = false) ->
  (forall c, head l2 = Some c -> f c = false) -> merged f (l1 ++ x :: l2).
Proof.
  intros H1 H2 Hl Hh. apply merged_app. split.
  - induction l1 as [|a l1 IH]; [done|]. destruct l1 as [|a' l1].
    + simpl. rewrite (Hl a eq_refl). naive_solver.
    + destruct H1 as [H1 H1']. split; [done|]. apply IH; [done|]. intros c Hc. by apply Hl.
  - split; [|done]. destruct l2 as [|c l2]; [done|]. rewrite (Hh c eq_refl). naive_solver.
Qed.

(** The last step: [x] enters the free tree. *)
Lemma close_spec (p : binder_proc) (l1 l2 : list Z) (x : Z) :
  open_inv p l1 x l2 -> (forall c, last l1 = Some c -> fr p c = false) ->
  (forall c, head l2 = Some c -> fr p c = false) ->
  exists q, binder_insert_free_buffer p x = Some q /\ binder_inv q /\ same_live p q.
Proof.
  intros [Hc El Hf Hft [Hm1 Hm2]] Hl Hh.
  destruct (insert_free_spec p x _ (co_read p Hc) Hft) as (t & -> & Ht); [rewrite El; clear; set_solver|done|].
  exists (set_free_buffers p t). split; [done|]. split; [|by split].
  destruct (core_tree p t Hc) as [H1 H2 H3 H4 H5]. split; try done.
  - apply (free_tree_perm _ (x :: frees (fr p) l1 ++ frees (fr p) l2)); [|done].
    change (fr (set_free_buffers p t)) with (fr p). simpl. rewrite El, frees_app, Hf. simpl. apply Permutation_middle.
  - simpl. rewrite El. by apply merged_join.
Qed.

Lemma open_notin (p : binder_proc) (l1 l2 : list Z) (x : Z) :
  open_inv p l1 x l2 -> NoDup (l1 ++ x :: l2) /\ (x ∉ l1) /\ NoDup (frees (fr p) l1 ++ frees (fr p) l2).
Proof.
  intros Ho. pose proof (buffers_NoDup p (co_read p (oi_core _ _ _ _ Ho))) as Hnd.
  rewrite (oi_buffers _ _ _ _ Ho) in Hnd. split; [done|].
  pose proof Hnd as (_ & Hd & _)%NoDup_app. split; [intros Hx; apply (Hd x Hx); by left|].
  unfold frees. rewrite <- filter_app. apply NoDup_filter.
  apply (NoDup_Permutation_proper _ _ (symmetry (Permutation_middle l1 l2 x))) in Hnd. by inversion Hnd.
Qed.

(** Merging [x] with the buffer after it. *)
Lemma merge_next_spec (env : mm_env) (p : binder_proc) (l1 l2 : list Z) (x : Z) :
  open_inv p l1 x l2 ->
  exists q l2', merge_next env p x = Some q /\ open_inv q l1 x l2' /\ same_live p q /\
    forall c, head l2' = Some c -> fr q c = false.
Proof.
  intros Ho. destruct (open_notin _ _ _ _ Ho) as (Hnd & Hx & Hndf). destruct Ho as [Hc El Hf Hft [Hm1 Hm2]].
  unfold merge_next. rewrite El, list_next_app by done. cbn [mbind option_bind].
  destruct l2 as [|n l2].
  { exists p, []. split; [done|]. split; [by split|]. split; [apply same_live_refl|done]. }
  change (head (n :: l2)) with (Some n). cbv iota.
  destruct (header_spec p (co_read p Hc) n) as (h & -> & _ & Hfh); [rewrite El; clear; set_solver|].
  cbn [mbind option_bind]. rewrite <- Hfh. destruct (fr p n) eqn:Hfn.
  2:{ exists p, (n :: l2). split; [done|]. split; [by split|]. split; [apply same_live_refl|]. by intros c [= <-]. }
  change (frees (fr p) (n :: l2)) with (frees (fr p) ([] ++ n :: l2)) in Hft, Hndf.
  rewrite frees_app, Hfn in Hft, Hndf. cbn [app frees filter] in Hft, Hndf. simpl in Hft, Hndf.
  destruct (erase_free_spec p n _ Hft Hndf) as (t & -> & Ht); [clear; set_solver|].
  rewrite list_del_nodup in Ht by done. cbn [mbind option_bind].
  destruct (delete_free_spec env (set_free_buffers p t) l1 l2 x n) as (q & -> & Hq & Hl & Eb & Et & Hbs);
    [by apply core_tree|done..|].
  destruct (merged_cons_inv _ _ _ Hm2 Hfn) as [Hm2' Hh].
  assert (Eh : headers q = headers p) by apply Hl. assert (Ef : fr q = fr p) by (unfold fr; by rewrite Eh).
  exists q, l2. split; [done|]. split; [|split; [exact Hl|by rewrite Ef]].
  split; rewrite ?Ef; try done. apply (free_tree_delete (set_free_buffers p t) q _ x n); try done.
  intros c Hin. apply NoDup_app in Hnd as (_ & Hd & (Hx2 & (Hn2 & _)%NoDup_cons)%NoDup_cons).
  assert (Hc' : c ∈ l1 \/ c ∈ l2) by (apply elem_of_app in Hin as [[? _]%elem_frees|[? _]%elem_frees]; auto).
  rewrite Eb. clear - Hc' Hd Hx2 Hn2 Hx. set_solver.
Qed.

(** Merging [x] with the buffer before it. *)
Lemma merge_prev_spec (env : mm_env) (p : binder_proc) (l1 l2 : list Z) (x : Z) :
  open_inv p l1 x l2 ->
  exists q l1' x', merge_prev env p x = Some (q, x') /\ open_inv q l1' x' l2 /\ same_live p q /\
    forall c, last l1' = Some c -> fr q c = false.
Proof.
  intros Ho. destruct (open_notin _ _ _ _ Ho) as (Hnd & Hx & Hndf). pose proof Ho as [Hc El Hf Hft [Hm1 Hm2]].
  unfold merge_prev. rewrite El, list_prev_app by done. cbn [mbind option_bind].
  destruct l1 as [|a l1 _] using rev_ind.
  { exists p, [], x. split; [done|]. split; [done|]. split; [apply same_live_refl|done]. }
  rewrite last_snoc.
  destruct (header_spec p (co_read p Hc) a) as (h & -> & _ & Hfh); [rewrite El; clear; set_solver|].
  cbn [mbind option_bind]. rewrite <- Hfh. destruct (fr p a) eqn:Hfa.
  2:{ exists p, (l1 ++ [a]), x. split; [done|]. split; [done|]. split; [apply same_live_refl|].
      rewrite last_snoc. by intros c [= <-]. }
  rewrite <- app_assoc in El. simpl in El.
  destruct (delete_free_spec env p l1 l2 a x Hc El Hfa Hf) as (q & -> & Hq & Hl & Eb & Et & Hbs).
  cbn [mbind option_bind]. rewrite Et. rewrite frees_app, Hfa, app_nil_r, <- app_assoc in Hft, Hndf.
  simpl in Hft, Hndf.
  destruct (erase_free_spec p a _ Hft Hndf) as (t & -> & Ht); [clear; set_solver|].
  rewrite list_del_nodup in Ht by done. cbn [mbind option_bind].
  destruct (merged_snoc_inv _ _ _ Hm1 Hfa) as [Hm1' Hh].
  assert (Eh : headers q = headers p) by apply Hl. assert (Ef : fr q = fr p) by (unfold fr; by rewrite Eh).
  exists (set_free_buffers q t), l1, a. split; [done|]. change (fr (set_free_buffers q t)) with (fr q).
  split; [|split; [exact Hl|by rewrite Ef]].
  split; change (fr (set_free_buffers q t)) with (fr q); rewrite ?Ef; try done; [by apply core_tree|].
  apply (free_tree_delete (set_free_buffers p t) (set_free_buffers q t) _ a x); try done.
  intros c Hin. rewrite <- app_assoc in Hnd. simpl in Hnd.
  apply NoDup_app in Hnd as (_ & Hd & (Hx2 & (Hn2 & _)%NoDup_cons)%NoDup_cons).
  assert (Hc' : c ∈ l1 \/ c ∈ l2) by (apply elem_of_app in Hin as [[? _]%elem_frees|[? _]%elem_frees]; auto).
  simpl. rewrite Eb. clear - Hc' Hd Hx2 Hn2 Hx. set_solver.
Qed.

Lemma asum_nonneg (m : gmap Z binder_buffer) (l : list Z) :
  (forall c, c ∈ l -> 0 <= acost m c) -> 0 <= asum m l.
Proof.
  induction l as [|x l IH]; intros H; simpl; [lia|].
  pose proof (H x ltac:(by left)). specialize (IH (fun c Hc => H c ltac:(by right))). lia.
Qed.

Section Release.
Context (p : binder_proc) (Hi : binder_inv p).
Context (l1 l2 : list Z) (b : Z) (h : binder_buffer).
Context (El : buffers p = l1 ++ b :: l2) (Hb : headers p !! b = Some h) (Hbusy : free h = false).

Lemma release_fr : fr p b = false.
Proof using Hb Hbusy. unfold fr, fr_of. by rewrite Hb. Qed.

(** The sizes in the header are the ones asked for, rounded without wrapping. *)
Lemma release_size :
  ALIGN4 (data_size h) +ᵤ ALIGN4 (offsets_size h) = asize h /\
  0 <= asize h <= bsize (buffers p) (area_end p) b /\ asize h + sizeof_buffer < 4294967296.
Proof using Hi El Hb Hbusy.
  destruct (bi_sizes p Hi b h (alloc_in p l1 l2 b El) Hb Hbusy) as (Hd & Ho & Hs).
  destruct (alloc_bounds p Hi l1 l2 b El) as (Hb1 & [Hb2 Hb3] & _). rewrite (alloc_bsize p Hi l1 l2 b El) in *.
  pose proof (rd_geo p (bi_read p Hi)) as [[? _] _ ?]. unfold asize, data, sizeof_buffer in *.
  pose proof (Z.div_mod (data_size h + 3) 4 ltac:(lia)). pose proof (Z.mod_pos_bound (data_size h + 3) 4 ltac:(lia)).
  pose proof (Z.div_mod (offsets_size h + 3) 4 ltac:(lia)). pose proof (Z.mod_pos_bound (offsets_size h + 3) 4 ltac:(lia)).
  rewrite !ALIGN4_eq by done.
  rewrite (proj2 (Z.ltb_ge 4294967292 (data_size h))), (proj2 (Z.ltb_ge 4294967292 (offsets_size h))), u32_small by lia.
  lia.
Qed.

(** What the asynchronous space gets back stays within its bound. *)
Lemma release_async :
  0 <= free_async_space p + acost (headers p) b < 4294967296 /\
  free_async_space p + acost (headers p) b + (asum (headers p) l1 + asum (headers p) l2) = buffer_size p / 2.
Proof using Hi El.
  clear Hb Hbusy. destruct (bi_async p Hi) as [H1 H2]. rewrite El, asum_app in H2. simpl in H2.
  assert (Hnn : forall c, c ∈ buffers p -> 0 <= acost (headers p) c).
  { intros c Hc. unfold acost. destruct (headers p !! c) as [hc|] eqn:E; [|lia].
    destruct (negb (free hc) && async_transaction hc) eqn:Ea; [|lia].
    apply andb_true_iff in Ea as [Ef%negb_true_iff _]. destruct (bi_sizes p Hi c hc Hc E Ef) as (? & ? & _).
    unfold asize, sizeof_buffer. pose proof (Z.div_pos (data_size hc + 3) 4).
    pose proof (Z.div_pos (offsets_size hc + 3) 4). lia. }
  assert (Hall : forall c, c ∈ l1 ++ l2 -> 0 <= acost (headers p) c).
  { intros c Hc. apply Hnn. rewrite El. apply elem_of_app in Hc as [|]; apply elem_of_app; [by left|right; by right]. }
  pose proof (asum_nonneg (headers p) l1 (fun c Hc => Hall c (proj2 (elem_of_app _ _ _) (or_introl Hc)))).
  pose proof (asum_nonneg (headers p) l2 (fun c Hc => Hall c (proj2 (elem_of_app _ _ _) (or_intror Hc)))).
  pose proof (Hnn b (alloc_in p l1 l2 b El)). pose proof (rd_geo p (bi_read p Hi)) as [[? _] _ ?].
  unfold area_end in *. pose proof (Z.div_le_upper_bound (buffer_size p) 2 (buffer_size p)).
  destruct (rd_geo p (bi_read p Hi)) as [_ [? ?] _]. lia.
Qed.

(** The state once [b] is marked free. *)
Lemma release_open (t : tree) (s : gset Z) :
  (forall i, i ∈ s <-> i ∈ pages p /\
     ~ ((b + sizeof_buffer + 4095) / 4096 * 4096 <= buffer p + 4096 * i < nxt l2 (area_end p) / 4096 * 4096)) ->
  rb_tree t -> inorder t = list_del b (allocs (fr p) (buffers p)) ->
  let q := mk_proc (vma p) (buffer p) (buffer_size p) (user_buffer_offset p) (buffers p)
             (<[b := set_free h true]> (headers p)) (free_buffers p) t
             (free_async_space p + acost (headers p) b) s (npages p) in
  open_inv q l1 b l2.
Proof using Hi El Hb Hbusy.
  intros Hs Ht Hit q. destruct (alloc_notin p Hi l1 l2 b El) as [Hn1 Hn2].
  assert (Hfrq : forall c, fr q c = if decide (c = b) then true else fr p c).
  { intros c. unfold fr. simpl. rewrite fr_insert. by case_decide. }
  assert (Hfrb : fr q b = true) by (by rewrite Hfrq, decide_True).
  assert (Hagree : forall c, c ∈ l1 ++ l2 -> fr q c = fr p c).
  { intros c Hc. rewrite Hfrq, decide_False; [done|]. intros ->. apply elem_of_app in Hc as [|]; done. }
  assert (Hag1 : forall c, c ∈ l1 -> fr q c = fr p c) by (intros; apply Hagree, elem_of_app; by left).
  assert (Hag2 : forall c, c ∈ l2 -> fr q c = fr p c) by (intros; apply Hagree, elem_of_app; by right).
  pose proof (bi_read p Hi) as [Hgeo Hhead Hchain Hhd Hmap].
  assert (Hpages : pages_exact q).
  { intros i. change (pages q) with s. rewrite Hs, (bi_pages p Hi i). simpl. change (area_end q) with (area_end p).
    destruct (data_pages l1 l2 b (area_end p) (buffer p + 4096 * i)) with (fr := fr q) (fr' := fr p) as [Hd Hdn];
      [by rewrite <- El|by apply page_aligned|by apply area_end_aligned|done|done|apply release_fr|].
    rewrite El. tauto. }
  assert (Hgq : geometry q) by (by destruct Hgeo).
  split; [split|done|done| |].
  - split; [done..| |by apply exact_mapped]. intros c Hc. simpl. destruct (decide (c = b)) as [->|].
    + rewrite lookup_insert_eq. by eexists.
    + rewrite lookup_insert_ne by done. by apply Hhd.
  - done.
  - split; [done|]. simpl. rewrite Hit, El, !allocs_app, Hfrb, release_fr. simpl.
    rewrite list_del_nodup; [by rewrite (allocs_ext _ _ l1 Hag1), (allocs_ext _ _ l2 Hag2)|].
    pose proof (NoDup_filter (fun c => fr p c = false) _ (buffers_NoDup p (bi_read p Hi))) as Hnd.
    change (NoDup (allocs (fr p) (buffers p))) in Hnd. rewrite El, allocs_app, release_fr in Hnd. done.
  - intros c hc Hc Hh Hf. simpl in Hh. destruct (decide (c = b)) as [->|].
    + rewrite lookup_insert_eq in Hh. by injection Hh as <-.
    + rewrite lookup_insert_ne in Hh by done. by apply (bi_sizes p Hi).
  - destruct release_async as [H1 H2]. split; [done|]. simpl. rewrite <- H2, El, asum_app. simpl.
    pose proof (acost_free q b Hfrb) as E0. simpl in E0. rewrite E0.
    rewrite (asum_ext _ (headers p) l1), (asum_ext _ (headers p) l2)
      by (intros c Hc; apply lookup_insert_ne; congruence). lia.
  - rewrite (frees_ext _ _ l1 Hag1), (frees_ext _ _ l2 Hag2).
    pose proof (bi_free p Hi) as Hft. rewrite El, frees_app, release_fr in Hft. simpl in Hft.
    apply (free_tree_ext p); [done..|]. intros c Hc. split; [by apply (ft_in p _ Hft)|]. split; [|done].
    rewrite Hagree; [by apply (ft_in p _ Hft)|].
    apply elem_of_app in Hc as [[? _]%elem_frees|[? _]%elem_frees]; apply elem_of_app; auto.
  - pose proof (bi_merged p Hi) as Hm. rewrite El in Hm. apply merged_app in Hm as [Hm1 [_ Hm2]].
    split; [|apply (merged_mono (fr p)); [intros c Hc; by rewrite Hag2|done]].
    apply (merged_mono (fr p)); [intros c Hc; by rewrite Hag1|].
    clear - Hm1. induction l1 as [|x l IH]; [done|]. destruct l as [|x' l]; [done|]. destruct Hm1 as [? ?].
    split; [done|]. by apply IH.
Qed.
End Release.

(** [c] is an allocated buffer with header [h]. *)
Definition live (p : binder_proc) (c : Z) (h : binder_buffer) : Prop :=
  c ∈ buffers p /\ headers p !! c = Some h /\ free h = false.

(** What a release promises: every other allocated buffer is as it was. *)
Definition free_post (p q : binder_proc) (b : Z) : Prop :=
  (forall c h, live q c h <-> live p c h /\ c <> b) /\
  (forall c h, live q c h -> bsize (buffers q) (area_end q) c = bsize (buffers p) (area_end p) c).

Lemma same_live_post (p q0 q : binder_proc) (b : Z) (h : binder_buffer) :
  buffers q0 = buffers p -> area_end q0 = area_end p -> headers q0 = <[b := h]> (headers p) -> free h = true ->
  same_live q0 q -> free_post p q b.
Proof.
  intros Eb Ee Eh Hf [E H]. unfold free_post, live. rewrite E, Eh.
  assert (Hkey : forall c hc, <[b := h]> (headers p) !! c = Some hc -> free hc = false ->
    c <> b /\ headers p !! c = Some hc /\ fr q0 c = false).
  { intros c hc Hh Hfc. destruct (decide (c = b)) as [->|Hne]; [rewrite lookup_insert_eq in Hh; congruence|].
    split; [done|]. rewrite lookup_insert_ne in Hh by done. split; [done|].
    unfold fr, fr_of. by rewrite Eh, lookup_insert_ne, Hh. }
  split.
  - intros c hc. split.
    + intros (Hc & Hh & Hfc). destruct (Hkey c hc Hh Hfc) as (Hne & Hh' & Hfr).
      split; [|done]. split; [|done]. rewrite <- Eb. by apply (H c Hfr).
    + intros [(Hc & Hh & Hfc) Hne].
      assert (Hh' : <[b := h]> (headers p) !! c = Some hc) by by rewrite lookup_insert_ne.
      destruct (Hkey c hc Hh' Hfc) as (_ & _ & Hfr). split; [|done]. apply (H c Hfr). by rewrite Eb.
  - intros c hc (Hc & Hh & Hfc). destruct (Hkey c hc Hh Hfc) as (_ & _ & Hfr). rewrite <- Eb, <- Ee.
    apply (H c Hfr). by apply (H c Hfr).
Qed.

(** The data pages of an allocated buffer are backed. *)
Lemma data_pages_used (p : binder_proc) (l1 l2 : list Z) (b i : Z) :
  binder_inv p -> buffers p = l1 ++ b :: l2 -> fr p b = false -> 0 <= i < npages p ->
  (b + sizeof_buffer + 4095) / 4096 * 4096 <= buffer p + 4096 * i < nxt l2 (area_end p) / 4096 * 4096 ->
  i ∈ pages p.
Proof.
  intros Hi El Hf Hir Hr. apply (bi_pages p Hi). split; [done|]. rewrite El. apply need_app. right. left.
  rewrite Hf. unfold sizeof_buffer in *. page_facts (b + 40 + 4095) ql. page_facts (nxt l2 (area_end p)) qn. lia.
Qed.

(** binder_free_buf() up to the merges. *)
Lemma free_buf_open (env : mm_env) (p : binder_proc) (b : Z) (h : binder_buffer) :
  binder_inv p -> live p b h -> transaction h = None ->
  exists q l1 l2,
    binder_free_buf env p b =
      (p ← merge_next env q b; '(p, b) ← merge_prev env p b; binder_insert_free_buffer p b) /\
    open_inv q l1 b l2 /\ buffers q = buffers p /\ area_end q = area_end p /\
    headers q = <[b := set_free h true]> (headers p).
Proof.
  intros Hi (Hin & Hh & Hf) Htr. pose proof (bi_read p Hi) as Hrd.
  destruct (buffer_split p Hrd b Hin) as (l1 & l2 & El & Hn1 & Hn2).
  destruct (header_spec p Hrd b Hin) as (h' & Eh & Hh' & Hfr). assert (h' = h) as -> by congruence. rewrite Hf in Hfr.
  destruct (release_size p Hi l1 l2 b h El Hh Hf) as (Esz & [Hsz1 Hsz2] & Hsz3).
  destruct (alloc_bounds p Hi l1 l2 b El) as (Hb1 & [Hb2 Hb3] & _).
  pose proof (rd_geo p Hrd) as Hg. pose proof Hg as [[Hg0 _] _ Hmax].
  destruct (release_async p Hi l1 l2 b El) as [Ha1 _].
  unfold binder_free_buf. destruct (buffer_size_spec p Hrd b Hin) as [-> _]. cbn [mbind option_bind].
  rewrite Eh. cbn [mbind option_bind]. rewrite Esz, Hf, Htr.
  rewrite (proj2 (Z.ltb_ge (bsize _ _ _) (asize h))), (proj2 (Z.ltb_ge b (buffer p))) by done.
  rewrite (proj2 (Z.ltb_ge (buffer p + buffer_size p) b)) by (unfold area_end, sizeof_buffer in *; lia).
  cbn [BUG_ON mbind option_bind].
  set (p1 := if async_transaction h then _ else p).
  assert (Ep1 : p1 = set_free_async_space p (free_async_space p + acost (headers p) b)).
  { unfold p1. unfold acost in Ha1 |- *. rewrite Hh, Hf in Ha1 |- *. simpl in Ha1 |- *. destruct (async_transaction h).
    - by rewrite !u32_small by (rewrite ?u32_small; unfold sizeof_buffer in *; lia).
    - rewrite Z.add_0_r. by destruct p. }
  rewrite Ep1. clear Ep1 p1. set (p1 := set_free_async_space p _).
  destruct (alloc_page_end p b (nxt l2 (area_end p)) 0 0 Hg Hb1) as (E1 & E2 & _ & _); [lia|lia|done|].
  rewrite (alloc_bsize p Hi l1 l2 b El), E1, E2.
  destruct (free_pages_spec env p1 ((b + sizeof_buffer + 4095) / 4096 * 4096)
    (nxt l2 (area_end p) / 4096 * 4096) false) as (s & ret & Hs & ->).
  { by destruct Hg. }
  { apply Z_mod_mult. }
  { apply Z_mod_mult. }
  { simpl. unfold sizeof_buffer. page_facts (b + 40 + 4095) ql. lia. }
  { change (area_end p1) with (area_end p). page_facts (nxt l2 (area_end p)) qn. lia. }
  { intros i Hir Hr. by apply (data_pages_used p l1 l2 b i Hi El Hfr). }
  cbn [mbind option_bind]. destruct (bi_alloc p Hi) as [Hra Hia].
  destruct (rb_erase_spec b (allocated_buffers p) Hra) as (t & Et & Hrt & Hit).
  { rewrite Hia. apply NoDup_filter, buffers_NoDup, Hrd. }
  { rewrite Hia. apply list_elem_of_filter. done. }
  simpl allocated_buffers. rewrite Et. cbn [mbind option_bind].
  rewrite Hia in Hit.
  pose proof (release_open p Hi l1 l2 b h El Hh Hf t s Hs Hrt Hit) as Ho.
  set (q0 := mk_proc _ _ _ _ _ _ _ _ _ _ _) in Ho.
  exists q0, l1, l2. split; [|done]. unfold set_header.
  change (header_mapped _ b) with (header_mapped q0 b).
  by rewrite (rd_mapped q0 (co_read q0 (oi_core _ _ _ _ Ho)) b Hin).
Qed.

Lemma free_buf_spec (env : mm_env) (p : binder_proc) (b : Z) (h : binder_buffer) :
  binder_inv p -> live p b h -> transaction h = None ->
  exists q, binder_free_buf env p b = Some q /\ binder_inv q /\ free_post p q b.
Proof.
  intros Hi Hl Htr. destruct (free_buf_open env p b h Hi Hl Htr) as (q0 & l1 & l2 & -> & Ho & Eb & Ee & Eh).
  destruct (merge_next_spec env q0 l1 l2 b Ho) as (q1 & l2' & -> & Ho1 & Hl1 & Hh1). cbn [mbind option_bind].
  destruct (merge_prev_spec env q1 l1 l2' b Ho1) as (q2 & l1' & x & -> & Ho2 & Hl2 & Hh2). cbn [mbind option_bind].
  destruct (close_spec q2 l1' l2' x Ho2 Hh2) as (q & -> & Hq & Hl3).
  { intros c Hc. unfold fr. rewrite (proj1 Hl2). by apply Hh1. }
  exists q. split; [done|]. split; [done|].
  apply (same_live_post p q0 q b (set_free h true)); try done.
  by apply (same_live_trans _ q2); [apply (same_live_trans _ q1)|].
Qed.

(** ** Mapping *)

Lemma CACHE_COLOUR_lxor (s a : Z) :
  CACHE_COLOUR (Z.lxor s a) = 0 <-> (s / 4096) mod 4 = (a / 4096) mod 4.
Proof.
  assert (E : forall x, CACHE_COLOUR x = Z.land (Z.shiftr x 12) (Z.ones 2)).
  { intros x. unfold CACHE_COLOUR. change (4 * PAGE_SIZE - 1) with (Z.ones 14).
    rewrite Z.shiftr_land. by change (Z.shiftr (Z.ones 14) 12) with (Z.ones 2). }
  rewrite E, Z.shiftr_lxor.
  assert (D : forall u v m, Z.land (Z.lxor u v) m = Z.lxor (Z.land u m) (Z.land v m)).
  { intros u v m. apply Z.bits_inj'. intros n Hn. rewrite Z.land_spec, !Z.lxor_spec, !Z.land_spec.
    by destruct (Z.testbit u n), (Z.testbit v n), (Z.testbit m n). }
  rewrite D, !Z.land_ones, !Z.shiftr_div_pow2 by lia. change (2 ^ 12) with 4096. change (2 ^ 2) with 4.
  split; [by intros H%Z.lxor_eq|]. intros ->. apply Z.lxor_nilpotent.
Qed.

(** Four rounds are enough for the colours to match. *)
Lemma match_colour_spec (s a : Z) :
  CACHE_COLOUR (Z.lxor (match_colour 4 s a) a) = 0 /\
  exists k, 0 <= k <= 3 /\ match_colour 4 s a = s + k * 4096.
Proof.
  cbn [match_colour]. change PAGE_SIZE with 4096.
  repeat match goal with
  | |- context [CACHE_COLOUR (Z.lxor ?x a) =? 0] => destruct (Z.eqb_spec (CACHE_COLOUR (Z.lxor x a)) 0)
  end.
  1: split; [done|]; exists 0; lia.
  1: split; [done|]; exists 1; lia.
  1: split; [done|]; exists 2; lia.
  1: split; [done|]; exists 3; lia.
  exfalso. rewrite !CACHE_COLOUR_lxor in *.
  replace (s + 4096 + 4096 + 4096) with (s + 3 * 4096) in * by lia.
  replace (s + 4096 + 4096) with (s + 2 * 4096) in * by lia.
  replace (s + 4096) with (s + 1 * 4096) in * by lia.
  rewrite !Z.div_add in * by lia. generalize dependent (a / 4096). generalize dependent (s / 4096).
  intros u; intros. pose proof (Z.mod_pos_bound u 4). pose proof (Z.mod_pos_bound z 4).
  pose proof (Z.div_mod u 4). pose proof (Z.div_mod (u + 1) 4). pose proof (Z.div_mod (u + 2) 4).
  pose proof (Z.div_mod (u + 3) 4). pose proof (Z.mod_pos_bound (u + 1) 4). pose proof (Z.mod_pos_bound (u + 2) 4).
  pose proof (Z.mod_pos_bound (u + 3) 4). lia.
Qed.

(** What binder_open() leaves: kzalloc() clears the structure. *)
Definition fresh_proc : binder_proc := mk_proc false 0 0 0 [] ∅ Null Null 0 ∅ 0.

(** What mmap() and get_vm_area() promise: page-aligned areas, the kernel one
    below the last page of the address space. *)
Record mmap_ok (v : vm_area) (area : Z) : Prop := {
  mo_start : 0 <= vm_start v /\ vm_start v mod 4096 = 0;
  mo_end : vm_start v < vm_end v < 4294967296 /\ vm_end v mod 4096 = 0;
  mo_area : 0 < area /\ area mod 4096 = 0;
  mo_max : area + Z.min (vm_end v - vm_start v) SZ_4M <= 0xFFFFF000
}.

Lemma null_tree : rb_tree Null.
Proof. exists 0%nat. constructor. Qed.

Section Mapped.
Context (area n : Z) (off : Z) (Ha : 0 < area /\ area mod 4096 = 0) (Hn : 0 < n).
Context (Hmax : area + 4096 * n <= 0xFFFFF000).
Context (g : binder_buffer) (s : gset Z) (Hs : forall i, i ∈ s <-> area <= area + 4096 * i < area + 4096).

(** The area with one free buffer. *)
Let one (m : gmap Z binder_buffer) (vm : bool) (t : tree) (async : Z) : binder_proc :=
  mk_proc vm area (4096 * n) off [area] m t Null async s n.

Lemma one_readable (m : gmap Z binder_buffer) (vm : bool) (t : tree) (async : Z) :
  is_Some (m !! area) -> readable (one m vm t async).
Proof using Ha Hn Hmax Hs.
  intros Hm. unfold one. split; [by split|done| | |].
  - split; [|done]. unfold area_end, nxt, sizeof_buffer. simpl. lia.
  - intros b ->%list_elem_of_singleton. done.
  - intros b ->%list_elem_of_singleton. apply header_mapped_spec; [by split|done| |].
    + unfold area_end, sizeof_buffer. simpl. lia.
    + simpl. unfold sizeof_buffer. intros i Hi H1 H2. apply Hs. lia.
Qed.

Lemma one_mapped (m : gmap Z binder_buffer) (vm : bool) (t : tree) (async : Z) :
  header_mapped (one m vm t async) area = true.
Proof using Ha Hn Hmax Hs g.
  pose proof (one_readable {[ area := g ]} vm t async) as Hr.
  apply (rd_mapped _ (Hr ltac:(rewrite lookup_singleton_eq; by eexists))).
  by apply list_elem_of_singleton.
Qed.

Lemma one_inv (m : gmap Z binder_buffer) (vm : bool) (async0 : Z) :
  free g = true ->
  exists t, binder_insert_free_buffer (one (<[area := g]> m) vm Null async0) area =
      Some (one (<[area := g]> m) vm t async0) /\
    binder_inv (one (<[area := g]> m) true t (4096 * n / 2)).
Proof using Ha Hn Hmax Hs.
  intros Hg. set (m' := <[area := g]> m).
  assert (Hsome : is_Some (m' !! area)) by (unfold m'; rewrite lookup_insert_eq; by eexists).
  assert (Hfr : forall vm t as', fr (one m' vm t as') area = true).
  { intros. unfold fr, fr_of. simpl. unfold m'. by rewrite lookup_insert_eq. }
  destruct (insert_free_spec (one m' vm Null async0) area []) as (t & Et & Ht).
  - by apply one_readable.
  - split; [apply null_tree|done|by intros b ?%not_elem_of_nil|constructor].
  - by apply list_elem_of_singleton.
  - apply Hfr.
  - exists t. split; [exact Et|]. destruct Ht as [H1 H2 H3 H4].
    split; [by apply one_readable| | |split; [apply null_tree|]|done| |].
    + intros i. simpl. rewrite Hs, (Hfr true t (4096 * n / 2)). unfold area_end, sizeof_buffer. simpl. lia.
    + split; [done| |intros b [Hb _]%elem_frees; apply list_elem_of_singleton in Hb as ->|done].
      * simpl. unfold frees. rewrite filter_cons, decide_True by apply Hfr. done.
      * split; [by left|apply Hfr].
    + simpl. unfold allocs. rewrite filter_cons, decide_False; [done|]. by rewrite Hfr.
    + intros b h Hb Hh Hf. apply list_elem_of_singleton in Hb as ->. simpl in Hh. unfold m' in Hh.
      rewrite lookup_insert_eq in Hh. congruence.
    + simpl. pose proof (acost_free (one m' true t (4096 * n / 2)) area (Hfr _ _ _)) as E. simpl in E. rewrite E.
      pose proof (Z.div_mod (4096 * n) 2 ltac:(lia)). pose proof (Z.mod_pos_bound (4096 * n) 2 ltac:(lia)). lia.
Qed.
End Mapped.

(** The user area once binder_mmap() has cut it and matched its colour. *)
Definition mapped_vma (aliasing : bool) (area : Z) (v : vm_area) : vm_area :=
  mk_vma (if aliasing then match_colour 4 (vm_start v) area else vm_start v)
    (vm_start v + Z.min (vm_end v - vm_start v) SZ_4M)
    (Z.ldiff (vm_flags v |ᵤ VM_DONTCOPY) VM_MAYWRITE).

Lemma mmap_setup_spec (env : mm_env) (garbage : binder_buffer) (kz : bool) (v : vm_area) (area off n : Z) :
  vm_end v -ᵤ vm_start v = 4096 * n -> 0 < n -> 0 < area /\ area mod 4096 = 0 -> area + 4096 * n <= 0xFFFFF000 ->
  exists q ret, mmap_setup env garbage kz fresh_proc v area off = Some (q, v, ret) /\
    (ret = 0 /\ binder_inv q /\ vma q = true /\ buffers q = [area] /\ fr q area = true /\ buffer q = area /\
       buffer_size q = 4096 * n /\ user_buffer_offset q = off \/
     ret = - ENOMEM /\ buffer q = 0 /\ vma q = false /\ (kz = false \/ exists a, page_try env a <> PageOk)).
Proof.
  intros En Hn Ha Hmax. unfold mmap_setup. rewrite En. change PAGE_SIZE with 4096.
  rewrite (Z.mul_comm 4096 n), Z.div_mul, (Z.mul_comm n 4096) by lia. destruct kz; cbn [negb].
  2:{ do 2 eexists. split; [done|]. right. split_and!; [done..|by left]. }
  set (p1 := mk_proc _ area (4096 * n) _ _ _ _ _ _ _ _).
  assert (Hg1 : geometry p1) by (by split).
  destruct (alloc_pages_spec env p1 area (area + 4096) true) as (s & Hs & [->|[-> Hbad]]);
    [done|tauto| |simpl; lia|unfold area_end; simpl; lia|intros i _ _; apply not_elem_of_empty| |].
  { replace (area + 4096) with (area + 1 * 4096) by lia. rewrite Z_mod_plus_full. tauto. }
  2:{ cbn [mbind option_bind]. change (- ENOMEM =? 0) with false. cbn [negb]. do 2 eexists. split; [done|]. right.
      split; [done|]. split; [done|]. split; [done|]. right. by destruct Hbad as [[? _]|?]. }
  cbn [mbind option_bind]. change (0 =? 0) with true. cbn [negb].
  assert (Hs' : forall i, i ∈ s <-> area <= area + 4096 * i < area + 4096).
  { intros i. rewrite Hs. simpl. rewrite elem_of_empty. tauto. }
  unfold new_header, set_header.
  pose proof (one_mapped area n off Ha Hn Hmax garbage s Hs' ∅ false Null 0) as Emap.
  destruct (one_inv area n off Ha Hn Hmax (set_free garbage true) s Hs' ∅ false 0 eq_refl) as (t & Et & Hinv).
  change (header_mapped _ area) with (header_mapped (mk_proc false area (4096 * n) off [area] ∅ Null Null 0 s n) area).
  rewrite Emap. cbn [mbind option_bind].
  change (binder_insert_free_buffer _ area) with (binder_insert_free_buffer
    (mk_proc false area (4096 * n) off [area] (<[area := set_free garbage true]> ∅) Null Null 0 s n) area).
  rewrite Et. cbn [mbind option_bind]. do 2 eexists. split; [done|]. left. split; [done|]. split; [exact Hinv|].
  split_and!; try done. unfold fr, fr_of. simpl. by rewrite lookup_insert_eq.
Qed.

(** The size of the mapping, in pages. *)
Lemma mapped_vma_pages (aliasing : bool) (area : Z) (v : vm_area) :
  mmap_ok v area -> (aliasing = true -> 3 * 4096 < vm_end v - vm_start v) ->
  let v' := mapped_vma aliasing area v in
  exists n, vm_end v' -ᵤ vm_start v' = 4096 * n /\ vm_end v' - vm_start v' = 4096 * n /\ 0 < n /\
    area + 4096 * n <= 0xFFFFF000.
Proof.
  intros [[Hs0 Hs] [[He0 He1] He] [Ha0 Ha] Hmax] Hal v'.
  assert (Hst : exists k, vm_start v' = vm_start v + k * 4096 /\ 0 <= k /\ vm_start v' < vm_end v').
  { unfold v', mapped_vma, SZ_4M. cbn [vm_start vm_end]. destruct aliasing; [|exists 0; lia]. specialize (Hal eq_refl).
    destruct (match_colour_spec (vm_start v) area) as (_ & k & Hk & ->). exists k. lia. }
  destruct Hst as (k & Est & Hk & Hlt).
  change (vm_end v') with (vm_start v + Z.min (vm_end v - vm_start v) SZ_4M) in *.
  rewrite Est in *. clearbody v'. clear Est v'. unfold SZ_4M in *.
  page_facts (vm_start v) qs. page_facts (vm_end v) qe.
  exists (Z.min (qe - qs) 1024 - k). rewrite u32_small by lia. lia.
Qed.

Lemma mmap_spec (env : mm_env) (garbage : binder_buffer) (aliasing kz : bool) (area : Z) (v : vm_area) :
  mmap_ok v area -> vm_flags v &ᵤ FORBIDDEN_MMAP_FLAGS = 0 ->
  (aliasing = true -> 3 * 4096 < vm_end v - vm_start v) ->
  let v' := mapped_vma aliasing area v in
  exists q ret, binder_mmap env garbage aliasing (Some area) kz fresh_proc v = Some (q, v', ret) /\
    (ret = 0 /\ binder_inv q /\ vma q = true /\ buffers q = [area] /\ fr q area = true /\ buffer q = area /\
       buffer_size q = vm_end v' - vm_start v' /\ user_buffer_offset q = vm_start v - area \/
     ret = - ENOMEM /\ buffer q = 0 /\ vma q = false /\ (kz = false \/ exists a, page_try env a <> PageOk)).
Proof.
  intros Hok Hfl Hal v'. destruct (mapped_vma_pages aliasing area v Hok Hal) as (n & En & En' & Hn & Hmax).
  fold v' in En, En'. rewrite En'.
  destruct (mmap_setup_spec env garbage kz v' area (vm_start v - area) n En Hn (mo_area v area Hok) Hmax)
    as (q & ret & E & Hres).
  exists q, ret. split; [|exact Hres]. rewrite <- E. clear E Hres. unfold binder_mmap.
  destruct Hok as [[Hs0 _] [[He0 He1] _] _ _]. rewrite (u32_small (vm_end v - vm_start v)) by lia.
  replace (if SZ_4M <? vm_end v - vm_start v then _ else v) with
    (mk_vma (vm_start v) (vm_start v + Z.min (vm_end v - vm_start v) SZ_4M) (vm_flags v)).
  2:{ destruct (Z.ltb_spec SZ_4M (vm_end v - vm_start v)); [f_equal; lia|].
      destruct v. simpl in *. f_equal. lia. }
  cbn [vm_flags vm_start vm_end]. rewrite Hfl. change (buffer fresh_proc =? 0) with true.
  change (0 =? 0) with true. cbn [negb]. unfold v', mapped_vma. by destruct aliasing.
Qed.

(** ** Lookup *)

Lemma chain_sorted (l : list Z) (e : Z) : chain l e -> StronglySorted Z.lt l.
Proof.
  induction l as [|x l IH]; intros Hc; constructor; destruct Hc as [H1 H2]; fold chain in *; [auto|].
  apply Forall_forall. intros y Hy. destruct (chain_le _ _ _ H2 Hy). unfold sizeof_buffer in *. lia.
Qed.

(** The buffer the lookup finds is the allocated one at that address. *)
Lemma lookup_spec (p : binder_proc) (user_ptr : Z) :
  binder_inv p ->
  exists r, binder_buffer_lookup p user_ptr = Some r /\
    forall b, r = Some b <-> (exists h, live p b h) /\ b = user_ptr - user_buffer_offset p -ᵤ sizeof_buffer.
Proof.
  intros Hi. pose proof (bi_read p Hi) as Hrd. unfold binder_buffer_lookup.
  set (k := user_ptr - user_buffer_offset p -ᵤ sizeof_buffer). destruct (bi_alloc p Hi) as [_ Ein].
  set (l := allocs (fr p) (buffers p)) in *.
  assert (Hl : forall b, b ∈ l <-> exists h, live p b h).
  { intros b. unfold l, allocs, live. rewrite list_elem_of_filter. split.
    - intros [Hf Hb]. destruct (header_spec p Hrd b Hb) as (h & _ & Hh & Hfh). exists h. split_and!; congruence.
    - intros (h & Hb & Hh & Hf). split; [|done]. unfold fr, fr_of. by rewrite Hh. }
  assert (Hgo : forall y, y ∈ l -> allocated_go p k y = Some (if k <? y then Go Lft else if y <? k then Go Rgt else Stop)).
  { intros y [Hf Hy]%list_elem_of_filter. by apply allocated_go_spec. }
  assert (Hs : StronglySorted Z.lt l) by apply StronglySorted_filter, (chain_sorted _ (area_end p)), Hrd.
  destruct (decide (k ∈ l)) as [Hk|Hk].
  - exists (Some k). pose proof Hk as (A & B & El)%list_elem_of_split. rewrite El in Hs.
    apply StronglySorted_app in Hs as (HA & _ & [HB _]%StronglySorted_cons). rewrite Forall_forall in HB.
    rewrite (rb_walk_inr _ _ [] A B k).
    + split; [done|]. intros b. rewrite <- Hl. naive_solver.
    + by rewrite Ein.
    + intros y Hy. rewrite Hgo by (rewrite El; clear - Hy; set_solver). specialize (HA y k Hy ltac:(by left)).
      by rewrite (proj2 (Z.ltb_ge k y)), (proj2 (Z.ltb_lt y k)) by lia.
    + intros y Hy. rewrite Hgo by (rewrite El; clear - Hy; set_solver). specialize (HB y Hy).
      by rewrite (proj2 (Z.ltb_lt k y)) by lia.
    + rewrite Hgo by done. by rewrite Z.ltb_irrefl.
  - exists None. destruct (sorted_split id k l) as (A & B & El & HA & HB).
    { clear - Hs. induction Hs as [|x l Hl IH Hx]; constructor; [done|]. eapply Forall_impl; [exact Hx|].
      intros y Hy. unfold id. lia. }
    destruct (rb_walk_inl (allocated_go p k) (allocated_buffers p) [] A B) as (path & -> & _).
    + by rewrite Ein.
    + intros y Hy. rewrite Hgo by (rewrite El; clear - Hy; set_solver). specialize (HA y Hy). unfold id in *.
      assert (y <> k) by (intros ->; apply Hk; rewrite El; clear - Hy; set_solver).
      by rewrite (proj2 (Z.ltb_ge k y)), (proj2 (Z.ltb_lt y k)) by lia.
    + intros y Hy. rewrite Hgo by (rewrite El; clear - Hy; set_solver). specialize (HB y Hy). unfold id in *.
      by rewrite (proj2 (Z.ltb_lt k y)) by lia.
    + split; [done|]. intros b. rewrite <- Hl. naive_solver.
Qed.

(** ** Owners, and the area with nothing allocated *)

Lemma owner_inv (p : binder_proc) (b : Z) (h : binder_buffer) (tr : option Z) :
  binder_inv p -> live p b h ->
  exists q, set_header p b (set_transaction h tr) = Some q /\ binder_inv q.
Proof.
  intros Hi (Hb & Hh & Hf). pose proof (bi_read p Hi) as Hrd. rewrite set_header_spec by done.
  eexists. split; [done|]. set (q := set_headers _ _).
  assert (Hfr : forall c, fr q c = fr p c).
  { intros c. unfold fr. simpl. rewrite fr_insert. case_decide as E; [|done]. subst. unfold fr_of. by rewrite Hh. }
  assert (Hac : asum (headers q) (buffers p) = asum (headers p) (buffers p)).
  { generalize (buffers p). induction l as [|c l IH]; [done|]. simpl. f_equal; [|exact IH]. unfold acost. simpl.
    destruct (decide (c = b)) as [->|]; [by rewrite lookup_insert_eq, Hh|by rewrite lookup_insert_ne]. }
  split.
  - apply (readable_mono p); try done. intros c Hc. simpl.
    destruct (decide (c = b)) as [->|]; [rewrite lookup_insert_eq; by eexists|].
    rewrite lookup_insert_ne by done. by apply Hrd.
  - intros i. rewrite (need_ext (fr q) (fr p)) by (intros; apply Hfr). apply (bi_pages p Hi i).
  - rewrite (frees_ext (fr q) (fr p)) by (intros; apply Hfr). apply (free_tree_ext p); [apply Hi|done|].
    intros c Hc. rewrite Hfr. apply (ft_in _ _ (bi_free p Hi)) in Hc. tauto.
  - rewrite (allocs_ext (fr q) (fr p)) by (intros; apply Hfr). apply Hi.
  - apply (merged_mono (fr p)); [intros c _; by rewrite Hfr|apply Hi].
  - intros c hc Hc Hhc Hfc. simpl in Hhc. destruct (decide (c = b)) as [->|].
    + rewrite lookup_insert_eq in Hhc. injection Hhc as <-. by apply (bi_sizes p Hi b h).
    + rewrite lookup_insert_ne in Hhc by done. by apply (bi_sizes p Hi).
  - destruct (bi_async p Hi) as [H1 H2]. split; [done|].
    change (free_async_space p + asum (headers q) (buffers p) = buffer_size p / 2). by rewrite Hac.
Qed.

Lemma close_inv (p : binder_proc) : binder_inv p -> binder_inv (binder_vma_close p).
Proof.
  intros [Hr Hp [? ? ? ?] ? ? ? ?]. split; try done.
  - apply (readable_mono p); try done. apply Hr.
Qed.

(** With nothing allocated the area is one free buffer, and only the page of
    its header is backed. *)
Lemma all_free (p : binder_proc) :
  binder_inv p -> (forall b h, ~ live p b h) ->
  buffers p = [buffer p] /\ free_async_space p = buffer_size p / 2 /\ pages p = {[ 0 ]}.
Proof.
  intros Hi Hno. pose proof (bi_read p Hi) as Hrd.
  assert (Hfr : forall b, b ∈ buffers p -> fr p b = true).
  { intros b Hb. destruct (header_spec p Hrd b Hb) as (h & _ & Hh & ->). destruct (free h) eqn:E; [done|].
    exfalso. by apply (Hno b h). }
  assert (El : buffers p = [buffer p]).
  { pose proof (rd_head p Hrd) as Hh. pose proof (bi_merged p Hi) as Hm.
    destruct (buffers p) as [|a [|c l]]; [done|by injection Hh as ->|].
    exfalso. destruct Hm as [Hm _]. apply Hm. split; apply Hfr; clear; set_solver. }
  split; [done|]. split.
  - destruct (bi_async p Hi) as [_ H]. rewrite El in H. simpl in H. rewrite acost_free in H; [lia|].
    apply Hfr. rewrite El. by left.
  - apply set_eq. intros i. rewrite (bi_pages p Hi i), El, elem_of_singleton. simpl.
    rewrite Hfr by (rewrite El; by left). pose proof (rd_geo p Hrd) as [_ [? _] _]. unfold sizeof_buffer. lia.
Qed.

(** ** Every sequence of calls *)

Inductive binder_step (p : binder_proc) : binder_proc -> Prop :=
  | step_alloc env garbage ds os is_async q r :
      0 <= ds < 4294967296 -> 0 <= os < 4294967296 ->
      binder_alloc_buf env garbage p ds os is_async = Some (q, r) -> binder_step p q
  | step_free env b h q :
      live p b h -> transaction h = None -> binder_free_buf env p b = Some q -> binder_step p q
  | step_owner b h t q :
      live p b h -> set_header p b (set_transaction h t) = Some q -> binder_step p q
  | step_close : binder_step p (binder_vma_close p).

Inductive binder_reachable : binder_proc -> Prop :=
  | reach_mmap env garbage aliasing kz area v v' q :
      mmap_ok v area -> vm_flags v &ᵤ FORBIDDEN_MMAP_FLAGS = 0 ->
      (aliasing = true -> 3 * 4096 < vm_end v - vm_start v) ->
      binder_mmap env garbage aliasing (Some area) kz fresh_proc v = Some (q, v', 0) -> binder_reachable q
  | reach_step p q : binder_reachable p -> binder_step p q -> binder_reachable q.

Lemma binder_step_inv (p q : binder_proc) : binder_inv p -> binder_step p q -> binder_inv q.
Proof.
  intros Hi [env garbage ds os is_async q' r Hd Ho E|env b h q' Hl Ht E|b h t q' Hl E|].
  - destruct (alloc_buf_spec env garbage p ds os is_async Hi Hd Ho) as (? & ? & E' & Hq & _). congruence.
  - destruct (free_buf_spec env p b h Hi Hl Ht) as (? & E' & Hq & _). congruence.
  - destruct (owner_inv p b h t Hi Hl) as (? & E' & Hq). congruence.
  - by apply close_inv.
Qed.

Lemma binder_reachable_inv (p : binder_proc) : binder_reachable p -> binder_inv p.
Proof.
  induction 1 as [env garbage aliasing kz area v v' q Hok Hfl Hal E|p q _ IH Hs]; [|by apply (binder_step_inv p)].
  destruct (mmap_spec env garbage aliasing kz area v Hok Hfl Hal) as (q' & ret & E' & Hres).
  rewrite E in E'. injection E' as <- _ <-. destruct Hres as [(_ & Hi & _)|[? _]]; done.
Qed.

(** ** An area of eight pages with one buffer allocated *)

Definition ex_env : mm_env := mk_env true (fun _ => PageOk).
Definition ex_garbage : binder_buffer := mk_buffer false false None 7 7.
Definition ex_vma : vm_area := mk_vma 0x40001000 0x40009000 0.
Definition ex_area : Z := 0xC8000000.

Definition ex_mapped : binder_proc :=
  match binder_mmap ex_env ex_garbage false (Some ex_area) true fresh_proc ex_vma with
  | Some (q, _, _) => q
  | None => fresh_proc
  end.

Definition ex_busy : binder_proc :=
  match binder_alloc_buf ex_env ex_garbage ex_mapped 5000 24 true with
  | Some (q, _) => q
  | None => fresh_proc
  end.

Lemma ex_mmap_ok : mmap_ok ex_vma ex_area.
Proof. split; (split || idtac); vm_compute; try done; by split. Qed.

Lemma ex_mapped_reachable : binder_reachable ex_mapped.
Proof.
  apply (reach_mmap ex_env ex_garbage false true ex_area ex_vma (mapped_vma false ex_area ex_vma));
    [apply ex_mmap_ok|done|done|vm_compute; reflexivity].
Qed.

Lemma ex_busy_reachable : binder_reachable ex_busy.
Proof.
  apply (reach_step ex_mapped); [apply ex_mapped_reachable|].
  apply (step_alloc ex_mapped ex_env ex_garbage 5000 24 true ex_busy (Some ex_area)); [done|done|vm_compute; reflexivity].
Qed.

Lemma ex_busy_live : live ex_busy ex_area (mk_buffer false true None 5000 24).
Proof.
  split; [|split; vm_compute; reflexivity]. apply (bool_decide_unpack _). vm_compute. exact I.
Qed.

(** ** Theorems *)

(** C30. binder_alloc_buf(): whatever the sizes and whichever page allocation
    fails, the call returns, hits no BUG() and touches no page that is not
    backed, and keeps the invariant.  On success the buffer is the smallest
    free one that can hold both rounded sizes, it carries the sizes asked for,
    and every buffer allocated before keeps its header and its size.  On
    failure nothing has changed, pages included, and the reason is one of: the
    area is not mapped, the sizes overflow, the asynchronous space is used up,
    no free buffer is large enough, or the memory management refused. *)
Theorem binder_alloc_buf_correct (env : mm_env) (garbage : binder_buffer) (p : binder_proc)
    (ds os : Z) (is_async : bool) :
  binder_inv p -> 0 <= ds < 4294967296 -> 0 <= os < 4294967296 ->
  exists q r, binder_alloc_buf env garbage p ds os is_async = Some (q, r) /\ binder_inv q /\
    match r with
    | Some b => alloc_post p q b ds os is_async /\ (forall h, ~ live p b h) /\ exists h, live q b h
    | None => q = p /\ alloc_refused env p ds os is_async
    end.
Proof.
  intros Hi Hd Ho. destruct (alloc_buf_spec env garbage p ds os is_async Hi Hd Ho) as (q & r & E & Hq & Hr).
  exists q, r. split; [done|]. split; [done|]. destruct r as [b|]; [|done]. split; [done|].
  destruct Hr as ((_ & Hf & _) & (Hb & tr & Hh) & _). split; [|by eexists].
  intros h (_ & Hh' & Hbusy). unfold fr, fr_of in Hf. rewrite Hh' in Hf. congruence.
Qed.

Lemma binder_alloc_buf_correct_witness :
  exists q r, binder_alloc_buf ex_env ex_garbage ex_mapped 5000 24 true = Some (q, r) /\ binder_inv q /\
    match r with
    | Some b => alloc_post ex_mapped q b 5000 24 true /\ (forall h, ~ live ex_mapped b h) /\ exists h, live q b h
    | None => q = ex_mapped /\ alloc_refused ex_env ex_mapped 5000 24 true
    end.
Proof.
  apply (binder_alloc_buf_correct ex_env ex_garbage ex_mapped 5000 24 true);
    [apply binder_reachable_inv, ex_mapped_reachable|lia|lia].
Defined.

(** C31. binder_free_buf(): releasing an allocated buffer that no transaction
    owns succeeds without a BUG() or an access to a page that is not backed,
    keeps the invariant (neighbours merged, exactly the needed pages backed,
    the asynchronous space given back), removes that buffer and leaves every
    other allocated buffer with its header and its size. *)
Theorem binder_free_buf_correct (env : mm_env) (p : binder_proc) (b : Z) (h : binder_buffer) :
  binder_inv p -> live p b h -> transaction h = None ->
  exists q, binder_free_buf env p b = Some q /\ binder_inv q /\ free_post p q b.
Proof. apply free_buf_spec. Qed.

Lemma binder_free_buf_correct_witness :
  exists q, binder_free_buf ex_env ex_busy ex_area = Some q /\ binder_inv q /\ free_post ex_busy q ex_area.
Proof.
  apply (binder_free_buf_correct ex_env ex_busy ex_area (mk_buffer false true None 5000 24));
    [apply binder_reachable_inv, ex_busy_reachable|apply ex_busy_live|reflexivity].
Defined.



(** binder_buffer_lookup(): a user pointer finds a buffer exactly when it
    is the user address of the data of that allocated buffer, so the address
    handed out for a buffer leads back to it. *)
Lemma binder_buffer_lookup_correct (p : binder_proc) (user_ptr : Z) :
  binder_inv p ->
  (exists r, binder_buffer_lookup p user_ptr = Some r /\
     forall b, r = Some b <-> (exists h, live p b h) /\ b = user_ptr - user_buffer_offset p -ᵤ sizeof_buffer) /\
  (forall b h, live p b h -> binder_buffer_lookup p (data b + user_buffer_offset p) = Some (Some b)).
Proof.
  intros Hi. split; [by apply lookup_spec|]. intros b h Hl.
  destruct (lookup_spec p (data b + user_buffer_offset p) Hi) as (r & -> & Hr). f_equal. apply Hr.
  split; [by exists h|]. destruct Hl as (Hb & _). destruct (buffer_range p (bi_read p Hi) b Hb).
  destruct (rd_geo p (bi_read p Hi)) as [[? _] _ ?]. unfold data, sizeof_buffer in *. rewrite u32_small; lia.
Qed.

(** binder_mmap() of a fresh process either fails with -ENOMEM, the
    process unmapped, because the page array or the first page could not be
    had, or leaves one free buffer that spans the area, at most 4 MB of it,
    with the invariant established; the loop that matches the cache colour
    ends within three pages. *)
Lemma binder_mmap_correct (env : mm_env) (garbage : binder_buffer) (aliasing kz : bool) (area : Z) (v : vm_area) :
  mmap_ok v area -> vm_flags v &ᵤ FORBIDDEN_MMAP_FLAGS = 0 ->
  (aliasing = true -> 3 * 4096 < vm_end v - vm_start v) ->
  let v' := mapped_vma aliasing area v in
  (exists q ret, binder_mmap env garbage aliasing (Some area) kz fresh_proc v = Some (q, v', ret) /\
    (ret = 0 /\ binder_inv q /\ vma q = true /\ buffers q = [area] /\ fr q area = true /\ buffer q = area /\
       buffer_size q = vm_end v' - vm_start v' /\ user_buffer_offset q = vm_start v - area \/
     ret = - ENOMEM /\ buffer q = 0 /\ vma q = false /\ (kz = false \/ exists a, page_try env a <> PageOk))) /\
  CACHE_COLOUR (Z.lxor (match_colour 4 (vm_start v) area) area) = 0 /\
  vm_start v <= match_colour 4 (vm_start v) area <= vm_start v + 3 * 4096.
Proof.
  intros Hok Hfl Hal v'. split; [by apply mmap_spec|].
  destruct (match_colour_spec (vm_start v) area) as (H1 & k & Hk & H2). split; [done|lia].
Qed.

End BinderCorrect.
