(* ===== verification/KeyTree.v ===== *)
(** Red-black trees ordered by a key.

    Most trees of the kernel are searched the same way: a loop compares the key
    it looks for with that of the node at hand, goes left or right, and stops
    when they are equal.  This file has that loop once, for keys in any strict
    total order and any way to read the key of a node ([None] when the node
    cannot be read), and what insertion,
    lookup, removal and traversal do to the set of nodes. *)

From S2P Require Import Prelude RbTree.
From stdpp Require Import sorting.
Local Open Scope Z_scope.

Module KeyTree.
Import RbTree.

(** Keys in a strict total order. *)
Class KeyOrder (K : Type) := {
  key_ltb : K -> K -> bool;
  key_ltb_irrefl x : key_ltb x x = false;
  key_ltb_trans x y z : key_ltb x y = true -> key_ltb y z = true -> key_ltb x z = true;
  key_ltb_total x y : key_ltb x y = false -> key_ltb y x = false -> x = y
}.

#[export] Instance Z_order : KeyOrder Z.
Proof. refine {| key_ltb := Z.ltb |}; intros; rewrite ?Z.ltb_lt, ?Z.ltb_ge in *; lia. Defined.

Section Order.
Context {K : Type} {order : KeyOrder K}.

Lemma key_ltb_asym (x y : K) : key_ltb x y = true -> key_ltb y x = false.
Proof using.
  intros Hxy. destruct (key_ltb y x) eqn:E; [|done]. by rewrite <- (key_ltb_irrefl x), (key_ltb_trans x y x Hxy E).
Qed.

(** [x] is not above [y], which is below [z]. *)
Lemma key_le_lt (x y z : K) : key_ltb y x = false -> key_ltb y z = true -> key_ltb x z = true.
Proof using.
  intros Hxy Hyz. destruct (key_ltb x y) eqn:E; [by apply (key_ltb_trans x y z)|]. by rewrite (key_ltb_total x y E Hxy).
Qed.

(** The comparison in the search loop. *)
Definition key_go (key : Z -> option K) (k : K) (y : Z) : option verdict :=
  ky ← key y; Some (if key_ltb k ky then Go Lft else if key_ltb ky k then Go Rgt else Stop).

Definition key_lt (key : Z -> option K) (x y : Z) : Prop :=
  exists i j, key x = Some i /\ key y = Some j /\ key_ltb i j = true.

(** [t] is a red-black tree of the nodes [S] in the order of their keys. *)
Record key_tree (key : Z -> option K) (t : tree) (S : Z -> Prop) : Prop := {
  kt_rb : rb_tree t;
  kt_elem : forall x, x ∈ inorder t <-> S x;
  kt_keys : forall x, S x -> is_Some (key x);
  kt_sorted : StronglySorted (key_lt key) (inorder t)
}.

Lemma key_tree_null (key : Z -> option K) (S : Z -> Prop) : (forall x, ~ S x) -> key_tree key Null S.
Proof.
  intros HS. split; [exists 0%nat; constructor| | |constructor].
  - intros x. split; [by intros ?%not_elem_of_nil|]. intros H. by apply HS in H.
  - intros x H. by apply HS in H.
Qed.

(** The keys and the set may be described in another way. *)
Lemma key_tree_ext (key key' : Z -> option K) (t : tree) (S S' : Z -> Prop) :
  key_tree key t S -> (forall x, S x <-> S' x) -> (forall x, S x -> key' x = key x) -> key_tree key' t S'.
Proof.
  intros [Hrb Hel Hk Hs] HS Hkey. split; [done| | |].
  - intros x. by rewrite Hel.
  - intros x Hx%HS. rewrite Hkey by done. auto.
  - assert (H : forall x, x ∈ inorder t -> key' x = key x) by (intros x ?%Hel; auto).
    clear Hel Hk HS Hkey Hrb. induction Hs as [|x l Hl IH Hx]; constructor.
    + apply IH. intros y Hy. apply H. by right.
    + apply Forall_forall. intros y Hy. rewrite Forall_forall in Hx. destruct (Hx y Hy) as (i & j & ? & ? & ?).
      exists i, j. rewrite !H by (by left || by right). done.
Qed.

Section Tree.
Context (key : Z -> option K) (t : tree) (S : Z -> Prop) (Ht : key_tree key t S).

Lemma key_lt_irrefl (x : Z) : ~ key_lt key x x.
Proof using. clear Ht. intros (i & j & H1 & H2 & H3). simplify_eq. by rewrite key_ltb_irrefl in H3. Qed.

Lemma key_tree_nodup : NoDup (inorder t).
Proof using Ht.
  induction (kt_sorted _ _ _ Ht) as [|x l Hl IH Hx]; constructor; [|done].
  intros Hin. rewrite Forall_forall in Hx. by apply (key_lt_irrefl x), Hx.
Qed.

(** Where a key belongs. *)
Lemma key_split (k : K) :
  exists A B, inorder t = A ++ B /\
    (forall x, x ∈ A -> exists i, key x = Some i /\ key_ltb i k = true) /\
    (forall x, x ∈ B -> exists i, key x = Some i /\ key_ltb i k = false).
Proof using Ht.
  destruct Ht as [_ Hel Hk Hs].
  assert (Hk' : forall x, x ∈ inorder t -> is_Some (key x)) by (intros x ?%Hel; auto). clear Hel Hk.
  induction Hs as [|x l Hl IH Hx].
  - exists [], []. split; [done|]. split; intros x ?%not_elem_of_nil; done.
  - destruct IH as (A & B & -> & HA & HB); [intros y Hy; apply Hk'; by right|].
    destruct (Hk' x) as [i Hi]; [by left|]. destruct (key_ltb i k) eqn:Eik.
    + exists (x :: A), B. split; [done|]. split; [|done]. intros y [->|Hy]%elem_of_cons; eauto.
    + exists [], (x :: A ++ B). split; [done|]. split; [by intros y ?%not_elem_of_nil|].
      rewrite Forall_forall in Hx. intros y [->|Hy]%elem_of_cons; [eauto|].
      destruct (Hx y Hy) as (i' & j & H1 & H2 & H3). exists j. split; [done|]. simplify_eq.
      apply not_true_is_false. intros Hj. by rewrite (key_ltb_trans _ _ _ H3 Hj) in Eik.
Qed.

Lemma key_unique (x y : Z) (k : K) : S x -> S y -> key x = Some k -> key y = Some k -> x = y.
Proof using Ht.
  intros Hx Hy Hkx Hky. destruct Ht as [_ Hel _ Hs]. apply Hel in Hx, Hy. clear Hel.
  induction Hs as [|z l Hl IH Hz]; [by apply not_elem_of_nil in Hx|]. rewrite Forall_forall in Hz.
  apply elem_of_cons in Hx as [->|Hx], Hy as [->|Hy]; [done| | |auto].
  - destruct (Hz y Hy) as (i & j & ? & ? & E). simplify_eq. by rewrite key_ltb_irrefl in E.
  - destruct (Hz x Hx) as (i & j & ? & ? & E). simplify_eq. by rewrite key_ltb_irrefl in E.
Qed.

(** The search for a key that is there. *)
Lemma key_walk_found (x : Z) (k : K) :
  S x -> key x = Some k -> rb_walk (key_go key k) t [] = Some (inr x).
Proof using Ht.
  intros Hx Hk. destruct (key_split k) as (A & B & E & HA & HB).
  assert (Hin : x ∈ A ++ B) by (rewrite <- E; by apply (kt_elem _ _ _ Ht)).
  apply elem_of_app in Hin as [Hin|Hin].
  { destruct (HA x Hin) as (i & ? & Ei). simplify_eq. by rewrite key_ltb_irrefl in Ei. }
  assert (HB' : exists B', B = x :: B').
  { destruct B as [|y B]; [by apply not_elem_of_nil in Hin|]. exists B. f_equal.
    destruct (HB y) as (i & Hi & Ei); [by left|]. apply elem_of_cons in Hin as [->|Hin]; [done|]. exfalso.
    pose proof (kt_sorted _ _ _ Ht) as Hs. rewrite E in Hs. apply StronglySorted_app in Hs as (_ & _ & Hs).
    apply StronglySorted_cons in Hs as [Hs _]. rewrite Forall_forall in Hs.
    destruct (Hs x Hin) as (i' & j & ? & ? & E'). simplify_eq. congruence. }
  destruct HB' as [B' ->]. apply (rb_walk_inr _ _ [] A B' x); [done| | |].
  - intros y Hy. destruct (HA y Hy) as (i & Hi & Ei). unfold key_go. rewrite Hi. cbn [mbind option_bind].
    by rewrite (key_ltb_asym _ _ Ei), Ei.
  - intros y Hy. pose proof (kt_sorted _ _ _ Ht) as Hs. rewrite E in Hs.
    apply StronglySorted_app in Hs as (_ & _ & Hs). apply StronglySorted_cons in Hs as [Hs _].
    rewrite Forall_forall in Hs. destruct (Hs y Hy) as (i & j & ? & Hj & Ej). unfold key_go. rewrite Hj.
    cbn [mbind option_bind]. simplify_eq. by rewrite Ej.
  - unfold key_go. rewrite Hk. cbn [mbind option_bind]. by rewrite key_ltb_irrefl.
Qed.

(** The search for a key that is not there ends at the link where it belongs. *)
Lemma key_walk_insert (k : K) :
  (forall x, S x -> key x <> Some k) ->
  exists p, rb_walk (key_go key k) t [] = Some (inl p) /\
    forall (new : Z) (key' : Z -> option K), ~ S new -> key' new = Some k -> (forall x, S x -> key' x = key x) ->
    exists t', rb_insert_color p (rb_link_node new) = Some t' /\ key_tree key' t' (fun x => x = new \/ S x).
Proof using Ht.
  intros Hno. destruct (key_split k) as (A & B & E & HA & HB).
  assert (Hel : forall x, x ∈ A ++ B <-> S x) by (intros x; rewrite <- E; apply (kt_elem _ _ _ Ht)).
  assert (HB' : forall x, x ∈ B -> exists i, key x = Some i /\ key_ltb k i = true).
  { intros x Hx. destruct (HB x Hx) as (i & Hi & Ei). exists i. split; [done|]. apply not_false_is_true. intros E'.
    assert (i = k) as -> by by apply key_ltb_total. apply (Hno x); [|done]. apply Hel, elem_of_app. by right. }
  assert (HgA : forall y, y ∈ A -> key_go key k y = Some (Go Rgt)).
  { intros y Hy. destruct (HA y Hy) as (i & Hi & Ei). unfold key_go. rewrite Hi. cbn [mbind option_bind].
    by rewrite (key_ltb_asym _ _ Ei), Ei. }
  assert (HgB : forall y, y ∈ B -> key_go key k y = Some (Go Lft)).
  { intros y Hy. destruct (HB' y Hy) as (i & Hi & Ei). unfold key_go. rewrite Hi. cbn [mbind option_bind].
    by rewrite Ei. }
  destruct (rb_insert_walk (key_go key k) t 0 A B (kt_rb _ _ _ Ht) E HgA HgB) as (p & _ & Hw & _).
  exists p. split; [done|]. intros new key' Hnew Hk Hkey.
  destruct (rb_insert_walk (key_go key k) t new A B (kt_rb _ _ _ Ht) E HgA HgB) as (p' & t' & Hw' & Ht' & Hrb & Hi).
  rewrite Hw in Hw'. injection Hw' as <-. exists t'. split; [done|]. split; [done| | |].
  - intros x. rewrite Hi, elem_of_app, elem_of_cons, <- Hel, elem_of_app. tauto.
  - intros x [->|Hx]; [by eexists|]. rewrite Hkey by done. by apply Ht.
  - rewrite Hi. pose proof (kt_sorted _ _ _ (key_tree_ext key key' t S S Ht (fun _ => iff_refl _) Hkey)) as Hs.
    rewrite E in Hs. apply StronglySorted_app in Hs as (H1 & H2 & H3). apply StronglySorted_app.
    assert (HkA : forall x, x ∈ A -> key_lt key' x new).
    { intros x Hx. destruct (HA x Hx) as (i & ? & ?). exists i, k. rewrite Hkey; [done|]. apply Hel, elem_of_app. by left. }
    split; [|split; [done|]].
    + intros x y Hx [->|Hy]%elem_of_cons; auto.
    + apply StronglySorted_cons. split; [|done]. apply Forall_forall. intros y Hy. destruct (HB' y Hy) as (i & ? & ?).
      exists k, i. rewrite (Hkey y); [done|]. apply Hel, elem_of_app. by right.
Qed.

Lemma key_erase (x : Z) :
  S x -> exists t', rb_erase x t = Some t' /\ key_tree key t' (fun y => S y /\ y <> x).
Proof using Ht.
  intros Hx. destruct (rb_erase_spec x t) as (t' & E & Hrb & Hi);
    [apply Ht|apply key_tree_nodup|by apply (kt_elem _ _ _ Ht)|].
  exists t'. split; [done|]. split; [done| | |].
  - intros y. rewrite Hi, elem_list_del, (kt_elem _ _ _ Ht). done.
  - intros y [Hy _]. by apply Ht.
  - rewrite Hi. apply StronglySorted_filter, Ht.
Qed.

(** The first node of the tree, if there is one. *)
Lemma key_first :
  match rb_first t with
  | Some x => S x
  | None => forall x, ~ S x
  end.
Proof using Ht.
  rewrite rb_first_head. destruct (inorder t) as [|x l] eqn:E; simpl.
  - intros x Hx. apply (kt_elem _ _ _ Ht) in Hx. rewrite E in Hx. by apply not_elem_of_nil in Hx.
  - apply (kt_elem _ _ _ Ht). rewrite E. by left.
Qed.
End Tree.
End Order.

End KeyTree.
