(* ===== verification/UserWakelock.v ===== *)
(** Wake locks of user space, kernel/power/userwakelock.c: the files
    /sys/power/wake_lock and /sys/power/wake_unlock.

    Writing a name, with or without a timeout in nanoseconds, to the first
    takes the lock of that name, which is made when there is none; writing it
    to the second releases it; reading lists the locks that are, or are not,
    active.  The locks are in a red-black tree by name, over RbTree.v, and are
    wake locks of Wakelock.v.  A string is the list of its characters before
    the NUL; tree_lock makes each operation one step. *)

From S2P Require Import Prelude RbTree KeyTree Wakelock.
From stdpp Require Import sorting.
Local Open Scope Z_scope.
Local Open Scope kernel_scope.

Module UserWakelock.
Import RbTree KeyTree Wakelock.

(** ** Characters, lib/ctype.c *)

Definition isspace (c : Z) : bool := ((9 <=? c) && (c <=? 13)) || (c =? 32) || (c =? 160).
Definition isdigit (c : Z) : bool := (48 <=? c) && (c <=? 57).
Definition isxdigit (c : Z) : bool := isdigit c || ((65 <=? c) && (c <=? 70)) || ((97 <=? c) && (c <=? 102)).
Definition TOLOWER (c : Z) : Z := c |ᵤ 0x20.

(** ** Numbers, lib/vsprintf.c *)

Definition u64 (x : Z) : Z := x mod 2 ^ 64.

(** The character at a position; the end of the string is NUL. *)
Definition char_at (s : list Z) (i : nat) : Z := nth i s 0.

Definition simple_guess_base (cp : list Z) : Z :=
  if char_at cp 0 =? 48 then
    if (TOLOWER (char_at cp 1) =? 120) && isxdigit (char_at cp 2) then 16 else 8
  else 10.

Fixpoint strtoull_loop (cp : list Z) (base result : Z) : Z * list Z :=
  match cp with
  | [] => (result, [])
  | c :: cp' =>
      if isxdigit c then
        let value := if isdigit c then c - 48 else TOLOWER c - 97 + 10 in
        if base <=? value then (result, cp)
        else strtoull_loop cp' base (u64 (result * base + value))
      else (result, cp)
  end.

(** The value and the rest of the string. *)
Definition simple_strtoull (cp : list Z) (base : Z) : Z * list Z :=
  let base := if base =? 0 then simple_guess_base cp else base in
  let cp := if (base =? 16) && (char_at cp 0 =? 48) && (TOLOWER (char_at cp 1) =? 120) then drop 2 cp else cp in
  strtoull_loop cp base 0.

(** ** Strings, lib/string.c *)

Fixpoint strncmp (cs ct : list Z) (count : nat) : Z :=
  match count with
  | O => 0
  | S count =>
      let c1 := char_at cs 0 in
      let c2 := char_at ct 0 in
      if negb (c1 =? c2) then (if c1 <? c2 then -1 else 1)
      else if c1 =? 0 then 0
      else strncmp (tail cs) (tail ct) count
  end.

(** ** The locks *)

(** The name of a struct user_wake_lock by its address, which is also that of
    its wake lock. *)
Record users := mk_users {
  power : pm;
  user_wake_locks : tree;
  user_names : gmap Z (list Z)
}.

Definition set_power (st : users) (s : pm) : users := mk_users s (user_wake_locks st) (user_names st).

Definition NSEC_PER_SEC : Z := 1000000000.

Fixpoint skip (f : Z -> bool) (arg : list Z) : list Z :=
  match arg with
  | [] => []
  | c :: arg' => if f c then skip f arg' else arg
  end.

(** Nanoseconds in jiffies, above zero. *)
Definition to_jiffies (timeout : Z) : Z :=
  let timeout := u64 (timeout + (NSEC_PER_SEC / HZ - 1)) in
  let timeout := timeout / (NSEC_PER_SEC / HZ) in
  if timeout <=? 0 then 1 else timeout.

(** The name and the timeout in [buf]; [None] for bad_arg.  [timed] when the
    caller takes a timeout, which is a [long]. *)
Definition parse_request (buf : list Z) (timed : bool) : option (list Z * Z) :=
  let arg := skip (fun c => negb (isspace c)) buf in
  let name := take (length buf - length arg) buf in
  if bool_decide (name = []) then None else
  let arg := skip isspace arg in
  if timed && negb (bool_decide (arg = [])) then
    let '(timeout, arg) := simple_strtoull arg 0 in
    let arg := skip isspace arg in
    if negb (bool_decide (arg = [])) then None
    else Some (name, s32 (to_jiffies timeout))
  else if negb (bool_decide (arg = [])) then None
  else Some (name, 0).

(** The comparison with the lock at [y]. *)
Definition name_go (st : users) (buf : list Z) (name_len : nat) (y : Z) : option verdict :=
  name ← user_names st !! y;
  let diff := strncmp buf name name_len in
  let diff := if (diff =? 0) && negb (char_at name name_len =? 0) then -1 else diff in
  Some (if diff <? 0 then Go Lft else if 0 <? diff then Go Rgt else Stop).

(** The lock or the error, and the timeout. *)
Definition lookup_wake_lock_name (kzalloc : option Z) (st : users) (buf : list Z) (allocate timed : bool)
  : option (users * (Z + Z) * Z) :=
  match parse_request buf timed with
  | None => Some (st, inl (- EINVAL), 0)
  | Some (name, timeout) =>
      w ← rb_walk (name_go st buf (length name)) (user_wake_locks st) [];
      match w with
      | inr l => Some (st, inr l, timeout)
      | inl p =>
          if negb allocate then Some (st, inl (- EINVAL), timeout)
          else match kzalloc with
               | None => Some (st, inl (- ENOMEM), timeout)
               | Some l =>
                   s ← wake_lock_init (power st) l WAKE_LOCK_SUSPEND (Some name);
                   t ← rb_insert_color p (rb_link_node l);
                   Some (mk_users s t (<[l := name]> (user_names st)), inr l, timeout)
               end
      end
  end.

Definition wake_lock_store (kzalloc : option Z) (st : users) (buf : list Z) (n : Z) (c : clock) : option (users * Z) :=
  '(st, l, timeout) ← lookup_wake_lock_name kzalloc st buf true true;
  match l with
  | inl e => Some (st, e)
  | inr l =>
      s ← (if negb (timeout =? 0) then wake_lock_timeout (power st) l timeout c else wake_lock (power st) l c);
      Some (set_power st s, n)
  end.

Definition wake_unlock_store (st : users) (buf : list Z) (n : Z) (c : clock) : option (users * Z) :=
  '(st, l, _) ← lookup_wake_lock_name None st buf false false;
  match l with
  | inl e => Some (st, e)
  | inr l => s ← wake_unlock (power st) l c; Some (set_power st s, n)
  end.

(** scnprintf() into the rest of a page: what fits before the NUL. *)
Definition scnprintf (out s : list Z) : list Z := out ++ take (Z.to_nat PAGE_SIZE - length out - 1) s.

Fixpoint show_loop (fuel : nat) (st : users) (active : bool) (n : option Z) (out : list Z) : option (list Z) :=
  match n with
  | None => Some out
  | Some l =>
      match fuel with
      | O => None
      | S fuel =>
          name ← user_names st !! l;
          a ← wake_lock_active (power st) l;
          let out := if eqb a active then scnprintf out (name ++ [32]) else out in
          n ← rb_next (user_wake_locks st) l;
          show_loop fuel st active n out
      end
  end.

(** wake_lock_show() and, for [active] false, wake_unlock_show(). *)
Definition show (st : users) (active : bool) : option (list Z) :=
  out ← show_loop (length (inorder (user_wake_locks st))) st active (rb_first (user_wake_locks st)) [];
  Some (scnprintf out [10]).

Definition wake_lock_show (st : users) : option (list Z) := show st true.
Definition wake_unlock_show (st : users) : option (list Z) := show st false.

(** ** The order of names *)

Fixpoint name_ltb (a b : list Z) : bool :=
  match a, b with
  | _, [] => false
  | [], _ :: _ => true
  | x :: a, y :: b => if x <? y then true else if y <? x then false else name_ltb a b
  end.

#[export] Instance name_order : KeyOrder (list Z).
Proof.
  refine {| key_ltb := name_ltb |}.
  - induction x as [|c x IH]; simpl; [done|]. by rewrite Z.ltb_irrefl.
  - induction x as [|c x IH]; intros [|d y] [|e z]; simpl; try done.
    destruct (Z.ltb_spec c d), (Z.ltb_spec d c), (Z.ltb_spec d e), (Z.ltb_spec e d), (Z.ltb_spec c e), (Z.ltb_spec e c);
      try done; try lia. apply IH.
  - induction x as [|c x IH]; intros [|d y]; simpl; try done.
    destruct (Z.ltb_spec c d), (Z.ltb_spec d c); try done; try lia. intros. f_equal; [lia|by apply IH].
Defined.

Definition string_ok (s : list Z) : Prop := Forall (fun c => 0 < c < 256) s.
Definition name_ok (s : list Z) : Prop := s <> [] /\ Forall (fun c => 0 < c < 256 /\ isspace c = false) s.

Lemma name_ok_string s : name_ok s -> string_ok s.
Proof. intros [_ H]. eapply Forall_impl; [exact H|]. simpl. tauto. Qed.

(** The loop compares names in that order. *)
Lemma strncmp_order name rest nm : string_ok name -> string_ok nm ->
  let diff := strncmp (name ++ rest) nm (length name) in
  (if (diff =? 0) && negb (char_at nm (length name) =? 0) then -1 else diff) =
  if name_ltb name nm then -1 else if name_ltb nm name then 1 else 0.
Proof.
  intros Hn. revert nm. induction Hn as [|x name Hx Hn IH]; intros nm Hnm; destruct Hnm as [|y nm Hy Hnm];
    cbn [length app strncmp tail name_ltb]; try done.
  - change (char_at (y :: nm) 0) with y. by rewrite (proj2 (Z.eqb_neq y 0)) by lia.
  - change (char_at (x :: name ++ rest) 0) with x. change (char_at [] _) with 0.
    by rewrite (proj2 (Z.eqb_neq x 0)), (proj2 (Z.ltb_ge x 0)) by lia.
  - change (char_at (x :: name ++ rest) 0) with x. change (char_at (y :: nm) 0) with y.
    change (char_at (y :: nm) (S (length name))) with (char_at nm (length name)).
    destruct (Z.eqb_spec x y) as [->|Hne]; cbn [negb].
    + rewrite (proj2 (Z.eqb_neq y 0)), Z.ltb_irrefl by lia. apply (IH nm Hnm).
    + destruct (Z.ltb_spec x y), (Z.ltb_spec y x); try lia; done.
Qed.

Lemma rb_walk_ext go go' t p : (forall y, go y = go' y) -> rb_walk go t p = rb_walk go' t p.
Proof. intros H. revert p. induction t as [|c l IHl x r IHr]; intros p; [done|]. simpl. rewrite H. destruct (go' x) as [[[]|]|]; simpl; auto. Qed.

Definition name_key (st : users) (y : Z) : option (list Z) := user_names st !! y.

Lemma name_go_key st name rest y : string_ok name -> (forall l nm, user_names st !! l = Some nm -> string_ok nm) ->
  name_go st (name ++ rest) (length name) y = key_go (name_key st) name y.
Proof.
  intros Hn Hall. unfold name_go, key_go, name_key. destruct (user_names st !! y) as [nm|] eqn:E; [|done].
  cbn [mbind option_bind]. f_equal. pose proof (strncmp_order name rest nm Hn (Hall y nm E)) as H. cbv zeta in H. rewrite H.
  cbn [key_ltb name_order]. by destruct (name_ltb name nm), (name_ltb nm name).
Qed.

(** ** Parsing *)

Lemma skip_suffix f s : exists pre, s = pre ++ skip f s /\ Forall (fun c => f c = true) pre /\
  take (length s - length (skip f s)) s = pre.
Proof.
  induction s as [|c s IH]; simpl; [by exists []|]. destruct (f c) eqn:E.
  - destruct IH as (pre & IH1 & IH2 & IH3). exists (c :: pre). split; [by simpl; f_equal|]. split; [by constructor|].
    rewrite IH1 at 1. rewrite length_app. replace (S (length pre + length (skip f s)) - length (skip f s))%nat with (S (length pre)) by lia.
    simpl. f_equal. rewrite IH1. by rewrite take_app_length.
  - exists []. split; [done|]. split; [done|]. simpl. by rewrite Nat.sub_diag.
Qed.

Lemma skip_stop f pre c s : Forall (fun c => f c = true) pre -> f c = false -> skip f (pre ++ c :: s) = c :: s.
Proof. intros H Hc. induction H as [|x pre Hx _ IH]; simpl; [by rewrite Hc|by rewrite Hx]. Qed.

Lemma skip_all f pre : Forall (fun c => f c = true) pre -> skip f pre = [].
Proof. induction 1 as [|x pre Hx _ IH]; simpl; [done|by rewrite Hx]. Qed.

(** A name that is accepted is the start of the string, up to a space. *)
Lemma parse_name buf timed name timeout : string_ok buf -> parse_request buf timed = Some (name, timeout) ->
  name_ok name /\ exists rest, buf = name ++ rest.
Proof.
  intros Hb. unfold parse_request. destruct (skip_suffix (fun c => negb (isspace c)) buf) as (pre & E1 & E2 & ->).
  set (arg := skip _ buf) in *. case_bool_decide as Hne; [done|]. intros H.
  assert (name = pre) as ->.
  { destruct timed; cbn [andb] in H; repeat (case_match; try done); by simplify_eq. }
  split; [|by exists arg]. split; [done|]. unfold string_ok in Hb. rewrite E1 in Hb. apply Forall_app in Hb as [Hb _].
  apply Forall_lookup. intros i c Hc. split; [by apply (proj1 (Forall_lookup _ _) Hb i)|].
  by apply negb_true_iff, (proj1 (Forall_lookup _ _) E2 i).
Qed.

(** ** What the operations on wake locks keep *)

(** Whether a lock is initialised, its type and its name. *)
Definition kind (l : wake_lock_t) : bool * Z * option (list Z) :=
  (v_init (view_of (flags l)), v_type (view_of (flags l)), lock_name l).
#[local] Opaque view_of.

Definition kinds (s : pm) : gmap Z (bool * Z * option (list Z)) := kind <$> locks s.

Lemma put_kinds s p l l' : locks s !! p = Some l -> kind l' = kind l -> kinds (put s p l') = kinds s.
Proof. intros H E. unfold kinds. simpl. rewrite fmap_insert. apply insert_id. by rewrite lookup_fmap, H, E. Qed.

Lemma kinds_locks s s' : locks s' = locks s -> kinds s' = kinds s.
Proof. intros E. unfold kinds. by rewrite E. Qed.

Lemma flags_kind l f : v_init (view_of f) = v_init (view_of (flags l)) -> v_type (view_of f) = v_type (view_of (flags l)) ->
  kind (set_flags l f) = kind l.
Proof. intros E1 E2. unfold kind. simpl. by rewrite E1, E2. Qed.

Lemma unlock_stat_kinds s p b c s' : wake_unlock_stat_locked s p b c = Some s' -> kinds s' = kinds s.
Proof.
  unfold wake_unlock_stat_locked. intros H. apply bind_Some in H as (l & Hl & H). destruct (negb _); injection H as <-; [done|].
  eapply put_kinds; [done|]. unfold kind. simpl. case_match; [by rewrite view_clear_prevent|done].
Qed.

Lemma sleep_wait_kinds done c ps : forall s s', sleep_wait_loop s done c ps = Some s' -> kinds s' = kinds s.
Proof.
  induction ps as [|p ps IH]; intros s s' H; simpl in H; [by injection H as <-|]. apply bind_Some in H as (l & Hl & H).
  rewrite (IH _ _ H). eapply put_kinds; [done|]. unfold kind, sleep_wait_lock. simpl.
  case_match; [by rewrite view_clear_prevent|by rewrite view_set_prevent].
Qed.

Lemma update_sleep_kinds s b c s' : update_sleep_wait_stats_locked s b c = Some s' -> kinds s' = kinds s.
Proof. intros H. apply bind_Some in H as (s1 & H1 & [= <-]). by apply sleep_wait_kinds in H1. Qed.

Lemma expire_kinds s p c s' : expire_wake_lock s p c = Some s' -> kinds s' = kinds s.
Proof.
  unfold expire_wake_lock. intros H. apply bind_Some in H as (s1 & H1%unlock_stat_kinds & H). apply bind_Some in H as (l & Hl & H).
  apply bind_Some in H as (s2 & H2%unlink_locks & [= <-]). rewrite <- H1. transitivity (kinds s2); [done|].
  rewrite (kinds_locks _ _ H2). eapply put_kinds; [done|]. apply flags_kind; by rewrite view_clear.
Qed.

Lemma has_kinds c ps : forall s m r s', has_wake_lock_loop s c ps m = Some (r, s') -> kinds s' = kinds s.
Proof.
  induction ps as [|p ps IH]; intros s m r s' H; simpl in H; [by injection H as _ <-|]. apply bind_Some in H as (l & Hl & H).
  destruct (flag_set _ _); [|by injection H as _ <-]. destruct (_ <=? 0); [|by apply IH in H].
  apply bind_Some in H as (s1 & H1%expire_kinds & H). rewrite <- H1. by apply IH in H.
Qed.

Lemma has_locked_kinds s t c r s' : has_wake_lock_locked s t c = Some (r, s') -> kinds s' = kinds s.
Proof. intros H. apply bind_Some in H as (_ & _ & H). by apply has_kinds in H. Qed.

Lemma arm_kinds s n c : kinds (arm_expire_timer s n c) = kinds s.
Proof. unfold arm_expire_timer. by repeat case_match. Qed.

Lemma set_active_kinds s t l : kinds (set_active s t l) = kinds s.
Proof. apply kinds_locks, set_active_locks. Qed.

Lemma lock_stat_kinds s p t c s' : wake_lock_stat s p t c = Some s' -> kinds s' = kinds s.
Proof.
  unfold wake_lock_stat. intros H. apply bind_Some in H as (l & Hl & H). set (s1 := if _ && _ then _ else s) in H.
  assert (H1 : kinds s1 = kinds s) by (unfold s1; case_match; [by apply (put_kinds (set_wait s false) p l)|done]).
  apply bind_Some in H as (l1 & Hl1 & H). case_match; [|by injection H as <-].
  apply bind_Some in H as (s2 & H2%unlock_stat_kinds & H). apply bind_Some in H as (l2 & Hl2 & [= <-]).
  rewrite <- H1, <- H2. by eapply put_kinds.
Qed.

Lemma activate_kinds s p t n (ht : bool) c s' : wake_lock_activate s p t n ht c = Some s' -> kinds s' = kinds s.
Proof.
  unfold wake_lock_activate. intros H. apply bind_Some in H as (l & Hl & H). apply bind_Some in H as (s1 & H1%unlink_locks & H).
  set (l1 := if negb _ then _ else l) in H.
  assert (K1 : kind l1 = kind l).
  { unfold l1. destruct (negb _); [|done]. unfold kind. simpl. by rewrite view_set_active. }
  assert (Hput : forall l2, kind l2 = kind l1 -> kinds (put s1 p l2) = kinds s).
  { intros l2 K2. rewrite <- (kinds_locks _ _ H1). eapply put_kinds; [by rewrite H1|congruence]. }
  clearbody l1. destruct ht; injection H as <-; rewrite set_active_kinds; apply Hput; unfold kind; simpl;
    by rewrite ?view_set_expire, ?view_clear_expire.
Qed.

Lemma lock_kinds s p n (ht : bool) c s' : wake_lock_internal s p n ht c = Some s' -> kinds s' = kinds s.
Proof.
  unfold wake_lock_internal. intros H. apply bind_Some in H as (l & Hl & H). apply bind_Some in H as (_ & _ & H).
  apply bind_Some in H as (_ & _ & H). apply bind_Some in H as (s1 & H1%lock_stat_kinds & H).
  apply bind_Some in H as (s2 & H2%activate_kinds & H). rewrite <- H1, <- H2. destruct (_ =? WAKE_LOCK_SUSPEND); [|by injection H as <-].
  apply bind_Some in H as (s3 & H3 & H). apply bind_Some in H as ([e s4] & H4 & [= <-]). rewrite arm_kinds.
  assert (E3 : kinds s3 = kinds s2).
  { destruct (bool_decide _); [by apply update_sleep_kinds in H3|]. apply bind_Some in H3 as (b & _ & H3).
    destruct (negb b); [by apply update_sleep_kinds in H3|by injection H3 as <-]. }
  assert (E4 : kinds s4 = kinds s3).
  { destruct ht; [apply has_locked_kinds in H4|injection H4 as _ <-]; [rewrite H4|]; by destruct (bool_decide _). }
  congruence.
Qed.

Lemma unlock_kinds s p c s' : wake_unlock s p c = Some s' -> kinds s' = kinds s.
Proof.
  unfold wake_unlock. intros H. apply bind_Some in H as (l & Hl & H). apply bind_Some in H as (s1 & H1%unlock_stat_kinds & H).
  apply bind_Some in H as (l1 & Hl1 & H). apply bind_Some in H as (s2 & H2%unlink_locks & H).
  assert (E2 : kinds s2 = kinds s1).
  { rewrite (kinds_locks _ _ H2). eapply put_kinds; [done|]. apply flags_kind; by rewrite view_clear. }
  rewrite <- H1, <- E2. destruct (_ =? WAKE_LOCK_SUSPEND); [|by injection H as <-].
  apply bind_Some in H as ([b s3] & H3%has_locked_kinds & H). change (kinds (set_inactive s2 _)) with (kinds s2) in H3. rewrite <- H3.
  destruct (bool_decide _); [|injection H as <-; apply arm_kinds].
  apply bind_Some in H as (s4 & H4%update_sleep_kinds & [= <-]). rewrite <- (arm_kinds s3 b c), <- H4. by destruct (negb _).
Qed.

(** A new lock, and one that goes. *)
Lemma init_kinds s p t name s' : lock_type t -> wake_lock_init s p t (Some name) = Some s' ->
  kinds s' = <[p := (true, t, Some name)]> (kinds s).
Proof.
  unfold wake_lock_init. intros Ht H. simpl in H. set (s1 := if bool_decide _ then _ else s) in H.
  assert (E1 : kinds s1 = kinds s) by (unfold s1; by destruct (bool_decide _)). injection H as <-. transitivity (<[p := (true, t, Some name)]> (kinds s1)).
  - unfold kinds. simpl. rewrite fmap_insert. f_equal. unfold kind. simpl. by rewrite view_init.
  - by rewrite E1.
Qed.

Lemma destroy_kinds s p s' q : q <> p -> wake_lock_destroy s p = Some s' -> kinds s' !! q = kinds s !! q.
Proof.
  unfold wake_lock_destroy, add_deleted_stats. intros Hq H. apply bind_Some in H as (l & Hl & H). apply bind_Some in H as (l1 & Hl1 & H).
  apply bind_Some in H as (s2 & H2 & H%unlink_locks). rewrite (kinds_locks _ _ H). set (s1 := put s p _) in H2.
  assert (E1 : kinds s1 !! q = kinds s !! q) by (unfold kinds, s1; simpl; by rewrite !lookup_fmap, lookup_insert_ne).
  rewrite <- E1. destruct (negb _); [|by injection H2 as <-]. apply bind_Some in H2 as (d & Hd & [= <-]).
  by rewrite (put_kinds s1 deleted_wake_locks d).
Qed.

(** ** The invariant *)

Record users_inv (st : users) : Prop := {
  ui_power : wl_inv (power st);
  ui_tree : key_tree (name_key st) (user_wake_locks st) (fun l => is_Some (user_names st !! l));
  ui_kind l name : user_names st !! l = Some name -> kinds (power st) !! l = Some (true, WAKE_LOCK_SUSPEND, Some name);
  ui_name l name : user_names st !! l = Some name -> name_ok name
}.

Lemma kinds_core s l t nm : kinds s !! l = Some (true, t, nm) -> exists v e, core s !! l = Some (v, e) /\ v_init v = true /\ v_type v = t.
Proof.
  unfold kinds. rewrite lookup_fmap. intros (x & Hx & E)%fmap_Some. injection E as E1 E2 E3.
  exists (view_of (flags x)), (expires x). by rewrite (lookup_core _ _ _ Hx).
Qed.

Lemma user_lock st l name : users_inv st -> user_names st !! l = Some name ->
  exists v e, core (power st) !! l = Some (v, e) /\ v_init v = true /\ v_type v = WAKE_LOCK_SUSPEND.
Proof. intros Hi Hl. by eapply kinds_core, (ui_kind _ Hi l name). Qed.

(** The power management changes under the user locks. *)
Lemma users_inv_power st s : users_inv st -> wl_inv s ->
  (forall l, is_Some (user_names st !! l) -> kinds s !! l = kinds (power st) !! l) -> users_inv (set_power st s).
Proof.
  intros [H1 H2 H3 H4] Hs Hk. split; [done|done| |done]. intros l name Hl. simpl in *. rewrite Hk by by eexists. by apply H3.
Qed.

Lemma names_unique st l l' name : users_inv st -> user_names st !! l = Some name -> user_names st !! l' = Some name -> l = l'.
Proof. intros Hi H H'. apply (key_unique _ _ _ (ui_tree _ Hi) l l' name); [by eexists|by eexists|done|done]. Qed.

(** ** Looking up a name *)

Definition fresh_lock (kz : option Z) (st : users) : Prop := forall l, kz = Some l -> unused (power st) l.

Lemma fresh_no_user st l : users_inv st -> unused (power st) l -> user_names st !! l = None.
Proof.
  intros Hi Hu. destruct (user_names st !! l) as [name|] eqn:E; [|done]. destruct (user_lock st l name Hi E) as (v & e & Hc & Hv & _).
  specialize (Hu v e Hc). congruence.
Qed.

Lemma walk_name st name rest : users_inv st -> name_ok name ->
  rb_walk (name_go st (name ++ rest) (length name)) (user_wake_locks st) [] =
  rb_walk (key_go (name_key st) name) (user_wake_locks st) [].
Proof.
  intros Hi Hn. apply rb_walk_ext. intros y. apply name_go_key; [by apply name_ok_string|].
  intros l nm Hl. by apply name_ok_string, (ui_name _ Hi l).
Qed.

Lemma lookup_name_spec kz st buf (allocate timed : bool) : users_inv st -> string_ok buf -> fresh_lock kz st ->
  match parse_request buf timed with
  | None => lookup_wake_lock_name kz st buf allocate timed = Some (st, inl (- EINVAL), 0)
  | Some (name, timeout) => name_ok name /\
      ((exists l, user_names st !! l = Some name /\ lookup_wake_lock_name kz st buf allocate timed = Some (st, inr l, timeout)) \/
       ((forall l, user_names st !! l <> Some name) /\
        match allocate, kz with
        | false, _ => lookup_wake_lock_name kz st buf allocate timed = Some (st, inl (- EINVAL), timeout)
        | true, None => lookup_wake_lock_name kz st buf allocate timed = Some (st, inl (- ENOMEM), timeout)
        | true, Some l => exists st', lookup_wake_lock_name kz st buf allocate timed = Some (st', inr l, timeout) /\
            users_inv st' /\ user_names st' = <[l := name]> (user_names st) /\
            (forall q, q <> l -> core (power st') !! q = core (power st) !! q)
        end))
  end.
Proof.
  intros Hi Hb Hkz. unfold lookup_wake_lock_name. destruct (parse_request buf timed) as [[name timeout]|] eqn:Hp; [|done].
  destruct (parse_name buf timed name timeout Hb Hp) as [Hn [rest ->]]. split; [done|]. rewrite walk_name by done.
  destruct (decide (Exists (fun l => name_key st l = Some name) (inorder (user_wake_locks st)))) as [Hex|Hno].
  { left. apply Exists_exists in Hex as (l & Hl%(kt_elem _ _ _ (ui_tree _ Hi)) & Hk). exists l. split; [done|].
    by rewrite (key_walk_found _ _ _ (ui_tree _ Hi) l name Hl Hk). }
  right. assert (Hno' : forall l, user_names st !! l <> Some name).
  { intros l Hl. apply Hno, Exists_exists. exists l. split; [apply (kt_elem _ _ _ (ui_tree _ Hi)); by eexists|done]. }
  split; [done|]. destruct (key_walk_insert _ _ _ (ui_tree _ Hi) name) as (path & -> & Hins); [by intros l _; apply Hno'|].
  cbn [mbind option_bind]. destruct allocate; cbn [negb]; [|done]. destruct kz as [l|]; [|done]. pose proof (Hkz l eq_refl) as Hu.
  destruct (wake_lock_init_spec (power st) l WAKE_LOCK_SUSPEND name (ui_power _ Hi) Hu) as (s & Es & Hs & _ & _ & Hq); [by left|].
  rewrite Es. cbn [mbind option_bind]. pose proof (fresh_no_user st l Hi Hu) as Hfresh.
  set (names := <[l := name]> (user_names st)).
  destruct (Hins l (fun y => names !! y)) as (t & -> & Ht).
  - rewrite Hfresh. by intros [? ?].
  - unfold names. by rewrite lookup_insert_eq.
  - intros x [nm Hx]. unfold names, name_key. rewrite lookup_insert_ne; [done|]. intros ->. congruence.
  - cbn [mbind option_bind]. eexists. split; [done|]. split; [|by split]. split; [done| | |].
    + apply (key_tree_ext _ _ _ _ _ Ht); [|done]. intros x. cbn [user_names]. unfold names.
      destruct (decide (x = l)) as [->|Hx]; [rewrite lookup_insert_eq; split; [by eexists|by left]|].
      rewrite lookup_insert_ne by done. split; [by intros [?|?]|by right].
    + cbn [user_names power]. intros x nm Hx. rewrite (init_kinds _ _ _ _ _ (or_introl eq_refl) Es).
      unfold names in Hx. apply lookup_insert_Some in Hx as [[-> ->]|[Hne Hx]]; [by rewrite lookup_insert_eq|].
      rewrite lookup_insert_ne by done. by apply (ui_kind _ Hi).
    + cbn [user_names]. intros x nm [[-> <-]|[_ Hx]]%lookup_insert_Some; [done|by apply (ui_name _ Hi x)].
Qed.

(** ** Writing *)

Definition taken (st : pm) (l timeout : Z) (c : clock) : Prop :=
  wake_lock_active st l = Some true /\
  core st !! l = Some (mk_view true true (negb (timeout =? 0)) WAKE_LOCK_SUSPEND,
                       if timeout =? 0 then LONG_MAX else u32 (jiffies c + timeout)).

(** Taking the lock that was found. *)
Lemma take_lock st l name timeout c : users_inv st -> user_names st !! l = Some name ->
  exists s, (if negb (timeout =? 0) then wake_lock_timeout (power st) l timeout c else wake_lock (power st) l c) = Some s /\
    users_inv (set_power st s) /\ (0 <= timeout < 2147483648 -> taken s l timeout c) /\
    (forall q, q <> l -> holds (power st) c q -> core s !! q = core (power st) !! q) /\ settled s c.
Proof.
  intros Hi Hl. destruct (user_lock st l name Hi Hl) as (v & e & Hc & Hv & Ht).
  assert (E : (if negb (timeout =? 0) then wake_lock_timeout (power st) l timeout c else wake_lock (power st) l c) =
    wake_lock_internal (power st) l (if timeout =? 0 then 0 else timeout) (negb (timeout =? 0)) c) by (by destruct (timeout =? 0)).
  destruct (wake_lock_internal_spec (power st) l (if timeout =? 0 then 0 else timeout) (negb (timeout =? 0)) c v e (ui_power _ Hi) Hc Hv)
    as (s & Es & Hs & _ & Hq & Hset). rewrite E, Es. exists s. split; [done|]. split; [|split_and!; [|done|by apply Hset]].
  - apply users_inv_power; [done|done|]. intros q _. by rewrite (lock_kinds _ _ _ _ _ _ Es).
  - intros Hto.
    destruct (wake_lock_effect (power st) l c v e (if timeout =? 0 then 1 else timeout) (negb (timeout =? 0)) (ui_power _ Hi) Hc Hv)
      as (s' & Es' & _ & Ha & Hcore & _); [destruct (Z.eqb_spec timeout 0); lia|].
    assert (s' = s) as ->.
    { destruct (timeout =? 0); cbn [negb] in *; unfold wake_lock, wake_lock_timeout in *; congruence. }
    split; [done|]. rewrite Hcore, Ht. by destruct (timeout =? 0).
Qed.

Lemma store_spec kz st buf n c : users_inv st -> string_ok buf -> fresh_lock kz st ->
  match parse_request buf true with
  | None => wake_lock_store kz st buf n c = Some (st, - EINVAL)
  | Some (name, timeout) =>
      (kz = None /\ (forall l, user_names st !! l <> Some name) /\ wake_lock_store kz st buf n c = Some (st, - ENOMEM)) \/
      exists l st', wake_lock_store kz st buf n c = Some (st', n) /\ users_inv st' /\
        (user_names st !! l = Some name \/ kz = Some l /\ forall l, user_names st !! l <> Some name) /\
        user_names st' = <[l := name]> (user_names st) /\
        (0 <= timeout < 2147483648 -> taken (power st') l timeout c) /\
        (forall q, q <> l -> holds (power st) c q -> core (power st') !! q = core (power st) !! q) /\ settled (power st') c
  end.
Proof.
  intros Hi Hb Hkz. pose proof (lookup_name_spec kz st buf true true Hi Hb Hkz) as H. unfold wake_lock_store.
  destruct (parse_request buf true) as [[name timeout]|]; [|by rewrite H].
  destruct H as [Hn [(l & Hl & ->)|[Hno H]]]; cbn [mbind option_bind].
  - right. destruct (take_lock st l name timeout c Hi Hl) as (s & -> & Hi' & Ht & Hq & Hset). exists l, (set_power st s).
    split_and!; try done; [by left|]. simpl. by rewrite insert_id.
  - destruct kz as [l|]; [|left; by rewrite H]. right. destruct H as (st1 & -> & Hi1 & En & Hq1). cbn [mbind option_bind].
    destruct (take_lock st1 l name timeout c Hi1) as (s & -> & Hi' & Ht & Hq & Hset); [by rewrite En, lookup_insert_eq|].
    exists l, (set_power st1 s). split_and!; try done; [by right|]. intros q Hne (v & e & Hc & Hh). rewrite Hq; [by apply Hq1|done|].
    exists v, e. by rewrite Hq1.
Qed.

Lemma unstore_spec st buf n c : users_inv st -> string_ok buf ->
  match parse_request buf false with
  | None => wake_unlock_store st buf n c = Some (st, - EINVAL)
  | Some (name, _) =>
      ((forall l, user_names st !! l <> Some name) /\ wake_unlock_store st buf n c = Some (st, - EINVAL)) \/
      exists l st', wake_unlock_store st buf n c = Some (st', n) /\ users_inv st' /\ user_names st !! l = Some name /\
        user_names st' = user_names st /\ wake_lock_active (power st') l = Some false /\
        (forall q, q <> l -> holds (power st) c q -> core (power st') !! q = core (power st) !! q) /\ settled (power st') c
  end.
Proof.
  intros Hi Hb. pose proof (lookup_name_spec None st buf false false Hi Hb ltac:(done)) as H. unfold wake_unlock_store.
  destruct (parse_request buf false) as [[name timeout]|]; [|by rewrite H].
  destruct H as [Hn [(l & Hl & ->)|[Hno ->]]]; cbn [mbind option_bind]; [right|by left].
  destruct (user_lock st l name Hi Hl) as (v & e & Hc & Hv & Ht).
  destruct (wake_unlock_effect (power st) l c v e (ui_power _ Hi) Hc Hv) as (s & Es & Hs & Ha & Hq & Hset). rewrite Es.
  cbn [mbind option_bind]. exists l, (set_power st s). split_and!; try done; [|by apply Hset].
  apply users_inv_power; [done|done|]. intros q _. by rewrite (unlock_kinds _ _ _ _ Es).
Qed.

(** ** Reading *)

Definition listed (st : users) (active : bool) (l : Z) : list Z :=
  if bool_decide (wake_lock_active (power st) l = Some active) then default [] (user_names st !! l) ++ [32] else [].

(** What fits in a page before the NUL. *)
Definition page_chars : nat := Z.to_nat (PAGE_SIZE - 1).

Lemma scnprintf_take out s : scnprintf (take page_chars out) s = take page_chars (out ++ s).
Proof.
  unfold scnprintf, page_chars. rewrite take_app. f_equal. f_equal. rewrite length_take.
  assert (0 < PAGE_SIZE) by done. generalize dependent PAGE_SIZE. intros. lia.
Qed.

Lemma show_loop_spec st active B : users_inv st -> forall A out fuel, inorder (user_wake_locks st) = A ++ B ->
  (length B <= fuel)%nat ->
  show_loop fuel st active (head B) (take page_chars out) = Some (take page_chars (out ++ concat (listed st active <$> B))).
Proof.
  intros Hi. induction B as [|l B IH]; intros A out fuel Ei Hf; [by destruct fuel; simpl; rewrite app_nil_r|].
  destruct fuel as [|fuel]; [simpl in Hf; lia|]. cbn [head hd_error show_loop].
  assert (Hin : is_Some (user_names st !! l)).
  { apply (kt_elem _ _ _ (ui_tree _ Hi)). rewrite Ei. apply elem_of_app. right. by left. }
  destruct Hin as [name Hl]. destruct (user_lock st l name Hi Hl) as (v & e & Hc & _). destruct (core_Some _ _ _ _ Hc) as (x & Hx & _).
  rewrite Hl. cbn [mbind option_bind]. unfold wake_lock_active at 1. rewrite Hx. cbn [mbind option_bind].
  rewrite (rb_next_spec _ A B l Ei (key_tree_nodup _ _ _ (ui_tree _ Hi))). cbn [mbind option_bind fmap list_fmap concat].
  assert (Eo : (if eqb (flag_set (flags x) WAKE_LOCK_ACTIVE) active then scnprintf (take page_chars out) (name ++ [32]) else take page_chars out) =
    take page_chars (out ++ listed st active l)).
  { unfold listed, wake_lock_active. rewrite Hx, Hl. cbn [mbind option_bind default]. destruct (eqb _ active) eqn:E.
    - apply eqb_prop in E. rewrite bool_decide_true by congruence. by rewrite scnprintf_take.
    - apply eqb_false_iff in E. rewrite bool_decide_false by congruence. by rewrite app_nil_r. }
  rewrite Eo, (IH (A ++ [l])), app_assoc; [done|by rewrite <- app_assoc|simpl in Hf; lia].
Qed.

Lemma show_spec st active : users_inv st ->
  show st active = Some (take page_chars (concat (listed st active <$> inorder (user_wake_locks st)) ++ [10])).
Proof.
  intros Hi. unfold show. rewrite rb_first_head. change [] with (take page_chars ([] : list Z)) at 2.
  rewrite (show_loop_spec st active _ Hi [] []); [|done|done]. cbn [mbind option_bind]. by rewrite scnprintf_take.
Qed.

(** The names a file lists. *)
Definition shown (st : users) (active : bool) : list (list Z) :=
  omap (fun l => if bool_decide (wake_lock_active (power st) l = Some active) then user_names st !! l else None)
    (inorder (user_wake_locks st)).

Lemma shown_concat st active B : (forall l, l ∈ B -> is_Some (user_names st !! l)) ->
  concat (listed st active <$> B) =
  concat ((fun nm => nm ++ [32]) <$>
    omap (fun l => if bool_decide (wake_lock_active (power st) l = Some active) then user_names st !! l else None) B).
Proof.
  induction B as [|l B IH]; intros H; [done|]. destruct (H l) as [nm Hl]; [by left|]. cbn [fmap list_fmap concat omap list_omap].
  rewrite IH by (intros; apply H; by right). unfold listed. rewrite Hl. by case_bool_decide.
Qed.

Lemma shown_sorted st active : users_inv st -> StronglySorted (fun a b => name_ltb a b = true) (shown st active).
Proof.
  intros Hi. unfold shown. induction (kt_sorted _ _ _ (ui_tree _ Hi)) as [|l B _ IH Hl]; [constructor|]. cbn [omap list_omap].
  destruct (bool_decide _); [|done]. destruct (user_names st !! l) as [nm|] eqn:E; [|done]. constructor; [done|].
  apply Forall_forall. intros nm' (l' & Hl' & Hnm')%list_elem_of_omap. rewrite Forall_forall in Hl.
  destruct (Hl l' Hl') as (i & j & Hi' & Hj & Hij). unfold name_key in Hi', Hj. destruct (bool_decide _); [|done].
  assert (nm = i) as -> by congruence. by assert (nm' = j) as -> by congruence.
Qed.

Lemma shown_elem st active nm : users_inv st ->
  nm ∈ shown st active <-> exists l, user_names st !! l = Some nm /\ wake_lock_active (power st) l = Some active.
Proof.
  intros Hi. unfold shown. rewrite list_elem_of_omap. split.
  - intros (l & _ & Hl). case_bool_decide as Ha; [|done]. by exists l.
  - intros (l & Hl & Ha). exists l. rewrite bool_decide_true by done. split; [|done]. apply (kt_elem _ _ _ (ui_tree _ Hi)). by eexists.
Qed.

(** ** Timeouts in decimal *)

Fixpoint decimal (fuel : nat) (n : Z) : list Z :=
  match fuel with
  | O => []
  | S fuel => (if n <? 10 then [] else decimal fuel (n / 10)) ++ [48 + n mod 10]
  end.

Lemma decimal_digits fuel n : Forall (fun c => isdigit c = true) (decimal fuel n).
Proof.
  revert n. induction fuel as [|fuel IH]; intros n; [constructor|]. simpl. apply Forall_app. split; [by destruct (n <? 10)|].
  constructor; [|done]. pose proof (Z.mod_pos_bound n 10). unfold isdigit. apply andb_true_iff. rewrite !Z.leb_le. lia.
Qed.

Lemma decimal_value fuel n rest : 0 <= n < 10 ^ Z.of_nat fuel -> n < 2 ^ 64 ->
  strtoull_loop (decimal fuel n ++ rest) 10 0 = strtoull_loop rest 10 n.
Proof.
  revert n rest. induction fuel as [|fuel IH]; intros n rest Hn Hmax; [simpl in Hn; by assert (n = 0) as -> by lia|].
  rewrite Nat2Z.inj_succ, Z.pow_succ_r in Hn by lia. pose proof (Z.mod_pos_bound n 10 ltac:(lia)). pose proof (Z.div_mod n 10 ltac:(lia)).
  assert (Hd : isdigit (48 + n mod 10) = true) by (unfold isdigit; apply andb_true_iff; rewrite !Z.leb_le; lia).
  cbn [decimal]. rewrite <- app_assoc. cbn [app].
  assert (E : forall r, 0 <= r -> r * 10 + n mod 10 = n -> strtoull_loop (48 + n mod 10 :: rest) 10 r = strtoull_loop rest 10 n).
  { intros r Hr Er. cbn [strtoull_loop]. unfold isxdigit. rewrite Hd. cbn [orb]. rewrite (proj2 (Z.leb_gt 10 _)) by lia.
    f_equal. replace (48 + n mod 10 - 48) with (n mod 10) by lia. rewrite Er. unfold u64. apply Z.mod_small. lia. }
  destruct (Z.ltb_spec n 10).
  - simpl app. apply E; [lia|]. rewrite Z.mod_small; lia.
  - rewrite IH; [apply E|..]; [apply Z.div_pos; lia|lia| |].
    + split; [apply Z.div_pos; lia|apply Z.div_lt_upper_bound; lia].
    + apply Z.le_lt_trans with n; [|done]. apply Z.div_le_upper_bound; lia.
Qed.

(** The first digit of a number that is not zero is not zero. *)
Lemma decimal_first fuel n : 0 < n < 10 ^ Z.of_nat fuel -> exists c s, decimal fuel n = c :: s /\ c <> 48 /\ isdigit c = true.
Proof.
  revert n. induction fuel as [|fuel IH]; intros n Hn; [simpl in Hn; lia|].
  rewrite Nat2Z.inj_succ, Z.pow_succ_r in Hn by lia. pose proof (Z.mod_pos_bound n 10 ltac:(lia)). pose proof (Z.div_mod n 10 ltac:(lia)).
  cbn [decimal]. destruct (Z.ltb_spec n 10).
  - exists (48 + n mod 10), []. split; [done|]. rewrite Z.mod_small by lia. split; [lia|]. unfold isdigit. apply andb_true_iff. rewrite !Z.leb_le. lia.
  - destruct (IH (n / 10)) as (c & s & -> & Hc); [|by exists c, (s ++ [48 + n mod 10])].
    split; [apply Z.div_str_pos; lia|apply Z.div_lt_upper_bound; lia].
Qed.

Lemma digit_not_space c : isdigit c = true -> isspace c = false.
Proof.
  unfold isdigit, isspace. rewrite andb_true_iff, !Z.leb_le. intros [H1 H2].
  rewrite (proj2 (Z.leb_gt c 13)), (proj2 (Z.eqb_neq c 32)), (proj2 (Z.eqb_neq c 160)) by lia. by rewrite andb_false_r.
Qed.

Lemma strtoull_decimal n : 0 <= n < 2 ^ 64 -> simple_strtoull (decimal 20 n ++ [10]) 0 = (n, [10]).
Proof.
  intros Hn. unfold simple_strtoull. cbn [Z.eqb]. destruct (decide (n = 0)) as [->|Hne]; [done|].
  destruct (decimal_first 20 n) as (c & s & E & Hc & Hd); [change (10 ^ Z.of_nat 20) with 100000000000000000000; lia|].
  assert (Eb : simple_guess_base (decimal 20 n ++ [10]) = 10).
  { rewrite E. unfold simple_guess_base, char_at. simpl nth. by rewrite (proj2 (Z.eqb_neq c 48)). }
  rewrite Eb. cbn [Z.eqb Pos.eqb andb]. rewrite decimal_value; [done| |lia].
  change (10 ^ Z.of_nat 20) with 100000000000000000000. lia.
Qed.

(** A name and a timeout as a program writes them. *)
Lemma parse_decimal name n : name_ok name -> 0 <= n < 2 ^ 64 ->
  parse_request (name ++ [32] ++ decimal 20 n ++ [10]) true = Some (name, s32 (to_jiffies n)).
Proof.
  intros [Hne Hn] Hr. unfold parse_request.
  assert (Hp : Forall (fun c => negb (isspace c) = true) name) by (eapply Forall_impl; [exact Hn|]; simpl; by intros c [_ ->]).
  cbn [app]. rewrite skip_stop by done. rewrite length_app. cbn [length].
  rewrite Nat.add_sub, take_app_length, bool_decide_false by done.
  assert (Hs : skip isspace (32 :: decimal 20 n ++ [10]) = decimal 20 n ++ [10]).
  { cbn [skip]. change (isspace 32) with true. cbv iota. destruct (decimal 20 n) as [|c s] eqn:E; [cbn [decimal] in E; by apply app_nil in E as [_ ?]|].
    pose proof (decimal_digits 20 n) as Hd. rewrite E in Hd. apply Forall_cons in Hd as [Hd _]. cbn [app skip].
    by rewrite (digit_not_space c Hd). }
  rewrite Hs. rewrite bool_decide_false by (by intros [_ ?]%app_nil). cbn [andb negb]. by rewrite strtoull_decimal.
Qed.

(** A name alone. *)
Lemma parse_plain name : name_ok name -> parse_request (name ++ [10]) false = Some (name, 0).
Proof.
  intros [Hne Hn]. unfold parse_request.
  assert (Hp : Forall (fun c => negb (isspace c) = true) name) by (eapply Forall_impl; [exact Hn|]; simpl; by intros c [_ ->]).
  rewrite skip_stop by done. rewrite length_app. cbn [length]. by rewrite Nat.add_sub, take_app_length, bool_decide_false.
Qed.

(** Nanoseconds are rounded up to jiffies, at least one. *)
Lemma to_jiffies_ceil n : 0 <= n < 2 ^ 63 -> to_jiffies n = Z.max 1 ((n + 9999999) / 10000000).
Proof.
  intros Hn. unfold to_jiffies. change (NSEC_PER_SEC / HZ) with 10000000. unfold u64.
  rewrite Z.mod_small by (change (2 ^ 64) with (2 * 2 ^ 63); lia). change (10000000 - 1) with 9999999.
  pose proof (Z.div_pos (n + 9999999) 10000000 ltac:(lia) ltac:(lia)).
  destruct (Z.leb_spec ((n + 9999999) / 10000000) 0); lia.
Qed.

(** ** The system *)

(** A write to one of the files, or anything else that happens to the wake
    locks of Wakelock.v. *)
Inductive event :=
  | Lock (kz : option Z) (buf : list Z) (n : Z)
  | Unlock (buf : list Z) (n : Z)
  | Power (ev : wl_event).

Definition exec (st : users) (c : clock) (ev : event) : option users :=
  match ev with
  | Lock kz buf n => fst <$> wake_lock_store kz st buf n c
  | Unlock buf n => fst <$> wake_unlock_store st buf n c
  | Power ev => set_power st <$> wl_exec (power st) c ev
  end.

(** Memory for a new lock is not in use; nobody else destroys a lock that
    belongs to user space. *)
Definition enabled (st : users) (ev : event) : Prop :=
  match ev with
  | Lock kz buf _ => string_ok buf /\ fresh_lock kz st
  | Unlock buf _ => string_ok buf
  | Power ev => wl_enabled (power st) ev /\ match ev with EvDestroy p => user_names st !! p = None | _ => True end
  end.

Inductive reachable : users -> Prop :=
  | reach_start c : reachable (mk_users (booted c) Null ∅)
  | reach_next st c ev st' : reachable st -> enabled st ev -> exec st c ev = Some st' -> reachable st'.

Lemma wl_exec_kinds s c ev s' l : wl_inv s -> wl_enabled s ev -> wl_exec s c ev = Some s' -> kinds s !! l <> None ->
  match ev with EvDestroy p => p <> l | EvInit p _ _ => p <> l | _ => True end -> kinds s' !! l = kinds s !! l.
Proof.
  intros Hi Hen H Hl Hev. destruct ev as [p t name|p|p|p n|p|t| | |]; simpl in H.
  - rewrite (init_kinds _ _ _ _ _ (proj2 Hen) H). by rewrite lookup_insert_ne.
  - by apply (destroy_kinds _ p).
  - by rewrite (lock_kinds _ _ _ _ _ _ H).
  - by rewrite (lock_kinds _ _ _ _ _ _ H).
  - by rewrite (unlock_kinds _ _ _ _ H).
  - apply bind_Some in H as ([b s1] & H%has_locked_kinds & [= <-]). by rewrite H.
  - apply bind_Some in H as ([b s1] & H%has_locked_kinds & [= <-]). change (kinds (set_expire_timer s None)) with (kinds s) in H.
    rewrite <- H. by destruct (b =? 0).
  - by rewrite (lock_kinds _ _ _ _ _ _ H).
  - apply bind_Some in H as ([b s1] & H & [= <-]). apply bind_Some in H as ([b' s2] & H%has_locked_kinds & [= _ <-]). by rewrite <- H.
Qed.

Lemma exec_users_inv st c ev : users_inv st -> enabled st ev -> exists st', exec st c ev = Some st' /\ users_inv st'.
Proof.
  intros Hi Hen. destruct ev as [kz buf n|buf n|ev]; simpl in *.
  - destruct Hen as [Hb Hkz]. pose proof (store_spec kz st buf n c Hi Hb Hkz) as H.
    destruct (parse_request buf true) as [[name timeout]|]; [|rewrite H; by eexists].
    destruct H as [(_ & _ & ->)|(l & st' & -> & Hi' & _)]; by eexists.
  - pose proof (unstore_spec st buf n c Hi Hen) as H.
    destruct (parse_request buf false) as [[name timeout]|]; [|rewrite H; by eexists].
    destruct H as [(_ & ->)|(l & st' & -> & Hi' & _)]; by eexists.
  - destruct Hen as [Hen Hd]. destruct (wl_exec_inv (power st) c ev (ui_power _ Hi) Hen) as (s & E & Hs). rewrite E.
    eexists. split; [done|]. apply users_inv_power; [done|done|]. intros l [name Hl].
    apply (wl_exec_kinds _ c ev); [apply Hi|done|done|by rewrite (ui_kind _ Hi l name Hl)|].
    destruct ev; try done; simpl in Hen; intros ->; [|congruence].
    by rewrite (fresh_no_user st l Hi (proj1 Hen)) in Hl.
Qed.

Lemma reachable_users_inv st : reachable st -> users_inv st.
Proof.
  induction 1 as [c|st c ev st' _ IH Hen E].
  - split; [apply booted_inv| |by intros l|by intros l]. apply key_tree_null. intros x [? ?]. done.
  - destruct (exec_users_inv st c ev IH Hen) as (? & ? & ?). by simplify_eq.
Qed.

(** ** The theorems *)

(** C9. Whatever is written to the two files and whatever else happens to
    wake locks, every operation returns; a name has at most one lock, which is
    an initialised suspend lock with that name, not empty and without spaces. *)
Theorem user_wake_locks_safe (st : users) (H : reachable st) :
  (forall c ev, enabled st ev -> exists st', exec st c ev = Some st') /\
  (forall l l' name, user_names st !! l = Some name -> user_names st !! l' = Some name -> l = l') /\
  (forall l name, user_names st !! l = Some name -> name_ok name /\
     exists x, locks (power st) !! l = Some x /\ flag_set (flags x) WAKE_LOCK_INITIALIZED = true /\
       flags x &ᵤ WAKE_LOCK_TYPE_MASK = WAKE_LOCK_SUSPEND /\ lock_name x = Some name).
Proof.
  pose proof (reachable_users_inv st H) as Hi. split; [|split].
  - intros c ev Hen. destruct (exec_users_inv st c ev Hi Hen) as (st' & ? & _). by exists st'.
  - intros l l' name. by apply names_unique.
  - intros l name Hl. split; [by apply (ui_name _ Hi l)|]. pose proof (ui_kind _ Hi l name Hl) as Hk. unfold kinds in Hk.
    rewrite lookup_fmap in Hk. apply fmap_Some in Hk as (x & Hx & E). injection E as E1 E2 E3. by exists x.
Qed.

(** Writing a name and a timeout in nanoseconds, in decimal, to the file
    wake_lock takes the lock of that name, and no other, for the timeout
    rounded up to jiffies: it is the one that has the name or a new one, it is
    active with that expiry time, and locks that still hold keep their state.
    Only when there is no lock and no memory is it refused.  Writing the name
    to wake_unlock afterwards releases it. *)
Lemma wake_lock_store_correct (st : users) (kz : option Z) (name : list Z) (ns n : Z) (c : clock)
    (H : reachable st) (Hkz : fresh_lock kz st) (Hname : name_ok name) (Hns : 0 <= ns <= 21474836470000000) :
  let buf := name ++ [32] ++ decimal 20 ns ++ [10] in
  let timeout := Z.max 1 ((ns + 9999999) / 10000000) in
  (kz = None /\ (forall l, user_names st !! l <> Some name) /\ wake_lock_store kz st buf n c = Some (st, - ENOMEM)) \/
  exists l st', wake_lock_store kz st buf n c = Some (st', n) /\
    (user_names st !! l = Some name \/ kz = Some l /\ forall l, user_names st !! l <> Some name) /\
    user_names st' = <[l := name]> (user_names st) /\
    wake_lock_active (power st') l = Some true /\
    core (power st') !! l = Some (mk_view true true true WAKE_LOCK_SUSPEND, u32 (jiffies c + timeout)) /\
    (forall q, q <> l -> holds (power st) c q -> core (power st') !! q = core (power st) !! q) /\ settled (power st') c /\
    forall m c', exists st2, wake_unlock_store st' (name ++ [10]) m c' = Some (st2, m) /\ wake_lock_active (power st2) l = Some false.
Proof.
  intros buf timeout. pose proof (reachable_users_inv st H) as Hi.
  assert (Hn0 : 0 <= ns < 2 ^ 63) by lia. pose proof (name_ok_string _ Hname) as Hs.
  assert (Hbuf : string_ok buf).
  { apply Forall_app. split; [done|]. apply Forall_app. split; [by repeat constructor|]. apply Forall_app. split; [|by repeat constructor].
    eapply Forall_impl; [apply decimal_digits|]. unfold isdigit. intros x. rewrite andb_true_iff, !Z.leb_le. lia. }
  pose proof (store_spec kz st buf n c Hi Hbuf Hkz) as Hst. unfold buf in Hst at 1.
  rewrite parse_decimal, to_jiffies_ceil in Hst by (done || lia). fold timeout in Hst.
  assert (Ht : 1 <= timeout < 2147483648).
  { unfold timeout. split; [lia|]. apply Z.max_lub_lt; [lia|]. apply Z.div_lt_upper_bound; lia. }
  rewrite s32_small in Hst by lia. destruct Hst as [Hst|(l & st' & E & Hi' & Hl & En & Htk & Hq & Hset)]; [by left|right].
  destruct Htk as [Ha Hc]; [lia|]. rewrite (proj2 (Z.eqb_neq timeout 0)) in Hc by lia. exists l, st'. split_and!; try done.
  intros m c'. assert (Hb' : string_ok (name ++ [10])) by (apply Forall_app; split; [done|by repeat constructor]).
  pose proof (unstore_spec st' (name ++ [10]) m c' Hi' Hb') as Hun. rewrite parse_plain in Hun by done.
  assert (Hln : user_names st' !! l = Some name) by (by rewrite En, lookup_insert_eq).
  destruct Hun as [[Hno _]|(l' & st2 & E2 & _ & Hl' & _ & Ha' & _)]; [by destruct (Hno l)|].
  assert (l' = l) as -> by (by apply (names_unique st' l' l name)). by exists st2.
Qed.

(** Reading the file wake_lock gives the names of the active locks, and
    reading wake_unlock those of the others, each once, in the order of the
    names and followed by a space, then a newline; only what does not fit in a
    page is cut off. *)
Lemma wake_lock_show_correct (st : users) (active : bool) (H : reachable st) :
  exists names, (if active then wake_lock_show st else wake_unlock_show st) =
      Some (take (Z.to_nat (PAGE_SIZE - 1)) (concat ((fun nm => nm ++ [32]) <$> names) ++ [10])) /\
    StronglySorted (fun a b => name_ltb a b = true) names /\
    forall nm, nm ∈ names <-> exists l, user_names st !! l = Some nm /\ wake_lock_active (power st) l = Some active.
Proof.
  pose proof (reachable_users_inv st H) as Hi. exists (shown st active). split_and!.
  - assert (E : (if active then wake_lock_show st else wake_unlock_show st) = show st active) by (by destruct active).
    rewrite E, (show_spec st active Hi), shown_concat; [done|]. intros l Hl. by apply (kt_elem _ _ _ (ui_tree _ Hi)).
  - by apply shown_sorted.
  - intros nm. by apply shown_elem.
Qed.

(** A timeout of 2^32 jiffies, over a year, is taken for none. *)
Lemma wake_lock_timeout_truncated (st : users) (kz : option Z) (n : Z) (c : clock) (l : Z) :
  reachable st -> fresh_lock kz st -> user_names st !! l = Some [97] ->
  exists st', wake_lock_store kz st ([97; 32] ++ decimal 20 42949672960000000 ++ [10]) n c = Some (st', n) /\
    core (power st') !! l = Some (mk_view true true false WAKE_LOCK_SUSPEND, LONG_MAX).
Proof.
  intros H Hkz Hl. pose proof (reachable_users_inv st H) as Hi.
  pose proof (store_spec kz st ([97; 32] ++ decimal 20 42949672960000000 ++ [10]) n c Hi) as Hst.
  change (parse_request _ true) with (Some ([97], 0)) in Hst.
  destruct Hst as [(_ & Hno & _)|(l' & st' & E & _ & Hl' & _ & Ht & _)].
  - apply (bool_decide_unpack _). by vm_compute.
  - done.
  - by destruct (Hno l).
  - destruct Ht as [_ Ht]; [lia|]. destruct Hl' as [Hl'|[_ Hno]]; [|by destruct (Hno l)].
    assert (l' = l) as -> by (by apply (names_unique st l' l [97])). exists st'. split; [exact E|exact Ht].
Qed.

(** ** An example *)

Definition users0 : users := mk_users (booted clock0) Null ∅.
Definition users1 : users := default users0 (fst <$> wake_lock_store (Some 1000) users0 [97; 98] 2 clock0).

Lemma fresh_thousand : fresh_lock (Some 1000) users0.
Proof. intros l [= <-] v e Hc. by vm_compute in Hc. Qed.

Lemma users1_reachable : reachable users1.
Proof.
  apply (reach_next users0 clock0 (Lock (Some 1000) [97; 98] 2)); [apply reach_start| |by vm_compute].
  split; [by repeat constructor|apply fresh_thousand].
Qed.

Lemma user_wake_locks_safe_witness :
  exists x, locks (power users1) !! 1000 = Some x /\ lock_name x = Some [97; 98].
Proof.
  destruct (user_wake_locks_safe users1 users1_reachable) as (_ & _ & H).
  destruct (H 1000 [97; 98]) as (_ & x & H1 & _ & _ & H2); [by vm_compute|]. exists x. split; [exact H1|exact H2].
Defined.

End UserWakelock.
