(* ===== verification/BinderRefs.v ===== *)
(** Nodes, references and death notifications of the binder driver
    (drivers/staging/android/binder.c).

    A node is an object a process offers; a reference is another process's
    handle for it, known by a descriptor.  Nodes count the references to them
    and the holds of the driver, tell their owner when the first reference
    appears and the last one goes, and are freed when nothing is left.  A
    reference may have a death notification, queued when the owner of its
    node exits.

    This file has the code, over a store of nodes, references, notifications
    and work lists in which a freed structure is absent, so that a use after
    free is [None]; BinderRefsInv.v has the invariant, BinderRefsCorrect.v,
    BinderRefsSafe.v and BinderRelease.v what the operations do to it, and
    BinderWorld.v the theorems.  Not
    in the store: debug_id and binder_last_id, the scheduling and transaction
    fields of nodes, the statistics, and work items other than nodes and death
    notifications. *)

From S2P Require Import Prelude RbTree KeyTree.
Local Open Scope Z_scope.
Local Open Scope kernel_scope.

Module BinderRefs.
Import RbTree KeyTree.

(** ** Data *)

(** The structures with a struct binder_work that are modelled. *)
Inductive work := WorkNode (a : Z) | WorkDeath (d : Z).

#[export] Instance binder_work_eq_dec : EqDecision work.
Proof. solve_decision. Defined.

(** The type of a work item of a death notification; 0 is what kzalloc()
    leaves. *)
Inductive death_type := Unset | DEAD_BINDER | DEAD_BINDER_AND_CLEAR | CLEAR_DEATH_NOTIFICATION.

#[export] Instance death_type_eq_dec : EqDecision death_type.
Proof. solve_decision. Defined.

(** [n_work] is the list the node's work entry is on, [n_refs] the hlist of
    the references to it. *)
Record binder_node := mk_node {
  n_proc : option Z;
  n_refs : list Z;
  internal_strong_refs : Z;
  local_weak_refs : Z;
  local_strong_refs : Z;
  n_ptr : Z;
  n_cookie : Z;
  has_strong_ref : bool;
  pending_strong_ref : bool;
  has_weak_ref : bool;
  pending_weak_ref : bool;
  n_work : option Z
}.

Record binder_ref := mk_ref {
  r_proc : Z;
  r_node : Z;
  desc : Z;
  strong : Z;
  weak : Z;
  death : option Z
}.

Record binder_ref_death := mk_death {
  d_type : death_type;
  d_cookie : Z;
  d_work : option Z
}.

(** What nodes and references use of struct binder_proc: three trees and the
    addresses of two list heads. *)
Record binder_proc := mk_proc {
  nodes : tree;
  refs_by_desc : tree;
  refs_by_node : tree;
  todo : Z;
  delivered_death : Z
}.

Record binder := mk_binder {
  node_at : gmap Z binder_node;
  ref_at : gmap Z binder_ref;
  death_at : gmap Z binder_ref_death;
  proc_at : gmap Z binder_proc;
  list_at : gmap Z (list work);
  binder_dead_nodes : list Z;
  context_mgr_node : option Z;
  context_mgr_uid : Z
}.

Definition set_nodes (st : binder) (m : gmap Z binder_node) : binder :=
  mk_binder m (ref_at st) (death_at st) (proc_at st) (list_at st) (binder_dead_nodes st)
    (context_mgr_node st) (context_mgr_uid st).
Definition set_refs (st : binder) (m : gmap Z binder_ref) : binder :=
  mk_binder (node_at st) m (death_at st) (proc_at st) (list_at st) (binder_dead_nodes st)
    (context_mgr_node st) (context_mgr_uid st).
Definition set_deaths (st : binder) (m : gmap Z binder_ref_death) : binder :=
  mk_binder (node_at st) (ref_at st) m (proc_at st) (list_at st) (binder_dead_nodes st)
    (context_mgr_node st) (context_mgr_uid st).
Definition set_procs (st : binder) (m : gmap Z binder_proc) : binder :=
  mk_binder (node_at st) (ref_at st) (death_at st) m (list_at st) (binder_dead_nodes st)
    (context_mgr_node st) (context_mgr_uid st).
Definition set_lists (st : binder) (m : gmap Z (list work)) : binder :=
  mk_binder (node_at st) (ref_at st) (death_at st) (proc_at st) m (binder_dead_nodes st)
    (context_mgr_node st) (context_mgr_uid st).
Definition set_dead_nodes (st : binder) (l : list Z) : binder :=
  mk_binder (node_at st) (ref_at st) (death_at st) (proc_at st) (list_at st) l
    (context_mgr_node st) (context_mgr_uid st).
Definition set_context_mgr (st : binder) (c : option Z) (uid : Z) : binder :=
  mk_binder (node_at st) (ref_at st) (death_at st) (proc_at st) (list_at st) (binder_dead_nodes st) c uid.

Definition put_node (st : binder) (a : Z) (n : binder_node) : binder := set_nodes st (<[a := n]> (node_at st)).
Definition put_ref (st : binder) (r : Z) (rf : binder_ref) : binder := set_refs st (<[r := rf]> (ref_at st)).
Definition put_death (st : binder) (d : Z) (dt : binder_ref_death) : binder :=
  set_deaths st (<[d := dt]> (death_at st)).
Definition put_proc (st : binder) (p : Z) (pr : binder_proc) : binder := set_procs st (<[p := pr]> (proc_at st)).
Definition put_list (st : binder) (h : Z) (l : list work) : binder := set_lists st (<[h := l]> (list_at st)).

Definition with_counts (n : binder_node) (i lw ls : Z) : binder_node :=
  mk_node (n_proc n) (n_refs n) i lw ls (n_ptr n) (n_cookie n) (has_strong_ref n) (pending_strong_ref n)
    (has_weak_ref n) (pending_weak_ref n) (n_work n).
Definition with_refs (n : binder_node) (l : list Z) : binder_node :=
  mk_node (n_proc n) l (internal_strong_refs n) (local_weak_refs n) (local_strong_refs n) (n_ptr n) (n_cookie n)
    (has_strong_ref n) (pending_strong_ref n) (has_weak_ref n) (pending_weak_ref n) (n_work n).
Definition with_work (n : binder_node) (w : option Z) : binder_node :=
  mk_node (n_proc n) (n_refs n) (internal_strong_refs n) (local_weak_refs n) (local_strong_refs n) (n_ptr n)
    (n_cookie n) (has_strong_ref n) (pending_strong_ref n) (has_weak_ref n) (pending_weak_ref n) w.
Definition with_flags (n : binder_node) (hs ps hw pw : bool) : binder_node :=
  mk_node (n_proc n) (n_refs n) (internal_strong_refs n) (local_weak_refs n) (local_strong_refs n) (n_ptr n)
    (n_cookie n) hs ps hw pw (n_work n).
Definition with_ref_counts (rf : binder_ref) (s w : Z) : binder_ref :=
  mk_ref (r_proc rf) (r_node rf) (desc rf) s w (death rf).
Definition with_death (rf : binder_ref) (d : option Z) : binder_ref :=
  mk_ref (r_proc rf) (r_node rf) (desc rf) (strong rf) (weak rf) d.
Definition with_death_work (dt : binder_ref_death) (t : death_type) (w : option Z) : binder_ref_death :=
  mk_death t (d_cookie dt) w.

(** ** Work lists *)

(** The list an entry is on; the outer [None] is a structure that has been
    freed, the inner one an entry that is empty. *)
Definition work_on (st : binder) (w : work) : option (option Z) :=
  match w with
  | WorkNode a => n_work <$> node_at st !! a
  | WorkDeath d => d_work <$> death_at st !! d
  end.

Definition set_work (st : binder) (w : work) (on : option Z) : option binder :=
  match w with
  | WorkNode a => n ← node_at st !! a; Some (put_node st a (with_work n on))
  | WorkDeath d => dt ← death_at st !! d; Some (put_death st d (with_death_work dt (d_type dt) on))
  end.

(** An entry that is already on a list must not be added to another one. *)
Definition list_add_tail (st : binder) (w : work) (h : Z) : option binder :=
  on ← work_on st w;
  match on with
  | Some _ => None
  | None => l ← list_at st !! h; set_work (put_list st h (l ++ [w])) w (Some h)
  end.

Definition list_del_init (st : binder) (w : work) : option binder :=
  on ← work_on st w;
  match on with
  | None => Some st
  | Some h => l ← list_at st !! h; set_work (put_list st h (filter (fun x => x <> w) l)) w None
  end.

(** ** Nodes *)

Definition node_key (st : binder) (a : Z) : option Z := n_ptr <$> node_at st !! a.

Definition binder_get_node (st : binder) (proc ptr : Z) : option (option Z) :=
  pr ← proc_at st !! proc;
  w ← rb_walk (key_go (node_key st) ptr) (nodes pr) [];
  Some (match w with inl _ => None | inr a => Some a end).

(** [kzalloc] is the address of the new structure, or NULL. *)
Definition binder_new_node (kzalloc : option Z) (st : binder) (proc ptr cookie : Z) :
    option (binder * option Z) :=
  pr ← proc_at st !! proc;
  w ← rb_walk (key_go (node_key st) ptr) (nodes pr) [];
  match w with
  | inr _ => Some (st, None)
  | inl path =>
      match kzalloc with
      | None => Some (st, None)
      | Some a =>
          t ← rb_insert_color path (rb_link_node a);
          let st := put_proc st proc (mk_proc t (refs_by_desc pr) (refs_by_node pr) (todo pr) (delivered_death pr)) in
          let n := mk_node (Some proc) [] 0 0 0 ptr cookie false false false false None in
          Some (put_node st a n, Some a)
      end
  end.

(** kfree(node), out of the tree of its process or the list of dead nodes. *)
Definition free_node (st : binder) (a : Z) : option binder :=
  n ← node_at st !! a;
  st ← list_del_init st (WorkNode a);
  match n_proc n with
  | Some p =>
      pr ← proc_at st !! p;
      t ← rb_erase a (nodes pr);
      let st := put_proc st p (mk_proc t (refs_by_desc pr) (refs_by_node pr) (todo pr) (delivered_death pr)) in
      Some (set_nodes st (delete a (node_at st)))
  | None =>
      let st := set_dead_nodes st (list_del a (binder_dead_nodes st)) in
      Some (set_nodes st (delete a (node_at st)))
  end.

Definition inc_counts (n : binder_node) (strong internal : bool) : binder_node :=
  if strong then
    if internal
    then with_counts n (s32 (internal_strong_refs n + 1)) (local_weak_refs n) (local_strong_refs n)
    else with_counts n (internal_strong_refs n) (local_weak_refs n) (s32 (local_strong_refs n + 1))
  else
    if negb internal
    then with_counts n (internal_strong_refs n) (s32 (local_weak_refs n + 1)) (local_strong_refs n)
    else n.

(** The first strong reference needs a list to tell the owner with. *)
Definition inc_refused (st : binder) (a : Z) (n : binder_node) (target_list : option Z) : bool :=
  bool_decide (target_list = None) && (internal_strong_refs n =? 0) &&
  negb (bool_decide (context_mgr_node st = Some a) && has_strong_ref n).

Definition binder_inc_node (st : binder) (a : Z) (strong internal : bool) (target_list : option Z) :
    option (binder * Z) :=
  n ← node_at st !! a;
  if strong && internal && inc_refused st a n target_list then Some (st, - EINVAL) else
  let st := put_node st a (inc_counts n strong internal) in
  if strong then
    match target_list with
    | Some h =>
        if negb (has_strong_ref n) then
          st ← list_del_init st (WorkNode a);
          st ← list_add_tail st (WorkNode a) h;
          Some (st, 0)
        else Some (st, 0)
    | None => Some (st, 0)
    end
  else
    if negb (has_weak_ref n) && bool_decide (n_work n = None) then
      match target_list with
      | None => Some (st, - EINVAL)
      | Some h => st ← list_add_tail st (WorkNode a) h; Some (st, 0)
      end
    else Some (st, 0).

Definition dec_counts (n : binder_node) (strong internal : bool) : binder_node :=
  if strong then
    if internal
    then with_counts n (s32 (internal_strong_refs n - 1)) (local_weak_refs n) (local_strong_refs n)
    else with_counts n (internal_strong_refs n) (local_weak_refs n) (s32 (local_strong_refs n - 1))
  else
    if negb internal
    then with_counts n (internal_strong_refs n) (s32 (local_weak_refs n - 1)) (local_strong_refs n)
    else n.

(** The counter that was decremented, or one beside it, is not zero. *)
Definition still_counted (n : binder_node) (strong : bool) : bool :=
  if strong then negb (local_strong_refs n =? 0) || negb (internal_strong_refs n =? 0)
  else negb (local_weak_refs n =? 0) || negb (bool_decide (n_refs n = [])).

(** The owner is told, or the node is freed when nothing is left. *)
Definition dec_last (st : binder) (a : Z) (n : binder_node) : option binder :=
  let unused := bool_decide (n_refs n = []) && (local_strong_refs n =? 0) && (local_weak_refs n =? 0) in
  match n_proc n with
  | Some p =>
      if has_strong_ref n || has_weak_ref n then
        if bool_decide (n_work n = None) then
          pr ← proc_at st !! p; list_add_tail st (WorkNode a) (todo pr)
        else Some st
      else if unused then free_node st a else Some st
  | None => if unused then free_node st a else Some st
  end.

Definition binder_dec_node (st : binder) (a : Z) (strong internal : bool) : option binder :=
  n ← node_at st !! a;
  let n := dec_counts n strong internal in
  let st := put_node st a n in
  if still_counted n strong then Some st else dec_last st a n.

(** ** References *)

Definition desc_key (st : binder) (r : Z) : option Z := desc <$> ref_at st !! r.
Definition ref_node_key (st : binder) (r : Z) : option Z := r_node <$> ref_at st !! r.

Definition binder_get_ref (st : binder) (proc d : Z) : option (option Z) :=
  pr ← proc_at st !! proc;
  w ← rb_walk (key_go (desc_key st) d) (refs_by_desc pr) [];
  Some (match w with inl _ => None | inr r => Some r end).

(** The loop that looks for a descriptor, from the reference [n] on; [fuel]
    bounds its rounds. *)
Fixpoint desc_loop (fuel : nat) (st : binder) (t : tree) (n : option Z) (d : Z) : option Z :=
  match n with
  | None => Some d
  | Some x =>
      match fuel with
      | O => None
      | S fuel =>
          rf ← ref_at st !! x;
          if d <? desc rf then Some d else
          nx ← rb_next t x;
          desc_loop fuel st t nx (desc rf +ᵤ 1)
      end
  end.

(** hlist_add_head(&new_ref->node_entry, &node->refs), when there is a node. *)
Definition add_to_node (st : binder) (r node : Z) : option binder :=
  if node =? 0 then Some st
  else n ← node_at st !! node; Some (put_node st node (with_refs n (r :: n_refs n))).

Definition binder_get_ref_for_node (kzalloc : option Z) (st : binder) (proc node : Z) :
    option (binder * option Z) :=
  pr ← proc_at st !! proc;
  w ← rb_walk (key_go (ref_node_key st) node) (refs_by_node pr) [];
  match w with
  | inr r => Some (st, Some r)
  | inl path =>
      match kzalloc with
      | None => Some (st, None)
      | Some r =>
          tn ← rb_insert_color path (rb_link_node r);
          d ← desc_loop (length (inorder (refs_by_desc pr))) st (refs_by_desc pr) (rb_first (refs_by_desc pr))
                (if bool_decide (context_mgr_node st = Some node) then 0 else 1);
          w ← rb_walk (key_go (desc_key st) d) (refs_by_desc pr) [];
          match w with
          | inr _ => None
          | inl path =>
              td ← rb_insert_color path (rb_link_node r);
              let st := put_proc st proc (mk_proc (nodes pr) td tn (todo pr) (delivered_death pr)) in
              let st := put_ref st r (mk_ref proc node d 0 0 None) in
              st ← add_to_node st r node;
              Some (st, Some r)
          end
      end
  end.

(** The notification of a reference that goes away. *)
Definition free_death (st : binder) (d : Z) : option binder :=
  st ← list_del_init st (WorkDeath d);
  Some (set_deaths st (delete d (death_at st))).

Definition binder_delete_ref (st : binder) (r : Z) : option binder :=
  rf ← ref_at st !! r;
  pr ← proc_at st !! r_proc rf;
  td ← rb_erase r (refs_by_desc pr);
  tn ← rb_erase r (refs_by_node pr);
  let st := put_proc st (r_proc rf) (mk_proc (nodes pr) td tn (todo pr) (delivered_death pr)) in
  st ← (if negb (strong rf =? 0) then binder_dec_node st (r_node rf) true true else Some st);
  n ← node_at st !! r_node rf;
  let st := put_node st (r_node rf) (with_refs n (list_del r (n_refs n))) in
  st ← binder_dec_node st (r_node rf) false true;
  st ← (match death rf with Some d => free_death st d | None => Some st end);
  Some (set_refs st (delete r (ref_at st))).

Definition binder_inc_ref (st : binder) (r : Z) (s : bool) (target_list : option Z) : option (binder * Z) :=
  rf ← ref_at st !! r;
  if s then
    '(st, ret) ← (if strong rf =? 0 then binder_inc_node st (r_node rf) true true target_list else Some (st, 0));
    if negb (ret =? 0) then Some (st, ret)
    else Some (put_ref st r (with_ref_counts rf (s32 (strong rf + 1)) (weak rf)), 0)
  else
    '(st, ret) ← (if weak rf =? 0 then binder_inc_node st (r_node rf) false true target_list else Some (st, 0));
    if negb (ret =? 0) then Some (st, ret)
    else Some (put_ref st r (with_ref_counts rf (strong rf) (s32 (weak rf + 1))), 0).

Definition binder_dec_ref (st : binder) (r : Z) (s : bool) : option (binder * Z) :=
  rf ← ref_at st !! r;
  if s then
    if strong rf =? 0 then Some (st, - EINVAL) else
    let rf := with_ref_counts rf (s32 (strong rf - 1)) (weak rf) in
    let st := put_ref st r rf in
    st ← (if strong rf =? 0 then binder_dec_node st (r_node rf) true true else Some st);
    if (strong rf =? 0) && (weak rf =? 0) then st ← binder_delete_ref st r; Some (st, 0) else Some (st, 0)
  else
    if weak rf =? 0 then Some (st, - EINVAL) else
    let rf := with_ref_counts rf (strong rf) (s32 (weak rf - 1)) in
    let st := put_ref st r rf in
    if (strong rf =? 0) && (weak rf =? 0) then st ← binder_delete_ref st r; Some (st, 0) else Some (st, 0).

(** ** Commands of binder_thread_write()

    [debug] is whether BINDER_DEBUG_USER_REFS is set in binder_debug_mask: the
    arguments of binder_debug() are evaluated only then. *)

Inductive ref_cmd := BC_INCREFS | BC_ACQUIRE | BC_RELEASE | BC_DECREFS.

Definition is_inc (c : ref_cmd) : bool :=
  match c with BC_INCREFS | BC_ACQUIRE => true | _ => false end.

Definition bc_refs (debug : bool) (kzalloc : option Z) (st : binder) (proc : Z) (cmd : ref_cmd) (target : Z) :
    option binder :=
  '(st, ref) ←
    match context_mgr_node st with
    | Some c =>
        if (target =? 0) && is_inc cmd then
          '(st, ref) ← binder_get_ref_for_node kzalloc st proc c;
          r ← ref; (* ref->desc is read before the test for NULL *)
          _ ← ref_at st !! r;
          Some (st, Some r)
        else ref ← binder_get_ref st proc target; Some (st, ref)
    | None => ref ← binder_get_ref st proc target; Some (st, ref)
    end;
  match ref with
  | None => Some st
  | Some r =>
      '(st, _) ← match cmd with
                 | BC_INCREFS => binder_inc_ref st r false None
                 | BC_ACQUIRE => binder_inc_ref st r true None
                 | BC_RELEASE => binder_dec_ref st r true
                 | BC_DECREFS => binder_dec_ref st r false
                 end;
      if debug then rf ← ref_at st !! r; _ ← node_at st !! r_node rf; Some st else Some st
  end.

(** BC_INCREFS_DONE ([acquire] false) and BC_ACQUIRE_DONE. *)
Definition bc_done (debug : bool) (st : binder) (proc : Z) (acquire : bool) (node_ptr cookie : Z) : option binder :=
  node ← binder_get_node st proc node_ptr;
  match node with
  | None => Some st
  | Some a =>
      n ← node_at st !! a;
      if negb (cookie =? n_cookie n) then Some st else
      if negb (if acquire then pending_strong_ref n else pending_weak_ref n) then Some st else
      let n := if acquire
               then with_flags n (has_strong_ref n) false (has_weak_ref n) (pending_weak_ref n)
               else with_flags n (has_strong_ref n) (pending_strong_ref n) (has_weak_ref n) false in
      st ← binder_dec_node (put_node st a n) a acquire false;
      if debug then _ ← node_at st !! a; Some st else Some st
  end.

(** [thread_todo] is the list of the calling thread when it is a looper. *)
Definition death_list (pr : binder_proc) (thread_todo : option Z) : Z := default (todo pr) thread_todo.

Definition bc_request_death (kzalloc : option Z) (st : binder) (proc : Z) (thread_todo : option Z)
    (target cookie : Z) : option binder :=
  pr ← proc_at st !! proc;
  ref ← binder_get_ref st proc target;
  match ref with
  | None => Some st
  | Some r =>
      rf ← ref_at st !! r;
      match death rf, kzalloc with
      | Some _, _ => Some st
      | None, None => Some st
      | None, Some d =>
          let st := put_death st d (mk_death Unset cookie None) in
          let st := put_ref st r (with_death rf (Some d)) in
          n ← node_at st !! r_node rf;
          match n_proc n with
          | Some _ => Some st
          | None =>
              let st := put_death st d (mk_death DEAD_BINDER cookie None) in
              list_add_tail st (WorkDeath d) (death_list pr thread_todo)
          end
      end
  end.

Definition bc_clear_death (st : binder) (proc : Z) (thread_todo : option Z) (target cookie : Z) : option binder :=
  pr ← proc_at st !! proc;
  ref ← binder_get_ref st proc target;
  match ref with
  | None => Some st
  | Some r =>
      rf ← ref_at st !! r;
      match death rf with
      | None => Some st
      | Some d =>
          dt ← death_at st !! d;
          if negb (d_cookie dt =? cookie) then Some st else
          let st := put_ref st r (with_death rf None) in
          match d_work dt with
          | None =>
              let st := put_death st d (with_death_work dt CLEAR_DEATH_NOTIFICATION None) in
              list_add_tail st (WorkDeath d) (death_list pr thread_todo)
          | Some h =>
              _ ← BUG_ON (negb (bool_decide (d_type dt = DEAD_BINDER)));
              Some (put_death st d (with_death_work dt DEAD_BINDER_AND_CLEAR (Some h)))
          end
      end
  end.

(** The first delivered notification with the cookie. *)
Fixpoint find_delivered (st : binder) (l : list work) (cookie : Z) : option (option Z) :=
  match l with
  | [] => Some None
  | WorkDeath d :: l =>
      dt ← death_at st !! d;
      if d_cookie dt =? cookie then Some (Some d) else find_delivered st l cookie
  | WorkNode _ :: _ => None
  end.

Definition bc_dead_binder_done (st : binder) (proc : Z) (thread_todo : option Z) (cookie : Z) : option binder :=
  pr ← proc_at st !! proc;
  l ← list_at st !! delivered_death pr;
  found ← find_delivered st l cookie;
  match found with
  | None => Some st
  | Some d =>
      st ← list_del_init st (WorkDeath d);
      dt ← death_at st !! d;
      if bool_decide (d_type dt = DEAD_BINDER_AND_CLEAR) then
        let st := put_death st d (with_death_work dt CLEAR_DEATH_NOTIFICATION None) in
        list_add_tail st (WorkDeath d) (death_list pr thread_todo)
      else Some st
  end.

(** ** Work of binder_thread_read()

    What the process is told, apart from the node's or notification's cookie.
    When it cannot be written, work_node() has taken place all the same and
    work_death() has not. *)

Inductive br_cmd := BR_NOOP | BR_INCREFS | BR_ACQUIRE | BR_RELEASE | BR_DECREFS
  | BR_DEAD_BINDER | BR_CLEAR_DEATH_NOTIFICATION_DONE.

Definition work_node (st : binder) (proc a : Z) : option (binder * br_cmd) :=
  n ← node_at st !! a;
  let strong := negb (internal_strong_refs n =? 0) || negb (local_strong_refs n =? 0) in
  let weak := negb (bool_decide (n_refs n = [])) || negb (local_weak_refs n =? 0) || strong in
  if weak && negb (has_weak_ref n) then
    let n := with_flags n (has_strong_ref n) (pending_strong_ref n) true true in
    Some (put_node st a (with_counts n (internal_strong_refs n) (s32 (local_weak_refs n + 1)) (local_strong_refs n)),
          BR_INCREFS)
  else if strong && negb (has_strong_ref n) then
    let n := with_flags n true true (has_weak_ref n) (pending_weak_ref n) in
    Some (put_node st a (with_counts n (internal_strong_refs n) (local_weak_refs n) (s32 (local_strong_refs n + 1))),
          BR_ACQUIRE)
  else if negb strong && has_strong_ref n then
    Some (put_node st a (with_flags n false (pending_strong_ref n) (has_weak_ref n) (pending_weak_ref n)), BR_RELEASE)
  else if negb weak && has_weak_ref n then
    Some (put_node st a (with_flags n (has_strong_ref n) (pending_strong_ref n) false (pending_weak_ref n)), BR_DECREFS)
  else
    st ← list_del_init st (WorkNode a);
    if negb weak && negb strong then
      pr ← proc_at st !! proc;
      t ← rb_erase a (nodes pr);
      let st := put_proc st proc (mk_proc t (refs_by_desc pr) (refs_by_node pr) (todo pr) (delivered_death pr)) in
      Some (set_nodes st (delete a (node_at st)), BR_NOOP)
    else Some (st, BR_NOOP).

Definition work_death (st : binder) (proc d : Z) : option (binder * br_cmd) :=
  dt ← death_at st !! d;
  if bool_decide (d_type dt = CLEAR_DEATH_NOTIFICATION) then
    st ← free_death st d; Some (st, BR_CLEAR_DEATH_NOTIFICATION_DONE)
  else
    pr ← proc_at st !! proc;
    st ← list_del_init st (WorkDeath d);
    l ← list_at st !! delivered_death pr;
    st ← set_work (put_list st (delivered_death pr) (WorkDeath d :: l)) (WorkDeath d) (Some (delivered_death pr));
    Some (st, BR_DEAD_BINDER).

(** ** BINDER_SET_CONTEXT_MGR *)

(** The value of binder_context_mgr_uid before it is set. *)
Definition no_uid : Z := u32 (-1).

Definition binder_set_context_mgr (kzalloc : option Z) (st : binder) (proc euid : Z) : option (binder * Z) :=
  match context_mgr_node st with
  | Some _ => Some (st, - EBUSY)
  | None =>
      if negb (context_mgr_uid st =? no_uid) && negb (context_mgr_uid st =? euid) then Some (st, - EPERM) else
      let uid := if context_mgr_uid st =? no_uid then euid else context_mgr_uid st in
      let st := set_context_mgr st None uid in
      '(st, node) ← binder_new_node kzalloc st proc 0 0;
      match node with
      | None => Some (st, - ENOMEM)
      | Some a =>
          n ← node_at st !! a;
          let n := with_counts n (internal_strong_refs n) (s32 (local_weak_refs n + 1)) (s32 (local_strong_refs n + 1)) in
          let n := with_flags n true (pending_strong_ref n) true (pending_weak_ref n) in
          Some (set_context_mgr (put_node st a n) (Some a) uid, 0)
      end
  end.

(** ** The end of a process: the nodes and references in
    binder_deferred_release() *)

Fixpoint queue_deaths (st : binder) (l : list Z) : option binder :=
  match l with
  | [] => Some st
  | r :: l =>
      rf ← ref_at st !! r;
      match death rf with
      | None => queue_deaths st l
      | Some d =>
          dt ← death_at st !! d;
          _ ← BUG_ON (negb (bool_decide (d_work dt = None)));
          pr ← proc_at st !! r_proc rf;
          st ← list_add_tail (put_death st d (with_death_work dt DEAD_BINDER None)) (WorkDeath d) (todo pr);
          queue_deaths st l
      end
  end.

Definition release_node (st : binder) (proc a : Z) : option binder :=
  pr ← proc_at st !! proc;
  t ← rb_erase a (nodes pr);
  let st := put_proc st proc (mk_proc t (refs_by_desc pr) (refs_by_node pr) (todo pr) (delivered_death pr)) in
  st ← list_del_init st (WorkNode a);
  n ← node_at st !! a;
  if bool_decide (n_refs n = []) then Some (set_nodes st (delete a (node_at st)))
  else
    let n' := mk_node None (n_refs n) (internal_strong_refs n) 0 0 (n_ptr n) (n_cookie n) (has_strong_ref n)
                (pending_strong_ref n) (has_weak_ref n) (pending_weak_ref n) (n_work n) in
    let st := set_dead_nodes (put_node st a n') (a :: binder_dead_nodes st) in
    queue_deaths st (n_refs n).

Fixpoint release_nodes (fuel : nat) (st : binder) (proc : Z) : option binder :=
  pr ← proc_at st !! proc;
  match rb_first (nodes pr) with
  | None => Some st
  | Some a =>
      match fuel with
      | O => None
      | S fuel => st ← release_node st proc a; release_nodes fuel st proc
      end
  end.

Fixpoint release_refs (fuel : nat) (st : binder) (proc : Z) : option binder :=
  pr ← proc_at st !! proc;
  match rb_first (refs_by_desc pr) with
  | None => Some st
  | Some r =>
      match fuel with
      | O => None
      | S fuel => st ← binder_delete_ref st r; release_refs fuel st proc
      end
  end.

(** binder_release_work() on the entries of this model; [fuel] bounds the
    rounds. *)
Fixpoint binder_release_work (fuel : nat) (st : binder) (h : Z) : option binder :=
  l ← list_at st !! h;
  match l with
  | [] => Some st
  | w :: _ =>
      match fuel with
      | O => None
      | S fuel => st ← list_del_init st w; binder_release_work fuel st h
      end
  end.

Definition release_work (st : binder) (h : Z) : option binder :=
  l ← list_at st !! h; binder_release_work (length l) st h.

Fixpoint release_threads (st : binder) (threads : list Z) : option binder :=
  match threads with
  | [] => Some st
  | h :: threads => st ← release_work st h; release_threads st threads
  end.

(** [threads] are the todo lists of the threads of the process. *)
Definition binder_deferred_release (st : binder) (proc : Z) (threads : list Z) : option binder :=
  st ← match context_mgr_node st with
       | Some c =>
           n ← node_at st !! c;
           Some (if bool_decide (n_proc n = Some proc) then set_context_mgr st None (context_mgr_uid st) else st)
       | None => Some st
       end;
  st ← release_threads st threads;
  pr ← proc_at st !! proc;
  st ← release_nodes (length (inorder (nodes pr))) st proc;
  st ← release_refs (length (inorder (refs_by_desc pr))) st proc;
  st ← release_work st (todo pr);
  Some (set_procs st (delete proc (proc_at st))).

(** ** Where processes and lists come from *)

(** binder_open(): [p] is the structure, [todo] and [delivered] its list heads. *)
Definition binder_open (kzalloc : option (Z * Z * Z)) (st : binder) : binder * Z :=
  match kzalloc with
  | None => (st, - ENOMEM)
  | Some (p, todo, delivered) =>
      (put_proc (put_list (put_list st todo []) delivered []) p (mk_proc Null Null Null todo delivered), 0)
  end.

(** INIT_LIST_HEAD(&thread->todo) in binder_get_thread(). *)
Definition init_thread_todo (st : binder) (h : Z) : binder := put_list st h [].

(** Before the first open. *)
Definition binder_init_state : binder := mk_binder ∅ ∅ ∅ ∅ ∅ [] None no_uid.

End BinderRefs.
