(* ===== verification/BinderRefsInv.v ===== *)
(** The invariant of nodes, references and death notifications, and what the
    operations of BinderRefs.v do to it. *)

From S2P Require Import Prelude RbTree KeyTree BinderRefs.
Local Open Scope Z_scope.
Local Open Scope kernel_scope.

Module BinderRefsInv.
Import RbTree KeyTree BinderRefs.

(** ** The invariant *)

Definition proc_of (st : binder) (a : Z) : option (option Z) := n_proc <$> node_at st !! a.
Definition target_of (st : binder) (r : Z) : option Z := r_node <$> ref_at st !! r.

Definition owned (st : binder) (p a : Z) : Prop := proc_of st a = Some (Some p).
Definition refs_of (st : binder) (p r : Z) : Prop := r_proc <$> ref_at st !! r = Some p.

(** The trees of a process hold its nodes by ptr and its references by
    descriptor and by node. *)
Definition trees_ok (st : binder) : Prop :=
  forall p pr, proc_at st !! p = Some pr ->
    key_tree (node_key st) (nodes pr) (owned st p) /\
    key_tree (desc_key st) (refs_by_desc pr) (refs_of st p) /\
    key_tree (ref_node_key st) (refs_by_node pr) (refs_of st p).

(** The number of references in [l] with a strong count. *)
Definition is_strong (m : gmap Z binder_ref) (r : Z) : Z :=
  match m !! r with Some rf => if strong rf =? 0 then 0 else 1 | None => 0 end.

Fixpoint strong_count (m : gmap Z binder_ref) (l : list Z) : Z :=
  match l with [] => 0 | r :: l => is_strong m r + strong_count m l end.

Definition b2z (b : bool) : Z := if b then 1 else 0.

(** One hold for the context manager. *)
Definition ctx_hold (st : binder) (a : Z) : Z := b2z (bool_decide (context_mgr_node st = Some a)).

(** [hs a] and [hw a] are the holds transactions have on a node, which the
    owner's buffers keep. *)
Section Inv.
Context (owner : Z -> Z) (hs hw : Z -> Z).

(** The owner has been told before it is asked to confirm. *)
Definition flags_ok (n : binder_node) : bool :=
  implb (pending_strong_ref n) (has_strong_ref n) && implb (pending_weak_ref n) (has_weak_ref n).

Definition local_ok (st : binder) (a : Z) (n : binder_node) : Prop :=
  flags_ok n = true /\
  match n_proc n with
  | Some _ =>
      local_strong_refs n = b2z (pending_strong_ref n) + ctx_hold st a + hs a /\
      local_weak_refs n = b2z (pending_weak_ref n) + ctx_hold st a + hw a
  | None => local_strong_refs n = 0 /\ local_weak_refs n = 0 /\ hs a = 0 /\ hw a = 0
  end.

Record node_ok (st : binder) (a : Z) (n : binder_node) : Prop := {
  no_addr : a <> 0;
  no_proc : forall p, n_proc n = Some p -> is_Some (proc_at st !! p);
  no_nodup : NoDup (n_refs n);
  no_refs : forall r, r ∈ n_refs n <-> target_of st r = Some a;
  no_strong : internal_strong_refs n = strong_count (ref_at st) (n_refs n);
  no_local : local_ok st a n
}.

Record ref_ok (st : binder) (r : Z) (rf : binder_ref) : Prop := {
  ro_node : is_Some (node_at st !! r_node rf);
  ro_proc : is_Some (proc_at st !! r_proc rf);
  ro_counts : 0 <= strong rf < 2147483648 /\ 0 <= weak rf < 2147483648;
  ro_desc : 0 <= desc rf < 4294967296;
  ro_death : forall d, death rf = Some d ->
    exists dt, death_at st !! d = Some dt /\ (d_type dt = Unset \/ d_type dt = DEAD_BINDER) /\
      (forall h, d_work dt = Some h -> d_type dt = DEAD_BINDER) /\
      (forall p, proc_of st (r_node rf) = Some (Some p) -> d_work dt = None)
}.

(** An entry says which list it is on, and is there once; the entries of a
    node are on lists of its owner, and none of them on a list of delivered
    notifications. *)
Record lists_ok (st : binder) : Prop := {
  lo_nodup : forall h l, list_at st !! h = Some l -> NoDup l;
  lo_elem : forall w h, work_on st w = Some (Some h) <-> exists l, list_at st !! h = Some l /\ w ∈ l;
  lo_owner : forall a n h, node_at st !! a = Some n -> n_work n = Some h ->
    n_proc n = Some (owner h) /\ forall p pr, proc_at st !! p = Some pr -> delivered_death pr <> h;
  lo_proc : forall p pr, proc_at st !! p = Some pr ->
    is_Some (list_at st !! todo pr) /\ is_Some (list_at st !! delivered_death pr) /\ owner (todo pr) = p /\
    forall p' pr', proc_at st !! p' = Some pr' -> delivered_death pr' <> todo pr
}.

Record refs_inv (st : binder) : Prop := {
  iv_trees : trees_ok st;
  iv_nodes : forall a n, node_at st !! a = Some n -> node_ok st a n;
  iv_holds : forall a, 0 <= hs a <= 1000000000 - ctx_hold st a /\ 0 <= hw a <= 1000000000 - ctx_hold st a /\
    (node_at st !! a = None -> hs a = 0 /\ hw a = 0);
  iv_refs : forall r rf, ref_at st !! r = Some rf -> ref_ok st r rf;
  iv_inj : forall r r' rf rf' d, ref_at st !! r = Some rf -> ref_at st !! r' = Some rf' ->
    death rf = Some d -> death rf' = Some d -> r = r';
  iv_lists : lists_ok st;
  iv_dead : NoDup (binder_dead_nodes st) /\ forall a, a ∈ binder_dead_nodes st <-> proc_of st a = Some None;
  iv_ctx : forall c, context_mgr_node st = Some c -> exists p, owned st p c;
  iv_size : Z.of_nat (size (ref_at st)) <= 1000000000
}.
End Inv.

(** ** Extensionality of the parts *)

Lemma trees_ext (st st' : binder) :
  trees_ok st -> proc_at st' = proc_at st -> ref_at st' = ref_at st ->
  (forall a, proc_of st' a = proc_of st a) -> (forall a, node_key st' a = node_key st a) -> trees_ok st'.
Proof.
  intros Ht Ep Er Hp Hk p pr Hpr. rewrite Ep in Hpr. destruct (Ht p pr Hpr) as (H1 & H2 & H3). split_and!.
  - apply (key_tree_ext _ _ _ _ _ H1); [|done]. intros a. unfold owned. by rewrite Hp.
  - apply (key_tree_ext _ _ _ _ _ H2); [|intros r _; unfold desc_key; by rewrite Er].
    intros r. unfold refs_of. by rewrite Er.
  - apply (key_tree_ext _ _ _ _ _ H3); [|intros r _; unfold ref_node_key; by rewrite Er].
    intros r. unfold refs_of. by rewrite Er.
Qed.

Lemma strong_count_ext (m m' : gmap Z binder_ref) (l : list Z) :
  (forall r, r ∈ l -> is_strong m r = is_strong m' r) -> strong_count m l = strong_count m' l.
Proof.
  induction l as [|x l IH]; intros H; [done|]. simpl. rewrite (H x) by by left. f_equal.
  apply IH. intros r Hr. apply H. by right.
Qed.

Lemma strong_count_del (m : gmap Z binder_ref) (l : list Z) (r : Z) :
  NoDup l -> r ∈ l -> strong_count m l = is_strong m r + strong_count m (list_del r l).
Proof.
  intros Hnd (l1 & l2 & ->)%list_elem_of_split. rewrite list_del_nodup by done. clear Hnd.
  induction l1 as [|x l1 IH]; simpl; [done|]. rewrite IH. lia.
Qed.

Lemma strong_count_bounds (m : gmap Z binder_ref) (l : list Z) : 0 <= strong_count m l <= Z.of_nat (length l).
Proof.
  induction l as [|x l IH]; simpl; [lia|]. unfold is_strong. destruct (m !! x) as [rf|]; [destruct (strong rf =? 0)|]; lia.
Qed.

(** A list of distinct references is no longer than their number. *)
Lemma refs_length (st : binder) (l : list Z) :
  NoDup l -> (forall r, r ∈ l -> is_Some (ref_at st !! r)) -> (length l <= size (ref_at st))%nat.
Proof.
  intros Hnd Hin. rewrite <- size_dom. rewrite <- (size_list_to_set (C := gset Z) l Hnd). apply subseteq_size.
  intros r Hr%elem_of_list_to_set. by apply elem_of_dom, Hin.
Qed.

Section Ops.
Context (owner : Z -> Z).

(** ** Changes to nodes *)

Lemma proc_of_Some (st : binder) (a : Z) (n : binder_node) : node_at st !! a = Some n -> proc_of st a = Some (n_proc n).
Proof using. clear owner. unfold proc_of. by intros ->. Qed.

Lemma refs_inv_nodes (hs hw hs' hw' : Z -> Z) (st st' : binder) :
  refs_inv owner hs hw st ->
  proc_at st' = proc_at st -> ref_at st' = ref_at st -> death_at st' = death_at st ->
  binder_dead_nodes st' = binder_dead_nodes st -> context_mgr_node st' = context_mgr_node st ->
  (forall a, proc_of st' a = proc_of st a) -> (forall a, node_key st' a = node_key st a) ->
  (forall a n, node_at st' !! a = Some n -> node_ok hs' hw' st' a n) ->
  (forall a, 0 <= hs' a <= 1000000000 - ctx_hold st a /\ 0 <= hw' a <= 1000000000 - ctx_hold st a /\
     (node_at st' !! a = None -> hs' a = 0 /\ hw' a = 0)) ->
  lists_ok owner st' -> refs_inv owner hs' hw' st'.
Proof using.
  intros [Ht Hn Hh Hr Hinj Hl Hd Hc Hs] Ep Er Ed Edead Ec Hp Hk Hn' Hh' Hl'. split; try done.
  - by apply (trees_ext st).
  - unfold ctx_hold in *. by rewrite Ec.
  - rewrite Er. intros r rf Hrf. destruct (Hr r rf Hrf) as [H1 H2 H3 H4 H5]. split; try done.
    + destruct (node_at st' !! r_node rf) as [x|] eqn:E; [by eexists|]. specialize (Hp (r_node rf)).
      unfold proc_of in Hp. rewrite E in Hp. destruct H1 as [y Hy]. by rewrite Hy in Hp.
    + by rewrite Ep.
    + intros d Hdd. rewrite Ed. destruct (H5 d Hdd) as (dt & ? & ? & ? & H6). exists dt. split_and!; try done.
      intros p. rewrite Hp. apply H6.
  - by rewrite Er.
  - rewrite Edead. split; [apply Hd|]. intros a. rewrite Hp. apply Hd.
  - rewrite Ec. intros c Hcc. destruct (Hc c Hcc) as [p Hpp]. exists p. unfold owned. by rewrite Hp.
  - by rewrite Er.
Qed.

(** Nodes other than the changed one. *)
Lemma node_ok_frame (hs hw hs' hw' : Z -> Z) (st st' : binder) (a : Z) (n : binder_node) :
  node_ok hs hw st a n -> proc_at st' = proc_at st -> ref_at st' = ref_at st ->
  context_mgr_node st' = context_mgr_node st -> hs' a = hs a -> hw' a = hw a -> node_ok hs' hw' st' a n.
Proof using.
  clear owner. intros [H1 H2 H3 H4 H5 H6] Ep Er Ec Es Ew. split; try done.
  - by rewrite Ep.
  - unfold target_of. by rewrite Er.
  - by rewrite Er.
  - unfold local_ok, ctx_hold. by rewrite Ec, Es, Ew.
Qed.

Lemma work_on_put_node (st : binder) (a : Z) (n n' : binder_node) (w : work) :
  node_at st !! a = Some n -> n_work n' = n_work n -> work_on (put_node st a n') w = work_on st w.
Proof using.
  clear owner. intros Hn Hw. destruct w as [b|d]; [|done]. simpl. destruct (decide (b = a)) as [->|].
  - rewrite lookup_insert_eq, Hn. simpl. by rewrite Hw.
  - by rewrite lookup_insert_ne.
Qed.

(** The counters and flags of one node change. *)
Lemma put_node_inv (hs hw hs' hw' : Z -> Z) (st : binder) (a : Z) (n n' : binder_node) :
  refs_inv owner hs hw st -> node_at st !! a = Some n ->
  n_proc n' = n_proc n -> n_ptr n' = n_ptr n -> n_refs n' = n_refs n -> n_work n' = n_work n ->
  internal_strong_refs n' = internal_strong_refs n -> local_ok hs' hw' st a n' ->
  (forall b, b <> a -> hs' b = hs b /\ hw' b = hw b) ->
  0 <= hs' a <= 1000000000 - ctx_hold st a -> 0 <= hw' a <= 1000000000 - ctx_hold st a ->
  refs_inv owner hs' hw' (put_node st a n').
Proof using.
  intros Hi Hn Ep Eptr Er Ew Ei Hloc Hother Hs Hw.
  assert (Hpo : forall b, proc_of (put_node st a n') b = proc_of st b).
  { intros b. unfold proc_of. simpl. destruct (decide (b = a)) as [->|]; [rewrite lookup_insert_eq, Hn; simpl; by rewrite Ep|].
    by rewrite lookup_insert_ne. }
  apply (refs_inv_nodes hs hw hs' hw' st); try done.
  - intros b. unfold node_key. simpl. destruct (decide (b = a)) as [->|]; [rewrite lookup_insert_eq, Hn; simpl; by rewrite Eptr|].
    by rewrite lookup_insert_ne.
  - intros b m. simpl. destruct (decide (b = a)) as [->|Hne].
    + rewrite lookup_insert_eq. intros [= <-]. destruct (iv_nodes _ _ _ _ Hi a n Hn) as [H1 H2 H3 H4 H5 H6].
      split; [done|rewrite Ep; exact H2|by rewrite Er|rewrite Er; exact H4|rewrite Ei, Er; exact H5|exact Hloc].
    + rewrite lookup_insert_ne by done. intros Hm. destruct (Hother b Hne).
      apply (node_ok_frame hs hw _ _ st); try done. by apply (iv_nodes _ _ _ _ Hi).
  - intros b. destruct (decide (b = a)) as [->|Hne].
    + split; [done|]. split; [done|]. simpl. by rewrite lookup_insert_eq.
    + destruct (Hother b Hne) as [-> ->]. simpl. rewrite lookup_insert_ne by done. apply Hi.
  - destruct (iv_lists _ _ _ _ Hi) as [H1 H2 H3 H4]. split; try done.
    + intros w h. rewrite (work_on_put_node st a n n' w Hn Ew). apply H2.
    + intros b m h. simpl. destruct (decide (b = a)) as [->|]; [|rewrite lookup_insert_ne by done; apply H3].
      rewrite lookup_insert_eq. intros [= <-]. rewrite Ew, Ep. by apply (H3 a).
Qed.

(** ** Work lists *)

(** The part of the invariant that a change of lists may not disturb. *)
Definition node_same (st st' : binder) : Prop :=
  forall a, (fun n => with_work n None) <$> node_at st' !! a = (fun n => with_work n None) <$> node_at st !! a.

Lemma node_same_inv (st st' : binder) (a : Z) (n' : binder_node) :
  node_same st st' -> node_at st' !! a = Some n' ->
  exists n, node_at st !! a = Some n /\ n' = with_work n (n_work n').
Proof using.
  clear owner. intros Hs Hn'. specialize (Hs a). rewrite Hn' in Hs.
  destruct (node_at st !! a) as [n|]; [|done]. exists n. split; [done|].
  injection Hs as ???????????. destruct n, n'. simpl in *. by subst.
Qed.

Lemma node_same_proc (st st' : binder) (a : Z) :
  node_same st st' -> proc_of st' a = proc_of st a /\ node_key st' a = node_key st a /\
    (node_at st' !! a = None <-> node_at st !! a = None).
Proof using.
  clear owner. intros Hs. specialize (Hs a). unfold proc_of, node_key.
  destruct (node_at st !! a) as [n|], (node_at st' !! a) as [n'|]; simpl in *; try done.
  injection Hs as ???????????. split; [congruence|]. split; [congruence|]. done.
Qed.

Lemma refs_inv_lists (hs hw : Z -> Z) (st st' : binder) :
  refs_inv owner hs hw st -> node_same st st' ->
  proc_at st' = proc_at st -> ref_at st' = ref_at st -> death_at st' = death_at st ->
  binder_dead_nodes st' = binder_dead_nodes st -> context_mgr_node st' = context_mgr_node st ->
  lists_ok owner st' -> refs_inv owner hs hw st'.
Proof using.
  intros Hi Hs Ep Er Ed Edead Ec Hl. apply (refs_inv_nodes hs hw hs hw st); try done.
  - intros a. by apply node_same_proc.
  - intros a. by apply node_same_proc.
  - intros a n' Hn'. destruct (node_same_inv st st' a n' Hs Hn') as (n & Hn & ->).
    destruct (node_ok_frame hs hw hs hw st st' a n (iv_nodes _ _ _ _ Hi a n Hn) Ep Er Ec eq_refl eq_refl) as [H1 H2 H3 H4 H5 H6].
    by split.
  - intros a. destruct (iv_holds _ _ _ _ Hi a) as (? & ? & H). split; [done|]. split; [done|].
    intros Hnone. apply H. by apply (node_same_proc st st' a Hs).
Qed.

Lemma node_same_put (st : binder) (a : Z) (n : binder_node) (on : option Z) :
  node_at st !! a = Some n -> node_same st (put_node st a (with_work n on)).
Proof using.
  clear owner. intros Hn b. simpl. destruct (decide (b = a)) as [->|]; [rewrite lookup_insert_eq, Hn; done|].
  by rewrite lookup_insert_ne.
Qed.

(** An entry goes on a list, or off the list it is on. *)
Definition owners_ok (st : binder) : Prop :=
  forall a n h, node_at st !! a = Some n -> n_work n = Some h ->
    n_proc n = Some (owner h) /\ forall p pr, proc_at st !! p = Some pr -> delivered_death pr <> h.

Lemma lists_ok_set (st st' : binder) (w : work) (h : Z) (l l' : list work) :
  lists_ok owner st -> proc_at st' = proc_at st -> list_at st !! h = Some l -> list_at st' = <[h := l']> (list_at st) ->
  (forall h', h' <> h -> work_on st w <> Some (Some h')) ->
  (forall w', w' <> w -> work_on st' w' = work_on st w') -> (forall w', w' <> w -> w' ∈ l' <-> w' ∈ l) ->
  NoDup l' -> (forall h', work_on st' w = Some (Some h') <-> h' = h /\ w ∈ l') ->
  owners_ok st' -> lists_ok owner st'.
Proof using.
  intros [H1 H2 H3 H4] Ep Hl El Hon Hw Hl' Hnd Hin Hown. split; [| |done|].
  - rewrite El. intros h' k. destruct (decide (h' = h)) as [->|].
    + rewrite lookup_insert_eq. by intros [= <-].
    + rewrite lookup_insert_ne by done. apply H1.
  - intros w' h'. rewrite El. destruct (decide (w' = w)) as [->|Hne].
    + rewrite Hin. destruct (decide (h' = h)) as [->|Hh].
      * rewrite lookup_insert_eq. naive_solver.
      * rewrite lookup_insert_ne by done. rewrite <- H2. split; [naive_solver|]. intros Hx. by apply Hon in Hx.
    + rewrite Hw, H2 by done. destruct (decide (h' = h)) as [->|]; [|by rewrite lookup_insert_ne].
      rewrite lookup_insert_eq, Hl. specialize (Hl' w' Hne). naive_solver.
  - intros p pr. rewrite Ep, El. intros Hpr. destruct (H4 p pr Hpr) as (Ht & Hd & ?). split; [|split; [|done]].
    + destruct (decide (todo pr = h)) as [->|]; [rewrite lookup_insert_eq; by eexists|by rewrite lookup_insert_ne].
    + destruct (decide (delivered_death pr = h)) as [->|]; [rewrite lookup_insert_eq; by eexists|by rewrite lookup_insert_ne].
Qed.

Lemma not_on_list (st : binder) (w : work) (h : Z) (l : list work) :
  lists_ok owner st -> work_on st w = Some None -> list_at st !! h = Some l -> w ∉ l.
Proof using.
  intros Hl Hw Hh Hin. assert (Hon : work_on st w = Some (Some h)) by (apply (lo_elem _ _ Hl); eauto). congruence.
Qed.

Lemma lists_ok_add (st st' : binder) (w : work) (h : Z) (l l' : list work) :
  lists_ok owner st -> proc_at st' = proc_at st -> work_on st w = Some None -> list_at st !! h = Some l ->
  list_at st' = <[h := l']> (list_at st) -> (l' = l ++ [w] \/ l' = w :: l) ->
  (forall w', w' <> w -> work_on st' w' = work_on st w') -> work_on st' w = Some (Some h) ->
  owners_ok st' -> lists_ok owner st'.
Proof using.
  intros Hl Ep Hw Hh El Hl' Ho Hw' Hown. pose proof (not_on_list st w h l Hl Hw Hh) as Hnew.
  pose proof (lo_nodup _ _ Hl h l Hh) as Hnd.
  assert (Hp : l' ≡ₚ w :: l).
  { destruct Hl' as [->| ->]; [|done]. symmetry. apply Permutation_cons_append. }
  apply (lists_ok_set st st' w h l l'); try done.
  - intros h' _. by rewrite Hw.
  - intros w' Hne. rewrite Hp, elem_of_cons. naive_solver.
  - rewrite Hp. by constructor.
  - intros h'. rewrite Hw', Hp. split; [intros [= <-]; split; [done|by left]|by intros [-> _]].
Qed.

Lemma lists_ok_del (st st' : binder) (w : work) (h : Z) (l : list work) :
  lists_ok owner st -> proc_at st' = proc_at st -> work_on st w = Some (Some h) -> list_at st !! h = Some l ->
  list_at st' = <[h := filter (fun x => x <> w) l]> (list_at st) ->
  (forall w', w' <> w -> work_on st' w' = work_on st w') -> (forall h', work_on st' w <> Some (Some h')) ->
  owners_ok st' -> lists_ok owner st'.
Proof using.
  intros Hl Ep Hw Hh El Ho Hw' Hown. apply (lists_ok_set st st' w h l (filter (fun x => x <> w) l)); try done.
  - intros h' Hne E. congruence.
  - intros w' Hne. rewrite list_elem_of_filter. tauto.
  - apply NoDup_filter. by apply (lo_nodup _ _ Hl h).
  - intros h'. rewrite list_elem_of_filter. split; [intros E; by apply Hw' in E|tauto].
Qed.

(** A node's entry is put on a list of its owner. *)
Lemma add_node_inv (hs hw : Z -> Z) (st : binder) (a h : Z) (n : binder_node) (l : list work) :
  refs_inv owner hs hw st -> node_at st !! a = Some n -> n_work n = None -> list_at st !! h = Some l ->
  n_proc n = Some (owner h) -> (forall p pr, proc_at st !! p = Some pr -> delivered_death pr <> h) ->
  let st' := put_node (put_list st h (l ++ [WorkNode a])) a (with_work n (Some h)) in
  list_add_tail st (WorkNode a) h = Some st' /\ refs_inv owner hs hw st'.
Proof using.
  intros Hi Hn Hw Hl Hp Hd st'. unfold list_add_tail. simpl. rewrite Hn. simpl. rewrite Hw.
  cbn [mbind option_bind]. rewrite Hl. cbn [mbind option_bind]. split; [done|].
  apply (refs_inv_lists hs hw st); try done; [by apply (node_same_put (put_list st h _))|].
  pose proof (iv_lists _ _ _ _ Hi) as Hlo. apply (lists_ok_add st st' (WorkNode a) h l (l ++ [WorkNode a])); try done.
  - simpl. rewrite Hn. simpl. by rewrite Hw.
  - by left.
  - intros [b|d] Hne; [|done]. simpl. by rewrite lookup_insert_ne by congruence.
  - simpl. by rewrite lookup_insert_eq.
  - intros b m h'. simpl. destruct (decide (b = a)) as [->|].
    + rewrite lookup_insert_eq. intros [= <-]. simpl. intros [= <-]. done.
    + rewrite lookup_insert_ne by done. apply (lo_owner _ _ Hlo).
Qed.

(** A node's entry is taken off the list it may be on. *)
Lemma del_node_inv (hs hw : Z -> Z) (st : binder) (a : Z) (n : binder_node) :
  refs_inv owner hs hw st -> node_at st !! a = Some n ->
  exists st', list_del_init st (WorkNode a) = Some st' /\ refs_inv owner hs hw st' /\
    node_at st' = <[a := with_work n None]> (node_at st) /\
    proc_at st' = proc_at st /\ ref_at st' = ref_at st /\ death_at st' = death_at st /\
    binder_dead_nodes st' = binder_dead_nodes st /\ context_mgr_node st' = context_mgr_node st /\
    context_mgr_uid st' = context_mgr_uid st.
Proof using.
  intros Hi Hn. unfold list_del_init. simpl. rewrite Hn. simpl. destruct (n_work n) as [h|] eqn:Hw.
  2:{ exists st. split; [done|]. split; [done|]. split; [|done]. rewrite insert_id; [done|]. rewrite Hn.
      destruct n. simpl in Hw. by subst. }
  pose proof (iv_lists _ _ _ _ Hi) as Hlo.
  assert (Hon : work_on st (WorkNode a) = Some (Some h)) by (simpl; rewrite Hn; simpl; by rewrite Hw).
  destruct (proj1 (lo_elem _ _ Hlo _ _) Hon) as (l & Hl & Hin). rewrite Hl. cbn [mbind option_bind].
  eexists. split; [done|]. split; [|done].
  apply (refs_inv_lists hs hw st); try done; [by apply (node_same_put (put_list st h _))|].
  apply (lists_ok_del st _ (WorkNode a) h l); try done.
  - intros [b|d] Hne; [|done]. simpl. by rewrite lookup_insert_ne by congruence.
  - intros h'. simpl. by rewrite lookup_insert_eq.
  - intros b m h'. simpl. destruct (decide (b = a)) as [->|].
    + rewrite lookup_insert_eq. by intros [= <-].
    + rewrite lookup_insert_ne by done. apply (lo_owner _ _ Hlo).
Qed.
(** The lists stay and so do the entries on them. *)
Definition procs_same (st st' : binder) : Prop :=
  forall p, (fun pr => (todo pr, delivered_death pr)) <$> proc_at st' !! p =
            (fun pr => (todo pr, delivered_death pr)) <$> proc_at st !! p.

Lemma procs_same_inv (st st' : binder) (p : Z) (pr' : binder_proc) :
  procs_same st st' -> proc_at st' !! p = Some pr' ->
  exists pr, proc_at st !! p = Some pr /\ todo pr' = todo pr /\ delivered_death pr' = delivered_death pr.
Proof using.
  clear owner. intros Hs Hp. specialize (Hs p). rewrite Hp in Hs. destruct (proc_at st !! p) as [pr|]; [|done].
  exists pr. injection Hs as ??. done.
Qed.

Lemma procs_same_some (st st' : binder) (p : Z) :
  procs_same st st' -> is_Some (proc_at st !! p) -> is_Some (proc_at st' !! p).
Proof using.
  clear owner. intros Hs [pr Hp]. specialize (Hs p). rewrite Hp in Hs.
  destruct (proc_at st' !! p); [by eexists|done].
Qed.

Lemma owners_ext (st st' : binder) :
  owners_ok st -> procs_same st st' ->
  (forall a n' h, node_at st' !! a = Some n' -> n_work n' = Some h ->
     exists n, node_at st !! a = Some n /\ n_work n = Some h /\ n_proc n' = n_proc n) -> owners_ok st'.
Proof using.
  intros Ho Hs Hn a n' h Ha Hw. destruct (Hn a n' h Ha Hw) as (n & Hn' & Hw' & ->).
  destruct (Ho a n h Hn' Hw') as [-> Hd]. split; [done|]. intros p pr' Hp.
  destruct (procs_same_inv st st' p pr' Hs Hp) as (pr & Hpr & _ & ->). by apply (Hd p).
Qed.

Lemma lists_ok_ext (st st' : binder) :
  lists_ok owner st -> list_at st' = list_at st -> procs_same st st' ->
  (forall w h, work_on st' w = Some (Some h) <-> work_on st w = Some (Some h)) -> owners_ok st' -> lists_ok owner st'.
Proof using.
  intros [H1 H2 H3 H4] El Hs Hw Ho. split; try done; rewrite ?El; try done.
  - intros w h. by rewrite Hw, H2.
  - intros p pr' Hp. destruct (procs_same_inv st st' p pr' Hs Hp) as (pr & Hpr & Et & Ed). rewrite Et, Ed.
    destruct (H4 p pr Hpr) as (? & ? & ? & Hd). split; [done|]. split; [done|]. split; [done|].
    intros p' pr0 Hp'. destruct (procs_same_inv st st' p' pr0 Hs Hp') as (pr1 & Hpr1 & _ & ->). by apply (Hd p').
Qed.

Definition with_nodes (pr : binder_proc) (t : tree) : binder_proc :=
  mk_proc t (refs_by_desc pr) (refs_by_node pr) (todo pr) (delivered_death pr).

Lemma procs_same_put (st : binder) (p : Z) (pr pr' : binder_proc) :
  proc_at st !! p = Some pr -> todo pr' = todo pr -> delivered_death pr' = delivered_death pr ->
  procs_same st (put_proc st p pr').
Proof using.
  clear owner. intros Hp Et Ed q. simpl. destruct (decide (q = p)) as [->|].
  - rewrite lookup_insert_eq, Hp. simpl. by rewrite Et, Ed.
  - by rewrite lookup_insert_ne.
Qed.

(** A node without references and holds leaves the store. *)
Section Drop.
Context (hs hw : Z -> Z) (st st' : binder) (a : Z) (n : binder_node).
Context (Hi : refs_inv owner hs hw st) (Hn : node_at st !! a = Some n).
Context (Hr : n_refs n = []) (Hw : n_work n = None) (Hh : hs a = 0 /\ hw a = 0) (Hc : context_mgr_node st <> Some a).
Context (En : node_at st' = delete a (node_at st)) (Er : ref_at st' = ref_at st) (Ed : death_at st' = death_at st).
Context (El : list_at st' = list_at st) (Ec : context_mgr_node st' = context_mgr_node st).
Context (Hps : procs_same st st').

Lemma drop_node_inv :
  trees_ok st' -> (NoDup (binder_dead_nodes st') /\ forall b, b ∈ binder_dead_nodes st' <-> proc_of st' b = Some None) ->
  refs_inv owner hs hw st'.
Proof using All.
  intros Ht Hdead. destruct Hi as [_ Hnodes Hholds Hrefs Hinj Hlists _ Hctx Hsize].
  assert (Hne : forall b, b <> a -> node_at st' !! b = node_at st !! b) by (intros; by rewrite En, lookup_delete_ne).
  assert (Htgt : forall r rf, ref_at st !! r = Some rf -> r_node rf <> a).
  { intros r rf Hrf E. destruct (Hnodes a n Hn) as [_ _ _ H _ _]. specialize (H r). unfold target_of in H.
    rewrite Hrf, Hr in H. simpl in H. rewrite E in H. assert (Hx : r ∈ []) by tauto. by apply not_elem_of_nil in Hx. }
  split; try done; rewrite ?Er; try done.
  - intros b m Hm. destruct (decide (b = a)) as [->|Hb]; [rewrite En, lookup_delete_eq in Hm; done|].
    rewrite Hne in Hm by done. destruct (Hnodes b m Hm) as [H1 H2 H3 H4 H5 H6]. split; try done.
    + intros p Hp. apply (procs_same_some st); [done|by apply H2].
    + unfold target_of. by rewrite Er.
    + by rewrite Er.
    + unfold local_ok, ctx_hold. by rewrite Ec.
  - unfold ctx_hold in *. rewrite Ec. intros b. destruct (Hholds b) as (? & ? & H). split; [done|]. split; [done|].
    destruct (decide (b = a)) as [->|Hb]; [done|]. by rewrite Hne.
  - intros r rf Hrf. destruct (Hrefs r rf Hrf) as [H1 H2 H3 H4 H5]. pose proof (Htgt r rf Hrf) as Hx. split; try done.
    + by rewrite Hne.
    + by apply (procs_same_some st).
    + rewrite Ed. unfold proc_of. rewrite Hne by done. exact H5.
  - apply (lists_ok_ext st); try done.
    + intros [b|d] h; [|simpl; by rewrite Ed]. simpl. destruct (decide (b = a)) as [->|]; [|by rewrite Hne].
      rewrite En, lookup_delete_eq, Hn. simpl. by rewrite Hw.
    + apply (owners_ext st); [exact (lo_owner _ _ Hlists)|done|]. intros b m h Hm Hwm.
      destruct (decide (b = a)) as [->|Hb]; [rewrite En, lookup_delete_eq in Hm; done|].
      rewrite Hne in Hm by done. by exists m.
  - rewrite Ec. intros c Hcc. destruct (Hctx c Hcc) as [p Hp]. exists p. unfold owned, proc_of in *.
    rewrite Hne; [done|congruence].
Qed.
End Drop.

Lemma local_zero (hs hw : Z -> Z) (st : binder) (a : Z) (n : binder_node) :
  refs_inv owner hs hw st -> node_at st !! a = Some n -> local_strong_refs n = 0 -> local_weak_refs n = 0 ->
  (hs a = 0 /\ hw a = 0) /\ context_mgr_node st <> Some a.
Proof using.
  intros Hi Hn Hs Hw. destruct (iv_nodes _ _ _ _ Hi a n Hn) as [_ _ _ _ _ Hl].
  destruct (iv_holds _ _ _ _ Hi a) as (H1 & H2 & _). unfold local_ok, ctx_hold in *. destruct Hl as [_ Hl]. destruct (n_proc n) as [p|] eqn:Ep.
  - unfold b2z in *. destruct (pending_strong_ref n), (pending_weak_ref n), (bool_decide_reflect (context_mgr_node st = Some a)); try lia.
    split; [lia|done].
  - split; [tauto|]. intros Hc. destruct (iv_ctx _ _ _ _ Hi a Hc) as [p Hp].
    unfold owned in Hp. rewrite (proc_of_Some st a n Hn) in Hp. congruence.
Qed.

(** The trees once the node [a] of process [p] is gone. *)
Lemma trees_drop (st st' : binder) (a p : Z) (pr : binder_proc) (t : tree) :
  trees_ok st -> proc_at st !! p = Some pr -> key_tree (node_key st) t (fun b => owned st p b /\ b <> a) ->
  (forall q, q <> p -> ~ owned st q a) ->
  node_at st' = delete a (node_at st) -> ref_at st' = ref_at st -> proc_at st' = <[p := with_nodes pr t]> (proc_at st) ->
  trees_ok st'.
Proof using.
  clear owner. intros Ht Hp Hk Hq En Er Ep q qr Hqr.
  assert (Hold : exists qr0, proc_at st !! q = Some qr0 /\ refs_by_desc qr = refs_by_desc qr0 /\ refs_by_node qr = refs_by_node qr0).
  { rewrite Ep in Hqr. destruct (decide (q = p)) as [->|].
    - rewrite lookup_insert_eq in Hqr. injection Hqr as <-. by exists pr.
    - rewrite lookup_insert_ne in Hqr by done. by exists qr. }
  destruct Hold as (qr0 & Hqr0 & -> & ->). destruct (Ht q qr0 Hqr0) as (H1 & H2 & H3). split_and!.
  - assert (Hown : forall b, owned st' q b <-> owned st q b /\ b <> a).
    { intros b. unfold owned, proc_of. rewrite En. destruct (decide (b = a)) as [->|].
      - rewrite lookup_delete_eq. naive_solver.
      - rewrite lookup_delete_ne by done. naive_solver. }
    assert (Hkey : forall b, b <> a -> node_key st' b = node_key st b).
    { intros b Hb. unfold node_key. by rewrite En, lookup_delete_ne. }
    rewrite Ep in Hqr. destruct (decide (q = p)) as [->|Hne].
    + rewrite lookup_insert_eq in Hqr. injection Hqr as <-. simpl.
      apply (key_tree_ext _ _ _ _ _ Hk); [intros b; by rewrite Hown|]. intros b [_ Hb]. auto.
    + rewrite lookup_insert_ne in Hqr by done. assert (qr = qr0) as -> by congruence.
      apply (key_tree_ext _ _ _ _ _ H1).
      * intros b. rewrite Hown. split; [|tauto]. intros Hb. split; [done|]. intros ->. by apply (Hq q Hne).
      * intros b Hb. apply Hkey. intros ->. by apply (Hq q Hne).
  - apply (key_tree_ext _ _ _ _ _ H2); [|intros r _; unfold desc_key; by rewrite Er].
    intros r. unfold refs_of. by rewrite Er.
  - apply (key_tree_ext _ _ _ _ _ H3); [|intros r _; unfold ref_node_key; by rewrite Er].
    intros r. unfold refs_of. by rewrite Er.
Qed.

(** kfree() of a node without references and holds. *)
Lemma free_node_inv (hs hw : Z -> Z) (st : binder) (a : Z) (n : binder_node) :
  refs_inv owner hs hw st -> node_at st !! a = Some n -> n_refs n = [] ->
  local_strong_refs n = 0 -> local_weak_refs n = 0 ->
  exists st', free_node st a = Some st' /\ refs_inv owner hs hw st' /\ node_at st' = delete a (node_at st) /\
    ref_at st' = ref_at st /\ death_at st' = death_at st.
Proof using.
  intros Hi Hn Hr Hs Hw. destruct (local_zero hs hw st a n Hi Hn Hs Hw) as [Hh Hc].
  unfold free_node. rewrite Hn. cbn [mbind option_bind].
  destruct (del_node_inv hs hw st a n Hi Hn) as (s1 & -> & Hi1 & En1 & Ep1 & Er1 & Ed1 & Ede1 & Ec1 & _).
  cbn [mbind option_bind]. assert (Hn1 : node_at s1 !! a = Some (with_work n None)) by by rewrite En1, lookup_insert_eq.
  assert (Hdel : delete a (node_at s1) = delete a (node_at st)) by (rewrite En1; apply delete_insert_eq).
  destruct (n_proc n) as [p|] eqn:Ep.
  - destruct (iv_nodes _ _ _ _ Hi1 a _ Hn1) as [_ Hpr _ _ _ _]. destruct (Hpr p) as [pr Hpp]; [done|].
    rewrite Hpp. cbn [mbind option_bind]. destruct (iv_trees _ _ _ _ Hi1 p pr Hpp) as (Ht & _ & _).
    assert (Hown : owned s1 p a) by (unfold owned; rewrite (proc_of_Some s1 a _ Hn1); simpl; by rewrite Ep).
    destruct (key_erase _ _ _ Ht a Hown) as (t & -> & Ht'). cbn [mbind option_bind].
    eexists. split; [done|]. split; [|by simpl].
    apply (drop_node_inv hs hw s1 _ a (with_work n None) Hi1 Hn1 Hr); try done.
    + by rewrite Ec1.
    + by apply (procs_same_put s1 p pr).
    + apply (trees_drop s1 _ a p pr t); try done; [apply Hi1|]. intros q Hq Hown'. unfold owned in *. congruence.
    + simpl. destruct (iv_dead _ _ _ _ Hi1) as [Hd1 Hd2]. split; [done|]. intros b. rewrite Hd2. unfold proc_of. simpl.
      destruct (decide (b = a)) as [->|]; [rewrite lookup_delete_eq, Hn1; simpl; rewrite Ep; done|by rewrite lookup_delete_ne].
  - eexists. split; [done|]. split; [|by simpl].
    apply (drop_node_inv hs hw s1 _ a (with_work n None) Hi1 Hn1 Hr); try done.
    + by rewrite Ec1.
    + intros p pr Hpp. destruct (iv_trees _ _ _ _ Hi1 p pr Hpp) as (H1 & H2 & H3). split_and!; [|done|done].
      assert (Hna : forall b, owned s1 p b -> b <> a).
      { intros b Hb ->. unfold owned in Hb. rewrite (proc_of_Some s1 a _ Hn1) in Hb. simpl in Hb. congruence. }
      apply (key_tree_ext _ _ _ _ _ H1).
      * intros b. unfold owned, proc_of. simpl. destruct (decide (b = a)) as [->|]; [|by rewrite lookup_delete_ne].
        rewrite lookup_delete_eq, Hn1. simpl. rewrite Ep. done.
      * intros b Hb%Hna. unfold node_key. simpl. by rewrite lookup_delete_ne.
    + simpl. destruct (iv_dead _ _ _ _ Hi1) as [Hd1 Hd2]. split; [by apply NoDup_filter|].
      intros b. rewrite elem_list_del, Hd2. unfold proc_of. simpl. destruct (decide (b = a)) as [->|].
      * rewrite lookup_delete_eq. naive_solver.
      * rewrite lookup_delete_ne by done. naive_solver.
Qed.
(** ** Decrements *)

(** The list a process is told about its nodes with. *)
Lemma todo_ok (hs hw : Z -> Z) (st : binder) (p : Z) (pr : binder_proc) :
  refs_inv owner hs hw st -> proc_at st !! p = Some pr ->
  (exists l, list_at st !! todo pr = Some l) /\ owner (todo pr) = p /\
  forall q qr, proc_at st !! q = Some qr -> delivered_death qr <> todo pr.
Proof using.
  intros Hi Hp. destruct (lo_proc _ _ (iv_lists _ _ _ _ Hi) p pr Hp) as ([l Hl] & _ & H1 & H2).
  split; [by exists l|]. done.
Qed.

(** What becomes of the node: freed, with nothing that refers to it and an
    owner that does not know it, or kept with at most its entry moved. *)
Definition node_fate (st st' : binder) (a : Z) (n : binder_node) : Prop :=
  (node_at st' = delete a (node_at st) /\ n_refs n = [] /\ local_strong_refs n = 0 /\ local_weak_refs n = 0 /\
     (n_proc n = None \/ has_strong_ref n = false /\ has_weak_ref n = false)) \/
  (exists w, node_at st' = <[a := with_work n w]> (node_at st)).

Lemma dec_last_inv (hs hw : Z -> Z) (st : binder) (a : Z) (n : binder_node) :
  refs_inv owner hs hw st -> node_at st !! a = Some n ->
  exists st', dec_last st a n = Some st' /\ refs_inv owner hs hw st' /\
    ref_at st' = ref_at st /\ death_at st' = death_at st /\ node_fate st st' a n.
Proof using.
  intros Hi Hn. unfold dec_last.
  assert (Hkeep : exists st', Some st = Some st' /\ refs_inv owner hs hw st' /\
    ref_at st' = ref_at st /\ death_at st' = death_at st /\ node_fate st st' a n).
  { exists st. split_and!; [done..|]. right. exists (n_work n). rewrite insert_id; [done|]. rewrite Hn. by destruct n. }
  assert (Hfree : n_proc n = None \/ has_strong_ref n = false /\ has_weak_ref n = false ->
    exists st', (if bool_decide (n_refs n = []) && (local_strong_refs n =? 0) && (local_weak_refs n =? 0)
                 then free_node st a else Some st) = Some st' /\ refs_inv owner hs hw st' /\
    ref_at st' = ref_at st /\ death_at st' = death_at st /\ node_fate st st' a n).
  { intros Hk. destruct (bool_decide_reflect (n_refs n = [])); [|done].
    destruct (Z.eqb_spec (local_strong_refs n) 0); [|done]. destruct (Z.eqb_spec (local_weak_refs n) 0); [|done].
    cbn [andb]. destruct (free_node_inv hs hw st a n Hi Hn) as (st' & -> & Hi' & En & Er & Ed); [done..|].
    exists st'. split_and!; try done. left. done. }
  destruct (n_proc n) as [p|] eqn:Ep; [|apply Hfree; by left].
  destruct (has_strong_ref n) eqn:Ehs; [|destruct (has_weak_ref n) eqn:Ehw]; cbn [orb].
  3: apply Hfree; by right.
  all: destruct (bool_decide_reflect (n_work n = None)) as [Hw|Hw]; [|exact Hkeep].
  all: destruct (no_proc _ _ _ _ _ (iv_nodes _ _ _ _ Hi a n Hn) p Ep) as [pr Hpr]; rewrite Hpr; cbn [mbind option_bind].
  all: destruct (todo_ok hs hw st p pr Hi Hpr) as ([l Hl] & Hown & Hdel).
  all: destruct (add_node_inv hs hw st a (todo pr) n l Hi Hn Hw Hl) as [-> Hi']; [congruence|done|].
  all: eexists; split_and!; try done; right; by exists (Some (todo pr)).
Qed.

Lemma dec_node_inv (hs hw : Z -> Z) (st : binder) (a : Z) (n : binder_node) (s i : bool) :
  node_at st !! a = Some n -> refs_inv owner hs hw (put_node st a (dec_counts n s i)) ->
  exists st', binder_dec_node st a s i = Some st' /\ refs_inv owner hs hw st' /\
    ref_at st' = ref_at st /\ death_at st' = death_at st /\
    node_fate (put_node st a (dec_counts n s i)) st' a (dec_counts n s i).
Proof using.
  intros Hn Hi. unfold binder_dec_node. rewrite Hn. cbn [mbind option_bind].
  assert (Hn' : node_at (put_node st a (dec_counts n s i)) !! a = Some (dec_counts n s i)) by (simpl; by rewrite lookup_insert_eq).
  destruct (still_counted (dec_counts n s i) s).
  - eexists. split_and!; try done. right. exists (n_work (dec_counts n s i)). rewrite insert_id; [done|].
    rewrite Hn'. by destruct (dec_counts n s i).
  - exact (dec_last_inv hs hw _ a _ Hi Hn').
Qed.
(** ** The references do not matter to the operations on nodes *)

Lemma set_refs_work_on (st : binder) (m : gmap Z binder_ref) (w : work) : work_on (set_refs st m) w = work_on st w.
Proof using. clear owner. by destruct w. Qed.

Lemma set_refs_set_work (st : binder) (m : gmap Z binder_ref) (w : work) (on : option Z) :
  set_work (set_refs st m) w on = (fun s => set_refs s m) <$> set_work st w on.
Proof using. clear owner. destruct w as [a|d]; simpl; [by destruct (node_at st !! a)|by destruct (death_at st !! d)]. Qed.

Lemma set_refs_add (st : binder) (m : gmap Z binder_ref) (w : work) (h : Z) :
  list_add_tail (set_refs st m) w h = (fun s => set_refs s m) <$> list_add_tail st w h.
Proof using.
  clear owner. unfold list_add_tail. rewrite set_refs_work_on. destruct (work_on st w) as [[|]|]; [done| |done].
  cbn [mbind option_bind]. simpl list_at. destruct (list_at st !! h) as [l|]; [|done]. cbn [mbind option_bind].
  apply (set_refs_set_work (put_list st h (l ++ [w]))).
Qed.

Lemma set_refs_del (st : binder) (m : gmap Z binder_ref) (w : work) :
  list_del_init (set_refs st m) w = (fun s => set_refs s m) <$> list_del_init st w.
Proof using.
  clear owner. unfold list_del_init. rewrite set_refs_work_on. destruct (work_on st w) as [[h|]|]; [|done..].
  cbn [mbind option_bind]. simpl list_at. destruct (list_at st !! h) as [l|]; [|done]. cbn [mbind option_bind].
  apply (set_refs_set_work (put_list st h (filter (fun x => x <> w) l))).
Qed.

Lemma set_refs_free_node (st : binder) (m : gmap Z binder_ref) (a : Z) :
  free_node (set_refs st m) a = (fun s => set_refs s m) <$> free_node st a.
Proof using.
  clear owner. unfold free_node. simpl node_at. destruct (node_at st !! a) as [n|]; [|done]. cbn [mbind option_bind].
  rewrite set_refs_del. destruct (list_del_init st (WorkNode a)) as [s|]; [|done]. simpl.
  destruct (n_proc n) as [p|]; [|done]. destruct (proc_at s !! p) as [pr|]; [|done]. simpl.
  by destruct (rb_erase a (nodes pr)).
Qed.

Lemma set_refs_dec (st : binder) (m : gmap Z binder_ref) (a : Z) (s i : bool) :
  binder_dec_node (set_refs st m) a s i = (fun s => set_refs s m) <$> binder_dec_node st a s i.
Proof using.
  clear owner. unfold binder_dec_node. simpl node_at. destruct (node_at st !! a) as [n|]; [|done]. cbn [mbind option_bind].
  change (put_node (set_refs st m) a (dec_counts n s i)) with (set_refs (put_node st a (dec_counts n s i)) m).
  destruct (still_counted (dec_counts n s i) s); [done|]. unfold dec_last. simpl proc_at.
  destruct (n_proc (dec_counts n s i)) as [p|]; repeat case_match; try done; rewrite ?set_refs_free_node; try done.
  destruct (proc_at st !! p) as [pr|]; [|done]. cbn [mbind option_bind]. by rewrite set_refs_add.
Qed.

Lemma set_refs_inc (st : binder) (m : gmap Z binder_ref) (a : Z) (s i : bool) (t : option Z) :
  binder_inc_node (set_refs st m) a s i t = (fun '(s, r) => (set_refs s m, r)) <$> binder_inc_node st a s i t.
Proof using.
  clear owner. unfold binder_inc_node. simpl node_at. destruct (node_at st !! a) as [n|]; [|done]. cbn [mbind option_bind].
  change (inc_refused (set_refs st m) a n t) with (inc_refused st a n t).
  change (put_node (set_refs st m) a (inc_counts n s i)) with (set_refs (put_node st a (inc_counts n s i)) m).
  destruct (s && i && inc_refused st a n t); [done|]. set (st1 := put_node st a (inc_counts n s i)).
  destruct s, t as [h|]; repeat case_match; try done.
  - rewrite set_refs_del. destruct (list_del_init st1 (WorkNode a)) as [s1|]; [|done]. simpl.
    rewrite set_refs_add. by destruct (list_add_tail s1 (WorkNode a) h).
  - rewrite set_refs_add. by destruct (list_add_tail st1 (WorkNode a) h).
Qed.

Lemma set_refs_free_death (st : binder) (m : gmap Z binder_ref) (d : Z) :
  free_death (set_refs st m) d = (fun s => set_refs s m) <$> free_death st d.
Proof using. clear owner. unfold free_death. rewrite set_refs_del. by destruct (list_del_init st (WorkDeath d)). Qed.

Lemma set_refs_id (st : binder) : set_refs st (ref_at st) = st.
Proof using. clear owner. by destruct st. Qed.

(** Hence a result for the store with other references is one for the store. *)
Lemma dec_node_refs (st s' : binder) (m : gmap Z binder_ref) (a : Z) (s i : bool) :
  binder_dec_node (set_refs st m) a s i = Some s' ->
  exists s0, binder_dec_node st a s i = Some s0 /\ s' = set_refs s0 m /\ ref_at s0 = ref_at st.
Proof using.
  clear owner. rewrite set_refs_dec. destruct (binder_dec_node st a s i) as [s0|] eqn:E; [|done].
  intros [= <-]. exists s0. split_and!; [done..|]. rewrite <- (set_refs_id st) in E at 1. rewrite set_refs_dec in E.
  destruct (binder_dec_node st a s i) as [s1|]; [|done]. by injection E as <-.
Qed.
(** ** Increments *)

(** A list the owner of the node reads. *)
Definition target_ok (st : binder) (n : binder_node) (target : option Z) : Prop :=
  forall h, target = Some h -> is_Some (list_at st !! h) /\ n_proc n = Some (owner h) /\
    forall p pr, proc_at st !! p = Some pr -> delivered_death pr <> h.

Lemma list_del_lists (st st' : binder) (w : work) (h : Z) :
  list_del_init st w = Some st' -> is_Some (list_at st !! h) -> is_Some (list_at st' !! h).
Proof using.
  clear owner. unfold list_del_init. destruct (work_on st w) as [[h'|]|]; [|by intros [= <-]|done]. cbn [mbind option_bind].
  destruct (list_at st !! h') as [l|] eqn:El; [|done]. cbn [mbind option_bind]. intros E Hs.
  assert (Hl : list_at st' = <[h' := filter (fun x => x <> w) l]> (list_at st)).
  { destruct w as [a|d]; simpl in E.
    - destruct (node_at st !! a); [|done]. by injection E as <-.
    - destruct (death_at st !! d); [|done]. by injection E as <-. }
  rewrite Hl. destruct (decide (h = h')) as [->|]; [rewrite lookup_insert_eq; by eexists|by rewrite lookup_insert_ne].
Qed.

Lemma inc_node_inv (hs hw : Z -> Z) (st : binder) (a : Z) (n : binder_node) (s i : bool) (target : option Z) :
  node_at st !! a = Some n -> refs_inv owner hs hw (put_node st a (inc_counts n s i)) -> target_ok st n target ->
  (s && i && inc_refused st a n target = true /\ binder_inc_node st a s i target = Some (st, - EINVAL)) \/
  (s = false /\ target = None /\ has_weak_ref n = false /\ n_work n = None /\
     binder_inc_node st a s i target = Some (put_node st a (inc_counts n s i), - EINVAL)) \/
  (exists st' w, binder_inc_node st a s i target = Some (st', 0) /\ refs_inv owner hs hw st' /\
     ref_at st' = ref_at st /\ death_at st' = death_at st /\
     node_at st' = <[a := with_work (inc_counts n s i) w]> (node_at st)).
Proof using.
  intros Hn Hi Ht. unfold binder_inc_node. rewrite Hn. cbn [mbind option_bind].
  destruct (s && i && inc_refused st a n target) eqn:Eref; [by left|]. right.
  set (n1 := inc_counts n s i) in *. set (s1 := put_node st a n1) in *.
  assert (Hn1 : node_at s1 !! a = Some n1) by (simpl; by rewrite lookup_insert_eq).
  assert (Ew : n_work n1 = n_work n /\ n_proc n1 = n_proc n) by (unfold n1, inc_counts; by destruct s, i).
  destruct Ew as [Ew Epr].
  assert (Hkeep : exists st' w, Some (s1, 0) = Some (st', 0) /\ refs_inv owner hs hw st' /\
     ref_at st' = ref_at st /\ death_at st' = death_at st /\ node_at st' = <[a := with_work n1 w]> (node_at st)).
  { exists s1, (n_work n1). split_and!; try done. simpl. f_equal. by destruct n1. }
  assert (Hadd : forall s2 h l n2, refs_inv owner hs hw s2 -> node_at s2 !! a = Some n2 -> n_work n2 = None ->
    n_proc n2 = Some (owner h) -> list_at s2 !! h = Some l ->
    (forall p pr, proc_at s2 !! p = Some pr -> delivered_death pr <> h) ->
    exists st', list_add_tail s2 (WorkNode a) h = Some st' /\ refs_inv owner hs hw st' /\
      ref_at st' = ref_at s2 /\ death_at st' = death_at s2 /\ node_at st' = <[a := with_work n2 (Some h)]> (node_at s2)).
  { intros s2 h l n2 Hi2 Hn2 Hw2 Hp2 Hl2 Hd2.
    destruct (add_node_inv hs hw s2 a h n2 l Hi2 Hn2 Hw2 Hl2 Hp2 Hd2) as [-> H]. eexists. split; [done|]. by split. }
  destruct s.
  - right. destruct target as [h|]; [|exact Hkeep]. destruct (Ht h eq_refl) as (Hl & Hp & Hd).
    destruct (has_strong_ref n); cbn [negb]; [exact Hkeep|].
    destruct (del_node_inv hs hw s1 a n1 Hi Hn1) as (s2 & E2 & Hi2 & En2 & Ep2 & Er2 & Ed2 & _). rewrite E2.
    cbn [mbind option_bind]. destruct (list_del_lists s1 s2 _ h E2 Hl) as [l Hl2].
    destruct (Hadd s2 h l (with_work n1 None)) as (s3 & -> & Hi3 & Er3 & Ed3 & En3); try done.
    + by rewrite En2, lookup_insert_eq.
    + simpl. congruence.
    + by rewrite Ep2.
    + cbn [mbind option_bind]. exists s3, (Some h). split_and!; [done|done|by rewrite Er3, Er2|by rewrite Ed3, Ed2|].
      rewrite En3, En2. simpl. by rewrite !insert_insert_eq.
  - destruct (has_weak_ref n); cbn [negb andb]; [by right|].
    destruct (bool_decide_reflect (n_work n = None)) as [Hw|]; [|by right].
    destruct target as [h|]; [|by left]. right. destruct (Ht h eq_refl) as ([l Hl] & Hp & Hd).
    destruct (Hadd s1 h l n1) as (s3 & -> & Hi3 & Er3 & Ed3 & En3);
      [exact Hi|exact Hn1|congruence|congruence|exact Hl|exact Hd|].
    cbn [mbind option_bind]. exists s3, (Some h). split_and!; try done. rewrite En3. simpl. by rewrite insert_insert_eq.
Qed.

(** ** The counts of a reference *)

Definition sone (rf : binder_ref) : Z := if strong rf =? 0 then 0 else 1.

(** The counts of [r] change and the node follows. *)
Section Counts.
Context (hs hw : Z -> Z) (st : binder) (r : Z) (rf : binder_ref) (n : binder_node) (s w : Z).
Context (Hi : refs_inv owner hs hw st) (Hr : ref_at st !! r = Some rf) (Hn : node_at st !! r_node rf = Some n).
Let rf' := with_ref_counts rf s w.
Let st' := put_node (put_ref st r rf') (r_node rf)
  (with_counts n (internal_strong_refs n - sone rf + sone rf') (local_weak_refs n) (local_strong_refs n)).

Lemma counts_view {A} (f : binder_ref -> A) (x : Z) :
  f rf' = f rf -> f <$> ref_at st' !! x = f <$> ref_at st !! x.
Proof using Hr.
  clear Hi. intros Hf. simpl. destruct (decide (x = r)) as [->|]; [rewrite lookup_insert_eq, Hr; simpl; by rewrite Hf|].
  by rewrite lookup_insert_ne.
Qed.

Lemma counts_old (x : Z) (y' : binder_ref) :
  ref_at st' !! x = Some y' -> exists y, ref_at st !! x = Some y /\ r_proc y' = r_proc y /\ r_node y' = r_node y /\
    desc y' = desc y /\ death y' = death y.
Proof using Hr.
  clear Hi. simpl. intros [[<- <-]|[_ Hx]]%lookup_insert_Some; [by exists rf|by exists y'].
Qed.

Lemma counts_proc_of (b : Z) : proc_of st' b = proc_of st b /\ node_key st' b = node_key st b.
Proof using Hn.
  clear Hi. unfold proc_of, node_key. simpl. destruct (decide (b = r_node rf)) as [->|]; [by rewrite lookup_insert_eq, Hn|].
  by rewrite lookup_insert_ne.
Qed.

Lemma counts_trees : trees_ok st'.
Proof using Hi Hr Hn.
  intros p pr Hp. destruct (iv_trees _ _ _ _ Hi p pr Hp) as (H1 & H2 & H3).
  assert (Hro : forall x, refs_of st p x <-> refs_of st' p x) by (intros x; unfold refs_of; by rewrite (counts_view r_proc)).
  split_and!.
  - apply (key_tree_ext _ _ _ _ _ H1); [|intros b _; apply counts_proc_of].
    intros b. unfold owned. by rewrite (proj1 (counts_proc_of b)).
  - apply (key_tree_ext _ _ _ _ _ H2); [exact Hro|]. intros x _. by apply (counts_view desc).
  - apply (key_tree_ext _ _ _ _ _ H3); [exact Hro|]. intros x _. by apply (counts_view r_node).
Qed.

Lemma counts_strong (l : list Z) :
  NoDup l -> strong_count (ref_at st') l = strong_count (ref_at st) l + if decide (r ∈ l) then sone rf' - sone rf else 0.
Proof using Hr.
  clear Hi. intros Hnd.
  assert (Hone : forall x, is_strong (ref_at st') x = if decide (x = r) then sone rf' else is_strong (ref_at st) x).
  { intros x. unfold is_strong. simpl. case_decide as E; [subst; by rewrite lookup_insert_eq|by rewrite lookup_insert_ne]. }
  case_decide as Hin.
  - rewrite !(strong_count_del _ l r) by done. rewrite (Hone r), decide_True by done.
    rewrite (strong_count_ext (ref_at st') (ref_at st)).
    + unfold is_strong. rewrite Hr. unfold sone. lia.
    + intros x [_ Hx]%elem_list_del. rewrite Hone. by rewrite decide_False.
  - rewrite (strong_count_ext (ref_at st') (ref_at st)); [lia|]. intros x Hx. rewrite Hone, decide_False; [done|].
    by intros ->.
Qed.

Lemma counts_node (b : Z) (m : binder_node) : node_at st' !! b = Some m -> node_ok hs hw st' b m.
Proof using Hi Hr Hn.
  assert (Htgt : forall x, target_of st' x = target_of st x) by (intros x; by apply (counts_view r_node)).
  simpl. intros [[<- <-]|[Hb Hm]]%lookup_insert_Some.
  - destruct (iv_nodes _ _ _ _ Hi _ n Hn) as [H1 H2 H3 H4 H5 H6]. split; try done; simpl.
    + intros x. rewrite Htgt. apply H4.
    + change (<[r := rf']> (ref_at st)) with (ref_at st'). rewrite counts_strong by done.
      rewrite decide_True; [rewrite H5; lia|]. apply H4. unfold target_of. by rewrite Hr.
  - destruct (iv_nodes _ _ _ _ Hi b m Hm) as [H1 H2 H3 H4 H5 H6]. split; try done.
    + intros x. rewrite Htgt. apply H4.
    + rewrite counts_strong by done. rewrite decide_False; [rewrite H5; lia|]. rewrite H4. unfold target_of. rewrite Hr. simpl. congruence.
Qed.

Lemma counts_refs (x : Z) (y' : binder_ref) :
  0 <= s < 2147483648 -> 0 <= w < 2147483648 -> ref_at st' !! x = Some y' -> ref_ok st' x y'.
Proof using Hi Hr Hn.
  intros Hs Hw Hx. destruct (counts_old x y' Hx) as (y & Hy & Ep & En & Ed & Edd).
  destruct (iv_refs _ _ _ _ Hi x y Hy) as [H1 H2 H3 H4 H5]. split.
  - rewrite En. simpl. destruct (decide (r_node y = r_node rf)) as [->|]; [rewrite lookup_insert_eq; by eexists|].
    by rewrite lookup_insert_ne.
  - by rewrite Ep.
  - simpl in Hx. apply lookup_insert_Some in Hx as [[<- <-]|[_ Hx]]; [done|]. congruence.
  - by rewrite Ed.
  - rewrite Edd, En. intros d Hd. destruct (H5 d Hd) as (dt & ? & ? & ? & H6). exists dt. split_and!; try done.
    intros p. rewrite (proj1 (counts_proc_of _)). apply H6.
Qed.

Lemma ref_counts_inv : 0 <= s < 2147483648 -> 0 <= w < 2147483648 -> refs_inv owner hs hw st'.
Proof using Hi Hr Hn.
  intros Hs Hw. pose proof Hi as [_ _ Hholds _ Hinj Hlists [Hd1 Hd2] Hctx Hsize].
  split; [apply counts_trees|apply counts_node| |intros x y'; by apply counts_refs| | | | |].
  - intros b. destruct (Hholds b) as (? & ? & H). split; [done|]. split; [done|]. simpl.
    destruct (decide (b = r_node rf)) as [->|]; [by rewrite lookup_insert_eq|by rewrite lookup_insert_ne].
  - intros x x' y y' d Hx Hx'. destruct (counts_old x y Hx) as (z & Hz & _ & _ & _ & ->).
    destruct (counts_old x' y' Hx') as (z' & Hz' & _ & _ & _ & ->). by apply (Hinj x x' z z' d).
  - apply (lists_ok_ext st); try done.
    + intros [b|d] h; [|done]. simpl. destruct (decide (b = r_node rf)) as [->|]; [by rewrite lookup_insert_eq, Hn|].
      by rewrite lookup_insert_ne.
    + apply (owners_ext st); [exact (lo_owner _ _ Hlists)|done|]. intros b m h Hm Hwm. simpl in Hm.
      apply lookup_insert_Some in Hm as [[<- <-]|[_ Hm]]; [by exists n|by exists m].
  - split; [done|]. intros b. rewrite (proj1 (counts_proc_of b)). apply Hd2.
  - intros c Hc. destruct (Hctx c Hc) as [p Hp]. exists p. unfold owned. by rewrite (proj1 (counts_proc_of c)).
  - simpl. rewrite map_size_insert_Some by (by eexists). done.
Qed.
End Counts.

(** ** Death notifications on lists *)

(** What a reference needs of its notification. *)
Definition death_ok (st : binder) (rf : binder_ref) (dt : binder_ref_death) : Prop :=
  (d_type dt = Unset \/ d_type dt = DEAD_BINDER) /\ (forall h, d_work dt = Some h -> d_type dt = DEAD_BINDER) /\
  (forall p, proc_of st (r_node rf) = Some (Some p) -> d_work dt = None).

Lemma refs_inv_deaths (hs hw : Z -> Z) (st st' : binder) :
  refs_inv owner hs hw st -> node_at st' = node_at st -> ref_at st' = ref_at st -> proc_at st' = proc_at st ->
  binder_dead_nodes st' = binder_dead_nodes st -> context_mgr_node st' = context_mgr_node st -> lists_ok owner st' ->
  (forall r rf d, ref_at st !! r = Some rf -> death rf = Some d ->
     exists dt, death_at st' !! d = Some dt /\ death_ok st rf dt) -> refs_inv owner hs hw st'.
Proof using.
  intros [Ht Hn Hh Hr Hinj Hl Hd Hc Hs] En Er Ep Ed Ec Hl' Hdt.
  assert (Hpo : forall a, proc_of st' a = proc_of st a) by (intros a; unfold proc_of; by rewrite En).
  split; rewrite ?Er, ?Ed, ?En; try done.
  - apply (trees_ext st); try done. intros a. unfold node_key. by rewrite En.
  - intros a n Hn'. by apply (node_ok_frame hs hw _ _ st); [apply Hn|..].
  - unfold ctx_hold in *. by rewrite Ec.
  - intros r rf Hrf. destruct (Hr r rf Hrf) as [H1 H2 H3 H4 H5]. split; try done; rewrite ?En, ?Ep; try done.
    intros d Hdd. destruct (Hdt r rf d Hrf Hdd) as (dt & ? & ? & ? & H6). exists dt. split_and!; try done.
    intros p. rewrite Hpo. apply H6.
  - destruct Hd as [Hd1 Hd2]. split; [done|]. intros a. rewrite Hpo. apply Hd2.
  - rewrite Ec. intros c Hcc. destruct (Hc c Hcc) as [p Hp]. exists p. unfold owned. by rewrite Hpo.
Qed.

Lemma ref_death_ok (hs hw : Z -> Z) (st : binder) (r : Z) (rf : binder_ref) (d : Z) :
  refs_inv owner hs hw st -> ref_at st !! r = Some rf -> death rf = Some d ->
  exists dt, death_at st !! d = Some dt /\ death_ok st rf dt.
Proof using.
  intros Hi Hr Hd. destruct (ro_death _ _ _ (iv_refs _ _ _ _ Hi r rf Hr) d Hd) as (dt & ? & ? & ? & ?).
  exists dt. by split.
Qed.

Lemma owners_deaths (st st' : binder) :
  lists_ok owner st -> node_at st' = node_at st -> proc_at st' = proc_at st -> owners_ok st'.
Proof using. intros Hl En Ep a n h. rewrite En, Ep. apply Hl. Qed.

(** A notification's entry is taken off the list it may be on. *)
Lemma del_death_inv (hs hw : Z -> Z) (st : binder) (d : Z) (dt : binder_ref_death) :
  refs_inv owner hs hw st -> death_at st !! d = Some dt ->
  exists st', list_del_init st (WorkDeath d) = Some st' /\ refs_inv owner hs hw st' /\
    death_at st' = <[d := with_death_work dt (d_type dt) None]> (death_at st) /\
    node_at st' = node_at st /\ proc_at st' = proc_at st /\ ref_at st' = ref_at st /\
    binder_dead_nodes st' = binder_dead_nodes st /\ context_mgr_node st' = context_mgr_node st.
Proof using.
  intros Hi Hd. unfold list_del_init. simpl. rewrite Hd. simpl. destruct (d_work dt) as [h|] eqn:Hw.
  2:{ exists st. split; [done|]. split; [done|]. split; [|done]. rewrite insert_id; [done|]. rewrite Hd.
      destruct dt. simpl in Hw. by subst. }
  pose proof (iv_lists _ _ _ _ Hi) as Hlo.
  assert (Hon : work_on st (WorkDeath d) = Some (Some h)) by (simpl; rewrite Hd; simpl; by rewrite Hw).
  destruct (proj1 (lo_elem _ _ Hlo _ _) Hon) as (l & Hl & Hin). rewrite Hl. cbn [mbind option_bind].
  eexists. split; [done|]. split; [|done]. apply (refs_inv_deaths hs hw st); try done.
  - apply (lists_ok_del st _ (WorkDeath d) h l); try done.
    + intros [b|d'] Hne; [done|]. simpl. by rewrite lookup_insert_ne by congruence.
    + intros h'. simpl. by rewrite lookup_insert_eq.
    + by apply (owners_deaths st).
  - intros r rf d' Hr Hd'. destruct (ref_death_ok hs hw st r rf d' Hi Hr Hd') as (dt' & Hdt' & Hok). simpl.
    destruct (decide (d' = d)) as [->|]; [|rewrite lookup_insert_ne by done; by exists dt'].
    rewrite lookup_insert_eq. eexists. split; [done|]. assert (dt' = dt) as -> by congruence.
    destruct Hok as (? & ? & ?). by split_and!.
Qed.

Lemma free_death_inv (hs hw : Z -> Z) (st : binder) (d : Z) (dt : binder_ref_death) :
  refs_inv owner hs hw st -> death_at st !! d = Some dt ->
  (forall r rf, ref_at st !! r = Some rf -> death rf <> Some d) ->
  exists st', free_death st d = Some st' /\ refs_inv owner hs hw st' /\ death_at st' = delete d (death_at st) /\
    node_at st' = node_at st /\ proc_at st' = proc_at st /\ ref_at st' = ref_at st.
Proof using.
  intros Hi Hd Hno. unfold free_death.
  destruct (del_death_inv hs hw st d dt Hi Hd) as (s1 & -> & Hi1 & Ed1 & En1 & Ep1 & Er1 & Ede1 & Ec1).
  cbn [mbind option_bind]. eexists. split; [done|]. split; [|simpl; rewrite Ed1, delete_insert_eq; done].
  apply (refs_inv_deaths hs hw s1); try done.
  - pose proof (iv_lists _ _ _ _ Hi1) as Hlo. apply (lists_ok_ext s1); try done; [|exact (lo_owner _ _ Hlo)].
    intros [b|d'] h; [done|]. simpl. destruct (decide (d' = d)) as [->|]; [|by rewrite lookup_delete_ne].
    rewrite lookup_delete_eq, Ed1, lookup_insert_eq. done.
  - intros r rf d' Hr Hd'. destruct (ref_death_ok hs hw s1 r rf d' Hi1 Hr Hd') as (dt' & Hdt' & Hok). exists dt'.
    split; [|done]. simpl. rewrite lookup_delete_ne; [done|]. intros <-. rewrite Er1 in Hr. by apply (Hno r rf).
Qed.

(** ** A reference that goes *)

(** The store without the reference [r] of process [p]: out of the trees [td]
    and [tn] of its process, of its node's list and of the node's count. *)
Definition strip (st : binder) (r : Z) (rf : binder_ref) (pr : binder_proc) (td tn : tree) (n : binder_node) : binder :=
  set_refs (put_node (put_proc st (r_proc rf) (mk_proc (nodes pr) td tn (todo pr) (delivered_death pr))) (r_node rf)
    (with_refs (with_counts n (internal_strong_refs n - sone rf) (local_weak_refs n) (local_strong_refs n))
       (list_del r (n_refs n)))) (delete r (ref_at st)).

Section Strip.
Context (hs hw : Z -> Z) (st : binder) (r : Z) (rf : binder_ref) (pr : binder_proc) (td tn : tree) (n : binder_node).
Context (Hi : refs_inv owner hs hw st) (Hr : ref_at st !! r = Some rf) (Hp : proc_at st !! r_proc rf = Some pr).
Context (Htd : key_tree (desc_key st) td (fun x => refs_of st (r_proc rf) x /\ x <> r)).
Context (Htn : key_tree (ref_node_key st) tn (fun x => refs_of st (r_proc rf) x /\ x <> r)).
Context (Hn : node_at st !! r_node rf = Some n).
Let st' := strip st r rf pr td tn n.

Lemma strip_proc_of (b : Z) : proc_of st' b = proc_of st b /\ node_key st' b = node_key st b.
Proof using Hn.
  unfold proc_of, node_key. simpl. destruct (decide (b = r_node rf)) as [->|]; [by rewrite lookup_insert_eq, Hn|].
  by rewrite lookup_insert_ne.
Qed.

Lemma strip_ref (x : Z) : x <> r -> ref_at st' !! x = ref_at st !! x.
Proof using. intros Hx. simpl. by rewrite lookup_delete_ne. Qed.

Lemma strip_trees : trees_ok st'.
Proof using Hi Hr Hp Htd Htn Hn.
  intros q qr Hq. assert (Hown : forall b, owned st q b <-> owned st' q b) by (intros b; unfold owned; by rewrite (proj1 (strip_proc_of b))).
  assert (Hro : forall x, refs_of st' q x <-> refs_of st q x /\ x <> r).
  { intros x. unfold refs_of. simpl. destruct (decide (x = r)) as [->|].
    - rewrite lookup_delete_eq. naive_solver.
    - rewrite lookup_delete_ne by done. naive_solver. }
  assert (Hkd : forall x, x <> r -> desc_key st' x = desc_key st x) by (intros x Hx; unfold desc_key; by rewrite strip_ref).
  assert (Hkn : forall x, x <> r -> ref_node_key st' x = ref_node_key st x) by (intros x Hx; unfold ref_node_key; by rewrite strip_ref).
  simpl in Hq. destruct (decide (q = r_proc rf)) as [->|Hne].
  - rewrite lookup_insert_eq in Hq. injection Hq as <-. simpl.
    destruct (iv_trees _ _ _ _ Hi _ pr Hp) as (H1 & _ & _). split_and!.
    + apply (key_tree_ext _ _ _ _ _ H1); [done|intros b _; apply strip_proc_of].
    + apply (key_tree_ext _ _ _ _ _ Htd); [intros x; by rewrite Hro|intros x [_ Hx]; auto].
    + apply (key_tree_ext _ _ _ _ _ Htn); [intros x; by rewrite Hro|intros x [_ Hx]; auto].
  - rewrite lookup_insert_ne in Hq by done. destruct (iv_trees _ _ _ _ Hi _ qr Hq) as (H1 & H2 & H3).
    assert (Hx : forall x, refs_of st q x -> x <> r).
    { intros x Hx ->. unfold refs_of in Hx. rewrite Hr in Hx. simpl in Hx. congruence. }
    split_and!.
    + apply (key_tree_ext _ _ _ _ _ H1); [done|intros b _; apply strip_proc_of].
    + apply (key_tree_ext _ _ _ _ _ H2); [intros x; rewrite Hro; naive_solver|intros x ?%Hx; auto].
    + apply (key_tree_ext _ _ _ _ _ H3); [intros x; rewrite Hro; naive_solver|intros x ?%Hx; auto].
Qed.

Lemma strip_procs : procs_same st st'.
Proof using Hp. by apply (procs_same_put st (r_proc rf) pr). Qed.

Lemma strip_node (b : Z) (m : binder_node) : node_at st' !! b = Some m -> node_ok hs hw st' b m.
Proof using Hi Hr Hp Hn.
  intros Hm. destruct (iv_nodes _ _ _ _ Hi _ n Hn) as [_ _ Hnd Hin Hcnt _].
  assert (Hrin : r ∈ n_refs n) by (apply Hin; unfold target_of; by rewrite Hr).
  assert (Htgt : forall x, target_of st' x = if decide (x = r) then None else target_of st x).
  { intros x. unfold target_of. simpl. case_decide as E; [subst; by rewrite lookup_delete_eq|by rewrite lookup_delete_ne]. }
  assert (Hcount : forall l, r ∉ l -> strong_count (ref_at st') l = strong_count (ref_at st) l).
  { intros l Hl. apply strong_count_ext. intros x Hx. unfold is_strong. rewrite strip_ref; [done|]. by intros ->. }
  simpl in Hm. destruct (decide (b = r_node rf)) as [->|Hb].
  - rewrite lookup_insert_eq in Hm. injection Hm as <-. destruct (iv_nodes _ _ _ _ Hi _ n Hn) as [H1 H2 _ _ _ H6].
    split; simpl; try done.
    + intros q Hq. exact (procs_same_some st st' q strip_procs (H2 q Hq)).
    + by apply NoDup_filter.
    + intros x. rewrite elem_list_del, Htgt, Hin. case_decide; naive_solver.
    + rewrite Hcount by (rewrite elem_list_del; tauto). rewrite Hcnt, (strong_count_del _ _ r) by done.
      unfold is_strong. rewrite Hr. unfold sone. lia.
  - rewrite lookup_insert_ne in Hm by done. destruct (iv_nodes _ _ _ _ Hi _ m Hm) as [H1 H2 H3 H4 H5 H6]. 
    assert (Hrm : r ∉ n_refs m) by (rewrite H4; unfold target_of; rewrite Hr; simpl; congruence).
    split; try done.
    + intros q Hq. apply (procs_same_some st); [apply strip_procs|by apply H2].
    + intros x. rewrite Htgt, H4. case_decide as E; [|done]. subst. unfold target_of. rewrite Hr. simpl. split; [congruence|done].
    + rewrite Hcount by done. exact H5.
Qed.

Lemma strip_inv : refs_inv owner hs hw st'.
Proof using Hi Hr Hp Htd Htn Hn.
  pose proof Hi as [Ht Hnodes Hholds Hrefs Hinj Hlists Hdead Hctx Hsize].
  assert (Hsub : forall x y, ref_at st' !! x = Some y -> ref_at st !! x = Some y).
  { intros x y. simpl. by intros [_ ?]%lookup_delete_Some. }
  split; [apply strip_trees|apply strip_node| | | | | | |].
  - intros b. destruct (Hholds b) as (? & ? & H). split; [done|]. split; [done|]. simpl.
    destruct (decide (b = r_node rf)) as [->|]; [by rewrite lookup_insert_eq|by rewrite lookup_insert_ne].
  - intros x y Hx%Hsub. destruct (Hrefs x y Hx) as [H1 H2 H3 H4 H5]. split; try done.
    + simpl. destruct (decide (r_node y = r_node rf)) as [->|]; [rewrite lookup_insert_eq; by eexists|by rewrite lookup_insert_ne].
    + apply (procs_same_some st); [apply strip_procs|done].
    + intros d Hd. destruct (H5 d Hd) as (dt & ? & ? & ? & H6). exists dt. split_and!; try done.
      intros q. rewrite (proj1 (strip_proc_of _)). apply H6.
  - intros x x' y y' d Hx%Hsub Hx'%Hsub. by apply (Hinj x x' y y' d).
  - apply (lists_ok_ext st); [done|done|apply strip_procs| |].
    + intros [b|d] h; [|done]. simpl. destruct (decide (b = r_node rf)) as [->|]; [by rewrite lookup_insert_eq, Hn|].
      by rewrite lookup_insert_ne.
    + apply (owners_ext st); [exact (lo_owner _ _ Hlists)|apply strip_procs|]. intros b m h Hm Hwm. simpl in Hm.
      destruct (decide (b = r_node rf)) as [->|]; [rewrite lookup_insert_eq in Hm; injection Hm as <-; by exists n|].
      rewrite lookup_insert_ne in Hm by done. by exists m.
  - destruct Hdead as [Hd1 Hd2]. split; [done|]. intros b. rewrite (proj1 (strip_proc_of b)). apply Hd2.
  - intros c Hc. destruct (Hctx c Hc) as [p Hpc]. exists p. unfold owned. by rewrite (proj1 (strip_proc_of c)).
  - simpl. rewrite map_size_delete_Some by (by eexists). lia.
Qed.
End Strip.
Lemma free_death_refs (st s' : binder) (m : gmap Z binder_ref) (d : Z) :
  free_death (set_refs st m) d = Some s' ->
  exists s0, free_death st d = Some s0 /\ s' = set_refs s0 m /\ ref_at s0 = ref_at st.
Proof using.
  clear owner. rewrite set_refs_free_death. destruct (free_death st d) as [s0|] eqn:E; [|done].
  intros [= <-]. exists s0. split_and!; [done..|]. rewrite <- (set_refs_id st) in E at 1. rewrite set_refs_free_death in E.
  destruct (free_death st d) as [s1|]; [|done]. by injection E as <-.
Qed.

Lemma strong_count_small (hs hw : Z -> Z) (st : binder) (a : Z) (n : binder_node) :
  refs_inv owner hs hw st -> node_at st !! a = Some n -> 0 <= internal_strong_refs n <= 1000000000.
Proof using.
  intros Hi Hn. destruct (iv_nodes _ _ _ _ Hi a n Hn) as [_ _ Hnd Hin Hcnt _]. rewrite Hcnt.
  pose proof (strong_count_bounds (ref_at st) (n_refs n)). pose proof (iv_size _ _ _ _ Hi).
  assert (Hlen : (length (n_refs n) <= size (ref_at st))%nat); [|lia]. apply refs_length; [done|].
  intros r Hr%Hin. unfold target_of in Hr. destruct (ref_at st !! r); [by eexists|done].
Qed.

Section Delete.
Context (hs hw : Z -> Z) (st : binder) (r : Z) (rf : binder_ref) (pr : binder_proc) (td tn : tree) (n : binder_node).
Context (Hi : refs_inv owner hs hw st) (Hr : ref_at st !! r = Some rf) (Hp : proc_at st !! r_proc rf = Some pr).
Context (Htd : key_tree (desc_key st) td (fun x => refs_of st (r_proc rf) x /\ x <> r)).
Context (Htn : key_tree (ref_node_key st) tn (fun x => refs_of st (r_proc rf) x /\ x <> r)).
Context (Hn : node_at st !! r_node rf = Some n).
Let a := r_node rf.
Let s1 := put_proc st (r_proc rf) (mk_proc (nodes pr) td tn (todo pr) (delivered_death pr)).
Let n1 := with_counts n (internal_strong_refs n - sone rf) (local_weak_refs n) (local_strong_refs n).
Let m := delete r (ref_at st).

Lemma delete_in_refs : r ∈ n_refs n.
Proof using Hi Hr Hn. apply (iv_nodes _ _ _ _ Hi _ n Hn). unfold target_of. by rewrite Hr. Qed.

Lemma delete_dec_counts : strong rf <> 0 -> dec_counts n true true = n1.
Proof using Hi Hr Hn.
  intros Hs. unfold n1, dec_counts, sone. rewrite (proj2 (Z.eqb_neq _ _)) by done.
  pose proof (strong_count_small hs hw st _ n Hi Hn). f_equal. apply s32_small.
  destruct (iv_nodes _ _ _ _ Hi _ n Hn) as [_ _ Hnd _ Hcnt _].
  rewrite (strong_count_del _ _ r Hnd delete_in_refs) in Hcnt. unfold is_strong in Hcnt. rewrite Hr in Hcnt.
  rewrite (proj2 (Z.eqb_neq _ _)) in Hcnt by done.
  pose proof (strong_count_bounds (ref_at st) (list_del r (n_refs n))). lia.
Qed.

(** The strong reference is given up; the node stays, as [r] is still on its
    list. *)
Lemma delete_strong :
  exists s2 w, (if negb (strong rf =? 0) then binder_dec_node s1 a true true else Some s1) = Some s2 /\
    node_at s2 = <[a := with_work n1 w]> (node_at st) /\ ref_at s2 = ref_at st /\ death_at s2 = death_at st /\
    refs_inv owner hs hw (set_refs (put_node s2 a (with_refs (with_work n1 w) (list_del r (n_refs n)))) m).
Proof using Hi Hr Hp Htd Htn Hn.
  pose proof (strip_inv hs hw st r rf pr td tn n Hi Hr Hp Htd Htn Hn) as Hinv.
  assert (Hid : with_work n1 (n_work n) = n1) by done.
  destruct (Z.eqb_spec (strong rf) 0) as [Hs|Hs]; cbn [negb].
  { exists s1, (n_work n). rewrite Hid. split; [done|]. split; [|done].
    rewrite insert_id; [done|]. unfold a. rewrite Hn. f_equal. unfold n1, sone. rewrite Hs. simpl. rewrite Z.sub_0_r. by destruct n. }
  unfold binder_dec_node. change (node_at s1 !! a) with (node_at st !! a). unfold a. rewrite Hn. cbn [mbind option_bind]. fold a.
  rewrite delete_dec_counts by done.
  assert (Hquiet : exists s2 w, Some (put_node s1 a n1) = Some s2 /\
    node_at s2 = <[a := with_work n1 w]> (node_at st) /\ ref_at s2 = ref_at st /\ death_at s2 = death_at st /\
    refs_inv owner hs hw (set_refs (put_node s2 a (with_refs (with_work n1 w) (list_del r (n_refs n)))) m)).
  { exists (put_node s1 a n1), (n_work n). rewrite Hid. split_and!; try done.
    unfold put_node, set_refs. simpl. rewrite insert_insert_eq. exact Hinv. }
  destruct (still_counted n1 true); [exact Hquiet|]. unfold dec_last.
  rewrite (bool_decide_eq_false_2 (n_refs n1 = [])).
  2:{ intros E. pose proof delete_in_refs as Hin. change (n_refs n1) with (n_refs n) in E. rewrite E in Hin. by apply not_elem_of_nil in Hin. }
  cbn [andb]. change (n_proc n1) with (n_proc n). destruct (n_proc n) as [p|] eqn:Ep; [|exact Hquiet].
  destruct (has_strong_ref n1 || has_weak_ref n1); [|exact Hquiet].
  destruct (bool_decide_reflect (n_work n1 = None)) as [Hw|]; [|exact Hquiet].
  set (S := strip st r rf pr td tn n) in *.
  assert (HnS : node_at S !! a = Some (with_refs n1 (list_del r (n_refs n)))) by (simpl; by rewrite lookup_insert_eq).
  destruct (no_proc _ _ _ _ _ (iv_nodes _ _ _ _ Hinv a _ HnS) p Ep) as [pr' Hpr'].
  change (proc_at (put_node s1 a n1) !! p) with (proc_at S !! p). rewrite Hpr'. cbn [mbind option_bind].
  destruct (todo_ok hs hw S p pr' Hinv Hpr') as ([l Hl] & Hown & Hdel).
  destruct (add_node_inv hs hw S a (todo pr') _ l Hinv HnS Hw Hl) as [_ Hadd]; [simpl; congruence|done|].
  unfold list_add_tail. simpl. rewrite lookup_insert_eq. simpl. change (n_work n1) with (n_work n) in Hw. rewrite Hw.
  cbn [mbind option_bind]. change (list_at S) with (list_at st) in Hl. rewrite Hl. cbn [mbind option_bind].
  eexists _, (Some (todo pr')). split; [done|]. split; [simpl; by rewrite insert_insert_eq|].
  split_and!; try done. unfold put_node, set_refs, put_list, set_nodes, set_lists in *. simpl in *.
  rewrite !insert_insert_eq in *. exact Hadd.
Qed.
End Delete.
End Ops.

End BinderRefsInv.
