(* ===== verification/BinderRefsCorrect.v ===== *)
(** The theorems on nodes, references and death notifications: what each
    operation of BinderRefs.v does and that none of them, in any order, hits a
    BUG(), corrupts a list or touches a structure that has been freed. *)

From S2P Require Import Prelude RbTree KeyTree BinderRefs BinderRefsInv.
From stdpp Require Import sorting.
Local Open Scope Z_scope.
Local Open Scope kernel_scope.

Module BinderRefsCorrect.
Import RbTree KeyTree BinderRefs BinderRefsInv.

Lemma Some_pair_inj {A B} (x x' : A) (y y' : B) : Some (x, y) = Some (x', y') -> x = x' /\ y = y'.
Proof. by intros [= -> ->]. Qed.

Section Ops.
Context (owner : Z -> Z) (hs hw : Z -> Z).

(** ** References that go *)

(** What a deletion leaves of the node: nothing, when [r] was all that
    referred to it and its owner is gone or does not know it, or the node
    without [r]. *)
Definition node_left (st st' : binder) (a r : Z) (n : binder_node) : Prop :=
  (node_at st' = delete a (node_at st) /\ n_refs n = [r] /\ local_strong_refs n = 0 /\ local_weak_refs n = 0 /\
     (n_proc n = None \/ has_strong_ref n = false /\ has_weak_ref n = false)) \/
  (exists n', node_at st' = <[a := n']> (node_at st) /\ n_refs n' = list_del r (n_refs n) /\
     n_proc n' = n_proc n /\ local_strong_refs n' = local_strong_refs n /\ local_weak_refs n' = local_weak_refs n).

Lemma list_del_nil (r : Z) (l : list Z) : NoDup l -> r ∈ l -> list_del r l = [] -> l = [r].
Proof using.
  clear. intros Hnd (l1 & l2 & ->)%list_elem_of_split. rewrite list_del_nodup by done.
  by intros [-> ->]%app_nil.
Qed.

Lemma delete_ref_inv (st : binder) (r : Z) (rf : binder_ref) (n : binder_node) :
  refs_inv owner hs hw st -> ref_at st !! r = Some rf -> node_at st !! r_node rf = Some n ->
  exists st', binder_delete_ref st r = Some st' /\ refs_inv owner hs hw st' /\ ref_at st' = delete r (ref_at st) /\
    death_at st' = match death rf with Some d => delete d (death_at st) | None => death_at st end /\
    node_left st st' (r_node rf) r n.
Proof using.
  intros Hi Hr Hn. unfold binder_delete_ref. rewrite Hr. cbn [mbind option_bind].
  destruct (ro_proc _ _ _ (iv_refs _ _ _ _ Hi r rf Hr)) as [pr Hp]. rewrite Hp. cbn [mbind option_bind].
  destruct (iv_trees _ _ _ _ Hi _ pr Hp) as (_ & H2 & H3).
  assert (Hro : refs_of st (r_proc rf) r) by (unfold refs_of; by rewrite Hr).
  destruct (key_erase _ _ _ H2 r Hro) as (td & -> & Htd). cbn [mbind option_bind].
  destruct (key_erase _ _ _ H3 r Hro) as (tn & -> & Htn). cbn [mbind option_bind].
  destruct (delete_strong owner hs hw st r rf pr td tn n Hi Hr Hp Htd Htn Hn) as (s2 & w & -> & En2 & Er2 & Ed2 & Hi2).
  cbn [mbind option_bind]. rewrite En2, lookup_insert_eq. cbn [mbind option_bind].
  set (a := r_node rf) in *. set (n1 := with_work _ w) in *. set (m := delete r (ref_at st)) in *.
  change (n_refs n1) with (n_refs n). set (n3 := with_refs n1 (list_del r (n_refs n))) in *.
  set (s3 := put_node s2 a n3) in *.
  assert (Hn3 : node_at (set_refs s3 m) !! a = Some n3) by (simpl; by rewrite lookup_insert_eq).
  assert (Hsame : put_node (set_refs s3 m) a (dec_counts n3 false true) = set_refs s3 m).
  { unfold put_node at 1, set_nodes, set_refs, s3. simpl. by rewrite insert_insert_eq. }
  destruct (dec_node_inv owner hs hw (set_refs s3 m) a n3 false true Hn3) as (s4' & E4 & Hi4 & Er4 & Ed4 & Hfate).
  { by rewrite Hsame. }
  rewrite Hsame in Hfate. change (dec_counts n3 false true) with n3 in Hfate.
  destruct (dec_node_refs s3 s4' m a false true E4) as (s4 & -> & -> & Er4'). cbn [mbind option_bind].
  assert (Hleft : node_left st (set_refs s4 m) a r n).
  { destruct Hfate as [(E & Hnil & H4 & H5 & H6)|[w' E]]; [left|right].
    - rewrite E. simpl. rewrite En2, insert_insert_eq, delete_insert_eq. split; [done|]. split; [|done].
      apply list_del_nil; [apply (iv_nodes _ _ _ _ Hi _ n Hn)|by apply (delete_in_refs owner hs hw st r rf n Hi Hr)|exact Hnil].
    - eexists. split; [rewrite E; simpl; by rewrite En2, !insert_insert_eq|]. done. }
  assert (Er : ref_at s4 = ref_at st) by (by rewrite Er4'). assert (Ed : death_at s4 = death_at st).
  { change (death_at s4) with (death_at (set_refs s4 m)). by rewrite Ed4. }
  destruct (death rf) as [d|] eqn:Hd.
  - destruct (ref_death_ok owner hs hw st r rf d Hi Hr Hd) as (dt & Hdt & _).
    destruct (free_death_inv owner hs hw (set_refs s4 m) d dt Hi4) as (s5' & E5 & Hi5 & Ed5 & En5 & _ & Er5).
    { simpl. by rewrite Ed. }
    { simpl. intros x y [Hx Hy]%lookup_delete_Some Hdy. apply Hx. by apply (iv_inj _ _ _ _ Hi r x rf y d). }
    destruct (free_death_refs s4 s5' m d E5) as (s5 & -> & -> & Er5'). cbn [mbind option_bind].
    eexists. split; [done|]. rewrite Er5', Er. fold m. split_and!; [done|done|by rewrite Ed5; simpl; rewrite Ed|].
    unfold node_left in *. by rewrite En5.
  - cbn [mbind option_bind]. eexists. split; [done|]. rewrite Er. fold m. split_and!; try done. 
Qed.

(** ** The operations on references *)

Lemma ref_node (st : binder) (r : Z) (rf : binder_ref) :
  refs_inv owner hs hw st -> ref_at st !! r = Some rf -> exists n, node_at st !! r_node rf = Some n.
Proof using. intros Hi Hr. destruct (ro_node _ _ _ (iv_refs _ _ _ _ Hi r rf Hr)) as [n Hn]. by exists n. Qed.

(** A change of the counts of [r] that leaves the node alone. *)
Lemma put_ref_inv (st : binder) (r : Z) (rf : binder_ref) (s w : Z) :
  refs_inv owner hs hw st -> ref_at st !! r = Some rf -> 0 <= s < 2147483648 -> 0 <= w < 2147483648 ->
  (s =? 0) = (strong rf =? 0) -> refs_inv owner hs hw (put_ref st r (with_ref_counts rf s w)).
Proof using.
  intros Hi Hr Hs Hw He. destruct (ref_node st r rf Hi Hr) as [n Hn].
  pose proof (ref_counts_inv owner hs hw st r rf n s w Hi Hr Hn Hs Hw) as H.
  assert (E : put_node (put_ref st r (with_ref_counts rf s w)) (r_node rf)
    (with_counts n (internal_strong_refs n - sone rf + sone (with_ref_counts rf s w)) (local_weak_refs n) (local_strong_refs n))
    = put_ref st r (with_ref_counts rf s w)).
  { unfold put_node, set_nodes. simpl. rewrite insert_id; [done|]. rewrite Hn. f_equal. unfold sone. simpl. rewrite He.
    rewrite Z.sub_add. by destruct n. }
  by rewrite E in H.
Qed.

(** The first strong count of [r] is one of the node's. *)
Lemma inc_first_strong (st : binder) (r : Z) (rf : binder_ref) (n : binder_node) (target : option Z) :
  refs_inv owner hs hw st -> ref_at st !! r = Some rf -> node_at st !! r_node rf = Some n ->
  target_ok owner st n target -> strong rf = 0 ->
  let rf' := with_ref_counts rf (strong rf + 1) (weak rf) in
  (target = None /\ binder_inc_node st (r_node rf) true true target = Some (st, - EINVAL)) \/
  exists s0 n', binder_inc_node st (r_node rf) true true target = Some (s0, 0) /\ refs_inv owner hs hw (put_ref s0 r rf') /\
    ref_at s0 = ref_at st /\ death_at s0 = death_at st /\ node_at s0 = <[r_node rf := n']> (node_at st) /\ n_refs n' = n_refs n.
Proof using.
  intros Hi Hr Hn Ht H0 rf'. destruct (ro_counts _ _ _ (iv_refs _ _ _ _ Hi r rf Hr)) as [_ Hw].
  assert (Hin1 : inc_counts n true true =
    with_counts n (internal_strong_refs n - sone rf + sone rf') (local_weak_refs n) (local_strong_refs n)).
  { unfold inc_counts. pose proof (strong_count_small owner hs hw st _ n Hi Hn). rewrite s32_small by lia.
    f_equal. unfold sone, rf'. simpl. rewrite H0. simpl. lia. }
  pose proof (ref_counts_inv owner hs hw st r rf n (strong rf + 1) (weak rf) Hi Hr Hn ltac:(lia) Hw) as HX.
  fold rf' in HX. rewrite <- Hin1 in HX.
  destruct (inc_node_inv owner hs hw (put_ref st r rf') (r_node rf) n true true target Hn HX Ht)
    as [[Href E]|[[? _]|(st' & w & E & Hi' & Er & Ed & En)]]; [left|done|right].
  - assert (Hnone : target = None).
    { cbn [andb] in Href. unfold inc_refused in Href. apply andb_true_iff in Href as [Href _].
      apply andb_true_iff in Href as [Href _]. by apply bool_decide_eq_true in Href. }
    split; [done|]. subst target. unfold binder_inc_node. rewrite Hn. cbn [mbind option_bind].
    change (inc_refused (put_ref st r rf') (r_node rf) n None) with (inc_refused st (r_node rf) n None) in Href. by rewrite Href.
  - change (put_ref st r rf') with (set_refs st (<[r := rf']> (ref_at st))) in E. rewrite set_refs_inc in E.
    destruct (binder_inc_node st (r_node rf) true true target) as [[s0 ret]|] eqn:E0; [|done].
    apply Some_pair_inj in E as [Est ->].
    assert (Er0 : ref_at s0 = ref_at st).
    { pose proof E0 as E1. rewrite <- (set_refs_id st) in E1 at 1. rewrite set_refs_inc, E0 in E1.
      apply Some_pair_inj in E1 as [E1 _]. by rewrite <- E1. }
    assert (Est' : put_ref s0 r rf' = st') by (unfold put_ref; by rewrite Er0).
    exists s0, (with_work (inc_counts n true true) w). rewrite Est'. subst st'. split_and!; done.
Qed.

(** binder_inc_ref(): refused and nothing changed, or one more. *)
Lemma inc_ref_inv (st : binder) (r : Z) (rf : binder_ref) (n : binder_node) (s : bool) (target : option Z) :
  refs_inv owner hs hw st -> ref_at st !! r = Some rf -> node_at st !! r_node rf = Some n ->
  target_ok owner st n target -> (if s then strong rf else weak rf) < 2147483647 ->
  let rf' := if s then with_ref_counts rf (strong rf + 1) (weak rf) else with_ref_counts rf (strong rf) (weak rf + 1) in
  (target = None /\ binder_inc_ref st r s target = Some (st, - EINVAL)) \/
  exists st' n', binder_inc_ref st r s target = Some (st', 0) /\ refs_inv owner hs hw st' /\
    ref_at st' = <[r := rf']> (ref_at st) /\ death_at st' = death_at st /\
    node_at st' = <[r_node rf := n']> (node_at st) /\ n_refs n' = n_refs n.
Proof using.
  intros Hi Hr Hn Ht Hmax rf'. destruct (ro_counts _ _ _ (iv_refs _ _ _ _ Hi r rf Hr)) as [Hs Hw].
  assert (Hnode : <[r_node rf := n]> (node_at st) = node_at st) by by apply insert_id.
  assert (Hput : forall s0 n', refs_inv owner hs hw (put_ref s0 r rf') -> ref_at s0 = ref_at st -> death_at s0 = death_at st ->
    node_at s0 = <[r_node rf := n']> (node_at st) -> n_refs n' = n_refs n ->
    exists st' n', Some (put_ref s0 r rf', 0) = Some (st', 0) /\ refs_inv owner hs hw st' /\
      ref_at st' = <[r := rf']> (ref_at st) /\ death_at st' = death_at st /\
      node_at st' = <[r_node rf := n']> (node_at st) /\ n_refs n' = n_refs n).
  { intros s0 n' Hi' Er Ed En Enr. exists (put_ref s0 r rf'), n'. split_and!; try done. simpl. by rewrite Er. }
  unfold binder_inc_ref. rewrite Hr. cbn [mbind option_bind]. destruct s.
  - rewrite s32_small by lia. fold rf'. destruct (Z.eqb_spec (strong rf) 0) as [H0|H0].
    + destruct (inc_first_strong st r rf n target Hi Hr Hn Ht H0) as [[Hnone ->]|(s0 & n' & -> & Hi' & Er & Ed & En & Enr)];
        cbn [mbind option_bind]; [left; by split|]. change (negb (0 =? 0)) with false. cbn iota. right. by apply (Hput s0 n').
    + right. cbn [mbind option_bind]. change (negb (0 =? 0)) with false. cbn iota. apply (Hput st n); try done.
      apply put_ref_inv; try done; [lia|]. rewrite (proj2 (Z.eqb_neq (strong rf) 0)) by done. apply Z.eqb_neq. lia.
  - rewrite s32_small by lia. fold rf'. assert (Hone : forall s0, refs_inv owner hs hw s0 -> ref_at s0 = ref_at st ->
      refs_inv owner hs hw (put_ref s0 r rf')) by (intros s0 Hi0 Er0; apply put_ref_inv; [done|by rewrite Er0|lia|lia|done]).
    destruct (Z.eqb_spec (weak rf) 0) as [H0|H0].
    + destruct (inc_node_inv owner hs hw st (r_node rf) n false true target Hn) as [[? _]|[(_ & -> & _ & _ & E)|(st' & w & E & Hi' & Er & Ed & En)]];
        [unfold put_node, set_nodes; simpl; rewrite Hnode; by destruct st|done|done| |].
      * left. rewrite E. cbn [mbind option_bind]. change (negb (- EINVAL =? 0)) with true. cbn iota. split; [done|].
        do 2 f_equal. unfold put_node, set_nodes. simpl. rewrite Hnode. by destruct st.
      * right. rewrite E. cbn [mbind option_bind]. change (negb (0 =? 0)) with false. cbn iota. apply (Hput st' (with_work n w)); auto.
    + right. cbn [mbind option_bind]. change (negb (0 =? 0)) with false. cbn iota. by apply (Hput st n); auto.
Qed.

(** What binder_dec_ref() leaves of the node: it is freed only with its last
    reference, without holds, and when its owner is gone or does not know it. *)
Definition node_kept (st st' : binder) (a r : Z) (n : binder_node) : Prop :=
  (forall b, b <> a -> node_at st' !! b = node_at st !! b) /\
  (node_at st' !! a = None -> ref_at st' !! r = None /\ n_refs n = [r] /\ local_strong_refs n = 0 /\
     local_weak_refs n = 0 /\ (n_proc n = None \/ has_strong_ref n = false /\ has_weak_ref n = false)).

Lemma node_kept_put (st st' : binder) (a r : Z) (n n' : binder_node) :
  node_at st' = <[a := n']> (node_at st) -> node_kept st st' a r n.
Proof using.
  clear owner hs hw. intros E. split; rewrite E; [intros b Hb; by rewrite lookup_insert_ne|by rewrite lookup_insert_eq].
Qed.

(** The last step: the reference is deleted when both counts are zero. *)
Lemma dec_ref_last (st s2 : binder) (r : Z) (rf' : binder_ref) (n n2 : binder_node) :
  refs_inv owner hs hw s2 -> ref_at s2 = <[r := rf']> (ref_at st) ->
  node_at s2 = <[r_node rf' := n2]> (node_at st) -> n_refs n2 = n_refs n ->
  local_strong_refs n2 = local_strong_refs n -> local_weak_refs n2 = local_weak_refs n -> n_proc n2 = n_proc n ->
  has_strong_ref n2 = has_strong_ref n -> has_weak_ref n2 = has_weak_ref n ->
  let gone := (strong rf' =? 0) && (weak rf' =? 0) in
  exists st', (if gone then st ← binder_delete_ref s2 r; Some (st, 0) else Some (s2, 0)) = Some (st', 0) /\
    refs_inv owner hs hw st' /\ ref_at st' = (if gone then delete r (ref_at st) else <[r := rf']> (ref_at st)) /\
    node_kept st st' (r_node rf') r n.
Proof using.
  intros Hi Er En E1 E2 E3 E4 E5 E6 gone. destruct gone.
  - assert (Hr2 : ref_at s2 !! r = Some rf') by (by rewrite Er, lookup_insert_eq).
    assert (Hn2 : node_at s2 !! r_node rf' = Some n2) by (by rewrite En, lookup_insert_eq).
    destruct (delete_ref_inv s2 r rf' n2 Hi Hr2 Hn2) as (st' & -> & Hi' & Er' & _ & Hleft). cbn [mbind option_bind].
    exists st'. split; [done|]. split; [done|]. split; [by rewrite Er', Er, delete_insert_eq|].
    destruct Hleft as [(E & Hnil & H1 & H2 & H3)|(n' & E & _)].
    + split.
      * intros b Hb. rewrite E, En. by rewrite lookup_delete_ne, lookup_insert_ne.
      * intros _. split; [by rewrite Er', lookup_delete_eq|]. by rewrite <- E1, <- E2, <- E3, <- E4, <- E5, <- E6.
    + apply (node_kept_put st st' _ r n n'). rewrite E, En. by rewrite insert_insert_eq.
  - exists s2. split; [done|]. split; [done|]. split; [done|]. by apply (node_kept_put st s2 _ r n n2).
Qed.

Lemma dec_ref_inv (st : binder) (r : Z) (rf : binder_ref) (n : binder_node) (s : bool) :
  refs_inv owner hs hw st -> ref_at st !! r = Some rf -> node_at st !! r_node rf = Some n ->
  let rf' := if s then with_ref_counts rf (strong rf - 1) (weak rf) else with_ref_counts rf (strong rf) (weak rf - 1) in
  let gone := (strong rf' =? 0) && (weak rf' =? 0) in
  if (if s then strong rf else weak rf) =? 0 then binder_dec_ref st r s = Some (st, - EINVAL)
  else exists st', binder_dec_ref st r s = Some (st', 0) /\ refs_inv owner hs hw st' /\
    ref_at st' = (if gone then delete r (ref_at st) else <[r := rf']> (ref_at st)) /\
    node_kept st st' (r_node rf) r n.
Proof using.
  intros Hi Hr Hn rf' gone. destruct (ro_counts _ _ _ (iv_refs _ _ _ _ Hi r rf Hr)) as [Hs Hw].
  assert (Hnode : <[r_node rf := n]> (node_at st) = node_at st) by by apply insert_id.
  unfold binder_dec_ref. rewrite Hr. cbn [mbind option_bind]. destruct s.
  - destruct (Z.eqb_spec (strong rf) 0) as [H0|H0]; [done|]. rewrite s32_small by lia. fold rf'.
    destruct (Z.eqb_spec (strong rf') 0) as [H1|H1].
    + pose proof (ref_counts_inv owner hs hw st r rf n (strong rf - 1) (weak rf) Hi Hr Hn ltac:(lia) Hw) as HX.
      fold rf' in HX.
      assert (Hdec : dec_counts n true true =
        with_counts n (internal_strong_refs n - sone rf + sone rf') (local_weak_refs n) (local_strong_refs n)).
      { rewrite (delete_dec_counts owner hs hw st r rf n Hi Hr Hn H0). f_equal. unfold sone at 3. rewrite H1. simpl. lia. }
      rewrite <- Hdec in HX.
      change (r_node rf') with (r_node rf). destruct (dec_node_inv owner hs hw (put_ref st r rf') (r_node rf) n true true Hn HX) as (s2 & -> & Hi2 & Er2 & Ed2 & Hfate).
      cbn [mbind option_bind]. destruct Hfate as [(_ & Hnil & _)|[w En2]].
      { exfalso. pose proof (delete_in_refs owner hs hw st r rf n Hi Hr Hn) as Hin. change (n_refs (dec_counts n true true)) with (n_refs n) in Hnil.
        rewrite Hnil in Hin. by apply not_elem_of_nil in Hin. }
      simpl in En2. rewrite insert_insert_eq in En2.
      destruct (dec_ref_last st s2 r rf' n (with_work (dec_counts n true true) w) Hi2 Er2 En2) as (st' & E & Hres); try done.
      rewrite (proj2 (Z.eqb_eq _ _) H1) in E, Hres. exists st'. split; [exact E|exact Hres].
    + cbn [mbind option_bind andb]. unfold gone. cbn [andb].
      exists (put_ref st r rf'). split; [done|]. split.
      * apply put_ref_inv; try done; [lia|]. rewrite (proj2 (Z.eqb_neq _ _) H0). apply Z.eqb_neq. exact H1.
      * split; [done|]. apply (node_kept_put st _ _ r n n). by rewrite Hnode.
  - destruct (Z.eqb_spec (weak rf) 0) as [H0|H0]; [done|]. rewrite s32_small by lia. fold rf'.
    apply (dec_ref_last st (put_ref st r rf') r rf' n n); try done.
    apply put_ref_inv; try done. lia.
Qed.
(** ** New references *)

(** The loop finds the smallest descriptor from [d] on that no reference of
    the rest [B] of the tree has. *)
Lemma desc_loop_spec (st : binder) (t : tree) (S : Z -> Prop) :
  key_tree (desc_key st) t S ->
  forall (B A : list Z) (fuel : nat) (d : Z),
  inorder t = A ++ B -> (length B <= fuel)%nat -> 0 <= d -> d + Z.of_nat (length B) < 4294967296 ->
  (forall x i, x ∈ B -> desc_key st x = Some i -> d - 1 <= i) ->
  exists d', desc_loop fuel st t (head B) d = Some d' /\ d <= d' <= d + Z.of_nat (length B) /\
    (forall x, x ∈ B -> desc_key st x <> Some d') /\
    (forall k, d <= k < d' -> exists x, x ∈ B /\ desc_key st x = Some k).
Proof using.
  clear owner hs hw. intros Ht. induction B as [|x B IH]; intros A fuel d Ei Hf Hd Hmax Hlow.
  { exists d. destruct fuel; simpl in *; (split; [done|]); (split; [lia|]); (split; [by intros y ?%not_elem_of_nil|lia]). }
  assert (Hin : forall y, y ∈ x :: B -> S y) by (intros y Hy; apply (kt_elem _ _ _ Ht); rewrite Ei; apply elem_of_app; by right).
  pose proof (kt_sorted _ _ _ Ht) as Hs. rewrite Ei in Hs. apply StronglySorted_app in Hs as (_ & _ & Hs).
  apply StronglySorted_cons in Hs as [Hx _]. rewrite Forall_forall in Hx.
  destruct (kt_keys _ _ _ Ht x (Hin x ltac:(by left))) as [i Hi]. simpl in Hf, Hmax.
  destruct fuel as [|fuel]; [lia|]. cbn [head hd_error desc_loop].
  unfold desc_key in Hi. destruct (ref_at st !! x) as [rf|] eqn:Hr; [|done]. simpl in Hi. injection Hi as Hi.
  assert (Hkx : desc_key st x = Some i) by (unfold desc_key; rewrite Hr; simpl; by rewrite Hi).
  cbn [mbind option_bind]. rewrite Hi. pose proof (Hlow x i ltac:(by left) Hkx) as Hxl.
  assert (Hrest : forall y j, y ∈ B -> desc_key st y = Some j -> i < j).
  { intros y j Hy Hj. destruct (Hx y Hy) as (i' & j' & ? & ? & E%Z.ltb_lt). simplify_eq. lia. }
  destruct (Z.ltb_spec d i).
  - exists d. split; [done|]. split; [simpl; lia|]. split; [|lia]. intros y [->|Hy]%elem_of_cons Hk.
    + simplify_eq. lia.
    + specialize (Hrest y d Hy Hk). lia.
  - rewrite (rb_next_spec t A B x Ei (key_tree_nodup _ _ _ Ht)). cbn [mbind option_bind].
    rewrite u32_small by lia.
    destruct (IH (A ++ [x]) fuel (i + 1)) as (d' & E & Hd' & Hfree & Hmin);
      [by rewrite <- app_assoc|lia|lia|lia|intros y j Hy Hj; specialize (Hrest y j Hy Hj); lia|].
    exists d'. split; [done|]. split; [simpl; lia|]. split.
    + intros y [->|Hy]%elem_of_cons Hk; [simplify_eq; lia|by apply (Hfree y)].
    + intros k Hk. destruct (decide (k = i)) as [->|]; [exists x; split; [by left|done]|].
      destruct (Hmin k) as (y & Hy & Hky); [lia|]. exists y. split; [by right|done].
Qed.
Section NewRef.
Context (st : binder) (p r a d : Z) (pr : binder_proc) (td tn : tree) (n : binder_node).
Context (Hi : refs_inv owner hs hw st) (Hfresh : ref_at st !! r = None) (Hp : proc_at st !! p = Some pr).
Context (Hn : node_at st !! a = Some n) (Hd : 0 <= d < 4294967296).
Context (Hsz : Z.of_nat (size (ref_at st)) < 1000000000).
Let rf := mk_ref p a d 0 0 None.
Let st' := put_node (put_ref (put_proc st p (mk_proc (nodes pr) td tn (todo pr) (delivered_death pr))) r rf) a
             (with_refs n (r :: n_refs n)).
Context (Htd : key_tree (desc_key st') td (fun x => x = r \/ refs_of st p x)).
Context (Htn : key_tree (ref_node_key st') tn (fun x => x = r \/ refs_of st p x)).

Lemma new_proc_of (b : Z) : proc_of st' b = proc_of st b /\ node_key st' b = node_key st b.
Proof using Hn.
  clear Htd Htn. unfold proc_of, node_key. simpl. destruct (decide (b = a)) as [->|]; [by rewrite lookup_insert_eq, Hn|].
  by rewrite lookup_insert_ne.
Qed.

Lemma new_ref (x : Z) : x <> r -> ref_at st' !! x = ref_at st !! x.
Proof using. clear Htd Htn. intros Hx. simpl. by rewrite lookup_insert_ne. Qed.

Lemma new_procs : procs_same st st'.
Proof using Hp. clear Htd Htn. by apply (procs_same_put st p pr). Qed.

Lemma new_trees : trees_ok st'.
Proof using Hi Hfresh Hp Hn Htd Htn.
  clear Hd Hsz. intros q qr Hq. assert (Hown : forall b, owned st q b <-> owned st' q b) by (intros b; unfold owned; by rewrite (proj1 (new_proc_of b))).
  assert (Hro : forall x, refs_of st' q x <-> (x = r /\ q = p) \/ refs_of st q x).
  { intros x. unfold refs_of. simpl. destruct (decide (x = r)) as [->|].
    - rewrite lookup_insert_eq, Hfresh. simpl. naive_solver.
    - rewrite lookup_insert_ne by done. naive_solver. }
  simpl in Hq. destruct (decide (q = p)) as [->|Hne].
  - rewrite lookup_insert_eq in Hq. injection Hq as <-. simpl.
    destruct (iv_trees _ _ _ _ Hi _ pr Hp) as (H1 & _ & _). split_and!.
    + apply (key_tree_ext _ _ _ _ _ H1); [done|intros b _; apply new_proc_of].
    + apply (key_tree_ext _ _ _ _ _ Htd); [intros x; rewrite Hro; naive_solver|done].
    + apply (key_tree_ext _ _ _ _ _ Htn); [intros x; rewrite Hro; naive_solver|done].
  - rewrite lookup_insert_ne in Hq by done. destruct (iv_trees _ _ _ _ Hi _ qr Hq) as (H1 & H2 & H3).
    assert (Hx : forall x, refs_of st q x -> x <> r).
    { intros x Hx ->. unfold refs_of in Hx. by rewrite Hfresh in Hx. }
    split_and!.
    + apply (key_tree_ext _ _ _ _ _ H1); [done|intros b _; apply new_proc_of].
    + apply (key_tree_ext _ _ _ _ _ H2); [intros x; rewrite Hro; naive_solver|].
      intros x ?%Hx. unfold desc_key. by rewrite new_ref.
    + apply (key_tree_ext _ _ _ _ _ H3); [intros x; rewrite Hro; naive_solver|].
      intros x ?%Hx. unfold ref_node_key. by rewrite new_ref.
Qed.

Lemma new_node (b : Z) (m : binder_node) : node_at st' !! b = Some m -> node_ok hs hw st' b m.
Proof using Hi Hfresh Hp Hn.
  clear Htd Htn Hd Hsz. intros Hm.
  assert (Htgt : forall x, target_of st' x = if decide (x = r) then Some a else target_of st x).
  { intros x. unfold target_of. simpl. case_decide as E; [subst; by rewrite lookup_insert_eq|by rewrite lookup_insert_ne]. }
  assert (Hnr : forall b' m', node_at st !! b' = Some m' -> r ∉ n_refs m').
  { intros b' m' Hm' Hin%(iv_nodes _ _ _ _ Hi b' m' Hm'). unfold target_of in Hin. by rewrite Hfresh in Hin. }
  assert (Hcount : forall l, r ∉ l -> strong_count (ref_at st') l = strong_count (ref_at st) l).
  { intros l Hl. apply strong_count_ext. intros x Hx. unfold is_strong. rewrite new_ref; [done|]. by intros ->. }
  simpl in Hm. destruct (decide (b = a)) as [->|Hb].
  - rewrite lookup_insert_eq in Hm. injection Hm as <-. destruct (iv_nodes _ _ _ _ Hi _ n Hn) as [H1 H2 H3 H4 H5 H6].
    pose proof (Hnr a n Hn) as Hrn. split; simpl; try done.
    + intros q Hq. exact (procs_same_some st st' q new_procs (H2 q Hq)).
    + by constructor.
    + intros x. rewrite elem_of_cons, Htgt, H4. case_decide as E; [subst; tauto|]. naive_solver.
    + unfold is_strong at 1. rewrite lookup_insert_eq. simpl. rewrite Hcount by done. exact H5.
  - rewrite lookup_insert_ne in Hm by done. destruct (iv_nodes _ _ _ _ Hi _ m Hm) as [H1 H2 H3 H4 H5 H6].
    pose proof (Hnr b m Hm) as Hrm. split; try done.
    + intros q Hq. exact (procs_same_some st st' q new_procs (H2 q Hq)).
    + intros x. rewrite Htgt, H4. case_decide as E; [|done]. subst. unfold target_of. rewrite Hfresh. simpl. split; congruence.
    + rewrite Hcount by done. exact H5.
Qed.

Lemma new_ref_inv : refs_inv owner hs hw st'.
Proof using Hi Hfresh Hp Hn Hd Hsz Htd Htn.
  pose proof Hi as [Ht Hnodes Hholds Hrefs Hinj Hlists Hdead Hctx Hsize].
  assert (Hsub : forall x y, ref_at st' !! x = Some y -> x = r /\ y = rf \/ ref_at st !! x = Some y).
  { intros x y. simpl. intros [[-> <-]|[_ ?]]%lookup_insert_Some; auto. }
  split; [apply new_trees|apply new_node| | | | | | |].
  - intros b. destruct (Hholds b) as (? & ? & H). split; [done|]. split; [done|]. simpl.
    destruct (decide (b = a)) as [->|]; [by rewrite lookup_insert_eq|by rewrite lookup_insert_ne].
  - assert (Hnode : forall b, is_Some (node_at st !! b) -> is_Some (node_at st' !! b)).
    { intros b Hb. simpl. destruct (decide (b = a)) as [->|]; [rewrite lookup_insert_eq; by eexists|by rewrite lookup_insert_ne]. }
    intros x y Hx. destruct (Hsub x y Hx) as [[-> ->]|Hx'].
    + split; simpl; [|rewrite lookup_insert_eq; by eexists|lia|done|done]. exact (Hnode a (ex_intro _ n Hn)).
    + destruct (Hrefs x y Hx') as [H1 H2 H3 H4 H5]. split; try done; [by apply Hnode|by apply (procs_same_some st st' _ new_procs)|].
      intros e He. destruct (H5 e He) as (dt & ? & ? & ? & H6). exists dt. split_and!; try done.
      intros q. rewrite (proj1 (new_proc_of _)). apply H6.
  - intros x x' y y' e Hx Hx' He He'. destruct (Hsub x y Hx) as [[-> ->]|H1]; [done|].
    destruct (Hsub x' y' Hx') as [[-> ->]|H2]; [done|]. by apply (Hinj x x' y y' e).
  - apply (lists_ok_ext owner st); [done|done|apply new_procs| |].
    + intros [b|e] h; [|done]. simpl. destruct (decide (b = a)) as [->|]; [by rewrite lookup_insert_eq, Hn|].
      by rewrite lookup_insert_ne.
    + apply (owners_ext owner st); [exact (lo_owner _ _ Hlists)|apply new_procs|]. intros b m h Hm Hwm. simpl in Hm.
      destruct (decide (b = a)) as [->|]; [rewrite lookup_insert_eq in Hm; injection Hm as <-; by exists n|].
      rewrite lookup_insert_ne in Hm by done. by exists m.
  - destruct Hdead as [Hd1 Hd2]. split; [done|]. intros b. rewrite (proj1 (new_proc_of b)). apply Hd2.
  - intros c Hc. destruct (Hctx c Hc) as [q Hq]. exists q. unfold owned. by rewrite (proj1 (new_proc_of c)).
  - simpl. rewrite map_size_insert_None by done. lia.
Qed.
End NewRef.

(** The first descriptor a reference to the node may get. *)
Definition desc_base (st : binder) (a : Z) : Z := if bool_decide (context_mgr_node st = Some a) then 0 else 1.

(** [d] is the smallest descriptor process [p] does not use. *)
Definition least_desc (st : binder) (p a d : Z) : Prop :=
  desc_base st a <= d /\ (forall x, refs_of st p x -> desc_key st x <> Some d) /\
  (forall k, desc_base st a <= k < d -> exists x, refs_of st p x /\ desc_key st x = Some k).

Lemma refs_tree_length (st : binder) (p : Z) (pr : binder_proc) :
  refs_inv owner hs hw st -> proc_at st !! p = Some pr ->
  Z.of_nat (length (inorder (refs_by_desc pr))) <= 1000000000.
Proof using.
  intros Hi Hp. destruct (iv_trees _ _ _ _ Hi p pr Hp) as (_ & H2 & _). pose proof (iv_size _ _ _ _ Hi).
  assert (Hlen : (length (inorder (refs_by_desc pr)) <= size (ref_at st))%nat); [|lia].
  apply refs_length; [by apply (key_tree_nodup _ _ _ H2)|]. intros x Hx%(kt_elem _ _ _ H2). unfold refs_of in Hx.
  destruct (ref_at st !! x); [by eexists|done].
Qed.

(** The search for a descriptor. *)
Lemma desc_search (st : binder) (p a : Z) (pr : binder_proc) :
  refs_inv owner hs hw st -> proc_at st !! p = Some pr ->
  exists d, desc_loop (length (inorder (refs_by_desc pr))) st (refs_by_desc pr) (rb_first (refs_by_desc pr)) (desc_base st a)
      = Some d /\ least_desc st p a d /\ 0 <= d < 4294967296.
Proof using.
  intros Hi Hp. destruct (iv_trees _ _ _ _ Hi p pr Hp) as (_ & H2 & _).
  pose proof (refs_tree_length st p pr Hi Hp) as Hlen.
  assert (Hbase : 0 <= desc_base st a <= 1) by (unfold desc_base; case_bool_decide; lia).
  destruct (desc_loop_spec st _ _ H2 (inorder (refs_by_desc pr)) [] (length (inorder (refs_by_desc pr))) (desc_base st a))
    as (d & E & Hd & Hfree & Hmin); [done|done|lia|lia| |].
  { intros x i Hx%(kt_elem _ _ _ H2) Hk. unfold refs_of, desc_key in *. destruct (ref_at st !! x) as [rf|] eqn:Hr; [|done].
    injection Hk as <-. destruct (ro_desc _ _ _ (iv_refs _ _ _ _ Hi x rf Hr)). lia. }
  exists d. rewrite rb_first_head. split; [done|]. split; [|lia]. split; [lia|]. split.
  - intros x Hx. apply Hfree. by apply (kt_elem _ _ _ H2).
  - intros k Hk. destruct (Hmin k Hk) as (x & Hx & Hkx). exists x. split; [by apply (kt_elem _ _ _ H2)|done].
Qed.

Lemma get_ref_for_node_inv (kz : option Z) (st : binder) (p a : Z) (pr : binder_proc) (n : binder_node) :
  refs_inv owner hs hw st -> proc_at st !! p = Some pr -> node_at st !! a = Some n ->
  (forall r, kz = Some r -> ref_at st !! r = None /\ Z.of_nat (size (ref_at st)) < 1000000000) ->
  (exists r, refs_of st p r /\ target_of st r = Some a /\ binder_get_ref_for_node kz st p a = Some (st, Some r)) \/
  ((forall r, refs_of st p r -> target_of st r <> Some a) /\
   (kz = None /\ binder_get_ref_for_node kz st p a = Some (st, None) \/
    exists r d st', kz = Some r /\ binder_get_ref_for_node kz st p a = Some (st', Some r) /\ refs_inv owner hs hw st' /\
      least_desc st p a d /\ ref_at st' = <[r := mk_ref p a d 0 0 None]> (ref_at st) /\
      node_at st' = <[a := with_refs n (r :: n_refs n)]> (node_at st) /\ context_mgr_node st' = context_mgr_node st)).
Proof using.
  intros Hi Hp Hn Hkz. unfold binder_get_ref_for_node. rewrite Hp. cbn [mbind option_bind].
  destruct (iv_trees _ _ _ _ Hi p pr Hp) as (_ & H2 & H3). change (ref_node_key st) with (target_of st) in *.
  destruct (decide (Exists (fun r => target_of st r = Some a) (inorder (refs_by_node pr)))) as [Hex|Hno].
  { left. apply Exists_exists in Hex as (r & Hr%(kt_elem _ _ _ H3) & Hk). exists r. split; [done|]. split; [done|].
    by rewrite (key_walk_found _ _ _ H3 r a Hr Hk). }
  right. assert (Hno' : forall r, refs_of st p r -> target_of st r <> Some a).
  { intros r Hr Hk. apply Hno, Exists_exists. exists r. split; [by apply (kt_elem _ _ _ H3)|done]. }
  split; [done|]. destruct (key_walk_insert _ _ _ H3 a Hno') as (path & -> & Hins). cbn [mbind option_bind].
  destruct kz as [r|]; [right|by left]. destruct (Hkz r eq_refl) as [Hfresh Hsz].
  destruct (desc_search st p a pr Hi Hp) as (d & Ed & Hleast & Hd). unfold desc_base in Ed.
  pose proof Hleast as (_ & Hfree & _).
  destruct (key_walk_insert _ _ _ H2 d Hfree) as (path' & Hw & Hins').
  assert (Hnr : ~ refs_of st p r) by (unfold refs_of; by rewrite Hfresh).
  assert (Hkr : forall x, refs_of st p x -> x <> r) by (intros x Hx ->; done).
  destruct (Hins r (fun x => if decide (x = r) then Some a else target_of st x)) as (tn & -> & Htn);
    [done|by rewrite decide_True|intros x ?%Hkr; by rewrite decide_False|].
  cbn [mbind option_bind]. rewrite Ed. cbn [mbind option_bind]. rewrite Hw. cbn [mbind option_bind].
  destruct (Hins' r (fun x => if decide (x = r) then Some d else desc_key st x)) as (td & -> & Htd);
    [done|by rewrite decide_True|intros x ?%Hkr; by rewrite decide_False|].
  cbn [mbind option_bind]. unfold add_to_node.
  rewrite (proj2 (Z.eqb_neq a 0) (no_addr _ _ _ _ _ (iv_nodes _ _ _ _ Hi a n Hn))). simpl node_at. rewrite Hn.
  cbn [mbind option_bind]. eexists r, d, _. split; [done|]. split; [done|]. split; [|done].
  apply (new_ref_inv st p r a d pr td tn n); try done.
  - apply (key_tree_ext _ _ _ _ _ Htd); [done|]. intros x _. unfold desc_key. simpl.
    destruct (decide (x = r)) as [->|]; [by rewrite lookup_insert_eq|by rewrite lookup_insert_ne].
  - apply (key_tree_ext _ _ _ _ _ Htn); [done|]. intros x _. unfold ref_node_key. simpl.
    destruct (decide (x = r)) as [->|]; [by rewrite lookup_insert_eq|by rewrite lookup_insert_ne].
Qed.
(** ** Lookups *)

Lemma get_ref_spec (st : binder) (p d : Z) (pr : binder_proc) :
  refs_inv owner hs hw st -> proc_at st !! p = Some pr ->
  (exists r rf, binder_get_ref st p d = Some (Some r) /\ ref_at st !! r = Some rf /\ r_proc rf = p /\ desc rf = d) \/
  (binder_get_ref st p d = Some None /\ forall r rf, ref_at st !! r = Some rf -> r_proc rf = p -> desc rf <> d).
Proof using.
  intros Hi Hp. unfold binder_get_ref. rewrite Hp. cbn [mbind option_bind].
  destruct (iv_trees _ _ _ _ Hi p pr Hp) as (_ & H2 & _).
  destruct (decide (Exists (fun r => desc_key st r = Some d) (inorder (refs_by_desc pr)))) as [Hex|Hno].
  - left. apply Exists_exists in Hex as (r & Hr%(kt_elem _ _ _ H2) & Hk). rewrite (key_walk_found _ _ _ H2 r d Hr Hk).
    unfold refs_of, desc_key in *. destruct (ref_at st !! r) as [rf|] eqn:E; [|done]. simpl in Hr, Hk. exists r, rf.
    split_and!; [done|done|congruence|congruence].
  - right. assert (Hn : forall r rf, ref_at st !! r = Some rf -> r_proc rf = p -> desc rf <> d).
    { intros r rf Hr Hrp Hd. apply Hno, Exists_exists. exists r. split; [apply (kt_elem _ _ _ H2); unfold refs_of|unfold desc_key];
        rewrite Hr; simpl; congruence. }
    split; [|done]. destruct (key_walk_insert _ _ _ H2 d) as (path & -> & _); [|done].
    unfold refs_of, desc_key. intros r Hr. destruct (ref_at st !! r) as [rf|] eqn:E; [|done]. simpl in *.
    injection Hr as Hr. specialize (Hn r rf E Hr). congruence.
Qed.

Lemma node_walk (st : binder) (p ptr : Z) (pr : binder_proc) :
  refs_inv owner hs hw st -> proc_at st !! p = Some pr ->
  (exists a n, rb_walk (key_go (node_key st) ptr) (nodes pr) [] = Some (inr a) /\ node_at st !! a = Some n /\
     n_proc n = Some p /\ n_ptr n = ptr) \/
  (forall a n, node_at st !! a = Some n -> n_proc n = Some p -> n_ptr n <> ptr).
Proof using.
  intros Hi Hp. destruct (iv_trees _ _ _ _ Hi p pr Hp) as (H1 & _ & _).
  destruct (decide (Exists (fun a => node_key st a = Some ptr) (inorder (nodes pr)))) as [Hex|Hno]; [left|right].
  - apply Exists_exists in Hex as (a & Ha%(kt_elem _ _ _ H1) & Hk). rewrite (key_walk_found _ _ _ H1 a ptr Ha Hk).
    unfold owned, proc_of, node_key in *. destruct (node_at st !! a) as [n|] eqn:E; [|done]. simpl in Ha, Hk. exists a, n.
    split_and!; [done|done|congruence|congruence].
  - intros a n Hn Hnp Hptr. apply Hno, Exists_exists. exists a.
    split; [apply (kt_elem _ _ _ H1); unfold owned, proc_of|unfold node_key]; rewrite Hn; simpl; congruence.
Qed.

Lemma node_walk_insert (st : binder) (p ptr : Z) (pr : binder_proc) :
  refs_inv owner hs hw st -> proc_at st !! p = Some pr ->
  (forall a n, node_at st !! a = Some n -> n_proc n = Some p -> n_ptr n <> ptr) ->
  exists path, rb_walk (key_go (node_key st) ptr) (nodes pr) [] = Some (inl path) /\
    forall a key', node_at st !! a = None -> key' a = Some ptr -> (forall x, x <> a -> key' x = node_key st x) ->
      exists t, rb_insert_color path (rb_link_node a) = Some t /\ key_tree key' t (fun x => x = a \/ owned st p x).
Proof using.
  intros Hi Hp Hno. destruct (iv_trees _ _ _ _ Hi p pr Hp) as (H1 & _ & _).
  destruct (key_walk_insert _ _ _ H1 ptr) as (path & E & Hins).
  { unfold owned, proc_of, node_key. intros a Ha. destruct (node_at st !! a) as [n|] eqn:E; [|done]. simpl in *.
    injection Ha as Ha. specialize (Hno a n E Ha). congruence. }
  exists path. split; [done|]. intros a key' Ha Hk Hk'.
  assert (Hna : ~ owned st p a) by (unfold owned, proc_of; by rewrite Ha).
  apply (Hins a key' Hna Hk). intros x Hx. apply Hk'. by intros ->.
Qed.

Lemma get_node_spec (st : binder) (p ptr : Z) (pr : binder_proc) :
  refs_inv owner hs hw st -> proc_at st !! p = Some pr ->
  (exists a n, binder_get_node st p ptr = Some (Some a) /\ node_at st !! a = Some n /\ n_proc n = Some p /\ n_ptr n = ptr) \/
  (binder_get_node st p ptr = Some None /\ forall a n, node_at st !! a = Some n -> n_proc n = Some p -> n_ptr n <> ptr).
Proof using.
  intros Hi Hp. unfold binder_get_node. rewrite Hp. cbn [mbind option_bind].
  destruct (node_walk st p ptr pr Hi Hp) as [(a & n & -> & ? & ? & ?)|Hno]; [left; by exists a, n|right].
  split; [|done]. by destruct (node_walk_insert st p ptr pr Hi Hp Hno) as (path & -> & _).
Qed.

(** ** New nodes *)

Section NewNode.
Context (st : binder) (p a ptr cookie : Z) (pr : binder_proc) (t : tree).
Context (Hi : refs_inv owner hs hw st) (Hfresh : node_at st !! a = None) (Ha : a <> 0) (Hp : proc_at st !! p = Some pr).
Let n := mk_node (Some p) [] 0 0 0 ptr cookie false false false false None.
Let st' := put_node (put_proc st p (with_nodes pr t)) a n.
Context (Ht : key_tree (node_key st') t (fun x => x = a \/ owned st p x)).

Lemma fresh_node_ne (b : Z) : b <> a -> node_at st' !! b = node_at st !! b.
Proof using. clear Ht. intros Hb. simpl. by rewrite lookup_insert_ne. Qed.

Lemma fresh_node_proc_of (b : Z) : b <> a -> proc_of st' b = proc_of st b /\ node_key st' b = node_key st b.
Proof using. clear Ht. intros Hb. unfold proc_of, node_key. by rewrite fresh_node_ne. Qed.

Lemma fresh_node_procs : procs_same st st'.
Proof using Hp. clear Ht. by apply (procs_same_put st p pr). Qed.

Lemma fresh_node_target (r : Z) (rf : binder_ref) : ref_at st !! r = Some rf -> r_node rf <> a.
Proof using Hi Hfresh. clear Ht. intros Hr Hx. destruct (ref_node st r rf Hi Hr) as [m Hm]. congruence. Qed.

Lemma fresh_node_trees : trees_ok st'.
Proof using Hi Hfresh Hp Ht.
  intros q qr Hq.
  assert (Hown : forall b, owned st' q b <-> (b = a /\ q = p) \/ owned st q b).
  { intros b. unfold owned, proc_of. simpl. destruct (decide (b = a)) as [->|].
    - rewrite lookup_insert_eq, Hfresh. simpl. split; [intros [= ->]; auto|]. intros [[_ ->]|[=]]. done.
    - rewrite lookup_insert_ne by done. split; [auto|]. intros [[? _]|?]; done. }
  simpl in Hq. destruct (decide (q = p)) as [->|Hne].
  - rewrite lookup_insert_eq in Hq. injection Hq as <-. destruct (iv_trees _ _ _ _ Hi _ pr Hp) as (_ & H2 & H3).
    split_and!; [|done|done]. apply (key_tree_ext _ _ _ _ _ Ht); [|done]. intros b. rewrite Hown.
    split; [intros [->|?]; auto|]. intros [[-> _]|?]; auto.
  - rewrite lookup_insert_ne in Hq by done. destruct (iv_trees _ _ _ _ Hi _ qr Hq) as (H1 & H2 & H3).
    split_and!; [|done|done]. apply (key_tree_ext _ _ _ _ _ H1).
    + intros b. rewrite Hown. split; [auto|]. intros [[_ ?]|?]; done.
    + intros b Hb. apply fresh_node_proc_of. intros ->. unfold owned, proc_of in Hb. by rewrite Hfresh in Hb.
Qed.

Lemma fresh_node_ctx : context_mgr_node st <> Some a.
Proof using Hi Hfresh.
  clear Ht. intros Hc. destruct (iv_ctx _ _ _ _ Hi a Hc) as [q Hq]. unfold owned, proc_of in Hq. by rewrite Hfresh in Hq.
Qed.

Lemma new_node_inv : refs_inv owner hs hw st'.
Proof using Hi Hfresh Ha Hp Ht.
  pose proof Hi as [_ Hnodes Hholds Hrefs Hinj Hlists Hdead Hctx Hsize].
  split; [apply fresh_node_trees| | | |done| | | |done].
  - intros b m Hm. destruct (decide (b = a)) as [->|Hb].
    + simpl in Hm. rewrite lookup_insert_eq in Hm. injection Hm as <-. split; simpl; try done.
      * intros q [= <-]. rewrite lookup_insert_eq. by eexists.
      * constructor.
      * intros r. split; [by intros ?%not_elem_of_nil|]. unfold target_of. simpl. intros Hr.
        destruct (ref_at st !! r) as [rf|] eqn:E; [|done]. injection Hr as Hr. by destruct (fresh_node_target r rf E).
      * unfold local_ok, ctx_hold. simpl. rewrite bool_decide_eq_false_2 by apply fresh_node_ctx.
        destruct (Hholds a) as (_ & _ & H). destruct (H Hfresh) as [-> ->]. done.
    + rewrite fresh_node_ne in Hm by done. destruct (Hnodes b m Hm) as [H1 H2 H3 H4 H5 H6]. split; try done.
      intros q Hq. exact (procs_same_some st st' q fresh_node_procs (H2 q Hq)).
  - intros b. destruct (Hholds b) as (? & ? & H). split; [done|]. split; [done|]. destruct (decide (b = a)) as [->|Hb].
    + simpl. by rewrite lookup_insert_eq.
    + by rewrite fresh_node_ne.
  - intros x y Hx. pose proof (fresh_node_target x y Hx) as Hne. destruct (Hrefs x y Hx) as [H1 H2 H3 H4 H5].
    split; try done; [by rewrite fresh_node_ne|by apply (procs_same_some st st' _ fresh_node_procs)|].
    intros e He. destruct (H5 e He) as (dt & ? & ? & ? & H6). exists dt. split_and!; try done.
    intros q. rewrite (proj1 (fresh_node_proc_of _ Hne)). apply H6.
  - apply (lists_ok_ext owner st); [done|done|apply fresh_node_procs| |].
    + intros [b|e] h; [|done]. simpl. destruct (decide (b = a)) as [->|]; [by rewrite lookup_insert_eq, Hfresh|].
      by rewrite lookup_insert_ne.
    + apply (owners_ext owner st); [exact (lo_owner _ _ Hlists)|apply fresh_node_procs|]. intros b m h Hm Hwm. simpl in Hm.
      destruct (decide (b = a)) as [->|]; [rewrite lookup_insert_eq in Hm; by injection Hm as <-|].
      rewrite lookup_insert_ne in Hm by done. by exists m.
  - destruct Hdead as [Hd1 Hd2]. split; [done|]. intros b. change (binder_dead_nodes st') with (binder_dead_nodes st).
    rewrite Hd2. destruct (decide (b = a)) as [->|Hb].
    + unfold proc_of. simpl. by rewrite lookup_insert_eq, Hfresh.
    + by rewrite (proj1 (fresh_node_proc_of b Hb)).
  - intros c Hc. destruct (Hctx c Hc) as [q Hq]. exists q. assert (Hca : c <> a) by (intros ->; by apply fresh_node_ctx).
    unfold owned. rewrite (proj1 (fresh_node_proc_of c Hca)). exact Hq.
Qed.
End NewNode.

(** binder_new_node(): a node of the process with the pointer exists, there is
    no memory, or the new node joins the tree. *)
Lemma new_node_spec (kz : option Z) (st : binder) (p ptr cookie : Z) (pr : binder_proc) :
  refs_inv owner hs hw st -> proc_at st !! p = Some pr -> (forall a, kz = Some a -> node_at st !! a = None /\ a <> 0) ->
  (binder_new_node kz st p ptr cookie = Some (st, None) /\
     (kz = None \/ exists a n, node_at st !! a = Some n /\ n_proc n = Some p /\ n_ptr n = ptr)) \/
  (exists a st', kz = Some a /\ binder_new_node kz st p ptr cookie = Some (st', Some a) /\ refs_inv owner hs hw st' /\
     (forall b n, node_at st !! b = Some n -> n_proc n = Some p -> n_ptr n <> ptr) /\
     node_at st' = <[a := mk_node (Some p) [] 0 0 0 ptr cookie false false false false None]> (node_at st) /\
     ref_at st' = ref_at st /\ context_mgr_node st' = context_mgr_node st).
Proof using.
  intros Hi Hp Hkz. unfold binder_new_node. rewrite Hp. cbn [mbind option_bind].
  destruct (node_walk st p ptr pr Hi Hp) as [(a & n & -> & H)|Hno]; [left; split; [done|right; by exists a, n]|].
  destruct (node_walk_insert st p ptr pr Hi Hp Hno) as (path & -> & Hins). cbn [mbind option_bind].
  destruct kz as [a|]; [right|left; by split; [|left]]. destruct (Hkz a eq_refl) as [Hfresh Ha].
  set (n := mk_node _ _ _ _ _ _ _ _ _ _ _ _).
  destruct (Hins a (fun x => if decide (x = a) then Some ptr else node_key st x)) as (t & -> & Ht);
    [done|by rewrite decide_True|intros x Hx; by rewrite decide_False|].
  cbn [mbind option_bind]. eexists a, _. split; [done|]. split; [done|]. split; [|done].
  apply (new_node_inv st p a ptr cookie pr t Hi Hfresh Ha Hp). apply (key_tree_ext _ _ _ _ _ Ht); [done|].
  intros x _. unfold node_key. simpl. destruct (decide (x = a)) as [->|]; [by rewrite lookup_insert_eq|by rewrite lookup_insert_ne].
Qed.
End Ops.

End BinderRefsCorrect.
