(* ===== verification/BinderRefsSafe.v ===== *)
(** The commands of binder processes on nodes, references and death
    notifications: what each of them does, and that none of them, in any
    order, hits a BUG(), corrupts a list or touches a structure that has been
    freed. *)

From S2P Require Import Prelude RbTree KeyTree BinderRefs BinderRefsInv BinderRefsCorrect.
Local Open Scope Z_scope.
Local Open Scope kernel_scope.

Module BinderRefsSafe.
Import RbTree KeyTree BinderRefs BinderRefsInv BinderRefsCorrect.

Section Cmds.
Context (owner : Z -> Z).

(** ** Holds on a node *)

Lemma put_node_twice (st : binder) (a : Z) (n n' : binder_node) : put_node (put_node st a n) a n' = put_node st a n'.
Proof using. clear owner. unfold put_node, set_nodes. simpl. by rewrite insert_insert_eq. Qed.

Lemma put_node_id (st : binder) (a : Z) (n : binder_node) : node_at st !! a = Some n -> put_node st a n = st.
Proof using. clear owner. intros Hn. unfold put_node, set_nodes. rewrite insert_id by done. by destruct st. Qed.

Lemma local_small (hs hw : Z -> Z) (st : binder) (a : Z) (n : binder_node) :
  refs_inv owner hs hw st -> node_at st !! a = Some n ->
  0 <= local_strong_refs n <= 1000000001 /\ 0 <= local_weak_refs n <= 1000000001.
Proof using.
  intros Hi Hn. destruct (iv_nodes _ _ _ _ Hi a n Hn) as [_ _ _ _ _ [_ Hl]]. destruct (iv_holds _ _ _ _ Hi a) as (H1 & H2 & _).
  unfold ctx_hold, b2z in *. destruct (n_proc n); [|lia].
  destruct (pending_strong_ref n), (pending_weak_ref n), (bool_decide _); lia.
Qed.

(** The function [h] with [k] more at [a]. *)
Definition hold (h : Z -> Z) (a k : Z) : Z -> Z := fun b => if decide (b = a) then h b + k else h b.

Lemma hold_eq (h : Z -> Z) (a k : Z) : hold h a k a = h a + k.
Proof using. clear owner. unfold hold. by rewrite decide_True. Qed.

Lemma hold_ne (h : Z -> Z) (a k b : Z) : b <> a -> hold h a k b = h b.
Proof using. clear owner. unfold hold. intros. by rewrite decide_False. Qed.

Lemma hold_inc_inv (hs hw : Z -> Z) (st : binder) (a p : Z) (n : binder_node) (s : bool) :
  refs_inv owner hs hw st -> node_at st !! a = Some n -> n_proc n = Some p ->
  (if s then hs a else hw a) + ctx_hold st a < 1000000000 ->
  refs_inv owner (if s then hold hs a 1 else hs) (if s then hw else hold hw a 1) (put_node st a (inc_counts n s false)).
Proof using.
  intros Hi Hn Hp Hmax. destruct (local_small hs hw st a n Hi Hn) as [Hs Hw].
  destruct (iv_nodes _ _ _ _ Hi a n Hn) as [_ _ _ _ _ [Hf Hl]]. rewrite Hp in Hl.
  destruct (iv_holds _ _ _ _ Hi a) as (H1 & H2 & _).
  apply (put_node_inv owner hs hw _ _ st a n); try done; try (by destruct s).
  - split; [by destruct s|]. destruct s; simpl; rewrite Hp, hold_eq, s32_small by lia; lia.
  - intros b Hb. destruct s; by rewrite hold_ne.
  - destruct s; [rewrite hold_eq|]; lia.
  - destruct s; [|rewrite hold_eq]; lia.
Qed.

Lemma hold_dec_inv (hs hw : Z -> Z) (st : binder) (a p : Z) (n : binder_node) (s : bool) :
  refs_inv owner hs hw st -> node_at st !! a = Some n -> n_proc n = Some p -> 0 < (if s then hs a else hw a) ->
  refs_inv owner (if s then hold hs a (-1) else hs) (if s then hw else hold hw a (-1))
    (put_node st a (dec_counts n s false)).
Proof using.
  intros Hi Hn Hp Hpos. destruct (local_small hs hw st a n Hi Hn) as [Hs Hw].
  destruct (iv_nodes _ _ _ _ Hi a n Hn) as [_ _ _ _ _ [Hf Hl]]. rewrite Hp in Hl.
  destruct (iv_holds _ _ _ _ Hi a) as (H1 & H2 & _).
  apply (put_node_inv owner hs hw _ _ st a n); try done; try (by destruct s).
  - split; [by destruct s|]. destruct s; simpl; rewrite Hp, hold_eq, s32_small by lia; lia.
  - intros b Hb. destruct s; by rewrite hold_ne.
  - destruct s; [rewrite hold_eq|]; lia.
  - destruct s; [|rewrite hold_eq]; lia.
Qed.

(** binder_inc_node() and binder_dec_node() for a transaction: the hold is
    counted also when -EINVAL is returned, which the callers ignore. *)
Lemma hold_node_inv (hs hw : Z -> Z) (st : binder) (a p : Z) (n : binder_node) (s : bool) (target : option Z) :
  refs_inv owner hs hw st -> node_at st !! a = Some n -> n_proc n = Some p -> target_ok owner st n target ->
  (if s then hs a else hw a) + ctx_hold st a < 1000000000 ->
  exists st' ret, binder_inc_node st a s false target = Some (st', ret) /\
    refs_inv owner (if s then hold hs a 1 else hs) (if s then hw else hold hw a 1) st'.
Proof using.
  intros Hi Hn Hp Ht Hmax. pose proof (hold_inc_inv hs hw st a p n s Hi Hn Hp Hmax) as HX.
  destruct (inc_node_inv owner _ _ st a n s false target Hn HX Ht) as [[H _]|[(_ & _ & _ & _ & E)|(st' & w & E & Hi' & _)]].
  - by rewrite andb_false_r in H.
  - by eexists _, _.
  - by eexists _, _.
Qed.

Lemma unhold_node_inv (hs hw : Z -> Z) (st : binder) (a p : Z) (n : binder_node) (s : bool) :
  refs_inv owner hs hw st -> node_at st !! a = Some n -> n_proc n = Some p -> 0 < (if s then hs a else hw a) ->
  exists st', binder_dec_node st a s false = Some st' /\
    refs_inv owner (if s then hold hs a (-1) else hs) (if s then hw else hold hw a (-1)) st'.
Proof using.
  intros Hi Hn Hp Hpos. pose proof (hold_dec_inv hs hw st a p n s Hi Hn Hp Hpos) as HX.
  destruct (dec_node_inv owner _ _ st a n s false Hn HX) as (st' & E & Hi' & _). by exists st'.
Qed.

Context (hs hw : Z -> Z).

(** ** BC_INCREFS_DONE and BC_ACQUIRE_DONE *)

Lemma bc_done_inv (st : binder) (p : Z) (pr : binder_proc) (acquire : bool) (ptr cookie : Z) :
  refs_inv owner hs hw st -> proc_at st !! p = Some pr ->
  exists st', bc_done false st p acquire ptr cookie = Some st' /\ refs_inv owner hs hw st' /\ ref_at st' = ref_at st.
Proof using.
  intros Hi Hp. unfold bc_done.
  destruct (get_node_spec owner hs hw st p ptr pr Hi Hp) as [(a & n & -> & Hn & Hnp & _)|[-> _]]; cbn [mbind option_bind];
    [|by exists st].
  rewrite Hn. cbn [mbind option_bind]. destruct (negb (cookie =? n_cookie n)); [by exists st|].
  destruct (if acquire then pending_strong_ref n else pending_weak_ref n) eqn:Hpend; cbn [negb]; [|by exists st].
  set (n1 := if acquire then _ else _). destruct (local_small hs hw st a n Hi Hn) as [Hs Hw].
  destruct (iv_nodes _ _ _ _ Hi a n Hn) as [_ _ _ _ _ [Hf Hl]]. rewrite Hnp in Hl. unfold flags_ok in Hf.
  destruct (iv_holds _ _ _ _ Hi a) as (H1 & H2 & _).
  assert (Hi1 : refs_inv owner hs hw (put_node st a (dec_counts n1 acquire false))).
  { apply (put_node_inv owner hs hw _ _ st a n); try done; try (by destruct acquire).
    apply andb_true_iff in Hf as [Hf1 Hf2].
    split; [unfold flags_ok; destruct acquire; simpl; [exact Hf2|by rewrite Hf1]|].
    unfold b2z in *. unfold n1. destruct acquire; simpl; rewrite Hnp, Hpend in *; rewrite s32_small by lia; lia. }
  destruct (dec_node_inv owner hs hw (put_node st a n1) a n1 acquire false) as (st' & -> & Hi' & Er & _).
  - simpl. by rewrite lookup_insert_eq.
  - by rewrite put_node_twice.
  - cbn [mbind option_bind]. exists st'. split; [done|]. split; [done|]. by rewrite Er.
Qed.
(** ** BC_INCREFS, BC_ACQUIRE, BC_RELEASE and BC_DECREFS *)

(** No reference count is at INT_MAX. *)
Definition counts_below (st : binder) : Prop :=
  forall r rf, ref_at st !! r = Some rf -> strong rf < 2147483647 /\ weak rf < 2147483647.

(** kzalloc() returns memory that is not in use. *)
Definition fresh_ref (kz : option Z) (st : binder) : Prop :=
  forall r, kz = Some r -> ref_at st !! r = None /\ Z.of_nat (size (ref_at st)) < 1000000000.

Definition ref_cmd_fn (st : binder) (r : Z) (cmd : ref_cmd) : option (binder * Z) :=
  match cmd with
  | BC_INCREFS => binder_inc_ref st r false None
  | BC_ACQUIRE => binder_inc_ref st r true None
  | BC_RELEASE => binder_dec_ref st r true
  | BC_DECREFS => binder_dec_ref st r false
  end.

Lemma target_none (st : binder) (n : binder_node) : target_ok owner st n None.
Proof using. by intros h ?. Qed.

Lemma ref_cmd_inv (st : binder) (r : Z) (rf : binder_ref) (cmd : ref_cmd) :
  refs_inv owner hs hw st -> ref_at st !! r = Some rf -> counts_below st ->
  exists st' ret, ref_cmd_fn st r cmd = Some (st', ret) /\ refs_inv owner hs hw st'.
Proof using.
  intros Hi Hr Hcb. destruct (ref_node owner hs hw st r rf Hi Hr) as [n Hn]. destruct (Hcb r rf Hr) as [Hs Hw].
  assert (Hinc : forall s, exists st' ret, binder_inc_ref st r s None = Some (st', ret) /\ refs_inv owner hs hw st').
  { intros s. destruct (inc_ref_inv owner hs hw st r rf n s None Hi Hr Hn (target_none st n)) as [[_ E]|(st' & n' & E & Hi' & _)];
      [by destruct s|by eexists _, _|by eexists _, _]. }
  assert (Hdec : forall s, exists st' ret, binder_dec_ref st r s = Some (st', ret) /\ refs_inv owner hs hw st').
  { intros s. pose proof (dec_ref_inv owner hs hw st r rf n s Hi Hr Hn) as H. simpl in H.
    destruct ((if s then strong rf else weak rf) =? 0); [by eexists _, _|]. destruct H as (st' & E & Hi' & _). by eexists _, _. }
  destruct cmd; simpl; [apply (Hinc false)|apply (Hinc true)|apply (Hdec true)|apply (Hdec false)].
Qed.

Lemma new_ref_counts (st st' : binder) (r p a d : Z) :
  counts_below st -> ref_at st' = <[r := mk_ref p a d 0 0 None]> (ref_at st) -> counts_below st'.
Proof using.
  clear owner hs hw. intros Hcb E x y. rewrite E. intros [[-> <-]|[_ Hx]]%lookup_insert_Some; [simpl; lia|by apply (Hcb x)].
Qed.

Lemma bc_refs_inv (kz : option Z) (st : binder) (p : Z) (pr : binder_proc) (cmd : ref_cmd) (target : Z) :
  refs_inv owner hs hw st -> proc_at st !! p = Some pr -> counts_below st -> fresh_ref kz st ->
  (target = 0 -> is_inc cmd = true -> is_Some kz) ->
  exists st', bc_refs false kz st p cmd target = Some st' /\ refs_inv owner hs hw st'.
Proof using.
  intros Hi Hp Hcb Hkz Hmem. unfold bc_refs.
  assert (Hfin : forall s r rf, refs_inv owner hs hw s -> ref_at s !! r = Some rf -> counts_below s ->
    exists st', ('(st, _) ← ref_cmd_fn s r cmd; Some st) = Some st' /\ refs_inv owner hs hw st').
  { intros s r rf Hs Hr Hc. destruct (ref_cmd_inv s r rf cmd Hs Hr Hc) as (st' & ret & -> & Hi'). by exists st'. }
  assert (Hget : exists st', ('(st, ref) ← (ref ← binder_get_ref st p target; Some (st, ref));
    match ref with None => Some st | Some r => '(st, _) ← ref_cmd_fn st r cmd; Some st end) = Some st' /\ refs_inv owner hs hw st').
  { destruct (get_ref_spec owner hs hw st p target pr Hi Hp) as [(r & rf & -> & Hr & _)|[-> _]]; cbn [mbind option_bind];
      [by apply (Hfin st r rf)|by exists st]. }
  destruct (context_mgr_node st) as [c|] eqn:Hc; [|exact Hget].
  destruct ((target =? 0) && is_inc cmd) eqn:Hz; [|exact Hget].
  apply andb_true_iff in Hz as [Hz%Z.eqb_eq Hinc]. destruct (Hmem Hz Hinc) as [r0 Hr0].
  destruct (iv_ctx _ _ _ _ Hi c Hc) as [q Hq]. unfold owned, proc_of in Hq. destruct (node_at st !! c) as [n|] eqn:Hn; [|done].
  destruct (get_ref_for_node_inv owner hs hw kz st p c pr n Hi Hp Hn Hkz)
    as [(r & Hr & _ & ->)|(_ & [[-> _]|(r & d & st' & _ & -> & Hi' & _ & Er & _)])]; [|done|].
  - cbn [mbind option_bind]. unfold refs_of in Hr. destruct (ref_at st !! r) as [rf|] eqn:E; [|done].
    cbn [mbind option_bind]. by apply (Hfin st r rf).
  - cbn [mbind option_bind]. assert (Hr : ref_at st' !! r = Some (mk_ref p c d 0 0 None)) by (by rewrite Er, lookup_insert_eq).
    rewrite Hr. cbn [mbind option_bind]. apply (Hfin st' r _ Hi' Hr). by apply (new_ref_counts st st' r p c d).
Qed.
(** ** Work for the owner of a node *)

(** A change of flags and local counts. *)
Lemma put_flags_inv (st : binder) (a p : Z) (n n' : binder_node) :
  refs_inv owner hs hw st -> node_at st !! a = Some n -> n_proc n = Some p ->
  n' = with_flags (with_counts n (internal_strong_refs n) (local_weak_refs n') (local_strong_refs n'))
         (has_strong_ref n') (pending_strong_ref n') (has_weak_ref n') (pending_weak_ref n') ->
  flags_ok n' = true ->
  local_strong_refs n' - b2z (pending_strong_ref n') = local_strong_refs n - b2z (pending_strong_ref n) ->
  local_weak_refs n' - b2z (pending_weak_ref n') = local_weak_refs n - b2z (pending_weak_ref n) ->
  refs_inv owner hs hw (put_node st a n').
Proof using.
  intros Hi Hn Hp E Hf Hs Hw. destruct (iv_holds _ _ _ _ Hi a) as (H1 & H2 & _).
  destruct (iv_nodes _ _ _ _ Hi a n Hn) as [_ _ _ _ _ [_ Hl]]. rewrite Hp in Hl.
  assert (Hp' : n_proc n' = Some p) by (by rewrite E).
  apply (put_node_inv owner hs hw _ _ st a n); try done; try (by rewrite E). split; [done|]. rewrite Hp'. lia.
Qed.

Definition node_strong (n : binder_node) : bool := negb (internal_strong_refs n =? 0) || negb (local_strong_refs n =? 0).
Definition node_weak (n : binder_node) : bool :=
  negb (bool_decide (n_refs n = [])) || negb (local_weak_refs n =? 0) || node_strong n.

Lemma node_unused (n : binder_node) :
  node_weak n = false -> n_refs n = [] /\ local_strong_refs n = 0 /\ local_weak_refs n = 0.
Proof using.
  clear owner hs hw. unfold node_weak, node_strong. rewrite !orb_false_iff, !negb_false_iff, !Z.eqb_eq, bool_decide_eq_true. tauto.
Qed.

(** A node that is referred to or held has a count for what it confirms. *)
Lemma pending_used (st : binder) (a p : Z) (n : binder_node) :
  refs_inv owner hs hw st -> node_at st !! a = Some n -> n_proc n = Some p ->
  (node_strong n = false -> pending_strong_ref n = false) /\ (node_weak n = false -> pending_weak_ref n = false).
Proof using.
  intros Hi Hn Hp. destruct (iv_holds _ _ _ _ Hi a) as (H1 & H2 & _).
  destruct (iv_nodes _ _ _ _ Hi a n Hn) as [_ _ _ _ _ [_ Hl]]. rewrite Hp in Hl. unfold ctx_hold, b2z in *.
  split; intros H.
  - unfold node_strong in H. apply orb_false_iff in H as [_ H]. apply negb_false_iff, Z.eqb_eq in H.
    destruct (pending_strong_ref n); [|done]. destruct (bool_decide _); lia.
  - apply node_unused in H as (_ & _ & H). destruct (pending_weak_ref n); [|done]. destruct (bool_decide _); lia.
Qed.

(** What the owner is told: the first command that its view of the node, the
    has flags, lacks; nothing when it is up to date. *)
Definition told (n : binder_node) (br : br_cmd) : Prop :=
  match br with
  | BR_INCREFS => node_weak n = true /\ has_weak_ref n = false
  | BR_ACQUIRE => node_strong n = true /\ has_strong_ref n = false /\ has_weak_ref n = true
  | BR_RELEASE => node_strong n = false /\ has_strong_ref n = true
  | BR_DECREFS => node_weak n = false /\ has_weak_ref n = true /\ has_strong_ref n = false
  | BR_NOOP => has_weak_ref n = node_weak n /\ has_strong_ref n = node_strong n
  | _ => False
  end.

(** The flags once the command has been sent: weak, then strong. *)
Definition view_after (n : binder_node) (br : br_cmd) : bool * bool :=
  match br with
  | BR_INCREFS => (true, has_strong_ref n)
  | BR_ACQUIRE => (has_weak_ref n, true)
  | BR_RELEASE => (has_weak_ref n, false)
  | BR_DECREFS => (false, has_strong_ref n)
  | _ => (has_weak_ref n, has_strong_ref n)
  end.

(** The node is freed when the owner has nothing more to hear of it and
    nothing refers to it. *)
Definition node_told (st st' : binder) (a : Z) (n : binder_node) (br : br_cmd) : Prop :=
  told n br /\ ref_at st' = ref_at st /\ (node_at st' !! a = None <-> br = BR_NOOP /\ node_weak n = false) /\
  forall n', node_at st' !! a = Some n' -> (has_weak_ref n', has_strong_ref n') = view_after n br /\ n_refs n' = n_refs n.

Lemma work_node_free (st : binder) (p a : Z) (n : binder_node) :
  refs_inv owner hs hw st -> node_at st !! a = Some n -> n_proc n = Some p -> node_weak n = false ->
  exists st', (st ← list_del_init st (WorkNode a); pr ← proc_at st !! p; t ← rb_erase a (nodes pr);
      Some (set_nodes (put_proc st p (mk_proc t (refs_by_desc pr) (refs_by_node pr) (todo pr) (delivered_death pr)))
              (delete a (node_at (put_proc st p (mk_proc t (refs_by_desc pr) (refs_by_node pr) (todo pr) (delivered_death pr))))),
            BR_NOOP)) = Some (st', BR_NOOP) /\ refs_inv owner hs hw st' /\ node_at st' = delete a (node_at st) /\ ref_at st' = ref_at st.
Proof using.
  intros Hi Hn Hp Hw. apply node_unused in Hw as (Hr & Hls & Hlw).
  destruct (free_node_inv owner hs hw st a n Hi Hn Hr Hls Hlw) as (st' & E & Hi' & En & Er & _).
  unfold free_node in E. rewrite Hn in E. cbn [mbind option_bind] in E. rewrite Hp in E.
  destruct (list_del_init st (WorkNode a)) as [s1|]; [|done]. cbn [mbind option_bind] in *.
  destruct (proc_at s1 !! p) as [pr|]; [|done]. cbn [mbind option_bind] in *.
  destruct (rb_erase a (nodes pr)) as [t|]; [|done]. cbn [mbind option_bind] in *.
  exists st'. split; [|done]. by rewrite <- (Some_inj _ _ E).
Qed.

Lemma told_put (st : binder) (a p : Z) (n n' : binder_node) (br : br_cmd) :
  refs_inv owner hs hw (put_node st a n') -> told n br -> br <> BR_NOOP ->
  (has_weak_ref n', has_strong_ref n') = view_after n br -> n_refs n' = n_refs n ->
  exists st' br', Some (put_node st a n', br) = Some (st', br') /\ refs_inv owner hs hw st' /\ node_told st st' a n br'.
Proof using.
  intros Hi Ht Hbr Hv Hr. exists (put_node st a n'), br. split; [done|]. split; [done|]. split; [done|]. split; [done|].
  simpl. rewrite lookup_insert_eq. split; [by split; [|intros [? _]]|]. by intros ? [= <-].
Qed.

Lemma work_node_inv (st : binder) (p a : Z) (n : binder_node) :
  refs_inv owner hs hw st -> node_at st !! a = Some n -> n_proc n = Some p ->
  exists st' br, work_node st p a = Some (st', br) /\ refs_inv owner hs hw st' /\ node_told st st' a n br.
Proof using.
  intros Hi Hn Hp. destruct (pending_used st a p n Hi Hn Hp) as [Hps Hpw].
  destruct (iv_nodes _ _ _ _ Hi a n Hn) as [_ _ _ _ _ [Hf _]]. pose proof Hf as [Hf1 Hf2]%andb_true_iff.
  destruct (local_small hs hw st a n Hi Hn) as [Hs Hw].
  assert (Hsw : node_weak n = false -> node_strong n = false) by (unfold node_weak; by intros [_ ?]%orb_false_iff).
  unfold work_node. rewrite Hn. cbn [mbind option_bind]. fold (node_strong n). fold (node_weak n).
  destruct (node_weak n && negb (has_weak_ref n)) eqn:E1.
  { apply andb_true_iff in E1 as [Ew Ehw%negb_true_iff]. rewrite Ehw in Hf2.
    assert (Epw : pending_weak_ref n = false) by (by destruct (pending_weak_ref n)).
    apply told_put; try done. apply (put_flags_inv st a p n); try done; simpl; rewrite ?Epw; simpl; [|rewrite s32_small; lia].
    unfold flags_ok. simpl. by rewrite Hf1. }
  destruct (node_strong n && negb (has_strong_ref n)) eqn:E2.
  { apply andb_true_iff in E2 as [Es Ehs%negb_true_iff]. rewrite Ehs in Hf1.
    assert (Eps : pending_strong_ref n = false) by (by destruct (pending_strong_ref n)).
    apply told_put; try done.
    - apply (put_flags_inv st a p n); try done; simpl; rewrite ?Eps; simpl. rewrite s32_small; lia.
    - split_and!; try done. destruct (has_weak_ref n); [done|]. rewrite andb_true_r in E1. by rewrite (Hsw E1) in Es. }
  destruct (negb (node_strong n) && has_strong_ref n) eqn:E3.
  { apply andb_true_iff in E3 as [Es%negb_true_iff Ehs]. apply told_put; try done. apply (put_flags_inv st a p n); try done.
    unfold flags_ok. simpl. by rewrite (Hps Es). }
  assert (Hstrong : has_strong_ref n = node_strong n) by (by destruct (has_strong_ref n), (node_strong n)).
  destruct (negb (node_weak n) && has_weak_ref n) eqn:E4.
  { apply andb_true_iff in E4 as [Ew%negb_true_iff Ehw]. apply told_put; try done.
    - apply (put_flags_inv st a p n); try done. unfold flags_ok. simpl. by rewrite Hf1, (Hpw Ew).
    - split_and!; try done. by rewrite Hstrong, (Hsw Ew). }
  assert (Hweak : has_weak_ref n = node_weak n) by (by destruct (has_weak_ref n), (node_weak n)).
  destruct (node_weak n) eqn:Ew; cbn [negb andb].
  - destruct (del_node_inv owner hs hw st a n Hi Hn) as (st' & -> & Hi' & En & _ & Er & _). cbn [mbind option_bind].
    exists st', BR_NOOP. split; [done|]. split; [done|]. split; [split; [by rewrite Ew|done]|]. split; [done|].
    split; [rewrite En, lookup_insert_eq, Ew; by split; [|intros [_ ?]]|].
    intros n'. rewrite En, lookup_insert_eq. by intros [= <-].
  - rewrite (Hsw eq_refl). cbn [negb].
    destruct (work_node_free st p a n Hi Hn Hp Ew) as (st' & E & Hi' & En & Er). exists st', BR_NOOP.
    split; [exact E|]. split; [done|]. split; [split; [by rewrite Ew|done]|]. split; [done|].
    split; [by rewrite En, lookup_delete_eq|]. intros n'. by rewrite En, lookup_delete_eq.
Qed.
(** ** Death notifications *)

(** A notification that no reference has, or that is queued for a dead node. *)
Definition may_queue (st : binder) (d : Z) (ty : death_type) : Prop :=
  forall r rf, ref_at st !! r = Some rf -> death rf = Some d ->
    ty = DEAD_BINDER /\ forall p, proc_of st (r_node rf) <> Some (Some p).

Lemma work_on_put_death (st : binder) (d : Z) (dt' : binder_ref_death) (l : gmap Z (list work)) (w : work) :
  w <> WorkDeath d -> work_on (put_death (set_lists st l) d dt') w = work_on st w.
Proof using.
  clear owner hs hw. intros Hw. destruct w as [b|e]; [done|]. simpl. rewrite lookup_insert_ne; [done|]. congruence.
Qed.

(** The notification goes on a list, at its head or its tail. *)
Lemma death_on_list (st : binder) (d h : Z) (dt : binder_ref_death) (l l' : list work) (ty : death_type) :
  refs_inv owner hs hw st -> death_at st !! d = Some dt -> d_work dt = None -> list_at st !! h = Some l ->
  l' = l ++ [WorkDeath d] \/ l' = WorkDeath d :: l -> may_queue st d ty ->
  refs_inv owner hs hw (put_death (put_list st h l') d (with_death_work dt ty (Some h))).
Proof using.
  intros Hi Hd Hw Hl Hl' Hq. apply (refs_inv_deaths owner hs hw st); try done.
  - apply (lists_ok_add owner st _ (WorkDeath d) h l l'); try done.
    + exact (iv_lists _ _ _ _ Hi).
    + simpl. rewrite Hd. simpl. by rewrite Hw.
    + intros w' Hw'. by apply work_on_put_death.
    + simpl. by rewrite lookup_insert_eq.
    + apply (owners_deaths owner st); try done. exact (iv_lists _ _ _ _ Hi).
  - intros r rf e Hr He. simpl. destruct (decide (e = d)) as [->|Hne].
    + rewrite lookup_insert_eq. eexists. split; [done|]. destruct (Hq r rf Hr He) as [-> Hp].
      split; [by right|]. split; [done|]. intros p Hp'. by destruct (Hp p).
    + rewrite lookup_insert_ne by done. exact (ref_death_ok owner hs hw st r rf e Hi Hr He).
Qed.

Lemma queue_death_inv (st : binder) (d h : Z) (dt : binder_ref_death) (ty : death_type) :
  refs_inv owner hs hw st -> death_at st !! d = Some dt -> d_work dt = None -> is_Some (list_at st !! h) ->
  may_queue st d ty ->
  exists st', list_add_tail (put_death st d (with_death_work dt ty None)) (WorkDeath d) h = Some st' /\
    refs_inv owner hs hw st' /\ death_at st' = <[d := with_death_work dt ty (Some h)]> (death_at st) /\
    node_at st' = node_at st /\ ref_at st' = ref_at st /\ proc_at st' = proc_at st /\
    (forall h, is_Some (list_at st !! h) -> is_Some (list_at st' !! h)).
Proof using.
  intros Hi Hd Hw [l Hl] Hq. exists (put_death (put_list st h (l ++ [WorkDeath d])) d (with_death_work dt ty (Some h))).
  split.
  - unfold list_add_tail. simpl. rewrite lookup_insert_eq. cbn [fmap option_fmap option_map mbind option_bind d_work with_death_work].
    rewrite Hl. cbn [mbind option_bind]. simpl.
    unfold put_death, set_deaths. simpl. by rewrite insert_insert_eq.
  - split; [apply (death_on_list st d h dt l); try done; by left|]. split_and!; try done.
    intros h' Hh'. simpl. destruct (decide (h' = h)) as [->|]; [rewrite lookup_insert_eq; by eexists|by rewrite lookup_insert_ne].
Qed.

(** The notification of one reference appears or goes. *)
Lemma ref_set_death_inv (st st' : binder) (r : Z) (rf : binder_ref) (x : option Z) :
  refs_inv owner hs hw st -> ref_at st !! r = Some rf ->
  node_at st' = node_at st -> proc_at st' = proc_at st -> binder_dead_nodes st' = binder_dead_nodes st ->
  context_mgr_node st' = context_mgr_node st -> ref_at st' = <[r := with_death rf x]> (ref_at st) -> lists_ok owner st' ->
  (forall r' rf' d, r' <> r -> ref_at st !! r' = Some rf' -> death rf' = Some d ->
     death_at st' !! d = death_at st !! d /\ x <> Some d) ->
  (forall d, x = Some d -> exists dt, death_at st' !! d = Some dt /\ death_ok st rf dt) ->
  refs_inv owner hs hw st'.
Proof using.
  intros Hi Hr En Ep Ed Ec Er Hl Hother Hx. pose proof Hi as [Ht Hnodes Hholds Hrefs Hinj Hlists Hdead Hctx Hsize].
  assert (Hold : forall (f : binder_ref -> Z) z, (forall y, f (with_death rf y) = f rf) -> f <$> ref_at st' !! z = f <$> ref_at st !! z).
  { intros f z Hf. rewrite Er. destruct (decide (z = r)) as [->|]; [rewrite lookup_insert_eq, Hr; simpl; by rewrite Hf|].
    by rewrite lookup_insert_ne. }
  assert (Hpo : forall a, proc_of st' a = proc_of st a) by (intros a; unfold proc_of; by rewrite En).
  assert (Hstrong : forall z, is_strong (ref_at st') z = is_strong (ref_at st) z).
  { intros z. unfold is_strong. rewrite Er. destruct (decide (z = r)) as [->|]; [by rewrite lookup_insert_eq, Hr|].
    by rewrite lookup_insert_ne. }
  assert (Hkey : forall p z, refs_of st p z <-> refs_of st' p z) by (intros p z; unfold refs_of; by rewrite (Hold r_proc)).
  split; [| | | | | | | |].
  - intros p pr Hp. rewrite Ep in Hp. destruct (Ht p pr Hp) as (H1 & H2 & H3). split_and!.
    + apply (key_tree_ext _ _ _ _ _ H1); [intros a; unfold owned; by rewrite Hpo|intros a _; unfold node_key; by rewrite En].
    + apply (key_tree_ext _ _ _ _ _ H2); [apply Hkey|intros z _; by apply (Hold desc)].
    + apply (key_tree_ext _ _ _ _ _ H3); [apply Hkey|intros z _; by apply (Hold r_node)].
  - intros a n Hn. rewrite En in Hn. destruct (Hnodes a n Hn) as [H1 H2 H3 H4 H5 H6]. split; try done.
    + by rewrite Ep.
    + intros z. rewrite H4. unfold target_of. by rewrite (Hold r_node).
    + rewrite H5. symmetry. by apply strong_count_ext.
    + unfold local_ok, ctx_hold. rewrite Ec. exact H6.
  - intros a. unfold ctx_hold. rewrite En, Ec. apply Hholds.
  - intros z y Hz. rewrite Er in Hz. apply lookup_insert_Some in Hz as [[<- <-]|[Hne Hz]].
    + destruct (Hrefs r rf Hr) as [H1 H2 H3 H4 H5]. split; try done; rewrite ?En, ?Ep; try done.
      simpl. intros d Hd. destruct (Hx d Hd) as (dt & ? & ? & ? & H6). exists dt. split_and!; try done. intros p. rewrite Hpo. apply H6.
    + destruct (Hrefs z y Hz) as [H1 H2 H3 H4 H5]. split; try done; rewrite ?En, ?Ep; try done.
      intros d Hd. destruct (H5 d Hd) as (dt & Hdt & ? & ? & H6). exists dt.
      split_and!; try done; [|intros p; rewrite Hpo; apply H6]. by rewrite (proj1 (Hother z y d (not_eq_sym Hne) Hz Hd)).
  - intros z z' y y' d Hz Hz' Hd Hd'. rewrite Er in Hz, Hz'.
    apply lookup_insert_Some in Hz as [[<- <-]|[Hne Hz]]; apply lookup_insert_Some in Hz' as [[<- <-]|[Hne' Hz']]; [done| | |].
    + by destruct (proj2 (Hother z' y' d (not_eq_sym Hne') Hz' Hd')).
    + by destruct (proj2 (Hother z y d (not_eq_sym Hne) Hz Hd)).
    + by apply (Hinj z z' y y' d).
  - done.
  - rewrite Ed. split; [apply Hdead|]. intros a. rewrite Hpo. apply Hdead.
  - rewrite Ec. intros c Hc. destruct (Hctx c Hc) as [p Hp]. exists p. unfold owned. by rewrite Hpo.
  - rewrite Er, map_size_insert_Some by (by eexists). done.
Qed.
Definition list_known (st : binder) (h : option Z) : Prop := forall x, h = Some x -> is_Some (list_at st !! x).

Lemma death_list_known (st : binder) (p : Z) (pr : binder_proc) (tt : option Z) :
  refs_inv owner hs hw st -> proc_at st !! p = Some pr -> list_known st tt -> is_Some (list_at st !! death_list pr tt).
Proof using.
  intros Hi Hp Ht. unfold death_list. destruct tt as [h|]; simpl; [by apply Ht|].
  by destruct (lo_proc _ _ (iv_lists _ _ _ _ Hi) p pr Hp).
Qed.

Lemma fresh_death (st : binder) (d r : Z) (rf : binder_ref) :
  refs_inv owner hs hw st -> death_at st !! d = None -> ref_at st !! r = Some rf -> death rf <> Some d.
Proof using.
  intros Hi Hd Hr Hx. destruct (ref_death_ok owner hs hw st r rf d Hi Hr Hx) as (dt & Hdt & _). congruence.
Qed.

(** The new notification and its reference. *)
Lemma request_death_link (st : binder) (r d cookie : Z) (rf : binder_ref) :
  refs_inv owner hs hw st -> ref_at st !! r = Some rf -> death_at st !! d = None ->
  refs_inv owner hs hw (put_ref (put_death st d (mk_death Unset cookie None)) r (with_death rf (Some d))).
Proof using.
  intros Hi Hr Hd. apply (ref_set_death_inv st _ r rf (Some d)); try done.
  - apply (lists_ok_ext owner st); try done; [exact (iv_lists _ _ _ _ Hi)| |exact (lo_owner _ _ (iv_lists _ _ _ _ Hi))].
    intros [b|e] h; [done|]. simpl. destruct (decide (e = d)) as [->|]; [by rewrite lookup_insert_eq, Hd|by rewrite lookup_insert_ne].
  - intros r' rf' e _ Hr' He. pose proof (fresh_death st d r' rf' Hi Hd Hr'). simpl. split; [|congruence].
    rewrite lookup_insert_ne; [done|congruence].
  - intros e [= <-]. eexists. simpl. rewrite lookup_insert_eq. split; [done|]. split; [by left|]. done.
Qed.

Lemma bc_request_death_inv (kz : option Z) (st : binder) (p : Z) (pr : binder_proc) (tt : option Z) (target cookie : Z) :
  refs_inv owner hs hw st -> proc_at st !! p = Some pr -> list_known st tt -> (forall d, kz = Some d -> death_at st !! d = None) ->
  exists st', bc_request_death kz st p tt target cookie = Some st' /\ refs_inv owner hs hw st'.
Proof using.
  intros Hi Hp Ht Hkz. unfold bc_request_death. rewrite Hp. cbn [mbind option_bind].
  destruct (get_ref_spec owner hs hw st p target pr Hi Hp) as [(r & rf & -> & Hr & _)|[-> _]]; cbn [mbind option_bind]; [|by exists st].
  rewrite Hr. cbn [mbind option_bind]. destruct (death rf); [by exists st|]. destruct kz as [d|]; [|by exists st].
  pose proof (request_death_link st r d cookie rf Hi Hr (Hkz d eq_refl)) as Hi1.
  set (s1 := put_ref _ r _) in *. destruct (ref_node owner hs hw st r rf Hi Hr) as [n Hn].
  change (node_at s1) with (node_at st). rewrite Hn. cbn [mbind option_bind].
  destruct (n_proc n) eqn:Hnp; [by exists s1|].
  destruct (queue_death_inv s1 d (death_list pr tt) (mk_death Unset cookie None) DEAD_BINDER Hi1) as (st' & E & Hi' & _); try done.
  - simpl. by rewrite lookup_insert_eq.
  - exact (death_list_known st p pr tt Hi Hp Ht).
  - intros r' rf' Hr' Hd'. split; [done|]. intros q. change (proc_of s1 (r_node rf')) with (proc_of st (r_node rf')).
    simpl in Hr'. apply lookup_insert_Some in Hr' as [[<- <-]|[_ Hr']].
    + simpl. rewrite (proc_of_Some st _ n Hn). congruence.
    + by destruct (fresh_death st d r' rf' Hi (Hkz d eq_refl) Hr').
  - exists st'. split; [exact E|done].
Qed.

(** The notification leaves its reference. *)
Lemma clear_death_unlink (st : binder) (r d : Z) (rf : binder_ref) :
  refs_inv owner hs hw st -> ref_at st !! r = Some rf -> death rf = Some d ->
  refs_inv owner hs hw (put_ref st r (with_death rf None)) /\
  forall r' rf', ref_at (put_ref st r (with_death rf None)) !! r' = Some rf' -> death rf' <> Some d.
Proof using.
  intros Hi Hr Hd. split.
  - apply (ref_set_death_inv st _ r rf None); try done. pose proof (iv_lists _ _ _ _ Hi) as Hlo.
    apply (lists_ok_ext owner st); try done. exact (lo_owner _ _ Hlo).
  - simpl. intros r' rf' [[<- <-]|[Hne Hr']]%lookup_insert_Some; [done|]. intros Hd'.
    apply Hne. exact (iv_inj _ _ _ _ Hi r r' rf rf' d Hr Hr' Hd Hd').
Qed.

Lemma no_ref_queue (st : binder) (d : Z) (ty : death_type) :
  (forall r rf, ref_at st !! r = Some rf -> death rf <> Some d) -> may_queue st d ty.
Proof using. clear owner hs hw. intros H r rf Hr Hd. by destruct (H r rf Hr). Qed.

Lemma bc_clear_death_inv (st : binder) (p : Z) (pr : binder_proc) (tt : option Z) (target cookie : Z) :
  refs_inv owner hs hw st -> proc_at st !! p = Some pr -> list_known st tt ->
  exists st', bc_clear_death st p tt target cookie = Some st' /\ refs_inv owner hs hw st'.
Proof using.
  intros Hi Hp Ht. unfold bc_clear_death. rewrite Hp. cbn [mbind option_bind].
  destruct (get_ref_spec owner hs hw st p target pr Hi Hp) as [(r & rf & -> & Hr & _)|[-> _]]; cbn [mbind option_bind]; [|by exists st].
  rewrite Hr. cbn [mbind option_bind]. destruct (death rf) as [d|] eqn:Hd; [|by exists st].
  destruct (ref_death_ok owner hs hw st r rf d Hi Hr Hd) as (dt & Hdt & Hok). rewrite Hdt. cbn [mbind option_bind].
  destruct (negb (d_cookie dt =? cookie)); [by exists st|].
  destruct (clear_death_unlink st r d rf Hi Hr Hd) as [Hi1 Hno]. set (s1 := put_ref st r _) in *.
  destruct (d_work dt) as [h|] eqn:Hw.
  - destruct Hok as (_ & Hty & _). rewrite (Hty h Hw). cbn [negb bool_decide mbind option_bind].
    rewrite bool_decide_eq_true_2 by done. simpl. eexists. split; [done|]. apply (refs_inv_deaths owner hs hw s1); try done.
    + pose proof (iv_lists _ _ _ _ Hi1) as Hlo. apply (lists_ok_ext owner s1); try done; [|exact (lo_owner _ _ Hlo)].
      intros [b|e] h'; [done|]. simpl. destruct (decide (e = d)) as [->|]; [|by rewrite lookup_insert_ne].
      rewrite lookup_insert_eq, Hdt. simpl. by rewrite Hw.
    + intros r' rf' e Hr' He. destruct (ref_death_ok owner hs hw s1 r' rf' e Hi1 Hr' He) as (dt' & Hdt' & Hok'). exists dt'.
      split; [|done]. simpl. rewrite lookup_insert_ne; [done|]. intros ->. by apply (Hno r' rf').
  - destruct (queue_death_inv s1 d (death_list pr tt) dt CLEAR_DEATH_NOTIFICATION Hi1) as (st' & E & Hi' & _); try done.
    + exact (death_list_known st p pr tt Hi Hp Ht).
    + by apply no_ref_queue.
    + by exists st'.
Qed.

Lemma find_delivered_spec (st : binder) (l : list work) (cookie : Z) :
  (forall w, w ∈ l -> exists d dt, w = WorkDeath d /\ death_at st !! d = Some dt) ->
  exists x, find_delivered st l cookie = Some x /\
    forall d, x = Some d -> WorkDeath d ∈ l /\ exists dt, death_at st !! d = Some dt /\ d_cookie dt = cookie.
Proof using.
  clear owner hs hw. induction l as [|w l IH]; intros Hl; simpl; [by exists None|].
  destruct (Hl w) as (d & dt & -> & Hd); [by left|]. rewrite Hd. cbn [mbind option_bind].
  destruct (Z.eqb_spec (d_cookie dt) cookie) as [Hc|Hc].
  - exists (Some d). split; [done|]. intros ? [= <-]. split; [by left|by exists dt].
  - destruct IH as (x & -> & Hx); [intros w Hw; apply Hl; by right|]. exists x. split; [done|]. intros d' ->.
    destruct (Hx d' eq_refl). split; [by right|done].
Qed.

Lemma delivered_deaths (st : binder) (p : Z) (pr : binder_proc) :
  refs_inv owner hs hw st -> proc_at st !! p = Some pr ->
  exists l, list_at st !! delivered_death pr = Some l /\
    forall w, w ∈ l -> exists d dt, w = WorkDeath d /\ death_at st !! d = Some dt.
Proof using.
  intros Hi Hp. pose proof (iv_lists _ _ _ _ Hi) as Hlo. destruct (lo_proc _ _ Hlo p pr Hp) as (_ & [l Hl] & _).
  exists l. split; [done|]. intros w Hw.
  assert (Hon : work_on st w = Some (Some (delivered_death pr))) by (apply (lo_elem _ _ Hlo); by exists l).
  destruct w as [a|d]; simpl in Hon.
  - destruct (node_at st !! a) as [n|] eqn:Hn; [|done]. simpl in Hon. injection Hon as Hon.
    destruct (lo_owner _ _ Hlo a n _ Hn Hon) as [_ H]. by destruct (H p pr Hp).
  - destruct (death_at st !! d) as [dt|] eqn:Hd; [|done]. by exists d, dt.
Qed.

Lemma bc_dead_binder_done_inv (st : binder) (p : Z) (pr : binder_proc) (tt : option Z) (cookie : Z) :
  refs_inv owner hs hw st -> proc_at st !! p = Some pr -> list_known st tt ->
  exists st', bc_dead_binder_done st p tt cookie = Some st' /\ refs_inv owner hs hw st'.
Proof using.
  intros Hi Hp Ht. unfold bc_dead_binder_done. rewrite Hp. cbn [mbind option_bind].
  destruct (delivered_deaths st p pr Hi Hp) as (l & -> & Hl). cbn [mbind option_bind].
  destruct (find_delivered_spec st l cookie Hl) as (x & -> & Hx). cbn [mbind option_bind].
  destruct x as [d|]; [|by exists st]. destruct (Hx d eq_refl) as (_ & dt & Hd & _).
  destruct (del_death_inv owner hs hw st d dt Hi Hd) as (s1 & E1 & Hi1 & Ed1 & En1 & Ep1 & Er1 & _).
  rewrite E1. cbn [mbind option_bind]. rewrite Ed1, lookup_insert_eq. cbn [mbind option_bind].
  case_bool_decide as Hty; [|by exists s1]. simpl in Hty.
  destruct (queue_death_inv s1 d (death_list pr tt) (with_death_work dt (d_type dt) None) CLEAR_DEATH_NOTIFICATION Hi1)
    as (st' & E & Hi' & _); [by rewrite Ed1, lookup_insert_eq|done| | |by exists st'].
  - apply (list_del_lists st s1 _ _ E1). exact (death_list_known st p pr tt Hi Hp Ht).
  - apply no_ref_queue. rewrite Er1. intros r rf Hr He.
    destruct (ref_death_ok owner hs hw st r rf d Hi Hr He) as (dt' & Hdt' & [H|H] & _); congruence.
Qed.

(** ** Notifications that are read *)

Lemma work_death_inv (st : binder) (p d h : Z) (pr : binder_proc) (dt : binder_ref_death) :
  refs_inv owner hs hw st -> proc_at st !! p = Some pr -> death_at st !! d = Some dt -> d_work dt = Some h ->
  exists st' br, work_death st p d = Some (st', br) /\ refs_inv owner hs hw st' /\
    if bool_decide (d_type dt = CLEAR_DEATH_NOTIFICATION)
    then br = BR_CLEAR_DEATH_NOTIFICATION_DONE /\ death_at st' !! d = None
    else br = BR_DEAD_BINDER /\ death_at st' !! d = Some (with_death_work dt (d_type dt) (Some (delivered_death pr))).
Proof using.
  intros Hi Hp Hd Hw. unfold work_death. rewrite Hd. cbn [mbind option_bind]. case_bool_decide as Hty.
  - destruct (free_death_inv owner hs hw st d dt Hi Hd) as (st' & -> & Hi' & Ed & _).
    + intros r rf Hr He. destruct (ref_death_ok owner hs hw st r rf d Hi Hr He) as (dt' & Hdt' & [H|H] & _); congruence.
    + cbn [mbind option_bind]. eexists _, _. split; [done|]. split; [done|]. by rewrite Ed, lookup_delete_eq.
  - rewrite Hp. cbn [mbind option_bind].
    destruct (del_death_inv owner hs hw st d dt Hi Hd) as (s1 & E1 & Hi1 & Ed1 & En1 & Ep1 & Er1 & _). rewrite E1.
    cbn [mbind option_bind]. destruct (delivered_deaths s1 p pr Hi1 ltac:(by rewrite Ep1)) as (l & Hl & _).
    rewrite Hl. cbn [mbind option_bind]. simpl. rewrite Ed1, lookup_insert_eq. cbn [mbind option_bind].
    eexists _, _. split; [done|]. split; [|split; [done|]].
    + apply (death_on_list s1 d _ (with_death_work dt (d_type dt) None) l); try done; [by rewrite Ed1, lookup_insert_eq|by right|].
      intros r rf Hr He. rewrite Er1 in Hr.
      destruct (ref_death_ok owner hs hw st r rf d Hi Hr He) as (dt' & Hdt' & _ & H1 & H2).
      assert (dt' = dt) as -> by congruence. split; [by apply (H1 h)|]. intros q. unfold proc_of. rewrite En1. intros Hq.
      specialize (H2 q Hq). congruence.
    + simpl. by rewrite lookup_insert_eq.
Qed.
End Cmds.

(** ** The context manager *)

Section Procs.
Context (owner : Z -> Z) (hs hw : Z -> Z).

(** The hold of the context manager comes or goes. *)
Lemma ctx_change_inv (hs' hw' : Z -> Z) (st : binder) (c : option Z) (uid : Z) :
  let st' := set_context_mgr st c uid in
  refs_inv owner hs hw st -> (forall a, c = Some a -> exists p, owned st p a) ->
  (forall b, ctx_hold st' b + hs' b = ctx_hold st b + hs b /\ 0 <= hs' b) ->
  (forall b, ctx_hold st' b + hw' b = ctx_hold st b + hw b /\ 0 <= hw' b) ->
  refs_inv owner hs' hw' st'.
Proof using.
  intros st' [Ht Hnodes Hholds Hrefs Hinj Hlists Hdead Hctx Hsize] Hc Hhs Hhw.
  assert (H0 : forall b, (forall p, ~ owned st p b) -> ctx_hold st b = 0 /\ ctx_hold st' b = 0).
  { intros b Hb. unfold ctx_hold. simpl. split; rewrite bool_decide_eq_false_2; try done.
    - intros E. destruct (Hctx b E) as [p Hp]. by apply (Hb p).
    - intros E. destruct (Hc b E) as [p Hp]. by apply (Hb p). }
  split; try done.
  - intros a n Hn. destruct (Hnodes a n Hn) as [H1 H2 H3 H4 H5 [H6 H7]]. split; try done. split; [done|].
    specialize (Hhs a). specialize (Hhw a). destruct (n_proc n) as [p|] eqn:Ep; [lia|].
    destruct (H0 a); [|lia]. intros p. unfold owned. rewrite (proc_of_Some st a n Hn). congruence.
  - intros a. specialize (Hhs a). specialize (Hhw a). destruct (Hholds a) as (? & ? & H). split; [lia|]. split; [lia|].
    intros Hn. destruct (H Hn). destruct (H0 a); [|lia]. intros p. unfold owned, proc_of. change (node_at st') with (node_at st) in Hn.
    by rewrite Hn.
  - intros r rf Hr. by destruct (Hrefs r rf Hr).
  - apply (lists_ok_ext owner st); try done. exact (lo_owner _ _ Hlists).
Qed.

Lemma refs_inv_ext (hs' hw' : Z -> Z) (st : binder) :
  refs_inv owner hs hw st -> (forall b, hs' b = hs b /\ hw' b = hw b) -> refs_inv owner hs' hw' st.
Proof using.
  intros Hi He. pose proof (ctx_change_inv hs' hw' st (context_mgr_node st) (context_mgr_uid st) Hi) as H.
  assert (E : set_context_mgr st (context_mgr_node st) (context_mgr_uid st) = st) by by destruct st. rewrite E in H.
  apply H; [exact (iv_ctx _ _ _ _ Hi)| |]; intros b; destruct (He b); destruct (iv_holds _ _ _ _ Hi b) as (? & ? & _); lia.
Qed.

Lemma uid_inv (st : binder) (uid : Z) : refs_inv owner hs hw st -> refs_inv owner hs hw (set_context_mgr st (context_mgr_node st) uid).
Proof using.
  intros Hi. apply ctx_change_inv; [done|exact (iv_ctx _ _ _ _ Hi)| |]; intros b; destruct (iv_holds _ _ _ _ Hi b) as (? & ? & _);
    unfold ctx_hold; simpl; lia.
Qed.

(** ** Processes and lists *)

Lemma new_list_inv (st : binder) (h : Z) :
  refs_inv owner hs hw st -> list_at st !! h = None -> refs_inv owner hs hw (init_thread_todo st h).
Proof using.
  intros Hi Hh. apply (refs_inv_lists owner hs hw st); try done. destruct (iv_lists _ _ _ _ Hi) as [H1 H2 H3 H4].
  assert (Hsome : forall x, is_Some (list_at st !! x) -> is_Some (list_at (init_thread_todo st h) !! x)).
  { intros x [l Hl]. simpl. rewrite lookup_insert_ne by congruence. by eexists. }
  split; try done.
  - simpl. intros x l [[_ <-]|[_ Hl]]%lookup_insert_Some; [constructor|by apply (H1 x)].
  - intros w x. change (work_on (init_thread_todo st h) w) with (work_on st w). rewrite H2. simpl. split; intros (l & Hl & Hw).
    + exists l. split; [|done]. rewrite lookup_insert_ne by congruence. done.
    + apply lookup_insert_Some in Hl as [[_ <-]|[_ Hl]]; [by apply not_elem_of_nil in Hw|]. by exists l.
  - intros p pr Hp. destruct (H4 p pr Hp) as (? & ? & ? & ?). split_and!; try done; by apply Hsome.
Qed.

Lemma no_refs_of (st : binder) (p : Z) :
  refs_inv owner hs hw st -> proc_at st !! p = None -> (forall a, ~ owned st p a) /\ (forall r, ~ refs_of st p r).
Proof using.
  intros Hi Hp. split.
  - intros a Ha. unfold owned, proc_of in Ha. destruct (node_at st !! a) as [n|] eqn:Hn; [|done]. injection Ha as Ha.
    destruct (no_proc _ _ _ _ _ (iv_nodes _ _ _ _ Hi a n Hn) p Ha). congruence.
  - intros r Hr. unfold refs_of in Hr. destruct (ref_at st !! r) as [rf|] eqn:E; [|done]. injection Hr as Hr.
    destruct (ro_proc _ _ _ (iv_refs _ _ _ _ Hi r rf E)). congruence.
Qed.

Lemma new_proc_inv (st : binder) (p h h' : Z) :
  refs_inv owner hs hw st -> proc_at st !! p = None -> list_at st !! h = Some [] -> list_at st !! h' = Some [] -> h <> h' ->
  owner h = p -> (forall q qr, proc_at st !! q = Some qr -> delivered_death qr <> h /\ todo qr <> h') ->
  refs_inv owner hs hw (put_proc st p (mk_proc Null Null Null h h')).
Proof using.
  intros Hi Hp Hh Hh' Hne Ho Hq. destruct (no_refs_of st p Hi Hp) as [Hno Hnr].
  pose proof Hi as [Ht Hnodes Hholds Hrefs Hinj Hlists Hdead Hctx Hsize]. set (st' := put_proc st p _).
  assert (Hps : forall q, is_Some (proc_at st !! q) -> is_Some (proc_at st' !! q)).
  { intros q [x Hx]. simpl. rewrite lookup_insert_ne by congruence. by eexists. }
  split; try done.
  - intros q qr Hqr. simpl in Hqr. apply lookup_insert_Some in Hqr as [[<- <-]|[_ Hqr]]; [|exact (Ht q qr Hqr)].
    split_and!; by apply key_tree_null.
  - intros a n Hn. destruct (Hnodes a n Hn) as [H1 H2 H3 H4 H5 H6]. split; try done. intros q Hqn. by apply Hps, H2.
  - intros r rf Hr. destruct (Hrefs r rf Hr) as [H1 H2 H3 H4 H5]. split; try done. by apply Hps.
  - destruct Hlists as [H1 H2 H3 H4]. split; try done.
    + intros a n x Hn Hx. change (node_at st !! a = Some n) in Hn. destruct (H3 a n x Hn Hx) as [? H]. split; [done|]. simpl.
      intros q qr [[_ <-]|[_ Hqr]]%lookup_insert_Some; [|by apply (H q)]. simpl. intros <-.
      destruct (proj1 (H2 (WorkNode a) h')) as (l & Hl & Hin); [simpl; rewrite Hn; simpl; by rewrite Hx|].
      rewrite Hh' in Hl. injection Hl as <-. by apply not_elem_of_nil in Hin.
    + simpl. intros q qr Hqr. apply lookup_insert_Some in Hqr as [[<- <-]|[_ Hqr]]; simpl.
      * split_and!; [by eexists|by eexists|done|]. intros q' qr' [[_ <-]|[_ H]]%lookup_insert_Some; [simpl; congruence|].
        by apply (Hq q').
      * destruct (H4 q qr Hqr) as (? & ? & ? & H). split_and!; try done.
        intros q' qr' [[_ <-]|[_ Hq']]%lookup_insert_Some; [|by apply (H q')]. simpl. apply not_eq_sym. by apply (Hq q).
Qed.

(** The structure and its list heads are memory that is not in use. *)
Definition fresh_proc (kz : option (Z * Z * Z)) (st : binder) : Prop :=
  forall p h h', kz = Some (p, h, h') ->
    proc_at st !! p = None /\ list_at st !! h = None /\ list_at st !! h' = None /\ h <> h' /\ owner h = p.

Lemma binder_open_inv (kz : option (Z * Z * Z)) (st : binder) :
  refs_inv owner hs hw st -> fresh_proc kz st -> refs_inv owner hs hw (binder_open kz st).1.
Proof using.
  intros Hi Hkz. destruct kz as [[[p h] h']|]; [|done]. destruct (Hkz p h h' eq_refl) as (Hp & Hh & Hh' & Hne & Ho).
  cbn [binder_open fst].
  assert (Hi1 : refs_inv owner hs hw (put_list (put_list st h []) h' [])).
  { apply new_list_inv; [by apply new_list_inv|]. simpl. by rewrite lookup_insert_ne. }
  apply new_proc_inv; try done; simpl.
  - rewrite lookup_insert_ne, lookup_insert_eq; done.
  - by rewrite lookup_insert_eq.
  - intros q qr Hq. destruct (lo_proc _ _ (iv_lists _ _ _ _ Hi) q qr Hq) as ([l Hl] & [l' Hl'] & _). split; congruence.
Qed.

(** kfree() of a process that has nothing left. *)
Lemma free_proc_inv (st : binder) (p : Z) :
  refs_inv owner hs hw st -> (forall a, ~ owned st p a) -> (forall r, ~ refs_of st p r) ->
  refs_inv owner hs hw (set_procs st (delete p (proc_at st))).
Proof using.
  intros [Ht Hnodes Hholds Hrefs Hinj Hlists Hdead Hctx Hsize] Hno Hnr. set (st' := set_procs st _).
  assert (Hsub : forall q qr, proc_at st' !! q = Some qr -> proc_at st !! q = Some qr) by (intros q qr; simpl; by intros [_ ?]%lookup_delete_Some).
  split; try done.
  - intros q qr Hq. exact (Ht q qr (Hsub q qr Hq)).
  - intros a n Hn. destruct (Hnodes a n Hn) as [H1 H2 H3 H4 H5 H6]. split; try done. intros q Hq. simpl.
    rewrite lookup_delete_ne; [by apply H2|]. intros ->. apply (Hno a). unfold owned. rewrite (proc_of_Some st a n Hn). congruence.
  - intros r rf Hr. change (ref_at st !! r = Some rf) in Hr. destruct (Hrefs r rf Hr) as [H1 H2 H3 H4 H5]. split; try done. simpl.
    rewrite lookup_delete_ne; [done|]. intros ->. apply (Hnr r). unfold refs_of. by rewrite Hr.
  - destruct Hlists as [H1 H2 H3 H4]. split; try done.
    + intros a n x Hn Hx. destruct (H3 a n x Hn Hx) as [? H]. split; [done|]. intros q qr Hq. by apply (H q), Hsub.
    + intros q qr Hq. destruct (H4 q qr (Hsub q qr Hq)) as (? & ? & ? & H). split_and!; try done.
      intros q' qr' Hq'. by apply (H q'), Hsub.
Qed.

End Procs.

(** ** BINDER_SET_CONTEXT_MGR *)

Lemma set_context_mgr_inv (owner hs hw : Z -> Z) (kz : option Z) (st : binder) (p euid : Z) (pr : binder_proc) :
  refs_inv owner hs hw st -> proc_at st !! p = Some pr -> (forall a, kz = Some a -> node_at st !! a = None /\ a <> 0) ->
  exists st' ret, binder_set_context_mgr kz st p euid = Some (st', ret) /\ refs_inv owner hs hw st' /\
    (ret = 0 -> exists a n, context_mgr_node st' = Some a /\ kz = Some a /\ node_at st' !! a = Some n /\ n_proc n = Some p /\
       n_ptr n = 0 /\ context_mgr_node st = None /\ (context_mgr_uid st = no_uid \/ context_mgr_uid st = euid)) /\
    (ret <> 0 -> node_at st' = node_at st /\ context_mgr_node st' = context_mgr_node st).
Proof.
  intros Hi Hp Hkz. unfold binder_set_context_mgr. destruct (context_mgr_node st) as [c|] eqn:Hc; [by eexists _, _|].
  destruct (negb (context_mgr_uid st =? no_uid) && negb (context_mgr_uid st =? euid)) eqn:Hu; [by eexists _, _|].
  assert (Hu' : context_mgr_uid st = no_uid \/ context_mgr_uid st = euid).
  { apply andb_false_iff in Hu as [Hu|Hu]; apply negb_false_iff, Z.eqb_eq in Hu; auto. }
  set (uid := if context_mgr_uid st =? no_uid then _ else _). pose proof (uid_inv owner hs hw st uid Hi) as Hi0. rewrite Hc in Hi0.
  destruct (new_node_spec owner hs hw kz (set_context_mgr st None uid) p 0 0 pr Hi0 Hp Hkz)
    as [[-> _]|(a & s1 & Ea & -> & Hi1 & _ & En & Er & Ec)]; cbn [mbind option_bind]; [by eexists _, _|].
  set (n0 := mk_node _ _ _ _ _ _ _ _ _ _ _ _) in En. rewrite En, lookup_insert_eq. cbn [mbind option_bind].
  set (n1 := with_flags _ _ _ _ _). eexists _, 0. split; [done|]. destruct (Hkz a Ea) as [Hfresh Ha].
  destruct (iv_holds _ _ _ _ Hi a) as (_ & _ & H0). destruct (H0 Hfresh) as [Hs0 Hw0].
  assert (Hn0 : node_at s1 !! a = Some n0) by (by rewrite En, lookup_insert_eq).
  assert (Hcx : forall b, ctx_hold s1 b = 0) by (intros b; unfold ctx_hold; by rewrite Ec).
  split; [|split; [|done]].
  - assert (Hi2 : refs_inv owner (hold hs a 1) (hold hw a 1) (put_node s1 a n1)).
    { apply (put_node_inv owner hs hw _ _ s1 a n0); try done.
      - split; [done|]. simpl. rewrite (Hcx a), !hold_eq, Hs0, Hw0. done.
      - intros b Hb. by rewrite !hold_ne.
      - rewrite hold_eq, Hcx. lia.
      - rewrite hold_eq, Hcx. lia. }
    apply (ctx_change_inv owner (hold hs a 1) (hold hw a 1) hs hw (put_node s1 a n1) (Some a) uid Hi2).
    + intros b [= <-]. exists p. unfold owned, proc_of. simpl. by rewrite lookup_insert_eq.
    + intros b. destruct (iv_holds _ _ _ _ Hi b) as (? & ? & _). unfold ctx_hold, hold. simpl. rewrite Ec. simpl.
      destruct (decide (b = a)) as [->|]; [rewrite bool_decide_eq_true_2 by done; simpl; lia|].
      rewrite bool_decide_eq_false_2 by congruence. simpl. lia.
    + intros b. destruct (iv_holds _ _ _ _ Hi b) as (? & ? & _). unfold ctx_hold, hold. simpl. rewrite Ec. simpl.
      destruct (decide (b = a)) as [->|]; [rewrite bool_decide_eq_true_2 by done; simpl; lia|].
      rewrite bool_decide_eq_false_2 by congruence. simpl. lia.
  - intros _. exists a, n1. simpl. rewrite lookup_insert_eq. done.
Qed.

End BinderRefsSafe.
