(* ===== verification/BinderRelease.v ===== *)
(** The end of a binder process: what binder_deferred_release() does to the
    nodes, references and death notifications of BinderRefs.v. *)

From S2P Require Import Prelude RbTree KeyTree BinderRefs BinderRefsInv BinderRefsCorrect BinderRefsSafe.
Local Open Scope Z_scope.
Local Open Scope kernel_scope.

Module BinderRelease.
Import RbTree KeyTree BinderRefs BinderRefsInv BinderRefsCorrect BinderRefsSafe.

(** ** What the operations leave alone *)

Lemma set_work_frame (st st' : binder) (w : work) (on : option Z) :
  set_work st w on = Some st' -> proc_at st' = proc_at st /\ ref_at st' = ref_at st /\ list_at st' = list_at st /\
    context_mgr_node st' = context_mgr_node st.
Proof.
  destruct w as [a|d]; simpl; [destruct (node_at st !! a)|destruct (death_at st !! d)]; cbn [mbind option_bind]; intros H;
    [apply Some_inj in H; by subst|done|apply Some_inj in H; by subst|done].
Qed.

Lemma list_del_frame (st st' : binder) (w : work) :
  list_del_init st w = Some st' -> proc_at st' = proc_at st /\ ref_at st' = ref_at st /\
    context_mgr_node st' = context_mgr_node st.
Proof.
  unfold list_del_init. destruct (work_on st w) as [[h|]|]; cbn [mbind option_bind]; [|by intros ->%Some_inj|done].
  destruct (list_at st !! h); cbn [mbind option_bind]; [|done]. intros H%set_work_frame. tauto.
Qed.

Lemma list_add_frame (st st' : binder) (w : work) (h : Z) :
  list_add_tail st w h = Some st' -> proc_at st' = proc_at st /\ ref_at st' = ref_at st /\
    context_mgr_node st' = context_mgr_node st.
Proof.
  unfold list_add_tail. destruct (work_on st w) as [[x|]|]; cbn [mbind option_bind]; [done| |done].
  destruct (list_at st !! h); cbn [mbind option_bind]; [|done]. intros H%set_work_frame. tauto.
Qed.

Lemma procs_same_eq (st st' : binder) : proc_at st' = proc_at st -> procs_same st st'.
Proof. intros E p. by rewrite E. Qed.

Lemma procs_same_trans (s1 s2 s3 : binder) : procs_same s1 s2 -> procs_same s2 s3 -> procs_same s1 s3.
Proof. intros H1 H2 p. by rewrite H2, H1. Qed.

Lemma free_node_frame (st st' : binder) (a : Z) :
  free_node st a = Some st' -> procs_same st st' /\ context_mgr_node st' = context_mgr_node st.
Proof.
  unfold free_node. destruct (node_at st !! a) as [n|]; cbn [mbind option_bind]; [|done].
  destruct (list_del_init st (WorkNode a)) as [s1|] eqn:E; cbn [mbind option_bind]; [|done].
  apply list_del_frame in E as (Ep & _ & Ec). destruct (n_proc n) as [p|].
  - destruct (proc_at s1 !! p) as [pr|] eqn:Hp; cbn [mbind option_bind]; [|done].
    destruct (rb_erase a (nodes pr)) as [t|]; cbn [mbind option_bind]; [|done]. intros <-%Some_inj. split; [|done].
    apply (procs_same_trans _ s1); [by apply procs_same_eq|]. by apply (procs_same_put s1 p pr).
  - intros <-%Some_inj. split; [|done]. by apply procs_same_eq.
Qed.

Lemma dec_node_procs (st st' : binder) (a : Z) (s i : bool) : binder_dec_node st a s i = Some st' -> procs_same st st'.
Proof.
  unfold binder_dec_node, dec_last. destruct (node_at st !! a) as [n|]; cbn [mbind option_bind]; [|done].
  set (n' := dec_counts n s i). set (s1 := put_node st a n').
  assert (Hs1 : procs_same st s1) by done. assert (Hfree : forall x, free_node s1 a = Some x -> procs_same st x).
  { intros x [Hx _]%free_node_frame. by apply (procs_same_trans _ s1). }
  destruct (still_counted n' s); [by intros <-%Some_inj|].
  destruct (n_proc n') as [p|]; [destruct (has_strong_ref n' || has_weak_ref n')|].
  - case_bool_decide; [|by intros <-%Some_inj]. destruct (proc_at s1 !! p); cbn [mbind option_bind]; [|done].
    intros (E & _)%list_add_frame. by apply procs_same_eq.
  - destruct (_ && _); [apply Hfree|by intros <-%Some_inj].
  - destruct (_ && _); [apply Hfree|by intros <-%Some_inj].
Qed.

Lemma delete_ref_procs (st st' : binder) (r : Z) : binder_delete_ref st r = Some st' -> procs_same st st'.
Proof.
  unfold binder_delete_ref. destruct (ref_at st !! r) as [rf|]; cbn [mbind option_bind]; [|done].
  destruct (proc_at st !! r_proc rf) as [pr|] eqn:Hp; cbn [mbind option_bind]; [|done].
  destruct (rb_erase r (refs_by_desc pr)) as [td|]; cbn [mbind option_bind]; [|done].
  destruct (rb_erase r (refs_by_node pr)) as [tn|]; cbn [mbind option_bind]; [|done].
  set (s1 := put_proc st _ _). assert (H1 : procs_same st s1) by (by apply (procs_same_put st _ pr)).
  destruct (if negb (strong rf =? 0) then _ else _) as [s2|] eqn:E2; cbn [mbind option_bind]; [|done].
  assert (H2 : procs_same st s2).
  { destruct (negb (strong rf =? 0)); [|by apply Some_inj in E2 as <-].
    apply (procs_same_trans _ s1); [done|by apply (dec_node_procs _ _ _ _ _ E2)]. }
  destruct (node_at s2 !! r_node rf) as [n|]; cbn [mbind option_bind]; [|done].
  destruct (binder_dec_node _ _ false true) as [s3|] eqn:E3; cbn [mbind option_bind]; [|done].
  apply dec_node_procs in E3. assert (H3 : procs_same st s3) by (by apply (procs_same_trans _ s2)).
  destruct (match death rf with Some d => _ | None => _ end) as [s4|] eqn:E4; cbn [mbind option_bind]; [|done].
  intros <-%Some_inj. apply (procs_same_trans _ s3); [done|]. destruct (death rf) as [d|]; [|by apply Some_inj in E4 as <-].
  unfold free_death in E4. destruct (list_del_init s3 (WorkDeath d)) as [s5|] eqn:E5; cbn [mbind option_bind] in E4; [|done].
  apply Some_inj in E4 as <-. apply list_del_frame in E5 as (E5 & _). by apply procs_same_eq.
Qed.

Lemma list_del_put_proc (st : binder) (p : Z) (x : binder_proc) (w : work) :
  list_del_init (put_proc st p x) w = (fun s => put_proc s p x) <$> list_del_init st w.
Proof.
  unfold list_del_init. destruct w as [a|d]; simpl.
  - destruct (node_at st !! a) as [n|] eqn:Hn; simpl; [|done]. destruct (n_work n) as [h|]; [|done].
    destruct (list_at st !! h); done.
  - destruct (death_at st !! d) as [dt|] eqn:Hd; simpl; [|done]. destruct (d_work dt) as [h|]; [|done].
    destruct (list_at st !! h); done.
Qed.

Section Release.
Context (owner : Z -> Z).

(** ** Work that is dropped *)

Lemma node_same_trans (s1 s2 s3 : binder) : node_same s1 s2 -> node_same s2 s3 -> node_same s1 s3.
Proof using. clear owner. intros H1 H2 a. by rewrite H2, H1. Qed.

(** The parts of the store that dropping work leaves alone. *)
Definition work_frame (st st' : binder) : Prop :=
  node_same st st' /\ ref_at st' = ref_at st /\ proc_at st' = proc_at st /\ context_mgr_node st' = context_mgr_node st /\
  forall h, is_Some (list_at st !! h) -> is_Some (list_at st' !! h).

Lemma work_frame_trans (s1 s2 s3 : binder) : work_frame s1 s2 -> work_frame s2 s3 -> work_frame s1 s3.
Proof using.
  clear owner. intros (H1 & E1 & E2 & E3 & H2) (H1' & E1' & E2' & E3' & H2'). split; [by apply (node_same_trans _ s2)|].
  split; [congruence|]. split; [congruence|]. split; [congruence|auto].
Qed.

(** Notifications that are not on the list [h]. *)
Definition deaths_off (st st' : binder) (h : Z) : Prop :=
  forall d dt, death_at st !! d = Some dt -> d_work dt <> Some h -> death_at st' !! d = Some dt.

Lemma list_del_step (hs hw : Z -> Z) (st : binder) (h : Z) (w : work) (l : list work) :
  refs_inv owner hs hw st -> list_at st !! h = Some (w :: l) ->
  exists st', list_del_init st w = Some st' /\ refs_inv owner hs hw st' /\ list_at st' = <[h := l]> (list_at st) /\
    work_frame st st' /\ deaths_off st st' h.
Proof using.
  intros Hi Hl. pose proof (iv_lists _ _ _ _ Hi) as Hlo.
  assert (Hon : work_on st w = Some (Some h)) by (apply (lo_elem _ _ Hlo); exists (w :: l); split; [done|by left]).
  assert (Hlist : forall st', list_del_init st w = Some st' -> list_at st' = <[h := l]> (list_at st)).
  { intros st' E. unfold list_del_init in E. rewrite Hon in E. cbn [mbind option_bind] in E. rewrite Hl in E.
    cbn [mbind option_bind] in E. apply set_work_frame in E as (_ & _ & -> & _). simpl. f_equal.
    pose proof (lo_nodup _ _ Hlo h _ Hl) as [Hw _]%NoDup_cons. rewrite filter_cons_False by (intros H; by apply H).
    apply list_filter_all. intros x Hx ->. done. }
  assert (Hfr : forall st', list_del_init st w = Some st' -> node_same st st' -> work_frame st st').
  { intros st' E Hs. pose proof E as (? & ? & ?)%list_del_frame. split_and!; try done.
    intros x [y Hy]. rewrite (Hlist st' E). destruct (decide (x = h)) as [->|]; [rewrite lookup_insert_eq; by eexists|].
    rewrite lookup_insert_ne by done. by eexists. }
  destruct w as [a|d]; simpl in Hon.
  - destruct (node_at st !! a) as [n|] eqn:Hn; [|done].
    destruct (del_node_inv owner hs hw st a n Hi Hn) as (st' & E & Hi' & En & _ & _ & Ed & _). exists st'.
    split; [done|]. split; [done|]. split; [auto|]. split; [|intros d dt; by rewrite Ed].
    apply Hfr; [done|]. pose proof (node_same_put st a n None Hn) as Hs. intros b. rewrite En. apply Hs.
  - destruct (death_at st !! d) as [dt|] eqn:Hd; [|done].
    destruct (del_death_inv owner hs hw st d dt Hi Hd) as (st' & E & Hi' & Ed & En & _). exists st'. injection Hon as Hon.
    split; [done|]. split; [done|]. split; [auto|]. split; [apply Hfr; [done|]; intros b; by rewrite En|].
    intros e dte He Hw. rewrite Ed, lookup_insert_ne; [done|]. congruence.
Qed.

Lemma release_work_inv (hs hw : Z -> Z) (h : Z) (l : list work) : forall st : binder,
  refs_inv owner hs hw st -> list_at st !! h = Some l ->
  exists st', binder_release_work (length l) st h = Some st' /\ refs_inv owner hs hw st' /\ list_at st' !! h = Some [] /\
    work_frame st st' /\ deaths_off st st' h.
Proof using.
  induction l as [|w l IH]; intros st Hi Hl; simpl; rewrite Hl; cbn [mbind option_bind].
  - exists st. split_and!; try done. by intros d dt ? _.
  - destruct (list_del_step hs hw st h w l Hi Hl) as (s1 & -> & Hi1 & El & Hf1 & Hd1). cbn [mbind option_bind].
    destruct (IH s1 Hi1) as (st' & E & Hi' & El' & Hf' & Hd'); [by rewrite El, lookup_insert_eq|].
    exists st'. split; [done|]. split; [done|]. split; [done|]. split; [by apply (work_frame_trans _ s1)|].
    intros d dt Hd Hw. apply Hd'; [by apply Hd1|done].
Qed.

Lemma release_list_inv (hs hw : Z -> Z) (st : binder) (h : Z) :
  refs_inv owner hs hw st -> is_Some (list_at st !! h) ->
  exists st', release_work st h = Some st' /\ refs_inv owner hs hw st' /\ list_at st' !! h = Some [] /\ work_frame st st' /\
    deaths_off st st' h.
Proof using. intros Hi [l Hl]. unfold release_work. rewrite Hl. cbn [mbind option_bind]. by apply release_work_inv. Qed.

Lemma release_threads_inv (hs hw : Z -> Z) (threads : list Z) : forall st : binder,
  refs_inv owner hs hw st -> (forall h, h ∈ threads -> is_Some (list_at st !! h)) ->
  exists st', release_threads st threads = Some st' /\ refs_inv owner hs hw st' /\ work_frame st st'.
Proof using.
  induction threads as [|h threads IH]; intros st Hi Ht; simpl; [by exists st|].
  destruct (release_list_inv hs hw st h Hi) as (s1 & -> & Hi1 & _ & Hf & _); [apply Ht; by left|]. cbn [mbind option_bind].
  destruct (IH s1 Hi1) as (st' & -> & Hi' & Hf'); [intros x Hx; apply Hf, Ht; by right|].
  exists st'. split_and!; try done. by apply (work_frame_trans _ s1).
Qed.
(** ** A node whose owner goes *)

Definition zero (h : Z -> Z) (a : Z) : Z -> Z := fun b => if decide (b = a) then 0 else h b.

Lemma zero_eq (h : Z -> Z) (a : Z) : zero h a a = 0.
Proof using. clear owner. unfold zero. by rewrite decide_True. Qed.

Lemma zero_ne (h : Z -> Z) (a b : Z) : b <> a -> zero h a b = h b.
Proof using. clear owner. unfold zero. intros. by rewrite decide_False. Qed.

Definition no_holds (n : binder_node) : binder_node :=
  with_flags (with_counts n (internal_strong_refs n) 0 0) (has_strong_ref n) false (has_weak_ref n) false.

Lemma no_holds_inv (hs hw : Z -> Z) (st : binder) (a p : Z) (n : binder_node) :
  refs_inv owner hs hw st -> node_at st !! a = Some n -> n_proc n = Some p -> context_mgr_node st <> Some a ->
  refs_inv owner (zero hs a) (zero hw a) (put_node st a (no_holds n)).
Proof using.
  intros Hi Hn Hp Hc. assert (Hcx : ctx_hold st a = 0) by (unfold ctx_hold; by rewrite bool_decide_eq_false_2).
  apply (put_node_inv owner hs hw _ _ st a n); try done.
  - split; [done|]. simpl. rewrite Hp, Hcx, !zero_eq. done.
  - intros b Hb. by rewrite !zero_ne.
  - rewrite zero_eq. lia.
  - rewrite zero_eq. lia.
Qed.

(** Without references the node is freed, whatever holds there were. *)
Lemma release_free_eq (st : binder) (p a : Z) (n : binder_node) (pr : binder_proc) :
  node_at st !! a = Some n -> n_proc n = Some p -> n_refs n = [] -> proc_at st !! p = Some pr ->
  release_node st p a = free_node (put_node st a (no_holds n)) a.
Proof using.
  clear owner. intros Hn Hp Hr Hpr. unfold release_node, free_node. rewrite Hpr. cbn [mbind option_bind].
  simpl node_at. rewrite lookup_insert_eq. cbn [mbind option_bind]. unfold list_del_init, work_on. simpl. rewrite lookup_insert_eq, Hn.
  simpl. rewrite Hp. destruct (n_work n) as [h|] eqn:Hw.
  - destruct (list_at st !! h) as [l|]; simpl; [|by destruct (rb_erase a (nodes pr))].
    rewrite Hpr. simpl. destruct (rb_erase a (nodes pr)) as [t|]; simpl; [|done]. rewrite lookup_insert_eq. simpl.
    rewrite Hr. simpl. f_equal. unfold set_nodes, put_node, put_proc, set_procs, put_list, set_lists. simpl.
    by rewrite !delete_insert_eq.
  - simpl. rewrite Hpr. simpl. destruct (rb_erase a (nodes pr)) as [t|]; simpl; [|done]. rewrite Hn. simpl. rewrite Hr. simpl.
    f_equal. unfold set_nodes, put_node, put_proc, set_procs. simpl. by rewrite !delete_insert_eq.
Qed.

(** With references it stays, dead. *)
Definition dead_node (n : binder_node) : binder_node :=
  mk_node None (n_refs n) (internal_strong_refs n) 0 0 (n_ptr n) (n_cookie n) (has_strong_ref n)
    (pending_strong_ref n) (has_weak_ref n) (pending_weak_ref n) (n_work n).

Section Kill.
Context (hs hw : Z -> Z) (st : binder) (a p : Z) (n : binder_node) (pr : binder_proc) (t : tree).
Context (Hi : refs_inv owner hs hw st) (Hn : node_at st !! a = Some n) (Hp : n_proc n = Some p) (Hw : n_work n = None).
Context (Hpr : proc_at st !! p = Some pr) (Hc : context_mgr_node st <> Some a).
Context (Ht : key_tree (node_key st) t (fun b => owned st p b /\ b <> a)).
Let st' := set_dead_nodes (put_node (put_proc st p (with_nodes pr t)) a (dead_node n)) (a :: binder_dead_nodes st).

Lemma kill_ne (b : Z) : b <> a -> node_at st' !! b = node_at st !! b.
Proof using. clear Ht. intros Hb. simpl. by rewrite lookup_insert_ne. Qed.

Lemma kill_key (b : Z) : node_key st' b = node_key st b.
Proof using Hn.
  clear Ht. unfold node_key. destruct (decide (b = a)) as [->|]; [simpl; by rewrite lookup_insert_eq, Hn|by rewrite kill_ne].
Qed.

Lemma kill_proc_of (b : Z) : proc_of st' b = if decide (b = a) then Some None else proc_of st b.
Proof using.
  clear Ht. unfold proc_of. case_decide as E; [rewrite E; simpl; by rewrite lookup_insert_eq|by rewrite kill_ne].
Qed.

Lemma kill_owned (q b : Z) : owned st' q b <-> owned st q b /\ b <> a.
Proof using.
  clear Ht. unfold owned. rewrite kill_proc_of. case_decide; [split; [done|by intros [_ ?]]|]. split; [done|by intros [? _]].
Qed.

Lemma kill_procs : procs_same st st'.
Proof using Hpr. clear Ht. by apply (procs_same_put st p pr). Qed.

Lemma kill_trees : trees_ok st'.
Proof using Hi Hn Hp Hpr Ht.
  intros q qr Hq. simpl in Hq. apply lookup_insert_Some in Hq as [[<- <-]|[Hne Hq]].
  - destruct (iv_trees _ _ _ _ Hi p pr Hpr) as (_ & H2 & H3). split_and!; try done.
    apply (key_tree_ext _ _ _ _ _ Ht); [intros b; by rewrite kill_owned|]. intros b _. apply kill_key.
  - destruct (iv_trees _ _ _ _ Hi q qr Hq) as (H1 & H2 & H3). split_and!; try done.
    apply (key_tree_ext _ _ _ _ _ H1); [|intros b _; apply kill_key]. intros b. rewrite kill_owned.
    split; [|tauto]. intros Hb. split; [done|]. intros ->. unfold owned in Hb. rewrite (proc_of_Some st a n Hn) in Hb. congruence.
Qed.

Lemma kill_lists : lists_ok owner st'.
Proof using Hi Hn Hw Hpr.
  clear Ht. pose proof (iv_lists _ _ _ _ Hi) as Hlo. apply (lists_ok_ext owner st); [done|done|apply kill_procs| |].
  - intros [b|e] h; [|done]. simpl. destruct (decide (b = a)) as [->|]; [by rewrite lookup_insert_eq, Hn|].
    by rewrite lookup_insert_ne.
  - apply (owners_ext owner st); [exact (lo_owner _ _ Hlo)|apply kill_procs|]. intros b m h Hm Hwm. simpl in Hm.
    apply lookup_insert_Some in Hm as [[<- <-]|[_ Hm]]; [simpl in Hwm; congruence|]. by exists m.
Qed.

Lemma kill_node_inv : refs_inv owner (zero hs a) (zero hw a) st'.
Proof using Hi Hn Hp Hw Hpr Hc Ht.
  pose proof Hi as [_ Hnodes Hholds Hrefs Hinj _ [Hd1 Hd2] Hctx Hsize].
  assert (Hcx : forall b, ctx_hold st' b = ctx_hold st b) by done.
  split; [apply kill_trees| | | |done|apply kill_lists| | |done].
  - intros b m Hm. destruct (decide (b = a)) as [->|Hb].
    + simpl in Hm. rewrite lookup_insert_eq in Hm. injection Hm as <-. destruct (Hnodes a n Hn) as [H1 H2 H3 H4 H5 [H6 _]].
      split; try done. split; [done|]. simpl. by rewrite !zero_eq.
    + rewrite kill_ne in Hm by done. destruct (Hnodes b m Hm) as [H1 H2 H3 H4 H5 [H6 H7]]. split; try done.
      * intros q Hq. apply (procs_same_some st st' q kill_procs). by apply H2.
      * split; [done|]. by rewrite !zero_ne, Hcx.
  - intros b. rewrite Hcx. destruct (Hholds b) as (? & ? & H). destruct (decide (b = a)) as [->|Hb].
    + rewrite !zero_eq. split; [lia|]. split; [lia|done].
    + rewrite !zero_ne, kill_ne by done. done.
  - intros r rf Hr. destruct (Hrefs r rf Hr) as [H1 H2 H3 H4 H5]. split; try done.
    + destruct (decide (r_node rf = a)) as [->|]; [simpl; rewrite lookup_insert_eq; by eexists|by rewrite kill_ne].
    + by apply (procs_same_some st st' _ kill_procs).
    + intros d Hd. destruct (H5 d Hd) as (dt & ? & ? & ? & H6). exists dt. split_and!; try done.
      intros q. rewrite kill_proc_of. case_decide; [done|]. apply H6.
  - simpl. assert (Ha : a ∉ binder_dead_nodes st) by (rewrite Hd2, (proc_of_Some st a n Hn); congruence).
    split; [by constructor|]. intros b. rewrite elem_of_cons, Hd2, kill_proc_of. case_decide as E; [subst; tauto|].
    split; [intros [?|?]; done|auto].
  - intros c Hcc. destruct (Hctx c Hcc) as [q Hq]. exists q. apply kill_owned. split; [done|]. intros ->. by apply Hc.
Qed.
End Kill.
(** ** The notifications of a dead node *)

(** A notification of one of the references in [l]. *)
Definition death_among (st : binder) (l : list Z) (d : Z) : Prop :=
  exists r rf, r ∈ l /\ ref_at st !! r = Some rf /\ death rf = Some d.

(** The notification is queued on the list of the reference's process. *)
Definition death_queued (st st' : binder) (rf : binder_ref) (d : Z) : Prop :=
  exists dt pr, death_at st' !! d = Some dt /\ d_type dt = DEAD_BINDER /\ proc_at st !! r_proc rf = Some pr /\
    d_work dt = Some (todo pr).

Record deaths_sent (st st' : binder) (l : list Z) : Prop := {
  ds_node : node_at st' = node_at st;
  ds_ref : ref_at st' = ref_at st;
  ds_proc : proc_at st' = proc_at st;
  ds_ctx : context_mgr_node st' = context_mgr_node st;
  ds_sent : forall r rf d, r ∈ l -> ref_at st !! r = Some rf -> death rf = Some d -> death_queued st st' rf d;
  ds_other : forall d, ~ death_among st l d -> death_at st' !! d = death_at st !! d
}.

Lemma queue_deaths_inv (hs hw : Z -> Z) (l : list Z) : forall st : binder,
  refs_inv owner hs hw st -> NoDup l ->
  (forall r, r ∈ l -> exists rf, ref_at st !! r = Some rf /\ proc_of st (r_node rf) = Some None) ->
  (forall d dt, death_among st l d -> death_at st !! d = Some dt -> d_work dt = None) ->
  exists st', queue_deaths st l = Some st' /\ refs_inv owner hs hw st' /\ deaths_sent st st' l.
Proof using.
  induction l as [|r l IH]; intros st Hi Hnd Hl Hwork; simpl.
  { exists st. split; [done|]. split; [done|]. split; try done. by intros r rf d ?%not_elem_of_nil. }
  apply NoDup_cons in Hnd as [Hr Hnd]. destruct (Hl r) as (rf & Hrf & Hdead); [by left|]. rewrite Hrf. cbn [mbind option_bind].
  destruct (death rf) as [d|] eqn:Hd.
  - destruct (ref_death_ok owner hs hw st r rf d Hi Hrf Hd) as (dt & Hdt & _). rewrite Hdt. cbn [mbind option_bind].
    assert (Hw : d_work dt = None) by (apply (Hwork d dt); [exists r, rf; split; [by left|done]|done]).
    rewrite bool_decide_eq_true_2 by done. cbn [negb]. simpl BUG_ON. cbn [mbind option_bind].
    destruct (ro_proc _ _ _ (iv_refs _ _ _ _ Hi r rf Hrf)) as [pr Hpr]. rewrite Hpr. cbn [mbind option_bind].
    assert (Hinj : forall r' rf', ref_at st !! r' = Some rf' -> death rf' = Some d -> r' = r).
    { intros r' rf' Hr' Hd'. exact (iv_inj _ _ _ _ Hi r' r rf' rf d Hr' Hrf Hd' Hd). }
    destruct (queue_death_inv owner hs hw st d (todo pr) dt DEAD_BINDER Hi Hdt Hw) as (s1 & E1 & Hi1 & Ed & En & Er & Ep & _).
    { by destruct (lo_proc _ _ (iv_lists _ _ _ _ Hi) _ pr Hpr). }
    { intros r' rf' Hr' Hd'. split; [done|]. rewrite (Hinj r' rf' Hr' Hd') in Hr'. intros q. assert (rf' = rf) as -> by congruence.
      congruence. }
    rewrite E1. cbn [mbind option_bind]. apply list_add_frame in E1 as (_ & _ & Ec). simpl in Ec.
    assert (Hnot : ~ death_among st l d).
    { intros (r' & rf' & Hin & Hr' & Hd'). apply Hr. by rewrite <- (Hinj r' rf' Hr' Hd'). }
    assert (Ham : forall e, death_among s1 l e <-> death_among st l e) by (intros e; unfold death_among; by rewrite Er).
    destruct (IH s1 Hi1 Hnd) as (st' & -> & Hi' & [Hn' Hr' Hp' Hc' Hsent Hother]).
    { intros x Hx. rewrite Er. unfold proc_of. rewrite En. apply Hl. by right. }
    { intros e dte He%Ham. rewrite Ed, lookup_insert_ne; [|congruence]. apply Hwork.
      destruct He as (x & y & ? & ?). exists x, y. split; [by right|done]. }
    exists st'. split; [done|]. split; [done|]. split; try congruence.
    + intros x y e Hx Hy He. apply elem_of_cons in Hx as [->|Hx].
      * assert (y = rf) as -> by congruence. assert (e = d) as -> by congruence.
        exists (with_death_work dt DEAD_BINDER (Some (todo pr))), pr. rewrite Hother by (by rewrite Ham). rewrite Ed, lookup_insert_eq. done.
      * destruct (Hsent x y e Hx) as (dte & qr & ? & ? & ? & ?); [by rewrite Er|done|]. exists dte, qr. by rewrite <- Ep.
    + intros e He. rewrite Hother; [rewrite Ed; apply lookup_insert_ne|].
      * intros ->. apply He. exists r, rf. split; [by left|done].
      * rewrite Ham. intros (x & y & ? & ?). apply He. exists x, y. split; [by right|done].
  - destruct (IH st Hi Hnd) as (st' & -> & Hi' & [Hn' Hr' Hp' Hc' Hsent Hother]).
    { intros x Hx. apply Hl. by right. }
    { intros e dte (x & y & ? & ?). apply Hwork. exists x, y. split; [by right|done]. }
    exists st'. split; [done|]. split; [done|]. split; try done.
    + intros x y e Hx Hy He. apply elem_of_cons in Hx as [->|Hx]; [congruence|]. by apply (Hsent x y e).
    + intros e He. apply Hother. intros (x & y & ? & ?). apply He. exists x, y. split; [by right|done].
Qed.
(** What is left when the owner of [a] goes: the node itself only if there
    are references to it, and their notifications are queued. *)
Record node_gone (st st' : binder) (a : Z) : Prop := {
  ng_ref : ref_at st' = ref_at st;
  ng_procs : procs_same st st';
  ng_ctx : context_mgr_node st' = context_mgr_node st;
  ng_dead : (exists r, target_of st r = Some a) -> proc_of st' a = Some None;
  ng_free : (forall r, target_of st r <> Some a) -> node_at st' !! a = None;
  ng_others : forall b, b <> a -> node_at st' !! b = node_at st !! b;
  ng_sent : forall r rf d, ref_at st !! r = Some rf -> r_node rf = a -> death rf = Some d -> death_queued st st' rf d;
  ng_kept : forall r rf d, ref_at st !! r = Some rf -> r_node rf <> a -> death rf = Some d -> death_at st' !! d = death_at st !! d
}.
Lemma gone_owned (hs hw : Z -> Z) (st st' : binder) (a : Z) (n : binder_node) :
  refs_inv owner hs hw st -> node_at st !! a = Some n -> node_gone st st' a ->
  forall q b, owned st' q b <-> owned st q b /\ b <> a.
Proof using.
  intros Hi Hn [_ _ _ Hd Hf Ho _ _] q b. unfold owned. destruct (decide (b = a)) as [->|Hb].
  - split; [|by intros [_ ?]]. intros H. exfalso. destruct (n_refs n) as [|r l] eqn:Hr.
    + unfold proc_of in H. rewrite Hf in H; [done|]. intros r Hx%(no_refs _ _ _ _ _ (iv_nodes _ _ _ _ Hi a n Hn)).
      rewrite Hr in Hx. by apply not_elem_of_nil in Hx.
    + rewrite Hd in H; [done|]. exists r. apply (no_refs _ _ _ _ _ (iv_nodes _ _ _ _ Hi a n Hn)). rewrite Hr. by left.
  - unfold proc_of. rewrite Ho by done. tauto.
Qed.

Lemma release_node_dead (hs hw : Z -> Z) (st : binder) (p a : Z) (n : binder_node) (pr : binder_proc) :
  refs_inv owner hs hw st -> node_at st !! a = Some n -> n_proc n = Some p -> proc_at st !! p = Some pr ->
  context_mgr_node st <> Some a -> n_refs n <> [] ->
  exists st', release_node st p a = Some st' /\ refs_inv owner (zero hs a) (zero hw a) st' /\ node_gone st st' a.
Proof using.
  intros Hi Hn Hp Hpr Hc Hne. unfold release_node. rewrite Hpr. cbn [mbind option_bind].
  destruct (del_node_inv owner hs hw st a n Hi Hn) as (s1 & E1 & Hi1 & En1 & Ep1 & Er1 & Ed1 & _ & Ec1 & _).
  assert (Hn1 : node_at s1 !! a = Some (with_work n None)) by (by rewrite En1, lookup_insert_eq).
  assert (Hpr1 : proc_at s1 !! p = Some pr) by (by rewrite Ep1). destruct (iv_trees _ _ _ _ Hi1 p pr Hpr1) as (Ht & _ & _).
  assert (Hown : owned s1 p a) by (unfold owned; rewrite (proc_of_Some s1 a _ Hn1); simpl; by rewrite Hp).
  destruct (key_erase _ _ _ Ht a Hown) as (t & -> & Ht'). cbn [mbind option_bind].
  rewrite list_del_put_proc, E1. cbn [fmap option_fmap option_map mbind option_bind]. simpl node_at. rewrite Hn1. cbn [mbind option_bind].
  change (n_refs (with_work n None)) with (n_refs n). rewrite bool_decide_eq_false_2 by done.
  pose proof (kill_node_inv hs hw s1 a p (with_work n None) pr t Hi1 Hn1 Hp eq_refl Hpr1 ltac:(by rewrite Ec1) Ht') as Hi2.
  set (s2 := set_dead_nodes _ _) in *. destruct (iv_nodes _ _ _ _ Hi a n Hn) as [_ _ Hnd Hrefs _ _].
  assert (Ha2 : proc_of s2 a = Some None) by (unfold proc_of, s2; simpl; by rewrite lookup_insert_eq).
  assert (Hr2 : ref_at s2 = ref_at st) by done. assert (Hd2 : death_at s2 = death_at st) by done.
  assert (Htgt : forall r rf, ref_at st !! r = Some rf -> r ∈ n_refs n <-> r_node rf = a).
  { intros r rf Hrf. rewrite Hrefs. unfold target_of. rewrite Hrf. simpl. split; [by intros [= ->]|by intros ->]. }
  destruct (queue_deaths_inv _ _ (n_refs n) s2 Hi2 Hnd) as (st' & E & Hi' & [Hn' Hr' Hp' Hc' Hsent Hother]).
  { intros r Hr. pose proof (proj1 (Hrefs r) Hr) as Hx. unfold target_of in Hx. destruct (ref_at st !! r) as [rf|] eqn:Hrf; [|done].
    exists rf. rewrite Hr2. split; [done|]. injection Hx as ->. exact Ha2. }
  { intros d dt (r & rf & Hr & Hrf & Hd). rewrite Hr2 in Hrf. rewrite Hd2. intros Hdt. apply (Htgt r rf Hrf) in Hr.
    destruct (ref_death_ok owner hs hw st r rf d Hi Hrf Hd) as (dt' & Hdt' & _ & _ & H). assert (dt' = dt) as -> by congruence.
    apply (H p). rewrite Hr, (proc_of_Some st a n Hn). congruence. }
  exists st'. split; [exact E|]. split; [done|]. split.
  - by rewrite Hr', Hr2.
  - intros q. rewrite Hp'. rewrite <- Ep1. by apply (procs_same_put s1 p pr).
  - rewrite Hc'. exact Ec1.
  - intros _. unfold proc_of. rewrite Hn'. exact Ha2.
  - intros Hno. destruct (n_refs n) as [|r l]; [done|]. exfalso. apply (Hno r), Hrefs. by left.
  - intros b Hb. rewrite Hn'. unfold s2. simpl. rewrite lookup_insert_ne, En1, lookup_insert_ne by done. done.
  - intros r rf d Hrf Hx Hd. destruct (Hsent r rf d) as (dt & qr & ? & ? & Hq & ?); [by apply (Htgt r rf)|by rewrite Hr2|done|].
    unfold s2 in Hq. simpl in Hq. apply lookup_insert_Some in Hq as [[Hpq <-]|[_ Hq]]; [exists dt, pr; by rewrite <- Hpq|].
    exists dt, qr. by rewrite <- Ep1.
  - intros r rf d Hrf Hx Hd. rewrite <- Hd2. apply Hother. intros (r' & rf' & Hr0 & Hrf' & Hd').
    rewrite Hr2 in Hrf'. apply (Htgt r' rf' Hrf') in Hr0.
    assert (r' = r) as -> by exact (iv_inj _ _ _ _ Hi r' r rf' rf d Hrf' Hrf Hd' Hd). congruence.
Qed.

Lemma release_node_inv (hs hw : Z -> Z) (st : binder) (p a : Z) (n : binder_node) (pr : binder_proc) :
  refs_inv owner hs hw st -> node_at st !! a = Some n -> n_proc n = Some p -> proc_at st !! p = Some pr ->
  context_mgr_node st <> Some a ->
  exists st', release_node st p a = Some st' /\ refs_inv owner (zero hs a) (zero hw a) st' /\ node_gone st st' a.
Proof using.
  intros Hi Hn Hp Hpr Hc. destruct (decide (n_refs n = [])) as [Hr|Hr]; [|by apply (release_node_dead hs hw st p a n pr)].
  rewrite (release_free_eq st p a n pr Hn Hp Hr Hpr).
  assert (Hno : forall r rf, ref_at st !! r = Some rf -> r_node rf <> a).
  { intros r rf Hrf E. assert (Hx : r ∈ n_refs n); [|rewrite Hr in Hx; by apply not_elem_of_nil in Hx].
    apply (no_refs _ _ _ _ _ (iv_nodes _ _ _ _ Hi a n Hn)). unfold target_of. rewrite Hrf. simpl. congruence. }
  destruct (free_node_inv owner _ _ (put_node st a (no_holds n)) a (no_holds n) (no_holds_inv hs hw st a p n Hi Hn Hp Hc))
    as (st' & E & Hi' & En & Er & Ed); [simpl; by rewrite lookup_insert_eq|done|done|done|].
  exists st'. split; [done|]. split; [done|]. destruct (free_node_frame _ _ _ E) as [Hps Hcx]. simpl in En.
  rewrite delete_insert_eq in En. split; try done.
  - intros [r Hx]. unfold target_of in Hx. destruct (ref_at st !! r) as [rf|] eqn:Hrf; [|done]. injection Hx as Hx. by destruct (Hno r rf).
  - intros _. by rewrite En, lookup_delete_eq.
  - intros b Hb. by rewrite En, lookup_delete_ne.
  - intros r rf d Hrf Hx. by destruct (Hno r rf Hrf).
  - intros. by rewrite Ed.
Qed.
(** ** All nodes, then all references *)

#[local] Instance owned_dec (st : binder) (p a : Z) : Decision (owned st p a).
Proof using. clear owner. unfold owned. apply _. Defined.

(** The holds on the nodes of [p] are dropped. *)
Definition clear_holds (st : binder) (p : Z) (h : Z -> Z) : Z -> Z := fun b => if decide (owned st p b) then 0 else h b.

Record nodes_gone (st st' : binder) (p : Z) : Prop := {
  nsg_ref : ref_at st' = ref_at st;
  nsg_procs : procs_same st st';
  nsg_ctx : context_mgr_node st' = context_mgr_node st;
  nsg_none : forall b, ~ owned st' p b;
  nsg_dead : forall b, owned st p b -> (exists r, target_of st r = Some b) -> proc_of st' b = Some None;
  nsg_free : forall b, owned st p b -> (forall r, target_of st r <> Some b) -> node_at st' !! b = None;
  nsg_others : forall b, ~ owned st p b -> node_at st' !! b = node_at st !! b;
  nsg_sent : forall r rf d, ref_at st !! r = Some rf -> owned st p (r_node rf) -> death rf = Some d -> death_queued st st' rf d;
  nsg_kept : forall r rf d, ref_at st !! r = Some rf -> ~ owned st p (r_node rf) -> death rf = Some d ->
    death_at st' !! d = death_at st !! d
}.

Lemma nodes_gone_nil (st : binder) (p : Z) : (forall b, ~ owned st p b) -> nodes_gone st st p.
Proof using. clear owner. intros H. split; try done; intros; exfalso; by eapply H. Qed.

Lemma nodes_gone_cons (hs hw : Z -> Z) (st s1 st' : binder) (p a : Z) (n : binder_node) :
  refs_inv owner hs hw st -> node_at st !! a = Some n -> owned st p a -> node_gone st s1 a -> nodes_gone s1 st' p -> nodes_gone st st' p.
Proof using.
  intros Hi Hn Ha H1 H2. pose proof (gone_owned hs hw st s1 a n Hi Hn H1) as Hown.
  destruct H1 as [R1 P1 C1 D1 F1 O1 S1 K1], H2 as [R2 P2 C2 N2 D2 F2 O2 S2 K2].
  assert (Ha1 : ~ owned s1 p a) by (rewrite Hown; by intros [_ ?]).
  assert (Htgt : forall r, target_of s1 r = target_of st r) by (intros r; unfold target_of; by rewrite R1).
  split; [congruence|by apply (procs_same_trans _ s1)|congruence|done| | | | |].
  - intros b Hb Hr. destruct (decide (b = a)) as [->|Hne].
    + unfold proc_of. rewrite O2 by done. by apply D1.
    + apply D2; [by apply Hown|]. destruct Hr as [r Hr]. exists r. by rewrite Htgt.
  - intros b Hb Hr. destruct (decide (b = a)) as [->|Hne]; [rewrite O2 by done; by apply F1|].
    apply F2; [by apply Hown|]. intros r. by rewrite Htgt.
  - intros b Hb. assert (Hne : b <> a) by (by intros ->). rewrite O2, O1; try done. rewrite Hown. tauto.
  - intros r rf d Hr Hb Hd. destruct (decide (r_node rf = a)) as [E|Hne].
    + destruct (S1 r rf d Hr E Hd) as (dt & pr & ? & ? & ? & ?). exists dt, pr. split_and!; try done.
      rewrite (K2 r rf d); try done; [by rewrite R1|by rewrite E].
    + destruct (S2 r rf d) as (dt & pr & ? & ? & Hpr & Hw); [by rewrite R1|by apply Hown|done|].
      destruct (procs_same_inv st s1 _ pr P1 Hpr) as (pr0 & Hpr0 & Et & _). exists dt, pr0. split_and!; try done. by rewrite Hw, Et.
  - intros r rf d Hr Hb Hd. assert (Hne : r_node rf <> a) by (intros E; by rewrite E in Hb).
    rewrite (K2 r rf d), (K1 r rf d); try done; [by rewrite R1|]. rewrite Hown. tauto.
Qed.

Lemma tree_shrinks (t t' : tree) (key key' : Z -> option Z) (S S' : Z -> Prop) (a : Z) :
  key_tree key t S -> key_tree key' t' S' -> S a -> ~ S' a -> (forall x, S' x -> S x) ->
  (length (inorder t') < length (inorder t))%nat.
Proof using.
  clear owner. intros H1 H2 Ha Ha' Hsub. apply Nat.lt_le_trans with (length (a :: inorder t')); [simpl; lia|].
  apply submseteq_length, NoDup_submseteq.
  - constructor; [by rewrite (kt_elem _ _ _ H2)|by apply (key_tree_nodup _ _ _ H2)].
  - intros x [->|Hx]%elem_of_cons; apply (kt_elem _ _ _ H1); [done|]. apply Hsub. by apply (kt_elem _ _ _ H2).
Qed.

Lemma clear_none (hs hw : Z -> Z) (st : binder) (p : Z) (pr : binder_proc) :
  refs_inv owner hs hw st -> proc_at st !! p = Some pr -> inorder (nodes pr) = [] ->
  refs_inv owner (clear_holds st p hs) (clear_holds st p hw) st /\ nodes_gone st st p.
Proof using.
  intros Hi Hpr Hnil. destruct (iv_trees _ _ _ _ Hi p pr Hpr) as (Ht & _ & _).
  assert (Hno : forall b, ~ owned st p b).
  { intros b Hb%(kt_elem _ _ _ Ht). rewrite Hnil in Hb. by apply not_elem_of_nil in Hb. }
  split; [|by apply nodes_gone_nil]. apply (refs_inv_ext owner hs hw); [done|]. intros b. unfold clear_holds.
  by rewrite !decide_False.
Qed.

Lemma clear_zero (st s1 : binder) (p a b : Z) (h : Z -> Z) :
  owned st p a -> (forall q b, owned s1 q b <-> owned st q b /\ b <> a) ->
  clear_holds st p h b = clear_holds s1 p (zero h a) b.
Proof using.
  clear owner. intros Ha Hown. unfold clear_holds. destruct (decide (b = a)) as [->|Hne].
  - rewrite decide_True by done. rewrite zero_eq. by case_decide.
  - rewrite zero_ne by done. destruct (decide (owned st p b)) as [Hb|Hb], (decide (owned s1 p b)) as [Hb1|Hb1]; try done; exfalso.
    + by apply Hb1, Hown.
    + by apply Hb; apply Hown in Hb1 as [? _].
Qed.

Lemma release_nodes_inv (p : Z) (fuel : nat) : forall (hs hw : Z -> Z) (st : binder) (pr : binder_proc),
  refs_inv owner hs hw st -> proc_at st !! p = Some pr -> (length (inorder (nodes pr)) <= fuel)%nat ->
  (forall c, context_mgr_node st = Some c -> ~ owned st p c) ->
  exists st', release_nodes fuel st p = Some st' /\ refs_inv owner (clear_holds st p hs) (clear_holds st p hw) st' /\
    nodes_gone st st' p.
Proof using.
  induction fuel as [|fuel IH]; intros hs hw st pr Hi Hpr Hlen Hctx; simpl; rewrite Hpr; cbn [mbind option_bind];
    rewrite rb_first_head; destruct (inorder (nodes pr)) as [|a l] eqn:Hin; simpl in Hlen; cbn [head];
    [exists st; split; [done|by apply (clear_none hs hw st p pr)]|lia|exists st; split; [done|by apply (clear_none hs hw st p pr)]|].
  destruct (iv_trees _ _ _ _ Hi p pr Hpr) as (Ht & _ & _).
  assert (Ha : owned st p a) by (apply (kt_elem _ _ _ Ht); rewrite Hin; by left).
  pose proof Ha as Ha'. unfold owned, proc_of in Ha'. destruct (node_at st !! a) as [n|] eqn:Hn; [|done]. injection Ha' as Hp.
  destruct (release_node_inv hs hw st p a n pr Hi Hn Hp Hpr) as (s1 & -> & Hi1 & Hg); [by intros ?%Hctx|]. cbn [mbind option_bind].
  pose proof (gone_owned hs hw st s1 a n Hi Hn Hg) as Hown.
  destruct (procs_same_some st s1 p (ng_procs _ _ _ Hg)) as [pr1 Hpr1]; [by eexists|].
  destruct (iv_trees _ _ _ _ Hi1 p pr1 Hpr1) as (Ht1 & _ & _).
  assert (Hlt := tree_shrinks _ _ _ _ _ _ a Ht Ht1 Ha ltac:(rewrite Hown; by intros [_ ?]) ltac:(intros x; rewrite Hown; by intros [? _])).
  rewrite Hin in Hlt. simpl in Hlt. destruct (IH _ _ s1 pr1 Hi1 Hpr1) as (st' & -> & Hi' & Hgs); [lia| |].
  { rewrite (ng_ctx _ _ _ Hg). intros c Hc. rewrite Hown. intros [? _]. by apply (Hctx c). }
  exists st'. split; [done|]. split; [|by apply (nodes_gone_cons hs hw st s1 st' p a n)].
  apply (refs_inv_ext owner _ _ _ _ st' Hi'). intros b. split; by apply clear_zero.
Qed.

#[local] Instance refs_of_dec (st : binder) (p r : Z) : Decision (refs_of st p r).
Proof using. clear owner. unfold refs_of. apply _. Defined.

(** The references of [p] go; nodes go only with them. *)
Record refs_gone (st st' : binder) (p : Z) : Prop := {
  rg_ref : forall r, ref_at st' !! r = if decide (refs_of st p r) then None else ref_at st !! r;
  rg_procs : procs_same st st';
  rg_nodes : forall a x, proc_of st' a = Some x -> proc_of st a = Some x;
  rg_kept : forall r rf d, ref_at st !! r = Some rf -> r_proc rf <> p -> death rf = Some d -> death_at st' !! d = death_at st !! d
}.

Lemma refs_gone_nil (hs hw : Z -> Z) (st : binder) (p : Z) (pr : binder_proc) :
  refs_inv owner hs hw st -> proc_at st !! p = Some pr -> inorder (refs_by_desc pr) = [] -> refs_gone st st p.
Proof using.
  intros Hi Hpr Hnil. destruct (iv_trees _ _ _ _ Hi p pr Hpr) as (_ & Ht & _). split; try done.
  intros r. rewrite decide_False; [done|]. intros Hr%(kt_elem _ _ _ Ht). rewrite Hnil in Hr. by apply not_elem_of_nil in Hr.
Qed.

(** One reference. *)
Lemma delete_ref_gone (hs hw : Z -> Z) (st : binder) (p r : Z) (rf : binder_ref) :
  refs_inv owner hs hw st -> ref_at st !! r = Some rf -> r_proc rf = p ->
  exists s1, binder_delete_ref st r = Some s1 /\ refs_inv owner hs hw s1 /\ ref_at s1 = delete r (ref_at st) /\ procs_same st s1 /\
    (forall a x, proc_of s1 a = Some x -> proc_of st a = Some x) /\
    (forall r' rf' d, ref_at st !! r' = Some rf' -> r_proc rf' <> p -> death rf' = Some d -> death_at s1 !! d = death_at st !! d).
Proof using.
  intros Hi Hr Hp. destruct (ref_node owner hs hw st r rf Hi Hr) as [n Hn].
  destruct (delete_ref_inv owner hs hw st r rf n Hi Hr Hn) as (s1 & E & Hi1 & Er & Ed & Hleft). exists s1.
  split; [done|]. split; [done|]. split; [done|]. split; [by apply (delete_ref_procs _ _ _ E)|]. split.
  - intros a x. unfold proc_of. destruct Hleft as [(-> & _)|(n' & -> & _ & Hnp & _)]; destruct (decide (a = r_node rf)) as [->|];
      rewrite ?lookup_delete_eq, ?lookup_delete_ne, ?lookup_insert_eq, ?lookup_insert_ne; try done.
    rewrite Hn. simpl. by rewrite Hnp.
  - intros r' rf' d Hr' Hp' Hd'. rewrite Ed. destruct (death rf) as [e|] eqn:He; [|done]. apply lookup_delete_ne. intros ->.
    assert (r' = r) as -> by exact (iv_inj _ _ _ _ Hi r' r rf' rf d Hr' Hr Hd' He). congruence.
Qed.

Lemma refs_gone_cons (st s1 st' : binder) (p r : Z) (rf : binder_ref) :
  ref_at st !! r = Some rf -> r_proc rf = p -> ref_at s1 = delete r (ref_at st) -> procs_same st s1 ->
  (forall a x, proc_of s1 a = Some x -> proc_of st a = Some x) ->
  (forall r' rf' d, ref_at st !! r' = Some rf' -> r_proc rf' <> p -> death rf' = Some d -> death_at s1 !! d = death_at st !! d) ->
  refs_gone s1 st' p -> refs_gone st st' p.
Proof using.
  clear owner. intros Hr Hp Er Hps Hnodes Hkept [R P N K].
  assert (Hrest : forall r', r' <> r -> ref_at s1 !! r' = ref_at st !! r') by (intros r' Hne; by rewrite Er, lookup_delete_ne).
  split; [|by apply (procs_same_trans _ s1)|by auto|].
  - intros x. rewrite R. destruct (decide (x = r)) as [->|Hx].
    + rewrite (decide_True (P := refs_of st p r)) by (unfold refs_of; rewrite Hr; simpl; congruence).
      case_decide; [done|]. by rewrite Er, lookup_delete_eq.
    + assert (Hiff : refs_of s1 p x <-> refs_of st p x) by (unfold refs_of; by rewrite Hrest).
      destruct (decide (refs_of s1 p x)), (decide (refs_of st p x)); try tauto. by rewrite Hrest.
  - intros x y d Hx Hy Hd. rewrite (K x y d); [by apply (Hkept x y)| |done|done]. rewrite Hrest; [done|]. intros ->. congruence.
Qed.

Lemma release_refs_inv (hs hw : Z -> Z) (p : Z) (fuel : nat) : forall (st : binder) (pr : binder_proc),
  refs_inv owner hs hw st -> proc_at st !! p = Some pr -> (length (inorder (refs_by_desc pr)) <= fuel)%nat ->
  exists st', release_refs fuel st p = Some st' /\ refs_inv owner hs hw st' /\ refs_gone st st' p.
Proof using.
  induction fuel as [|fuel IH]; intros st pr Hi Hpr Hlen; simpl; rewrite Hpr; cbn [mbind option_bind];
    rewrite rb_first_head; destruct (inorder (refs_by_desc pr)) as [|r l] eqn:Hin; simpl in Hlen; cbn [head];
    [exists st; split; [done|split; [done|by apply (refs_gone_nil hs hw st p pr)]]|lia
    |exists st; split; [done|split; [done|by apply (refs_gone_nil hs hw st p pr)]]|].
  destruct (iv_trees _ _ _ _ Hi p pr Hpr) as (_ & Ht & _).
  assert (Hro : refs_of st p r) by (apply (kt_elem _ _ _ Ht); rewrite Hin; by left).
  pose proof Hro as Hx. unfold refs_of in Hx. destruct (ref_at st !! r) as [rf|] eqn:Hr; [|done]. injection Hx as Hp.
  destruct (delete_ref_gone hs hw st p r rf Hi Hr Hp) as (s1 & -> & Hi1 & Er & Hps & Hnodes & Hkept). cbn [mbind option_bind].
  destruct (procs_same_some st s1 p Hps) as [pr1 Hpr1]; [by eexists|].
  destruct (iv_trees _ _ _ _ Hi1 p pr1 Hpr1) as (_ & Ht1 & _).
  assert (Hlt : (length (inorder (refs_by_desc pr1)) < length (inorder (refs_by_desc pr)))%nat).
  { apply (tree_shrinks _ _ _ _ _ _ r Ht Ht1 Hro); unfold refs_of; rewrite Er; [by rewrite lookup_delete_eq|].
    intros x. destruct (decide (x = r)) as [->|]; [by rewrite lookup_delete_eq|by rewrite lookup_delete_ne]. }
  rewrite Hin in Hlt. simpl in Hlt. destruct (IH s1 pr1 Hi1 Hpr1) as (st' & -> & Hi' & Hg); [lia|].
  exists st'. split; [done|]. split; [done|]. by apply (refs_gone_cons st s1 st' p r rf).
Qed.
(** ** The whole release *)

(** The context manager's node is no longer that. *)
Lemma ctx_reset (hs hw : Z -> Z) (st : binder) (p : Z) :
  refs_inv owner hs hw st ->
  exists st0 hs0 hw0, match context_mgr_node st with
    | Some c => n ← node_at st !! c;
                Some (if bool_decide (n_proc n = Some p) then set_context_mgr st None (context_mgr_uid st) else st)
    | None => Some st
    end = Some st0 /\ refs_inv owner hs0 hw0 st0 /\ (forall c, context_mgr_node st0 = Some c -> ~ owned st0 p c) /\
    (forall b, ~ owned st p b -> hs0 b = hs b /\ hw0 b = hw b) /\
    (node_at st0, ref_at st0, death_at st0, proc_at st0, list_at st0) = (node_at st, ref_at st, death_at st, proc_at st, list_at st).
Proof using.
  intros Hi. destruct (context_mgr_node st) as [c|] eqn:Hc; [|exists st, hs, hw; split_and!; try done; by rewrite Hc].
  destruct (iv_ctx _ _ _ _ Hi c Hc) as [q Hq]. pose proof Hq as Hx. unfold owned, proc_of in Hx.
  destruct (node_at st !! c) as [n|] eqn:Hn; [|done]. injection Hx as Hx. cbn [mbind option_bind]. rewrite Hx.
  case_bool_decide as Hp; [|exists st, hs, hw; split_and!; try done; intros c'; rewrite Hc; intros [= <-]; unfold owned in *; congruence].
  injection Hp as ->. exists (set_context_mgr st None (context_mgr_uid st)), (hold hs c 1), (hold hw c 1).
  split; [done|]. split; [|split; [done|split; [|done]]].
  - assert (Hb : forall b h, ctx_hold (set_context_mgr st None (context_mgr_uid st)) b + hold h c 1 b = ctx_hold st b + h b).
    { intros b h. unfold ctx_hold. simpl. rewrite Hc. destruct (decide (b = c)) as [->|Hne].
      - rewrite hold_eq, bool_decide_eq_true_2 by done. simpl. lia.
      - rewrite hold_ne, (bool_decide_eq_false_2 (Some c = Some b)) by congruence. done. }
    apply (ctx_change_inv owner hs hw); [done|done| |]; intros b; (split; [apply Hb|]); destruct (iv_holds _ _ _ _ Hi b) as (? & ? & _);
      unfold hold; case_decide; lia.
  - intros b Hb. assert (b <> c) by (by intros ->). by rewrite !hold_ne.
Qed.

(** A process that goes: its nodes live on only while others refer to them. *)
Record proc_gone (st st' : binder) (p : Z) : Prop := {
  pg_proc : proc_at st' !! p = None;
  pg_procs : forall q pr, q <> p -> proc_at st !! q = Some pr -> exists pr', proc_at st' !! q = Some pr' /\ todo pr' = todo pr;
  pg_nodes : forall a, ~ owned st' p a;
  pg_dead : forall a x, owned st p a -> proc_of st' a = Some x -> x = None;
  pg_refs : forall r, ref_at st' !! r = if decide (refs_of st p r) then None else ref_at st !! r;
  pg_sent : forall r rf d, ref_at st !! r = Some rf -> r_proc rf <> p -> owned st p (r_node rf) -> death rf = Some d ->
    death_queued st st' rf d
}.
Lemma work_frame_owned (st st' : binder) (q a : Z) : work_frame st st' -> owned st' q a <-> owned st q a.
Proof using. clear owner. intros (Hs & _). unfold owned. by rewrite (proj1 (node_same_proc st st' a Hs)). Qed.

Lemma refs_of_eq (st st' : binder) (q r : Z) : ref_at st' = ref_at st -> refs_of st' q r <-> refs_of st q r.
Proof using. clear owner. unfold refs_of. by intros ->. Qed.

(** The lists of two processes differ. *)
Lemma todo_inj (hs hw : Z -> Z) (st : binder) (p q : Z) (pr qr : binder_proc) :
  refs_inv owner hs hw st -> proc_at st !! p = Some pr -> proc_at st !! q = Some qr -> todo pr = todo qr -> p = q.
Proof using.
  intros Hi Hp Hq E. destruct (todo_ok owner hs hw st p pr Hi Hp) as (_ & <- & _).
  destruct (todo_ok owner hs hw st q qr Hi Hq) as (_ & <- & _). by rewrite E.
Qed.

Lemma release_refs_tree (hs hw : Z -> Z) (st st' : binder) (p : Z) (pr pr' : binder_proc) (hs' hw' : Z -> Z) :
  refs_inv owner hs hw st -> refs_inv owner hs' hw' st' -> ref_at st' = ref_at st -> proc_at st !! p = Some pr ->
  proc_at st' !! p = Some pr' -> (length (inorder (refs_by_desc pr')) <= length (inorder (refs_by_desc pr)))%nat.
Proof using.
  intros Hi Hi' Er Hp Hp'. destruct (iv_trees _ _ _ _ Hi p pr Hp) as (_ & H & _).
  destruct (iv_trees _ _ _ _ Hi' p pr' Hp') as (_ & H' & _). apply submseteq_length, NoDup_submseteq.
  - by apply (key_tree_nodup _ _ _ H').
  - intros x Hx%(kt_elem _ _ _ H'). apply (kt_elem _ _ _ H). by apply (refs_of_eq st st').
Qed.

(** A node of [p] that is left is dead. *)
Lemma nodes_gone_dead (hs hw : Z -> Z) (st st' : binder) (p a : Z) (x : option Z) :
  refs_inv owner hs hw st -> nodes_gone st st' p -> owned st p a -> proc_of st' a = Some x -> x = None.
Proof using.
  intros Hi G Ha Hx. pose proof Ha as Hy. unfold owned, proc_of in Hy. destruct (node_at st !! a) as [n|] eqn:Hn; [|done].
  pose proof (no_refs _ _ _ _ _ (iv_nodes _ _ _ _ Hi a n Hn)) as Hr. destruct (n_refs n) as [|r l].
  - unfold proc_of in Hx. rewrite (nsg_free _ _ _ G a Ha) in Hx; [done|]. intros r Ht%Hr. by apply not_elem_of_nil in Ht.
  - rewrite (nsg_dead _ _ _ G a Ha) in Hx; [congruence|]. exists r. apply Hr. by left.
Qed.

Lemma deferred_release_inv (hs hw : Z -> Z) (st : binder) (p : Z) (pr : binder_proc) (threads : list Z) :
  refs_inv owner hs hw st -> proc_at st !! p = Some pr -> (forall h, h ∈ threads -> is_Some (list_at st !! h)) ->
  exists st', binder_deferred_release st p threads = Some st' /\
    refs_inv owner (clear_holds st p hs) (clear_holds st p hw) st' /\ proc_gone st st' p.
Proof using.
  intros Hi Hp Hth. unfold binder_deferred_release.
  destruct (ctx_reset hs hw st p Hi) as (s0 & hs0 & hw0 & -> & Hi0 & Hc0 & Hh0 & [= En0 Er0 Ed0 Ep0 El0]). cbn [mbind option_bind].
  destruct (release_threads_inv hs0 hw0 threads s0 Hi0) as (s1 & -> & Hi1 & Hf1); [by rewrite El0|]. cbn [mbind option_bind].
  pose proof Hf1 as (_ & Er1 & Ep1 & Ec1 & _).
  assert (Hown : forall a, owned s1 p a <-> owned st p a).
  { intros a. rewrite (work_frame_owned s0 s1 p a Hf1). unfold owned, proc_of. by rewrite En0. }
  assert (Hp1 : proc_at s1 !! p = Some pr) by (by rewrite Ep1, Ep0). rewrite Hp1. cbn [mbind option_bind].
  destruct (release_nodes_inv p _ hs0 hw0 s1 pr Hi1 Hp1 (le_n _)) as (s2 & -> & Hi2 & G2).
  { rewrite Ec1. intros c Hc. rewrite (work_frame_owned s0 s1 p c Hf1). by apply Hc0. }
  cbn [mbind option_bind]. destruct (procs_same_some s1 s2 p (nsg_procs _ _ _ G2)) as [pr2 Hp2]; [by eexists|].
  destruct (release_refs_inv _ _ p _ s2 pr2 Hi2 Hp2 (release_refs_tree _ _ s1 s2 p pr pr2 _ _ Hi1 Hi2 (nsg_ref _ _ _ G2) Hp1 Hp2))
    as (s3 & -> & Hi3 & G3). cbn [mbind option_bind].
  pose proof (procs_same_trans _ _ _ (nsg_procs _ _ _ G2) (rg_procs _ _ _ G3)) as Hps.
  destruct (procs_same_some s1 s3 p Hps) as [pr3 Hp3]; [by eexists|].
  destruct (procs_same_inv s1 s3 p pr3 Hps Hp3) as (x & Hx & Et & _). assert (x = pr) as -> by congruence. clear Hx.
  destruct (release_list_inv _ _ s3 (todo pr) Hi3) as (s4 & -> & Hi4 & _ & Hf4 & Hd4).
  { rewrite <- Et. by destruct (lo_proc _ _ (iv_lists _ _ _ _ Hi3) p pr3 Hp3). }
  cbn [mbind option_bind]. pose proof Hf4 as (_ & Er4 & Ep4 & _).
  assert (Hro : forall r, refs_of s2 p r <-> refs_of st p r) by (intros r; apply refs_of_eq; by rewrite (nsg_ref _ _ _ G2), Er1, Er0).
  assert (Hrefs : forall r, ref_at s4 !! r = if decide (refs_of st p r) then None else ref_at st !! r).
  { intros r. rewrite Er4, (rg_ref _ _ _ G3), (nsg_ref _ _ _ G2), Er1, Er0. specialize (Hro r).
    destruct (decide (refs_of s2 p r)), (decide (refs_of st p r)); tauto. }
  assert (Hnone : forall a, ~ owned s4 p a).
  { intros a. rewrite (work_frame_owned s3 s4 p a Hf4). intros Ha%(rg_nodes _ _ _ G3). by apply (nsg_none _ _ _ G2 a). }
  eexists. split; [done|]. split.
  - apply free_proc_inv; [|done|].
    + apply (refs_inv_ext owner _ _ _ _ s4 Hi4). intros b. unfold clear_holds. specialize (Hown b).
      destruct (decide (owned st p b)) as [Hb|Hb], (decide (owned s1 p b)); try tauto. destruct (Hh0 b Hb). auto.
    + intros r. unfold refs_of. rewrite Hrefs. case_decide as Hr; [done|]. exact Hr.
  - split.
    + simpl. by rewrite lookup_delete_eq.
    + intros q qr Hq Hqr. rewrite <- Ep0, <- Ep1 in Hqr. destruct (procs_same_some s1 s3 q Hps) as [qr3 Hqr3]; [by eexists|].
      destruct (procs_same_inv s1 s3 q qr3 Hps Hqr3) as (y & Hy & E & _). exists qr3. simpl. rewrite lookup_delete_ne by done.
      rewrite Ep4. split; [done|]. congruence.
    + exact Hnone.
    + intros a x Ha Hx. apply (nodes_gone_dead _ _ s1 s2 p a x Hi1 G2); [by apply Hown|]. apply (rg_nodes _ _ _ G3).
      rewrite <- (proj1 (node_same_proc s3 s4 a (proj1 Hf4))). exact Hx.
    + exact Hrefs.
    + intros r rf d Hr Hq Ho Hd. rewrite <- Er0, <- Er1 in Hr.
      destruct (nsg_sent _ _ _ G2 r rf d Hr) as (dt & qr & Hdt & Hty & Hqr & Hw); [by apply Hown|done|].
      exists dt, qr. rewrite <- Ep0, <- Ep1. split_and!; try done. simpl. apply Hd4.
      * rewrite (rg_kept _ _ _ G3 r rf d); try done. by rewrite (nsg_ref _ _ _ G2).
      * rewrite Hw. intros [= E]. apply Hq. symmetry. by apply (todo_inj _ _ s1 p (r_proc rf) pr qr Hi1 Hp1 Hqr).
Qed.
End Release.

End BinderRelease.
