(* ===== verification/BinderWorld.v ===== *)
(** Binder processes with their nodes, references and death notifications as
    one system: the operations in any order, and what is true of all of them. *)

From S2P Require Import Prelude RbTree KeyTree BinderRefs BinderRefsInv BinderRefsCorrect BinderRefsSafe BinderRelease.
Local Open Scope Z_scope.
Local Open Scope kernel_scope.

Module BinderWorld.
Import RbTree KeyTree BinderRefs BinderRefsInv BinderRefsCorrect BinderRefsSafe BinderRelease.

(** ** The system

    [NewNode] to [Unhold] are what a transaction does to the sender's nodes and
    the receiver's references and nodes, and what the release of its buffer
    undoes; each operation runs under binder_lock. *)

Inductive op :=
  | Open (kz : option (Z * Z * Z))
  | NewThread (h : Z)
  | NewNode (kz : option Z) (p ptr cookie : Z)
  | GetRef (kz : option Z) (p a : Z)
  | IncRef (r : Z) (s : bool) (target : option Z)
  | DecRef (r : Z) (s : bool)
  | Hold (a : Z) (s : bool) (target : option Z)
  | Unhold (a : Z) (s : bool)
  | RefCmd (kz : option Z) (p : Z) (cmd : ref_cmd) (handle : Z)
  | NodeDone (p : Z) (acquire : bool) (ptr cookie : Z)
  | RequestDeath (kz : option Z) (p : Z) (thread : option Z) (handle cookie : Z)
  | ClearDeath (p : Z) (thread : option Z) (handle cookie : Z)
  | DeadBinderDone (p : Z) (thread : option Z) (cookie : Z)
  | ReadNode (p a : Z)
  | ReadDeath (p d : Z)
  | SetContextMgr (kz : option Z) (p euid : Z)
  | Release (p : Z) (threads : list Z).

(** [None] is a BUG(), a corrupted list or the use of a freed structure. *)
Definition exec (o : op) (st : binder) : option binder :=
  match o with
  | Open kz => Some (binder_open kz st).1
  | NewThread h => Some (init_thread_todo st h)
  | NewNode kz p ptr cookie => fst <$> binder_new_node kz st p ptr cookie
  | GetRef kz p a => fst <$> binder_get_ref_for_node kz st p a
  | IncRef r s target => fst <$> binder_inc_ref st r s target
  | DecRef r s => fst <$> binder_dec_ref st r s
  | Hold a s target => fst <$> binder_inc_node st a s false target
  | Unhold a s => binder_dec_node st a s false
  | RefCmd kz p cmd handle => bc_refs false kz st p cmd handle
  | NodeDone p acquire ptr cookie => bc_done false st p acquire ptr cookie
  | RequestDeath kz p thread handle cookie => bc_request_death kz st p thread handle cookie
  | ClearDeath p thread handle cookie => bc_clear_death st p thread handle cookie
  | DeadBinderDone p thread cookie => bc_dead_binder_done st p thread cookie
  | ReadNode p a => fst <$> work_node st p a
  | ReadDeath p d => fst <$> work_death st p d
  | SetContextMgr kz p euid => fst <$> binder_set_context_mgr kz st p euid
  | Release p threads => binder_deferred_release st p threads
  end.

Section World.
(** The process each list belongs to. *)
Context (owner : Z -> Z).

(** ** When an operation can happen

    Memory comes from kzalloc(), which returns what is not in use; a process
    acts through an open file; a work item is read from a list of the process;
    a hold is released that was taken; and no count is at its maximum.  For an
    increment on handle 0 there has to be memory: bc_refs() faults when a new
    reference cannot be allocated. *)

Definition is_proc (st : binder) (p : Z) : Prop := is_Some (proc_at st !! p).
Definition fresh_node (kz : option Z) (st : binder) : Prop := forall a, kz = Some a -> node_at st !! a = None /\ a <> 0.

Definition allowed (hs hw : Z -> Z) (st : binder) (o : op) : Prop :=
  match o with
  | Open kz => fresh_proc owner kz st
  | NewThread h => list_at st !! h = None
  | NewNode kz p _ _ => is_proc st p /\ fresh_node kz st
  | GetRef kz p a => is_proc st p /\ is_Some (node_at st !! a) /\ fresh_ref kz st
  | IncRef r _ target =>
      counts_below st /\ exists rf n, ref_at st !! r = Some rf /\ node_at st !! r_node rf = Some n /\ target_ok owner st n target
  | DecRef r _ => is_Some (ref_at st !! r)
  | Hold a s target =>
      (exists n, node_at st !! a = Some n /\ n_proc n <> None /\ target_ok owner st n target) /\
      (if s then hs a else hw a) + ctx_hold st a < 1000000000
  | Unhold a s => 0 < (if s then hs a else hw a)
  | RefCmd kz p cmd handle =>
      is_proc st p /\ counts_below st /\ fresh_ref kz st /\ (handle = 0 -> is_inc cmd = true -> is_Some kz)
  | NodeDone p _ _ _ => is_proc st p
  | RequestDeath kz p thread _ _ => is_proc st p /\ list_known st thread /\ forall d, kz = Some d -> death_at st !! d = None
  | ClearDeath p thread _ _ => is_proc st p /\ list_known st thread
  | DeadBinderDone p thread _ => is_proc st p /\ list_known st thread
  | ReadNode p a => exists h, work_on st (WorkNode a) = Some (Some h) /\ owner h = p
  | ReadDeath p d => is_proc st p /\ exists h, work_on st (WorkDeath d) = Some (Some h)
  | SetContextMgr kz p _ => is_proc st p /\ fresh_node kz st
  | Release p threads => is_proc st p /\ forall h, h ∈ threads -> is_Some (list_at st !! h)
  end.

(** The holds after it: strong and weak. *)
Definition strong_after (o : op) (st : binder) (h : Z -> Z) : Z -> Z :=
  match o with
  | Hold a true _ => hold h a 1
  | Unhold a true => hold h a (-1)
  | Release p _ => clear_holds st p h
  | _ => h
  end.

Definition weak_after (o : op) (st : binder) (h : Z -> Z) : Z -> Z :=
  match o with
  | Hold a false _ => hold h a 1
  | Unhold a false => hold h a (-1)
  | Release p _ => clear_holds st p h
  | _ => h
  end.

Inductive reachable : (Z -> Z) -> (Z -> Z) -> binder -> Prop :=
  | reach_init : reachable (fun _ => 0) (fun _ => 0) binder_init_state
  | reach_step (hs hw : Z -> Z) (st st' : binder) (o : op) :
      reachable hs hw st -> allowed hs hw st o -> exec o st = Some st' ->
      reachable (strong_after o st hs) (weak_after o st hw) st'.

(** ** Every operation keeps the invariant *)

Lemma init_state_inv : refs_inv owner (fun _ => 0) (fun _ => 0) binder_init_state.
Proof using.
  split; try done.
  - split; try done. intros w h. split; [by destruct w|]. by intros (l & ? & _).
  - split; [constructor|]. intros a. split; [by intros ?%not_elem_of_nil|done].
Qed.

Lemma held_owned (hs hw : Z -> Z) (st : binder) (a : Z) (s : bool) :
  refs_inv owner hs hw st -> 0 < (if s then hs a else hw a) -> exists n p, node_at st !! a = Some n /\ n_proc n = Some p.
Proof using.
  intros Hi Hpos. destruct (iv_holds _ _ _ _ Hi a) as (_ & _ & H). destruct (node_at st !! a) as [n|] eqn:Hn.
  - exists n. destruct (n_proc n) as [p|] eqn:Hp; [by exists p|].
    destruct (iv_nodes _ _ _ _ Hi a n Hn) as [_ _ _ _ _ [_ Hl]]. rewrite Hp in Hl. destruct s; lia.
  - destruct (H eq_refl). destruct s; lia.
Qed.

(** The operations of transactions. *)
Lemma exec_transaction (hs hw : Z -> Z) (st : binder) (o : op) :
  refs_inv owner hs hw st -> allowed hs hw st o ->
  match o with NewNode _ _ _ _ | GetRef _ _ _ | IncRef _ _ _ | DecRef _ _ | Hold _ _ _ | Unhold _ _ => True | _ => False end ->
  exists st', exec o st = Some st' /\ refs_inv owner (strong_after o st hs) (weak_after o st hw) st'.
Proof using.
  intros Hi Ha Ho. destruct o; try done; simpl in Ha |- *.
  - destruct Ha as [[pr Hp] Hf]. destruct (new_node_spec owner hs hw kz st p ptr cookie pr Hi Hp Hf) as [[-> _]|(a & st' & _ & -> & Hi' & _)];
      by eexists.
  - destruct Ha as ([pr Hp] & [n Hn] & Hf). destruct (get_ref_for_node_inv owner hs hw kz st p a pr n Hi Hp Hn Hf)
      as [(r & _ & _ & ->)|(_ & [[_ ->]|(r & d & st' & _ & -> & Hi' & _)])]; by eexists.
  - destruct Ha as (Hcb & rf & n & Hr & Hn & Ht). destruct (Hcb r rf Hr).
    destruct (inc_ref_inv owner hs hw st r rf n s target Hi Hr Hn Ht) as [[_ ->]|(st' & n' & -> & Hi' & _)];
      [by destruct s|by eexists|by eexists].
  - destruct Ha as [rf Hr]. destruct (ref_node owner hs hw st r rf Hi Hr) as [n Hn].
    pose proof (dec_ref_inv owner hs hw st r rf n s Hi Hr Hn) as H. simpl in H.
    destruct ((if s then strong rf else weak rf) =? 0); [rewrite H; by eexists|]. destruct H as (st' & -> & Hi' & _). by eexists.
  - destruct Ha as [(n & Hn & Hp & Ht) Hmax]. destruct (n_proc n) as [p|] eqn:Ep; [|done].
    destruct (hold_node_inv owner hs hw st a p n s target Hi Hn Ep Ht Hmax) as (st' & ret & -> & Hi'). exists st'.
    split; [done|]. by destruct s.
  - destruct (held_owned hs hw st a s Hi Ha) as (n & p & Hn & Hp).
    destruct (unhold_node_inv owner hs hw st a p n s Hi Hn Hp Ha) as (st' & -> & Hi'). exists st'. split; [done|]. by destruct s.
Qed.

Lemma exec_inv (hs hw : Z -> Z) (st : binder) (o : op) :
  refs_inv owner hs hw st -> allowed hs hw st o ->
  exists st', exec o st = Some st' /\ refs_inv owner (strong_after o st hs) (weak_after o st hw) st'.
Proof using.
  intros Hi Ha. pose proof (exec_transaction hs hw st o Hi Ha) as Htr. destruct o; try (by apply Htr); clear Htr; simpl in Ha |- *.
  - eexists. split; [done|]. by apply binder_open_inv.
  - eexists. split; [done|]. by apply new_list_inv.
  - destruct Ha as ([pr Hp] & Hcb & Hf & Hk). by apply (bc_refs_inv owner hs hw kz st p pr cmd handle).
  - destruct Ha as [pr Hp]. destruct (bc_done_inv owner hs hw st p pr acquire ptr cookie Hi Hp) as (st' & -> & Hi' & _). by exists st'.
  - destruct Ha as ([pr Hp] & Hl & Hf). by apply (bc_request_death_inv owner hs hw kz st p pr thread handle cookie).
  - destruct Ha as ([pr Hp] & Hl). by apply (bc_clear_death_inv owner hs hw st p pr thread handle cookie).
  - destruct Ha as ([pr Hp] & Hl). by apply (bc_dead_binder_done_inv owner hs hw st p pr thread cookie).
  - destruct Ha as (h & Hon & Ho). destruct (node_at st !! a) as [n|] eqn:Hn; [|done]. injection Hon as Hon.
    destruct (lo_owner _ _ (iv_lists _ _ _ _ Hi) a n h Hn Hon) as [Hp _]. rewrite Ho in Hp.
    destruct (work_node_inv owner hs hw st p a n Hi Hn Hp) as (st' & br & -> & Hi' & _). by exists st'.
  - destruct Ha as ([pr Hp] & h & Hon). destruct (death_at st !! d) as [dt|] eqn:Hd; [|done]. injection Hon as Hon.
    destruct (work_death_inv owner hs hw st p d h pr dt Hi Hp Hd Hon) as (st' & br & -> & Hi' & _). by exists st'.
  - destruct Ha as ([pr Hp] & Hf). destruct (set_context_mgr_inv owner hs hw kz st p euid pr Hi Hp Hf) as (st' & ret & -> & Hi' & _).
    by exists st'.
  - destruct Ha as ([pr Hp] & Ht). destruct (deferred_release_inv owner hs hw st p pr threads Hi Hp Ht) as (st' & E & Hi' & _).
    by exists st'.
Qed.

Lemma reachable_refs_inv (hs hw : Z -> Z) (st : binder) : reachable hs hw st -> refs_inv owner hs hw st.
Proof using.
  induction 1 as [|hs hw st st' o _ IH Ha E]; [apply init_state_inv|]. destruct (exec_inv hs hw st o IH Ha) as (st'' & E' & Hi').
  by rewrite E in E'; injection E' as ->.
Qed.
(** ** References are unique *)

Lemma desc_unique (hs hw : Z -> Z) (st : binder) (r r' : Z) (rf rf' : binder_ref) :
  refs_inv owner hs hw st -> ref_at st !! r = Some rf -> ref_at st !! r' = Some rf' -> r_proc rf = r_proc rf' ->
  desc rf = desc rf' \/ r_node rf = r_node rf' -> r = r'.
Proof using.
  intros Hi Hr Hr' Hp Hk. destruct (ro_proc _ _ _ (iv_refs _ _ _ _ Hi r rf Hr)) as [pr Hpr].
  destruct (iv_trees _ _ _ _ Hi _ pr Hpr) as (_ & H2 & H3).
  assert (Ho : refs_of st (r_proc rf) r) by (unfold refs_of; by rewrite Hr).
  assert (Ho' : refs_of st (r_proc rf) r') by (unfold refs_of; rewrite Hr'; simpl; congruence).
  destruct Hk as [Hk|Hk].
  - apply (key_unique _ _ _ H2 r r' (desc rf)); try done; unfold desc_key; [by rewrite Hr|rewrite Hr'; simpl; congruence].
  - apply (key_unique _ _ _ H3 r r' (r_node rf)); try done; unfold ref_node_key; [by rewrite Hr|rewrite Hr'; simpl; congruence].
Qed.

(** A reference is found by its descriptor and by its node. *)
Lemma ref_found (hs hw : Z -> Z) (st : binder) (r : Z) (rf : binder_ref) (kz : option Z) :
  refs_inv owner hs hw st -> ref_at st !! r = Some rf ->
  binder_get_ref st (r_proc rf) (desc rf) = Some (Some r) /\
  binder_get_ref_for_node kz st (r_proc rf) (r_node rf) = Some (st, Some r).
Proof using.
  intros Hi Hr. destruct (ro_proc _ _ _ (iv_refs _ _ _ _ Hi r rf Hr)) as [pr Hpr].
  destruct (iv_trees _ _ _ _ Hi _ pr Hpr) as (_ & H2 & H3). unfold binder_get_ref, binder_get_ref_for_node. rewrite Hpr.
  cbn [mbind option_bind]. assert (Ho : refs_of st (r_proc rf) r) by (unfold refs_of; by rewrite Hr).
  rewrite (key_walk_found _ _ _ H2 r (desc rf) Ho) by (unfold desc_key; by rewrite Hr).
  by rewrite (key_walk_found _ _ _ H3 r (r_node rf) Ho) by (unfold ref_node_key; by rewrite Hr).
Qed.
End World.

(** ** The theorems *)


(** A process that asks for a reference to a node gets the one it has, or
    none when there is none and no memory, or a new one, without counts, under
    the smallest descriptor it does not use (0 only for the context manager),
    which both lookups find from then on. *)
Lemma binder_get_ref_for_node_correct (owner hs hw : Z -> Z) (kz : option Z) (st : binder) (p a : Z) (n : binder_node)
    (H : reachable owner hs hw st) (Hp : is_proc st p) (Hn : node_at st !! a = Some n) (Hkz : fresh_ref kz st) :
  (exists r rf, binder_get_ref_for_node kz st p a = Some (st, Some r) /\ ref_at st !! r = Some rf /\ r_proc rf = p /\ r_node rf = a) \/
  ((forall r rf, ref_at st !! r = Some rf -> r_proc rf = p -> r_node rf <> a) /\
   match kz with
   | None => binder_get_ref_for_node kz st p a = Some (st, None)
   | Some r => exists d st', binder_get_ref_for_node kz st p a = Some (st', Some r) /\ least_desc st p a d /\
       ref_at st' = <[r := mk_ref p a d 0 0 None]> (ref_at st) /\
       node_at st' = <[a := with_refs n (r :: n_refs n)]> (node_at st) /\
       binder_get_ref st' p d = Some (Some r) /\ binder_get_ref_for_node None st' p a = Some (st', Some r)
   end).
Proof.
  pose proof (reachable_refs_inv owner hs hw st H) as Hi. destruct Hp as [pr Hpr].
  assert (Hof : forall r, refs_of st p r -> target_of st r = Some a -> exists rf, ref_at st !! r = Some rf /\ r_proc rf = p /\ r_node rf = a).
  { unfold refs_of, target_of. intros r. destruct (ref_at st !! r) as [rf|]; [|done]. simpl. intros [= <-] [= <-]. by exists rf. }
  destruct (get_ref_for_node_inv owner hs hw kz st p a pr n Hi Hpr Hn Hkz) as [(r & Hr & Ht & E)|[Hno Hres]].
  - left. destruct (Hof r Hr Ht) as (rf & ? & ? & ?). by exists r, rf.
  - right. split.
    { intros r rf Hr Hrp Hrn. apply (Hno r); [unfold refs_of|unfold target_of]; rewrite Hr; simpl; congruence. }
    destruct Hres as [[-> E]|(r & d & st' & -> & E & Hi' & Hd & Er & En & _)]; [done|]. exists d, st'. split_and!; try done.
    + apply (ref_found owner hs hw st' r (mk_ref p a d 0 0 None) None Hi'). by rewrite Er, lookup_insert_eq.
    + apply (ref_found owner hs hw st' r (mk_ref p a d 0 0 None) None Hi'). by rewrite Er, lookup_insert_eq.
Qed.

(** A decrement of a count that is zero is refused and changes nothing;
    otherwise the reference has one less, is deleted when both counts are
    zero, and no node but its own is touched, which is freed only together
    with its last reference, without holds, and when its owner is gone or does
    not know of it. *)
Lemma binder_dec_ref_correct (owner hs hw : Z -> Z) (st : binder) (r : Z) (rf : binder_ref) (n : binder_node) (s : bool)
    (H : reachable owner hs hw st) (Hr : ref_at st !! r = Some rf) (Hn : node_at st !! r_node rf = Some n) :
  let rf' := if s then with_ref_counts rf (strong rf - 1) (weak rf) else with_ref_counts rf (strong rf) (weak rf - 1) in
  let gone := (strong rf' =? 0) && (weak rf' =? 0) in
  if (if s then strong rf else weak rf) =? 0 then binder_dec_ref st r s = Some (st, - EINVAL)
  else exists st', binder_dec_ref st r s = Some (st', 0) /\
    ref_at st' = (if gone then delete r (ref_at st) else <[r := rf']> (ref_at st)) /\
    (forall b, b <> r_node rf -> node_at st' !! b = node_at st !! b) /\
    (node_at st' !! r_node rf = None ->
       gone = true /\ n_refs n = [r] /\ local_strong_refs n = 0 /\ local_weak_refs n = 0 /\
       (n_proc n = None \/ has_strong_ref n = false /\ has_weak_ref n = false)).
Proof.
  pose proof (reachable_refs_inv owner hs hw st H) as Hi. pose proof (dec_ref_inv owner hs hw st r rf n s Hi Hr Hn) as Hd.
  cbn zeta in Hd |- *. destruct ((if s then strong rf else weak rf) =? 0); [done|].
  destruct Hd as (st' & E & _ & Er & Hk1 & Hk2). exists st'. split; [done|]. split; [done|]. split; [done|].
  intros Hnone. destruct (Hk2 Hnone) as (Hr' & Hrest). split; [|done]. rewrite Er in Hr'. destruct (_ && _); [done|].
  by rewrite lookup_insert_eq in Hr'.
Qed.

(** When a node's work is read by its owner, the owner is told the first
    thing its view of the node lacks (weak before strong when references
    appear, strong before weak when they go), the flags follow what it was
    told, and the node is freed exactly when the owner is up to date and
    nothing refers to the node or holds it. *)
Lemma work_node_correct (owner hs hw : Z -> Z) (st : binder) (p a h : Z) (n : binder_node)
    (H : reachable owner hs hw st) (Hn : node_at st !! a = Some n) (Hw : n_work n = Some h) (Hp : owner h = p) :
  exists st' br, work_node st p a = Some (st', br) /\ told n br /\ ref_at st' = ref_at st /\
    (node_at st' !! a = None <-> br = BR_NOOP /\ node_weak n = false) /\
    forall n', node_at st' !! a = Some n' -> (has_weak_ref n', has_strong_ref n') = view_after n br /\ n_refs n' = n_refs n.
Proof.
  pose proof (reachable_refs_inv owner hs hw st H) as Hi.
  destruct (lo_owner _ _ (iv_lists _ _ _ _ Hi) a n h Hn Hw) as [Hnp _]. rewrite Hp in Hnp.
  destruct (work_node_inv owner hs hw st p a n Hi Hn Hnp) as (st' & br & E & _ & Ht). by exists st', br.
Qed.

(** When a process goes it is freed with nothing left that names it: its
    references are deleted and no others, its nodes are freed or, while other
    processes refer to them, dead; and each of those processes that asked for
    it finds the notification on its work list. *)
Lemma binder_deferred_release_correct (owner hs hw : Z -> Z) (st : binder) (p : Z) (threads : list Z)
    (H : reachable owner hs hw st) (Hp : is_proc st p) (Ht : forall h, h ∈ threads -> is_Some (list_at st !! h)) :
  exists st', binder_deferred_release st p threads = Some st' /\ proc_at st' !! p = None /\
    (forall a n, node_at st' !! a = Some n -> n_proc n <> Some p) /\
    (forall r rf, ref_at st' !! r = Some rf <-> ref_at st !! r = Some rf /\ r_proc rf <> p) /\
    (forall r rf n, ref_at st !! r = Some rf -> r_proc rf <> p -> node_at st !! r_node rf = Some n -> n_proc n = Some p ->
       (exists n', node_at st' !! r_node rf = Some n' /\ n_proc n' = None) /\
       forall d, death rf = Some d -> exists dt pr, death_at st' !! d = Some dt /\ d_type dt = DEAD_BINDER /\
         proc_at st' !! r_proc rf = Some pr /\ d_work dt = Some (todo pr)).
Proof.
  pose proof (reachable_refs_inv owner hs hw st H) as Hi. destruct Hp as [pr Hpr].
  destruct (deferred_release_inv owner hs hw st p pr threads Hi Hpr Ht) as (st' & E & Hi' & [G1 G2 G3 Gd G4 G5]).
  assert (Hnot : forall a n, node_at st' !! a = Some n -> n_proc n <> Some p).
  { intros a n Hn Hx. apply (G3 a). unfold owned. rewrite (proc_of_Some st' a n Hn). congruence. }
  assert (Hrefs : forall r rf, ref_at st' !! r = Some rf <-> ref_at st !! r = Some rf /\ r_proc rf <> p).
  { intros r rf. rewrite G4. case_decide as Hro; unfold refs_of in Hro; destruct (ref_at st !! r) as [x|]; simpl in Hro;
      naive_solver congruence. }
  exists st'. split_and!; try done. intros r rf n Hr Hrp Hn Hnp.
  destruct (ref_node owner _ _ st' r rf Hi') as [n' Hn']; [by apply Hrefs|].
  assert (Ho : owned st p (r_node rf)) by (unfold owned; rewrite (proc_of_Some st _ n Hn); congruence).
  split; [exists n'; split; [done|]; by apply (Gd (r_node rf)); [|apply proc_of_Some]|].
  intros d Hd. destruct (G5 r rf d Hr Hrp Ho Hd) as (dt & qr & ? & ? & Hq & Hw).
  destruct (G2 _ qr Hrp Hq) as (qr' & ? & Et). exists dt, qr'. by rewrite Et.
Qed.

(** ** An example

    Process 1 becomes the context manager with node 100; process 2 acquires it
    through handle 0, as reference 200, and asks for notification 300. *)

Definition demo_owner (h : Z) : Z := if h <? 20 then 1 else 2.
Definition demo_run (o : op) (st : binder) : binder := default st (exec o st).
Definition demo1 : binder := demo_run (Open (Some (1, 10, 11))) binder_init_state.
Definition demo2 : binder := demo_run (SetContextMgr (Some 100) 1 0) demo1.
Definition demo3 : binder := demo_run (Open (Some (2, 20, 21))) demo2.
Definition demo4 : binder := demo_run (RefCmd (Some 200) 2 BC_ACQUIRE 0) demo3.
Definition demo5 : binder := demo_run (RequestDeath (Some 300) 2 None 0 7) demo4.

Definition none : Z -> Z := fun _ => 0.

Lemma demo_step (st : binder) (o : op) :
  reachable demo_owner none none st -> match o with Hold _ _ _ | Unhold _ _ | Release _ _ => False | _ => True end ->
  allowed demo_owner none none st o -> exec o st <> None -> reachable demo_owner none none (demo_run o st).
Proof.
  intros H Ho Ha Hx. unfold demo_run. destruct (exec o st) as [st'|] eqn:E; [|done]. simpl.
  pose proof (reach_step demo_owner none none st st' o H Ha E) as Hr. by destruct o.
Qed.

Lemma demo1_reachable : reachable demo_owner none none demo1.
Proof. apply demo_step; [apply reach_init|done| |done]. by intros p h h' [= <- <- <-]. Qed.

Lemma demo2_reachable : reachable demo_owner none none demo2.
Proof. apply demo_step; [apply demo1_reachable|done| |by vm_compute]. split; [vm_compute; by eexists|]. by intros a [= <-]. Qed.

Lemma demo3_reachable : reachable demo_owner none none demo3.
Proof. apply demo_step; [apply demo2_reachable|done| |by vm_compute]. intros p h h' [= <- <- <-]. by vm_compute. Qed.

Lemma demo4_reachable : reachable demo_owner none none demo4.
Proof.
  apply demo_step; [apply demo3_reachable|done| |by vm_compute]. split; [vm_compute; by eexists|].
  split; [by intros r rf Hr|]. split; [by intros r [= <-]|by eexists].
Qed.

Lemma demo5_reachable : reachable demo_owner none none demo5.
Proof.
  apply demo_step; [apply demo4_reachable|done| |by vm_compute]. split; [vm_compute; by eexists|]. split; [by intros x|].
  by intros d [= <-].
Qed.

(** Process 2 offers node 101; process 1 gets reference 201 to it. *)
Definition demo6 : binder := demo_run (NewNode (Some 101) 2 5 6) demo5.
Definition demo7 : binder := demo_run (GetRef (Some 201) 1 101) demo6.
Definition demo8 : binder := demo_run (IncRef 201 true (Some 20)) demo7.

Lemma demo6_reachable : reachable demo_owner none none demo6.
Proof. apply demo_step; [apply demo5_reachable|done| |by vm_compute]. split; [vm_compute; by eexists|]. by intros a [= <-]. Qed.

Lemma demo7_reachable : reachable demo_owner none none demo7.
Proof.
  apply demo_step; [apply demo6_reachable|done| |by vm_compute]. split; [vm_compute; by eexists|]. split; [vm_compute; by eexists|].
  by intros r [= <-].
Qed.

Lemma demo8_reachable : reachable demo_owner none none demo8.
Proof.
  apply demo_step; [apply demo7_reachable|done| |by vm_compute]. split.
  - assert (Hall : map_Forall (fun _ rf => strong rf < 2147483647 /\ weak rf < 2147483647) (ref_at demo7)).
    { apply (bool_decide_unpack _). by vm_compute. }
    exact Hall.
  - exists (mk_ref 1 101 1 0 0 None), (mk_node (Some 2) [201] 0 0 0 5 6 false false false false None).
    split; [by vm_compute|]. split; [by vm_compute|]. intros h [= <-]. split; [vm_compute; by eexists|]. split; [done|].
    assert (Hall : map_Forall (fun _ pr => delivered_death pr <> 20) (proc_at demo7)).
    { apply (bool_decide_unpack _). by vm_compute. }
    exact Hall.
Qed.


End BinderWorld.
