(* ===== verification/BinderThreads.v ===== *)
(** Threads and transactions of the binder driver
    (drivers/staging/android/binder.c).

    A thread sends a transaction to a node of another process; a thread of that
    process reads it, works on it, and replies.  While it works it may itself
    call, also back into the process of the caller, in which case the call goes
    to the thread that waits there.  Each thread has a stack of the
    transactions it takes part in, threaded through [from_parent] on the side
    of the caller and [to_parent] on the side of the callee, and what happens
    when one of the threads goes is that its callers get a failed reply.

    This file has the code, over a store of threads, transactions, buffers,
    nodes and processes in which a freed structure is absent, so that a use
    after free is [None], as a BUG() is.  BinderStacks.v and BinderCallsInv.v
    have the invariant, BinderCalls.v the theorems.  The store has of a buffer and of a node what
    the transactions use; the allocation of buffers is in BinderAlloc.v, nodes
    and references are in BinderRefs.v.  Their work items appear here as
    [WorkOther].  Not in the store: the contents of transactions, which are in
    BinderObjects.v, priorities,
    user ids, debug_id, the statistics and the logs. *)

From S2P Require Import Prelude.
Local Open Scope Z_scope.
Local Open Scope kernel_scope.

Module BinderThreads.

(** ** Data *)

(** The codes of binder.h, [_IO('r', n)]. *)
Definition BR_OK : Z := 29185.
Definition BR_DEAD_REPLY : Z := 29189.
Definition BR_TRANSACTION_COMPLETE : Z := 29190.
Definition BR_FAILED_REPLY : Z := 29201.

Definition TF_ONE_WAY : Z := 1.

Definition LOOPER_REGISTERED : Z := 1.
Definition LOOPER_ENTERED : Z := 2.
Definition LOOPER_EXITED : Z := 4.
Definition LOOPER_INVALID : Z := 8.
Definition LOOPER_WAITING : Z := 16.
Definition LOOPER_NEED_RETURN : Z := 32.

(** A completion is a structure of its own of which only the type is used;
    [WorkOther] is a node or a death notification. *)
Inductive work := WorkTransaction (t : Z) | WorkComplete | WorkOther.

(** The lists a work item can be on: [thread->todo], [proc->todo] and
    [node->async_todo]. *)
Inductive place := OnThread (h : Z) | OnProc (p : Z) | OnNode (a : Z).

(** Where a thread is in binder_thread_read(): outside of it, asleep with the
    lock released, or in the loop over the work, with the value
    [wait_for_proc_work] has there. *)
Inductive phase := Outside | Asleep (wait_for_proc_work : bool) | Looping (wait_for_proc_work : bool).

#[export] Instance work_kind_eq_dec : EqDecision work.
Proof. solve_decision. Defined.
#[export] Instance place_eq_dec : EqDecision place.
Proof. solve_decision. Defined.
#[export] Instance phase_eq_dec : EqDecision phase.
Proof. solve_decision. Defined.

Record binder_thread := mk_thread {
  th_proc : Z;
  looper : Z;
  transaction_stack : option Z;
  th_todo : list work;
  return_error : Z;
  return_error2 : Z;
  reading : phase
}.

(** [t_on] is the list the work entry is on. *)
Record transaction := mk_transaction {
  t_on : option place;
  from : option Z;
  from_parent : option Z;
  to_proc : option Z;
  to_thread : option Z;
  to_parent : option Z;
  need_reply : bool;
  t_buffer : option Z;
  t_flags : Z
}.

Record binder_buffer := mk_buffer {
  b_proc : Z;
  b_transaction : option Z;
  target_node : option Z;
  async_transaction : bool;
  allow_user_free : bool
}.

Record binder_node := mk_node {
  n_proc : option Z;
  has_async_transaction : bool;
  async_todo : list work
}.

#[export] Instance async_node_eq_dec : EqDecision binder_node.
Proof. solve_decision. Defined.

Record binder_proc := mk_proc {
  p_todo : list work;
  max_threads : Z;
  requested_threads : Z;
  requested_threads_started : Z;
  ready_threads : Z
}.

Record binder := mk_binder {
  thread_at : gmap Z binder_thread;
  trans_at : gmap Z transaction;
  buffer_at : gmap Z binder_buffer;
  node_at : gmap Z binder_node;
  proc_at : gmap Z binder_proc
}.

Definition put_thread (st : binder) (h : Z) (x : binder_thread) : binder :=
  mk_binder (<[h := x]> (thread_at st)) (trans_at st) (buffer_at st) (node_at st) (proc_at st).
Definition put_trans (st : binder) (t : Z) (x : transaction) : binder :=
  mk_binder (thread_at st) (<[t := x]> (trans_at st)) (buffer_at st) (node_at st) (proc_at st).
Definition put_buffer (st : binder) (b : Z) (x : binder_buffer) : binder :=
  mk_binder (thread_at st) (trans_at st) (<[b := x]> (buffer_at st)) (node_at st) (proc_at st).
Definition put_node (st : binder) (a : Z) (x : binder_node) : binder :=
  mk_binder (thread_at st) (trans_at st) (buffer_at st) (<[a := x]> (node_at st)) (proc_at st).
Definition put_proc (st : binder) (p : Z) (x : binder_proc) : binder :=
  mk_binder (thread_at st) (trans_at st) (buffer_at st) (node_at st) (<[p := x]> (proc_at st)).

Definition free_trans (st : binder) (t : Z) : binder :=
  mk_binder (thread_at st) (delete t (trans_at st)) (buffer_at st) (node_at st) (proc_at st).
Definition free_buffer (st : binder) (b : Z) : binder :=
  mk_binder (thread_at st) (trans_at st) (delete b (buffer_at st)) (node_at st) (proc_at st).

Definition set_looper (x : binder_thread) (l : Z) : binder_thread :=
  mk_thread (th_proc x) l (transaction_stack x) (th_todo x) (return_error x) (return_error2 x) (reading x).
Definition set_stack (x : binder_thread) (s : option Z) : binder_thread :=
  mk_thread (th_proc x) (looper x) s (th_todo x) (return_error x) (return_error2 x) (reading x).
Definition set_todo (x : binder_thread) (l : list work) : binder_thread :=
  mk_thread (th_proc x) (looper x) (transaction_stack x) l (return_error x) (return_error2 x) (reading x).
Definition set_errors (x : binder_thread) (e e2 : Z) : binder_thread :=
  mk_thread (th_proc x) (looper x) (transaction_stack x) (th_todo x) e e2 (reading x).
Definition set_reading (x : binder_thread) (r : phase) : binder_thread :=
  mk_thread (th_proc x) (looper x) (transaction_stack x) (th_todo x) (return_error x) (return_error2 x) r.

Definition set_on (x : transaction) (o : option place) : transaction :=
  mk_transaction o (from x) (from_parent x) (to_proc x) (to_thread x) (to_parent x) (need_reply x) (t_buffer x) (t_flags x).
Definition set_from (x : transaction) (f : option Z) : transaction :=
  mk_transaction (t_on x) f (from_parent x) (to_proc x) (to_thread x) (to_parent x) (need_reply x) (t_buffer x) (t_flags x).
Definition set_call (x : transaction) (fp : option Z) : transaction :=
  mk_transaction (t_on x) (from x) fp (to_proc x) (to_thread x) (to_parent x) true (t_buffer x) (t_flags x).
Definition set_to (x : transaction) (tp th : option Z) : transaction :=
  mk_transaction (t_on x) (from x) (from_parent x) (to_proc x) th tp (need_reply x) (t_buffer x) (t_flags x).
Definition set_to_proc (x : transaction) (p : option Z) : transaction :=
  mk_transaction (t_on x) (from x) (from_parent x) p (to_thread x) (to_parent x) (need_reply x) (t_buffer x) (t_flags x).
Definition set_buffer (x : transaction) (b : option Z) : transaction :=
  mk_transaction (t_on x) (from x) (from_parent x) (to_proc x) (to_thread x) (to_parent x) (need_reply x) b (t_flags x).

Definition set_transaction (x : binder_buffer) (t : option Z) : binder_buffer :=
  mk_buffer (b_proc x) t (target_node x) (async_transaction x) (allow_user_free x).
Definition set_allow (x : binder_buffer) : binder_buffer :=
  mk_buffer (b_proc x) (b_transaction x) (target_node x) (async_transaction x) true.

Definition set_async (x : binder_node) (h : bool) (l : list work) : binder_node := mk_node (n_proc x) h l.

Definition set_p_todo (x : binder_proc) (l : list work) : binder_proc :=
  mk_proc l (max_threads x) (requested_threads x) (requested_threads_started x) (ready_threads x).
Definition set_requested (x : binder_proc) (r s : Z) : binder_proc :=
  mk_proc (p_todo x) (max_threads x) r s (ready_threads x).
Definition set_ready (x : binder_proc) (r : Z) : binder_proc :=
  mk_proc (p_todo x) (max_threads x) (requested_threads x) (requested_threads_started x) r.

Definition one_way (flags : Z) : bool := negb (Z.land flags TF_ONE_WAY =? 0).

(** ** Work lists *)

Definition work_list (st : binder) (o : place) : option (list work) :=
  match o with
  | OnThread h => th_todo <$> thread_at st !! h
  | OnProc p => p_todo <$> proc_at st !! p
  | OnNode a => async_todo <$> node_at st !! a
  end.

Definition put_list (st : binder) (o : place) (l : list work) : option binder :=
  match o with
  | OnThread h => x ← thread_at st !! h; Some (put_thread st h (set_todo x l))
  | OnProc p => x ← proc_at st !! p; Some (put_proc st p (set_p_todo x l))
  | OnNode a => x ← node_at st !! a; Some (put_node st a (set_async x (has_async_transaction x) l))
  end.

(** The entry of a transaction is what [t_on] says it is on. *)
Definition entry_on (st : binder) (w : work) (o : option place) : option binder :=
  match w with
  | WorkTransaction t => x ← trans_at st !! t; Some (put_trans st t (set_on x o))
  | _ => Some st
  end.

Definition list_add_tail (st : binder) (w : work) (o : place) : option binder :=
  l ← work_list st o;
  st ← put_list st o (l ++ [w]);
  entry_on st w (Some o).

(** list_del() of the first entry of a list. *)
Definition list_del_first (st : binder) (o : place) : option (work * binder) :=
  l ← work_list st o;
  match l with
  | [] => None
  | w :: l =>
      st ← put_list st o l;
      st ← entry_on st w None;
      Some (w, st)
  end.

(** When a node is freed the transactions on its list are on no list. *)
Definition forget (gone : Z -> bool) (x : transaction) : transaction :=
  match t_on x with
  | Some (OnNode a) => if gone a then set_on x None else x
  | _ => x
  end.

(** [f] says what becomes of the nodes. *)
Definition node_gone (st : binder) (f : Z -> binder_node -> option binder_node) (a : Z) : bool :=
  match node_at st !! a with
  | Some n => bool_decide (f a n = None)
  | None => false
  end.

Definition change_nodes (st : binder) (f : Z -> binder_node -> option binder_node) : binder :=
  mk_binder (thread_at st) (forget (node_gone st f) <$> trans_at st) (buffer_at st) (map_imap f (node_at st)) (proc_at st).

Definition free_node (st : binder) (a : Z) : binder :=
  change_nodes st (fun a' n => if a' =? a then None else Some n).

(** ** The end of a transaction *)

(** [t->buffer->transaction = NULL], if there is a buffer. *)
Definition detach (st : binder) (x : transaction) : option binder :=
  match t_buffer x with
  | None => Some st
  | Some b => y ← buffer_at st !! b; Some (put_buffer st b (set_transaction y None))
  end.

Definition binder_pop_transaction (st : binder) (target_thread : option Z) (t : Z) : option binder :=
  x ← trans_at st !! t;
  st ← match target_thread with
       | None => Some st
       | Some h =>
           y ← thread_at st !! h;
           _ ← BUG_ON (negb (bool_decide (transaction_stack y = Some t)));
           _ ← BUG_ON (negb (bool_decide (from x = Some h)));
           Some (put_thread st h (set_stack y (from_parent x)))
       end;
  st ← detach st x;
  Some (free_trans st t).

(** A thread with one error code pending keeps it in [return_error2] to make
    room for another. *)
Definition make_room (x : binder_thread) : binder_thread :=
  if negb (return_error x =? BR_OK) && (return_error2 x =? BR_OK)
  then set_errors x BR_OK (return_error x) else x.

Fixpoint failed_reply (fuel : nat) (st : binder) (t : Z) (error_code : Z) : option binder :=
  match fuel with
  | O => None
  | S fuel =>
      x ← trans_at st !! t;
      match from x with
      | Some h =>
          y ← thread_at st !! h;
          let y := make_room y in
          let st := put_thread st h y in
          if return_error y =? BR_OK
          then st ← binder_pop_transaction st (Some h) t;
               y ← thread_at st !! h;
               Some (put_thread st h (set_errors y error_code (return_error2 y)))
          else Some st
      | None =>
          st ← binder_pop_transaction st None t;
          match from_parent x with
          | None => Some st
          | Some next => failed_reply fuel st next error_code
          end
      end
  end.

Definition binder_send_failed_reply (st : binder) (t : Z) (error_code : Z) : option binder :=
  x ← trans_at st !! t;
  _ ← BUG_ON (one_way (t_flags x));
  failed_reply (size (trans_at st)) st t error_code.

(** ** Sending *)

(** What the handle of a transaction names: binder_get_ref() or the context
    manager. *)
Inductive target := InvalidHandle | NoContextManager | Node (a : Z).

(** What sending needs from elsewhere: the memory for the transaction and its
    completion, the buffer of binder_alloc_buf(), and how copying the data and
    translating the objects in it ends, with the error code if it fails. *)
Record resources := mk_resources {
  new_t : option Z;
  new_complete : bool;
  new_buffer : option Z;
  translated : option Z
}.

(** The thread of [target_proc] that waits, farthest up the calls. *)
Fixpoint find_target (fuel : nat) (st : binder) (tmp : option Z) (target_proc : Z) (target_thread : option Z)
  : option (option Z) :=
  match tmp with
  | None => Some target_thread
  | Some t =>
      match fuel with
      | O => None
      | S fuel =>
          x ← trans_at st !! t;
          target_thread ← match from x with
                          | None => Some target_thread
                          | Some h =>
                              y ← thread_at st !! h;
                              Some (if th_proc y =? target_proc then Some h else target_thread)
                          end;
          find_target fuel st (from_parent x) target_proc target_thread
      end
  end.

Inductive routed :=
  | Refused (st : binder) (in_reply_to : option Z) (error : Z)
  | Routed (st : binder) (target_proc : Z) (target_thread tnode in_reply_to : option Z).

Definition route_reply (st : binder) (h : Z) : option routed :=
  y ← thread_at st !! h;
  match transaction_stack y with
  | None => Some (Refused st None BR_FAILED_REPLY)
  | Some in_reply_to =>
      x ← trans_at st !! in_reply_to;
      if negb (bool_decide (to_thread x = Some h)) then Some (Refused st None BR_FAILED_REPLY)
      else
        let st := put_thread st h (set_stack y (to_parent x)) in
        match from x with
        | None => Some (Refused st (Some in_reply_to) BR_DEAD_REPLY)
        | Some target_thread =>
            z ← thread_at st !! target_thread;
            if negb (bool_decide (transaction_stack z = Some in_reply_to))
            then Some (Refused st None BR_FAILED_REPLY)
            else Some (Routed st (th_proc z) (Some target_thread) None (Some in_reply_to))
        end
  end.

Definition route_call (st : binder) (h : Z) (tgt : target) (flags : Z) : option routed :=
  y ← thread_at st !! h;
  match tgt with
  | InvalidHandle => Some (Refused st None BR_FAILED_REPLY)
  | NoContextManager => Some (Refused st None BR_DEAD_REPLY)
  | Node a =>
      n ← node_at st !! a;
      match n_proc n with
      | None => Some (Refused st None BR_DEAD_REPLY)
      | Some target_proc =>
          match transaction_stack y with
          | Some tmp =>
              if one_way flags then Some (Routed st target_proc None (Some a) None)
              else
                x ← trans_at st !! tmp;
                if negb (bool_decide (to_thread x = Some h)) then Some (Refused st None BR_FAILED_REPLY)
                else target_thread ← find_target (size (trans_at st)) st (Some tmp) target_proc None;
                     Some (Routed st target_proc target_thread (Some a) None)
          | None => Some (Routed st target_proc None (Some a) None)
          end
      end
  end.

(** The end of binder_transaction() when it fails. *)
Definition transaction_failed (st : binder) (h : Z) (in_reply_to : option Z) (error : Z) : option binder :=
  y ← thread_at st !! h;
  _ ← BUG_ON (negb (return_error y =? BR_OK));
  match in_reply_to with
  | Some t => binder_send_failed_reply
                (put_thread st h (set_errors y BR_TRANSACTION_COMPLETE (return_error2 y))) t error
  | None => Some (put_thread st h (set_errors y error (return_error2 y)))
  end.

(** Once the data is in the buffer: the transaction is linked into the stacks
    and queued, its completion goes to the sender. *)
Definition transaction_send (st : binder) (h : Z) (reply : bool) (t : Z) (target_proc : Z)
    (target_thread tnode in_reply_to : option Z) : option binder :=
  x ← trans_at st !! t;
  b ← t_buffer x;
  z ← buffer_at st !! b;
  let target_list := match target_thread with Some g => OnThread g | None => OnProc target_proc end in
  '(st, target_list) ←
    (if reply
     then _ ← BUG_ON (async_transaction z);
          r ← in_reply_to;
          st ← binder_pop_transaction st target_thread r;
          Some (st, target_list)
     else if negb (one_way (t_flags x))
     then _ ← BUG_ON (async_transaction z);
          y ← thread_at st !! h;
          Some (put_thread (put_trans st t (set_call x (transaction_stack y))) h (set_stack y (Some t)), target_list)
     else a ← tnode;
          _ ← BUG_ON (negb (async_transaction z));
          n ← node_at st !! a;
          Some (if has_async_transaction n then (st, OnNode a)
                else (put_node st a (set_async n true (async_todo n)), target_list)));
  st ← list_add_tail st (WorkTransaction t) target_list;
  list_add_tail st WorkComplete (OnThread h).

(** When an allocation or the translation fails what was allocated is freed
    again, the store is as before. *)
Definition transaction_body (st : binder) (h : Z) (reply : bool) (flags : Z) (r : resources) (target_proc : Z)
    (target_thread tnode in_reply_to : option Z) : option binder :=
  match new_t r, new_complete r, new_buffer r with
  | Some t, true, Some b =>
      match translated r with
      | Some error => transaction_failed st h in_reply_to error
      | None =>
          let st := put_trans st t
                      (mk_transaction None (if negb reply && negb (one_way flags) then Some h else None) None
                         (Some target_proc) target_thread None false (Some b) flags) in
          let st := put_buffer st b
                      (mk_buffer target_proc (Some t) tnode (negb reply && one_way flags) false) in
          transaction_send st h reply t target_proc target_thread tnode in_reply_to
      end
  | _, _, _ => transaction_failed st h in_reply_to BR_FAILED_REPLY
  end.

Definition binder_transaction (st : binder) (h : Z) (reply : bool) (tgt : target) (flags : Z) (r : resources)
  : option binder :=
  routed ← (if reply then route_reply st h else route_call st h tgt flags);
  match routed with
  | Refused st in_reply_to error => transaction_failed st h in_reply_to error
  | Routed st target_proc target_thread tnode in_reply_to =>
      transaction_body st h reply flags r target_proc target_thread tnode in_reply_to
  end.

(** [buffer->transaction->buffer = NULL], if there is a transaction. *)
Definition detach_buffer (st : binder) (y : binder_buffer) : option binder :=
  match b_transaction y with
  | None => Some st
  | Some t => x ← trans_at st !! t; Some (put_trans st t (set_buffer x None))
  end.

(** BC_FREE_BUFFER; [buffer] is what binder_buffer_lookup() finds among the buffers
    of the process. *)
Definition bc_free_buffer (st : binder) (h : Z) (buffer : option Z) : option binder :=
  match buffer with
  | None => Some st
  | Some b =>
  y ← buffer_at st !! b;
  if negb (allow_user_free y) then Some st
  else
    st ← detach_buffer st y;
    st ← match async_transaction y, target_node y with
         | true, Some a =>
             n ← node_at st !! a;
             _ ← BUG_ON (negb (has_async_transaction n));
             match async_todo n with
             | [] => Some (put_node st a (set_async n false []))
             | _ :: _ => '(w, st) ← list_del_first st (OnNode a); list_add_tail st w (OnThread h)
             end
         | _, _ => Some st
         end;
    Some (free_buffer st b)
  end.

(** ** Threads *)

Definition bc_register_looper (st : binder) (h : Z) : option binder :=
  y ← thread_at st !! h;
  p ← proc_at st !! th_proc y;
  if negb (Z.land (looper y) LOOPER_ENTERED =? 0)
  then Some (put_thread st h (set_looper y (Z.lor (Z.lor (looper y) LOOPER_INVALID) LOOPER_REGISTERED)))
  else if requested_threads p =? 0
  then Some (put_thread st h (set_looper y (Z.lor (Z.lor (looper y) LOOPER_INVALID) LOOPER_REGISTERED)))
  else Some (put_thread (put_proc st (th_proc y) (set_requested p (requested_threads p - 1) (requested_threads_started p + 1)))
               h (set_looper y (Z.lor (looper y) LOOPER_REGISTERED))).

Definition bc_enter_looper (st : binder) (h : Z) : option binder :=
  y ← thread_at st !! h;
  let l := if negb (Z.land (looper y) LOOPER_REGISTERED =? 0) then Z.lor (looper y) LOOPER_INVALID else looper y in
  Some (put_thread st h (set_looper y (Z.lor l LOOPER_ENTERED))).

Definition bc_exit_looper (st : binder) (h : Z) : option binder :=
  y ← thread_at st !! h;
  Some (put_thread st h (set_looper y (Z.lor (looper y) LOOPER_EXITED))).

(** The first use of the driver by a thread. *)
Definition new_thread (st : binder) (h p : Z) : binder :=
  put_thread st h (mk_thread p LOOPER_NEED_RETURN None [] BR_OK BR_OK Outside).

(** The end of binder_thread_read(): another thread is asked for when none
    waits and none is on its way. *)
Definition read_done (st : binder) (h : Z) : option binder :=
  y ← thread_at st !! h;
  p ← proc_at st !! th_proc y;
  let st := put_thread st h (set_reading y Outside) in
  Some (if (requested_threads p + ready_threads p =? 0) && (requested_threads_started p <? max_threads p)
           && negb (Z.land (looper y) (Z.lor LOOPER_REGISTERED LOOPER_ENTERED) =? 0)
        then put_proc st (th_proc y) (set_requested p (requested_threads p + 1) (requested_threads_started p))
        else st).

(** binder_thread_read() up to where it sleeps, with [left] bytes to write
    to; [fault2] and [fault1] when the second and the first error code cannot
    be written there. *)
Definition read_start (st : binder) (h : Z) (left : Z) (fault2 fault1 : bool) : option binder :=
  y ← thread_at st !! h;
  p ← proc_at st !! th_proc y;
  let wait_for_proc_work := bool_decide (transaction_stack y = None) && bool_decide (th_todo y = []) in
  if negb (return_error y =? BR_OK) && (0 <? left)
  then if negb (return_error2 y =? BR_OK) && fault2 then Some (put_thread st h (set_reading y Outside))
       else if negb (return_error2 y =? BR_OK) && (left =? 4) then read_done st h
       else if fault1 then Some (put_thread st h (set_reading (set_errors y (return_error y) BR_OK) Outside))
       else read_done (put_thread st h (set_errors y BR_OK BR_OK)) h
  else
    let st := put_thread st h (set_reading (set_looper y (Z.lor (looper y) LOOPER_WAITING)) (Asleep wait_for_proc_work)) in
    Some (if wait_for_proc_work then put_proc st (th_proc y) (set_ready p (ready_threads p + 1)) else st).

Definition binder_has_proc_work (p : binder_proc) (y : binder_thread) : bool :=
  negb (bool_decide (p_todo p = [])) || negb (Z.land (looper y) LOOPER_NEED_RETURN =? 0).

Definition binder_has_thread_work (y : binder_thread) : bool :=
  negb (bool_decide (th_todo y = [])) || negb (return_error y =? BR_OK)
  || negb (Z.land (looper y) LOOPER_NEED_RETURN =? 0).

(** Awake again and with the lock: [interrupted] when the wait ended with an
    error code. *)
Definition read_wake (st : binder) (h : Z) (interrupted : bool) : option binder :=
  y ← thread_at st !! h;
  match reading y with
  | Asleep wait_for_proc_work =>
      p ← proc_at st !! th_proc y;
      let st := if wait_for_proc_work then put_proc st (th_proc y) (set_ready p (ready_threads p - 1)) else st in
      Some (put_thread st h (set_reading (set_looper y (Z.land (looper y) (Z.lnot LOOPER_WAITING)))
                               (if interrupted then Outside else Looping wait_for_proc_work)))
  | _ => None
  end.

(** The list the loop takes its next item from. *)
Definition read_list (y : binder_thread) (p : binder_proc) (h : Z) (wait_for_proc_work : bool) : option place :=
  if negb (bool_decide (th_todo y = [])) then Some (OnThread h)
  else if negb (bool_decide (p_todo p = [])) && wait_for_proc_work then Some (OnProc (th_proc y))
  else None.

(** A transaction is given to the thread that reads it; what it needs no reply
    to is freed. *)
Definition deliver (st : binder) (h : Z) (o : place) (t : Z) : option binder :=
  x ← trans_at st !! t;
  b ← t_buffer x;
  z ← buffer_at st !! b;
  _ ← match target_node z with None => Some tt | Some a => _ ← node_at st !! a; Some tt end;
  _ ← match from x with None => Some tt | Some g => _ ← thread_at st !! g; Some tt end;
  '(_, st) ← list_del_first st o;
  let st := put_buffer st b (set_allow z) in
  x ← trans_at st !! t;
  y ← thread_at st !! h;
  if bool_decide (is_Some (target_node z)) && negb (one_way (t_flags x))
  then Some (put_thread (put_trans st t (set_to x (transaction_stack y) (Some h))) h (set_stack y (Some t)))
  else Some (free_trans (put_buffer st b (set_transaction (set_allow z) None)) t).

(** One turn of the loop: [no_data] when nothing has been written yet, [room]
    when a transaction still fits, [fault] when the buffer of the thread cannot
    be written, [dead_binder] when the item is a death notification the loop
    ends with; the rest is for another round of [read_start]. *)
Definition read_next (st : binder) (h : Z) (no_data room fault dead_binder : bool) (left : Z) (fault2 fault1 : bool)
  : option binder :=
  y ← thread_at st !! h;
  p ← proc_at st !! th_proc y;
  match reading y with
  | Looping wait_for_proc_work =>
      match read_list y p h wait_for_proc_work with
      | None =>
          if no_data && (Z.land (looper y) LOOPER_NEED_RETURN =? 0) then read_start st h left fault2 fault1 else read_done st h
      | Some o =>
          if negb room then read_done st h
          else if fault then Some (put_thread st h (set_reading y Outside))
          else
            l ← work_list st o;
            match l with
            | WorkTransaction t :: _ => st ← deliver st h o t; read_done st h
            | WorkComplete :: _ => '(_, st) ← list_del_first st o; Some st
            | WorkOther :: _ => if dead_binder then read_done st h else Some st
            | [] => None
            end
      end
  | _ => None
  end.

(** ** The end of a thread and of a process *)

Fixpoint release_list (fuel : nat) (st : binder) (o : place) : option binder :=
  l ← work_list st o;
  match l with
  | [] => Some st
  | _ :: _ =>
      match fuel with
      | O => None
      | S fuel =>
          '(w, st) ← list_del_first st o;
          st ← match w with
               | WorkTransaction t =>
                   x ← trans_at st !! t;
                   b ← t_buffer x;
                   z ← buffer_at st !! b;
                   if bool_decide (is_Some (target_node z)) && negb (one_way (t_flags x))
                   then binder_send_failed_reply st t BR_DEAD_REPLY else Some st
               | _ => Some st
               end;
          release_list fuel st o
      end
  end.

Definition binder_release_work (st : binder) (o : place) : option binder :=
  l ← work_list st o;
  release_list (length l) st o.

(** The stack of a thread that goes is taken apart. *)
Fixpoint leave_stack (fuel : nat) (st : binder) (h : Z) (t : option Z) : option binder :=
  match t with
  | None => Some st
  | Some t =>
      match fuel with
      | O => None
      | S fuel =>
          x ← trans_at st !! t;
          if bool_decide (to_thread x = Some h)
          then st ← detach st x;
               let st := put_trans st t (set_buffer (set_to (set_to_proc x None) (to_parent x) None) None) in
               leave_stack fuel st h (to_parent x)
          else if bool_decide (from x = Some h)
          then leave_stack fuel (put_trans st t (set_from x None)) h (from_parent x)
          else None
      end
  end.

Definition binder_free_thread (st : binder) (h : Z) : option binder :=
  y ← thread_at st !! h;
  send_reply ← match transaction_stack y with
               | None => Some None
               | Some t => x ← trans_at st !! t; Some (if bool_decide (to_thread x = Some h) then Some t else None)
               end;
  st ← leave_stack (2 * size (trans_at st)) st h (transaction_stack y);
  st ← match send_reply with
       | None => Some st
       | Some t => binder_send_failed_reply st t BR_DEAD_REPLY
       end;
  st ← binder_release_work st (OnThread h);
  Some (mk_binder (delete h (thread_at st)) (trans_at st) (buffer_at st) (node_at st) (proc_at st)).

Fixpoint free_threads (st : binder) (threads : list Z) : option binder :=
  match threads with
  | [] => Some st
  | h :: threads => st ← binder_free_thread st h; free_threads st threads
  end.

(** The nodes of a process that goes: freed without references, else dead.
    [referred] says which have references. *)
Definition release_node (referred : Z -> bool) (p a : Z) (n : binder_node) : option binder_node :=
  if bool_decide (n_proc n = Some p)
  then if referred a then Some (mk_node None (has_async_transaction n) (async_todo n)) else None
  else Some n.

Definition release_nodes (st : binder) (referred : Z -> bool) (p : Z) : binder :=
  change_nodes st (release_node referred p).

Fixpoint release_buffers (st : binder) (buffers : list Z) : option binder :=
  match buffers with
  | [] => Some st
  | b :: buffers =>
      y ← buffer_at st !! b;
      st ← detach_buffer st y;
      release_buffers (free_buffer st b) buffers
  end.

(** The buffers of a process; releasing them has the same effect in any
    order. *)
Definition buffers_of (st : binder) (p : Z) : list Z :=
  (filter (fun by_ => b_proc by_.2 = p) (map_to_list (buffer_at st))).*1.

(** [threads] are those of the process, in the order of its tree. *)
Definition binder_deferred_release (st : binder) (p : Z) (threads : list Z) (referred : Z -> bool)
  : option binder :=
  st ← free_threads st threads;
  let st := release_nodes st referred p in
  st ← binder_release_work st (OnProc p);
  st ← release_buffers st (buffers_of st p);
  Some (mk_binder (thread_at st) (trans_at st) (buffer_at st) (node_at st) (delete p (proc_at st))).

Definition need_return (p : Z) (y : binder_thread) : binder_thread :=
  if th_proc y =? p then set_looper y (Z.lor (looper y) LOOPER_NEED_RETURN) else y.

Definition binder_deferred_flush (st : binder) (p : Z) : binder :=
  mk_binder (need_return p <$> thread_at st) (trans_at st) (buffer_at st) (node_at st) (proc_at st).

(** binder_open(): kzalloc() leaves the counters at zero. *)
Definition binder_open (st : binder) (p : Z) : binder := put_proc st p (mk_proc [] 0 0 0 0).

(** BINDER_SET_MAX_THREADS. *)
Definition set_max_threads (st : binder) (p n : Z) : option binder :=
  q ← proc_at st !! p;
  Some (put_proc st p (mk_proc (p_todo q) n (requested_threads q) (requested_threads_started q) (ready_threads q))).

(** The end of binder_ioctl(). *)
Definition ioctl_done (st : binder) (h : Z) : option binder :=
  y ← thread_at st !! h;
  Some (put_thread st h (set_looper y (Z.land (looper y) (Z.lnot LOOPER_NEED_RETURN)))).

End BinderThreads.
