(* ===== verification/BinderStacks.v ===== *)
(** Chains of calls: what the transaction stacks of the binder driver hold.

    Calls form chains: a thread that works on a call may call further, and then
    waits.  This file states what the links of the calls and the stacks of the
    threads are in terms of the chains, and what sending, taking, answering
    and the end of a thread do to them.  BinderCallsInv.v relates it to the
    driver's store. *)

From S2P Require Import Prelude.
Local Open Scope Z_scope.

Module BinderStacks.

(** A call as the stacks see it: who waits for it, the call that thread was
    working on, who has taken it ([None] when nobody has, [Some None] when that
    thread is gone), the top of that thread's stack before, and the thread it
    is meant for while it is queued. *)
Record call := mk_call {
  c_from : option Z;
  c_parent : option Z;
  c_to : option (option Z);
  c_up : option Z;
  c_hint : option Z
}.

Definition caller (V : gmap Z call) (t : Z) : option Z := x ← V !! t; c_from x.
Definition callee (V : gmap Z call) (t : Z) : option Z := x ← V !! t; o ← c_to x; o.

(** Thread [h] takes part in call [t]. *)
Definition part (V : gmap Z call) (h t : Z) : Prop := caller V t = Some h \/ callee V t = Some h.

#[export] Instance part_dec V h t : Decision (part V h t).
Proof. unfold part. apply _. Defined.

Definition mentions (V : gmap Z call) (h : Z) (c : list Z) : Prop := Exists (part V h) c.

(** A chain has the newest call first.  The stack of a thread has the calls of
    the chain the thread takes part in. *)
Fixpoint top (V : gmap Z call) (h : Z) (c : list Z) : option Z :=
  match c with
  | [] => None
  | t :: c => if decide (part V h t) then Some t else top V h c
  end.

(** A call [x] on top of the chain [c]: the thread that sent it is the one that
    has taken the call below. *)
Definition link (V : gmap Z call) (x : call) (c : list Z) : Prop :=
  c_parent x = head c /\
  (forall u c', c = u :: c' -> exists y, V !! u = Some y /\ c_to y = Some (c_from x)) /\
  (forall h, c_to x = Some (Some h) -> c_up x = top V h c /\ c_from x <> Some h) /\
  (forall h, c_hint x = Some h -> mentions V h c /\ c_to x = None).

Fixpoint chain (V : gmap Z call) (c : list Z) : Prop :=
  match c with
  | [] => True
  | t :: c => (exists x, V !! t = Some x /\ link V x c) /\ chain V c
  end.

(** A chain ends in a call that is queued, or that a living thread works on. *)
Definition ends (V : gmap Z call) (c : list Z) : Prop :=
  exists t c' x, c = t :: c' /\ V !! t = Some x /\ c_to x <> Some None.

(** The calls [V] and the stacks [S] of the threads are those of the chains
    [C]; no thread takes part in two of them. *)
Record chains (V : gmap Z call) (S : gmap Z (option Z)) (C : list (list Z)) : Prop := {
  ch_nodup : NoDup (mjoin C);
  ch_dom t : is_Some (V !! t) <-> t ∈ mjoin C;
  ch_chain c : c ∈ C -> chain V c;
  ch_ends c : c ∈ C -> ends V c;
  ch_one h c c' : c ∈ C -> c' ∈ C -> mentions V h c -> mentions V h c' -> c = c';
  ch_alive h c : c ∈ C -> mentions V h c -> is_Some (S !! h);
  ch_stack h s c : S !! h = Some s -> c ∈ C -> mentions V h c -> s = top V h c;
  ch_free h s : S !! h = Some s -> (forall c, c ∈ C -> ~ mentions V h c) -> s = None
}.

(** ** Tops *)

#[local] Instance mentions_dec V h c : Decision (mentions V h c).
Proof. unfold mentions. apply _. Defined.

Lemma mentions_cons V h t c : mentions V h (t :: c) <-> part V h t \/ mentions V h c.
Proof. apply Exists_cons. Qed.

Lemma mentions_nil V h : ~ mentions V h [].
Proof. by inversion 1. Qed.

Lemma top_none V h c : ~ mentions V h c -> top V h c = None.
Proof.
  induction c as [|t c IH]; simpl; [done|]. rewrite mentions_cons. intros H.
  rewrite decide_False by tauto. apply IH. tauto.
Qed.

Lemma top_some V h c : mentions V h c -> exists t, top V h c = Some t /\ t ∈ c /\ part V h t.
Proof.
  induction c as [|t c IH]; intros H; [by apply mentions_nil in H|]. simpl.
  destruct (decide (part V h t)) as [P|P]; [exists t; set_solver|].
  apply mentions_cons in H as [H|H]; [done|].
  destruct (IH H) as (u & E & Hu & P'). exists u. set_solver.
Qed.

Lemma top_part V h c t : top V h c = Some t -> t ∈ c /\ part V h t.
Proof.
  intros H. destruct (decide (mentions V h c)) as [M|M].
  - destruct (top_some V h c M) as (u & E & ? & ?). rewrite H in E. by simplify_eq.
  - by rewrite top_none in H.
Qed.

(** ** Changes that a chain does not see *)

Lemma part_ext V V' h t : V' !! t = V !! t -> part V' h t <-> part V h t.
Proof. intros E. unfold part, caller, callee. by rewrite E. Qed.

Lemma mentions_ext V V' h c : (forall t, t ∈ c -> part V' h t <-> part V h t) ->
  mentions V' h c <-> mentions V h c.
Proof.
  induction c as [|t c IH]; intros E; [split; intros H; by apply mentions_nil in H|].
  rewrite !mentions_cons, IH by (intros; apply E; set_solver). rewrite E by set_solver. done.
Qed.

Lemma top_ext V V' h c : (forall t, t ∈ c -> part V' h t <-> part V h t) -> top V' h c = top V h c.
Proof.
  induction c as [|t c IH]; intros E; simpl; [done|].
  rewrite IH by (intros; apply E; set_solver).
  rewrite (decide_ext (part V' h t) (part V h t)); [done|]. apply E. set_solver.
Qed.

Lemma link_ext V V' x c : (forall t, t ∈ c -> V' !! t = V !! t) -> link V x c -> link V' x c.
Proof.
  intros E (? & H2 & H3 & H4).
  assert (E' : forall h t, t ∈ c -> part V' h t <-> part V h t) by (intros; apply part_ext, E; done).
  split_and!; [done| | |].
  - intros u c' ->. destruct (H2 u c' eq_refl) as (y & ? & ?). exists y. by rewrite E by set_solver.
  - intros h Hh. destruct (H3 h Hh). rewrite (top_ext V V') by auto. done.
  - intros h Hh. destruct (H4 h Hh). rewrite (mentions_ext V V') by auto. done.
Qed.

Lemma chain_ext V V' c : (forall t, t ∈ c -> V' !! t = V !! t) -> chain V c -> chain V' c.
Proof.
  induction c as [|t c IH]; intros E; simpl; [done|]. intros [(x & Hx & L) Hc]. split.
  - exists x. rewrite E by set_solver. split; [done|]. apply (link_ext V); set_solver.
  - apply IH; set_solver.
Qed.

Lemma ends_ext V V' c : (forall t, t ∈ c -> V' !! t = V !! t) -> ends V c -> ends V' c.
Proof. intros E (t & c' & x & -> & ? & ?). exists t, c', x. by rewrite E by set_solver. Qed.

(** ** Changing one chain *)

Lemma chains_perm V S C C' : C ≡ₚ C' -> chains V S C -> chains V S C'.
Proof.
  intros P [Hnd Hdom Hc He Ho Ha Hs Hf].
  assert (E : forall c, c ∈ C' <-> c ∈ C) by (intros c; by rewrite P).
  assert (J : mjoin C ≡ₚ mjoin C') by (by rewrite P).
  split.
  - by rewrite <- J.
  - intros t. by rewrite Hdom, J.
  - intros c Hin. apply Hc, E, Hin.
  - intros c Hin. apply He, E, Hin.
  - intros h c c' H1 H2. apply Ho; by apply E.
  - intros h c H1. apply (Ha h c), E, H1.
  - intros h s c H0 H1. apply (Hs h s c H0), E, H1.
  - intros h s H0 H1. apply (Hf h s H0). intros c Hin. apply H1, E, Hin.
Qed.

(** The chains with [c] among them, unless it is empty. *)
Definition with_chain (c : list Z) (C : list (list Z)) : list (list Z) :=
  match c with [] => C | _ => c :: C end.

Lemma join_with c C : mjoin (with_chain c C) = c ++ mjoin C.
Proof. by destruct c. Qed.

Lemma elem_with c C d : d ∈ with_chain c C <-> (d = c /\ c <> []) \/ d ∈ C.
Proof. destruct c; simpl; set_solver. Qed.

Definition apart (V : gmap Z call) (h : Z) (C : list (list Z)) : Prop := forall c, c ∈ C -> ~ mentions V h c.

Section Focus.
Variables (V : gmap Z call) (S : gmap Z (option Z)) (c : list Z) (C : list (list Z)).
Hypothesis H : chains V S (with_chain c C).

Lemma focus_nodup : NoDup c /\ (forall t, t ∈ c -> t ∉ mjoin C) /\ NoDup (mjoin C).
Proof using H. destruct H as [Hnd _ _ _ _ _ _ _]. rewrite join_with in Hnd. by apply NoDup_app. Qed.

Lemma focus_chain : chain V c.
Proof using H. destruct c as [|t c'] eqn:E; [done|]. apply (ch_chain _ _ _ H). simpl. set_solver. Qed.

Lemma focus_apart h : mentions V h c -> apart V h C.
Proof using H.
  intros M d Hd M'. assert (Hc : c <> []) by (intros ->; by apply mentions_nil in M).
  assert (c = d) as <-.
  { apply (ch_one _ _ _ H h); [apply elem_with; by left|apply elem_with; by right|done|done]. }
  destruct focus_nodup as (_ & Hs & _).
  destruct (top_some V h c M) as (t & _ & Ht & _). apply (Hs t Ht).
  apply list_elem_of_join. eauto.
Qed.

Lemma focus_top h s : S !! h = Some s -> apart V h C -> s = top V h c.
Proof using H.
  intros Hh A. destruct (decide (mentions V h c)) as [M|M].
  - apply (ch_stack _ _ _ H h s c Hh); [|done]. apply elem_with. left. split; [done|].
    intros ->. by apply mentions_nil in M.
  - rewrite top_none by done. apply (ch_free _ _ _ H h s Hh).
    intros d [[-> _]|Hd]%elem_with; [done|by apply A].
Qed.

Lemma focus_alive h : mentions V h c -> is_Some (S !! h).
Proof using H.
  intros M. apply (ch_alive _ _ _ H h c); [|done]. apply elem_with. left. split; [done|].
  intros ->. by apply mentions_nil in M.
Qed.

Lemma chains_update V' S' c' :
  (forall t, t ∈ mjoin C -> V' !! t = V !! t) ->
  (forall t, t ∉ mjoin C -> is_Some (V' !! t) <-> t ∈ c') ->
  NoDup c' -> (forall t, t ∈ c' -> t ∉ mjoin C) ->
  chain V' c' -> (c' <> [] -> ends V' c') ->
  (forall h, mentions V' h c' -> apart V h C /\ is_Some (S' !! h)) ->
  (forall h s, S' !! h = Some s -> apart V h C -> s = top V' h c') ->
  (forall h d, d ∈ C -> mentions V h d -> S' !! h = S !! h) ->
  chains V' S' (with_chain c' C).
Proof using H.
  intros Hout Hdom Hnd Hdis Hc He Hm Hs Ho.
  assert (Hj : forall d t, d ∈ C -> t ∈ d -> t ∈ mjoin C) by (intros d t ??; apply list_elem_of_join; eauto).
  assert (M : forall h d, d ∈ C -> mentions V' h d <-> mentions V h d).
  { intros h d Hd. apply mentions_ext. intros t Ht. apply part_ext, Hout; eauto. }
  assert (A : forall h, apart V' h C <-> apart V h C).
  { intros h. split; intros Ha d Hd; specialize (Ha d Hd); contradict Ha; apply M; done. }
  assert (W : forall d, d ∈ C -> d ∈ with_chain c C) by (intros; apply elem_with; by right).
  split.
  - rewrite join_with. apply NoDup_app. split_and!; [done|done|]. by apply focus_nodup.
  - intros t. rewrite join_with, elem_of_app. destruct (decide (t ∈ mjoin C)) as [Ht|Ht].
    + rewrite Hout, (ch_dom _ _ _ H), join_with, elem_of_app by done. tauto.
    + rewrite Hdom by done. tauto.
  - intros d [[-> _]|Hd]%elem_with; [done|].
    apply (chain_ext V); [intros; apply Hout; eauto|]. by apply (ch_chain _ _ _ H), W.
  - intros d [[-> ?]|Hd]%elem_with; [by apply He|].
    apply (ends_ext V); [intros; apply Hout; eauto|]. by apply (ch_ends _ _ _ H), W.
  - intros h d d' [[-> _]|Hd]%elem_with [[-> _]|Hd']%elem_with M1 M2; [done| | |].
    + destruct (Hm h M1) as [Ha _]. apply A in Ha. by apply Ha in M2.
    + destruct (Hm h M2) as [Ha _]. apply A in Ha. by apply Ha in M1.
    + apply M in M1, M2; try done. by apply (ch_one _ _ _ H h); try apply W.
  - intros h d [[-> _]|Hd]%elem_with M1; [by apply Hm|].
    rewrite (Ho h d) by (rewrite <-?M; done). apply M in M1; [|done]. apply (ch_alive _ _ _ H h d); auto.
  - intros h s d Hh [[-> _]|Hd]%elem_with M1.
    + destruct (Hm h M1). by apply Hs.
    + rewrite (top_ext V V') by (intros t Ht; apply part_ext, Hout; eauto).
      apply M in M1; [|done]. rewrite (Ho h d) in Hh by done. apply (ch_stack _ _ _ H h s d); auto.
  - intros h s Hh Hno. rewrite (Hs h s Hh).
    + apply top_none. intros M1. apply (Hno c'); [|done]. apply elem_with. left. split; [done|].
      intros ->. by apply mentions_nil in M1.
    + apply A. intros d Hd. apply Hno, elem_with. by right.
Qed.

End Focus.

(** ** Changing the newest call of a chain *)

Definition takes_part (x : call) (h : Z) : Prop := c_from x = Some h \/ c_to x = Some (Some h).

Lemma part_set V h t x : (part (<[t := x]> V) h t) <-> takes_part x h.
Proof.
  unfold part, takes_part, caller, callee. rewrite lookup_insert_eq. simpl.
  destruct (c_to x) as [[?|]|]; simpl; naive_solver.
Qed.

Lemma part_at V h t x : V !! t = Some x -> part V h t <-> takes_part x h.
Proof. intros E. rewrite <- (part_set V h t x), insert_id by done. done. Qed.

Lemma part_set_ne V h t u x : t <> u -> part (<[t := x]> V) h u <-> part V h u.
Proof. intros. apply part_ext. by rewrite lookup_insert_ne. Qed.

Section SetEnd.
Variables (V : gmap Z call) (S S' : gmap Z (option Z)) (c0 c : list Z) (C : list (list Z)) (t : Z) (x : call).
Hypothesis H : chains V S (with_chain c0 C).
Hypothesis H0 : c0 = t :: c \/ (c0 = c /\ V !! t = None).

Lemma end_fresh : (t ∉ c) /\ (t ∉ mjoin C) /\ NoDup c /\ (forall u, u ∈ c -> u ∉ mjoin C) /\ chain V c.
Proof using H H0.
  pose proof (focus_nodup _ _ _ _ H) as (Hnd & Hd & _). pose proof (focus_chain _ _ _ _ H) as Hc.
  destruct H0 as [->|[-> E]].
  - apply NoDup_cons in Hnd as [??]. split_and!; [done|set_solver|done|set_solver|apply Hc].
  - assert (Ht : t ∉ c ++ mjoin C).
    { rewrite <- join_with, <- (ch_dom _ _ _ H), E. by intros []. }
    apply not_elem_of_app in Ht as [??]. split_and!; done.
Qed.

Lemma end_apart h : mentions V h c -> apart V h C.
Proof using H H0.
  intros M. apply (focus_apart _ _ _ _ H). destruct H0 as [->|[-> _]]; [apply mentions_cons; by right|done].
Qed.

Lemma end_alive h : mentions V h c -> is_Some (S !! h).
Proof using H H0.
  intros M. apply (focus_alive _ _ _ _ H). destruct H0 as [->|[-> _]]; [apply mentions_cons; by right|done].
Qed.

Lemma chains_set_end :
  link V x c -> c_to x <> Some None ->
  (forall h, takes_part x h -> apart V h C /\ S' !! h = Some (Some t)) ->
  (forall h, is_Some (S' !! h) <-> is_Some (S !! h)) ->
  (forall h s, ~ takes_part x h -> S' !! h = Some s -> apart V h C -> s = top V h c) ->
  (forall h d, d ∈ C -> mentions V h d -> S' !! h = S !! h) ->
  chains (<[t := x]> V) S' (with_chain (t :: c) C).
Proof using H H0.
  intros L Hx Hp Ha Hs Ho. destruct end_fresh as (Ht & HtC & Hnd & Hd & Hc).
  assert (E : forall u, u ∈ c -> (<[t := x]> V) !! u = V !! u).
  { intros u Hu. apply lookup_insert_ne. by intros ->. }
  assert (T : forall h, top (<[t := x]> V) h c = top V h c).
  { intros h. apply top_ext. intros u Hu. by apply part_ext, E. }
  apply (chains_update V S c0); [done|..].
  - intros u Hu. apply lookup_insert_ne. by intros ->.
  - intros u Hu. rewrite elem_of_cons. destruct (decide (u = t)) as [->|Hne].
    + rewrite lookup_insert_eq. naive_solver.
    + rewrite lookup_insert_ne, (ch_dom _ _ _ H), join_with, elem_of_app by done.
      destruct H0 as [->|[-> _]]; rewrite ?elem_of_cons; tauto.
  - by apply NoDup_cons.
  - intros u [->|Hu]%elem_of_cons; auto.
  - simpl. split; [|by apply (chain_ext V)].
    exists x. rewrite lookup_insert_eq. split; [done|]. by apply (link_ext V).
  - intros _. exists t, c, x. by rewrite lookup_insert_eq.
  - intros h [P%part_set|M]%mentions_cons; [destruct (Hp h P) as [? ->]; eauto|].
    apply (mentions_ext V) in M; [|intros u Hu; by apply part_ext, E].
    split; [by apply end_apart|]. by apply Ha, end_alive.
  - intros h s Hh A. simpl. destruct (decide _) as [P%part_set|P].
    + destruct (Hp h P) as [_ E']. congruence.
    + rewrite T. apply (Hs h); [|done|done]. contradict P. by apply part_set.
  - done.
Qed.

End SetEnd.

(** ** Finding the chain *)

(** Who works on a call and has it on top of the stack works on the newest
    call of the chain, *)
Lemma top_served V h t c : chain V c -> top V h c = Some t -> callee V t = Some h -> head c = Some t.
Proof.
  induction c as [|w c IH]; simpl; [done|]. intros [(x & Hx & L) Hc] Ht Hh.
  destruct (decide (part V h w)) as [P|P]; [done|]. exfalso. apply P.
  specialize (IH Hc Ht Hh). destruct c as [|u c]; simplify_eq/=.
  destruct L as (_ & L & _). destruct (L t c eq_refl) as (y & Hy & E).
  left. unfold caller, callee in *. rewrite Hx. rewrite Hy in Hh. simpl in *. by rewrite E in Hh.
Qed.

(** and a call nobody has taken is the newest. *)
Lemma untaken_head V t x c : chain V c -> t ∈ c -> V !! t = Some x -> c_to x = None -> head c = Some t.
Proof.
  induction c as [|w c IH]; simpl; [set_solver|]. intros [(y & Hy & L) Hc] Ht Hx E.
  apply elem_of_cons in Ht as [->|Ht]; [done|]. exfalso.
  specialize (IH Hc Ht Hx E). destruct c as [|u c]; simplify_eq/=.
  destruct L as (_ & L & _). destruct (L t c eq_refl) as (z & Hz & E'). congruence.
Qed.

(** The links determine a chain from its newest call. *)
Lemma chain_unique V c d : chain V c -> chain V d -> head c = head d -> c = d.
Proof.
  revert d. induction c as [|t c IH]; intros [|u d]; simpl; try done.
  intros [(x & Hx & L & _) Hc] [(y & Hy & L' & _) Hd] [= ->]. simplify_eq. f_equal. apply IH; [done|done|congruence].
Qed.

Lemma pick_chain (C : list (list Z)) c : c ∈ C -> c <> [] -> exists C', C ≡ₚ with_chain c C'.
Proof. intros [C' P]%elem_of_Permutation Hc. exists C'. by destruct c. Qed.

Lemma chains_nonempty V S C c : chains V S C -> c ∈ C -> c <> [].
Proof. intros H Hc. destruct (ch_ends _ _ _ H c Hc) as (t & c' & x & -> & _). done. Qed.

Lemma served_chain V S C h t : chains V S C -> S !! h = Some (Some t) -> callee V t = Some h ->
  exists c C', C ≡ₚ with_chain (t :: c) C'.
Proof.
  intros H Hs Hh. destruct (decide (Exists (mentions V h) C)) as [M|M].
  - apply Exists_exists in M as (d & Hd & M).
    pose proof (ch_stack _ _ _ H h _ d Hs Hd M) as E.
    pose proof (top_served V h t d (ch_chain _ _ _ H d Hd) (eq_sym E) Hh) as Ht.
    destruct d as [|? d]; simplify_eq/=. destruct (pick_chain C (t :: d)) as [C' P]; [done|done|]. by exists d, C'.
  - assert (Some t = None); [|done]. apply (ch_free _ _ _ H h); [done|].
    intros d Hd M'. apply M, Exists_exists. eauto.
Qed.

Lemma untaken_chain V S C t x : chains V S C -> V !! t = Some x -> c_to x = None ->
  exists c C', C ≡ₚ with_chain (t :: c) C'.
Proof.
  intros H Hx E. assert (Ht : t ∈ mjoin C) by (apply (ch_dom _ _ _ H); eauto).
  apply list_elem_of_join in Ht as (d & Ht & Hd).
  pose proof (untaken_head V t x d (ch_chain _ _ _ H d Hd) Ht Hx E) as E'.
  destruct d as [|? d]; simplify_eq/=. destruct (pick_chain C (t :: d)) as [C' P]; [done|done|]. by exists d, C'.
Qed.

Lemma idle_apart V S C h : chains V S C -> S !! h = Some None -> apart V h C.
Proof.
  intros H Hs c Hc M. pose proof (ch_stack _ _ _ H h _ c Hs Hc M) as E.
  destruct (top_some V h c M) as (t & E' & _). congruence.
Qed.

(** A thread has one chain at most. *)
Lemma thread_chain V S C h s : chains V S C -> S !! h = Some s ->
  exists c C', C ≡ₚ with_chain c C' /\ s = top V h c /\ apart V h C'.
Proof.
  intros H Hs. destruct (decide (Exists (mentions V h) C)) as [M|M].
  - apply Exists_exists in M as (d & Hd & M).
    destruct (pick_chain C d Hd (chains_nonempty _ _ _ _ H Hd)) as [C' P]. exists d, C'.
    pose proof (chains_perm _ _ _ _ P H) as H'. split_and!; [done|by apply (ch_stack _ _ _ H h s d)|].
    by apply (focus_apart _ _ _ _ H').
  - exists [], C. assert (A : apart V h C) by (intros d Hd M'; apply M, Exists_exists; eauto).
    split_and!; [done|by apply (ch_free _ _ _ H h)|done].
Qed.

(** ** What the driver does to the chains *)

Section Moves.
Variables (V : gmap Z call) (S : gmap Z (option Z)) (C : list (list Z)) (t : Z) (c : list Z) (x : call).
Hypothesis H : chains V S (with_chain (t :: c) C).
Hypothesis Hx : V !! t = Some x.

Lemma moves_link : link V x c /\ chain V c.
Proof using H Hx.
  pose proof (focus_chain _ _ _ _ H) as [(y & Hy & L) Hc]. by simplify_eq.
Qed.

Lemma moves_part h : takes_part x h -> apart V h C /\ S !! h = Some (Some t).
Proof using H Hx.
  intros P. assert (M : mentions V h (t :: c)) by (apply mentions_cons; left; by apply (part_at V h t x)).
  pose proof (focus_apart _ _ _ _ H h M) as A. split; [done|].
  destruct (focus_alive _ _ _ _ H h M) as [s Hs]. rewrite Hs.
  rewrite (focus_top _ _ _ _ H h s Hs A). simpl. rewrite decide_True; [done|]. by apply (part_at V h t x).
Qed.

Lemma moves_other h s : ~ takes_part x h -> S !! h = Some s -> apart V h C -> s = top V h c.
Proof using H Hx.
  intros P Hs A. rewrite (focus_top _ _ _ _ H h s Hs A). simpl. rewrite decide_False; [done|].
  by rewrite (part_at V h t x).
Qed.

Lemma insert_alive (h : Z) (s : option Z) : is_Some (S !! h) ->
  forall g, is_Some ((<[h := s]> S) !! g) <-> is_Some (S !! g).
Proof using.
  intros Hh g. destruct (decide (g = h)) as [->|?]; [rewrite lookup_insert_eq; naive_solver|by rewrite lookup_insert_ne].
Qed.

(** Working on the call ends, the reply is not on its way yet. *)
Lemma answer_chains h : c_to x = Some (Some h) ->
  chains (<[t := mk_call (c_from x) (c_parent x) None (c_up x) None]> V) (<[h := c_up x]> S) (with_chain (t :: c) C).
Proof using H Hx.
  intros E. destruct moves_link as [(L1 & L2 & L3 & L4) _]. destruct (L3 h E) as [Eu Hne].
  destruct (moves_part h) as [A Sh]; [by right|].
  apply (chains_set_end V S _ (t :: c)); [done|by left|..]; unfold takes_part; simpl.
  - by split_and!.
  - done.
  - intros g [Eg|?]; [|done]. destruct (moves_part g) as [? ?]; [by left|]. split; [done|].
    rewrite lookup_insert_ne; [done|]. by intros ->.
  - apply insert_alive. eauto.
  - intros g s P Hg Ag. destruct (decide (g = h)) as [->|?].
    + rewrite lookup_insert_eq in Hg. by simplify_eq.
    + rewrite lookup_insert_ne in Hg by done. apply (moves_other g s); [|done|done].
      intros [?|?]; [by apply P; left|]. congruence.
  - intros g d Hd M. destruct (decide (g = h)) as [->|?]; [by apply A in M|]. by rewrite lookup_insert_ne.
Qed.

(** A thread takes the call: it was meant for it, or has nothing else to do. *)
Lemma take_chains h s : c_to x = None -> S !! h = Some s -> mentions V h c \/ s = None -> c_from x <> Some h ->
  chains (<[t := mk_call (c_from x) (c_parent x) (Some (Some h)) s None]> V) (<[h := Some t]> S) (with_chain (t :: c) C).
Proof using H Hx.
  intros E Hs Hm Hne. destruct moves_link as [(L1 & L2 & L3 & L4) _].
  assert (A : apart V h C).
  { destruct Hm as [M| ->]; [apply (focus_apart _ _ _ _ H); apply mentions_cons; by right|].
    intros d Hd. apply (idle_apart _ _ _ h H Hs). apply elem_with. by right. }
  apply (chains_set_end V S _ (t :: c)); [done|by left|..]; unfold takes_part; simpl.
  - split_and!; [done|done| |done]. intros g Hg; simplify_eq/=. split; [|done].
    apply (moves_other g s); [|done|done]. unfold takes_part. rewrite E. naive_solver.
  - done.
  - intros g [Eg|Eg]; simplify_eq.
    + destruct (moves_part g) as [? ?]; [by left|]. split; [done|].
      rewrite lookup_insert_ne; [done|]. congruence.
    + by rewrite lookup_insert_eq.
  - apply insert_alive. eauto.
  - intros g s' P Hg Ag. destruct (decide (g = h)) as [->|?]; [naive_solver|].
    rewrite lookup_insert_ne in Hg by done. apply (moves_other g s'); [|done|done].
    unfold takes_part. rewrite E. naive_solver.
  - intros g d Hd M. destruct (decide (g = h)) as [->|?]; [by apply A in M|]. by rewrite lookup_insert_ne.
Qed.

(** The call is over: the thread that waits for it goes on with what it was
    doing, *)
Lemma pop_chains h : c_to x = None -> c_from x = Some h ->
  chains (delete t V) (<[h := c_parent x]> S) (with_chain c C).
Proof using H Hx.
  intros E Ef. destruct moves_link as [(L1 & L2 & L3 & L4) Hc].
  destruct (end_fresh V S (t :: c) c C t H) as (Ht & HtC & Hnd & Hd & _); [by left|].
  destruct (moves_part h) as [A Sh]; [by left|].
  assert (D : forall u, u <> t -> delete t V !! u = V !! u) by (intros; by apply lookup_delete_ne).
  assert (P : forall g u, u ∈ c -> part (delete t V) g u <-> part V g u).
  { intros g u Hu. apply part_ext, D. by intros ->. }
  apply (chains_update V S (t :: c)); [done|..].
  - intros u Hu. apply D. by intros ->.
  - intros u Hu. destruct (decide (u = t)) as [->|?].
    + rewrite lookup_delete_eq. split; [by intros []|done].
    + rewrite D, (ch_dom _ _ _ H), join_with, elem_of_app, elem_of_cons by done. naive_solver.
  - done.
  - done.
  - apply (chain_ext V); [|done]. intros u Hu. apply D. by intros ->.
  - intros Hne. destruct c as [|u c']; [done|]. destruct (L2 u c' eq_refl) as (y & Hy & Ey).
    exists u, c', y. rewrite D by set_solver. rewrite Ey, Ef. done.
  - intros g M. apply (mentions_ext V) in M; [|auto]. split.
    + apply (end_apart V S (t :: c) c C t); [done|by left|done].
    + apply insert_alive; [by eauto|]. apply (end_alive V S (t :: c) c C t); [done|by left|done].
  - intros g s Hg Ag. rewrite (top_ext V) by auto. destruct (decide (g = h)) as [->|?].
    + rewrite lookup_insert_eq in Hg. simplify_eq. rewrite L1. destruct c as [|u c']; [done|]. simpl.
      rewrite decide_True; [done|]. right. destruct (L2 u c' eq_refl) as (y & Hy & Ey).
      unfold callee. by rewrite Hy; simpl; rewrite Ey.
    + rewrite lookup_insert_ne in Hg by done. apply (moves_other g s); [|done|done].
      unfold takes_part. rewrite E. naive_solver.
  - intros g d Hd' M. destruct (decide (g = h)) as [->|?]; [by apply A in M|]. by rewrite lookup_insert_ne.
Qed.

End Moves.

(** or, when that thread is gone, the call below is over too. *)
Definition untaken (y : call) : call := mk_call (c_from y) (c_parent y) None (c_up y) None.

Lemma pop_chains_nil V S C t x : chains V S (with_chain [t] C) -> V !! t = Some x ->
  c_from x = None -> c_to x = None -> chains (delete t V) S C.
Proof.
  intros H Hx Ef E. destruct (end_fresh V S [t] [] C t H) as (_ & HtC & _); [by left|].
  apply (chains_update V S [t] C H _ _ []).
  - intros u Hu. apply lookup_delete_ne. by intros ->.
  - intros u Hu. destruct (decide (u = t)) as [->|?].
    + rewrite lookup_delete_eq. split; [by intros []|set_solver].
    + rewrite lookup_delete_ne, (ch_dom _ _ _ H), join_with by done. set_solver.
  - constructor.
  - set_solver.
  - done.
  - done.
  - intros g M. by apply mentions_nil in M.
  - intros g s Hg Ag. apply (moves_other V S C t [] x H Hx g s); [|done|done]. unfold takes_part. rewrite E, Ef. naive_solver.
  - done.
Qed.

Lemma pop_chains_cons V S C t u c' x y : chains V S (with_chain (t :: u :: c') C) -> V !! t = Some x ->
  V !! u = Some y -> c_from x = None -> c_to x = None ->
  c_to y = Some None /\ chains (<[u := untaken y]> (delete t V)) S (with_chain (u :: c') C).
Proof.
  intros H Hx Hy Ef E. destruct (moves_link V S C t (u :: c') x H Hx) as [(L1 & L2 & _ & _) Hc].
  destruct (end_fresh V S (t :: u :: c') (u :: c') C t H) as (Ht & HtC & Hnd & Hd & _); [by left|].
  destruct (L2 u c' eq_refl) as (z & Hz & Ey). simplify_eq. rewrite Ef in Ey. split; [done|].
  set (V' := <[u := untaken y]> (delete t V)).
  assert (D : forall w, w <> t -> w <> u -> V' !! w = V !! w).
  { intros. unfold V'. by rewrite lookup_insert_ne, lookup_delete_ne. }
  assert (P : forall g w, w ∈ u :: c' -> part V' g w <-> part V g w).
  { intros g w Hw. destruct (decide (w = u)) as [->|?].
    - unfold V'. rewrite part_set, (part_at V g u y) by done. unfold takes_part. simpl. rewrite Ey. naive_solver.
    - apply part_ext, D; [|done]. by intros ->. }
  apply NoDup_cons in Hnd as Hnd'. destruct Hnd' as [Hu Hnd'].
  apply (chains_update V S (t :: u :: c')); [done|..].
  - intros w Hw. apply D; intros ->; [done|]. apply (Hd u); [set_solver|done].
  - intros w Hw. destruct (decide (w = u)) as [->|?]; [|destruct (decide (w = t)) as [->|?]].
    + unfold V'. rewrite lookup_insert_eq. set_solver.
    + unfold V'. rewrite lookup_insert_ne, lookup_delete_eq by done. split; [by intros []|done].
    + rewrite D, (ch_dom _ _ _ H), join_with, elem_of_app, elem_of_cons by done. naive_solver.
  - done.
  - done.
  - destruct Hc as [(z & Hz' & Lu) Hc]. simplify_eq.
    assert (D' : forall w, w ∈ c' -> V' !! w = V !! w) by (intros w Hw; apply D; set_solver).
    simpl. split; [|by apply (chain_ext V)].
    exists (untaken y). unfold V' at 1. rewrite lookup_insert_eq. split; [done|].
    apply (link_ext V); [done|]. destruct Lu as (M1 & M2 & M3 & M4). by split_and!.
  - intros _. exists u, c', (untaken y). unfold V'. by rewrite lookup_insert_eq.
  - intros g M. apply (mentions_ext V) in M; [|auto]. split.
    + apply (end_apart V S (t :: u :: c') (u :: c') C t); [done|by left|done].
    + apply (end_alive V S (t :: u :: c') (u :: c') C t); [done|by left|done].
  - intros g s Hg Ag. rewrite (top_ext V) by auto. apply (moves_other V S C t (u :: c') x H Hx g s); [|done|done].
    unfold takes_part. rewrite E, Ef. naive_solver.
  - done.
Qed.

(** Who a call was meant for is forgotten. *)
Lemma untaken_chains V S C t x : chains V S C -> V !! t = Some x -> c_to x = None ->
  chains (<[t := untaken x]> V) S C.
Proof.
  intros H Hx E. destruct (untaken_chain V S C t x H Hx E) as (c & C' & P).
  pose proof (chains_perm _ _ _ _ P H) as H'. apply (chains_perm _ _ (with_chain (t :: c) C')); [by rewrite P|].
  destruct (moves_link V S C' t c x H' Hx) as [(L1 & L2 & L3 & L4) _].
  apply (chains_set_end V S _ (t :: c)); [done|by left|..]; unfold takes_part; simpl.
  - by split_and!.
  - done.
  - intros h [Eh|?]; [|done]. apply (moves_part V S C' t c x H' Hx). by left.
  - done.
  - intros h s P' Hs A. apply (moves_other V S C' t c x H' Hx h s); [|done|done].
    unfold takes_part. rewrite E. naive_solver.
  - done.
Qed.

(** A thread comes. *)
Lemma spawn_chains V S C h : chains V S C -> S !! h = None -> chains V (<[h := None]> S) C.
Proof.
  intros H Hh. assert (N : forall g c, c ∈ C -> mentions V g c -> g <> h).
  { intros g c Hc M ->. destruct (ch_alive _ _ _ H h c Hc M). congruence. }
  split; try apply H.
  - intros g c Hc M. rewrite lookup_insert_ne by (symmetry; eauto). by apply (ch_alive _ _ _ H g c).
  - intros g s c Hg Hc M. rewrite lookup_insert_ne in Hg by (symmetry; eauto). by apply (ch_stack _ _ _ H g s c).
  - intros g s [[<- <-]|[? Hg]]%lookup_insert_Some Hn; [done|]. by apply (ch_free _ _ _ H g).
Qed.

(** A thread sends a call, while it works on another or out of nothing. *)
Lemma send_chains V S C h s t hint : chains V S C -> V !! t = None -> S !! h = Some s ->
  (forall u, s = Some u -> callee V u = Some h) ->
  (forall g c, hint = Some g -> c ∈ C -> head c = s -> mentions V g c) ->
  (s = None -> hint = None) ->
  exists C', chains (<[t := mk_call (Some h) s None None hint]> V) (<[h := Some t]> S) C'.
Proof.
  intros H Ht Hs Hu Hg Hn.
  assert (exists c C', C ≡ₚ with_chain c C' /\ head c = s /\ apart V h C') as (c & C' & P & Eh & A).
  { destruct s as [u|].
    - destruct (served_chain V S C h u H Hs) as (c & C' & P); [by apply Hu|].
      exists (u :: c), C'. split_and!; [done|done|].
      apply (focus_apart _ _ _ _ (chains_perm _ _ _ _ P H)).
      apply mentions_cons. left. right. by apply Hu.
    - exists [], C. split_and!; [done|done|]. by apply (idle_apart V S). }
  pose proof (chains_perm _ _ _ _ P H) as H'. exists (with_chain (t :: c) C').
  assert (Hhd : forall u c', c = u :: c' -> exists y, V !! u = Some y /\ c_to y = Some (Some h)).
  { intros u c' ->. simpl in Eh. specialize (Hu u (eq_sym Eh)). unfold callee in Hu.
    destruct (V !! u) as [y|]; [|done]. exists y. split; [done|]. simpl in Hu. by destruct (c_to y) as [[?|]|]; simplify_eq/=. }
  apply (chains_set_end V S _ c); [done|by right|..]; unfold takes_part; simpl.
  - split_and!; simpl; [done|done|done|]. intros g Eg. split; [|done].
    destruct s as [u|]; [|by specialize (Hn eq_refl); congruence].
    destruct c as [|w c]; simplify_eq/=. apply Hg; [done| |done]. rewrite P. set_solver.
  - done.
  - intros g [Eg|?]; [|done]. simplify_eq. by rewrite lookup_insert_eq.
  - apply insert_alive. eauto.
  - intros g s' P' Hg' Ag. destruct (decide (g = h)) as [->|?]; [naive_solver|].
    rewrite lookup_insert_ne in Hg' by done. by apply (focus_top _ _ _ _ H' g).
  - intros g d Hd M. destruct (decide (g = h)) as [->|?]; [by apply A in M|]. by rewrite lookup_insert_ne.
Qed.

(** A thread goes: it no longer takes part in anything, and the call it worked
    on has nobody to work on it. *)
Definition kill (h : Z) (loose : bool) (x : call) : call :=
  mk_call (if bool_decide (c_from x = Some h) then None else c_from x) (c_parent x)
    (if loose then None else if bool_decide (c_to x = Some (Some h)) then Some None else c_to x)
    (c_up x) (if bool_decide (c_hint x = Some h) then None else c_hint x).

Definition killed (h : Z) (L : option Z) (V : gmap Z call) : gmap Z call :=
  map_imap (fun t x => Some (kill h (bool_decide (L = Some t)) x)) V.

Definition worked_on (V : gmap Z call) (h : Z) (s : option Z) : option Z :=
  t ← s; if bool_decide (callee V t = Some h) then Some t else None.

Section Kill.
Variables (V : gmap Z call) (S : gmap Z (option Z)) (C : list (list Z)) (h : Z) (s : option Z).
#[local] Abbreviation L := (worked_on V h s).
#[local] Abbreviation V' := (killed h L V).

Lemma worked_on_some t : L = Some t -> s = Some t /\ callee V t = Some h.
Proof using. unfold worked_on. destruct s; simpl; [|done]. by case_bool_decide; intros; simplify_eq. Qed.

Lemma killed_lookup t : V' !! t = (x ← V !! t; Some (kill h (bool_decide (L = Some t)) x)).
Proof using. unfold killed. by rewrite map_lookup_imap. Qed.

Lemma killed_part g t : part V' g t <-> part V g t /\ g <> h.
Proof using.
  unfold part, caller, callee. rewrite killed_lookup. destruct (V !! t) as [x|] eqn:Hx; simpl; [|naive_solver].
  destruct (bool_decide (L = Some t)) eqn:El; simpl.
  - apply bool_decide_eq_true in El. apply worked_on_some in El as [_ Ec]. unfold callee in Ec. rewrite Hx in Ec.
    simpl in Ec. rewrite Ec. case_bool_decide; naive_solver.
  - destruct (c_to x) as [[g'|]|]; simpl; repeat case_bool_decide; simpl; naive_solver.
Qed.

Lemma killed_mentions g c : mentions V' g c <-> mentions V g c /\ g <> h.
Proof using.
  induction c as [|t c IH]; [split; intros M; [|destruct M as [M _]]; by apply mentions_nil in M|].
  rewrite !mentions_cons, killed_part, IH. tauto.
Qed.

Lemma killed_top g c : g <> h -> top V' g c = top V g c.
Proof using. intros. apply top_ext. intros. rewrite killed_part. tauto. Qed.

Hypothesis H : chains V S C.
Hypothesis Hs : S !! h = Some s.

(** The call the thread works on is the newest of its chain. *)
Lemma worked_on_head t u c x : L = Some t -> (u :: c) ∈ C -> t ∈ u :: c -> V !! t = Some x -> t = u.
Proof using H Hs.
  intros (-> & Ec)%worked_on_some Hin Ht Hx.
  assert (M : mentions V h (u :: c)) by (apply Exists_exists; exists t; split; [done|by right]).
  pose proof (ch_stack _ _ _ H h _ _ Hs Hin M) as E.
  pose proof (top_served V h t _ (ch_chain _ _ _ H _ Hin) (eq_sym E) Ec). by simplify_eq/=.
Qed.

Lemma killed_link d x c : V !! d = Some x -> (forall t, t ∈ c -> L <> Some t) -> link V x c ->
  forall b, link V' (kill h b x) c.
Proof using All.
  intros Hd Hc (L1 & L2 & L3 & L4) b. split_and!; simpl.
  - done.
  - intros u c' ->. destruct (L2 u c' eq_refl) as (y & Hy & Ey). rewrite killed_lookup, Hy. eexists. split; [done|].
    simpl. rewrite bool_decide_false by (apply Hc; set_solver). rewrite Ey.
    repeat case_bool_decide; congruence.
  - intros g Eg. destruct b; [done|]. case_bool_decide as E1; [done|].
    assert (g <> h) by congruence. destruct (L3 g Eg). rewrite killed_top by done. split; [done|].
    case_bool_decide; [done|congruence].
  - intros g Eg. case_bool_decide; [done|]. destruct (L4 g Eg) as [? E4]. split.
    + apply killed_mentions. split; [done|congruence].
    + rewrite E4. by destruct b.
Qed.

Lemma killed_chain d c : (d ++ c) ∈ C -> chain V c -> chain V' c.
Proof using H Hs.
  revert d. induction c as [|t c IH]; intros d Hin; simpl; [done|]. intros [(x & Hx & Lx) Hc]. split.
  - exists (kill h (bool_decide (L = Some t)) x). rewrite killed_lookup, Hx. split; [done|].
    apply (killed_link t); [done| |done]. intros u Hu E.
    assert (Hnd : NoDup (d ++ t :: c)).
    { pose proof (ch_nodup _ _ _ H) as Hnd. apply elem_of_Permutation in Hin as [C' P'].
      rewrite P' in Hnd. simpl in Hnd.
      apply NoDup_app in Hnd as [Hnd _]. exact Hnd. }
    assert (Hu' : exists y, V !! u = Some y).
    { apply worked_on_some in E as [_ E]. unfold callee in E. destruct (V !! u); [eauto|done]. }
    destruct Hu' as [y Hy]. destruct d as [|w d]; simpl in *.
    + pose proof (worked_on_head u t c y E Hin ltac:(set_solver) Hy) as ->. apply NoDup_cons in Hnd as [Hn _]. done.
    + pose proof (worked_on_head u w _ y E Hin ltac:(set_solver) Hy) as ->. apply NoDup_cons in Hnd as [Hn _]. set_solver.
  - apply (IH (d ++ [t])); [|done]. by rewrite <- app_assoc.
Qed.

Lemma killed_ends c : c ∈ C -> ends V' c.
Proof using H Hs.
  intros Hin. destruct (ch_ends _ _ _ H c Hin) as (t & c' & x & -> & Hx & E).
  exists t, c', (kill h (bool_decide (L = Some t)) x). rewrite killed_lookup, Hx. split_and!; [done|done|]. simpl.
  destruct (bool_decide (L = Some t)) eqn:El; [done|]. apply bool_decide_eq_false in El.
  case_bool_decide as E'; [|done]. exfalso. apply El.
  assert (Ec : callee V t = Some h) by (unfold callee; rewrite Hx; simpl; by rewrite E').
  assert (M : mentions V h (t :: c')) by (apply mentions_cons; left; by right).
  pose proof (ch_stack _ _ _ H h _ _ Hs Hin M) as E2. simpl in E2.
  rewrite decide_True in E2 by (by right). unfold worked_on. rewrite E2. simpl. by rewrite bool_decide_true.
Qed.

Lemma kill_chains : chains V' (delete h S) C.
Proof using H Hs.
  split.
  - apply H.
  - intros t. rewrite <- (ch_dom _ _ _ H), killed_lookup. destruct (V !! t); simpl; [|done]. split; eauto.
  - intros c Hin. by apply (killed_chain []), (ch_chain _ _ _ H).
  - apply killed_ends.
  - intros g c c' H1 H2 [M1 _]%killed_mentions [M2 _]%killed_mentions. by apply (ch_one _ _ _ H g).
  - intros g c H1 [M1 ?]%killed_mentions. rewrite lookup_delete_ne by done. by apply (ch_alive _ _ _ H g c).
  - intros g s' c Hg H1 [M1 ?]%killed_mentions. rewrite lookup_delete_ne in Hg by done.
    rewrite killed_top by done. by apply (ch_stack _ _ _ H).
  - intros g s' [? Hg]%lookup_delete_Some Hno. apply (ch_free _ _ _ H g); [done|].
    intros c Hc M. apply (Hno c Hc). by apply killed_mentions.
Qed.

End Kill.

End BinderStacks.
