(* ===== verification/BinderCallsInv.v ===== *)
(** The invariant of the transactions of BinderThreads.v: the calls in the
    store form chains (BinderStacks.v), transactions, buffers and work lists
    refer to each other, a node has at most one asynchronous transaction
    outside of its list, and a thread that waits has room for an error code. *)

From S2P Require Import Prelude BinderThreads BinderStacks.
Local Open Scope Z_scope.
Local Open Scope kernel_scope.

Module BinderCallsInv.
Import BinderThreads BinderStacks.

(** ** The calls in the store *)

(** In the middle of an operation [L] is a call that is on no list and that
    nobody works on, and [K] is a thread that is being freed. *)
Definition view (L K : option Z) (t : Z) (x : transaction) : option call :=
  if need_reply x
  then Some (mk_call (from x) (from_parent x)
               (if bool_decide (L = Some t) || bool_decide (is_Some (t_on x)) then None else Some (to_thread x))
               (to_parent x)
               match t_on x with
               | Some (OnThread g) => if bool_decide (L = Some t) || bool_decide (K = Some g) then None else Some g
               | _ => None
               end)
  else None.

Definition calls (L K : option Z) (m : gmap Z transaction) : gmap Z call := map_imap (view L K) m.

Definition drop (K : option Z) (S : gmap Z (option Z)) : gmap Z (option Z) :=
  match K with Some h => delete h S | None => S end.

Definition stacks (K : option Z) (st : binder) : gmap Z (option Z) := drop K (transaction_stack <$> thread_at st).

(** ** The rest of the store *)

Definition trans_of (w : work) : option Z := match w with WorkTransaction t => Some t | _ => None end.

Definition trans_in (l : list work) : list Z := omap trans_of l.

(** The buffer is not that of a transaction on the list of node [a]. *)
Definition outside (st : binder) (a : Z) (y : binder_buffer) : Prop :=
  forall t x, b_transaction y = Some t -> trans_at st !! t = Some x -> t_on x <> Some (OnNode a).

(** The list is one of those of the process and the node of the buffer. *)
Definition placed (st : binder) (o : place) (y : binder_buffer) : Prop :=
  match o with
  | OnThread g => exists z, thread_at st !! g = Some z /\ th_proc z = b_proc y
  | OnProc p => p = b_proc y
  | OnNode a => target_node y = Some a /\ async_transaction y = true
  end.

(** [D] is a process that is being released. *)
Record store (D : option Z) (st : binder) : Prop := {
  st_tb t x b : trans_at st !! t = Some x -> t_buffer x = Some b ->
    exists y, buffer_at st !! b = Some y /\ b_transaction y = Some t;
  st_bt b y t : buffer_at st !! b = Some y -> b_transaction y = Some t ->
    exists x, trans_at st !! t = Some x /\ t_buffer x = Some b;
  st_kind t x b y : trans_at st !! t = Some x -> t_buffer x = Some b -> buffer_at st !! b = Some y ->
    need_reply x = bool_decide (is_Some (target_node y)) && negb (one_way (t_flags x));
  st_oneway t x : trans_at st !! t = Some x -> need_reply x = true -> one_way (t_flags x) = false;
  st_notnode t x a : trans_at st !! t = Some x -> need_reply x = true -> t_on x <> Some (OnNode a);
  st_self t x h : trans_at st !! t = Some x -> need_reply x = true -> from x = Some h -> to_thread x <> Some h;
  st_hint t x g : trans_at st !! t = Some x -> need_reply x = true -> t_on x = Some (OnThread g) ->
    to_thread x = Some g;
  st_plain t x : trans_at st !! t = Some x -> need_reply x = false -> from x = None;
  st_free b y t x : buffer_at st !! b = Some y -> allow_user_free y = true -> b_transaction y = Some t ->
    trans_at st !! t = Some x -> t_on x = None;
  st_list o l t : work_list st o = Some l -> WorkTransaction t ∈ l ->
    exists x, trans_at st !! t = Some x /\ t_on x = Some o;
  st_once o l : work_list st o = Some l -> NoDup (trans_in l);
  st_on t x o : trans_at st !! t = Some x -> t_on x = Some o ->
    exists l, work_list st o = Some l /\ WorkTransaction t ∈ l;
  st_buf t x o : trans_at st !! t = Some x -> t_on x = Some o -> t_buffer x = None ->
    exists a n, o = OnNode a /\ node_at st !! a = Some n /\ n_proc n = None;
  st_place t x o b y : trans_at st !! t = Some x -> t_on x = Some o -> t_buffer x = Some b ->
    buffer_at st !! b = Some y -> placed st o y;
  st_node b y a : buffer_at st !! b = Some y -> target_node y = Some a -> D <> Some (b_proc y) ->
    exists n, node_at st !! a = Some n /\ n_proc n = Some (b_proc y) /\
      (async_transaction y = true -> has_async_transaction n = true);
  st_async b y : buffer_at st !! b = Some y -> async_transaction y = true -> is_Some (target_node y);
  st_out b b' y y' a : buffer_at st !! b = Some y -> buffer_at st !! b' = Some y' ->
    async_transaction y = true -> async_transaction y' = true ->
    target_node y = Some a -> target_node y' = Some a -> D <> Some (b_proc y) -> D <> Some (b_proc y') ->
    outside st a y -> outside st a y' -> b = b';
  st_bproc b y : buffer_at st !! b = Some y -> is_Some (proc_at st !! b_proc y);
  st_nproc a n p : node_at st !! a = Some n -> n_proc n = Some p -> is_Some (proc_at st !! p);
  st_tproc h y : thread_at st !! h = Some y -> is_Some (proc_at st !! th_proc y)
}.

(** ** The threads *)

Definition for_proc (r : phase) : bool :=
  match r with Asleep w => w | Looping w => w | Outside => false end.

Record thread_ok (m : gmap Z transaction) (h : Z) (y : binder_thread) : Prop := {
  ok_second : return_error2 y <> BR_OK -> return_error y <> BR_OK;
  ok_waiting t x : transaction_stack y = Some t -> m !! t = Some x -> from x = Some h -> return_error2 y = BR_OK;
  ok_reading : for_proc (reading y) = true -> transaction_stack y = None
}.

Definition threads_ok (K : option Z) (st : binder) : Prop :=
  forall h y, thread_at st !! h = Some y -> K <> Some h -> thread_ok (trans_at st) h y.

Record calls_inv (L K D : option Z) (st : binder) : Prop := {
  ci_chains : exists C, chains (calls L K (trans_at st)) (stacks K st) C;
  ci_threads : threads_ok K st;
  ci_store : store D st
}.

(** ** Lookups *)

Lemma calls_lookup L K m t : calls L K m !! t = (x ← m !! t; view L K t x).
Proof. unfold calls. by rewrite map_lookup_imap. Qed.

Lemma stacks_lookup K st h : K <> Some h -> stacks K st !! h = transaction_stack <$> thread_at st !! h.
Proof.
  intros HK. unfold stacks, drop. destruct K as [k|]; [|by rewrite lookup_fmap].
  rewrite lookup_delete_ne by congruence. by rewrite lookup_fmap.
Qed.

Lemma stacks_put K st h y : K <> Some h -> stacks K (put_thread st h y) = <[h := transaction_stack y]> (stacks K st).
Proof.
  intros HK. unfold stacks, put_thread. simpl. rewrite fmap_insert. destruct K as [k|]; simpl; [|done].
  by rewrite delete_insert_ne by congruence.
Qed.

Lemma stacks_put_same K st h y y' : thread_at st !! h = Some y -> transaction_stack y' = transaction_stack y ->
  stacks K (put_thread st h y') = stacks K st.
Proof.
  intros Hy E. unfold stacks, put_thread. simpl. rewrite fmap_insert, E, insert_id; [done|].
  by rewrite lookup_fmap, Hy.
Qed.

Lemma work_list_thread st h y o : work_list (put_thread st h y) o =
  if decide (o = OnThread h) then Some (th_todo y) else work_list st o.
Proof.
  destruct o as [g|p|a]; [|done..]. unfold work_list, put_thread. cbn [thread_at].
  destruct (decide (g = h)) as [->|Hne].
  - by rewrite lookup_insert_eq, decide_True.
  - by rewrite lookup_insert_ne, decide_False by congruence.
Qed.

Lemma work_list_proc st p y o : work_list (put_proc st p y) o =
  if decide (o = OnProc p) then Some (p_todo y) else work_list st o.
Proof.
  destruct o as [g|q|a]; [done| |done]. unfold work_list, put_proc. cbn [proc_at].
  destruct (decide (q = p)) as [->|Hne].
  - by rewrite lookup_insert_eq, decide_True.
  - by rewrite lookup_insert_ne, decide_False by congruence.
Qed.

Lemma work_list_node st a n o : work_list (put_node st a n) o =
  if decide (o = OnNode a) then Some (async_todo n) else work_list st o.
Proof.
  destruct o as [g|q|b]; [done..|]. unfold work_list, put_node. cbn [node_at].
  destruct (decide (b = a)) as [->|Hne].
  - by rewrite lookup_insert_eq, decide_True.
  - by rewrite lookup_insert_ne, decide_False by congruence.
Qed.

Lemma elem_trans_of t (l : list work) : t ∈ trans_in l <-> WorkTransaction t ∈ l.
Proof.
  unfold trans_in. rewrite list_elem_of_omap. split.
  - intros (w & Hw & E). by destruct w; simplify_eq/=.
  - intros Hw. by exists (WorkTransaction t).
Qed.

(** ** Stores that agree *)

Lemma placed_ext st st' o y y' : (forall g z, thread_at st !! g = Some z -> exists z', thread_at st' !! g = Some z' /\ th_proc z' = th_proc z) ->
  b_proc y' = b_proc y -> target_node y' = target_node y -> async_transaction y' = async_transaction y ->
  placed st o y -> placed st' o y'.
Proof.
  intros Ht E1 E2 E3. destruct o as [g|p|a]; simpl; rewrite ?E1, ?E2, ?E3; [|done..].
  intros (z & Hz & E). destruct (Ht g z Hz) as (z' & ? & ?). exists z'. split; congruence.
Qed.

(** The lists and the processes are all the store has of threads. *)
Lemma store_same D st st' : store D st ->
  trans_at st' = trans_at st -> buffer_at st' = buffer_at st -> node_at st' = node_at st ->
  (forall o, work_list st' o = work_list st o) ->
  (forall h y, thread_at st' !! h = Some y -> is_Some (proc_at st !! th_proc y)) ->
  (forall h y, thread_at st !! h = Some y -> exists y', thread_at st' !! h = Some y' /\ th_proc y' = th_proc y) ->
  (forall p, is_Some (proc_at st !! p) -> is_Some (proc_at st' !! p)) -> store D st'.
Proof.
  intros [] E1 E2 E3 El Et Et' Ep. unfold outside in *.
  split; unfold outside; rewrite ?E1, ?E2, ?E3; try setoid_rewrite El; eauto using placed_ext.
Qed.

Lemma store_thread D st h y y' : store D st -> thread_at st !! h = Some y ->
  th_todo y' = th_todo y -> th_proc y' = th_proc y -> store D (put_thread st h y').
Proof.
  intros H Hy E1 E2. apply (store_same D st); try done.
  - intros o. rewrite work_list_thread. case_decide as E; [|done]. subst. simpl. by rewrite Hy, E1.
  - intros g z Hz. simpl in Hz. apply lookup_insert_Some in Hz as [[<- <-]|[_ Hz]].
    + rewrite E2. by apply (st_tproc D st H h).
    + by apply (st_tproc D st H g).
  - intros g z Hz. simpl. destruct (decide (g = h)) as [->|?]; [|rewrite lookup_insert_ne by done; eauto].
    rewrite lookup_insert_eq. eexists. split; [done|congruence].
Qed.

Lemma store_proc D st p y y' : store D st -> proc_at st !! p = Some y -> p_todo y' = p_todo y ->
  store D (put_proc st p y').
Proof.
  intros H Hy E1. apply (store_same D st); try done.
  - intros o. rewrite work_list_proc. case_decide as E; [|done]. subst. simpl. by rewrite Hy, E1.
  - intros g z Hz. by apply (st_tproc D st H g).
  - eauto.
  - intros q Hq. simpl. destruct (decide (q = p)) as [->|?]; [rewrite lookup_insert_eq; eauto|by rewrite lookup_insert_ne].
Qed.

(** Lists nothing is on may go, and processes nothing belongs to. *)
Lemma store_drop D st st' : store D st -> trans_at st' = trans_at st -> buffer_at st' = buffer_at st ->
  node_at st' = node_at st -> (forall o l, work_list st' o = Some l -> work_list st o = Some l) ->
  (forall t x o, trans_at st !! t = Some x -> t_on x = Some o -> work_list st' o = work_list st o) ->
  (forall h y, thread_at st' !! h = Some y -> thread_at st !! h = Some y) ->
  (forall h y, thread_at st' !! h = Some y -> is_Some (proc_at st' !! th_proc y)) ->
  (forall a n p, node_at st !! a = Some n -> n_proc n = Some p -> is_Some (proc_at st' !! p)) ->
  (forall b y, buffer_at st !! b = Some y -> is_Some (proc_at st' !! b_proc y)) -> store D st'.
Proof.
  intros H E1 E2 E3 Hl Hon Hth Ht Hn Hb. split; unfold outside; rewrite ?E1, ?E2, ?E3; try apply H; try done.
  - intros o l t Hl'. by apply (st_list _ _ H o l), Hl.
  - intros o l Hl'. by apply (st_once _ _ H o), Hl.
  - intros t x o Hx Eo. rewrite (Hon t x o Hx Eo). by apply (st_on _ _ H t x).
  - intros t x o b y Hx Eo Eb Hy. pose proof (st_place _ _ H t x o b y Hx Eo Eb Hy) as Hp. destruct o as [g|p|a]; try done.
    specialize (Hon t x _ Hx Eo). simpl in *. destruct Hp as (z & Hz & E). rewrite Hz in Hon. simpl in Hon.
    apply fmap_Some in Hon as (z' & Hz' & _). exists z'. split; [done|]. specialize (Hth g z' Hz'). congruence.
Qed.

(** Threads, processes and nodes come with empty lists. *)
Lemma store_grow D st st' : store D st -> trans_at st' = trans_at st -> buffer_at st' = buffer_at st ->
  (forall o l, work_list st o = Some l -> work_list st' o = Some l) ->
  (forall o l, work_list st' o = Some l -> work_list st o = Some l \/ l = []) ->
  thread_at st ⊆ thread_at st' -> node_at st ⊆ node_at st' -> proc_at st ⊆ proc_at st' ->
  (forall h y, thread_at st' !! h = Some y -> is_Some (proc_at st' !! th_proc y)) ->
  (forall a n p, node_at st' !! a = Some n -> n_proc n = Some p -> is_Some (proc_at st' !! p)) -> store D st'.
Proof.
  intros H E1 E2 Hl Hl' Ht Hn Hp Htp Hnp. split; unfold outside; rewrite ?E1, ?E2; try apply H; try done.
  - intros o l t [Hw| ->]%Hl' Hin; [by apply (st_list _ _ H o l)|by apply not_elem_of_nil in Hin].
  - intros o l [Hw| ->]%Hl'; [by apply (st_once _ _ H o)|constructor].
  - intros t x o Hx Eo. destruct (st_on _ _ H t x o Hx Eo) as (l & ? & ?). eauto.
  - intros t x o Hx Eo Eb. destruct (st_buf _ _ H t x o Hx Eo Eb) as (a & n & -> & ? & ?). exists a, n. split_and!; try done.
    by eapply lookup_weaken.
  - intros t x o b y Hx Eo Eb Hy. apply (placed_ext st _ o y); [|done..|by apply (st_place _ _ H t x o b y)].
    intros g z Hz. exists z. split; [by eapply lookup_weaken|done].
  - intros b y a Hy Ea HD. destruct (st_node _ _ H b y a Hy Ea HD) as (n & ? & ? & ?). exists n. split_and!; try done.
    by eapply lookup_weaken.
  - intros b y Hy. destruct (st_bproc _ _ H b y Hy) as [q Hq]. exists q. by eapply lookup_weaken.
Qed.

(** ** Transactions and buffers *)

(** [st'] has the threads, nodes and processes of [st]. *)
Definition only_calls (st st' : binder) : Prop :=
  thread_at st' = thread_at st /\ node_at st' = node_at st /\ proc_at st' = proc_at st.

Lemma only_calls_list st st' o : only_calls st st' -> work_list st' o = work_list st o.
Proof. intros (E1 & E2 & E3). destruct o; simpl; by rewrite ?E1, ?E2, ?E3. Qed.

(** A buffer whose transaction is not on the list of a node is outside. *)
Lemma outside_at D st a b y t x : store D st -> buffer_at st !! b = Some y -> b_transaction y = Some t ->
  trans_at st !! t = Some x -> t_on x <> Some (OnNode a) -> outside st a y.
Proof. intros H Hb Ht Hx Ho t' x' Ht' Hx'. by simplify_eq. Qed.

Ltac upd :=
  repeat match goal with
  | H : <[?k := _]> _ !! ?j = Some _ |- _ => apply lookup_insert_Some in H as [[??]|[??]]
  | H : delete ?k _ !! ?j = Some _ |- _ => apply lookup_delete_Some in H as [??]
  end; simplify_eq/=.

Section Unlink.
Variables (D : option Z) (st : binder) (t : Z) (x : transaction).

(** What the transaction is replaced with when its buffer is no longer its:
    nothing, or one without a buffer.  It is on no list, unless the process of
    the buffer is being released. *)
Variable x' : option transaction.

Definition unlinked (B : gmap Z binder_buffer) : binder :=
  mk_binder (thread_at st) (partial_alter (fun _ => x') t (trans_at st)) B (node_at st) (proc_at st).

Definition cut : gmap Z binder_buffer :=
  match t_buffer x with
  | None => buffer_at st
  | Some b => alter (fun y => set_transaction y None) b (buffer_at st)
  end.

Lemma unlinked_lookup u z : partial_alter (fun _ => x') t (trans_at st) !! u = Some z ->
  (u = t /\ x' = Some z) \/ (u <> t /\ trans_at st !! u = Some z).
Proof using.
  destruct (decide (u = t)) as [->|Hne]; [rewrite lookup_partial_alter_eq; auto|].
  rewrite lookup_partial_alter_ne by done. auto.
Qed.

Lemma unlinked_keep u z : u <> t -> trans_at st !! u = Some z -> partial_alter (fun _ => x') t (trans_at st) !! u = Some z.
Proof using. intros. by rewrite lookup_partial_alter_ne. Qed.

Lemma unlinked_list B o : work_list (unlinked B) o = work_list st o.
Proof using. by destruct o. Qed.

Lemma cut_lookup b y : cut !! b = Some y ->
  (t_buffer x = Some b /\ exists z, buffer_at st !! b = Some z /\ y = set_transaction z None) \/
  (t_buffer x <> Some b /\ buffer_at st !! b = Some y).
Proof using.
  unfold cut. destruct (t_buffer x) as [b'|]; [|auto]. destruct (decide (b = b')) as [->|Hne].
  - rewrite lookup_alter_eq. intros (z & -> & ?)%fmap_Some. eauto.
  - rewrite lookup_alter_ne by done. intros. right. split; congruence.
Qed.

Lemma cut_keep b y : t_buffer x <> Some b -> buffer_at st !! b = Some y -> cut !! b = Some y.
Proof using.
  unfold cut. destruct (t_buffer x) as [b'|]; [|done]. intros. by rewrite lookup_alter_ne by congruence.
Qed.

Hypothesis H : store D st.
Hypothesis Hx : trans_at st !! t = Some x.
Hypothesis Hx' : forall z, x' = Some z -> t_on z = t_on x /\ t_buffer z = None /\ need_reply z = need_reply x /\
  t_flags z = t_flags x /\ (forall h, from z = Some h -> from x = Some h /\ to_thread z <> Some h).
Hypothesis Hon : t_on x = None \/
  (x' <> None /\ (exists a n, t_on x = Some (OnNode a) /\ node_at st !! a = Some n /\ n_proc n = None) /\
   forall b y, t_buffer x = Some b -> buffer_at st !! b = Some y -> D = Some (b_proc y)).

Lemma detach_cut : exists st1, detach st x = Some st1 /\ only_calls st st1 /\ trans_at st1 = trans_at st /\ buffer_at st1 = cut.
Proof using H Hx.
  clear Hon. unfold detach, cut. destruct (t_buffer x) as [b|] eqn:Eb; [|by exists st].
  destruct (st_tb _ _ H t x b Hx Eb) as (y & Hy & _). rewrite Hy. simpl.
  eexists. split_and!; [done|done|done|]. simpl. by rewrite (alter_alt_Some _ _ _ y).
Qed.

Lemma cut_outside a b y : cut !! b = Some y -> D <> Some (b_proc y) -> outside (unlinked cut) a y ->
  exists z, buffer_at st !! b = Some z /\ outside st a z /\ target_node z = target_node y /\
    async_transaction z = async_transaction y /\ b_proc z = b_proc y.
Proof using H Hx Hon.
  intros [(Eb & z & Hz & ->)|(Eb & Hy)]%cut_lookup HD Ho.
  - exists z. split_and!; try done. intros u w Hu Hw.
    destruct (st_tb _ _ H t x b Hx Eb) as (z' & Hz' & Et). simplify_eq.
    destruct Hon as [->|(_ & _ & E)]; [done|]. by rewrite (E b z) in HD.
  - exists y. split_and!; try done. intros u w Hu Hw. apply (Ho u w Hu). apply unlinked_keep; [|done].
    intros ->. destruct (st_bt _ _ H b y t Hy Hu) as (? & ? & ?). congruence.
Qed.

Lemma unlink_store : store D (unlinked cut).
Proof using H Hx Hx' Hon.
  assert (Hb : forall b y u, cut !! b = Some y -> b_transaction y = Some u -> u <> t /\ buffer_at st !! b = Some y).
  { intros b y u [(_ & z & _ & ->)|(Eb & Hy)]%cut_lookup Hu; [done|]. split; [|done].
    intros ->. destruct (st_bt _ _ H b y t Hy Hu) as (? & ? & ?). congruence. }
  assert (Hc : forall b y, cut !! b = Some y -> exists z, buffer_at st !! b = Some z /\ target_node y = target_node z /\
     async_transaction y = async_transaction z /\ b_proc y = b_proc z).
  { intros b y [(Eb & z & Hz & ->)|(Eb & Hy)]%cut_lookup; eauto. }
  split; cbn [trans_at buffer_at node_at proc_at thread_at unlinked]; try setoid_rewrite unlinked_list.
  - intros u z b [[-> E]|[Hne Hu]]%unlinked_lookup Eb; [apply Hx' in E; naive_solver|].
    destruct (st_tb _ _ H u z b Hu Eb) as (y & Hy & Et). exists y. split; [|done]. apply cut_keep; [|done].
    intros E. destruct (st_tb _ _ H t x b Hx E) as (? & ? & ?). congruence.
  - intros b y u Hy Hu. destruct (Hb b y u Hy Hu) as [Hne Hy'].
    destruct (st_bt _ _ H b y u Hy' Hu) as (z & Hz & ?). exists z. split; [by apply unlinked_keep|done].
  - intros u z b y [[-> E]|[Hne Hu]]%unlinked_lookup Eb Hy; [apply Hx' in E; naive_solver|].
    destruct (Hc b y Hy) as (y0 & Hy0 & -> & _). by apply (st_kind _ _ H u z b y0).
  - intros u z [[-> E]|[Hne Hu]]%unlinked_lookup Hr; [|by apply (st_oneway _ _ H u)].
    apply Hx' in E as (_ & _ & E1 & -> & _). apply (st_oneway _ _ H t x); congruence.
  - intros u z a [[-> E]|[Hne Hu]]%unlinked_lookup Hr; [|by apply (st_notnode _ _ H u)].
    apply Hx' in E as (-> & _ & E1 & _). apply (st_notnode _ _ H t x); congruence.
  - intros u z h [[-> E]|[Hne Hu]]%unlinked_lookup Hr Ef; [|by apply (st_self _ _ H u)].
    apply Hx' in E as (_ & _ & _ & _ & E). by apply E.
  - intros u z g [[-> E]|[Hne Hu]]%unlinked_lookup Hr Eo; [|by apply (st_hint _ _ H u)].
    apply Hx' in E as (E & _). destruct Hon as [?|(_ & (a & n & ? & _) & _)]; congruence.
  - intros u z [[-> E]|[Hne Hu]]%unlinked_lookup Hr; [|by apply (st_plain _ _ H u)].
    apply Hx' in E as (_ & _ & E1 & _ & E). destruct (from z) as [h|]; [|done].
    destruct (E h eq_refl) as [E2 _]. rewrite (st_plain _ _ H t x) in E2; congruence.
  - intros b y u z Hy Ha Hu [[-> E]|[Hne Hz]]%unlinked_lookup; destruct (Hb b y _ Hy Hu) as [? Hy']; [done|].
    by apply (st_free _ _ H b y u).
  - intros o l u Hl Hu. destruct (st_list _ _ H o l u Hl Hu) as (z & Hz & Eo).
    destruct (decide (u = t)) as [->|Hne]; [|exists z; split; [by apply unlinked_keep|done]].
    simplify_eq. destruct Hon as [?|(E & _)]; [congruence|]. destruct x' as [w|]; [|done].
    exists w. rewrite lookup_partial_alter_eq. destruct (Hx' w eq_refl) as (-> & _). done.
  - apply (st_once _ _ H).
  - intros u z o [[-> E]|[Hne Hu]]%unlinked_lookup Eo; [|by apply (st_on _ _ H u z)].
    apply Hx' in E as (E & _). apply (st_on _ _ H t x); congruence.
  - intros u z o [[-> E]|[Hne Hu]]%unlinked_lookup Eo En; [|by apply (st_buf _ _ H u z)].
    apply Hx' in E as (E & _). destruct Hon as [?|(_ & (a & n & ? & ?) & _)]; [congruence|].
    exists a, n. split; [congruence|done].
  - intros u z o b y [[-> E]|[Hne Hu]]%unlinked_lookup Eo Eb Hy; [apply Hx' in E; naive_solver|].
    destruct (Hc b y Hy) as (w & Hw & E1 & E2 & E3). apply (placed_ext st _ o w y); [eauto|done..|].
    by apply (st_place _ _ H u z o b).
  - intros b y a Hy Ea HD. destruct (Hc b y Hy) as (z & Hz & E1 & E2 & E3). rewrite E2, E3.
    apply (st_node _ _ H b z a); [done|congruence|by rewrite <- E3].
  - intros b y Hy Ea. destruct (Hc b y Hy) as (z & Hz & E1 & E2 & E3). rewrite E1. apply (st_async _ _ H b); congruence.
  - intros b b' y y' a Hy Hy' E1 E2 E3 E4 D1 D2 O1 O2.
    destruct (cut_outside a b y Hy D1 O1) as (z & Hz & ? & ? & ? & ?).
    destruct (cut_outside a b' y' Hy' D2 O2) as (z' & Hz' & ? & ? & ? & ?).
    apply (st_out _ _ H b b' z z' a); first [done|congruence].
  - intros b y Hy. destruct (Hc b y Hy) as (z & Hz & _ & _ & ->). by apply (st_bproc _ _ H b).
  - apply (st_nproc _ _ H).
  - apply (st_tproc _ _ H).
Qed.

End Unlink.

(** A change of who sends a transaction and who has taken it. *)
Lemma store_trans D st t x x' : store D st -> trans_at st !! t = Some x ->
  t_on x' = t_on x -> t_buffer x' = t_buffer x -> t_flags x' = t_flags x -> need_reply x' = need_reply x ->
  (forall h, from x' = Some h -> need_reply x = true /\ to_thread x' <> Some h) ->
  (forall g, t_on x = Some (OnThread g) -> to_thread x' = to_thread x) ->
  store D (put_trans st t x').
Proof.
  intros H Hx E1 E2 E3 E4 Hf Hg.
  assert (Hl : forall u z, <[t := x']> (trans_at st) !! u = Some z -> (u = t /\ z = x') \/ (u <> t /\ trans_at st !! u = Some z))
    by (intros u z [[-> ->]|[? ?]]%lookup_insert_Some; auto).
  assert (Hk : forall u z, trans_at st !! u = Some z -> exists z', <[t := x']> (trans_at st) !! u = Some z' /\
     t_on z' = t_on z /\ t_buffer z' = t_buffer z).
  { intros u z Hz. destruct (decide (u = t)) as [->|?]; [|exists z; by rewrite lookup_insert_ne].
    exists x'. rewrite lookup_insert_eq. by simplify_eq. }
  assert (Ho : forall a y, outside (put_trans st t x') a y -> outside st a y).
  { intros a y Ho u z Hu Hz. destruct (Hk u z Hz) as (z' & Hz' & <- & _). by apply (Ho u). }
  split; cbn [trans_at buffer_at node_at proc_at thread_at put_trans].
  - intros u z b [[-> ->]|[? Hu]]%Hl Eb; [apply (st_tb _ _ H t x); congruence|by apply (st_tb _ _ H u z)].
  - intros b y u Hy Hu. destruct (st_bt _ _ H b y u Hy Hu) as (z & Hz & Ez). destruct (Hk u z Hz) as (z' & ? & _ & ?).
    exists z'. split; congruence.
  - intros u z b y [[-> ->]|[? Hu]]%Hl Eb Hy; [|by apply (st_kind _ _ H u z b y)].
    rewrite E4, E3. apply (st_kind _ _ H t x b y); congruence.
  - intros u z [[-> ->]|[? Hu]]%Hl Hr; [rewrite E3; apply (st_oneway _ _ H t x); congruence|by apply (st_oneway _ _ H u)].
  - intros u z a [[-> ->]|[? Hu]]%Hl Hr; [rewrite E1; apply (st_notnode _ _ H t x); congruence|by apply (st_notnode _ _ H u)].
  - intros u z h [[-> ->]|[? Hu]]%Hl Hr Ef; [by apply Hf|by apply (st_self _ _ H u)].
  - intros u z g [[-> ->]|[? Hu]]%Hl Hr Eo; [|by apply (st_hint _ _ H u)].
    rewrite (Hg g) by congruence. apply (st_hint _ _ H t x); congruence.
  - intros u z [[-> ->]|[? Hu]]%Hl Hr; [|by apply (st_plain _ _ H u)].
    destruct (from x') as [h|]; [|done]. destruct (Hf h eq_refl). congruence.
  - intros b y u z Hy Ha Hu [[-> ->]|[? Hz]]%Hl; [rewrite E1; by apply (st_free _ _ H b y t)|by apply (st_free _ _ H b y u)].
  - intros o l u Hl' Hu. destruct (st_list _ _ H o l u) as (z & Hz & Ez); [by destruct o|done|].
    destruct (Hk u z Hz) as (z' & ? & ? & _). exists z'. split; congruence.
  - intros o l Hl'. apply (st_once _ _ H o). by destruct o.
  - intros u z o [[-> ->]|[? Hu]]%Hl Eo.
    + destruct (st_on _ _ H t x o) as (l & Hl' & ?); [done|congruence|]. exists l. by destruct o.
    + destruct (st_on _ _ H u z o) as (l & Hl' & ?); [done|congruence|]. exists l. by destruct o.
  - intros u z o [[-> ->]|[? Hu]]%Hl Eo En; [apply (st_buf _ _ H t x); congruence|by apply (st_buf _ _ H u z)].
  - intros u z o b y [[-> ->]|[? Hu]]%Hl Eo Eb Hy; apply (placed_ext st _ o y); eauto.
    + apply (st_place _ _ H t x o b y); congruence.
    + by apply (st_place _ _ H u z o b y).
  - apply (st_node _ _ H).
  - apply (st_async _ _ H).
  - intros b b' y y' a Hy Hy' F1 F2 F3 F4 D1 D2 O1 O2. apply (st_out _ _ H b b' y y' a); auto.
  - apply (st_bproc _ _ H).
  - apply (st_nproc _ _ H).
  - apply (st_tproc _ _ H).
Qed.

(** ** Work lists *)

Definition bare_thread (y : binder_thread) : binder_thread := set_todo y [].
Definition bare_node (n : binder_node) : binder_node := set_async n (has_async_transaction n) [].
Definition bare_proc (p : binder_proc) : binder_proc := set_p_todo p [].

(** The two differ in the work lists only. *)
Record lists_only (st st' : binder) : Prop := {
  lo_thread : bare_thread <$> thread_at st' = bare_thread <$> thread_at st;
  lo_node : bare_node <$> node_at st' = bare_node <$> node_at st;
  lo_proc : bare_proc <$> proc_at st' = bare_proc <$> proc_at st;
  lo_buffer : buffer_at st' = buffer_at st
}.

Lemma fmap_eq_lookup {A B} (f : A -> B) (m m' : gmap Z A) k x : f <$> m' = f <$> m -> m !! k = Some x ->
  exists x', m' !! k = Some x' /\ f x' = f x.
Proof.
  intros E Hx. assert (E' : (f <$> m') !! k = (f <$> m) !! k) by (by rewrite E).
  rewrite !lookup_fmap, Hx in E'. simpl in E'. apply fmap_Some in E' as (x' & ? & ?). eauto.
Qed.

Lemma lists_only_refl st : lists_only st st.
Proof. by split. Qed.

Lemma lists_only_sym st st' : lists_only st st' -> lists_only st' st.
Proof. by intros []; split. Qed.

Lemma lists_only_trans st1 st2 st3 : lists_only st1 st2 -> lists_only st2 st3 -> lists_only st1 st3.
Proof. intros [] []; split; congruence. Qed.

Lemma lists_only_stacks K st st' : lists_only st st' -> stacks K st' = stacks K st.
Proof.
  intros [E _ _ _]. unfold stacks. f_equal. apply map_eq. intros h. rewrite !lookup_fmap.
  assert (E' : (bare_thread <$> thread_at st') !! h = (bare_thread <$> thread_at st) !! h) by (by rewrite E).
  rewrite !lookup_fmap in E'. destruct (thread_at st' !! h) as [y'|], (thread_at st !! h) as [y|]; simplify_eq/=; [|done].
  unfold bare_thread, set_todo in E'. f_equal. congruence.
Qed.

Lemma lists_only_node st st' a n : lists_only st st' -> node_at st !! a = Some n ->
  exists n', node_at st' !! a = Some n' /\ n_proc n' = n_proc n /\ has_async_transaction n' = has_async_transaction n.
Proof.
  intros [_ E _ _] Hn. destruct (fmap_eq_lookup bare_node _ _ a n E Hn) as (n' & Hn' & E').
  unfold bare_node, set_async in E'. injection E' as E1 E2. eauto.
Qed.

Lemma lists_only_proc st st' p : lists_only st st' -> is_Some (proc_at st !! p) -> is_Some (proc_at st' !! p).
Proof.
  intros [_ _ E _] [q Hq]. destruct (fmap_eq_lookup bare_proc _ _ p q E Hq) as (q' & -> & _). eauto.
Qed.

Lemma lists_only_thread st st' h y : lists_only st st' -> thread_at st !! h = Some y ->
  exists l, thread_at st' !! h = Some (set_todo y l).
Proof.
  intros [E _ _ _] Hy. destruct (fmap_eq_lookup bare_thread _ _ h y E Hy) as (y' & Hy' & E').
  exists (th_todo y'). rewrite Hy'. f_equal. destruct y', y. unfold bare_thread, set_todo in *. simpl in *. congruence.
Qed.

Lemma lists_only_proc_of st st' h y : lists_only st st' -> thread_at st !! h = Some y ->
  exists y', thread_at st' !! h = Some y' /\ th_proc y' = th_proc y.
Proof. intros Hlo Hy. destruct (lists_only_thread _ _ h y Hlo Hy) as [l ->]. by eexists. Qed.

Lemma put_list_spec st o l l' : work_list st o = Some l ->
  exists st', put_list st o l' = Some st' /\ lists_only st st' /\ trans_at st' = trans_at st /\
    forall o', work_list st' o' = if decide (o' = o) then Some l' else work_list st o'.
Proof.
  intros Hl. destruct o as [h|p|a]; simpl in *; apply fmap_Some in Hl as (y & Hy & ->); rewrite Hy; simpl;
    eexists; (split; [done|]).
  - split_and!; [|done|intros; apply work_list_thread]. split; try done. simpl.
    rewrite fmap_insert. apply insert_id. by rewrite lookup_fmap, Hy.
  - split_and!; [|done|intros; apply work_list_proc]. split; try done. simpl.
    rewrite fmap_insert. apply insert_id. by rewrite lookup_fmap, Hy.
  - split_and!; [|done|intros; apply work_list_node]. split; try done. simpl.
    rewrite fmap_insert. apply insert_id. by rewrite lookup_fmap, Hy.
Qed.

(** The entry of transaction [t] moves to another list, from a list or to
    a list. *)
Section Requeue.
Variables (D : option Z) (st st' : binder) (t : Z) (x : transaction) (on' : option place).
Hypothesis H : store D st.
Hypothesis Hlo : lists_only st st'.
Hypothesis Hx : trans_at st !! t = Some x.
Hypothesis Htr : trans_at st' = <[t := set_on x on']> (trans_at st).
Hypothesis Hl1 : forall o l', work_list st' o = Some l' -> exists l, work_list st o = Some l /\
  (forall u, u <> t -> WorkTransaction u ∈ l' <-> WorkTransaction u ∈ l) /\
  (WorkTransaction t ∈ l' <-> on' = Some o) /\ NoDup (trans_in l').
Hypothesis Hl2 : forall o l, work_list st o = Some l -> is_Some (work_list st' o).
Hypothesis Hnew : forall o, on' = Some o -> is_Some (work_list st o) /\
  (exists b y, t_buffer x = Some b /\ buffer_at st !! b = Some y /\ allow_user_free y = false) /\
  (need_reply x = true -> (forall a, o <> OnNode a) /\ (forall g, o = OnThread g -> to_thread x = Some g)) /\
  (forall b y, t_buffer x = Some b -> buffer_at st !! b = Some y -> placed st o y).
Hypothesis Hout : forall a b y b' y', t_on x = Some (OnNode a) -> on' <> Some (OnNode a) -> t_buffer x = Some b ->
  buffer_at st !! b = Some y -> buffer_at st !! b' = Some y' -> async_transaction y' = true ->
  target_node y' = Some a -> D <> Some (b_proc y') -> outside st a y' -> b' = b.

Lemma requeue_back u z : trans_at st' !! u = Some z ->
  (u = t /\ z = set_on x on') \/ (u <> t /\ trans_at st !! u = Some z).
Proof using Htr. rewrite Htr. intros [[<- <-]|[? ?]]%lookup_insert_Some; auto. Qed.

Lemma requeue_keep u z : u <> t -> trans_at st !! u = Some z -> trans_at st' !! u = Some z.
Proof using Htr. intros. by rewrite Htr, lookup_insert_ne. Qed.

Lemma requeue_at : trans_at st' !! t = Some (set_on x on').
Proof using Htr. by rewrite Htr, lookup_insert_eq. Qed.

(** A buffer that is outside now was so before, unless it is that of [t]. *)
Lemma requeue_outside a b y : buffer_at st !! b = Some y -> outside st' a y ->
  outside st a y \/ (b_transaction y = Some t /\ t_on x = Some (OnNode a) /\ on' <> Some (OnNode a) /\ t_buffer x = Some b).
Proof using H Hx Htr.
  clear Hl1 Hl2 Hnew Hout. intros Hy Ho. destruct (b_transaction y) as [u|] eqn:Eu; [|left; intros ? ? ?; congruence].
  destruct (decide (u = t)) as [->|Hne].
  - destruct (st_bt _ _ H b y t Hy Eu) as (z & Hz & Eb). simplify_eq.
    destruct (decide (t_on x = Some (OnNode a))) as [E|E].
    + right. split_and!; try done. apply (Ho t _ Eu requeue_at).
    + left. intros u z Hu Hz'. by simplify_eq.
  - left. intros u' z Hu Hz. simplify_eq. apply (Ho u z); [done|by apply requeue_keep].
Qed.

Lemma requeue_store : store D st'.
Proof using H Hlo Hx Htr Hl1 Hl2 Hnew Hout.
  pose proof (lists_only_sym _ _ Hlo) as Hlo'. split; rewrite ?(lo_buffer _ _ Hlo).
  - intros u z b [[-> ->]|[? Hu]]%requeue_back; [by apply (st_tb _ _ H t x)|by apply (st_tb _ _ H u z)].
  - intros b y u Hy Hu. destruct (st_bt _ _ H b y u Hy Hu) as (z & Hz & ?).
    destruct (decide (u = t)) as [->|?]; [|exists z; split; [by apply requeue_keep|done]].
    simplify_eq. eexists. split; [apply requeue_at|done].
  - intros u z b y [[-> ->]|[? Hu]]%requeue_back; [by apply (st_kind _ _ H t x)|by apply (st_kind _ _ H u z)].
  - intros u z [[-> ->]|[? Hu]]%requeue_back; [by apply (st_oneway _ _ H t x)|by apply (st_oneway _ _ H u z)].
  - intros u z a [[-> ->]|[? Hu]]%requeue_back Hr; [|by apply (st_notnode _ _ H u z)].
    intros E. simpl in *. destruct (Hnew _ E) as (_ & _ & Hn & _). by destruct (Hn Hr) as [Hn' _]; apply (Hn' a).
  - intros u z h [[-> ->]|[? Hu]]%requeue_back; [by apply (st_self _ _ H t x)|by apply (st_self _ _ H u z)].
  - intros u z g [[-> ->]|[? Hu]]%requeue_back Hr E; [|by apply (st_hint _ _ H u z)].
    simpl in *. destruct (Hnew _ E) as (_ & _ & Hn & _). destruct (Hn Hr) as [_ Hn']. by apply Hn'.
  - intros u z [[-> ->]|[? Hu]]%requeue_back; [by apply (st_plain _ _ H t x)|by apply (st_plain _ _ H u z)].
  - intros b y u z Hy Ha Hu [[-> ->]|[? Hz]]%requeue_back; [|by apply (st_free _ _ H b y u)].
    simpl. destruct on' as [o|] eqn:Eo; [|done]. destruct (Hnew o eq_refl) as (_ & (b' & y' & Eb' & Hy' & Ha') & _).
    destruct (st_bt _ _ H b y t Hy Hu) as (z & Hz & ?). simplify_eq. congruence.
  - intros o l u Hl Hu. destruct (Hl1 o l Hl) as (l0 & Hl0 & E1 & E2 & _). destruct (decide (u = t)) as [->|?].
    + eexists. split; [apply requeue_at|]. by apply E2.
    + destruct (st_list _ _ H o l0 u Hl0) as (z & ? & ?); [by apply E1|]. exists z. split; [by apply requeue_keep|done].
  - intros o l Hl. by destruct (Hl1 o l Hl) as (l0 & Hl0 & E1 & E2 & ?).
  - intros u z o [[-> ->]|[? Hu]]%requeue_back Eo.
    + simpl in Eo. destruct (Hnew o Eo) as ([l Hl] & _). destruct (Hl2 o l Hl) as [l' Hl'].
      exists l'. split; [done|]. by destruct (Hl1 o l' Hl') as (l0 & _ & _ & E2 & _); apply E2.
    + destruct (st_on _ _ H u z o Hu Eo) as (l & Hl & Hin). destruct (Hl2 o l Hl) as [l' Hl'].
      exists l'. split; [done|]. destruct (Hl1 o l' Hl') as (l0 & Hl0 & E1 & _). simplify_eq. by apply E1.
  - intros u z o [[-> ->]|[? Hu]]%requeue_back Eo En.
    + simpl in *. destruct (Hnew o Eo) as (_ & (b & y & ? & _) & _). congruence.
    + destruct (st_buf _ _ H u z o Hu Eo En) as (a & n & -> & Hn & ?).
      destruct (lists_only_node _ _ a n Hlo Hn) as (n' & Hn' & E & _). exists a, n'. split_and!; congruence.
  - intros u z o b y [[-> ->]|[? Hu]]%requeue_back Eo Eb Hy; apply (placed_ext st _ o y); eauto using lists_only_proc_of.
    + simpl in *. destruct (Hnew o Eo) as (_ & _ & _ & Hp). by apply (Hp b).
    + by apply (st_place _ _ H u z o b y).
  - intros b y a Hy Ea HD. destruct (st_node _ _ H b y a Hy Ea HD) as (n & Hn & ? & ?).
    destruct (lists_only_node _ _ a n Hlo Hn) as (n' & Hn' & E1 & E2). exists n'. by rewrite E1, E2.
  - apply (st_async _ _ H).
  - intros b b' y y' a Hy Hy' F1 F2 F3 F4 D1 D2 O1 O2.
    destruct (requeue_outside a b y Hy O1) as [O1'|(T1 & G1 & G2 & G3)];
    destruct (requeue_outside a b' y' Hy' O2) as [O2'|(T2 & G1' & G2' & G3')].
    + by apply (st_out _ _ H b b' y y' a).
    + by apply (Hout a b' y' b y).
    + symmetry. by apply (Hout a b y b' y').
    + congruence.
  - intros b y Hy. by apply (lists_only_proc _ _ _ Hlo), (st_bproc _ _ H b).
  - intros a n q Hn Eq. destruct (lists_only_node _ _ a n Hlo' Hn) as (n' & Hn' & E & _).
    apply (lists_only_proc _ _ _ Hlo), (st_nproc _ _ H a n'); congruence.
  - intros h y Hy. destruct (lists_only_thread _ _ h y Hlo' Hy) as [l Hl].
    by apply (lists_only_proc _ _ _ Hlo), (st_tproc _ _ H h (set_todo y l)).
Qed.

End Requeue.

(** An item that is no transaction comes or goes. *)
Lemma store_items D st st' : store D st -> lists_only st st' -> trans_at st' = trans_at st ->
  (forall o, trans_in <$> work_list st' o = trans_in <$> work_list st o) -> store D st'.
Proof.
  intros H Hlo Et El. pose proof (lists_only_sym _ _ Hlo) as Hlo'.
  assert (Hin : forall o l', work_list st' o = Some l' -> exists l, work_list st o = Some l /\ trans_in l' = trans_in l).
  { intros o l' Hl. specialize (El o). rewrite Hl in El. symmetry in El. apply fmap_Some in El as (l & ? & ?). eauto. }
  split; unfold outside; rewrite ?Et, ?(lo_buffer _ _ Hlo); try apply H.
  - intros o l' t Hl Ht. destruct (Hin o l' Hl) as (l & Hl' & E). apply elem_trans_of in Ht. rewrite E in Ht.
    apply elem_trans_of in Ht. by apply (st_list _ _ H o l).
  - intros o l' Hl. destruct (Hin o l' Hl) as (l & Hl' & ->). by apply (st_once _ _ H o).
  - intros t x o Hx Eo. destruct (st_on _ _ H t x o Hx Eo) as (l & Hl & Ht). specialize (El o). rewrite Hl in El.
    apply fmap_Some in El as (l' & Hl' & E). exists l'. split; [done|]. apply elem_trans_of. rewrite <- E.
    by apply elem_trans_of.
  - intros t x o Hx Eo En. destruct (st_buf _ _ H t x o Hx Eo En) as (a & n & -> & Hn & ?).
    destruct (lists_only_node _ _ a n Hlo Hn) as (n' & Hn' & E & _). exists a, n'. split_and!; congruence.
  - intros t x o b y Hx Eo Eb Hy. apply (placed_ext st _ o y); eauto using lists_only_proc_of.
    by apply (st_place _ _ H t x o b y).
  - intros b y a Hy Ea HD. destruct (st_node _ _ H b y a Hy Ea HD) as (n & Hn & ? & ?).
    destruct (lists_only_node _ _ a n Hlo Hn) as (n' & Hn' & E1 & E2). exists n'. by rewrite E1, E2.
  - intros b y Hy. by apply (lists_only_proc _ _ _ Hlo), (st_bproc _ _ H b).
  - intros a n q Hn Eq. destruct (lists_only_node _ _ a n Hlo' Hn) as (n' & Hn' & E & _).
    apply (lists_only_proc _ _ _ Hlo), (st_nproc _ _ H a n'); congruence.
  - intros h y Hy. destruct (lists_only_thread _ _ h y Hlo' Hy) as [l Hl].
    by apply (lists_only_proc _ _ _ Hlo), (st_tproc _ _ H h (set_todo y l)).
Qed.

(** ** Adding and taking an item *)

Definition requeued (w : work) (o : option place) (m : gmap Z transaction) : gmap Z transaction :=
  match w with WorkTransaction t => alter (fun x => set_on x o) t m | _ => m end.

Lemma entry_on_spec st w o : (forall t, w = WorkTransaction t -> is_Some (trans_at st !! t)) ->
  exists st', entry_on st w o = Some st' /\ lists_only st st' /\ trans_at st' = requeued w o (trans_at st) /\
    forall o', work_list st' o' = work_list st o'.
Proof.
  intros Ht. destruct w as [t| |]; simpl; [|by exists st..]. destruct (Ht t eq_refl) as [x Hx]. rewrite Hx. simpl.
  eexists. split_and!; [done|done| |by intros []]. simpl. by rewrite (alter_alt_Some _ _ _ x).
Qed.

Lemma list_del_first_spec st o w l : work_list st o = Some (w :: l) ->
  (forall t, w = WorkTransaction t -> is_Some (trans_at st !! t)) ->
  exists st', list_del_first st o = Some (w, st') /\ lists_only st st' /\ trans_at st' = requeued w None (trans_at st) /\
    forall o', work_list st' o' = if decide (o' = o) then Some l else work_list st o'.
Proof.
  intros Hl Ht. unfold list_del_first. rewrite Hl. simpl.
  destruct (put_list_spec st o _ l Hl) as (st1 & -> & L1 & T1 & W1). simpl. rewrite <- T1 in Ht.
  destruct (entry_on_spec st1 w None Ht) as (st2 & -> & L2 & T2 & W2). simpl.
  exists st2. split_and!; [done|by apply (lists_only_trans _ st1)|congruence|]. intros o'. by rewrite W2.
Qed.

Lemma list_add_tail_spec st o w l : work_list st o = Some l ->
  (forall t, w = WorkTransaction t -> is_Some (trans_at st !! t)) ->
  exists st', list_add_tail st w o = Some st' /\ lists_only st st' /\ trans_at st' = requeued w (Some o) (trans_at st) /\
    forall o', work_list st' o' = if decide (o' = o) then Some (l ++ [w]) else work_list st o'.
Proof.
  intros Hl Ht. unfold list_add_tail. rewrite Hl. simpl.
  destruct (put_list_spec st o _ (l ++ [w]) Hl) as (st1 & -> & L1 & T1 & W1). simpl. rewrite <- T1 in Ht.
  destruct (entry_on_spec st1 w (Some o) Ht) as (st2 & -> & L2 & T2 & W2). simpl.
  exists st2. split_and!; [done|by apply (lists_only_trans _ st1)|congruence|]. intros o'. by rewrite W2.
Qed.

Lemma work_is_trans w : (exists t, w = WorkTransaction t) \/ ~ (exists t, w = WorkTransaction t).
Proof. destruct w as [t| |]; [left; eauto|right; by intros []..]. Qed.

Lemma trans_in_cons t l : trans_in (WorkTransaction t :: l) = t :: trans_in l.
Proof. done. Qed.

Lemma trans_in_app l k : trans_in (l ++ k) = trans_in l ++ trans_in k.
Proof. apply omap_app. Qed.

(** A transaction is on one list, once. *)
Lemma on_one_list D st t x o l : store D st -> trans_at st !! t = Some x -> work_list st o = Some l ->
  WorkTransaction t ∈ l -> t_on x = Some o.
Proof. intros H Hx Hl Ht. destruct (st_list _ _ H o l t Hl Ht) as (z & ? & ?). congruence. Qed.

Lemma del_store D st o w l : store D st -> work_list st o = Some (w :: l) ->
  (forall a t x b b' y', o = OnNode a -> w = WorkTransaction t -> trans_at st !! t = Some x -> t_buffer x = Some b ->
     buffer_at st !! b' = Some y' -> async_transaction y' = true -> target_node y' = Some a ->
     D <> Some (b_proc y') -> outside st a y' -> b' = b) ->
  exists st', list_del_first st o = Some (w, st') /\ lists_only st st' /\ trans_at st' = requeued w None (trans_at st) /\
    (forall o', work_list st' o' = if decide (o' = o) then Some l else work_list st o') /\ store D st'.
Proof.
  intros H Hl Hout.
  assert (Hex : forall t, w = WorkTransaction t -> exists x, trans_at st !! t = Some x /\ t_on x = Some o).
  { intros t ->. apply (st_list _ _ H o _ t Hl). set_solver. }
  destruct (list_del_first_spec st o w l Hl) as (st' & E & Hlo & Et & Hw); [intros t ->; destruct (Hex t eq_refl) as (x & ? & _); eauto|].
  exists st'. split_and!; try done.
  destruct (work_is_trans w) as [[t ->]|Hn].
  2: { apply (store_items D st); [done|done|rewrite Et; destruct w; naive_solver|].
       intros o'. rewrite Hw. case_decide as Eo; [subst|done]. rewrite Hl. destruct w; [naive_solver|done..]. }
  destruct (Hex t eq_refl) as (x & Hx & Ex). simpl in Et. rewrite (alter_alt_Some _ _ _ x) in Et by done.
  pose proof (st_once _ _ H o _ Hl) as Hnd. rewrite trans_in_cons in Hnd. apply NoDup_cons in Hnd as [Hnt Hnd].
  apply (requeue_store D st st' t x None); try done.
  - intros o' l' Hl'. rewrite Hw in Hl'. case_decide as Eo.
    + simplify_eq. exists (WorkTransaction t :: l'). split_and!; [done| | |done].
      * intros u Hu. set_solver.
      * split; [|done]. intros Hin%elem_trans_of. done.
    + exists l'. split_and!; [done|done| |by apply (st_once _ _ H o')].
      split; [|done]. intros Hin. pose proof (on_one_list _ _ _ _ _ _ H Hx Hl' Hin). congruence.
  - intros o' l' Hl'. rewrite Hw. case_decide; eauto.
  - intros a b y b' y' Ea _ Eb _ Hy' F1 F2 F3 F4. apply (Hout a t x b b' y'); try done. congruence.
Qed.

Lemma add_store D st o w l : store D st -> work_list st o = Some l ->
  (forall t, w = WorkTransaction t -> exists x b y, trans_at st !! t = Some x /\ t_on x = None /\
     t_buffer x = Some b /\ buffer_at st !! b = Some y /\ allow_user_free y = false /\
     (need_reply x = true -> (forall a, o <> OnNode a) /\ (forall g, o = OnThread g -> to_thread x = Some g)) /\
     placed st o y) ->
  exists st', list_add_tail st w o = Some st' /\ lists_only st st' /\ trans_at st' = requeued w (Some o) (trans_at st) /\
    (forall o', work_list st' o' = if decide (o' = o) then Some (l ++ [w]) else work_list st o') /\ store D st'.
Proof.
  intros H Hl Hex.
  destruct (list_add_tail_spec st o w l Hl) as (st' & E & Hlo & Et & Hw); [intros t ->; destruct (Hex t eq_refl) as (x & ? & ? & ? & _); eauto|].
  exists st'. split_and!; try done.
  destruct (work_is_trans w) as [[t ->]|Hn].
  2: { apply (store_items D st); [done|done|rewrite Et; destruct w; naive_solver|].
       intros o'. rewrite Hw. case_decide as Eo; [subst|done]. rewrite Hl. simpl. rewrite trans_in_app.
       destruct w; [naive_solver|by rewrite app_nil_r..]. }
  destruct (Hex t eq_refl) as (x & b & y & Hx & Ex & Eb & Hy & Ha & Hr & Hp).
  simpl in Et. rewrite (alter_alt_Some _ _ _ x) in Et by done.
  assert (Hnot : forall o' l', work_list st o' = Some l' -> WorkTransaction t ∉ l').
  { intros o' l' Hl' Hin. pose proof (on_one_list _ _ _ _ _ _ H Hx Hl' Hin). congruence. }
  apply (requeue_store D st st' t x (Some o)); try done.
  - intros o' l' Hl'. rewrite Hw in Hl'. case_decide as Eo.
    + simplify_eq. exists l. split_and!; [done|intros; set_solver|set_solver|].
      rewrite trans_in_app. apply NoDup_app. split_and!; [by apply (st_once _ _ H o)| |apply NoDup_singleton].
      intros u Hu. rewrite trans_in_cons, elem_of_cons. intros [->|?]; [|set_solver].
      apply elem_trans_of in Hu. by apply (Hnot o l).
    + exists l'. split_and!; [done|done| |by apply (st_once _ _ H o')].
      split; [|congruence]. intros Hin. by apply (Hnot o' l') in Hin.
  - intros o' l' Hl'. rewrite Hw. case_decide; eauto.
  - intros o' Eo. simplify_eq. split_and!; [eauto|eauto 10|done|]. intros b' y' Eb' Hy'. by simplify_eq.
  - congruence.
Qed.

(** ** Buffers and nodes *)

Lemma outside_ext st st' a y : trans_at st' = trans_at st -> outside st' a y <-> outside st a y.
Proof. intros E. unfold outside. by rewrite E. Qed.

(** Stores with the same transactions and lists, seen from the buffers. *)
Lemma store_buffers D st st' : store D st -> trans_at st' = trans_at st -> (forall o, work_list st' o = work_list st o) ->
  (forall t x b, trans_at st !! t = Some x -> t_buffer x = Some b ->
     exists y, buffer_at st' !! b = Some y /\ b_transaction y = Some t) ->
  (forall b y, buffer_at st' !! b = Some y -> exists z, buffer_at st !! b = Some z /\ b_transaction y = b_transaction z /\
     target_node y = target_node z /\ async_transaction y = async_transaction z /\ b_proc y = b_proc z) ->
  (forall b y t x, buffer_at st' !! b = Some y -> allow_user_free y = true -> b_transaction y = Some t ->
     trans_at st !! t = Some x -> t_on x = None) ->
  (forall b y a n, buffer_at st' !! b = Some y -> target_node y = Some a -> node_at st !! a = Some n ->
     n_proc n = Some (b_proc y) -> (async_transaction y = true -> has_async_transaction n = true) ->
     exists n', node_at st' !! a = Some n' /\ n_proc n' = n_proc n /\
       (async_transaction y = true -> has_async_transaction n' = true)) ->
  (forall a n, node_at st !! a = Some n -> n_proc n = None -> exists n', node_at st' !! a = Some n' /\ n_proc n' = None) ->
  (forall a n, node_at st' !! a = Some n -> exists n', node_at st !! a = Some n' /\ n_proc n = n_proc n') ->
  thread_at st' = thread_at st -> proc_at st' = proc_at st -> store D st'.
Proof.
  intros H Et El Htb Hb Hfree Hn Hdead Hback Eth Ep.
  split; rewrite ?Et, ?Eth, ?Ep; try setoid_rewrite El; try apply H.
  - done.
  - intros b y t Hy Ht. destruct (Hb b y Hy) as (z & Hz & E & _). apply (st_bt _ _ H b z t); congruence.
  - intros t x b y Hx Eb Hy. destruct (Hb b y Hy) as (z & Hz & _ & -> & _). by apply (st_kind _ _ H t x b z).
  - done.
  - intros t x o Hx Eo En. destruct (st_buf _ _ H t x o Hx Eo En) as (a & n & -> & Hn0 & E).
    destruct (Hdead a n Hn0 E) as (n' & ? & ?). eauto.
  - intros t x o b y Hx Eo Eb Hy. destruct (Hb b y Hy) as (z & Hz & _ & E1 & E2 & E3).
    apply (placed_ext st _ o z); [rewrite Eth; eauto|done..|]. by apply (st_place _ _ H t x o b z).
  - intros b y a Hy Ea HD. destruct (Hb b y Hy) as (z & Hz & _ & E1 & E2 & E3). rewrite E3 in HD.
    destruct (st_node _ _ H b z a Hz ltac:(congruence) HD) as (n & Hn0 & E4 & E5).
    destruct (Hn b y a n Hy Ea Hn0) as (n' & ? & ? & ?); [congruence|by rewrite E2|].
    exists n'. split_and!; [done|congruence|done].
  - intros b y Hy Ea. destruct (Hb b y Hy) as (z & Hz & _ & E1 & E2 & E3). rewrite E1. apply (st_async _ _ H b); congruence.
  - intros b b' y y' a Hy Hy' F1 F2 F3 F4 D1 D2 O1 O2.
    destruct (Hb b y Hy) as (z & Hz & E0 & E1 & E2 & E3). destruct (Hb b' y' Hy') as (z' & Hz' & E0' & E1' & E2' & E3').
    apply (st_out _ _ H b b' z z' a); try congruence.
    + intros t x. rewrite <- E0, <- Et. apply O1.
    + intros t x. rewrite <- E0', <- Et. apply O2.
  - intros b y Hy. destruct (Hb b y Hy) as (z & Hz & _ & _ & _ & ->). by apply (st_bproc _ _ H b).
  - intros a n p Hn0 E. destruct (Hback a n Hn0) as (n' & ? & ?). apply (st_nproc _ _ H a n'); congruence.
Qed.

Lemma free_buffer_store D st b y : store D st -> buffer_at st !! b = Some y -> b_transaction y = None ->
  store D (free_buffer st b).
Proof.
  intros H Hy Et. apply (store_buffers D st); simpl; try done; eauto.
  - intros t x b' Hx Eb. destruct (st_tb _ _ H t x b' Hx Eb) as (z & Hz & ?). exists z.
    rewrite lookup_delete_ne; [done|]. intros ->. congruence.
  - intros b' z [? Hz]%lookup_delete_Some. eauto 10.
  - intros b' z t x [? Hz]%lookup_delete_Some. by apply (st_free _ _ H b').
Qed.

Lemma allow_store D st b y : store D st -> buffer_at st !! b = Some y ->
  (forall t x, b_transaction y = Some t -> trans_at st !! t = Some x -> t_on x = None) ->
  store D (put_buffer st b (set_allow y)).
Proof.
  intros H Hy Et. apply (store_buffers D st); simpl; try done; eauto.
  - intros t x b' Hx Eb. destruct (st_tb _ _ H t x b' Hx Eb) as (z & Hz & ?).
    destruct (decide (b' = b)) as [->|?]; [|exists z; by rewrite lookup_insert_ne].
    simplify_eq. exists (set_allow y). by rewrite lookup_insert_eq.
  - intros b' z [[<- <-]|[? Hz]]%lookup_insert_Some; eauto 10.
  - intros b' z t x [[<- <-]|[? Hz]]%lookup_insert_Some; [by eauto|by apply (st_free _ _ H b')].
Qed.

Lemma async_store D st a n f : store D st -> node_at st !! a = Some n ->
  (f = true \/ (forall b y, buffer_at st !! b = Some y -> target_node y = Some a -> async_transaction y = true -> False)) ->
  store D (put_node st a (set_async n f (async_todo n))).
Proof.
  intros H Hn Hf. apply (store_buffers D st); simpl; try done.
  - intros o. rewrite work_list_node. case_decide as E; [|done]. subst. simpl. by rewrite Hn.
  - apply (st_tb _ _ H).
  - intros b y Hy. eauto 10.
  - apply (st_free _ _ H).
  - intros b y a' n' Hy Ea Hn' Ep Ha. destruct (decide (a' = a)) as [->|?]; [|rewrite lookup_insert_ne by done; eauto].
    simplify_eq. rewrite lookup_insert_eq. eexists. split_and!; [done|done|]. intros E. simpl.
    destruct Hf as [?|Hf]; [done|]. by destruct (Hf b y).
  - intros a' n' Hn' E. destruct (decide (a' = a)) as [->|?]; [|rewrite lookup_insert_ne by done; eauto].
    simplify_eq. rewrite lookup_insert_eq. by eexists.
  - intros a' n' [[<- <-]|[? Hn']]%lookup_insert_Some; eauto.
Qed.

(** ** A new transaction with its buffer *)

Lemma store_weaken D st : store None st -> store D st.
Proof.
  intros H. split; try apply H.
  - intros b y a Hy Ea _. by apply (st_node _ _ H b y a).
  - intros b b' y y' a Hy Hy' F1 F2 F3 F4 _ _ O1 O2. by apply (st_out _ _ H b b' y y' a).
Qed.

Lemma store_close p st : store (Some p) st ->
  (forall b y a, buffer_at st !! b = Some y -> target_node y = Some a -> b_proc y = p ->
    exists n, node_at st !! a = Some n /\ n_proc n = Some (b_proc y) /\
      (async_transaction y = true -> has_async_transaction n = true)) ->
  (forall b b' y y' a, buffer_at st !! b = Some y -> buffer_at st !! b' = Some y' ->
    async_transaction y = true -> async_transaction y' = true -> target_node y = Some a -> target_node y' = Some a ->
    outside st a y -> outside st a y' -> b = b') -> store None st.
Proof.
  intros H Hn Ho. split; try apply H.
  - intros b y a Hy Ea _. destruct (decide (b_proc y = p)) as [E|E]; [by apply (Hn b y)|].
    apply (st_node _ _ H b y a); [done|done|congruence].
  - intros b b' y y' a Hy Hy' F1 F2 F3 F4 _ _ O1 O2. by apply (Ho b b' y y' a).
Qed.

Lemma new_store D st p t b x y : store D st -> trans_at st !! t = None -> buffer_at st !! b = None ->
  is_Some (proc_at st !! p) -> t_on x = None -> t_buffer x = Some b -> b_transaction y = Some t -> b_proc y = p ->
  allow_user_free y = false -> (async_transaction y = true -> is_Some (target_node y)) ->
  need_reply x = bool_decide (is_Some (target_node y)) && negb (one_way (t_flags x)) ->
  (forall h, from x = Some h -> need_reply x = true /\ to_thread x <> Some h) ->
  (D = Some p \/ (async_transaction y = false /\ forall a, target_node y = Some a ->
     exists n, node_at st !! a = Some n /\ n_proc n = Some p)) ->
  store D (put_buffer (put_trans st t x) b y).
Proof.
  intros H Ht Hb Hp E1 E2 E3 E4 E5 E6 E7 E8 E9.
  assert (Ht' : forall u z, <[t := x]> (trans_at st) !! u = Some z -> (u = t /\ z = x) \/ (u <> t /\ trans_at st !! u = Some z))
    by (intros u z [[<- <-]|[? ?]]%lookup_insert_Some; auto).
  assert (Hb' : forall u z, <[b := y]> (buffer_at st) !! u = Some z -> (u = b /\ z = y) \/ (u <> b /\ buffer_at st !! u = Some z))
    by (intros u z [[<- <-]|[? ?]]%lookup_insert_Some; auto).
  assert (Kt : forall u z, trans_at st !! u = Some z -> <[t := x]> (trans_at st) !! u = Some z)
    by (intros u z Hz; rewrite lookup_insert_ne; [done|congruence]).
  assert (Kb : forall u z, buffer_at st !! u = Some z -> <[b := y]> (buffer_at st) !! u = Some z)
    by (intros u z Hz; rewrite lookup_insert_ne; [done|congruence]).
  assert (Hold : forall u z, trans_at st !! u = Some z -> t_buffer z <> Some b).
  { intros u z Hz E. destruct (st_tb _ _ H u z b Hz E) as (? & ? & _). congruence. }
  assert (Hold' : forall c z, buffer_at st !! c = Some z -> b_transaction z <> Some t).
  { intros c z Hz E. destruct (st_bt _ _ H c z t Hz E) as (? & ? & _). congruence. }
  split; cbn [trans_at buffer_at node_at proc_at thread_at put_trans put_buffer].
  - intros u z c [[-> ->]|[? Hu]]%Ht' Ec.
    + assert (c = b) as -> by congruence. exists y. by rewrite lookup_insert_eq.
    + destruct (st_tb _ _ H u z c Hu Ec) as (w & Hw & ?). eauto.
  - intros c z u [[-> ->]|[? Hc]]%Hb' Eu.
    + assert (u = t) as -> by congruence. exists x. by rewrite lookup_insert_eq.
    + destruct (st_bt _ _ H c z u Hc Eu) as (w & Hw & ?). eauto.
  - intros u z c w [[-> ->]|[? Hu]]%Ht' Ec [[-> ->]|[? Hc]]%Hb'; [done|congruence|by destruct (Hold u z Hu)|by apply (st_kind _ _ H u z c)].
  - intros u z [[-> ->]|[? Hu]]%Ht' Hr; [|by apply (st_oneway _ _ H u)].
    rewrite E7 in Hr. apply andb_true_iff in Hr as [_ Hr]. by apply negb_true_iff.
  - intros u z a [[-> ->]|[? Hu]]%Ht' Hr; [congruence|by apply (st_notnode _ _ H u)].
  - intros u z h [[-> ->]|[? Hu]]%Ht' Hr Ef; [by apply E8|by apply (st_self _ _ H u)].
  - intros u z g [[-> ->]|[? Hu]]%Ht' Hr Eo; [congruence|by apply (st_hint _ _ H u)].
  - intros u z [[-> ->]|[? Hu]]%Ht' Hr; [|by apply (st_plain _ _ H u)].
    destruct (from x) as [h|]; [|done]. destruct (E8 h eq_refl). congruence.
  - intros c z u w [[-> ->]|[? Hc]]%Hb' Ha Eu; [congruence|].
    intros [[-> ->]|[? Hu]]%Ht'; [done|by apply (st_free _ _ H c z u)].
  - intros o l u Hl Hu. destruct (st_list _ _ H o l u) as (z & Hz & ?); [by destruct o|done|]. eauto.
  - intros o l Hl. apply (st_once _ _ H o). by destruct o.
  - intros u z o [[-> ->]|[? Hu]]%Ht' Eo; [congruence|].
    destruct (st_on _ _ H u z o Hu Eo) as (l & Hl & ?). exists l. by destruct o.
  - intros u z o [[-> ->]|[? Hu]]%Ht' Eo En; [congruence|by apply (st_buf _ _ H u z)].
  - intros u z o c w [[-> ->]|[? Hu]]%Ht' Eo Ec [[-> ->]|[? Hc]]%Hb'; [congruence..| |].
    + by destruct (Hold u z Hu).
    + by apply (st_place _ _ H u z o c w).
  - intros c z a [[-> ->]|[? Hc]]%Hb' Ea HD; [|by apply (st_node _ _ H c)].
    destruct E9 as [?|[Ef E9]]; [congruence|]. destruct (E9 a Ea) as (n & ? & ?). exists n. rewrite E4, Ef. done.
  - intros c z [[-> ->]|[? Hc]]%Hb' Ha; [by apply E6|by apply (st_async _ _ H c)].
  - intros c c' z z' a [[-> ->]|[? Hc]]%Hb' [[-> ->]|[? Hc']]%Hb' F1 F2 F3 F4 D1 D2 O1 O2;
      try (destruct E9 as [?|[? _]]; congruence).
    apply (st_out _ _ H c c' z z' a); try done; intros u w Hu Hw.
    + by apply (O1 u w Hu), Kt.
    + by apply (O2 u w Hu), Kt.
  - intros c z [[-> ->]|[? Hc]]%Hb'; [by rewrite E4|by apply (st_bproc _ _ H c)].
  - apply (st_nproc _ _ H).
  - apply (st_tproc _ _ H).
Qed.

End BinderCallsInv.
