(* ===== verification/BinderCallsSafe.v ===== *)
(** What the operations of BinderThreads.v do to the invariant of
    BinderCallsInv.v: failed replies, the end of threads and processes. *)

From S2P Require Import Prelude BinderThreads BinderStacks BinderCallsInv.
Local Open Scope Z_scope.
Local Open Scope kernel_scope.

Module BinderCallsSafe.
Import BinderThreads BinderStacks BinderCallsInv.

(** ** The calls of an updated store *)

Lemma calls_insert L K m t x : calls L K (<[t := x]> m) =
  match view L K t x with Some v => <[t := v]> (calls L K m) | None => delete t (calls L K m) end.
Proof.
  apply map_eq. intros u. rewrite calls_lookup. destruct (decide (u = t)) as [->|Hne].
  - rewrite lookup_insert_eq. simpl. destruct (view L K t x); by rewrite ?lookup_insert_eq, ?lookup_delete_eq.
  - rewrite lookup_insert_ne by done. destruct (view L K t x);
      by rewrite ?lookup_insert_ne, ?lookup_delete_ne, calls_lookup by done.
Qed.

Lemma calls_delete L K m t : calls L K (delete t m) = delete t (calls L K m).
Proof.
  apply map_eq. intros u. rewrite calls_lookup. destruct (decide (u = t)) as [->|Hne].
  - by rewrite !lookup_delete_eq.
  - by rewrite !lookup_delete_ne, calls_lookup by done.
Qed.

Lemma view_other L L' K t x : L <> Some t -> L' <> Some t -> view L K t x = view L' K t x.
Proof.
  intros. unfold view. by rewrite (bool_decide_false (L = Some t)), (bool_decide_false (L' = Some t)) by done.
Qed.

(** Calling [t] loose makes no difference elsewhere, *)
Lemma calls_loose_ne L K m t u : t <> u -> calls (Some t) K m !! u = calls L K m !! u \/ L = Some u.
Proof.
  intros. destruct (decide (L = Some u)); [by right|left]. rewrite !calls_lookup.
  destruct (m !! u) as [x|]; simpl; [|done]. apply view_other; congruence.
Qed.

(** and none at all where [t] is no call. *)
Lemma calls_loose_plain K m t : (forall x, m !! t = Some x -> need_reply x = false) ->
  calls (Some t) K m = calls None K m.
Proof.
  intros Ht. apply map_eq. intros u. destruct (decide (t = u)) as [<-|Hne].
  - rewrite !calls_lookup. destruct (m !! t) as [x|] eqn:Hx; simpl; [|done]. unfold view. by rewrite (Ht x).
  - destruct (calls_loose_ne None K m t u Hne) as [|]; done.
Qed.

Lemma view_loose K t x v : view None K t x = Some v -> view (Some t) K t x = Some (untaken v).
Proof.
  unfold view. destruct (need_reply x); [|done]. rewrite !(bool_decide_true (Some t = Some t)) by done. simpl.
  intros. simplify_eq. unfold untaken. simpl. f_equal. f_equal. by destruct (t_on x) as [[]|].
Qed.

Lemma calls_loose K m t v : calls None K m !! t = Some v -> calls (Some t) K m = <[t := untaken v]> (calls None K m).
Proof.
  intros Hv. apply map_eq. intros u. destruct (decide (t = u)) as [<-|Hne].
  - rewrite lookup_insert_eq, calls_lookup. rewrite calls_lookup in Hv. destruct (m !! t) as [x|]; [|done].
    by apply view_loose.
  - rewrite lookup_insert_ne by done. destruct (calls_loose_ne None K m t u Hne) as [|]; done.
Qed.

Lemma calls_some L K m t v : calls L K m !! t = Some v -> exists x, m !! t = Some x /\ need_reply x = true /\
  c_from v = from x /\ c_parent v = from_parent x /\ c_up v = to_parent x.
Proof.
  rewrite calls_lookup. destruct (m !! t) as [x|]; simpl; [|done]. unfold view.
  destruct (need_reply x) eqn:E; [|done]. intros. simplify_eq. eauto 10.
Qed.

(** ** What failed replies leave alone *)

Definition shape (y : binder_thread) := (th_proc y, looper y, th_todo y, reading y).
Definition buffer_shape (y : binder_buffer) := (b_proc y, target_node y, async_transaction y, allow_user_free y).

Record quiet (st st' : binder) : Prop := {
  qu_thread : shape <$> thread_at st' = shape <$> thread_at st;
  qu_buffer : buffer_shape <$> buffer_at st' = buffer_shape <$> buffer_at st;
  qu_node : node_at st' = node_at st;
  qu_proc : proc_at st' = proc_at st
}.

#[export] Instance quiet_preorder : PreOrder quiet.
Proof. split; [by split|]. intros st1 st2 st3 [] []. split; congruence. Qed.

Lemma quiet_thread st h y y' : thread_at st !! h = Some y -> shape y' = shape y -> quiet st (put_thread st h y').
Proof.
  intros Hy E. split; try done. simpl. rewrite fmap_insert. apply insert_id. by rewrite lookup_fmap, Hy, E.
Qed.

Lemma quiet_list st st' o : quiet st st' -> work_list st' o = work_list st o.
Proof.
  intros [E _ En Ep]. destruct o as [h|p|a]; simpl; rewrite ?En, ?Ep; [|done..].
  assert (E' : (shape <$> thread_at st') !! h = (shape <$> thread_at st) !! h) by (by rewrite E).
  rewrite !lookup_fmap in E'. destruct (thread_at st' !! h), (thread_at st !! h); simplify_eq/=; [|done].
  unfold shape in *. congruence.
Qed.

Lemma cut_quiet st x : buffer_shape <$> cut st x = buffer_shape <$> buffer_at st.
Proof.
  unfold cut. destruct (t_buffer x) as [b|]; [|done]. apply map_eq. intros c. rewrite !lookup_fmap.
  destruct (decide (b = c)) as [->|?]; [rewrite lookup_alter_eq|by rewrite lookup_alter_ne].
  by destruct (buffer_at st !! c).
Qed.

(** ** The end of a call *)

Lemma pop_dead D st t x : store D st -> trans_at st !! t = Some x -> t_on x = None ->
  exists st', binder_pop_transaction st None t = Some st' /\ store D st' /\ quiet st st' /\
    trans_at st' = delete t (trans_at st) /\ thread_at st' = thread_at st.
Proof.
  intros H Hx Ho. unfold binder_pop_transaction. rewrite Hx. simpl.
  destruct (detach_cut D st t x H Hx) as (st1 & -> & (E1 & E2 & E3) & E4 & E5).
  simpl. eexists. split; [done|].
  assert (free_trans st1 t = unlinked st t None (cut st x)) as ->.
  { unfold free_trans, unlinked. by rewrite E1, E2, E3, E4, E5. }
  split_and!; [|split; try done; apply cut_quiet|done|done].
  apply (unlink_store D); [done|done|done|by left].
Qed.

Lemma pop_alive D st t x h y : store D st -> trans_at st !! t = Some x -> t_on x = None ->
  thread_at st !! h = Some y -> transaction_stack y = Some t -> from x = Some h ->
  exists st', binder_pop_transaction st (Some h) t = Some st' /\ store D st' /\ quiet st st' /\
    trans_at st' = delete t (trans_at st) /\ thread_at st' = <[h := set_stack y (from_parent x)]> (thread_at st).
Proof.
  intros H Hx Ho Hy Hs Hf. set (st1 := put_thread st h (set_stack y (from_parent x))).
  assert (H1 : store D st1) by (by apply (store_thread D st h y)).
  destruct (pop_dead D st1 t x H1 Hx Ho) as (st2 & E & ? & Q & ? & ?).
  exists st2. split_and!; try done.
  - unfold binder_pop_transaction in *. rewrite Hx. simpl. rewrite Hy. simpl. rewrite Hs, Hf.
    rewrite !bool_decide_true by done. simpl. change (trans_at st1) with (trans_at st) in E. by rewrite Hx in E.
  - etrans; [by apply (quiet_thread st h y (set_stack y (from_parent x)))|done].
Qed.

Lemma calls_delete_loose K m t : calls None K (delete t m) = delete t (calls (Some t) K m).
Proof.
  rewrite calls_delete. apply map_eq. intros u. destruct (decide (t = u)) as [<-|?]; [by rewrite !lookup_delete_eq|].
  rewrite !lookup_delete_ne by done. destruct (calls_loose_ne None K m t u) as [|]; done.
Qed.

Lemma stacks_thread K st st' h s : thread_at st' = thread_at (put_thread st h s) ->
  stacks K st' = stacks K (put_thread st h s).
Proof. intros E. unfold stacks. by rewrite E. Qed.

Lemma stacks_same K st st' : thread_at st' = thread_at st -> stacks K st' = stacks K st.
Proof. intros E. unfold stacks. by rewrite E. Qed.

Lemma stacks_some K st h s : stacks K st !! h = Some s ->
  K <> Some h /\ exists y, thread_at st !! h = Some y /\ transaction_stack y = s.
Proof.
  intros Hs. assert (HK : K <> Some h).
  { intros ->. unfold stacks, drop in Hs. by rewrite lookup_delete_eq in Hs. }
  split; [done|]. rewrite stacks_lookup in Hs by done. apply fmap_Some in Hs as (y & ? & ->). eauto.
Qed.

Lemma thread_ok_from m m' h y : (forall t x, m' !! t = Some x -> from x = Some h -> exists z, m !! t = Some z /\ from z = Some h) ->
  thread_ok m h y -> thread_ok m' h y.
Proof.
  intros Hm [H1 H2 H3]. split; try done. intros t x Ht Hx Hf. destruct (Hm t x Hx Hf) as (z & Hz & ?). eauto.
Qed.

(** A thread that sees the same of the transactions on its stack is as before. *)
Lemma thread_ok_sub m m' h y : (forall t x, m' !! t = Some x -> exists z, m !! t = Some z /\ (from x = Some h -> from z = Some h)) ->
  thread_ok m h y -> thread_ok m' h y.
Proof.
  intros Hm. apply thread_ok_from. intros t x Hx Hf. destruct (Hm t x Hx) as (z & Hz & ?). eauto.
Qed.

(** The thread that waits for the newest call of a chain. *)
Section Waiting.
Variables (K D : option Z) (st : binder) (t : Z) (c : list Z) (C : list (list Z)) (x : transaction) (h : Z).
#[local] Abbreviation V := (calls (Some t) K (trans_at st)).
Hypothesis Hc : chains V (stacks K st) (with_chain (t :: c) C).
Hypothesis Ht : threads_ok K st.
Hypothesis Hx : trans_at st !! t = Some x.

Lemma loose_call : exists v, V !! t = Some v /\ c_from v = from x /\ c_parent v = from_parent x /\ c_to v = None /\
  from_parent x = head c.
Proof using Hc Hx.
  pose proof (focus_chain _ _ _ _ Hc) as [(v & Hv & L) _]. exists v.
  destruct (calls_some _ _ _ _ _ Hv) as (z & Hz & Hr & E1 & E2 & _). simplify_eq.
  rewrite calls_lookup, Hx in Hv. simpl in Hv. unfold view in Hv. rewrite Hr in Hv. rewrite bool_decide_true in Hv by done.
  simplify_eq/=. split_and!; try done.
  - rewrite calls_lookup, Hx. simpl. unfold view. rewrite Hr. by rewrite bool_decide_true by done.
  - by destruct L.
Qed.

Hypothesis Hf : from x = Some h.

Lemma waiting_thread : K <> Some h /\ exists y, thread_at st !! h = Some y /\ transaction_stack y = Some t /\
  return_error2 y = BR_OK /\ thread_ok (trans_at st) h y.
Proof using Hc Ht Hx Hf.
  destruct loose_call as (v & Hv & E & _). rewrite Hf in E.
  destruct (moves_part _ _ _ _ _ _ Hc Hv h) as [_ Hs]; [by left|].
  destruct (stacks_some _ _ _ _ Hs) as (HK & y & Hy & Es). split; [done|]. exists y.
  pose proof (Ht h y Hy HK) as Ok. split_and!; try done. by apply (ok_waiting _ _ _ Ok t x).
Qed.

(** Once the call is over the thread is back at work, or at rest. *)
Lemma not_waiting u z : from_parent x = Some u -> trans_at st !! u = Some z -> from z <> Some h.
Proof using Hc Hx Hf.
  destruct loose_call as (v & Hv & E & _ & _ & Ep). rewrite Ep. intros Eu Hu Ez.
  pose proof (focus_chain _ _ _ _ Hc) as Hch. destruct c as [|u' c']; simplify_eq/=.
  destruct Hch as [(v' & Hv' & _ & L2 & _) [(w & Hw & _ & _ & L3 & _) _]]. simplify_eq.
  destruct (L2 u c' eq_refl) as (w' & Hw' & Ew). simplify_eq. rewrite E, Hf in Ew.
  destruct (L3 h Ew) as [_ Hne]. apply Hne.
  destruct (calls_some _ _ _ _ _ Hw) as (z' & ? & _ & -> & _). congruence.
Qed.

End Waiting.

(** ** Failed replies *)

Lemma failed_reply_waiting K D e fuel c C st t x h : e <> BR_OK ->
  chains (calls (Some t) K (trans_at st)) (stacks K st) (with_chain (t :: c) C) -> threads_ok K st -> store D st ->
  trans_at st !! t = Some x -> t_on x = None -> from x = Some h ->
  exists st', failed_reply (S fuel) st t e = Some st' /\ calls_inv None K D st' /\ quiet st st' /\
    (forall u x, trans_at st' !! u = Some x -> trans_at st !! u = Some x).
Proof.
  intros He Hc Ht Hs Hx Ho' Hf. simpl. rewrite Hx. simpl. rewrite Hf.
  destruct (loose_call K st t c C x Hc Hx) as (v & Hv & Ef & Ep & Eto & _). rewrite Hf in Ef.
  destruct (waiting_thread K st t c C x h Hc Ht Hx Hf) as (HK & y & Hy & Es & E2 & Ok). rewrite Hy. simpl.
  set (y1 := make_room y). set (st1 := put_thread st h y1).
  assert (Hy1 : return_error y1 = BR_OK /\ shape y1 = shape y /\ transaction_stack y1 = Some t).
  { unfold y1, make_room. rewrite E2, Z.eqb_refl, andb_true_r. destruct (return_error y =? BR_OK) eqn:E; simpl;
      [apply Z.eqb_eq in E|]; done. }
  destruct Hy1 as (F1 & F2 & F3). rewrite F1, Z.eqb_refl.
  assert (H1 : store D st1) by (apply (store_thread D st h y); [done|done|unfold shape in F2; congruence..]).
  destruct (pop_alive D st1 t x h y1 H1 Hx Ho') as (st2 & -> & H2 & Q2 & T2 & P2);
    [simpl; by rewrite lookup_insert_eq|done|done|].
  simpl. rewrite P2, lookup_insert_eq. simpl. eexists. split; [done|].
  set (y3 := set_errors _ _ _). assert (Hst : thread_at (put_thread st2 h y3) = <[h := y3]> (thread_at st)).
  { simpl. rewrite P2. simpl. by rewrite !insert_insert_eq. }
  split_and!.
  + split.
    * exists (with_chain c C). rewrite (stacks_thread K st (put_thread st2 h y3) h y3), stacks_put by done. simpl.
      rewrite T2. simpl. rewrite calls_delete_loose.
      pose proof (pop_chains _ _ _ _ _ _ Hc Hv h Eto Ef) as P. by rewrite Ep in P.
    * intros g z Hz HKg. rewrite Hst in Hz. simpl. rewrite T2. simpl.
      apply lookup_insert_Some in Hz as [[<- <-]|[? Hz]].
      -- split; simpl; [done| |].
         ++ intros u w Eu [? Hw]%lookup_delete_Some Ew.
            by destruct (not_waiting K st t c C x h Hc Hx Hf u w Eu Hw).
         ++ intros Hr. assert (Hr' : for_proc (reading y) = true) by (unfold shape in F2; congruence).
            apply (ok_reading _ _ _ Ok) in Hr'. congruence.
      -- apply (thread_ok_sub (trans_at st)); [|by apply Ht]. intros u w [? Hw]%lookup_delete_Some. eauto.
    * apply (store_thread D st2 h (set_stack y1 (from_parent x))); [done| |done|done].
      rewrite P2. simpl. by rewrite lookup_insert_eq.
  + etrans; [apply (quiet_thread st h y y1 Hy F2)|]. etrans; [exact Q2|].
    apply (quiet_thread st2 h (set_stack y1 (from_parent x))); [|done]. rewrite P2. simpl. by rewrite lookup_insert_eq.
  + intros u w. simpl. rewrite T2. simpl. by intros [? Hw]%lookup_delete_Some.
Qed.

Lemma failed_reply_inv K D e : e <> BR_OK -> forall fuel c C st t,
  chains (calls (Some t) K (trans_at st)) (stacks K st) (with_chain (t :: c) C) -> threads_ok K st -> store D st ->
  (forall x, trans_at st !! t = Some x -> t_on x = None) -> (length c < fuel)%nat ->
  exists st', failed_reply fuel st t e = Some st' /\ calls_inv None K D st' /\ quiet st st' /\
    (forall u x, trans_at st' !! u = Some x -> trans_at st !! u = Some x).
Proof.
  intros He. induction fuel as [|fuel IH]; intros c C st t Hc Ht Hs Ho Hfuel; [lia|]. simpl.
  assert (exists x, trans_at st !! t = Some x) as [x Hx].
  { pose proof (focus_chain _ _ _ _ Hc) as [(v & Hv & _) _]. destruct (calls_some _ _ _ _ _ Hv) as (x & ? & _). eauto. }
  rewrite Hx. simpl. pose proof (Ho x Hx) as Ho'.
  destruct (loose_call K st t c C x Hc Hx) as (v & Hv & Ef & Ep & Eto & Eh). rewrite Eh.
  destruct (from x) as [h|] eqn:Hf.
  - pose proof (failed_reply_waiting K D e fuel c C st t x h He Hc Ht Hs Hx Ho' Hf) as W.
    simpl in W. rewrite Hx in W. simpl in W. by rewrite Hf in W.
  - destruct (pop_dead D st t x Hs Hx Ho') as (st1 & -> & H1 & Q1 & T1 & P1). simpl.
    assert (Ht1 : threads_ok K st1).
    { intros g z Hz HKg. rewrite P1 in Hz. rewrite T1. apply (thread_ok_sub (trans_at st)); [|by apply Ht].
      intros u w [? Hw]%lookup_delete_Some. eauto. }
    assert (Hsub : forall u w, trans_at st1 !! u = Some w -> trans_at st !! u = Some w)
      by (intros u w; rewrite T1; by intros [? Hw]%lookup_delete_Some).
    destruct c as [|u c']; simpl.
    + exists st1. split_and!; [done| |done|done]. split; [|done|done]. exists C.
      rewrite (stacks_same K st st1 P1), T1, calls_delete_loose. by apply (pop_chains_nil _ _ _ _ v).
    + pose proof (focus_chain _ _ _ _ Hc) as [_ [(w & Hw & _) _]].
      destruct (pop_chains_cons _ _ _ _ _ _ v w Hc Hv Hw Ef Eto) as [Ew Hc'].
      assert (Hne : t <> u).
      { destruct (focus_nodup _ _ _ _ Hc) as (Hnd & _). apply NoDup_cons in Hnd as [Hnd _]. set_solver. }
      assert (Hw' : calls None K (trans_at st1) !! u = Some w).
      { rewrite T1, calls_delete_loose. by rewrite lookup_delete_ne. }
      destruct (IH c' C st1 u) as (st2 & -> & I2 & Q2 & S2); [|done|done| |simpl in Hfuel; lia|].
      * rewrite (calls_loose K (trans_at st1) u w Hw'), (stacks_same K st st1 P1), T1, calls_delete_loose. exact Hc'.
      * intros z Hz. rewrite calls_lookup, Hz in Hw'. simpl in Hw'. unfold view in Hw'.
        destruct (need_reply z); [|done]. simplify_eq/=. destruct (t_on z); [|done]. done.
      * exists st2. split_and!; [done|done|by etrans|]. intros. by apply Hsub, S2.
Qed.

(** The fuel: a chain is no longer than the store. *)
Lemma nodup_size {A} (m : gmap Z A) (l : list Z) : NoDup l -> (forall t, t ∈ l -> is_Some (m !! t)) ->
  (length l <= size m)%nat.
Proof.
  intros Hnd Hl. rewrite <- (size_list_to_set (C := gset Z) l Hnd), <- (size_dom (D := gset Z) m).
  apply subseteq_size. intros t. rewrite elem_of_list_to_set, elem_of_dom. auto.
Qed.

Lemma chain_length L K m S C c : chains (calls L K m) S (with_chain c C) -> (length c <= size m)%nat.
Proof.
  intros H. destruct (focus_nodup _ _ _ _ H) as (Hnd & _). apply nodup_size; [done|]. intros t Ht.
  assert (Hin : t ∈ mjoin (with_chain c C)) by (rewrite join_with; set_solver).
  apply (ch_dom _ _ _ H) in Hin as [v Hv]. destruct (calls_some _ _ _ _ _ Hv) as (x & ? & _). eauto.
Qed.

Lemma send_failed_reply_inv K D e st t x : e <> BR_OK -> calls_inv (Some t) K D st -> trans_at st !! t = Some x ->
  need_reply x = true -> t_on x = None ->
  exists st', binder_send_failed_reply st t e = Some st' /\ calls_inv None K D st' /\ quiet st st' /\
    (forall u x, trans_at st' !! u = Some x -> trans_at st !! u = Some x).
Proof.
  intros He [[C Hc] Ht Hs] Hx Hr Ho. unfold binder_send_failed_reply. rewrite Hx. simpl.
  rewrite (st_oneway _ _ Hs t x Hx Hr). simpl.
  assert (Hv : exists v, calls (Some t) K (trans_at st) !! t = Some v /\ c_to v = None).
  { rewrite calls_lookup, Hx. simpl. unfold view. rewrite Hr, bool_decide_true by done. eauto. }
  destruct Hv as (v & Hv & Ev). destruct (untaken_chain _ _ _ _ _ Hc Hv Ev) as (c & C' & P).
  pose proof (chains_perm _ _ _ _ P Hc) as Hc'. pose proof (chain_length _ _ _ _ _ _ Hc') as Hlen. simpl in Hlen.
  apply (failed_reply_inv K D e He (size (trans_at st)) c C'); try done. intros. by simplify_eq.
Qed.

(** ** Taking an item off a list *)

Lemma calls_requeue_loose K m t x o : m !! t = Some x -> calls (Some t) K (<[t := set_on x o]> m) = calls (Some t) K m.
Proof.
  intros Hx. apply map_eq. intros u. rewrite !calls_lookup. destruct (decide (t = u)) as [<-|?].
  - rewrite lookup_insert_eq, Hx. simpl. unfold view. simpl. destruct (need_reply x); [|done].
    rewrite !(bool_decide_true (Some t = Some t)) by done. simpl. by destruct o as [[]|], (t_on x) as [[]|].
  - by rewrite lookup_insert_ne.
Qed.

Lemma threads_ok_lists K st st' : threads_ok K st -> lists_only st st' ->
  (forall t x, trans_at st' !! t = Some x -> exists z, trans_at st !! t = Some z /\ from x = from z) -> threads_ok K st'.
Proof.
  intros H Hlo Ht h y Hy HK. destruct (lists_only_thread _ _ h y (lists_only_sym _ _ Hlo) Hy) as [l Hl].
  destruct (H h _ Hl HK) as [H1 H2 H3]. split; [done| |done].
  intros t x Es Hx Hf. destruct (Ht t x Hx) as (z & Hz & E). apply (H2 t z Es Hz). congruence.
Qed.

Lemma requeued_from w o m t x : requeued w o m !! t = Some x -> exists z, m !! t = Some z /\ from x = from z.
Proof.
  destruct w as [u| |]; simpl; [|eauto..]. destruct (decide (u = t)) as [->|?].
  - rewrite lookup_alter_eq. intros (z & ? & ->)%fmap_Some. eauto.
  - rewrite lookup_alter_ne by done. eauto.
Qed.

Lemma del_inv K D st o w l : calls_inv None K D st -> work_list st o = Some (w :: l) -> (forall a, o <> OnNode a) ->
  exists st', list_del_first st o = Some (w, st') /\ lists_only st st' /\ trans_at st' = requeued w None (trans_at st) /\
    (forall o', work_list st' o' = if decide (o' = o) then Some l else work_list st o') /\
    calls_inv (trans_of w) K D st'.
Proof.
  intros [[C Hc] Ht Hs] Hl Ho. destruct (del_store D st o w l Hs Hl) as (st' & E & Hlo & Et & Hw & Hs').
  { intros a t x b b' y' ->. by destruct (Ho a). }
  exists st'. split_and!; try done. split; [|by apply (threads_ok_lists K st); [..|intros t x; rewrite Et; apply requeued_from]|done].
  rewrite (lists_only_stacks K _ _ Hlo), Et. destruct w as [t| |]; [|by exists C..].
  destruct (st_list _ _ Hs o _ t Hl) as (x & Hx & Ex); [set_solver|]. simpl. rewrite (alter_alt_Some _ _ _ x) by done.
  rewrite calls_requeue_loose by done. exists C. destruct (calls None K (trans_at st) !! t) as [v|] eqn:Hv.
  - rewrite (calls_loose K _ t v Hv). apply untaken_chains; [done|done|].
    rewrite calls_lookup, Hx in Hv. simpl in Hv. unfold view in Hv. destruct (need_reply x); [|done]. simplify_eq. simpl.
    by rewrite Ex.
  - rewrite calls_loose_plain; [done|]. intros z Hz. simplify_eq. rewrite calls_lookup, Hx in Hv. simpl in Hv.
    unfold view in Hv. by destruct (need_reply x).
Qed.

(** ** Releasing a list *)

(** What releasing work leaves alone. *)
Definition stay (y : binder_thread) := (th_proc y, looper y, reading y).

Record drained (st st' : binder) : Prop := {
  dr_thread : stay <$> thread_at st' = stay <$> thread_at st;
  dr_buffer : buffer_shape <$> buffer_at st' = buffer_shape <$> buffer_at st;
  dr_node : bare_node <$> node_at st' = bare_node <$> node_at st;
  dr_proc : bare_proc <$> proc_at st' = bare_proc <$> proc_at st;
  dr_trans t x : trans_at st' !! t = Some x -> t_on x <> None -> trans_at st !! t = Some x
}.

#[export] Instance drained_preorder : PreOrder drained.
Proof. split; [by split|]. intros st1 st2 st3 [] []. split; try congruence; auto. Qed.

Lemma fmap_factor {A B E} (f : A -> B) (g : B -> E) (m m' : gmap Z A) : f <$> m' = f <$> m -> g ∘ f <$> m' = g ∘ f <$> m.
Proof. intros H. by rewrite !map_fmap_compose, H. Qed.

Lemma lists_only_drained st st' w : lists_only st st' -> trans_at st' = requeued w None (trans_at st) -> drained st st'.
Proof.
  intros [E1 E2 E3 E4] Et. split; [|by rewrite E4|done|done|].
  { apply (fmap_factor bare_thread (fun y => stay y)) in E1. exact E1. }
  intros t x. rewrite Et. destruct w as [u| |]; [|done..]. simpl. destruct (decide (u = t)) as [->|?].
  - rewrite lookup_alter_eq. by intros (z & _ & ->)%fmap_Some.
  - by rewrite lookup_alter_ne.
Qed.

Lemma quiet_drained st st' : quiet st st' -> (forall t x, trans_at st' !! t = Some x -> trans_at st !! t = Some x) ->
  drained st st'.
Proof.
  intros [E1 E2 E3 E4] Et. split; [|done|by rewrite E3|by rewrite E4|auto].
  apply (fmap_factor shape (fun s => (s.1.1.1, s.1.1.2, s.2))) in E1. exact E1.
Qed.

Lemma plain_inv K D st t : (forall x, trans_at st !! t = Some x -> need_reply x = false) ->
  calls_inv (Some t) K D st -> calls_inv None K D st.
Proof. intros Hp [Hc Ht Hs]. split; [|done|done]. by rewrite calls_loose_plain in Hc. Qed.

(** A queued transaction has its buffer. *)
Lemma queued_buffer D st t x o : store D st -> trans_at st !! t = Some x -> t_on x = Some o -> (forall a, o <> OnNode a) ->
  exists b y, t_buffer x = Some b /\ buffer_at st !! b = Some y /\ b_transaction y = Some t.
Proof.
  intros H Hx Ho Hn. destruct (t_buffer x) as [b|] eqn:Eb.
  - destruct (st_tb _ _ H t x b Hx Eb) as (y & ? & ?). eauto.
  - destruct (st_buf _ _ H t x o Hx Ho Eb) as (a & n & -> & _). by destruct (Hn a).
Qed.

Lemma drain_list_inv K D o : (forall a, o <> OnNode a) -> forall fuel l st, calls_inv None K D st ->
  work_list st o = Some l -> (length l <= fuel)%nat ->
  exists st', release_list fuel st o = Some st' /\ calls_inv None K D st' /\ work_list st' o = Some [] /\ drained st st'.
Proof.
  intros Ho. induction fuel as [|fuel IH]; intros l st H Hl Hlen.
  { destruct l; simpl in Hlen; [|lia]. simpl. rewrite Hl. by exists st. }
  simpl. rewrite Hl. simpl. destruct l as [|w l]; [by exists st|].
  destruct (del_inv K D st o w l H Hl Ho) as (st1 & -> & Hlo & Et & Hw & H1). simpl.
  specialize (Hw o). rewrite decide_True in Hw by done. simpl in Hlen.
  assert (Dr : drained st st1) by (by apply (lists_only_drained _ _ w)).
  destruct w as [t| |]; simpl in *.
  2-3: destruct (IH l st1 H1 Hw ltac:(lia)) as (st2 & E2 & I2 & L2 & D2); exists st2; split_and!; try done;
       by etrans.
  destruct (st_list _ _ (ci_store _ _ _ _ H) o _ t Hl) as (x & Hx & Ex); [set_solver|].
  destruct (queued_buffer D st t x o (ci_store _ _ _ _ H) Hx Ex Ho) as (b & y & Eb & Hy & _).
  rewrite (alter_alt_Some _ _ _ x) in Et by done. rewrite Et, lookup_insert_eq. simpl. rewrite Eb. simpl.
  rewrite (lo_buffer _ _ Hlo), Hy. simpl.
  pose proof (st_kind _ _ (ci_store _ _ _ _ H) t x b y Hx Eb Hy) as Hk. rewrite <- Hk.
  assert (Hx1 : trans_at st1 !! t = Some (set_on x None)) by (by rewrite Et, lookup_insert_eq).
  destruct (need_reply x) eqn:Hr.
  - destruct (send_failed_reply_inv K D BR_DEAD_REPLY st1 t (set_on x None)) as (st2 & -> & I2 & Q2 & T2); try done.
    simpl. rewrite <- (quiet_list _ _ o Q2) in Hw.
    destruct (IH l st2 I2 Hw ltac:(lia)) as (st3 & E3 & I3 & L3 & D3). exists st3. split_and!; try done.
    etrans; [exact Dr|]. etrans; [by apply quiet_drained|done].
  - apply plain_inv in H1; [|intros z Hz; by simplify_eq].
    destruct (IH l st1 H1 Hw ltac:(lia)) as (st2 & E2 & I2 & L2 & D2). exists st2. split_and!; try done.
    by etrans.
Qed.

Lemma drain_inv K D o st l : (forall a, o <> OnNode a) -> calls_inv None K D st -> work_list st o = Some l ->
  exists st', binder_release_work st o = Some st' /\ calls_inv None K D st' /\ work_list st' o = Some [] /\ drained st st'.
Proof. intros Ho H Hl. unfold binder_release_work. rewrite Hl. simpl. by apply (drain_list_inv K D o Ho _ l). Qed.

(** ** A buffer goes *)

Lemma detach_buffer_inv D st b y : calls_inv None None D st -> buffer_at st !! b = Some y ->
  (forall t x, b_transaction y = Some t -> trans_at st !! t = Some x -> t_on x = None \/
     ((exists a n, t_on x = Some (OnNode a) /\ node_at st !! a = Some n /\ n_proc n = None) /\ D = Some (b_proc y))) ->
  exists st', detach_buffer st y = Some st' /\ calls_inv None None D (free_buffer st' b) /\
    buffer_at st' = buffer_at st /\ thread_at st' = thread_at st /\ node_at st' = node_at st /\ proc_at st' = proc_at st /\
    (forall u z, trans_at st' !! u = Some z -> exists z', trans_at st !! u = Some z' /\ t_on z = t_on z' /\
       (t_buffer z <> None -> z = z')) /\
    (forall u z, trans_at st !! u = Some z -> exists z', trans_at st' !! u = Some z' /\ t_on z' = t_on z).
Proof.
  intros [[C Hc] Ht Hs] Hy Hon. unfold detach_buffer. destruct (b_transaction y) as [t|] eqn:Et.
  2: { exists st. split_and!; try done; [|eauto|eauto]. split; [by exists C|done|by apply (free_buffer_store _ st b y)]. }
  destruct (st_bt _ _ Hs b y t Hy Et) as (x & Hx & Eb). rewrite Hx. simpl.
  set (x' := set_buffer x None). exists (put_trans st t x'). split_and!; try done.
  - split.
    + exists C. assert (calls None None (<[t := x']> (trans_at st)) = calls None None (trans_at st)) as E; [|simpl; by rewrite E].
      apply map_eq. intros u. rewrite !calls_lookup. destruct (decide (t = u)) as [<-|?]; [|by rewrite lookup_insert_ne].
      by rewrite lookup_insert_eq, Hx.
    + intros h z Hz HK. apply (thread_ok_sub (trans_at st)); [|by apply (Ht h z)].
      intros u w Hw. simpl in Hw. apply lookup_insert_Some in Hw as [[<- <-]|[_ Hw]]; eauto.
    + assert (free_buffer (put_trans st t x') b = free_buffer (unlinked st t (Some x') (cut st x)) b) as ->.
      { unfold free_buffer, unlinked, cut. simpl. rewrite Eb. f_equal. apply map_eq. intros c.
        destruct (decide (b = c)) as [->|?]; [by rewrite !lookup_delete_eq|].
        by rewrite !lookup_delete_ne, lookup_alter_ne. }
      apply (free_buffer_store _ _ b (set_transaction y None)); [|simpl; unfold cut; by rewrite Eb, lookup_alter_eq, Hy|done].
      apply (unlink_store D); [done|done| |].
      * intros z [= <-]. split_and!; try done. intros h Ef. simpl in Ef. split; [done|]. apply (st_self _ _ Hs t x h Hx); [|done].
        destruct (need_reply x) eqn:Er; [done|]. pose proof (st_plain _ _ Hs t x Hx Er). congruence.
      * destruct (Hon t x eq_refl Hx) as [?|[? ?]]; [by left|right]. split_and!; [done|done|].
        intros b' y' Eb' Hy'. by simplify_eq.
  - intros u z. simpl. intros [[<- <-]|[_ Hz]]%lookup_insert_Some; [exists x; by split_and!|eauto].
  - intros u z Hz. simpl. destruct (decide (t = u)) as [<-|?]; [|rewrite lookup_insert_ne by done; eauto].
    rewrite lookup_insert_eq. simplify_eq. by eexists.
Qed.

(** ** The end of a thread *)

(** What leaving the stack does to a call the thread takes part in. *)
Definition leave_trans (h : Z) (x : transaction) : transaction :=
  if bool_decide (t_on x = None) && bool_decide (to_thread x = Some h)
  then set_buffer (set_to (set_to_proc x None) (to_parent x) None) None
  else if bool_decide (from x = Some h) then set_from x None else x.

Lemma call_part L K m h t x : m !! t = Some x -> need_reply x = true -> L <> Some t ->
  part (calls L K m) h t <-> from x = Some h \/ (t_on x = None /\ to_thread x = Some h).
Proof.
  intros Hx Hr HL. unfold part, caller, callee. rewrite calls_lookup, Hx. simpl. unfold view. rewrite Hr.
  rewrite bool_decide_false by done. simpl. destruct (t_on x) as [o|]; simpl; [naive_solver|]. naive_solver.
Qed.

Lemma leave_trans_other h x : from x <> Some h -> (t_on x = None -> to_thread x <> Some h) -> leave_trans h x = x.
Proof.
  intros H1 H2. unfold leave_trans. rewrite (bool_decide_false (from x = Some h)) by done.
  destruct (t_on x) eqn:E; [done|]. by rewrite (bool_decide_false (to_thread x = Some h)) by auto.
Qed.

(** One call of the stack. *)
Lemma leave_one D st h t x c : store D st -> trans_at st !! t = Some x -> need_reply x = true ->
  link (calls None None (trans_at st)) (mk_call (from x) (from_parent x)
    (if bool_decide (is_Some (t_on x)) then None else Some (to_thread x)) (to_parent x) None) c ->
  part (calls None None (trans_at st)) h t ->
  exists st1, store D st1 /\ only_calls st st1 /\ trans_at st1 = <[t := leave_trans h x]> (trans_at st) /\
    buffer_shape <$> buffer_at st1 = buffer_shape <$> buffer_at st /\
    forall fuel, leave_stack (S fuel) st h (Some t) = leave_stack fuel st1 h (top (calls None None (trans_at st)) h c).
Proof.
  intros H Hx Hr (L1 & L2 & L3 & _) P. rewrite (call_part None None _ h t x) in P by done. simpl in *.
  destruct (decide (to_thread x = Some h)) as [Et|Et].
  - assert (Hf : from x <> Some h) by (intros Hf; by apply (st_self _ _ H t x h)).
    destruct P as [?|[Eo _]]; [done|]. rewrite Eo in L3. destruct (L3 h) as [Eu _]; [simpl; congruence|].
    set (z := set_buffer (set_to (set_to_proc x None) (to_parent x) None) None).
    destruct (detach_cut D st t x H Hx) as (st1 & E & (E1 & E2 & E3) & E4 & E5).
    exists (put_trans st1 t z).
    assert (put_trans st1 t z = unlinked st t (Some z) (cut st x)) as ->.
    { unfold put_trans, unlinked. by rewrite E1, E2, E3, E4, E5. }
    split_and!.
    + apply (unlink_store D); [done|done| |by left]. intros w Hw. simplify_eq. by split_and!.
    + done.
    + unfold leave_trans. rewrite (bool_decide_true _ Eo), (bool_decide_true _ Et). done.
    + apply cut_quiet.
    + intros fuel. simpl. rewrite Hx. simpl. rewrite (bool_decide_true _ Et), E. simpl.
      rewrite <- Eu. unfold put_trans, unlinked. by rewrite E1, E2, E3, E4, E5.
  - destruct P as [Ef|[_ ?]]; [|done]. exists (put_trans st t (set_from x None)). split_and!.
    + by apply (store_trans D st t x).
    + done.
    + unfold leave_trans. rewrite (bool_decide_false _ Et), andb_false_r. by rewrite bool_decide_true.
    + done.
    + intros fuel. simpl. rewrite Hx. simpl. rewrite (bool_decide_false _ Et), (bool_decide_true _ Ef).
      rewrite L1. destruct c as [|u c]; [done|]. simpl. rewrite decide_True; [done|]. right.
      destruct (L2 u c eq_refl) as (y & Hy & Ey). unfold callee. rewrite Hy. simpl. by rewrite Ey.
Qed.

Lemma calls_at L K m t v : calls L K m !! t = Some v -> exists x, m !! t = Some x /\ need_reply x = true /\ view L K t x = Some v.
Proof.
  rewrite calls_lookup. destruct (m !! t) as [x|]; simpl; [|done]. intros E. exists x. split_and!; try done.
  unfold view in E. by destruct (need_reply x).
Qed.

Lemma leave_stack_spec D h : forall c fuel st, NoDup c -> chain (calls None None (trans_at st)) c -> store D st ->
  (length c <= fuel)%nat ->
  exists st', leave_stack fuel st h (top (calls None None (trans_at st)) h c) = Some st' /\ store D st' /\ only_calls st st' /\
    buffer_shape <$> buffer_at st' = buffer_shape <$> buffer_at st /\
    (forall u, u ∉ c -> trans_at st' !! u = trans_at st !! u) /\
    (forall u, u ∈ c -> trans_at st' !! u = leave_trans h <$> trans_at st !! u).
Proof.
  induction c as [|t c IH]; intros fuel st Hnd Hc Hs Hlen.
  { exists st. split_and!; [by destruct fuel|done..|]. intros u Hu. by apply not_elem_of_nil in Hu. }
  apply NoDup_cons in Hnd as [Ht Hnd]. simpl in Hc, Hlen. destruct Hc as [(v & Hv & L) Hc].
  destruct (calls_at _ _ _ _ _ Hv) as (x & Hx & Hr & Ev). simpl.
  destruct (decide (part (calls None None (trans_at st)) h t)) as [P|P].
  - destruct (leave_one D st h t x c Hs Hx Hr) as (st1 & S1 & O1 & T1 & B1 & E1); [|done|].
    { destruct L as (L1 & L2 & L3 & _). unfold view in Ev. rewrite Hr in Ev. simplify_eq/=. by split_and!. }
    destruct fuel as [|fuel]; [lia|]. rewrite E1.
    assert (A : forall u, u ∈ c -> calls None None (trans_at st1) !! u = calls None None (trans_at st) !! u).
    { intros u Hu. rewrite !calls_lookup, T1. rewrite lookup_insert_ne; [done|]. by intros ->. }
    rewrite <- (top_ext (calls None None (trans_at st)) (calls None None (trans_at st1))) by (intros; by apply part_ext, A).
    destruct (IH fuel st1 Hnd) as (st2 & E2 & S2 & (O2a & O2b & O2c) & B2 & N2 & I2); [by apply (chain_ext (calls None None (trans_at st)))|done|lia|].
    destruct O1 as (O1a & O1b & O1c). exists st2. split_and!; try done; try congruence.
    + split_and!; congruence.
    + intros u [Hu Hu']%not_elem_of_cons. rewrite N2 by done. rewrite T1. by rewrite lookup_insert_ne.
    + intros u [->|Hu]%elem_of_cons.
      * rewrite N2 by done. by rewrite T1, lookup_insert_eq, Hx.
      * rewrite I2 by done. rewrite T1, lookup_insert_ne; [done|]. by intros ->.
  - destruct (IH fuel st Hnd Hc Hs ltac:(lia)) as (st2 & E2 & S2 & O2 & B2 & N2 & I2). exists st2. split_and!; try done.
    + intros u [Hu Hu']%not_elem_of_cons. by apply N2.
    + intros u [->|Hu]%elem_of_cons; [|by apply I2]. rewrite N2 by done. rewrite Hx. simpl.
      rewrite (call_part None None _ h t x) in P by done. rewrite leave_trans_other; tauto.
Qed.

Lemma view_leave L h t x : need_reply x = true -> (forall g, from x = Some g -> to_thread x <> Some g) ->
  (L = Some t -> t_on x = None) ->
  view L (Some h) t (leave_trans h x) = (v ← view None None t x; Some (kill h (bool_decide (L = Some t)) v)).
Proof.
  intros Hr Hs HL. unfold view at 2. rewrite Hr. simpl. unfold kill. simpl. unfold leave_trans.
  destruct (t_on x) as [o|] eqn:Eo; simpl.
  - rewrite (bool_decide_false (L = Some t)) by (intros E; by specialize (HL E)).
    destruct (bool_decide (from x = Some h)) eqn:Ef; simpl; unfold view; simpl; rewrite Hr, Eo; simpl;
      rewrite (bool_decide_false (L = Some t)) by (intros E; by specialize (HL E)); simpl; do 2 f_equal;
      destruct o; try done; repeat case_bool_decide; simplify_eq; congruence.
  - destruct (bool_decide (to_thread x = Some h)) eqn:Et.
    + apply bool_decide_eq_true in Et. rewrite (bool_decide_false (from x = Some h)) by (intros E; by destruct (Hs h E)).
      unfold view. simpl. rewrite Hr, Eo. simpl. rewrite orb_false_r. do 2 f_equal.
      destruct (bool_decide (L = Some t)); [done|]. rewrite bool_decide_true by congruence. done.
    + apply bool_decide_eq_false in Et.
      destruct (bool_decide (from x = Some h)) eqn:Ef; simpl; unfold view; simpl; rewrite Hr, Eo; simpl;
        rewrite orb_false_r; do 2 f_equal; rewrite (bool_decide_false (Some _ = _)) by congruence; done.
Qed.

Section FreeThread.
Variables (D : option Z) (st : binder) (h : Z) (y : binder_thread).
#[local] Abbreviation V := (calls None None (trans_at st)).
Hypothesis H : calls_inv None None D st.
Hypothesis Hy : thread_at st !! h = Some y.
#[local] Abbreviation L := (worked_on V h (transaction_stack y)).

(** A call on top of the stack. *)
Lemma top_call c t : top V h c = Some t -> exists x, trans_at st !! t = Some x /\ need_reply x = true /\
  (callee V t = Some h <-> to_thread x = Some h).
Proof using H.
  intros [_ P]%top_part.
  assert (exists v, V !! t = Some v) as [v Hv].
  { unfold part, caller, callee in P. destruct (V !! t); [eauto|]. by destruct P. }
  destruct (calls_at _ _ _ _ _ Hv) as (x & Hx & Hr & Ev). exists x. split_and!; [done|done|].
  rewrite (call_part None None _ h t x) in P by done. unfold callee. rewrite Hv. simpl.
  unfold view in Ev. rewrite Hr in Ev. simplify_eq. simpl. destruct (t_on x) as [o|] eqn:Eo; simpl; [|done].
  destruct P as [P|[? _]]; [|done]. split; [done|]. intros E.
  by destruct (st_self _ _ (ci_store _ _ _ _ H) t x h Hx Hr P).
Qed.

(** What is left when the stack is taken apart. *)
Lemma left_calls (c : list Z) st1 : (forall u, u ∉ c -> ~ part V h u) ->
  (forall u, u ∉ c -> trans_at st1 !! u = trans_at st !! u) ->
  (forall u, u ∈ c -> trans_at st1 !! u = leave_trans h <$> trans_at st !! u) ->
  (forall u, u ∈ c -> is_Some (V !! u)) ->
  calls L (Some h) (trans_at st1) = killed h L V.
Proof using H.
  intros Hp Hn Hi Hc. apply map_eq. intros u. rewrite killed_lookup, !calls_lookup.
  assert (E : trans_at st1 !! u = (x ← trans_at st !! u; Some (if need_reply x then leave_trans h x else x))).
  { destruct (decide (u ∈ c)) as [Hu|Hu].
    - rewrite Hi by done. destruct (Hc u Hu) as [v Hv]. destruct (calls_at _ _ _ _ _ Hv) as (x & Hx & Hr & _).
      rewrite Hx. simpl. by rewrite Hr.
    - rewrite Hn by done. destruct (trans_at st !! u) as [x|] eqn:Hx; [|done]. simpl. f_equal.
      destruct (need_reply x) eqn:Hr; [|done]. specialize (Hp u Hu).
      rewrite (call_part None None _ h u x) in Hp by done. rewrite leave_trans_other; tauto. }
  rewrite E. destruct (trans_at st !! u) as [x|] eqn:Hx; simpl; [|done].
  destruct (need_reply x) eqn:Hr; [|by unfold view; rewrite Hr].
  apply view_leave; [done|intros; by apply (st_self _ _ (ci_store _ _ _ _ H) u x)|].
  intros El. apply worked_on_some in El as [_ El]. unfold callee in El. rewrite calls_lookup, Hx in El. simpl in El.
  unfold view in El. rewrite Hr in El. simpl in El. by destruct (t_on x).
Qed.

Lemma leave_inv : exists st1, leave_stack (2 * size (trans_at st)) st h (transaction_stack y) = Some st1 /\
  calls_inv L (Some h) D st1 /\ only_calls st st1 /\ buffer_shape <$> buffer_at st1 = buffer_shape <$> buffer_at st /\
  (forall t, L = Some t -> exists x, trans_at st1 !! t = Some x /\ need_reply x = true /\ t_on x = None).
Proof using H Hy.
  destruct H as [[C Hc] Ht Hs].
  assert (HS : stacks None st !! h = Some (transaction_stack y)) by (by rewrite stacks_lookup, Hy).
  destruct (thread_chain _ _ _ _ _ Hc HS) as (c & C' & P & Es & A).
  pose proof (chains_perm _ _ _ _ P Hc) as Hc'. destruct (focus_nodup _ _ _ _ Hc') as (Hnd & _).
  pose proof (chain_length _ _ _ _ _ _ Hc') as Hlen.
  destruct (leave_stack_spec D h c (2 * size (trans_at st)) st Hnd (focus_chain _ _ _ _ Hc') Hs ltac:(lia))
    as (st1 & E1 & S1 & O1 & B1 & N1 & I1).
  exists st1. rewrite Es at 1. split_and!; try done.
  - split; [|..|done].
    + exists C. rewrite (left_calls c st1); try done.
      * replace (stacks (Some h) st1) with (delete h (stacks None st));
          [by apply (kill_chains _ (stacks None st))|].
        unfold stacks, drop. by destruct O1 as (-> & _).
      * intros u Hu Pu. assert (Hj : u ∈ mjoin (with_chain c C')).
        { apply (ch_dom _ _ _ Hc'). unfold part, caller, callee in Pu. destruct (V !! u); [eauto|]. by destruct Pu. }
        rewrite join_with, elem_of_app in Hj. destruct Hj as [?|Hj]; [done|].
        apply list_elem_of_join in Hj as (d & Hu' & Hd). apply (A d Hd), Exists_exists. eauto.
      * intros u Hu. apply (ch_dom _ _ _ Hc'). rewrite join_with. set_solver.
    + intros g z Hz HK. destruct O1 as (O1 & _). rewrite O1 in Hz.
      apply (thread_ok_sub (trans_at st)); [|by apply Ht]. intros u x Hx.
      destruct (decide (u ∈ c)) as [Hu|Hu]; [|rewrite N1 in Hx by done; eauto].
      rewrite I1 in Hx by done. apply fmap_Some in Hx as (w & Hw & ->). exists w. split; [done|].
      unfold leave_trans. case_match; [done|]. by case_match.
  - intros t [El Ec]%worked_on_some. rewrite El in Es. destruct (top_call c t (eq_sym Es)) as (x & Hx & Hr & _).
    destruct (top_part _ _ _ _ (eq_sym Es)) as [Hin _]. exists (leave_trans h x). rewrite I1, Hx by done.
    unfold callee in Ec. rewrite calls_lookup, Hx in Ec. simpl in Ec. unfold view in Ec. rewrite Hr in Ec. simpl in Ec.
    destruct (t_on x) eqn:Eo; [done|]. unfold leave_trans. split_and!; [done|by repeat case_match|by repeat case_match].
Qed.

Lemma send_reply_spec : match transaction_stack y with
  | None => Some None
  | Some t => x ← trans_at st !! t; Some (if bool_decide (to_thread x = Some h) then Some t else None)
  end = Some L.
Proof using H Hy.
  destruct H as [[C Hc] Ht Hs].
  assert (HS : stacks None st !! h = Some (transaction_stack y)) by (by rewrite stacks_lookup, Hy).
  destruct (thread_chain _ _ _ _ _ Hc HS) as (c & C' & P & Es & A).
  destruct (transaction_stack y) as [t|]; [|done]. destruct (top_call c t (eq_sym Es)) as (x & Hx & Hr & E).
  rewrite Hx. simpl. unfold worked_on. simpl. f_equal. by repeat case_bool_decide; tauto.
Qed.

Lemma free_thread_inv : exists st', binder_free_thread st h = Some st' /\ calls_inv None None D st' /\
  stay <$> thread_at st' = delete h (stay <$> thread_at st) /\
  buffer_shape <$> buffer_at st' = buffer_shape <$> buffer_at st /\
  bare_node <$> node_at st' = bare_node <$> node_at st /\ bare_proc <$> proc_at st' = bare_proc <$> proc_at st.
Proof using H Hy.
  unfold binder_free_thread. rewrite Hy. cbn [mbind option_bind]. rewrite send_reply_spec. cbn [mbind option_bind].
  destruct leave_inv as (st1 & -> & I1 & (O1a & O1b & O1c) & B1 & T1). simpl.
  assert (exists st2, match L with None => Some st1 | Some t => binder_send_failed_reply st1 t BR_DEAD_REPLY end = Some st2 /\
            calls_inv None (Some h) D st2 /\ quiet st1 st2 /\
            (forall t x, trans_at st2 !! t = Some x -> trans_at st1 !! t = Some x)) as (st2 & -> & I2 & Q2 & T2).
  { destruct L as [t|] eqn:El; [|by exists st1]. destruct (T1 t eq_refl) as (x & Hx & Hr & Ho).
    destruct (send_failed_reply_inv (Some h) D BR_DEAD_REPLY st1 t x) as (st2 & ? & ? & ? & ?); eauto 10. }
  simpl.
  assert (Hl : work_list st2 (OnThread h) = Some (th_todo y)) by (rewrite (quiet_list _ _ _ Q2); simpl; by rewrite O1a, Hy).
  destruct (drain_inv (Some h) D (OnThread h) st2 _ ltac:(done) I2 Hl) as (st3 & -> & I3 & L3 & D3). simpl.
  eexists. split; [done|]. apply quiet_drained in Q2; [|done]. destruct Q2 as [Q2a Q2b Q2c Q2d _], D3 as [D3a D3b D3c D3d _].
  split_and!; simpl.
  - destruct I3 as [[C Hc] Ht Hs].
    assert (Hno : forall t x, trans_at st3 !! t = Some x -> t_on x <> Some (OnThread h)).
    { intros t x Hx Eo. destruct (st_on _ _ Hs t x _ Hx Eo) as (l & Hl3 & Hin). rewrite L3 in Hl3. simplify_eq. set_solver. }
    split.
    + exists C. simpl. assert (calls None None (trans_at st3) = calls None (Some h) (trans_at st3)) as ->.
      { apply map_eq. intros u. rewrite !calls_lookup. destruct (trans_at st3 !! u) as [x|] eqn:Hx; [|done]. simpl.
        unfold view. destruct (need_reply x); [|done]. do 2 f_equal. specialize (Hno u x Hx).
        destruct (t_on x) as [[g| |]|]; try done. simpl. rewrite bool_decide_false; [done|]. congruence. }
      unfold stacks. simpl. rewrite fmap_delete. exact Hc.
    + intros g z Hz _. simpl in Hz. apply lookup_delete_Some in Hz as [Hne Hz]. apply (Ht g z); [done|congruence].
    + apply (store_drop D st3); simpl; try done.
      * intros [g| |] l; simpl; [|done..]. rewrite lookup_delete. by case_decide.
      * intros t x [g| |] Hx Eo; simpl; [|done..]. rewrite lookup_delete_ne; [done|].
        intros <-. by destruct (Hno t x Hx).
      * by intros g z [_ Hz]%lookup_delete_Some.
      * intros g z [_ Hz]%lookup_delete_Some. by apply (st_tproc _ _ Hs g).
      * apply (st_nproc _ _ Hs).
      * apply (st_bproc _ _ Hs).
  - rewrite fmap_delete, D3a, Q2a. by rewrite O1a.
  - congruence.
  - rewrite D3c, Q2c. by rewrite O1b.
  - rewrite D3d, Q2d. by rewrite O1c.
Qed.

End FreeThread.

End BinderCallsSafe.
