(* ===== verification/BinderCallsEnd.v ===== *)
(** The end of a process of BinderThreads.v keeps the invariant of
    BinderCallsInv.v. *)

From S2P Require Import Prelude BinderThreads BinderStacks BinderCallsInv BinderCallsSafe.
Local Open Scope Z_scope.
Local Open Scope kernel_scope.

Module BinderCallsEnd.
Import BinderThreads BinderStacks BinderCallsInv BinderCallsSafe.

(** ** Threads *)

Lemma free_threads_inv D : forall threads st, calls_inv None None D st -> NoDup threads ->
  (forall h, h ∈ threads -> is_Some (thread_at st !! h)) ->
  exists st', free_threads st threads = Some st' /\ calls_inv None None D st' /\
    (forall h y, thread_at st' !! h = Some y -> (h ∉ threads) /\ exists z, thread_at st !! h = Some z /\ stay y = stay z) /\
    bare_proc <$> proc_at st' = bare_proc <$> proc_at st.
Proof.
  induction threads as [|h threads IH]; intros st H Hnd Hex; simpl.
  { exists st. split_and!; [done|done| |done]. intros h y Hy. set_solver. }
  apply NoDup_cons in Hnd as [Hh Hnd]. destruct (Hex h ltac:(set_solver)) as [y Hy].
  destruct (free_thread_inv D st h y H Hy) as (st1 & -> & H1 & T1 & _ & _ & P1). simpl.
  assert (Hk : forall g, g <> h -> stay <$> thread_at st1 !! g = stay <$> thread_at st !! g).
  { intros g Hg. rewrite <- !lookup_fmap, T1. by rewrite lookup_delete_ne. }
  destruct (IH st1 H1 Hnd) as (st2 & -> & H2 & T2 & P2).
  { intros g Hg. assert (Hne : g <> h) by (by intros ->). destruct (Hex g ltac:(set_solver)) as [z Hz].
    specialize (Hk g Hne). rewrite Hz in Hk. simpl in Hk. apply fmap_Some in Hk as (z' & ? & _). eauto. }
  exists st2. split_and!; [done|done| |congruence]. intros g z Hz. destruct (T2 g z Hz) as (Hg & z1 & Hz1 & E1).
  assert (Hne : g <> h).
  { intros ->. assert (E : (stay <$> thread_at st1) !! h = None) by (by rewrite T1, lookup_delete_eq).
    by rewrite lookup_fmap, Hz1 in E. }
  split; [set_solver|]. specialize (Hk g Hne). rewrite Hz1 in Hk. simpl in Hk. symmetry in Hk.
  apply fmap_Some in Hk as (z' & ? & ?). exists z'. split; congruence.
Qed.

(** ** Nodes *)

Section ChangeNodes.
Variables (D : option Z) (st : binder) (f : Z -> binder_node -> option binder_node).
#[local] Abbreviation st' := (change_nodes st f).
#[local] Abbreviation gone := (node_gone st f).

Lemma change_nodes_trans t : trans_at st' !! t = forget gone <$> trans_at st !! t.
Proof using. unfold change_nodes. simpl. by rewrite lookup_fmap. Qed.

Lemma change_nodes_node a : node_at st' !! a = (n ← node_at st !! a; f a n).
Proof using. unfold change_nodes. simpl. by rewrite map_lookup_imap. Qed.

Lemma change_nodes_back t x : trans_at st' !! t = Some x -> exists z, trans_at st !! t = Some z /\ x = forget gone z.
Proof using. rewrite change_nodes_trans. intros (z & ? & ->)%fmap_Some. eauto. Qed.

Lemma forget_fields g x : from (forget g x) = from x /\ to_thread (forget g x) = to_thread x /\
  need_reply (forget g x) = need_reply x /\ t_buffer (forget g x) = t_buffer x /\ t_flags (forget g x) = t_flags x.
Proof using. unfold forget. destruct (t_on x) as [[]|]; try done. by destruct (g _). Qed.

Lemma forget_on g x o : t_on (forget g x) = Some o <-> t_on x = Some o /\ forall a, o = OnNode a -> g a = false.
Proof using.
  unfold forget. destruct (t_on x) as [[h|q|a]|] eqn:E; rewrite ?E.
  - split; [|by intros []]. intros [= <-]. by split.
  - split; [|by intros []]. intros [= <-]. by split.
  - destruct (g a) eqn:Ea; simpl; rewrite ?E.
    + split; [done|]. intros [[= <-] E']. by rewrite E' in Ea.
    + split; [|by intros []]. intros [= <-]. split; [done|]. by intros ? [= <-].
  - split; [done|]. by intros [].
Qed.

Hypothesis H : store None st.
Hypothesis Hf : forall a n n', f a n = Some n' -> async_todo n' = async_todo n /\ (n_proc n' = n_proc n \/ n_proc n' = None).
Hypothesis HD : forall b y a n, buffer_at st !! b = Some y -> target_node y = Some a -> D <> Some (b_proc y) ->
  node_at st !! a = Some n -> f a n = Some n.

Lemma kept_node a n : node_at st !! a = Some n -> gone a = false ->
  exists n', node_at st' !! a = Some n' /\ f a n = Some n' /\ async_todo n' = async_todo n /\
    (n_proc n' = n_proc n \/ n_proc n' = None).
Proof using Hf.
  intros Hn. unfold node_gone. rewrite change_nodes_node, Hn. simpl.
  destruct (f a n) as [n'|] eqn:E; [|by rewrite bool_decide_true]. intros _. exists n'. split_and!; [done|done|..]; by apply Hf with a.
Qed.

Lemma kept_gone a n : node_at st !! a = Some n -> f a n = Some n -> gone a = false.
Proof using. intros Hn E. unfold node_gone. rewrite Hn, E. by rewrite bool_decide_false. Qed.

Lemma change_nodes_list o l : work_list st' o = Some l -> work_list st o = Some l /\ forall a, o = OnNode a -> gone a = false.
Proof using Hf.
  destruct o as [h|q|a]; [by split..|]. unfold work_list. rewrite change_nodes_node.
  intros (n & Hn & ->)%fmap_Some. apply bind_Some in Hn as (m & Hm & E). rewrite Hm. simpl. split.
  - by destruct (Hf a m n E) as [-> _].
  - intros a' [= <-]. unfold node_gone. rewrite Hm, E. by rewrite bool_decide_false.
Qed.

Lemma change_nodes_outside a b y n : buffer_at st !! b = Some y -> node_at st !! a = Some n -> f a n = Some n ->
  outside st' a y -> outside st a y.
Proof using.
  intros Hy Hn Hp Ho t x Ht Hx Eo. apply (Ho t (forget gone x) Ht).
  - by rewrite change_nodes_trans, Hx.
  - apply forget_on. split; [done|]. intros a' [= <-]. by apply (kept_gone a n).
Qed.

Lemma change_nodes_store : store D st'.
Proof using H Hf HD.
  split; cbn [buffer_at thread_at proc_at change_nodes].
  - intros t x b (z & Hz & ->)%change_nodes_back Eb. destruct (forget_fields gone z) as (_ & _ & _ & E & _).
    apply (st_tb _ _ H t z); congruence.
  - intros b y t Hy Ht. destruct (st_bt _ _ H b y t Hy Ht) as (z & Hz & ?). exists (forget gone z).
    destruct (forget_fields gone z) as (_ & _ & _ & E & _). rewrite change_nodes_trans, Hz. split; [done|congruence].
  - intros t x b y (z & Hz & ->)%change_nodes_back Eb Hy. destruct (forget_fields gone z) as (_ & _ & -> & E & ->).
    apply (st_kind _ _ H t z b y); congruence.
  - intros t x (z & Hz & ->)%change_nodes_back. destruct (forget_fields gone z) as (_ & _ & -> & _ & ->).
    by apply (st_oneway _ _ H t).
  - intros t x a (z & Hz & ->)%change_nodes_back. destruct (forget_fields gone z) as (_ & _ & -> & _).
    intros Hr [E _]%forget_on. by apply (st_notnode _ _ H t z a).
  - intros t x h (z & Hz & ->)%change_nodes_back. destruct (forget_fields gone z) as (-> & -> & -> & _).
    by apply (st_self _ _ H t).
  - intros t x g (z & Hz & ->)%change_nodes_back. destruct (forget_fields gone z) as (_ & -> & -> & _).
    intros Hr [E _]%forget_on. by apply (st_hint _ _ H t z).
  - intros t x (z & Hz & ->)%change_nodes_back. destruct (forget_fields gone z) as (-> & _ & -> & _).
    by apply (st_plain _ _ H t).
  - intros b y t x Hy Ha Ht (z & Hz & ->)%change_nodes_back. pose proof (st_free _ _ H b y t z Hy Ha Ht Hz) as E.
    unfold forget. by rewrite E.
  - intros o l t [Hl Hg]%change_nodes_list Ht. destruct (st_list _ _ H o l t Hl Ht) as (z & Hz & Eo).
    exists (forget gone z). rewrite change_nodes_trans, Hz. split; [done|]. by apply forget_on.
  - intros o l [Hl _]%change_nodes_list. by apply (st_once _ _ H o).
  - intros t x o (z & Hz & ->)%change_nodes_back [Eo Eg]%forget_on. destruct (st_on _ _ H t z o Hz Eo) as (l & Hl & Ht).
    exists l. split; [|done]. destruct o as [h|q|a]; [done..|]. simpl in Hl. apply fmap_Some in Hl as (n & Hn & ->).
    destruct (kept_node a n Hn (Eg a eq_refl)) as (n' & Hn' & _ & E & _). unfold work_list. rewrite Hn'. simpl. by rewrite E.
  - intros t x o (z & Hz & ->)%change_nodes_back [Eo Eg]%forget_on.
    destruct (forget_fields gone z) as (_ & _ & _ & -> & _). intros En.
    destruct (st_buf _ _ H t z o Hz Eo En) as (a & n & -> & Hn & E).
    destruct (kept_node a n Hn (Eg a eq_refl)) as (n' & Hn' & _ & _ & E'). exists a, n'. split_and!; [done|done|].
    destruct E'; congruence.
  - intros t x o b y (z & Hz & ->)%change_nodes_back [Eo Eg]%forget_on.
    destruct (forget_fields gone z) as (_ & _ & _ & -> & _). intros Eb Hy.
    apply (placed_ext st _ o y); eauto. by apply (st_place _ _ H t z o b y).
  - intros b y a Hy Ea HDb. destruct (st_node _ _ H b y a Hy Ea) as (n & Hn & E1 & E2); [done|].
    exists n. split; [|done]. rewrite change_nodes_node, Hn. simpl. by apply (HD b y).
  - apply (st_async _ _ H).
  - intros b b' y y' a Hy Hy' F1 F2 F3 F4 D1 D2 O1 O2.
    destruct (st_node _ _ H b y a Hy F3) as (n & Hn & _); [done|]. pose proof (HD b y a n Hy F3 D1 Hn) as E.
    apply (st_out _ _ H b b' y y' a); try done; [by apply (change_nodes_outside a b y n)|by apply (change_nodes_outside a b' y' n)].
  - apply (st_bproc _ _ H).
  - intros a n q. rewrite change_nodes_node. intros (m & Hm & E)%bind_Some Eq. destruct (Hf a m n E) as [_ [E'|E']]; [|congruence].
    apply (st_nproc _ _ H a m); congruence.
  - apply (st_tproc _ _ H).
Qed.

Lemma change_nodes_calls L K : calls L K (trans_at st') = calls L K (trans_at st).
Proof using H.
  apply map_eq. intros t. rewrite !calls_lookup, change_nodes_trans.
  destruct (trans_at st !! t) as [x|] eqn:Hx; [|done]. simpl.
  destruct (need_reply x) eqn:Hr.
  - f_equal. unfold forget. destruct (t_on x) as [[h|q|a]|] eqn:Eo; try done.
    by destruct (st_notnode _ _ H t x a).
  - unfold view. destruct (forget_fields gone x) as (_ & _ & -> & _). by rewrite Hr.
Qed.

End ChangeNodes.

Lemma change_nodes_inv D st f : calls_inv None None None st ->
  (forall a n n', f a n = Some n' -> async_todo n' = async_todo n /\ (n_proc n' = n_proc n \/ n_proc n' = None)) ->
  (forall b y a n, buffer_at st !! b = Some y -> target_node y = Some a -> D <> Some (b_proc y) ->
     node_at st !! a = Some n -> f a n = Some n) ->
  calls_inv None None D (change_nodes st f).
Proof.
  intros [[C Hc] Ht Hs] Hf HD. split; [|..|by apply change_nodes_store].
  - exists C. by rewrite change_nodes_calls.
  - intros h y Hy HK. apply (thread_ok_sub (trans_at st)); [|by apply Ht].
    intros t x (z & Hz & ->)%change_nodes_back. exists z. split; [done|].
    by destruct (forget_fields (node_gone st f) z) as (-> & _).
Qed.

Lemma call_free_node_inv st a : calls_inv None None None st ->
  (forall b y, buffer_at st !! b = Some y -> target_node y <> Some a) -> calls_inv None None None (free_node st a).
Proof.
  intros H Hb. apply change_nodes_inv; [done|..].
  - intros a' n n'. destruct (a' =? a); [done|]. intros [= <-]. auto.
  - intros b y a' n Hy Et _ Hn. destruct (Z.eqb_spec a' a) as [->|?]; [|done]. by destruct (Hb b y).
Qed.

(** The nodes of a process that goes: what waited for one waits for a dead
    node. *)
Lemma release_node_spec referred p a n n' : release_node referred p a n = Some n' ->
  async_todo n' = async_todo n /\ (n_proc n' = n_proc n \/ n_proc n' = None) /\ n_proc n' <> Some p.
Proof.
  unfold release_node. case_bool_decide as E; [destruct (referred a); [|done]|]; intros [= <-]; auto.
Qed.

Lemma dead_nodes_inv st referred p : calls_inv None None None st -> calls_inv None None (Some p) (release_nodes st referred p).
Proof.
  intros H. apply change_nodes_inv; [done|..].
  - intros a n n' E. by destruct (release_node_spec _ _ _ _ _ E) as (? & ? & _).
  - intros b y a n Hy Ea HD Hn. destruct (st_node _ _ (ci_store _ _ _ _ H) b y a Hy Ea) as (m & Hm & E & _); [done|].
    unfold release_node. rewrite bool_decide_false; [done|]. congruence.
Qed.

Lemma release_nodes_dead st referred p t x a b y : store None st ->
  trans_at (release_nodes st referred p) !! t = Some x -> t_on x = Some (OnNode a) -> t_buffer x = Some b ->
  buffer_at st !! b = Some y -> b_proc y = p ->
  exists n, node_at (release_nodes st referred p) !! a = Some n /\ n_proc n = None.
Proof.
  intros H (z & Hz & ->)%change_nodes_back [Eo Eg]%forget_on.
  destruct (forget_fields (node_gone st (release_node referred p)) z) as (_ & _ & _ & -> & _). intros Eb Hy Ep.
  destruct (st_place _ _ H t z _ b y Hz Eo Eb Hy) as [Ea _].
  destruct (st_node _ _ H b y a Hy Ea) as (n & Hn & En & _); [done|].
  destruct (kept_node st (release_node referred p)) with a n as (n' & Hn' & E & _); [|done|by apply Eg|].
  { intros a' m m' E. by destruct (release_node_spec _ _ _ _ _ E) as (? & ? & _). }
  exists n'. split; [done|]. destruct (release_node_spec _ _ _ _ _ E) as (_ & [?|?] & ?); congruence.
Qed.

(** ** Buffers *)

(** Nothing waits for the buffers of the process, except for dead nodes. *)
Definition idle_buffers (p : Z) (st : binder) : Prop :=
  forall t x b y, trans_at st !! t = Some x -> t_buffer x = Some b -> buffer_at st !! b = Some y -> b_proc y = p ->
    t_on x = None \/ exists a n, t_on x = Some (OnNode a) /\ node_at st !! a = Some n /\ n_proc n = None.

(** One buffer is released. *)
Lemma release_buffer_step p st b y : calls_inv None None (Some p) st -> idle_buffers p st -> buffer_at st !! b = Some y ->
  b_proc y = p ->
  exists st', detach_buffer st y = Some st' /\
    calls_inv None None (Some p) (free_buffer st' b) /\ idle_buffers p (free_buffer st' b) /\
    buffer_at st' = buffer_at st /\ thread_at st' = thread_at st /\ node_at st' = node_at st /\ proc_at st' = proc_at st /\
    (forall o, work_list st' o = work_list st o).
Proof.
  intros H Hi Hy Ep. destruct (detach_buffer_inv (Some p) st b y H Hy) as (st' & E & H' & Eb & Eth & En & Epr & Et & _).
  { intros t x Et Hx. destruct (st_bt _ _ (ci_store _ _ _ _ H) b y t Hy Et) as (x' & Hx' & Eb). simplify_eq.
    destruct (Hi t x b y Hx Eb Hy eq_refl) as [?|(a & n & ? & ? & ?)]; [by left|right]. eauto 10. }
  exists st'. split_and!; try done.
  - intros u z c w Hz Ec Hw Ep'. simpl in *. rewrite Eb in Hw. apply lookup_delete_Some in Hw as [_ Hw].
    destruct (Et u z Hz) as (z0 & Hz0 & _ & E0). assert (z = z0) as -> by (apply E0; congruence). rewrite En. by apply (Hi u z0 c w).
  - intros [g|q|a]; simpl; by rewrite ?Eth, ?En, ?Epr.
Qed.

Lemma release_buffers_inv p : forall bs st, calls_inv None None (Some p) st -> idle_buffers p st -> NoDup bs ->
  (forall b, b ∈ bs -> exists y, buffer_at st !! b = Some y /\ b_proc y = p) ->
  exists st', release_buffers st bs = Some st' /\ calls_inv None None (Some p) st' /\
    (forall b y, buffer_at st' !! b = Some y -> (b ∉ bs) /\ buffer_at st !! b = Some y) /\
    thread_at st' = thread_at st /\ node_at st' = node_at st /\ proc_at st' = proc_at st /\
    (forall o, work_list st' o = work_list st o).
Proof.
  induction bs as [|b bs IH]; intros st H Hi Hnd Hex; simpl.
  { exists st. split_and!; try done. intros b y Hy. set_solver. }
  apply NoDup_cons in Hnd as [Hb Hnd]. destruct (Hex b ltac:(set_solver)) as (y & Hy & Ep). rewrite Hy. simpl.
  destruct (release_buffer_step p st b y H Hi Hy Ep) as (st1 & -> & H1 & I1 & B1 & T1 & N1 & P1 & L1). simpl.
  destruct (IH _ H1 I1 Hnd) as (st2 & -> & H2 & B2 & T2 & N2 & P2 & L2).
  { intros c Hc. destruct (Hex c ltac:(set_solver)) as (z & Hz & ?). exists z. simpl. rewrite B1.
    rewrite lookup_delete_ne; [done|]. by intros ->. }
  exists st2. split_and!; try done; try (simpl in *; congruence).
  - intros c z Hz. destruct (B2 c z Hz) as [Hc Hz']. simpl in Hz'. rewrite B1 in Hz'.
    apply lookup_delete_Some in Hz' as [? ?]. split; [set_solver|done].
  - intros o. rewrite L2, <- L1. by destruct o.
Qed.

Lemma buffers_of_spec st p b : b ∈ buffers_of st p <-> exists y, buffer_at st !! b = Some y /\ b_proc y = p.
Proof.
  unfold buffers_of. rewrite list_elem_of_fmap. split.
  - intros ([b' y] & -> & Hin). apply list_elem_of_filter in Hin as [E Hin]. apply elem_of_map_to_list in Hin. eauto.
  - intros (y & Hy & E). exists (b, y). split; [done|]. apply list_elem_of_filter. split; [done|]. by apply elem_of_map_to_list.
Qed.

Lemma buffers_of_nodup st p : NoDup (buffers_of st p).
Proof.
  unfold buffers_of. apply (NoDup_fmap_fst _).
  - intros x y1 y2 H1 H2. apply list_elem_of_filter in H1 as [_ H1], H2 as [_ H2].
    apply elem_of_map_to_list in H1, H2. congruence.
  - apply NoDup_filter, NoDup_map_to_list.
Qed.

(** ** The process *)

Lemma stay_proc y z : stay y = stay z -> th_proc y = th_proc z.
Proof. unfold stay. congruence. Qed.

(** Once the threads are gone, the nodes released and the list of the process
    drained nothing waits for its buffers. *)
Lemma drained_idle p st1 st2 : store (Some p) st2 -> drained st1 st2 -> work_list st2 (OnProc p) = Some [] ->
  (forall h y, thread_at st2 !! h = Some y -> th_proc y <> p) ->
  (forall t x a b y, trans_at st1 !! t = Some x -> t_on x = Some (OnNode a) -> t_buffer x = Some b ->
     buffer_at st1 !! b = Some y -> b_proc y = p -> exists n, node_at st1 !! a = Some n /\ n_proc n = None) ->
  idle_buffers p st2.
Proof.
  intros H [_ Db Dn _ Dt] Hl Hth Hd t x b y Hx Eb Hy Ep. destruct (t_on x) as [o|] eqn:Eo; [right|by left].
  pose proof (st_place _ _ H t x o b y Hx Eo Eb Hy) as Hp. destruct o as [g|q|a]; simpl in Hp.
  - destruct Hp as (z & Hz & E). destruct (Hth g z Hz). congruence.
  - destruct (st_on _ _ H t x _ Hx Eo) as (l & Hl' & Hin). assert (q = p) as -> by congruence. rewrite Hl in Hl'.
    simplify_eq. by apply not_elem_of_nil in Hin.
  - assert (Hx1 : trans_at st1 !! t = Some x) by (apply Dt; [done|congruence]).
    destruct (fmap_eq_lookup buffer_shape _ _ b y (eq_sym Db) Hy) as (y1 & Hy1 & E1).
    destruct (Hd t x a b y1 Hx1 Eo Eb Hy1) as (n & Hn & En); [unfold buffer_shape in E1; congruence|].
    destruct (fmap_eq_lookup bare_node _ _ a n Dn Hn) as (n' & Hn' & E2). exists a, n'. split_and!; [done|done|].
    unfold bare_node, set_async in E2. congruence.
Qed.

(** The process itself goes when nothing is left of it. *)
Lemma close_proc p st : store (Some p) st -> work_list st (OnProc p) = Some [] ->
  (forall h y, thread_at st !! h = Some y -> th_proc y <> p) ->
  (forall b y, buffer_at st !! b = Some y -> b_proc y <> p) ->
  (forall a n, node_at st !! a = Some n -> n_proc n <> Some p) ->
  store None (mk_binder (thread_at st) (trans_at st) (buffer_at st) (node_at st) (delete p (proc_at st))).
Proof.
  intros H Hl Hth Hb Hn.
  assert (H' : store None st).
  { apply (store_close p); [done| |].
    - intros b y a Hy _ Ep. by destruct (Hb b y Hy).
    - intros b b' y y' a Hy Hy' F1 F2 F3 F4 O1 O2. specialize (Hb b y Hy) as N1. specialize (Hb b' y' Hy') as N2.
      apply (st_out _ _ H b b' y y' a); try done; congruence. }
  assert (Hd : forall q, q <> p -> delete p (proc_at st) !! q = proc_at st !! q) by (intros; by apply lookup_delete_ne).
  apply (store_drop None st); simpl; try done.
  - intros [h|q|a] l; simpl; [done| |done]. rewrite lookup_delete. by case_decide.
  - intros t x [h|q|a] Hx Eo; simpl; [done| |done]. rewrite Hd; [done|]. intros ->.
    destruct (st_on _ _ H' t x _ Hx Eo) as (l & Hl' & Hin). rewrite Hl in Hl'. simplify_eq. by apply not_elem_of_nil in Hin.
  - intros h y Hy. rewrite Hd by eauto. by apply (st_tproc _ _ H' h).
  - intros a n q Hn' Eq. rewrite Hd; [by apply (st_nproc _ _ H' a n)|]. intros ->. by destruct (Hn a n).
  - intros b y Hy. rewrite Hd by eauto. by apply (st_bproc _ _ H' b).
Qed.

Lemma release_proc_inv st p threads referred : calls_inv None None None st -> is_Some (proc_at st !! p) -> NoDup threads ->
  (forall h, h ∈ threads <-> exists y, thread_at st !! h = Some y /\ th_proc y = p) ->
  exists st', binder_deferred_release st p threads referred = Some st' /\ calls_inv None None None st' /\
    (forall h y, thread_at st' !! h = Some y -> th_proc y <> p) /\
    (forall b y, buffer_at st' !! b = Some y -> b_proc y <> p) /\ proc_at st' !! p = None.
Proof.
  intros H Hp Hnd Hth. unfold binder_deferred_release.
  destruct (free_threads_inv None threads st H Hnd) as (st1 & -> & H1 & T1 & P1).
  { intros h Hh. apply Hth in Hh as (y & ? & _). eauto. }
  simpl. set (st2 := release_nodes st1 referred p).
  assert (H2 : calls_inv None None (Some p) st2) by (by apply dead_nodes_inv).
  assert (exists l, work_list st2 (OnProc p) = Some l) as [l Hl].
  { destruct Hp as [q Hq]. destruct (fmap_eq_lookup bare_proc _ _ p q P1 Hq) as (q' & Hq' & _). simpl. rewrite Hq'. by eexists. }
  destruct (drain_inv None (Some p) (OnProc p) st2 l ltac:(done) H2 Hl) as (st3 & -> & H3 & L3 & D3). simpl.
  assert (Hth3 : forall h y, thread_at st3 !! h = Some y -> th_proc y <> p).
  { intros h y Hy Ep. destruct (fmap_eq_lookup stay _ _ h y (eq_sym (dr_thread _ _ D3)) Hy) as (y2 & Hy2 & E2).
    destruct (T1 h y2 Hy2) as (Hn & z & Hz & E). apply Hn, Hth. exists z. split; [done|].
    apply stay_proc in E, E2. congruence. }
  assert (Hi : idle_buffers p st3).
  { apply (drained_idle p st2); [apply H3|done|done|done|]. intros t x a b y Hx Eo Eb Hy Ep.
    by apply (release_nodes_dead st1 referred p t x a b y (ci_store _ _ _ _ H1)). }
  destruct (release_buffers_inv p (buffers_of st3 p) st3 H3 Hi (buffers_of_nodup st3 p)) as (st4 & -> & H4 & B4 & T4 & N4 & P4 & W4).
  { intros b Hb. by apply buffers_of_spec. }
  simpl. eexists. split; [done|]. simpl. rewrite T4.
  assert (Hb4 : forall b y, buffer_at st4 !! b = Some y -> b_proc y <> p).
  { intros b y Hy Ep. destruct (B4 b y Hy) as [Hn Hy3]. apply Hn, buffers_of_spec. eauto. }
  split_and!; [|done|done|by rewrite lookup_delete_eq].
  rewrite <- T4. destruct H4 as [[C Hc] Ht Hs]. split; [by exists C|done|].
  apply close_proc; [done|by rewrite W4|by rewrite T4|done|]. rewrite N4. intros a n Hn.
  destruct (fmap_eq_lookup bare_node _ _ a n (eq_sym (dr_node _ _ D3)) Hn) as (n2 & Hn2 & E2).
  unfold st2, release_nodes in Hn2. rewrite change_nodes_node in Hn2.
  apply bind_Some in Hn2 as (m & _ & E). apply release_node_spec in E as (_ & _ & E). unfold bare_node, set_async in E2. congruence.
Qed.


End BinderCallsEnd.
