(* ===== verification/BinderCallsSend.v ===== *)
(** Sending, reading and freeing in BinderThreads.v keep the invariant of
    BinderCallsInv.v. *)

From S2P Require Import Prelude BinderThreads BinderStacks BinderCallsInv BinderCallsSafe.
Local Open Scope Z_scope.
Local Open Scope kernel_scope.

Module BinderCallsSend.
Import BinderThreads BinderStacks BinderCallsInv BinderCallsSafe.

(** ** Changes of one thread *)

Lemma inv_thread L K D st h y y' : calls_inv L K D st -> thread_at st !! h = Some y ->
  transaction_stack y' = transaction_stack y -> th_todo y' = th_todo y -> th_proc y' = th_proc y ->
  (K <> Some h -> thread_ok (trans_at st) h y') -> calls_inv L K D (put_thread st h y').
Proof.
  intros [[C Hc] Ht Hs] Hy E1 E2 E3 Ok. split.
  - exists C. by rewrite (stacks_put_same K st h y y').
  - intros g z Hz HK. simpl in Hz. apply lookup_insert_Some in Hz as [[<- <-]|[_ Hz]]; [by apply Ok|by apply Ht].
  - by apply (store_thread D st h y).
Qed.

Lemma inv_proc L K D st p q q' : calls_inv L K D st -> proc_at st !! p = Some q -> p_todo q' = p_todo q ->
  calls_inv L K D (put_proc st p q').
Proof. intros [Hc Ht Hs] Hq E. split; [done|done|]. by apply (store_proc D st p q). Qed.

Lemma thread_ok_fields m h y y' : thread_ok m h y -> transaction_stack y' = transaction_stack y ->
  return_error y' = return_error y -> return_error2 y' = return_error2 y ->
  (for_proc (reading y') = true -> for_proc (reading y) = true) -> thread_ok m h y'.
Proof. intros [H1 H2 H3] E1 E2 E3 E4. split; rewrite ?E1, ?E2, ?E3; auto. Qed.

(** ** A transaction that fails *)

Lemma transaction_failed_none st h y e : calls_inv None None None st -> thread_at st !! h = Some y ->
  return_error y = BR_OK -> reading y = Outside -> e <> BR_OK ->
  exists st', transaction_failed st h None e = Some st' /\ calls_inv None None None st'.
Proof.
  intros H Hy He Hr Hne. unfold transaction_failed. rewrite Hy. simpl. rewrite He, Z.eqb_refl. simpl.
  eexists. split; [done|]. apply (inv_thread _ _ _ _ _ y); try done. intros HK.
  destruct (ci_threads _ _ _ _ H h y Hy HK) as [H1 H2 H3]. by split.
Qed.

Lemma transaction_failed_reply st h y t x e : calls_inv (Some t) None None st -> thread_at st !! h = Some y ->
  return_error y = BR_OK -> trans_at st !! t = Some x -> need_reply x = true -> t_on x = None -> e <> BR_OK ->
  exists st', transaction_failed st h (Some t) e = Some st' /\ calls_inv None None None st'.
Proof.
  intros H Hy He Hx Hr Ho Hne. unfold transaction_failed. rewrite Hy. simpl. rewrite He, Z.eqb_refl. simpl.
  set (st1 := put_thread st h (set_errors y BR_TRANSACTION_COMPLETE (return_error2 y))).
  assert (H1 : calls_inv (Some t) None None st1).
  { apply (inv_thread _ _ _ _ _ y); try done. intros HK. destruct (ci_threads _ _ _ _ H h y Hy HK) as [I1 I2 I3]. by split. }
  destruct (send_failed_reply_inv None None e st1 t x Hne H1) as (st2 & E & ? & _ & _); try done. eauto.
Qed.

(** ** Adding an item to a list *)

(** What is not a call is added without the chains noticing. *)
Lemma add_inv L K D st o w l : calls_inv L K D st -> work_list st o = Some l ->
  (forall t, w = WorkTransaction t -> exists x b y, trans_at st !! t = Some x /\ t_on x = None /\ need_reply x = false /\
     t_buffer x = Some b /\ buffer_at st !! b = Some y /\ allow_user_free y = false /\ placed st o y) ->
  exists st', list_add_tail st w o = Some st' /\ calls_inv L K D st' /\ lists_only st st' /\
    trans_at st' = requeued w (Some o) (trans_at st) /\
    (forall o', work_list st' o' = if decide (o' = o) then Some (l ++ [w]) else work_list st o').
Proof.
  intros [[C Hc] Ht Hs] Hl Hw. destruct (add_store D st o w l Hs Hl) as (st' & E & Hlo & Et & El & Hs').
  { intros t Et. destruct (Hw t Et) as (x & b & y & ? & ? & ? & ? & ? & ? & ?). exists x, b, y. split_and!; try done. congruence. }
  exists st'. split_and!; try done. split; [|by apply (threads_ok_lists K st); [..|intros t x; rewrite Et; apply requeued_from]|done].
  exists C. rewrite (lists_only_stacks K _ _ Hlo), Et.
  assert (calls L K (requeued w (Some o) (trans_at st)) = calls L K (trans_at st)) as ->; [|done].
  destruct w as [t| |]; [|done..]. destruct (Hw t eq_refl) as (x & b & y & Hx & _ & Hr & _).
  apply map_eq. intros u. rewrite !calls_lookup. simpl. destruct (decide (t = u)) as [<-|?].
  - rewrite lookup_alter_eq, Hx. simpl. unfold view. simpl. by rewrite Hr.
  - by rewrite lookup_alter_ne.
Qed.

Lemma add_complete L K D st h y : calls_inv L K D st -> thread_at st !! h = Some y ->
  exists st', list_add_tail st WorkComplete (OnThread h) = Some st' /\ calls_inv L K D st' /\ lists_only st st' /\
    trans_at st' = trans_at st.
Proof.
  intros H Hy. destruct (add_inv L K D st (OnThread h) WorkComplete (th_todo y) H) as (st' & ? & ? & ? & ? & _);
    [simpl; by rewrite Hy|done|]. eauto.
Qed.

(** A new transaction that is no call. *)
Lemma new_plain_inv L K D st p t b x y : calls_inv L K D st -> trans_at st !! t = None -> buffer_at st !! b = None ->
  is_Some (proc_at st !! p) -> t_on x = None -> t_buffer x = Some b -> b_transaction y = Some t -> b_proc y = p ->
  allow_user_free y = false -> (async_transaction y = true -> is_Some (target_node y)) ->
  need_reply x = false -> from x = None -> bool_decide (is_Some (target_node y)) && negb (one_way (t_flags x)) = false ->
  (D = Some p \/ (async_transaction y = false /\ forall a, target_node y = Some a ->
     exists n, node_at st !! a = Some n /\ n_proc n = Some p)) ->
  calls_inv L K D (put_buffer (put_trans st t x) b y).
Proof.
  intros [[C Hc] Ht Hs] Ht0 Hb0 Hp E1 E2 E3 E4 E5 E6 E7 E8 E9 E10. split.
  - exists C. change (stacks K _) with (stacks K st). simpl. rewrite calls_insert. unfold view. rewrite E7.
    rewrite delete_id; [done|]. by rewrite calls_lookup, Ht0.
  - intros h z Hz HK. apply (thread_ok_from (trans_at st)); [|by apply Ht].
    intros u w Hw Hf. simpl in Hw. apply lookup_insert_Some in Hw as [[<- <-]|[? Hw]]; [congruence|eauto].
  - apply (new_store D st p); try done; [congruence|]. intros h Ef. congruence.
Qed.

(** ** Replying *)

(** A thread that works on the call on top of its stack. *)
Section Serving.
Variables (st : binder) (h : Z) (y : binder_thread) (t : Z) (x : transaction).
Hypothesis H : calls_inv None None None st.
Hypothesis Hy : thread_at st !! h = Some y.
Hypothesis Hs : transaction_stack y = Some t.
Hypothesis Hx : trans_at st !! t = Some x.
Hypothesis Hto : to_thread x = Some h.
#[local] Abbreviation V := (calls None None (trans_at st)).

Lemma serving_call : need_reply x = true /\ t_on x = None /\ from x <> Some h /\ V !! t = Some (mk_call (from x) (from_parent x) (Some (Some h)) (to_parent x) None).
Proof using H Hy Hs Hx Hto.
  destruct H as [[C Hc] _ Hst].
  assert (HS : stacks None st !! h = Some (Some t)) by (by rewrite stacks_lookup, Hy, <- Hs).
  destruct (thread_chain _ _ _ _ _ Hc HS) as (c & C' & _ & Et & _).
  destruct (top_call None st h H c t (eq_sym Et)) as (z & Hz & Hr & E). simplify_eq.
  pose proof (proj2 E Hto) as Ec. unfold callee in Ec. rewrite calls_lookup, Hx in *. simpl in *. unfold view in *.
  rewrite Hr in *. simpl in *. destruct (t_on x) eqn:Eo; [done|]. simpl in *. rewrite Hto. split_and!; try done.
  intros Ef. by destruct (st_self _ _ Hst t x h Hx Hr Ef).
Qed.

(** When it replies it goes back to what it waited for before. *)
Lemma answer_inv : return_error y = BR_OK -> reading y = Outside ->
  calls_inv (Some t) None None (put_thread st h (set_stack y (to_parent x))).
Proof using H Hy Hs Hx Hto.
  intros He Hr. destruct serving_call as (_ & _ & _ & Hv). destruct H as [[C Hc] Ht Hst].
  assert (HS : stacks None st !! h = Some (Some t)) by (by rewrite stacks_lookup, Hy, <- Hs).
  assert (Ec : callee V t = Some h) by (unfold callee; by rewrite Hv).
  destruct (served_chain _ _ _ _ _ Hc HS Ec) as (c & C' & P). pose proof (chains_perm _ _ _ _ P Hc) as Hc'.
  split.
  - exists (with_chain (t :: c) C'). rewrite stacks_put by done. simpl. rewrite (calls_loose None _ t _ Hv).
    exact (answer_chains _ _ _ _ _ _ Hc' Hv h eq_refl).
  - intros g z Hz _. simpl in Hz. apply lookup_insert_Some in Hz as [[<- <-]|[_ Hz]]; [|by apply Ht].
    destruct (Ht h y Hy ltac:(done)) as [I1 I2 I3]. split; simpl; [done| |by rewrite Hr].
    intros. destruct (decide (return_error2 y = BR_OK)) as [|N]; [done|]. by destruct (I1 N).
  - by apply (store_thread None st h y).
Qed.

(** The thread that waits for the reply has the call on top of its stack. *)
Lemma answer_target g : from x = Some g -> exists z, thread_at st !! g = Some z /\ transaction_stack z = Some t /\ g <> h.
Proof using H Hy Hs Hx Hto.
  intros Ef. destruct serving_call as (_ & _ & Hne & Hv). destruct H as [[C Hc] Ht Hst].
  assert (HS : stacks None st !! h = Some (Some t)) by (by rewrite stacks_lookup, Hy, <- Hs).
  assert (Ec : callee V t = Some h) by (unfold callee; by rewrite Hv).
  destruct (served_chain _ _ _ _ _ Hc HS Ec) as (c & C' & P). pose proof (chains_perm _ _ _ _ P Hc) as Hc'.
  destruct (moves_part _ _ _ _ _ _ Hc' Hv g) as [_ Hg]; [by left|].
  destruct (stacks_some _ _ _ _ Hg) as (_ & z & Hz & Es). exists z. split_and!; [done|done|]. by intros ->.
Qed.

End Serving.

(** The call is over, the reply follows. *)
Lemma pop_inv D st t x g z : calls_inv (Some t) None D st -> trans_at st !! t = Some x -> need_reply x = true ->
  t_on x = None -> from x = Some g -> thread_at st !! g = Some z ->
  exists st', binder_pop_transaction st (Some g) t = Some st' /\ calls_inv None None D st' /\ quiet st st' /\
    trans_at st' = delete t (trans_at st) /\ thread_at st' = <[g := set_stack z (from_parent x)]> (thread_at st).
Proof.
  intros [[C Hc] Ht Hs] Hx Hr Ho Hf Hz.
  assert (Hv : exists v, calls (Some t) None (trans_at st) !! t = Some v /\ c_to v = None).
  { rewrite calls_lookup, Hx. simpl. unfold view. rewrite Hr, bool_decide_true by done. eauto. }
  destruct Hv as (v & Hv & Ev). destruct (untaken_chain _ _ _ _ _ Hc Hv Ev) as (c & C' & P).
  pose proof (chains_perm _ _ _ _ P Hc) as Hc'.
  destruct (loose_call None st t c C' x Hc' Hx) as (v' & Hv' & Ef & Ep & _).
  assert (v' = v) as -> by congruence. rewrite Hf in Ef.
  destruct (waiting_thread None st t c C' x g Hc' Ht Hx Hf) as (_ & z' & Hz' & Es & E2 & Ok).
  assert (z' = z) as -> by congruence.
  destruct (pop_alive D st t x g z Hs Hx Ho Hz Es Hf) as (st' & E & Hs' & Q & T & P').
  exists st'. split_and!; try done. split; [|..|done].
  - exists (with_chain c C'). replace (stacks None st') with (stacks None (put_thread st g (set_stack z (from_parent x))))
      by (unfold stacks; by rewrite P').
    rewrite stacks_put by done. simpl. rewrite T, calls_delete_loose.
    pose proof (pop_chains _ _ _ _ _ _ Hc' Hv' g Ev Ef) as P2. by rewrite Ep in P2.
  - intros k w Hw _. rewrite P' in Hw. rewrite T. apply lookup_insert_Some in Hw as [[<- <-]|[? Hw]].
    + destruct Ok as [I1 I2 I3]. split; simpl; [done| |].
      * intros u q Eu [_ Hq]%lookup_delete_Some Eq. by destruct (not_waiting None st t c C' x g Hc' Hx Hf u q Eu Hq).
      * intros Hr'. specialize (I3 Hr'). congruence.
    + apply (thread_ok_sub (trans_at st)); [|by apply Ht]. intros u q [_ Hq]%lookup_delete_Some. eauto.
Qed.

(** What sending is given is new, and errors are errors. *)
Record resources_ok (st : binder) (r : resources) : Prop := {
  ro_t t : new_t r = Some t -> trans_at st !! t = None;
  ro_b b : new_buffer r = Some b -> buffer_at st !! b = None;
  ro_error e : translated r = Some e -> e <> BR_OK
}.

Lemma failed_not_ok : BR_FAILED_REPLY <> BR_OK.
Proof. done. Qed.

Lemma dead_not_ok : BR_DEAD_REPLY <> BR_OK.
Proof. done. Qed.

#[export] Hint Resolve failed_not_ok dead_not_ok : kernel.

(** Once the reply is in its buffer the call ends and the reply is queued. *)
Lemma reply_send_inv st h y t x g z u b flags : calls_inv (Some t) None None st -> thread_at st !! h = Some y ->
  trans_at st !! t = Some x -> need_reply x = true -> t_on x = None -> from x = Some g -> thread_at st !! g = Some z -> g <> h ->
  trans_at st !! u = None -> buffer_at st !! b = None ->
  exists st', transaction_send
    (put_buffer (put_trans st u (mk_transaction None None None (Some (th_proc z)) (Some g) None false (Some b) flags)) b
      (mk_buffer (th_proc z) (Some u) None false false)) h true u (th_proc z) (Some g) None (Some t) = Some st' /\
    calls_inv None None None st'.
Proof.
  intros H Hy Hx Hr Ho Hf Hz Hgh Hu Hb. assert (Hut : u <> t) by (intros ->; congruence).
  set (xr := mk_transaction _ _ _ _ _ _ _ _ _). set (yb := mk_buffer _ _ _ _ _).
  set (st1 := put_buffer (put_trans st u xr) b yb).
  assert (H1 : calls_inv (Some t) None None st1).
  { apply (new_plain_inv _ _ _ _ (th_proc z)); try done; [|by right].
    by apply (st_tproc _ _ (ci_store _ _ _ _ H) g). }
  assert (Hu1 : trans_at st1 !! u = Some xr) by (simpl; by rewrite lookup_insert_eq).
  assert (Hb1 : buffer_at st1 !! b = Some yb) by (simpl; by rewrite lookup_insert_eq).
  destruct (pop_inv None st1 t x g z H1) as (st2 & E2 & H2 & Q2 & T2 & P2); try done.
  { simpl. by rewrite lookup_insert_ne. }
  unfold transaction_send. rewrite Hu1. simpl. rewrite lookup_insert_eq. simpl. fold st1. rewrite E2. simpl.
  destruct (fmap_eq_lookup buffer_shape _ _ b yb (qu_buffer _ _ Q2) Hb1) as (yb' & Hb2 & Eb).
  destruct (add_inv None None None st2 (OnThread g) (WorkTransaction u) (th_todo z) H2) as (st3 & -> & H3 & L3 & _ & _).
  { simpl. rewrite P2. by rewrite lookup_insert_eq. }
  { intros u' [= <-]. exists xr, b, yb'. rewrite T2, lookup_delete_ne by done.
    unfold buffer_shape in Eb. simpl in Eb. injection Eb as B1 B2 B3 B4. split_and!; try done. simpl. rewrite P2, lookup_insert_eq. eexists. by split. }
  simpl. assert (Hy2 : thread_at st2 !! h = Some y) by (by rewrite P2, lookup_insert_ne).
  destruct (lists_only_thread _ _ h y L3 Hy2) as [l Hl].
  destruct (add_complete None None None st3 h _ H3 Hl) as (st4 & E4 & H4 & _). eauto.
Qed.

Lemma reply_inv st h y tgt flags r : calls_inv None None None st -> thread_at st !! h = Some y ->
  return_error y = BR_OK -> reading y = Outside -> resources_ok st r ->
  exists st', binder_transaction st h true tgt flags r = Some st' /\ calls_inv None None None st'.
Proof.
  intros H Hy He Hrd [R1 R2 R3]. unfold binder_transaction, route_reply. rewrite Hy. simpl.
  destruct (transaction_stack y) as [t|] eqn:Hs; simpl; [|by apply (transaction_failed_none st h y); auto with kernel].
  assert (exists x, trans_at st !! t = Some x) as [x Hx].
  { destruct H as [[C Hc] _ _]. assert (HS : stacks None st !! h = Some (Some t)) by (by rewrite stacks_lookup, Hy, <- Hs).
    destruct (thread_chain _ _ _ _ _ Hc HS) as (c & C' & _ & Et & _).
    destruct (top_part _ _ _ _ (eq_sym Et)) as [_ P]. unfold part, caller, callee in P.
    destruct (calls None None (trans_at st) !! t) as [v|] eqn:Hv; [|by destruct P].
    destruct (calls_some _ _ _ _ _ Hv) as (x & ? & _). eauto. }
  rewrite Hx. simpl. case_bool_decide as Hto; simpl; [|by apply (transaction_failed_none st h y); auto with kernel].
  pose proof (answer_inv st h y t x H Hy Hs Hx Hto He Hrd) as H1.
  destruct (serving_call st h y t x H Hy Hs Hx Hto) as (Hr & Ho & Hne & _).
  set (st1 := put_thread st h (set_stack y (to_parent x))) in *.
  assert (Hy1 : thread_at st1 !! h = Some (set_stack y (to_parent x))) by (simpl; by rewrite lookup_insert_eq).
  assert (Hfail : forall e, e <> BR_OK -> exists st', transaction_failed st1 h (Some t) e = Some st' /\ calls_inv None None None st').
  { intros e Hne'. by apply (transaction_failed_reply st1 h _ t x e H1 Hy1). }
  destruct (from x) as [g|] eqn:Hf; simpl; [|by apply Hfail; auto with kernel].
  destruct (answer_target st h y t x H Hy Hs Hx Hto g Hf) as (z & Hz & Es & Hgh).
  rewrite lookup_insert_ne, Hz by done. simpl. rewrite bool_decide_true by done. simpl. unfold transaction_body.
  destruct (new_t r) as [u|] eqn:Eu; [|by apply Hfail; auto with kernel].
  destruct (new_complete r); [|by apply Hfail; auto with kernel].
  destruct (new_buffer r) as [b|] eqn:Eb; [|by apply Hfail; auto with kernel].
  destruct (translated r) as [e|] eqn:Ee; [by apply Hfail; auto|]. simpl.
  apply (reply_send_inv st1 h (set_stack y (to_parent x)) t x g z u b flags); try done; auto.
  simpl. by rewrite lookup_insert_ne.
Qed.

(** ** Calling *)

Lemma find_target_spec st p : forall c fuel acc, chain (calls None None (trans_at st)) c ->
  (forall h, mentions (calls None None (trans_at st)) h c -> is_Some (thread_at st !! h)) -> (length c <= fuel)%nat ->
  exists r, find_target fuel st (head c) p acc = Some r /\
    (r = acc \/ exists g z, r = Some g /\ mentions (calls None None (trans_at st)) g c /\ thread_at st !! g = Some z /\ th_proc z = p).
Proof.
  induction c as [|t c IH]; intros fuel acc Hc Ha Hlen; [exists acc; split; [by destruct fuel|by left]|].
  simpl in Hc, Hlen. destruct Hc as [(v & Hv & Lp & _) Hc]. destruct fuel as [|fuel]; [lia|]. simpl.
  destruct (calls_at _ _ _ _ _ Hv) as (x & Hx & Hr & Ev). rewrite Hx. simpl.
  assert (Ep : from_parent x = head c) by (unfold view in Ev; rewrite Hr in Ev; by simplify_eq/=).
  assert (Ha' : forall h, mentions (calls None None (trans_at st)) h c -> is_Some (thread_at st !! h)).
  { intros h M. apply Ha, mentions_cons. by right. }
  rewrite Ep. destruct (from x) as [g|] eqn:Ef; simpl.
  - assert (P : part (calls None None (trans_at st)) g t) by (apply (call_part None None _ g t x); auto).
    destruct (Ha g) as [z Hz]; [apply mentions_cons; by left|]. rewrite Hz. simpl.
    destruct (IH fuel (if th_proc z =? p then Some g else acc) Hc Ha' ltac:(lia)) as (r & -> & [->|(g' & z' & -> & M & ? & ?)]).
    + eexists. split; [done|]. destruct (th_proc z =? p) eqn:Ez; [right|by left]. exists g, z.
      split_and!; [done|apply mentions_cons; by left|done|by apply Z.eqb_eq].
    + eexists. split; [done|]. right. exists g', z'. split_and!; try done. apply mentions_cons. by right.
  - destruct (IH fuel acc Hc Ha' ltac:(lia)) as (r & -> & [->|(g' & z' & -> & M & ? & ?)]).
    + eexists. split; [done|]. by left.
    + eexists. split; [done|]. right. exists g', z'. split_and!; try done. apply mentions_cons. by right.
Qed.

(** A call is linked into the stack of its sender and queued. *)
Section SendCall.
Variables (st : binder) (h : Z) (y : binder_thread) (a : Z) (n : binder_node) (p : Z) (tt : option Z) (t b : Z) (flags : Z).
Hypothesis H : calls_inv None None None st.
Hypothesis Hy : thread_at st !! h = Some y.
Hypothesis He : return_error y = BR_OK.
Hypothesis Hrd : reading y = Outside.
Hypothesis Hn : node_at st !! a = Some n.
Hypothesis Hp : n_proc n = Some p.
Hypothesis Ht : trans_at st !! t = None.
Hypothesis Hb : buffer_at st !! b = None.
Hypothesis Hflags : one_way flags = false.
#[local] Abbreviation V := (calls None None (trans_at st)).
Hypothesis Hserve : forall u, transaction_stack y = Some u -> callee V u = Some h.
Hypothesis Hself : tt <> Some h.
Hypothesis Htt : forall g, tt = Some g -> is_Some (transaction_stack y) /\ (exists z, thread_at st !! g = Some z /\ th_proc z = p) /\
  forall c C, chains V (stacks None st) C -> c ∈ C -> head c = transaction_stack y -> mentions V g c.

Definition call_trans (on : option place) : transaction :=
  mk_transaction on (Some h) (transaction_stack y) (Some p) tt None true (Some b) flags.

Definition call_store : binder :=
  put_thread (put_buffer (put_trans st t (call_trans None)) b (mk_buffer p (Some t) (Some a) false false))
    h (set_stack y (Some t)).

Lemma call_store_ok : store None call_store.
Proof using H Hy Hn Hp Ht Hb Hflags Hself.
  apply (store_thread None _ h y); [|done..]. apply (new_store None st p); try done.
  - apply H.
  - by apply (st_nproc _ _ (ci_store _ _ _ _ H) a n).
  - simpl. by rewrite Hflags.
  - intros g Eg. simpl in Eg. split; [done|]. injection Eg as <-. exact Hself.
  - right. split; [done|]. intros a' [= <-]. eauto.
Qed.

Lemma call_threads_ok m : m = <[t := call_trans None]> (trans_at st) \/
    (exists on, m = <[t := call_trans on]> (trans_at st)) ->
  forall g z, thread_at call_store !! g = Some z -> thread_ok m g z.
Proof using H Hy He Hrd.
  intros Hm g z Hz. assert (exists on, m = <[t := call_trans on]> (trans_at st)) as [on ->] by (destruct Hm; eauto).
  simpl in Hz. apply lookup_insert_Some in Hz as [[<- <-]|[Hne Hz]].
  - destruct (ci_threads _ _ _ _ H h y Hy ltac:(done)) as [I1 I2 I3]. split; simpl; [done| |by rewrite Hrd].
    intros. destruct (decide (return_error2 y = BR_OK)) as [|N]; [done|]. by destruct (I1 N).
  - apply (thread_ok_from (trans_at st)); [|by apply (ci_threads _ _ _ _ H)].
    intros u x [[<- <-]|[_ Hx]]%lookup_insert_Some Hf; [|eauto]. simpl in Hf. congruence.
Qed.

Lemma call_queue_inv : exists st', list_add_tail call_store (WorkTransaction t)
    (match tt with Some g => OnThread g | None => OnProc p end) = Some st' /\
  calls_inv None None None st' /\ (exists l, thread_at st' !! h = Some (set_todo (set_stack y (Some t)) l)).
Proof using H Hy He Hrd Hn Hp Ht Hb Hflags Hserve Hself Htt.
  set (o := match tt with Some g => OnThread g | None => OnProc p end).
  assert (exists l, work_list call_store o = Some l) as [l Hl].
  { unfold o. destruct tt as [g|]; simpl.
    - destruct (Htt g eq_refl) as (_ & (z & Hz & _) & _). rewrite lookup_insert_ne, Hz by congruence. by eexists.
    - destruct (st_nproc _ _ (ci_store _ _ _ _ H) a n p Hn Hp) as [q Hq]. rewrite Hq. by eexists. }
  destruct (add_store None call_store o (WorkTransaction t) l call_store_ok Hl) as (st' & E & Hlo & Et & _ & Hs').
  { intros t' [= <-]. exists (call_trans None), b, (mk_buffer p (Some t) (Some a) false false). simpl.
    rewrite !lookup_insert_eq. split_and!; try done.
    - intros _. unfold o. destruct tt as [g|]; (split; [done|]); intros g'; by intros [= <-].
    - unfold o. destruct tt as [g|] eqn:Eg; simpl; [|done]. destruct (Htt g eq_refl) as (_ & (z & Hz & Ez) & _).
      exists z. rewrite lookup_insert_ne by congruence. done. }
  simpl in Et. rewrite (alter_alt_Some _ _ _ (call_trans None)), insert_insert_eq in Et by (by rewrite lookup_insert_eq).
  exists st'. split_and!; [done| |].
  - split; [|..|done].
    + destruct H as [[C Hc] _ _]. rewrite (lists_only_stacks None _ _ Hlo), Et, calls_insert.
      replace (stacks None call_store) with (<[h := Some t]> (stacks None st)) by (unfold call_store; by rewrite stacks_put).
      assert (view None None t (set_on (call_trans None) (Some o)) = Some (mk_call (Some h) (transaction_stack y) None None tt)) as ->.
      { unfold view. simpl. unfold o. by destruct tt. }
      apply (send_chains V (stacks None st) C h (transaction_stack y) t tt); try done.
      * by rewrite calls_lookup, Ht.
      * by rewrite stacks_lookup, Hy.
      * intros g c Eg Hin Hh. destruct (Htt g Eg) as (_ & _ & Hm). by apply (Hm c C).
      * intros Es. destruct tt as [g|]; [|done]. destruct (Htt g eq_refl) as ([u Hu] & _). congruence.
    + apply (threads_ok_lists None call_store); [|done|].
      * intros g z Hz _. apply call_threads_ok; [by left|done].
      * intros u x. rewrite Et. intros [[<- <-]|[Hne Hx]]%lookup_insert_Some.
        -- exists (call_trans None). simpl. by rewrite lookup_insert_eq.
        -- exists x. simpl. by rewrite lookup_insert_ne.
  - apply (lists_only_thread call_store); [done|]. simpl. by rewrite lookup_insert_eq.
Qed.

Lemma call_send_inv : exists st', transaction_send
    (put_buffer (put_trans st t (mk_transaction None (Some h) None (Some p) tt None false (Some b) flags)) b
      (mk_buffer p (Some t) (Some a) false false)) h false t p tt (Some a) None = Some st' /\
  calls_inv None None None st'.
Proof using H Hy He Hrd Hn Hp Ht Hb Hflags Hserve Hself Htt.
  set (x0 := mk_transaction _ _ _ _ _ _ _ _ _). set (y0 := mk_buffer _ _ _ _ _).
  set (st0 := put_buffer (put_trans st t x0) b y0).
  assert (E0 : put_thread (put_trans st0 t (set_call x0 (transaction_stack y))) h (set_stack y (Some t)) = call_store).
  { unfold call_store, put_thread, st0, put_buffer, put_trans. simpl. by rewrite insert_insert_eq. }
  assert (Hx0 : trans_at st0 !! t = Some x0) by (simpl; by rewrite lookup_insert_eq).
  assert (Hy0 : buffer_at st0 !! b = Some y0) by (simpl; by rewrite lookup_insert_eq).
  unfold transaction_send. rewrite Hx0. cbn [mbind option_bind t_buffer x0]. rewrite Hy0. simpl mbind.
  cbn [t_flags x0]. rewrite Hflags. cbn [negb async_transaction y0 BUG_ON mbind option_bind].
  change (thread_at st0) with (thread_at st). rewrite Hy. cbn [mbind option_bind]. rewrite E0.
  destruct call_queue_inv as (st1 & E & H1 & l & Hl). rewrite E. simpl.
  destruct (add_complete None None None st1 h _ H1 Hl) as (st2 & E2 & H2 & _). eauto.
Qed.

End SendCall.

(** An asynchronous transaction is queued on its node when another is under
    way. *)
Section SendOneWay.
Variables (st : binder) (h : Z) (y : binder_thread) (a : Z) (n : binder_node) (p t b flags : Z).
Hypothesis H : calls_inv None None None st.
Hypothesis Hy : thread_at st !! h = Some y.
Hypothesis Hn : node_at st !! a = Some n.
Hypothesis Hp : n_proc n = Some p.
Hypothesis Ht : trans_at st !! t = None.
Hypothesis Hb : buffer_at st !! b = None.
Hypothesis Hflags : one_way flags = true.
#[local] Abbreviation x0 := (mk_transaction None None None (Some p) None None false (Some b) flags).
#[local] Abbreviation y0 := (mk_buffer p (Some t) (Some a) true false).

Lemma close_one_way st2 o : store (Some p) st2 -> buffer_at st2 = <[b := y0]> (buffer_at st) ->
  trans_at st2 = <[t := set_on x0 (Some o)]> (trans_at st) ->
  (forall a' m, node_at st !! a' = Some m -> exists m', node_at st2 !! a' = Some m' /\ n_proc m' = n_proc m /\
     (has_async_transaction m = true \/ a' = a -> has_async_transaction m' = true)) ->
  (o = OnNode a \/ has_async_transaction n = false) -> store None st2.
Proof using H Hn Hp Ht Hb.
  intros H2 Eb Et Hm Ho. pose proof (ci_store _ _ _ _ H) as Hs.
  assert (Hold : forall c z, <[b := y0]> (buffer_at st) !! c = Some z -> (c = b /\ z = y0) \/ (c <> b /\ buffer_at st !! c = Some z))
    by (intros c z [[<- <-]|[? ?]]%lookup_insert_Some; auto).
  assert (Hout : forall c z a', buffer_at st !! c = Some z -> outside st2 a' z -> outside st a' z).
  { intros c z a' Hz O u x Hu Hx. apply (O u x Hu). rewrite Et, lookup_insert_ne; [done|]. congruence. }
  assert (Hnew : forall c z, buffer_at st !! c = Some z -> async_transaction z = true -> target_node z = Some a ->
    outside st2 a y0 -> False).
  { intros c z Hz Fa Ft O. destruct Ho as [->|Hf].
    - apply (O t (set_on x0 (Some (OnNode a)))); [done|by rewrite Et, lookup_insert_eq|done].
    - destruct (st_node _ _ Hs c z a Hz Ft) as (m & Hm' & _ & E); [done|]. specialize (E Fa). congruence. }
  apply (store_close p); [done|..].
  - rewrite Eb. intros c z a' [[-> ->]|[_ Hz]]%Hold Ea Ep.
    + injection Ea as <-. destruct (Hm a n Hn) as (m & ? & E1 & E2). exists m. split_and!; [done|simpl; congruence|auto].
    + destruct (st_node _ _ Hs c z a' Hz Ea) as (m & Hm' & E1 & E2); [done|]. destruct (Hm a' m Hm') as (m' & ? & ? & E3).
      exists m'. split_and!; [done|congruence|auto].
  - rewrite Eb. intros c c' z z' a' [[-> ->]|[_ Hz]]%Hold [[-> ->]|[_ Hz']]%Hold F1 F2 F3 F4 O1 O2.
    + done.
    + injection F3 as <-. by destruct (Hnew c' z').
    + injection F4 as <-. by destruct (Hnew c z).
    + apply (st_out _ _ Hs c c' z z' a'); eauto.
Qed.

Lemma one_way_queue st1 (o : place) l : calls_inv None None (Some p) st1 -> thread_at st1 = thread_at st ->
  trans_at st1 = <[t := x0]> (trans_at st) -> buffer_at st1 = <[b := y0]> (buffer_at st) ->
  (forall a' m, node_at st !! a' = Some m -> exists m', node_at st1 !! a' = Some m' /\ n_proc m' = n_proc m /\
     (has_async_transaction m = true \/ a' = a -> has_async_transaction m' = true)) ->
  work_list st1 o = Some l -> placed st1 o y0 -> (o = OnNode a \/ has_async_transaction n = false) ->
  exists st', (st ← list_add_tail st1 (WorkTransaction t) o; list_add_tail st WorkComplete (OnThread h)) = Some st' /\
    calls_inv None None None st'.
Proof using H Hy Hn Hp Ht Hb.
  intros H1 Eth Et Eb Hm Hl Hpl Ho.
  destruct (add_inv None None (Some p) st1 o (WorkTransaction t) l H1 Hl) as (st2 & -> & H2 & L2 & T2 & _).
  { intros t' [= <-]. exists x0, b, y0. rewrite Et, Eb, !lookup_insert_eq. by split_and!. }
  simpl. rewrite <- Eth in Hy. destruct (lists_only_thread _ _ h y L2 Hy) as [k Hk].
  destruct (add_complete None None (Some p) st2 h _ H2 Hk) as (st3 & E3 & [Hc Hth Hs] & L3 & T3).
  exists st3. split; [done|]. split; [done|done|]. apply (close_one_way st3 o); try done.
  - by rewrite (lo_buffer _ _ L3), (lo_buffer _ _ L2).
  - rewrite T3, T2, Et. simpl. rewrite (alter_alt_Some _ _ _ x0) by (by rewrite lookup_insert_eq). by rewrite insert_insert_eq.
  - intros a' m Hm'. destruct (Hm a' m Hm') as (m1 & Hm1 & E1 & F1).
    destruct (lists_only_node _ _ a' m1 (lists_only_trans _ _ _ L2 L3) Hm1) as (m3 & ? & E2 & F2).
    exists m3. rewrite E2, F2. done.
Qed.

Lemma one_way_send_inv : exists st', transaction_send (put_buffer (put_trans st t x0) b y0) h false t p None (Some a) None = Some st' /\
  calls_inv None None None st'.
Proof using H Hy Hn Hp Ht Hb Hflags.
  set (st0 := put_buffer (put_trans st t x0) b y0).
  assert (H0 : calls_inv None None (Some p) st0).
  { apply (new_plain_inv _ _ _ _ p); try done; [| |by simpl; rewrite Hflags|by left].
    - destruct H as [Hc Hth Hs]. split; [done|done|by apply store_weaken].
    - by apply (st_nproc _ _ (ci_store _ _ _ _ H) a n). }
  assert (Hx0 : trans_at st0 !! t = Some x0) by (simpl; by rewrite lookup_insert_eq).
  assert (Hy0 : buffer_at st0 !! b = Some y0) by (simpl; by rewrite lookup_insert_eq).
  unfold transaction_send. rewrite Hx0. cbn [mbind option_bind t_buffer]. rewrite Hy0. cbn [mbind option_bind t_flags].
  rewrite Hflags. cbn [negb async_transaction BUG_ON mbind option_bind].
  change (node_at st0) with (node_at st). rewrite Hn. cbn [mbind option_bind].
  destruct (has_async_transaction n) eqn:Ea; cbn [mbind option_bind].
  - apply (one_way_queue st0 (OnNode a) (async_todo n)); try done; [|simpl; by rewrite Hn|by left].
    intros a' m Hm. exists m. split_and!; [done|done|]. intros [?| ->]; [done|]. by simplify_eq.
  - destruct (st_nproc _ _ (ci_store _ _ _ _ H) a n p Hn Hp) as [q Hq].
    apply (one_way_queue (put_node st0 a (set_async n true (async_todo n))) (OnProc p) (p_todo q)); try done;
      [| |simpl; by rewrite Hq|by right].
    + destruct H0 as [Hc Hth Hs]. split; [done|done|]. apply async_store; [done|done|by left].
    + intros a' m Hm. simpl. destruct (decide (a' = a)) as [->|?].
      * simplify_eq. rewrite lookup_insert_eq. by eexists.
      * rewrite lookup_insert_ne by done. exists m. split_and!; [done|done|]. by intros [?|?].
Qed.

End SendOneWay.

(** The call a thread has on top of its stack exists. *)
Lemma stack_trans st h y t : calls_inv None None None st -> thread_at st !! h = Some y -> transaction_stack y = Some t ->
  exists x, trans_at st !! t = Some x /\ need_reply x = true.
Proof.
  intros H Hy Hs. pose proof H as [[C Hc] _ _].
  assert (HS : stacks None st !! h = Some (Some t)) by (by rewrite stacks_lookup, Hy, <- Hs).
  destruct (thread_chain _ _ _ _ _ Hc HS) as (c & C' & _ & Et & _).
  destruct (top_call None st h H c t (eq_sym Et)) as (x & ? & ? & _). eauto.
Qed.

(** Where a call goes is not the thread that sends it. *)
Definition not_self (st : binder) (h : Z) (tgt : target) (flags : Z) : Prop :=
  match route_call st h tgt flags with
  | Some (Routed _ _ (Some g) _ _) => g <> h
  | _ => True
  end.

Lemma call_body_inv st h y a n p tt flags r : calls_inv None None None st -> thread_at st !! h = Some y ->
  return_error y = BR_OK -> reading y = Outside -> resources_ok st r -> node_at st !! a = Some n -> n_proc n = Some p ->
  (one_way flags = true -> tt = None) ->
  (one_way flags = false -> tt <> Some h /\
    (forall u, transaction_stack y = Some u -> callee (calls None None (trans_at st)) u = Some h) /\
    (forall g, tt = Some g -> is_Some (transaction_stack y) /\ (exists z, thread_at st !! g = Some z /\ th_proc z = p) /\
      forall c C, chains (calls None None (trans_at st)) (stacks None st) C -> c ∈ C -> head c = transaction_stack y ->
        mentions (calls None None (trans_at st)) g c)) ->
  exists st', transaction_body st h false flags r p tt (Some a) None = Some st' /\ calls_inv None None None st'.
Proof.
  intros H Hy He Hrd [R1 R2 R3] Hn Hp Hone Htwo. unfold transaction_body.
  assert (Hfail : forall e, e <> BR_OK -> exists st', transaction_failed st h None e = Some st' /\ calls_inv None None None st').
  { intros e Hne. by apply (transaction_failed_none st h y). }
  destruct (new_t r) as [t|] eqn:Et; [|by apply Hfail; auto with kernel].
  destruct (new_complete r); [|by apply Hfail; auto with kernel].
  destruct (new_buffer r) as [b|] eqn:Eb; [|by apply Hfail; auto with kernel].
  destruct (translated r) as [e|] eqn:Ee; [by apply Hfail; auto|]. simpl.
  destruct (one_way flags) eqn:Ef; simpl.
  - rewrite Hone by done. by apply (one_way_send_inv st h y a n p t b flags); auto.
  - destruct Htwo as (Hself & Hserve & Htt); [done|]. by apply (call_send_inv st h y a n p tt t b flags); auto.
Qed.

Lemma call_inv st h y tgt flags r : calls_inv None None None st -> thread_at st !! h = Some y ->
  return_error y = BR_OK -> reading y = Outside -> resources_ok st r ->
  (forall a, tgt = Node a -> is_Some (node_at st !! a)) -> not_self st h tgt flags ->
  exists st', binder_transaction st h false tgt flags r = Some st' /\ calls_inv None None None st'.
Proof.
  intros H Hy He Hrd Hr Htgt Hself. unfold binder_transaction. unfold not_self in Hself.
  assert (Hfail : forall e, e <> BR_OK -> exists st', transaction_failed st h None e = Some st' /\ calls_inv None None None st').
  { intros e Hne. by apply (transaction_failed_none st h y). }
  unfold route_call in *. rewrite Hy in *. simpl in *.
  destruct tgt as [| |a]; [by apply Hfail; auto with kernel..|]. destruct (Htgt a eq_refl) as [n Hn]. rewrite Hn in *. simpl in *.
  destruct (n_proc n) as [p|] eqn:Hp; [|by apply Hfail; auto with kernel].
  destruct (transaction_stack y) as [tmp|] eqn:Hs; simpl.
  2: { apply (call_body_inv st h y a n p None flags r); try done. intros _. split_and!; [done| |done]. congruence. }
  destruct (one_way flags) eqn:Ef; simpl; [apply (call_body_inv st h y a n p None flags r); try done; congruence|].
  destruct (stack_trans st h y tmp H Hy Hs) as (x & Hx & _). rewrite Hx in *. simpl in *.
  case_bool_decide as Hto; simpl; [|by apply Hfail; auto with kernel].
  destruct (serving_call st h y tmp x H Hy Hs Hx Hto) as (_ & _ & _ & Hv).
  assert (Ec : callee (calls None None (trans_at st)) tmp = Some h) by (unfold callee; by rewrite Hv).
  pose proof (ci_chains _ _ _ _ H) as [C Hc].
  assert (HS : stacks None st !! h = Some (Some tmp)) by (by rewrite stacks_lookup, Hy, <- Hs).
  destruct (served_chain _ _ _ _ _ Hc HS Ec) as (c & C' & P). pose proof (chains_perm _ _ _ _ P Hc) as Hc'.
  destruct (find_target_spec st p (tmp :: c) (size (trans_at st)) None (focus_chain _ _ _ _ Hc')) as (tt & Eft & Htt);
    [|by apply (chain_length _ _ _ _ _ _ Hc')|].
  { intros g M. destruct (focus_alive _ _ _ _ Hc' g M) as [s Hg]. destruct (stacks_some _ _ _ _ Hg) as (_ & z & ? & _). eauto. }
  pose proof (focus_chain _ _ _ _ Hc') as Hch. cbn [head] in Eft. rewrite Eft in *. cbn [mbind option_bind] in *.
  apply (call_body_inv st h y a n p tt flags r); try done; [congruence|]. intros _. rewrite Hs. split_and!.
  - destruct tt; congruence.
  - by intros u [= <-].
  - intros g ->. destruct Htt as [?|(g' & z & [= <-] & M & Hz & Ez)]; [done|]. split_and!; [eauto|eauto|].
    intros d D HD Hd Hh. rewrite (chain_unique _ d (tmp :: c) (ch_chain _ _ _ HD d Hd) Hch Hh). done.
Qed.

End BinderCallsSend.
