(* ===== verification/BinderCallsRead.v ===== *)
(** Reading, freeing buffers, and the coming and going of threads and nodes in
    BinderThreads.v keep the invariant of BinderCallsInv.v. *)

From S2P Require Import Prelude BinderThreads BinderStacks BinderCallsInv BinderCallsSafe BinderCallsSend.
Local Open Scope Z_scope.
Local Open Scope kernel_scope.

Module BinderCallsRead.
Import BinderThreads BinderStacks BinderCallsInv BinderCallsSafe BinderCallsSend.

(** ** The end of a read *)

Lemma read_done_inv st h y : thread_at st !! h = Some y ->
  calls_inv None None None (put_thread st h (set_reading y Outside)) ->
  exists st', read_done st h = Some st' /\ calls_inv None None None st'.
Proof.
  intros Hy H. unfold read_done. rewrite Hy. simpl.
  destruct (st_tproc _ _ (ci_store _ _ _ _ H) h (set_reading y Outside)) as [p Hp]; [simpl; by rewrite lookup_insert_eq|].
  simpl in Hp. rewrite Hp. simpl. eexists. split; [done|]. case_match; [|done].
  by apply (inv_proc _ _ _ _ _ p).
Qed.

Lemma outside_inv st h y : calls_inv None None None st -> thread_at st !! h = Some y ->
  calls_inv None None None (put_thread st h (set_reading y Outside)).
Proof.
  intros H Hy. apply (inv_thread _ _ _ _ _ y); try done. intros HK.
  apply (thread_ok_fields _ _ y); try done. by apply (ci_threads _ _ _ _ H).
Qed.

Lemma read_done_simple st h y : calls_inv None None None st -> thread_at st !! h = Some y ->
  exists st', read_done st h = Some st' /\ calls_inv None None None st'.
Proof. intros H Hy. apply (read_done_inv st h y Hy). by apply outside_inv. Qed.

Lemma read_start_inv st h y left f2 f1 : calls_inv None None None st -> thread_at st !! h = Some y ->
  exists st', read_start st h left f2 f1 = Some st' /\ calls_inv None None None st'.
Proof.
  intros H Hy. unfold read_start. rewrite Hy. simpl.
  destruct (st_tproc _ _ (ci_store _ _ _ _ H) h y Hy) as [p Hp]. rewrite Hp. simpl.
  pose proof (ci_threads _ _ _ _ H h y Hy ltac:(done)) as Ok.
  case_match; [case_match; [|case_match; [by apply (read_done_simple st h y)|destruct f1]]|].
  - eexists. split; [done|]. by apply outside_inv.
  - eexists. split; [done|]. by apply (inv_thread _ _ _ _ _ y).
  - apply (read_done_simple _ h (set_errors y BR_OK BR_OK)); [|simpl; by rewrite lookup_insert_eq].
    apply (inv_thread _ _ _ _ _ y); try done. intros _. destruct Ok as [I1 I2 I3]. by split.
  - eexists. split; [done|]. set (w := bool_decide _ && bool_decide _).
    set (st1 := put_thread st h _). assert (H1 : calls_inv None None None st1).
    { apply (inv_thread _ _ _ _ _ y); try done. intros _. destruct Ok as [I1 I2 I3]. split; [done|done|]. simpl.
      unfold w. intros [E _]%andb_true_iff. by apply bool_decide_eq_true in E. }
    destruct w; [|done]. by apply (inv_proc _ _ _ _ _ p).
Qed.

Lemma read_wake_inv st h y w interrupted : calls_inv None None None st -> thread_at st !! h = Some y ->
  reading y = Asleep w ->
  exists st', read_wake st h interrupted = Some st' /\ calls_inv None None None st'.
Proof.
  intros H Hy Hr. unfold read_wake. rewrite Hy. simpl. rewrite Hr.
  destruct (st_tproc _ _ (ci_store _ _ _ _ H) h y Hy) as [p Hp]. rewrite Hp. simpl. eexists. split; [done|].
  pose proof (ci_threads _ _ _ _ H h y Hy ltac:(done)) as Ok.
  set (st1 := if w then _ else st). assert (H1 : calls_inv None None None st1 /\ thread_at st1 = thread_at st /\ trans_at st1 = trans_at st).
  { unfold st1. destruct w; [|done]. split; [|done]. by apply (inv_proc _ _ _ _ _ p). }
  destruct H1 as (H1 & E1 & E2). apply (inv_thread _ _ _ _ _ y); try done; [by rewrite E1|]. intros _. rewrite E2.
  apply (thread_ok_fields _ _ y); try done. simpl. rewrite Hr. by destruct interrupted.
Qed.

(** ** A transaction is read *)

Section Deliver.
Variables (st : binder) (h : Z) (y : binder_thread) (p : binder_proc) (w : bool) (o : place).
Hypothesis H : calls_inv None None None st.
Hypothesis Hy : thread_at st !! h = Some y.
Hypothesis Hw : reading y = Looping w.
Hypothesis Ho : read_list y p h w = Some o.

Lemma read_place : (o = OnThread h \/ (o = OnProc (th_proc y) /\ transaction_stack y = None)) /\ forall a, o <> OnNode a.
Proof using H Hy Hw Ho.
  pose proof (ci_threads _ _ _ _ H h y Hy ltac:(done)) as Ok. unfold read_list in Ho.
  destruct (negb (bool_decide (th_todo y = []))); [injection Ho as <-; by split; [left|]|].
  destruct (negb (bool_decide (p_todo p = [])) && w) eqn:E; [|done]. injection Ho as <-. split; [right|done].
  split; [done|]. apply (ok_reading _ _ _ Ok). rewrite Hw. by apply andb_true_iff in E as [_ ->].
Qed.

Variables (t : Z) (l : list work) (x : transaction).
Hypothesis Hl : work_list st o = Some (WorkTransaction t :: l).
Hypothesis Hx : trans_at st !! t = Some x.

(** Who reads a call is not who sent it, and may take it. *)
Lemma reader_ok : need_reply x = true -> from x <> Some h /\
  exists c C, chains (calls None None (trans_at st)) (stacks None st) (with_chain (t :: c) C) /\
    (mentions (calls None None (trans_at st)) h c \/ transaction_stack y = None).
Proof using H Hy Hw Ho Hl Hx.
  intros Hr. pose proof (ci_store _ _ _ _ H) as Hs.
  assert (Eo : t_on x = Some o) by (apply (on_one_list _ _ _ _ _ _ Hs Hx Hl); set_solver).
  destruct (ci_chains _ _ _ _ H) as [C Hc].
  assert (Hv : calls None None (trans_at st) !! t = view None None t x) by (by rewrite calls_lookup, Hx).
  unfold view in Hv. rewrite Hr, Eo in Hv. simpl in Hv.
  destruct (untaken_chain _ _ _ _ _ Hc Hv eq_refl) as (c & C' & P). pose proof (chains_perm _ _ _ _ P Hc) as Hc'.
  destruct read_place as [[-> |[-> Es]] _].
  - pose proof (st_hint _ _ Hs t x h Hx Hr Eo) as Et. split; [intros Ef; by destruct (st_self _ _ Hs t x h Hx Hr Ef)|].
    exists c, C'. split; [done|]. left. destruct (moves_link _ _ _ _ _ _ Hc' Hv) as [(_ & _ & _ & L4) _].
    by apply (L4 h).
  - split; [|exists c, C'; by split; [|right]]. intros Ef.
    destruct (moves_part _ _ _ _ _ _ Hc' Hv h) as [_ Hg]; [by left|]. rewrite stacks_lookup, Hy in Hg by done. simpl in Hg. congruence.
Qed.

(** The call is off the list, *)
Section Taken.
Variables (st2 : binder) (y2 : binder_thread).
Hypothesis H2 : calls_inv (Some t) None None st2.
Hypothesis E2 : trans_at st2 = <[t := set_on x None]> (trans_at st).
Hypothesis S2 : stacks None st2 = stacks None st.
Hypothesis Hy2 : thread_at st2 !! h = Some y2.
Hypothesis Hst2 : transaction_stack y2 = transaction_stack y.

(** and given to the thread, *)
Lemma take_call_inv : need_reply x = true ->
  calls_inv None None None (put_thread (put_trans st2 t (set_to (set_on x None) (transaction_stack y) (Some h))) h
    (set_reading (set_stack y2 (Some t)) Outside)).
Proof using H Hy Hw Ho Hl Hx H2 E2 S2 Hy2 Hst2.
  intros Hr. destruct (reader_ok Hr) as (Hf & c & C & Hc & Hm). set (x' := set_to _ _ _).
  assert (Hx2 : trans_at st2 !! t = Some (set_on x None)) by (by rewrite E2, lookup_insert_eq).
  assert (Hs2 : transaction_stack (set_reading (set_stack y2 (Some t)) Outside) = Some t) by done.
  split.
  - exists (with_chain (t :: c) C). rewrite stacks_put by done.
    change (stacks None (put_trans st2 t x')) with (stacks None st2). rewrite S2.
    change (trans_at (put_thread _ _ _)) with (<[t := x']> (trans_at st2)). rewrite calls_insert.
    assert (Hv : exists v, calls None None (trans_at st) !! t = Some v /\ c_to v = None /\ c_from v = from x /\ c_parent v = from_parent x).
    { rewrite calls_lookup, Hx. simpl. unfold view. rewrite Hr.
      rewrite (on_one_list _ _ _ _ _ _ (ci_store _ _ _ _ H) Hx Hl) by set_solver. eexists. by split_and!. }
    destruct Hv as (v & Hv & Ev & Ef & Ep).
    pose proof (untaken_chains _ _ _ t v Hc Hv Ev) as Hc2.
    assert (Hnt : t ∉ c) by (destruct (focus_nodup _ _ _ _ Hc) as (Hnd & _); by apply NoDup_cons in Hnd as [? _]).
    pose proof (take_chains _ _ _ _ _ _ Hc2 (lookup_insert_eq _ _ _) h (transaction_stack y)) as Tk.
    cbn [untaken c_from c_parent c_to c_up c_hint] in Tk. rewrite Ef, Ep, insert_insert_eq in Tk.
    replace (view None None t x') with (Some (mk_call (from x) (from_parent x) (Some (Some h)) (transaction_stack y) None))
      by (unfold view, x'; simpl; by rewrite Hr).
    replace (<[t := mk_call (from x) (from_parent x) (Some (Some h)) (transaction_stack y) None]> (calls None None (trans_at st2)))
      with (<[t := mk_call (from x) (from_parent x) (Some (Some h)) (transaction_stack y) None]> (calls None None (trans_at st))).
    + apply Tk; [done|by rewrite stacks_lookup, Hy| |done]. destruct Hm as [Hm|Hm]; [left|by right].
      apply (mentions_ext (calls None None (trans_at st))); [|done]. intros u Hu. apply part_set_ne. by intros ->.
    + apply map_eq. intros u. destruct (decide (t = u)) as [<-|?]; [by rewrite !lookup_insert_eq|].
      rewrite !lookup_insert_ne, !calls_lookup, E2 by done. by rewrite lookup_insert_ne.
  - intros g z Hz _. simpl in Hz. simpl trans_at. apply lookup_insert_Some in Hz as [[<- <-]|[? Hz]].
    + destruct (ci_threads _ _ _ _ H2 h y2 Hy2 ltac:(done)) as [I1 I2 I3]. split; simpl; [done| |done].
      intros u q [= <-]. rewrite lookup_insert_eq. by intros [= <-].
    + apply (thread_ok_sub (trans_at st2)); [|by apply (ci_threads _ _ _ _ H2)].
      intros u q [[<- <-]|[_ Hq]]%lookup_insert_Some; eauto.
  - apply (store_thread None _ h y2); [|done..]. apply (store_trans None st2 t (set_on x None)); try done; [by apply H2|].
    intros g Eg. split; [done|]. simpl in *. congruence.
Qed.

(** or freed, when it is no call. *)
Lemma take_plain_inv b z : need_reply x = false -> t_buffer x = Some b -> buffer_at st2 !! b = Some z ->
  calls_inv None None None (free_trans (put_buffer st2 b (set_transaction z None)) t).
Proof using Hx H2 E2.
  intros Hr Eb Hz. destruct H2 as [[C Hc] Ht Hs].
  assert (Hx2 : trans_at st2 !! t = Some (set_on x None)) by (by rewrite E2, lookup_insert_eq).
  assert (free_trans (put_buffer st2 b (set_transaction z None)) t = unlinked st2 t None (cut st2 (set_on x None))) as ->.
  { unfold unlinked, cut, free_trans, put_buffer. simpl. rewrite Eb. by rewrite (alter_alt_Some _ _ _ z). }
  split.
  - exists C. change (stacks None _) with (stacks None st2). change (trans_at (unlinked _ _ _ _)) with (delete t (trans_at st2)).
    rewrite calls_delete_loose, delete_id; [done|]. rewrite calls_lookup, Hx2. simpl. unfold view. simpl. by rewrite Hr.
  - intros g q Hq HK. change (trans_at (unlinked _ _ _ _)) with (delete t (trans_at st2)).
    apply (thread_ok_sub (trans_at st2)); [|by apply Ht]. intros u r [_ Hr']%lookup_delete_Some. eauto.
  - apply (unlink_store None); [done|done|done|by left].
Qed.

End Taken.

Lemma deliver_inv : exists st' y', deliver st h o t = Some st' /\ thread_at st' !! h = Some y' /\
  calls_inv None None None (put_thread st' h (set_reading y' Outside)).
Proof using H Hy Hw Ho Hl Hx.
  pose proof (ci_store _ _ _ _ H) as Hs. destruct read_place as [_ Hn].
  assert (Eo : t_on x = Some o) by (apply (on_one_list _ _ _ _ _ _ Hs Hx Hl); set_solver).
  destruct (queued_buffer None st t x o Hs Hx Eo Hn) as (b & z & Eb & Hz & Et).
  pose proof (st_kind _ _ Hs t x b z Hx Eb Hz) as Hk.
  unfold deliver. rewrite Hx. simpl. rewrite Eb. simpl. rewrite Hz. simpl.
  assert (match target_node z with None => Some tt | Some a => _ ← node_at st !! a; Some tt end = Some tt) as ->.
  { destruct (target_node z) as [a|] eqn:Ea; [|done]. by destruct (st_node _ _ Hs b z a Hz Ea) as (n & -> & _). }
  assert (match from x with None => Some tt | Some g => _ ← thread_at st !! g; Some tt end = Some tt) as ->.
  { destruct (from x) as [g|] eqn:Ef; [|done].
    assert (Hr : need_reply x = true) by (destruct (need_reply x) eqn:Er; [done|]; by rewrite (st_plain _ _ Hs t x Hx Er) in Ef).
    destruct (reader_ok Hr) as (_ & c & C & Hc & _).
    destruct (focus_alive _ _ _ _ Hc g) as [s Hg]; [|by destruct (stacks_some _ _ _ _ Hg) as (_ & q & -> & _)].
    apply mentions_cons. left. apply (call_part None None _ g t x); auto. }
  simpl. destruct (del_inv None None st o _ l H Hl Hn) as (st1 & -> & Hlo & T1 & _ & H1). simpl in *.
  rewrite (alter_alt_Some _ _ _ x) in T1 by done. rewrite T1, lookup_insert_eq. simpl.
  destruct (lists_only_thread _ _ h y Hlo Hy) as [k Hk']. rewrite Hk'. simpl.
  rewrite <- (lo_buffer _ _ Hlo) in Hz.
  set (st2 := put_buffer st1 b (set_allow z)).
  assert (H2 : calls_inv (Some t) None None st2).
  { destruct H1 as [Hc Ht Hs1]. split; [done|done|]. apply allow_store; [done|done|].
    intros t' x' Et' Hx'. rewrite T1 in Hx'. assert (t' = t) as -> by congruence. rewrite lookup_insert_eq in Hx'. by simplify_eq. }
  assert (Hz2 : buffer_at st2 !! b = Some (set_allow z)) by (simpl; by rewrite lookup_insert_eq).
  rewrite <- Hk. destruct (need_reply x) eqn:Hr.
  - eexists _, _. split; [done|]. simpl. rewrite lookup_insert_eq. split; [done|].
    pose proof (take_call_inv st2 (set_todo y k) H2 T1 (lists_only_stacks None _ _ Hlo) Hk' eq_refl Hr) as I.
    unfold put_thread in *. simpl in *. by rewrite insert_insert_eq.
  - pose proof (take_plain_inv st2 H2 T1 b (set_allow z) Hr Eb Hz2) as I.
    exists (free_trans (put_buffer st2 b (set_transaction (set_allow z) None)) t), (set_todo y k).
    split_and!; [done|done|]. by apply outside_inv.
Qed.

End Deliver.

Lemma read_next_inv st h y w no_data room fault dead left f2 f1 : calls_inv None None None st -> thread_at st !! h = Some y ->
  reading y = Looping w ->
  exists st', read_next st h no_data room fault dead left f2 f1 = Some st' /\ calls_inv None None None st'.
Proof.
  intros H Hy Hr. unfold read_next. rewrite Hy. simpl.
  destruct (st_tproc _ _ (ci_store _ _ _ _ H) h y Hy) as [p Hp]. rewrite Hp. simpl. rewrite Hr.
  destruct (read_list y p h w) as [o|] eqn:Ho.
  2: { case_match; [by apply (read_start_inv st h y)|by apply (read_done_simple st h y)]. }
  destruct (negb room); [by apply (read_done_simple st h y)|].
  destruct fault; [eexists; split; [done|by apply outside_inv]|].
  assert (exists i l, work_list st o = Some (i :: l)) as (i & l & Hl).
  { unfold read_list in Ho. destruct (th_todo y) as [|i l] eqn:Et.
    - rewrite bool_decide_true in Ho by done. simpl in Ho. destruct (p_todo p) as [|i l] eqn:Ep.
      + rewrite bool_decide_true in Ho by done. done.
      + destruct (negb _ && w); [|done]. simplify_eq. exists i, l. simpl. by rewrite Hp, <- Ep.
    - rewrite bool_decide_false in Ho by done. simpl in Ho. simplify_eq. exists i, l. simpl. by rewrite Hy, <- Et. }
  rewrite Hl. simpl. destruct (read_place st h y p w o H Hy Hr Ho) as [_ Hn]. destruct i as [t| |].
  - destruct (st_list _ _ (ci_store _ _ _ _ H) o _ t Hl) as (x & Hx & _); [set_solver|].
    destruct (deliver_inv st h y p w o H Hy Hr Ho t l x Hl Hx) as (st' & y' & -> & Hy' & H'). simpl.
    by apply (read_done_inv st' h y').
  - destruct (del_inv None None st o _ l H Hl Hn) as (st1 & -> & _ & _ & _ & H1). simpl. by exists st1.
  - destruct dead; [by apply (read_done_simple st h y)|by exists st].
Qed.

(** ** Freeing a buffer *)

Lemma put_list_free st b o l : put_list (free_buffer st b) o l = (fun s => free_buffer s b) <$> put_list st o l.
Proof.
  destruct o as [h|p|a]; simpl.
  - by destruct (thread_at st !! h).
  - by destruct (proc_at st !! p).
  - by destruct (node_at st !! a).
Qed.

Lemma entry_on_free st b w o : entry_on (free_buffer st b) w o = (fun s => free_buffer s b) <$> entry_on st w o.
Proof. destruct w as [t| |]; simpl; [by destruct (trans_at st !! t)|done..]. Qed.

Lemma work_list_free st b o : work_list (free_buffer st b) o = work_list st o.
Proof. by destruct o. Qed.

Lemma list_del_first_free st b o w st' : list_del_first (free_buffer st b) o = Some (w, st') ->
  exists st1, list_del_first st o = Some (w, st1) /\ st' = free_buffer st1 b.
Proof.
  unfold list_del_first. rewrite work_list_free. destruct (work_list st o) as [[|i l]|]; simpl; try done.
  rewrite put_list_free. destruct (put_list st o l) as [st1|]; simpl; [|done]. rewrite entry_on_free.
  destruct (entry_on st1 i None) as [st2|]; simpl; [|done]. intros. simplify_eq. eauto.
Qed.

Lemma list_add_tail_free st b o w st' : list_add_tail (free_buffer st b) w o = Some st' ->
  exists st1, list_add_tail st w o = Some st1 /\ st' = free_buffer st1 b.
Proof.
  unfold list_add_tail. rewrite work_list_free. destruct (work_list st o) as [l|]; simpl; [|done].
  rewrite put_list_free. destruct (put_list st o (l ++ [w])) as [st1|]; simpl; [|done]. rewrite entry_on_free.
  destruct (entry_on st1 w (Some o)) as [st2|]; simpl; [|done]. intros. simplify_eq. eauto.
Qed.

(** When the buffer of an asynchronous transaction has gone the node has no
    other outside of its list. *)
Lemma freed_async st st' b y a n : store None st -> buffer_at st !! b = Some y -> allow_user_free y = true ->
  async_transaction y = true -> target_node y = Some a -> buffer_at st' = delete b (buffer_at st) ->
  (forall u z, trans_at st !! u = Some z -> exists z', trans_at st' !! u = Some z' /\ t_on z' = t_on z) ->
  node_at st !! a = Some n ->
  forall c z, buffer_at st' !! c = Some z -> async_transaction z = true -> target_node z = Some a -> ~ outside st' a z.
Proof.
  intros H Hy Ha Fa Ft Eb Et' Hn c z Hz Fa' Ft' O. rewrite Eb in Hz. apply lookup_delete_Some in Hz as [Hne Hz].
  apply Hne. apply (st_out _ _ H b c y z a); try done.
  - intros u x Hu Hx E. pose proof (st_free _ _ H b y u x Hy Ha Hu Hx). congruence.
  - intros u x Hu Hx E. destruct (Et' u x Hx) as (x' & Hx' & E'). by apply (O u x' Hu Hx'); rewrite E'.
Qed.

(** The next asynchronous transaction of the node goes to the thread. *)
Section NextAsync.
Variables (st : binder) (h : Z) (y : binder_thread) (a : Z) (n : binder_node) (i : work) (l : list work).
Hypothesis H : calls_inv None None None st.
Hypothesis Hy : thread_at st !! h = Some y.
Hypothesis Hn : node_at st !! a = Some n.
Hypothesis Hp : n_proc n = Some (th_proc y).
Hypothesis Hl : async_todo n = i :: l.
Hypothesis Hout : forall c z, buffer_at st !! c = Some z -> async_transaction z = true -> target_node z = Some a -> ~ outside st a z.

Lemma next_async_inv : exists st1 st2, list_del_first st (OnNode a) = Some (i, st1) /\
  list_add_tail st1 i (OnThread h) = Some st2 /\ calls_inv None None None st2.
Proof using H Hy Hn Hp Hl Hout.
  destruct H as [[C Hc] Ht Hs]. assert (Hw : work_list st (OnNode a) = Some (i :: l)) by (simpl; by rewrite Hn, <- Hl).
  destruct (del_store None st (OnNode a) i l Hs Hw) as (st1 & E1 & L1 & T1 & _ & S1).
  { intros a' t x b b' z [= <-] _ _ _ Hz Fa Ft _ O. by destruct (Hout b' z). }
  assert (Hpl : forall t, i = WorkTransaction t -> exists x, trans_at st !! t = Some x /\ t_on x = Some (OnNode a) /\ need_reply x = false).
  { intros t ->. destruct (st_list _ _ Hs _ _ t Hw) as (x & Hx & Eo); [set_solver|]. exists x. split_and!; try done.
    destruct (need_reply x) eqn:Er; [|done]. by destruct (st_notnode _ _ Hs t x a Hx Er). }
  assert (H1 : calls_inv None None None st1).
  { split; [|by apply (threads_ok_lists None st); [..|intros t x; rewrite T1; apply requeued_from]|done].
    exists C. rewrite (lists_only_stacks None _ _ L1), T1.
    assert (calls None None (requeued i None (trans_at st)) = calls None None (trans_at st)) as ->; [|done].
    destruct i as [t| |]; [|done..]. destruct (Hpl t eq_refl) as (x & Hx & _ & Er).
    apply map_eq. intros u. rewrite !calls_lookup. simpl. destruct (decide (t = u)) as [<-|?].
    - rewrite lookup_alter_eq, Hx. simpl. unfold view. simpl. by rewrite Er.
    - by rewrite lookup_alter_ne. }
  destruct (lists_only_thread _ _ h y L1 Hy) as [k Hk].
  destruct (add_inv None None None st1 (OnThread h) i k H1) as (st2 & E2 & H2 & _); [simpl; by rewrite Hk| |eauto].
  intros t ->. destruct (Hpl t eq_refl) as (x & Hx & Eo & Er).
  assert (exists b, t_buffer x = Some b) as [b Eb].
  { destruct (t_buffer x) as [b|] eqn:Eb; [eauto|]. destruct (st_buf _ _ Hs t x _ Hx Eo Eb) as (a' & n' & [= <-] & ? & ?). congruence. }
  destruct (st_tb _ _ Hs t x b Hx Eb) as (z & Hz & Et).
  exists (set_on x None), b, z. rewrite T1. simpl. rewrite lookup_alter_eq, Hx, (lo_buffer _ _ L1).
  split_and!; try done.
  - destruct (allow_user_free z) eqn:Ea; [|done]. pose proof (st_free _ _ Hs b z t x Hz Ea Et Hx). congruence.
  - eexists. split; [exact Hk|]. destruct (st_place _ _ Hs t x _ b z Hx Eo Eb Hz) as [Ft _].
    destruct (st_node _ _ Hs b z a Hz Ft) as (n' & Hn' & E & _); [done|]. simpl. congruence.
Qed.

End NextAsync.

Lemma free_buffer_inv st h y buffer : calls_inv None None None st -> thread_at st !! h = Some y ->
  (forall b, buffer = Some b -> exists z, buffer_at st !! b = Some z /\ b_proc z = th_proc y) ->
  exists st', bc_free_buffer st h buffer = Some st' /\ calls_inv None None None st'.
Proof.
  intros H Hy Hb. unfold bc_free_buffer. destruct buffer as [b|]; [|by exists st].
  destruct (Hb b eq_refl) as (z & Hz & Ep). rewrite Hz. simpl. destruct (allow_user_free z) eqn:Ea; simpl; [|by exists st].
  pose proof (ci_store _ _ _ _ H) as Hs.
  destruct (detach_buffer_inv None st b z H Hz) as (st1 & -> & H1 & Eb & Eth & En & _ & _ & Et).
  { intros t x Et Hx. left. by apply (st_free _ _ Hs b z t). }
  simpl. destruct (async_transaction z) eqn:Fa; simpl; [|by eexists].
  destruct (target_node z) as [a|] eqn:Ft; simpl; [|by eexists].
  destruct (st_node _ _ Hs b z a Hz Ft) as (n & Hn & Enp & Hh); [done|]. rewrite En, Hn. simpl. rewrite Hh by done. simpl.
  assert (Hout : forall c w, buffer_at (free_buffer st1 b) !! c = Some w -> async_transaction w = true ->
     target_node w = Some a -> ~ outside (free_buffer st1 b) a w).
  { apply (freed_async st _ b z a n); try done. simpl. by rewrite Eb. }
  assert (Hn1 : node_at (free_buffer st1 b) !! a = Some n) by (simpl; by rewrite En).
  assert (Hy1 : thread_at (free_buffer st1 b) !! h = Some y) by (simpl; by rewrite Eth).
  destruct (async_todo n) as [|i l] eqn:El.
  - eexists. split; [done|]. change (free_buffer (put_node st1 a ?x) b) with (put_node (free_buffer st1 b) a x).
    destruct H1 as [Hc Ht Hs1]. split; [done|done|]. rewrite <- El. apply async_store; [done|done|right].
    intros c w Hw Fw Aw. apply (Hout c w Hw Aw Fw). intros u x Hu Hx Eo.
    destruct (st_on _ _ Hs1 u x _ Hx Eo) as (l & Hl & Hin). simpl in Hl. rewrite En, Hn in Hl. simpl in Hl.
    simplify_eq. rewrite El in Hin. by apply not_elem_of_nil in Hin.
  - destruct (next_async_inv (free_buffer st1 b) h y a n i l H1 Hy1 Hn1) as (s1 & s2 & E1 & E2 & H2); [congruence|done|done|].
    apply list_del_first_free in E1 as (s1' & -> & ->). simpl. apply list_add_tail_free in E2 as (s2' & -> & ->). simpl. eauto.
Qed.

(** ** Threads, nodes and processes come and go *)

Lemma looper_inv st h y l : calls_inv None None None st -> thread_at st !! h = Some y ->
  calls_inv None None None (put_thread st h (set_looper y l)).
Proof.
  intros H Hy. apply (inv_thread _ _ _ _ _ y); try done. intros HK.
  apply (thread_ok_fields _ _ y); try done. by apply (ci_threads _ _ _ _ H).
Qed.

Lemma register_looper_inv st h y : calls_inv None None None st -> thread_at st !! h = Some y ->
  exists st', bc_register_looper st h = Some st' /\ calls_inv None None None st'.
Proof.
  intros H Hy. unfold bc_register_looper. rewrite Hy. simpl.
  destruct (st_tproc _ _ (ci_store _ _ _ _ H) h y Hy) as [p Hp]. rewrite Hp. simpl.
  repeat case_match; (eexists; split; [done|]); apply looper_inv; try done. by apply (inv_proc _ _ _ _ _ p).
Qed.

Lemma flush_inv st p : calls_inv None None None st -> calls_inv None None None (binder_deferred_flush st p).
Proof.
  intros [[C Hc] Ht Hs].
  assert (Hb : forall h y, thread_at (binder_deferred_flush st p) !! h = Some y -> exists z, thread_at st !! h = Some z /\ y = need_return p z).
  { intros h y. simpl. rewrite lookup_fmap. intros (z & ? & ->)%fmap_Some. eauto. }
  assert (Hf : forall z, transaction_stack (need_return p z) = transaction_stack z /\ th_todo (need_return p z) = th_todo z /\
    th_proc (need_return p z) = th_proc z) by (intros z; unfold need_return; by case_match).
  split.
  - exists C. replace (stacks None (binder_deferred_flush st p)) with (stacks None st); [done|].
    unfold stacks. simpl. rewrite <- map_fmap_compose. apply map_fmap_ext. intros h z _. simpl. symmetry. apply Hf.
  - intros h y (z & Hz & ->)%Hb HK. apply (thread_ok_fields _ _ z); [by apply Ht|..]; unfold need_return; by case_match.
  - apply (store_same None st); try done.
    + intros [h| |]; simpl; [|done..]. rewrite lookup_fmap. destruct (thread_at st !! h) as [z|]; [|done]. simpl. f_equal. apply Hf.
    + intros h y (z & Hz & ->)%Hb. destruct (Hf z) as (_ & _ & ->). by apply (st_tproc _ _ Hs h).
    + intros h z Hz. simpl. rewrite lookup_fmap, Hz. eexists. split; [done|]. apply Hf.
Qed.

Lemma new_thread_inv st h p : calls_inv None None None st -> thread_at st !! h = None -> is_Some (proc_at st !! p) ->
  calls_inv None None None (new_thread st h p).
Proof.
  intros [[C Hc] Ht Hs] Hh Hp. split.
  - exists C. unfold new_thread. rewrite stacks_put by done. simpl transaction_stack. apply spawn_chains; [done|].
    by rewrite stacks_lookup, Hh.
  - intros g y Hy HK. simpl in Hy. apply lookup_insert_Some in Hy as [[<- <-]|[_ Hy]]; [by split|by apply Ht].
  - apply (store_grow None st); simpl; try done.
    + intros [g| |] l; simpl; [|done..]. intros Hl. rewrite lookup_insert_ne; [done|]. intros ->. by rewrite Hh in Hl.
    + intros [g| |] l; simpl; [|auto..]. destruct (decide (g = h)) as [->|?]; [|rewrite lookup_insert_ne by done; auto].
      rewrite lookup_insert_eq. intros [= <-]. by right.
    + by apply insert_subseteq.
    + intros g y [[<- <-]|[_ Hy]]%lookup_insert_Some; [done|by apply (st_tproc _ _ Hs g)].
    + apply (st_nproc _ _ Hs).
Qed.

Lemma call_proc_inv st p q : calls_inv None None None st -> proc_at st !! p = None -> p_todo q = [] ->
  calls_inv None None None (put_proc st p q).
Proof.
  intros [Hc Ht Hs] Hp Eq. split; [done|done|].
  assert (Hsub : proc_at st ⊆ <[p := q]> (proc_at st)) by (by apply insert_subseteq).
  apply (store_grow None st); simpl; try done.
  - intros [|p'|] l; simpl; [done| |done]. intros Hl. rewrite lookup_insert_ne; [done|]. intros ->. by rewrite Hp in Hl.
  - intros [|p'|] l; simpl; [auto| |auto]. destruct (decide (p' = p)) as [->|?]; [|rewrite lookup_insert_ne by done; auto].
    rewrite lookup_insert_eq. simpl. rewrite Eq. intros [= <-]. by right.
  - intros h y Hy. destruct (st_tproc _ _ Hs h y Hy) as [r Hr]. exists r. by eapply lookup_weaken.
  - intros a n r Hn Er. destruct (st_nproc _ _ Hs a n r Hn Er) as [r' Hr]. exists r'. by eapply lookup_weaken.
Qed.

Lemma call_node_inv st a p : calls_inv None None None st -> node_at st !! a = None -> is_Some (proc_at st !! p) ->
  calls_inv None None None (put_node st a (mk_node (Some p) false [])).
Proof.
  intros [Hc Ht Hs] Ha Hp. split; [done|done|]. apply (store_grow None st); simpl; try done.
  - intros [| |a'] l; simpl; [done..|]. intros Hl. rewrite lookup_insert_ne; [done|]. intros ->. by rewrite Ha in Hl.
  - intros [| |a'] l; simpl; [auto..|]. destruct (decide (a' = a)) as [->|?]; [|rewrite lookup_insert_ne by done; auto].
    rewrite lookup_insert_eq. intros [= <-]. by right.
  - by apply insert_subseteq.
  - apply (st_tproc _ _ Hs).
  - intros a' n r [[<- <-]|[_ Hn]]%lookup_insert_Some; [by intros [= <-]|by apply (st_nproc _ _ Hs a')].
Qed.

End BinderCallsRead.
