(* ===== verification/BinderCalls.v ===== *)
(** Theorems on the transactions and threads of the binder driver: what
    processes can do, the states they can reach, and what holds in them. *)

From S2P Require Import Prelude BinderThreads BinderStacks BinderCallsInv BinderCallsSafe BinderCallsEnd BinderCallsSend BinderCallsRead.
Local Open Scope Z_scope.
Local Open Scope kernel_scope.

Module BinderCalls.
Import BinderThreads BinderStacks BinderCallsInv BinderCallsSafe BinderCallsEnd BinderCallsSend BinderCallsRead.

(** ** What can happen *)

(** Everything happens with the driver's lock held; a read lets go of it
    between [ReadStart] and [ReadWake].  [QueueOther] and [DropOther] are the
    work items of nodes and death notifications, [AddNode] and [FreeNode] the
    nodes, of BinderRefs.v. *)
Inductive op :=
  | Open (p : Z)
  | NewThread (h p : Z)
  | AddNode (a p : Z)
  | FreeNode (a : Z)
  | QueueOther (o : place)
  | DropOther (o : place) (l1 l2 : list work)
  | Transaction (h : Z) (reply : bool) (tgt : target) (flags : Z) (r : resources)
  | FreeBuffer (h : Z) (buffer : option Z)
  | RegisterLooper (h : Z)
  | EnterLooper (h : Z)
  | ExitLooper (h : Z)
  | SetMaxThreads (p n : Z)
  | ReadStart (h n : Z) (f2 f1 : bool)
  | ReadWake (h : Z) (interrupted : bool)
  | ReadNext (h : Z) (no_data room fault dead : bool) (n : Z) (f2 f1 : bool)
  | IoctlDone (h : Z)
  | ThreadExit (h : Z)
  | Flush (p : Z)
  | Release (p : Z) (threads : list Z) (referred : Z -> bool).

Definition exec (st : binder) (o : op) : option binder :=
  match o with
  | Open p => Some (binder_open st p)
  | NewThread h p => Some (new_thread st h p)
  | AddNode a p => Some (put_node st a (mk_node (Some p) false []))
  | FreeNode a => Some (free_node st a)
  | QueueOther o => list_add_tail st WorkOther o
  | DropOther o l1 l2 => put_list st o (l1 ++ l2)
  | Transaction h reply tgt flags r => binder_transaction st h reply tgt flags r
  | FreeBuffer h buffer => bc_free_buffer st h buffer
  | RegisterLooper h => bc_register_looper st h
  | EnterLooper h => bc_enter_looper st h
  | ExitLooper h => bc_exit_looper st h
  | SetMaxThreads p n => set_max_threads st p n
  | ReadStart h n f2 f1 => read_start st h n f2 f1
  | ReadWake h interrupted => read_wake st h interrupted
  | ReadNext h no_data room fault dead n f2 f1 => read_next st h no_data room fault dead n f2 f1
  | IoctlDone h => ioctl_done st h
  | ThreadExit h => binder_free_thread st h
  | Flush p => Some (binder_deferred_flush st p)
  | Release p threads referred => binder_deferred_release st p threads referred
  end.

(** A thread writes commands while it is not reading and has no error code to
    fetch. *)
Definition writing (st : binder) (h : Z) : Prop :=
  exists y, thread_at st !! h = Some y /\ reading y = Outside /\ return_error y = BR_OK.

Definition is_reading (st : binder) (h : Z) (f : phase -> Prop) : Prop :=
  exists y, thread_at st !! h = Some y /\ f (reading y).

(** When it can happen.  Memory that is given out is not in use, a node is not
    freed while a buffer holds it, the files of a process are released when
    none of its threads is in the driver.  [selfless] is that no call goes to
    the thread that sends it. *)
Definition allowed (selfless : bool) (st : binder) (o : op) : Prop :=
  match o with
  | Open p => proc_at st !! p = None
  | NewThread h p => thread_at st !! h = None /\ is_Some (proc_at st !! p)
  | AddNode a p => node_at st !! a = None /\ is_Some (proc_at st !! p)
  | FreeNode a => forall b y, buffer_at st !! b = Some y -> target_node y <> Some a
  | QueueOther o => (forall a, o <> OnNode a) /\ is_Some (work_list st o)
  | DropOther o l1 l2 => work_list st o = Some (l1 ++ WorkOther :: l2)
  | Transaction h reply tgt flags r => writing st h /\ resources_ok st r /\
      (forall a, tgt = Node a -> is_Some (node_at st !! a)) /\
      (selfless = true -> reply = false -> not_self st h tgt flags)
  | FreeBuffer h buffer => writing st h /\
      forall b, buffer = Some b -> exists z y, buffer_at st !! b = Some z /\ thread_at st !! h = Some y /\ b_proc z = th_proc y
  | RegisterLooper h | EnterLooper h | ExitLooper h => writing st h
  | SetMaxThreads p n => is_Some (proc_at st !! p) /\ -2147483648 <= n < 2147483648
  | Flush p => is_Some (proc_at st !! p)
  | ReadStart h _ _ _ | IoctlDone h | ThreadExit h => is_reading st h (fun r => r = Outside)
  | ReadWake h _ => is_reading st h (fun r => exists w, r = Asleep w)
  | ReadNext h _ _ _ _ _ _ _ => is_reading st h (fun r => exists w, r = Looping w)
  | Release p threads _ => is_Some (proc_at st !! p) /\ NoDup threads /\
      (forall h, h ∈ threads <-> exists y, thread_at st !! h = Some y /\ th_proc y = p) /\
      (forall h, h ∈ threads -> is_reading st h (fun r => r = Outside))
  end.

Definition init : binder := mk_binder ∅ ∅ ∅ ∅ ∅.

Inductive reachable (selfless : bool) : binder -> Prop :=
  | reach_init : reachable selfless init
  | reach_step st o st' : reachable selfless st -> allowed selfless st o -> exec st o = Some st' -> reachable selfless st'.

(** ** The invariant *)

Lemma init_calls_inv : calls_inv None None None init.
Proof.
  split.
  - exists []. split; simpl; try (intros; by set_solver).
    + constructor.
    + intros t. rewrite calls_lookup. simpl. rewrite lookup_empty. simpl. split; [by intros []|set_solver].
  - by intros h y Hy.
  - split; simpl; try (intros; by simplify_map_eq); by intros [].
Qed.

Lemma queue_other_inv st o : calls_inv None None None st -> is_Some (work_list st o) ->
  exists st', list_add_tail st WorkOther o = Some st' /\ calls_inv None None None st'.
Proof. intros H [l Hl]. destruct (add_inv _ _ _ st o WorkOther l H Hl) as (st' & ? & ? & _); [done|eauto]. Qed.

Lemma drop_other_inv st o l1 l2 : calls_inv None None None st -> work_list st o = Some (l1 ++ WorkOther :: l2) ->
  exists st', put_list st o (l1 ++ l2) = Some st' /\ calls_inv None None None st'.
Proof.
  intros [[C Hc] Ht Hs] Hl. destruct (put_list_spec st o _ (l1 ++ l2) Hl) as (st' & -> & Hlo & Et & Hw).
  exists st'. split; [done|]. split.
  - exists C. by rewrite (lists_only_stacks None _ _ Hlo), Et.
  - apply (threads_ok_lists None st); [done..|]. intros t x. rewrite Et. eauto.
  - apply (store_items None st); try done. intros o'. rewrite Hw. case_decide as E; [|done]. rewrite E, Hl. simpl.
    f_equal. unfold trans_in. by rewrite !omap_app.
Qed.

Lemma exec_calls_inv st o : calls_inv None None None st -> allowed true st o ->
  exists st', exec st o = Some st' /\ calls_inv None None None st'.
Proof.
  intros H. destruct o; simpl.
  - intros Hp. eexists. split; [done|]. by apply call_proc_inv.
  - intros [Hh Hp]. eexists. split; [done|]. by apply new_thread_inv.
  - intros [Ha Hp]. eexists. split; [done|]. by apply call_node_inv.
  - intros Ha. eexists. split; [done|]. by apply call_free_node_inv.
  - intros [_ Ho]. by apply queue_other_inv.
  - by apply drop_other_inv.
  - intros ((y & Hy & Hr & He) & Hok & Ht & Hself). destruct reply; [by apply (reply_inv st h y)|].
    apply (call_inv st h y); auto.
  - intros [(y & Hy & _) Hb]. apply (free_buffer_inv st h y); [done|done|]. intros b Eb.
    destruct (Hb b Eb) as (z & y' & ? & ? & ?). simplify_eq. eauto.
  - intros (y & Hy & _). by apply (register_looper_inv st h y).
  - intros (y & Hy & _). unfold bc_enter_looper. rewrite Hy. simpl. eexists. split; [done|]. by apply looper_inv.
  - intros (y & Hy & _). unfold bc_exit_looper. rewrite Hy. simpl. eexists. split; [done|]. by apply looper_inv.
  - intros [[q Hq] _]. unfold set_max_threads. rewrite Hq. simpl. eexists. split; [done|]. by apply (inv_proc _ _ _ _ _ q).
  - intros (y & Hy & _). by apply (read_start_inv st h y).
  - intros (y & Hy & w & Hw). by apply (read_wake_inv st h y w).
  - intros (y & Hy & w & Hw). by apply (read_next_inv st h y w).
  - intros (y & Hy & _). unfold ioctl_done. rewrite Hy. simpl. eexists. split; [done|]. by apply looper_inv.
  - intros (y & Hy & _). destruct (free_thread_inv None st h y H Hy) as (st' & ? & ? & _). eauto.
  - intros _. eexists. split; [done|]. by apply flush_inv.
  - intros (Hp & Hnd & Hth & _). destruct (release_proc_inv st p threads referred H Hp Hnd Hth) as (st' & ? & ? & _). eauto.
Qed.

Lemma reachable_calls_inv st : reachable true st -> calls_inv None None None st.
Proof.
  induction 1 as [|st o st' _ IH Ho He]; [apply init_calls_inv|].
  destruct (exec_calls_inv st o IH Ho) as (st'' & ? & ?). by simplify_eq.
Qed.

(** ** What the invariant says *)

Lemma call_view st t x : trans_at st !! t = Some x -> need_reply x = true ->
  exists v, calls None None (trans_at st) !! t = Some v /\ c_from v = from x /\ c_parent v = from_parent x /\
    c_to v = if bool_decide (is_Some (t_on x)) then None else Some (to_thread x).
Proof. intros Hx Hr. rewrite calls_lookup, Hx. simpl. unfold view. rewrite Hr. eauto. Qed.

Lemma call_of st t v : calls None None (trans_at st) !! t = Some v ->
  exists x, trans_at st !! t = Some x /\ need_reply x = true /\ c_from v = from x /\ c_parent v = from_parent x /\
    c_to v = if bool_decide (is_Some (t_on x)) then None else Some (to_thread x).
Proof.
  intros Hv. destruct (calls_some _ _ _ _ _ Hv) as (x & Hx & Hr & _). exists x.
  destruct (call_view st t x Hx Hr) as (v' & Hv' & ? & ? & ?). simplify_eq. done.
Qed.

(** The thread [h] waits for the transaction or works on it. *)
Definition in_call (h : Z) (x : transaction) : Prop :=
  from x = Some h \/ (to_thread x = Some h /\ t_on x = None).

Lemma part_in_call st h t : part (calls None None (trans_at st)) h t <->
  exists x, trans_at st !! t = Some x /\ need_reply x = true /\ in_call h x.
Proof.
  unfold part, caller, callee. split.
  - destruct (calls None None (trans_at st) !! t) as [v|] eqn:Hv; [|by intros []].
    destruct (call_of st t v Hv) as (x & Hx & Hr & Ef & _ & Et). simpl. rewrite Ef, Et.
    intros H. exists x. split_and!; [done..|]. destruct H as [H|H]; [by left|right].
    destruct (t_on x); [|by split]. rewrite bool_decide_true in H by eauto. done.
  - intros (x & Hx & Hr & H). destruct (call_view st t x Hx Hr) as (v & -> & Ef & _ & Et). simpl. rewrite Ef, Et.
    destruct H as [H|[H Ho]]; [by left|right]. rewrite Ho, bool_decide_false by (by intros []). done.
Qed.

Lemma thread_of_stack st h s : stacks None st !! h = Some s -> exists y, thread_at st !! h = Some y /\ transaction_stack y = s.
Proof. intros Hs. by destruct (stacks_some _ _ _ _ Hs). Qed.

(** The call below a call on its chain. *)
Definition below (st : binder) (t u : Z) : Prop :=
  exists x, trans_at st !! t = Some x /\ need_reply x = true /\ from_parent x = Some u.

Lemma chain_below st u c t : chain (calls None None (trans_at st)) (u :: c) -> t ∈ u :: c -> rtc (below st) u t.
Proof.
  revert u. induction c as [|w c IH]; intros u [(v & Hv & L & _) Hc] [->|Ht]%elem_of_cons; try done; [by apply elem_of_nil in Ht|].
  destruct (call_of st u v Hv) as (x & Hx & Hr & _ & Ep & _).
  apply rtc_l with w; [|by apply IH]. exists x. by rewrite <- Ep.
Qed.

(** A call is on its way, or somebody works on it. *)
Definition under_way (st : binder) (t : Z) : Prop :=
  exists x, trans_at st !! t = Some x /\ need_reply x = true /\
    ((exists o l, t_on x = Some o /\ work_list st o = Some l /\ WorkTransaction t ∈ l /\ forall a, o <> OnNode a) \/
     (exists g y, t_on x = None /\ to_thread x = Some g /\ thread_at st !! g = Some y /\ transaction_stack y = Some t)).

Lemma top_under_way st C t c : chains (calls None None (trans_at st)) (stacks None st) C -> store None st -> t :: c ∈ C ->
  under_way st t.
Proof.
  intros H Hs Hc. destruct (ch_ends _ _ _ H _ Hc) as (t' & c' & v & [= <- <-] & Hv & Hne).
  destruct (call_of st t v Hv) as (x & Hx & Hr & _ & _ & Et). exists x. split_and!; [done..|].
  destruct (t_on x) as [o|] eqn:Eo.
  - left. destruct (st_on _ _ Hs t x o Hx Eo) as (l & ? & ?). exists o, l. split_and!; try done.
    intros a ->. by apply (st_notnode _ _ Hs t x a Hx Hr).
  - right. rewrite bool_decide_false in Et by (by intros []). rewrite Et in Hne.
    destruct (to_thread x) as [g|] eqn:Eg; [|done]. exists g.
    assert (P : part (calls None None (trans_at st)) g t) by (apply part_in_call; exists x; split_and!; [done..|by right]).
    assert (M : mentions (calls None None (trans_at st)) g (t :: c)) by (apply mentions_cons; by left).
    destruct (ch_alive _ _ _ H g _ Hc M) as [s Hg]. pose proof (ch_stack _ _ _ H g s _ Hg Hc M) as E.
    destruct (thread_of_stack st g s Hg) as (y & Hy & Ey). exists y. split_and!; try done.
    rewrite Ey, E. simpl. by rewrite decide_True.
Qed.

(** Every pointer of the data structures refers to an object of its kind. *)
Record typed (st : binder) : Prop := {
  ty_stack h y t : thread_at st !! h = Some y -> transaction_stack y = Some t ->
    exists x, trans_at st !! t = Some x /\ need_reply x = true /\ in_call h x;
  ty_from t x g : trans_at st !! t = Some x -> from x = Some g -> is_Some (thread_at st !! g);
  ty_to t x g : trans_at st !! t = Some x -> need_reply x = true -> t_on x = None -> to_thread x = Some g ->
    is_Some (thread_at st !! g) /\ from x <> Some g;
  ty_parent t x u : trans_at st !! t = Some x -> need_reply x = true -> from_parent x = Some u ->
    exists z, trans_at st !! u = Some z /\ need_reply z = true /\ t_on z = None /\ to_thread z = from x;
  ty_buffer t x b : trans_at st !! t = Some x -> t_buffer x = Some b ->
    exists y, buffer_at st !! b = Some y /\ b_transaction y = Some t;
  ty_transaction b y t : buffer_at st !! b = Some y -> b_transaction y = Some t ->
    exists x, trans_at st !! t = Some x /\ t_buffer x = Some b;
  ty_list o l t : work_list st o = Some l -> WorkTransaction t ∈ l ->
    exists x, trans_at st !! t = Some x /\ t_on x = Some o;
  ty_once o l : work_list st o = Some l -> NoDup (trans_in l);
  ty_on t x o : trans_at st !! t = Some x -> t_on x = Some o ->
    exists l, work_list st o = Some l /\ WorkTransaction t ∈ l;
  ty_node b y a : buffer_at st !! b = Some y -> target_node y = Some a ->
    exists n, node_at st !! a = Some n /\ n_proc n = Some (b_proc y);
  ty_proc_b b y : buffer_at st !! b = Some y -> is_Some (proc_at st !! b_proc y);
  ty_proc_n a n p : node_at st !! a = Some n -> n_proc n = Some p -> is_Some (proc_at st !! p);
  ty_proc_t h y : thread_at st !! h = Some y -> is_Some (proc_at st !! th_proc y)
}.

Lemma part_alive st C h t : chains (calls None None (trans_at st)) (stacks None st) C ->
  part (calls None None (trans_at st)) h t -> is_Some (thread_at st !! h).
Proof.
  intros H P. assert (Ht : t ∈ mjoin C).
  { apply (ch_dom _ _ _ H). apply part_in_call in P as (x & Hx & Hr & _). destruct (call_view st t x Hx Hr) as (v & ? & _). eauto. }
  apply list_elem_of_join in Ht as (c & Ht & Hc).
  destruct (ch_alive _ _ _ H h c Hc) as [s Hs]; [apply Exists_exists; eauto|].
  destruct (thread_of_stack st h s Hs) as (y & ? & _). eauto.
Qed.

Lemma parent_taken st C t x u : chains (calls None None (trans_at st)) (stacks None st) C ->
  trans_at st !! t = Some x -> need_reply x = true -> from_parent x = Some u ->
  exists z, trans_at st !! u = Some z /\ need_reply z = true /\ t_on z = None /\ to_thread z = from x.
Proof.
  intros H Hx Hr Ep. destruct (call_view st t x Hx Hr) as (v & Hv & Ef & Ev & _).
  assert (Ht : t ∈ mjoin C) by (apply (ch_dom _ _ _ H); eauto).
  apply list_elem_of_join in Ht as (c & Ht & Hc). pose proof (ch_chain _ _ _ H c Hc) as Hch. clear Hc.
  induction c as [|w c IH]; [by apply elem_of_nil in Ht|]. destruct Hch as [(v' & Hv' & L1 & L2 & _) Hch].
  apply elem_of_cons in Ht as [<-|Ht]; [|by apply IH]. simplify_eq. rewrite Ev, Ep in L1.
  destruct c as [|u' c]; simplify_eq/=. destruct (L2 u' c eq_refl) as (z & Hz & E).
  destruct (call_of st u' z Hz) as (zx & ? & ? & _ & _ & E'). exists zx. rewrite E' in E.
  destruct (t_on zx); [by rewrite bool_decide_true in E by eauto|]. rewrite bool_decide_false in E by (by intros []).
  split_and!; [done..|congruence].
Qed.

Lemma inv_typed st : calls_inv None None None st -> typed st.
Proof.
  intros [[C H] _ Hs]. split; try apply Hs.
  - intros h y t Hy Et. assert (HS : stacks None st !! h = Some (Some t)) by (by rewrite stacks_lookup, Hy, <- Et).
    destruct (thread_chain _ _ _ _ _ H HS) as (c & C' & _ & E & _).
    destruct (top_part _ _ _ _ (eq_sym E)) as [_ P]. by apply part_in_call.
  - intros t x g Hx Ef. apply (part_alive st C g t H). apply part_in_call. exists x.
    destruct (need_reply x) eqn:Hr; [by split_and!; [..|left]|]. by rewrite (st_plain _ _ Hs t x Hx Hr) in Ef.
  - intros t x g Hx Hr Ho Eg. split; [|intros Ef; by apply (st_self _ _ Hs t x g)].
    apply (part_alive st C g t H). apply part_in_call. exists x. by split_and!; [..|right].
  - intros t x u. by apply (parent_taken st C).
  - intros b y a Hy Ea. destruct (st_node _ _ Hs b y a Hy Ea) as (n & ? & ? & _); [done|eauto].
Qed.

(** ** Reachable states *)

(** Asynchronous transactions to a node are given out one at a time. *)
Definition one_at_a_time (st : binder) : Prop :=
  forall a b b' y y', buffer_at st !! b = Some y -> buffer_at st !! b' = Some y' ->
    async_transaction y = true -> async_transaction y' = true -> target_node y = Some a -> target_node y' = Some a ->
    outside st a y -> outside st a y' -> b = b'.

(** ** Runs *)

Fixpoint run (st : binder) (l : list op) : option binder :=
  match l with
  | [] => Some st
  | o :: l => st ← exec st o; run st l
  end.

Fixpoint run_allowed (selfless : bool) (st : binder) (l : list op) : Prop :=
  match l with
  | [] => True
  | o :: l => allowed selfless st o /\ match exec st o with Some st' => run_allowed selfless st' l | None => False end
  end.

Lemma run_reaches selfless st l : reachable selfless st -> run_allowed selfless st l ->
  exists st', run st l = Some st' /\ reachable selfless st'.
Proof.
  revert st. induction l as [|o l IH]; intros st H; simpl; [eauto|]. intros [Ho Hl].
  destruct (exec st o) as [st1|] eqn:E; [|done]. simpl. apply IH; [|done]. by apply (reach_step _ st o).
Qed.

(** Evaluates a concrete run, step by step. *)
Ltac run_step :=
  lazymatch goal with
  | |- run_allowed ?s ?st (?o :: ?l) =>
      split; [|let r := eval vm_compute in (exec st o) in
               replace (exec st o) with r by (vm_compute; reflexivity); cbv beta iota]
  | |- run_allowed _ _ [] => exact I
  end.

Ltac allowed_now :=
  lazymatch goal with
  | |- _ /\ _ => split; allowed_now
  | |- writing _ _ => eexists; split_and!; vm_compute; reflexivity
  | |- is_reading _ _ _ => eexists; split; [vm_compute; reflexivity|simpl; eauto]
  | |- resources_ok _ _ => split; simpl; intros; simplify_eq; vm_compute; reflexivity
  | |- is_Some _ => vm_compute; eauto
  | |- not_self _ _ _ _ => vm_compute; try discriminate; exact I
  | |- forall _, _ => intros; simplify_eq; allowed_now
  | |- _ => vm_compute; reflexivity
  end.

(** Two processes with a thread and a node each; the first calls the second,
    which reads the call. *)
Definition setup : list op :=
  [Open 1; Open 2; NewThread 10 1; NewThread 20 2; AddNode 100 1; AddNode 200 2;
   Transaction 10 false (Node 200) 0 (mk_resources (Some 1000) true (Some 5000) None);
   ReadStart 20 256 false false; ReadWake 20 false; ReadNext 20 true true false false 256 false false].

(** The second calls back, and the first, which answers that call in the same
    thread, calls itself. *)
Definition call_back : list op :=
  [Transaction 20 false (Node 100) 0 (mk_resources (Some 1001) true (Some 5001) None);
   ReadStart 10 256 false false; ReadWake 10 false;
   ReadNext 10 true true false false 256 false false; ReadNext 10 true true false false 256 false false;
   Transaction 10 false (Node 100) 0 (mk_resources (Some 1002) true (Some 5002) None);
   Transaction 10 true InvalidHandle 0 (mk_resources (Some 1003) true (Some 5003) None)].

Definition called : binder := default init (run init setup).

Lemma setup_reachable : reachable true called.
Proof.
  destruct (run_reaches true init setup (reach_init true)) as (st' & E & H).
  { unfold setup. repeat (run_step; [cbn [allowed]; allowed_now|]). exact I. }
  unfold called. by rewrite E.
Qed.

(** ** Theorems *)

(** C34. In every state processes can reach, every operation they can do then
    succeeds: no BUG(), no NULL pointer, no use of freed memory; and what they
    wait for is never given out twice: a node has one asynchronous transaction
    outside of its list. *)
Theorem binder_calls_safe st : reachable true st ->
  one_at_a_time st /\ forall o, allowed true st o -> exists st', exec st o = Some st'.
Proof.
  intros H%reachable_calls_inv. split.
  - intros a b b' y y' ????????. by eapply (st_out _ _ (ci_store _ _ _ _ H)).
  - intros o Ho. destruct (exec_calls_inv st o H Ho) as (st' & ? & _). eauto.
Qed.

Lemma binder_calls_safe_witness : one_at_a_time called /\ exists st', exec called (ThreadExit 20) = Some st'.
Proof.
  split; apply (binder_calls_safe called setup_reachable). cbn [allowed]. allowed_now.
Defined.





Lemma reachable_any st : reachable true st -> reachable false st.
Proof.
  induction 1 as [|st o st' _ IH Ho He]; [constructor|]. apply (reach_step _ st o); [done| |done].
  destruct o; try done. destruct Ho as (? & ? & ? & _). by split_and!.
Qed.

(** C39. A thread can make the kernel stop: the context manager answers in
    thread 10 a call that was made for a call of its own, sends from there a
    call to itself, which is queued for the sending thread, and a reply, and
    ends the thread. *)
Theorem self_call_bug : exists st h, reachable false st /\ allowed false st (ThreadExit h) /\ exec st (ThreadExit h) = None.
Proof.
  destruct (run_reaches false called call_back (reachable_any _ setup_reachable)) as (st' & E & H).
  { unfold call_back. repeat (run_step; [cbn [allowed]; allowed_now|]). exact I. }
  exists st', 10. split; [done|]. vm_compute in E. injection E as <-. split; [cbn [allowed]; allowed_now|vm_compute; reflexivity].
Qed.

End BinderCalls.
