(* ===== verification/BinderReplies.v ===== *)
(** How a call ends: with the reply of the thread that works on it, or with an
    error code when that thread is gone. *)

From S2P Require Import Prelude BinderThreads BinderStacks BinderCallsInv BinderCallsSafe BinderCallsSend BinderCalls.
Local Open Scope Z_scope.
Local Open Scope kernel_scope.

Module BinderReplies.
Import BinderThreads BinderStacks BinderCallsInv BinderCallsSafe BinderCallsSend BinderCalls.

(** ** Replies *)

Lemma queue_transaction st g z u x : thread_at st !! g = Some z -> trans_at st !! u = Some x ->
  list_add_tail st (WorkTransaction u) (OnThread g) =
  Some (put_trans (put_thread st g (set_todo z (th_todo z ++ [WorkTransaction u]))) u (set_on x (Some (OnThread g)))).
Proof. intros Hz Hx. unfold list_add_tail. simpl. rewrite Hz. simpl. by rewrite Hx. Qed.

Lemma queue_complete st h y : thread_at st !! h = Some y ->
  list_add_tail st WorkComplete (OnThread h) = Some (put_thread st h (set_todo y (th_todo y ++ [WorkComplete]))).
Proof. intros Hy. unfold list_add_tail. simpl. by rewrite Hy. Qed.

Lemma detach_frame st x st' : detach st x = Some st' -> thread_at st' = thread_at st /\ trans_at st' = trans_at st /\
  (forall b, t_buffer x <> Some b -> buffer_at st' !! b = buffer_at st !! b).
Proof.
  unfold detach. destruct (t_buffer x) as [b|]; [|intros; by simplify_eq]. destruct (buffer_at st !! b) as [y|]; [|done].
  simpl. intros. simplify_eq. split_and!; [done..|]. intros c Hc. simpl. rewrite lookup_insert_ne; congruence.
Qed.

Lemma pop_frame st h t x y st' : trans_at st !! t = Some x -> thread_at st !! h = Some y ->
  binder_pop_transaction st (Some h) t = Some st' ->
  thread_at st' = <[h := set_stack y (from_parent x)]> (thread_at st) /\ trans_at st' = delete t (trans_at st) /\
  (forall b, t_buffer x <> Some b -> buffer_at st' !! b = buffer_at st !! b).
Proof.
  intros Hx Hy. unfold binder_pop_transaction. rewrite Hx. simpl. rewrite Hy. simpl.
  repeat case_bool_decide; simpl; try done. destruct (detach _ _) as [st1|] eqn:E; [|done]. simpl. intros. simplify_eq.
  apply detach_frame in E as (E1 & E2 & E3). simpl in *. by rewrite E1, E2.
Qed.

Section Serving.
Variables (st : binder) (h : Z) (y : binder_thread) (t : Z) (x : transaction) (g : Z) (z : binder_thread).
Hypothesis H : calls_inv None None None st.
Hypothesis Hy : thread_at st !! h = Some y.
Hypothesis Hs : transaction_stack y = Some t.
Hypothesis Hx : trans_at st !! t = Some x.
Hypothesis Hto : to_thread x = Some h.
Hypothesis Hf : from x = Some g.
Hypothesis Hz : thread_at st !! g = Some z.

Lemma caller_waits : transaction_stack z = Some t /\ g <> h /\ return_error2 z = BR_OK.
Proof using H Hy Hs Hx Hto Hf Hz.
  destruct (answer_target st h y t x H Hy Hs Hx Hto g Hf) as (z' & Hz' & Es & Hne). simplify_eq.
  split_and!; [done..|]. by apply (ok_waiting _ _ _ (ci_threads _ _ _ _ H g z Hz ltac:(done)) t x).
Qed.

Lemma reply_spec tgt flags u b : return_error y = BR_OK -> reading y = Outside ->
  trans_at st !! u = None -> buffer_at st !! b = None ->
  exists st', binder_transaction st h true tgt flags (mk_resources (Some u) true (Some b) None) = Some st' /\
    thread_at st' = <[h := set_todo (set_stack y (to_parent x)) (th_todo y ++ [WorkComplete])]>
      (<[g := set_todo (set_stack z (from_parent x)) (th_todo z ++ [WorkTransaction u])]> (thread_at st)) /\
    trans_at st' = <[u := mk_transaction (Some (OnThread g)) None None (Some (th_proc z)) (Some g) None false (Some b) flags]>
      (delete t (trans_at st)) /\
    buffer_at st' !! b = Some (mk_buffer (th_proc z) (Some u) None false false).
Proof using H Hy Hs Hx Hto Hf Hz.
  intros He Hr Hu Hb. destruct caller_waits as (Ez & Hne & _).
  destruct (reply_inv st h y tgt flags (mk_resources (Some u) true (Some b) None) H Hy He Hr) as (st' & E & _).
  { split; simpl; intros; by simplify_eq. }
  exists st'. split; [done|]. revert E. unfold binder_transaction, route_reply. rewrite Hy. simpl. rewrite Hs, Hx. simpl.
  rewrite (bool_decide_true _ Hto), Hf. simpl. rewrite lookup_insert_ne, Hz by done. simpl.
  rewrite (bool_decide_true _ Ez). unfold transaction_body, transaction_send. simpl. rewrite lookup_insert_eq. simpl.
  rewrite lookup_insert_eq. simpl. destruct (binder_pop_transaction _ _ _) as [st2|] eqn:E2; [|done]. simpl.
  assert (Hut : u <> t) by congruence.
  assert (Hbx : t_buffer x <> Some b).
  { intros Eb. destruct (st_tb _ _ (ci_store _ _ _ _ H) t x b Hx Eb) as (? & ? & _). congruence. }
  apply (pop_frame _ g t x z) in E2 as (T2 & R2 & B2); [|simpl; by rewrite lookup_insert_ne..]. simpl in *.
  rewrite (queue_transaction st2 g (set_stack z (from_parent x)) u
    (mk_transaction None None None (Some (th_proc z)) (Some g) None false (Some b) flags)); simpl.
  - rewrite (queue_complete _ h (set_stack y (to_parent x))); simpl.
    + intros. simplify_eq/=. rewrite T2, R2, B2, lookup_insert_eq by done. split_and!; [| |done].
      * apply map_eq. intros k. destruct (decide (k = h)) as [->|?]; [by rewrite !lookup_insert_eq|].
        rewrite !(lookup_insert_ne _ h) by done. destruct (decide (k = g)) as [->|?]; [by rewrite !lookup_insert_eq|].
        by rewrite !lookup_insert_ne.
      * apply map_eq. intros k. destruct (decide (k = u)) as [->|?]; [by rewrite !lookup_insert_eq|].
        rewrite !(lookup_insert_ne _ u) by done. destruct (decide (k = t)) as [->|?]; [by rewrite !lookup_delete_eq|].
        by rewrite !lookup_delete_ne, lookup_insert_ne.
    + rewrite T2, !lookup_insert_ne by done. by rewrite lookup_insert_eq.
  - by rewrite T2, lookup_insert_eq.
  - rewrite R2, lookup_delete_ne by done. by rewrite lookup_insert_eq.
Qed.

(** ** The end of the thread *)

(** What it still has to do for others is no call. *)
Lemma todo_plain u w : WorkTransaction u ∈ th_todo y -> trans_at st !! u = Some w -> need_reply w = false.
Proof using H Hy Hs Hx Hto.
  clear Hf Hz z g. intros Hu Hw. destruct (need_reply w) eqn:Hr; [exfalso|done].
  destruct (serving_call st h y t x H Hy Hs Hx Hto) as (_ & Ho & _ & Hv). destruct H as [[C Hc] _ Hst].
  destruct (st_list _ _ Hst (OnThread h) (th_todo y) u) as (w' & Hw' & Eo); [simpl; by rewrite Hy|done|]. simplify_eq.
  assert (Hvu : exists v, calls None None (trans_at st) !! u = Some v /\ c_to v = None /\ c_hint v = Some h).
  { rewrite calls_lookup, Hw. simpl. unfold view. rewrite Hr, Eo. simpl. eauto. }
  destruct Hvu as (v & Hvu & Ev & Eh).
  assert (HS : stacks None st !! h = Some (Some t)) by (by rewrite stacks_lookup, Hy, <- Hs).
  assert (Ec : callee (calls None None (trans_at st)) t = Some h) by (unfold callee; by rewrite Hv).
  destruct (served_chain _ _ _ _ _ Hc HS Ec) as (c & C1 & P1). destruct (untaken_chain _ _ _ _ _ Hc Hvu Ev) as (d & C2 & P2).
  assert (Hd : u :: d ∈ C) by (rewrite P2; simpl; set_solver). assert (Hcc : t :: c ∈ C) by (rewrite P1; simpl; set_solver).
  destruct (ch_chain _ _ _ Hc _ Hd) as [(v' & Hv' & _ & _ & _ & L4) _]. simplify_eq. destruct (L4 h Eh) as [M _].
  assert (u :: d = t :: c) as E; [|simplify_eq; congruence].
  apply (ch_one _ _ _ Hc h); [done..| |]; apply mentions_cons; [by right|left]. by right.
Qed.

End Serving.

(** The stack of a thread is taken apart without touching what other threads
    wait for. *)
Definition leave_key (h : Z) (x : transaction) : bool * option Z * option Z :=
  (need_reply x, from_parent x, if bool_decide (from x = Some h) then None else from x).

Lemma leave_stack_key h fuel st t st' : leave_stack fuel st h t = Some st' ->
  leave_key h <$> trans_at st' = leave_key h <$> trans_at st.
Proof.
  revert st t. induction fuel as [|fuel IH]; intros st [t|] E; simpl in E; simplify_eq; try done.
  destruct (trans_at st !! t) as [x|] eqn:Hx; [|done]. simpl in E.
  destruct (bool_decide (to_thread x = Some h)).
  - destruct (detach st x) as [st1|] eqn:E1; [|done]. simpl in E. apply detach_frame in E1 as (_ & E2 & _).
    rewrite (IH _ _ E). simpl. rewrite fmap_insert, E2. apply insert_id. by rewrite lookup_fmap, Hx.
  - destruct (bool_decide (from x = Some h)) eqn:Ef; [|done]. rewrite (IH _ _ E). simpl. rewrite fmap_insert. apply insert_id.
    rewrite lookup_fmap, Hx. simpl. unfold leave_key. simpl. by rewrite Ef.
Qed.

Lemma failed_reply_frame fuel st t e x h y st' : trans_at st !! t = Some x -> from x = Some h -> thread_at st !! h = Some y ->
  return_error2 y = BR_OK -> failed_reply (S fuel) st t e = Some st' ->
  thread_at st' = <[h := set_errors (set_stack y (from_parent x)) e (return_error y)]> (thread_at st) /\
  trans_at st' = delete t (trans_at st).
Proof.
  intros Hx Hf Hy E2. simpl. rewrite Hx. simpl. rewrite Hf, Hy. simpl.
  assert (Em : exists e1, make_room y = set_errors y BR_OK e1 /\ e1 = return_error y).
  { unfold make_room. rewrite E2, Z.eqb_refl, andb_true_r. destruct (Z.eqb_spec (return_error y) BR_OK) as [E|E]; simpl; [|eauto].
    exists BR_OK. split; [|done]. destruct y. simpl in *. by subst. }
  destruct Em as (e1 & -> & ->). simpl. destruct (binder_pop_transaction _ _ _) as [st1|] eqn:E; [|done].
  apply (pop_frame _ h t x (set_errors y BR_OK (return_error y))) in E as (T & R & _); [|done|simpl; by rewrite lookup_insert_eq].
  simpl. rewrite T. simpl. rewrite lookup_insert_eq. simpl. intros. simplify_eq/=. rewrite T, R. simpl.
  by rewrite !insert_insert_eq.
Qed.

(** Releasing work that is no call. *)
Definition plain_work (st : binder) (l : list work) : Prop :=
  forall u x b z, WorkTransaction u ∈ l -> trans_at st !! u = Some x -> t_buffer x = Some b -> buffer_at st !! b = Some z ->
    bool_decide (is_Some (target_node z)) && negb (one_way (t_flags x)) = false.

Lemma release_plain h g t fuel st y st' : thread_at st !! h = Some y -> plain_work st (th_todo y) -> g <> h ->
  release_list fuel st (OnThread h) = Some st' ->
  thread_at st' !! g = thread_at st !! g /\ (trans_at st !! t = None -> trans_at st' !! t = None).
Proof.
  revert st y. induction fuel as [|fuel IH]; intros st y Hy Hp Hne; simpl; rewrite Hy; simpl;
    destruct (th_todo y) as [|w l] eqn:El; try (intros; by simplify_eq).
  unfold list_del_first. simpl. rewrite ?Hy. simpl. rewrite ?El. simpl. rewrite ?Hy. simpl.
  destruct w as [u| |]; simpl.
  2-3: intros E; eapply (IH _ (set_todo y l)) in E as [E1 E2]; [|simpl; by rewrite lookup_insert_eq| |done];
       [simpl in *; by rewrite E1, lookup_insert_ne|intros u x b z Hu; apply (Hp u x b z); simpl in Hu; set_solver].
  destruct (trans_at st !! u) as [x|] eqn:Hx; [|done]. simpl. rewrite lookup_insert_eq. simpl.
  destruct (t_buffer x) as [b|] eqn:Eb; [|done]. simpl. destruct (buffer_at st !! b) as [z|] eqn:Hz; [|done]. simpl.
  rewrite (Hp u x b z) by (done || set_solver). intros E.
  eapply (IH _ (set_todo y l)) in E as [E1 E2]; [|simpl; by rewrite lookup_insert_eq| |done].
  - simpl in *. rewrite E1, lookup_insert_ne by done. split; [done|]. intros Ht. apply E2.
    rewrite lookup_insert_ne; [done|]. intros ->. congruence.
  - intros u' x' b' z' Hu Hx' Eb' Hz'. simpl in *. apply lookup_insert_Some in Hx' as [[<- <-]|[_ Hx']]; simpl in *.
    + apply (Hp u x b' z'); (done || set_solver).
    + apply (Hp u' x' b' z'); (done || set_solver).
Qed.

Lemma exit_spec st h y t x g z : calls_inv None None None st -> thread_at st !! h = Some y -> transaction_stack y = Some t ->
  trans_at st !! t = Some x -> to_thread x = Some h -> from x = Some g -> thread_at st !! g = Some z ->
  exists st', binder_free_thread st h = Some st' /\ thread_at st' !! h = None /\ trans_at st' !! t = None /\
    thread_at st' !! g = Some (set_errors (set_stack z (from_parent x)) BR_DEAD_REPLY (return_error z)).
Proof.
  intros H Hy Hs Hx Hto Hf Hz. destruct (caller_waits st h y t x g z H Hy Hs Hx Hto Hf Hz) as (_ & Hne & E2).
  destruct (free_thread_inv None st h y H Hy) as (st' & E & _). exists st'. split; [done|]. revert E.
  unfold binder_free_thread. rewrite Hy. cbn [mbind option_bind]. rewrite (send_reply_spec None st h y H Hy).
  assert (worked_on (calls None None (trans_at st)) h (transaction_stack y) = Some t) as EL.
  { pose proof (send_reply_spec None st h y H Hy) as E. rewrite Hs in *. rewrite Hx in E.
    cbn [mbind option_bind] in E. rewrite (bool_decide_true _ Hto) in E. congruence. }
  destruct (leave_inv None st h y H Hy) as (st1 & E1 & I1 & (O1 & _) & B1 & T1). rewrite EL in *. rewrite E1.
  cbn [mbind option_bind]. destruct (T1 t eq_refl) as (x1 & Hx1 & Hr1 & Ho1).
  pose proof (leave_stack_key h _ _ _ _ E1) as Ek.
  assert (Ef : from x1 = Some g /\ from_parent x1 = from_parent x).
  { destruct (fmap_eq_lookup _ _ _ t x1 (eq_sym Ek) Hx1) as (x' & Hx' & E'). assert (x' = x) as -> by congruence.
    unfold leave_key in E'.
    rewrite (bool_decide_false (from x = Some h)) in E' by congruence. injection E' as _ E3 E4. split; [|done].
    case_bool_decide; congruence. }
  destruct Ef as [Ef Ep].
  destruct (send_failed_reply_inv (Some h) None BR_DEAD_REPLY st1 t x1 dead_not_ok I1 Hx1 Hr1 Ho1) as (st2 & E3 & I2 & Q2 & S2).
  rewrite E3. cbn [mbind option_bind]. revert E3. unfold binder_send_failed_reply. rewrite Hx1. cbn [mbind option_bind].
  destruct (BUG_ON _) as [[]|]; [|done]. cbn [mbind option_bind]. destruct (size (trans_at st1)) as [|n]; [done|]. intros E3.
  apply (failed_reply_frame _ _ _ _ x1 g z) in E3 as [T3 R3]; [|done|done|by rewrite O1|done]. rewrite Ep, O1 in T3.
  assert (Hy2 : thread_at st2 !! h = Some y) by (by rewrite T3, lookup_insert_ne).
  unfold binder_release_work. simpl. rewrite Hy2. simpl. destruct (release_list _ _ _) as [st3|] eqn:E4; [|done]. simpl.
  intros. simplify_eq/=. rewrite lookup_delete_eq, lookup_delete_ne by done.
  destruct (release_plain h g t (length (th_todo y)) st2 y st3 Hy2) as [E5 E6]; [|done|done|].
  - intros u w b q Hu Hw Eb Hq. rewrite <- (st_kind _ _ (ci_store _ _ _ _ I2) u w b q Hw Eb Hq).
    destruct (fmap_eq_lookup _ _ _ u w (eq_sym Ek) (S2 u w Hw)) as (w' & Hw' & E'). unfold leave_key in E'. injection E' as E' _ _.
    rewrite <- E'. by apply (todo_plain st h y t x H Hy Hs Hx Hto u w').
  - rewrite E5, T3, lookup_insert_eq, E6 by (by rewrite R3, lookup_delete_eq). done.
Qed.

(** ** Theorems *)

(** Thread [h] works on the call [t], for which thread [g] waits. *)
Record serving (st : binder) (h : Z) (y : binder_thread) (t : Z) (x : transaction) (g : Z) (z : binder_thread) : Prop := {
  sv_thread : thread_at st !! h = Some y;
  sv_stack : transaction_stack y = Some t;
  sv_call : trans_at st !! t = Some x;
  sv_to : to_thread x = Some h;
  sv_from : from x = Some g;
  sv_caller : thread_at st !! g = Some z
}.

(** C37. A reply reaches the thread that waits: the call on top of the
    replying thread's stack is on top of the caller's stack, it ends and both
    threads go back to what they did before it; the reply is put behind the
    caller's work, in a buffer of its process, and the completion behind the
    sender's. *)
Theorem reply_delivered st h y t x g z tgt flags u b : reachable true st -> writing st h -> serving st h y t x g z ->
  trans_at st !! u = None -> buffer_at st !! b = None ->
  transaction_stack z = Some t /\
  exists st', binder_transaction st h true tgt flags (mk_resources (Some u) true (Some b) None) = Some st' /\
    thread_at st' = <[h := set_todo (set_stack y (to_parent x)) (th_todo y ++ [WorkComplete])]>
      (<[g := set_todo (set_stack z (from_parent x)) (th_todo z ++ [WorkTransaction u])]> (thread_at st)) /\
    trans_at st' = <[u := mk_transaction (Some (OnThread g)) None None (Some (th_proc z)) (Some g) None false (Some b) flags]>
      (delete t (trans_at st)) /\
    buffer_at st' !! b = Some (mk_buffer (th_proc z) (Some u) None false false).
Proof.
  intros H%reachable_calls_inv (y' & Hy' & Hr & He) [Hy Hs Hx Hto Hf Hz] Hu Hb. assert (y' = y) as -> by congruence. split.
  - by apply (caller_waits st h y t x g z).
  - by apply (reply_spec st h y t x g z).
Qed.

Lemma reply_delivered_witness : exists y x z, serving called 20 y 1000 x 10 z /\
  transaction_stack z = Some 1000 /\
  exists st', binder_transaction called 20 true InvalidHandle 0 (mk_resources (Some 1001) true (Some 5001) None) = Some st' /\
    thread_at st' = <[20 := set_todo (set_stack y (to_parent x)) (th_todo y ++ [WorkComplete])]>
      (<[10 := set_todo (set_stack z (from_parent x)) (th_todo z ++ [WorkTransaction 1001])]> (thread_at called)) /\
    trans_at st' = <[1001 := mk_transaction (Some (OnThread 10)) None None (Some (th_proc z)) (Some 10) None false (Some 5001) 0]>
      (delete 1000 (trans_at called)) /\
    buffer_at st' !! 5001 = Some (mk_buffer (th_proc z) (Some 1001) None false false).
Proof.
  assert (exists y x z, serving called 20 y 1000 x 10 z) as (y & x & z & S) by (do 3 eexists; split; vm_compute; reflexivity).
  exists y, x, z. split; [exact S|]. apply (reply_delivered called 20 y 1000 x 10 z InvalidHandle 0 1001 5001 setup_reachable);
    [eexists; split_and!; vm_compute; reflexivity|exact S|vm_compute; reflexivity..].
Defined.

(** A call whose thread exits ends with BR_DEAD_REPLY: whatever else that
    thread has on its stack and on its list, the call is freed and the caller
    goes back to what it did before, with the error code, and keeps the one it
    may have had as the second. *)
Lemma exit_dead_reply st h y t x g z : reachable true st -> serving st h y t x g z ->
  exists st', binder_free_thread st h = Some st' /\ thread_at st' !! h = None /\ trans_at st' !! t = None /\
    thread_at st' !! g = Some (set_errors (set_stack z (from_parent x)) BR_DEAD_REPLY (return_error z)).
Proof. intros H%reachable_calls_inv [Hy Hs Hx Hto Hf Hz]. by apply (exit_spec st h y t x g z). Qed.

End BinderReplies.
