(* ===== verification/BinderPool.v ===== *)
(** The thread pool of a process: its counters say how many threads sleep and
    how many have been asked for. *)

From S2P Require Import Prelude BinderThreads BinderStacks BinderCallsInv BinderCallsSafe BinderCallsRead BinderCalls.
Local Open Scope Z_scope.
Local Open Scope kernel_scope.

Module BinderPool.
Import BinderThreads BinderStacks BinderCallsInv BinderCallsSafe BinderCallsRead BinderCalls.

(** ** What the pool depends on *)

Definition thread_key (y : binder_thread) : Z * phase := (th_proc y, reading y).

Definition proc_key (q : binder_proc) : Z * Z * Z * Z :=
  (max_threads q, requested_threads q, requested_threads_started q, ready_threads q).

Definition pool (st : binder) : gmap Z (Z * phase) * gmap Z (Z * Z * Z * Z) :=
  (thread_key <$> thread_at st, proc_key <$> proc_at st).

Lemma pool_thread st h y y' : thread_at st !! h = Some y -> thread_key y' = thread_key y -> pool (put_thread st h y') = pool st.
Proof.
  intros Hy E. unfold pool. simpl. f_equal. rewrite fmap_insert, E. apply insert_id. by rewrite lookup_fmap, Hy.
Qed.

Lemma pool_proc st p q q' : proc_at st !! p = Some q -> proc_key q' = proc_key q -> pool (put_proc st p q') = pool st.
Proof.
  intros Hq E. unfold pool. simpl. f_equal. rewrite fmap_insert, E. apply insert_id. by rewrite lookup_fmap, Hq.
Qed.

Ltac same_pool :=
  first [ done
        | match goal with H : pool ?s = _ |- pool ?s = _ => rewrite H; clear H; same_pool end
        | erewrite pool_thread by (eassumption || done); same_pool
        | erewrite pool_proc by (eassumption || done); same_pool ].

Lemma put_list_pool st o l st' : put_list st o l = Some st' -> pool st' = pool st.
Proof. destruct o; simpl; intros; follow; same_pool. Qed.

Lemma entry_on_pool st w o st' : entry_on st w o = Some st' -> pool st' = pool st.
Proof. destruct w; simpl; intros; follow; same_pool. Qed.

Lemma list_add_tail_pool st w o st' : list_add_tail st w o = Some st' -> pool st' = pool st.
Proof. unfold list_add_tail. intros. follow. by erewrite entry_on_pool, put_list_pool by eassumption. Qed.

Lemma list_del_first_pool st o w st' : list_del_first st o = Some (w, st') -> pool st' = pool st.
Proof. unfold list_del_first. intros. follow. by erewrite entry_on_pool, put_list_pool by eassumption. Qed.

Lemma detach_pool st x st' : detach st x = Some st' -> pool st' = pool st.
Proof. unfold detach. intros. follow; same_pool. Qed.

Lemma pop_pool st g t st' : binder_pop_transaction st g t = Some st' -> pool st' = pool st.
Proof.
  unfold binder_pop_transaction. intros. follow; change (pool (free_trans ?s _)) with (pool s);
    erewrite detach_pool by eassumption; same_pool.
Qed.

Lemma failed_reply_pool fuel st t e st' : failed_reply fuel st t e = Some st' -> pool st' = pool st.
Proof.
  revert st t. induction fuel as [|fuel IH]; simpl; intros st t E; [done|].
  assert (Hm : forall y, thread_key (make_room y) = thread_key y) by (intros y; unfold make_room; by case_match).
  follow; repeat match goal with H : binder_pop_transaction _ _ _ = Some _ |- _ => apply pop_pool in H end.
  - erewrite pool_thread by (eassumption || done). match goal with H : pool ?s = _ |- pool ?s = _ => rewrite H end. by eapply pool_thread.
  - by eapply pool_thread.
  - by rewrite (IH _ _ E).
  - done.
Qed.

Lemma send_failed_reply_pool st t e st' : binder_send_failed_reply st t e = Some st' -> pool st' = pool st.
Proof. unfold binder_send_failed_reply. intros. follow. by eapply failed_reply_pool. Qed.

Lemma transaction_failed_pool st h t e st' : transaction_failed st h t e = Some st' -> pool st' = pool st.
Proof.
  unfold transaction_failed. intros. follow; [|same_pool]. erewrite send_failed_reply_pool by eassumption. same_pool.
Qed.

Lemma transaction_send_pool st h reply t p g a r st' : transaction_send st h reply t p g a r = Some st' -> pool st' = pool st.
Proof.
  unfold transaction_send. intros E. follow; repeat match goal with
    | H : list_add_tail _ _ _ = Some _ |- _ => apply list_add_tail_pool in H
    | H : binder_pop_transaction _ _ _ = Some _ |- _ => apply pop_pool in H
    end; same_pool.
Qed.

Lemma transaction_body_pool st h reply flags r p g a t st' : transaction_body st h reply flags r p g a t = Some st' ->
  pool st' = pool st.
Proof.
  unfold transaction_body. intros E. repeat case_match; try (by eapply transaction_failed_pool).
  all: by erewrite transaction_send_pool by eassumption.
Qed.

Lemma binder_transaction_pool st h reply tgt flags r st' : binder_transaction st h reply tgt flags r = Some st' -> pool st' = pool st.
Proof.
  unfold binder_transaction. intros (d & Hd & E)%bind_Some.
  assert (match d with Refused st1 _ _ => pool st1 = pool st | Routed st1 _ _ _ _ => pool st1 = pool st end) as Hp.
  { unfold route_reply, route_call in Hd. destruct reply; follow; same_pool. }
  destruct d; rewrite <- Hp; [by eapply transaction_failed_pool|by eapply transaction_body_pool].
Qed.

Lemma detach_buffer_pool st y st' : detach_buffer st y = Some st' -> pool st' = pool st.
Proof. unfold detach_buffer. intros. follow; same_pool. Qed.

Lemma free_buffer_pool st h buffer st' : bc_free_buffer st h buffer = Some st' -> pool st' = pool st.
Proof.
  unfold bc_free_buffer. intros E. follow; try done; change (pool (free_buffer ?s _)) with (pool s);
    repeat match goal with
    | H : list_add_tail _ _ _ = Some _ |- _ => apply list_add_tail_pool in H
    | H : list_del_first _ _ = Some _ |- _ => apply list_del_first_pool in H
    | H : detach_buffer _ _ = Some _ |- _ => apply detach_buffer_pool in H
    end; same_pool.
Qed.

Lemma release_list_pool fuel st o st' : release_list fuel st o = Some st' -> pool st' = pool st.
Proof.
  revert st. induction fuel as [|fuel IH]; simpl; intros st E; follow; try done;
    match goal with H : release_list _ _ _ = Some _ |- _ => apply IH in H; rewrite H end;
    repeat match goal with
    | H : list_del_first _ _ = Some _ |- _ => apply list_del_first_pool in H
    | H : binder_send_failed_reply _ _ _ = Some _ |- _ => apply send_failed_reply_pool in H
    end; same_pool.
Qed.

Lemma leave_stack_pool fuel st h t st' : leave_stack fuel st h t = Some st' -> pool st' = pool st.
Proof.
  revert st t. induction fuel as [|fuel IH]; intros st [t|] E; simpl in E; follow; try done;
    match goal with H : leave_stack _ _ _ _ = Some _ |- _ => apply IH in H; rewrite H end; [|done].
  match goal with H : detach _ _ = Some _ |- _ => by apply detach_pool in H end.
Qed.

Lemma release_work_pool st o st' : binder_release_work st o = Some st' -> pool st' = pool st.
Proof. unfold binder_release_work. intros. follow. by eapply release_list_pool. Qed.

Lemma delete_thread_pool st st' h : pool st' = pool st ->
  pool (mk_binder (delete h (thread_at st')) (trans_at st') (buffer_at st') (node_at st') (proc_at st')) =
  (delete h (pool st).1, (pool st).2).
Proof. intros <-. unfold pool. simpl. by rewrite fmap_delete. Qed.

Lemma free_thread_pool st h st' : binder_free_thread st h = Some st' -> pool st' = (delete h (pool st).1, (pool st).2).
Proof.
  unfold binder_free_thread. intros (y & _ & E)%bind_Some. apply bind_Some in E as (s & _ & E).
  follow; apply delete_thread_pool;
    repeat match goal with
    | H : leave_stack _ _ _ _ = Some _ |- _ => apply leave_stack_pool in H
    | H : binder_release_work _ _ = Some _ |- _ => apply release_work_pool in H
    | H : binder_send_failed_reply _ _ _ = Some _ |- _ => apply send_failed_reply_pool in H
    end; same_pool.
Qed.

Lemma release_buffers_pool l st st' : release_buffers st l = Some st' -> pool st' = pool st.
Proof.
  revert st. induction l as [|b l IH]; simpl; intros st E; follow; [done|]. rewrite (IH _ E).
  change (pool (free_buffer ?s _)) with (pool s). by eapply detach_buffer_pool.
Qed.

Lemma free_threads_pool l st st' : free_threads st l = Some st' -> (pool st').2 = (pool st).2 /\
  forall h, (pool st').1 !! h = if decide (h ∈ l) then None else (pool st).1 !! h.
Proof.
  revert st. induction l as [|g l IH]; intros st E; simpl in E; follow; [done|]. destruct (IH _ E) as [E1 E2].
  match goal with H : binder_free_thread _ _ = Some _ |- _ => apply free_thread_pool in H as E3 end.
  split; [by rewrite E1, E3|]. intros h. rewrite E2, E3. cbn [fst]. rewrite lookup_delete.
  repeat case_decide; try done; set_solver.
Qed.

(** ** Counting *)

Definition sleeps (r : phase) : bool := bool_decide (r = Asleep true).

(** The threads of a process that sleep until there is work for the process. *)
Definition sleepers (m : gmap Z (Z * phase)) (p : Z) : nat := size (filter (fun kr => kr.2 = (p, Asleep true)) m).

Definition at_rest (m : gmap Z (Z * phase)) (h p : Z) : bool := bool_decide (m !! h = Some (p, Asleep true)).

Lemma sleepers_delete m h p : Z.of_nat (sleepers (delete h m) p) = Z.of_nat (sleepers m p) - Z.b2z (at_rest m h p).
Proof.
  unfold sleepers, at_rest. rewrite map_filter_delete. case_bool_decide as E; simpl.
  - rewrite map_size_delete_Some by (eexists; by apply map_lookup_filter_Some_2).
    assert (size (filter (fun kr => kr.2 = (p, Asleep true)) m) <> 0%nat); [|lia].
    apply map_size_ne_0_lookup. eexists h, _. by apply map_lookup_filter_Some_2.
  - rewrite map_size_delete_None; [lia|]. apply map_lookup_filter_None. right. intros r Hr Er. simpl in Er. by subst.
Qed.

Lemma sleepers_insert m h r p : Z.of_nat (sleepers (<[h := r]> m) p) =
  Z.of_nat (sleepers m p) - Z.b2z (at_rest m h p) + Z.b2z (bool_decide (r = (p, Asleep true))).
Proof.
  rewrite <- sleepers_delete, <- insert_delete_eq. unfold sleepers at 1. case_bool_decide as E.
  - rewrite map_filter_insert_True by done. rewrite map_size_insert_None; [unfold sleepers; simpl; lia|].
    apply map_lookup_filter_None. left. by rewrite lookup_delete_eq.
  - rewrite map_filter_insert_False by done. rewrite delete_delete_eq. unfold sleepers. simpl. lia.
Qed.

(** ** The counters *)

Definition counts_ok (m : gmap Z (Z * phase)) (p mx r s n : Z) : Prop :=
  n = Z.of_nat (sleepers m p) /\ mx < 2147483648 /\ 0 <= r <= 1 /\ 0 <= s /\ r + s < 2147483648.

Definition pool_ok (k : gmap Z (Z * phase) * gmap Z (Z * Z * Z * Z)) : Prop :=
  forall p mx r s n, k.2 !! p = Some (mx, r, s, n) -> counts_ok k.1 p mx r s n.

Lemma change_ok m P h p r r' mx q s n q' s' n' : pool_ok (m, P) -> m !! h = Some (p, r) -> P !! p = Some (mx, q, s, n) ->
  0 <= q' <= 1 -> 0 <= s' -> q' + s' < 2147483648 -> n' + Z.b2z (sleeps r) = n + Z.b2z (sleeps r') ->
  pool_ok (<[h := (p, r')]> m, <[p := (mx, q', s', n')]> P).
Proof.
  intros H Hh Hp Hq Hs Hqs Hn p' mx1 q1 s1 n1 Hp'. unfold counts_ok. simpl in *. rewrite sleepers_insert.
  assert (Ea : at_rest m h p' = bool_decide (p' = p) && sleeps r).
  { unfold at_rest, sleeps. rewrite Hh. repeat case_bool_decide; naive_solver. }
  assert (Er : bool_decide ((p, r') = (p', Asleep true)) = bool_decide (p' = p) && sleeps r').
  { unfold sleeps. repeat case_bool_decide; naive_solver. }
  rewrite Ea, Er. apply lookup_insert_Some in Hp' as [[<- [= <- <- <- <-]]|[Hne Hp']].
  - rewrite bool_decide_true by done. destruct (H p mx q s n Hp) as (En & ? & _). cbn [fst andb] in *. split_and!; lia.
  - rewrite bool_decide_false by done. destruct (H p' mx1 q1 s1 n1 Hp') as (En & ? & ? & ? & ?). cbn in *. split_and!; lia.
Qed.

Section Thread.
Variables (st : binder) (h : Z) (y : binder_thread) (p : binder_proc).
Hypothesis H : pool_ok (pool st).
Hypothesis Hy : thread_at st !! h = Some y.
Hypothesis Hp : proc_at st !! th_proc y = Some p.

Lemma thread_pool_ok y' p' : th_proc y' = th_proc y -> max_threads p' = max_threads p -> 0 <= requested_threads p' <= 1 ->
  0 <= requested_threads_started p' -> requested_threads p' + requested_threads_started p' < 2147483648 ->
  ready_threads p' + Z.b2z (sleeps (reading y)) = ready_threads p + Z.b2z (sleeps (reading y')) ->
  pool_ok (pool (put_thread (put_proc st (th_proc y) p') h y')).
Proof using H Hy Hp.
  intros Ep Em Hq Hs Hqs Hn. unfold pool. simpl. rewrite !fmap_insert. unfold thread_key at 1, proc_key at 1. rewrite Ep, Em.
  apply (change_ok _ _ _ _ (reading y) _ _ (requested_threads p) (requested_threads_started p) (ready_threads p)); try done.
  - by rewrite lookup_fmap, Hy.
  - by rewrite lookup_fmap, Hp.
Qed.

Lemma proc_bounds : 0 <= requested_threads p <= 1 /\ 0 <= requested_threads_started p /\ 0 <= ready_threads p /\
  max_threads p < 2147483648 /\ requested_threads p + requested_threads_started p < 2147483648.
Proof using H Hp.
  destruct (H (th_proc y) (max_threads p) (requested_threads p) (requested_threads_started p) (ready_threads p)) as (E & ? & ? & ? & ?).
  - simpl. by rewrite lookup_fmap, Hp.
  - split_and!; lia.
Qed.

Lemma proc_unchanged : put_proc st (th_proc y) p = st.
Proof using Hp. clear H Hy. destruct st. unfold put_proc. simpl in *. by rewrite insert_id. Qed.

Lemma thread_only_ok y' : th_proc y' = th_proc y -> sleeps (reading y') = sleeps (reading y) -> pool_ok (pool (put_thread st h y')).
Proof using H Hy Hp.
  intros Ep Er. rewrite <- proc_unchanged. destruct proc_bounds as (? & ? & ? & ? & ?). apply thread_pool_ok; try done. by rewrite Er.
Qed.

Lemma read_done_ok st' : sleeps (reading y) = false -> read_done st h = Some st' -> pool_ok (pool st').
Proof using H Hy Hp.
  intros Hr. unfold read_done. rewrite Hy. simpl. rewrite Hp. simpl. intros [= <-].
  destruct proc_bounds as (Hq & Hs & Hn & Hm & Hqs). case_match eqn:E; [|by apply thread_only_ok].
  apply andb_true_iff in E as [E _]. apply andb_true_iff in E as [E%Z.eqb_eq Es%Z.ltb_lt].
  change (pool_ok (pool (put_thread (put_proc st (th_proc y) (set_requested p (requested_threads p + 1) (requested_threads_started p)))
    h (set_reading y Outside)))).
  apply thread_pool_ok; simpl; try done; try lia. by rewrite Hr.
Qed.

Lemma read_start_ok n f2 f1 st' : sleeps (reading y) = false -> read_start st h n f2 f1 = Some st' -> pool_ok (pool st').
Proof using H Hy Hp.
  intros Hr. unfold read_start. rewrite Hy. simpl. rewrite Hp. simpl.
  destruct proc_bounds as (Hq & Hs & Hn & Hm & Hqs). case_match; [case_match; [|case_match; [|destruct f1]]|].
  - intros [= <-]. by apply thread_only_ok.
  - by apply read_done_ok.
  - intros [= <-]. by apply thread_only_ok.
  - unfold read_done. simpl. rewrite lookup_insert_eq. simpl. rewrite Hp. simpl. intros [= <-].
    case_match eqn:E; unfold put_thread; simpl; rewrite insert_insert_eq; fold (put_thread st h (set_reading (set_errors y BR_OK BR_OK) Outside));
      [|by apply thread_only_ok].
    apply andb_true_iff in E as [E _]. apply andb_true_iff in E as [E%Z.eqb_eq Es%Z.ltb_lt].
    apply (thread_pool_ok (set_reading (set_errors y BR_OK BR_OK) Outside)
      (set_requested p (requested_threads p + 1) (requested_threads_started p))); simpl; try done; try lia. by rewrite Hr.
  - intros [= <-]. case_match eqn:E.
    + apply (thread_pool_ok _ (set_ready p (ready_threads p + 1))); simpl; try done. rewrite Hr. simpl. lia.
    + apply thread_only_ok; [done|]. by rewrite Hr.
Qed.

Lemma read_wake_ok interrupted st' : read_wake st h interrupted = Some st' -> pool_ok (pool st').
Proof using H Hy Hp.
  unfold read_wake. rewrite Hy. simpl. destruct (reading y) as [|w|] eqn:Er; try done. rewrite Hp. simpl. intros [= <-].
  destruct proc_bounds as (Hq & Hs & Hn & Hm & Hqs). destruct w.
  - apply (thread_pool_ok _ (set_ready p (ready_threads p - 1))); simpl; try done. rewrite Er. destruct interrupted; simpl; lia.
  - apply thread_only_ok; [done|]. rewrite Er. by destruct interrupted.
Qed.

Lemma register_looper_ok st' : bc_register_looper st h = Some st' -> pool_ok (pool st').
Proof using H Hy Hp.
  unfold bc_register_looper. rewrite Hy. simpl. rewrite Hp. simpl. destruct proc_bounds as (Hq & Hs & Hn & Hm & Hqs).
  case_match; [intros [= <-]; by apply thread_only_ok|]. case_match eqn:E; intros [= <-]; [by apply thread_only_ok|].
  apply Z.eqb_neq in E. apply thread_pool_ok; simpl; (done || lia).
Qed.

End Thread.

Lemma deliver_pool st h o t st' : deliver st h o t = Some st' -> pool st' = pool st.
Proof.
  unfold deliver. intros E. follow; repeat match goal with
    | H : list_del_first _ _ = Some _ |- _ => apply list_del_first_pool in H
    end; same_pool.
Qed.

Lemma pool_reading st st' h y : pool st' = pool st -> thread_at st' !! h = Some y ->
  exists z, thread_at st !! h = Some z /\ reading y = reading z.
Proof.
  intros E Hy. injection E as E _. destruct (fmap_eq_lookup _ _ _ h y (eq_sym E) Hy) as (z & Hz & Ez).
  exists z. unfold thread_key in Ez. split; [done|congruence].
Qed.

Lemma read_done_step st h st' : pool_ok (pool st) -> (forall y, thread_at st !! h = Some y -> sleeps (reading y) = false) ->
  read_done st h = Some st' -> pool_ok (pool st').
Proof.
  intros H Hr E. pose proof E as E'. unfold read_done in E'. apply bind_Some in E' as (y & Hy & (p & Hp & _)%bind_Some).
  by apply (read_done_ok st h y p H Hy Hp st'); [apply Hr|].
Qed.

Lemma read_next_ok st h y p w no_data room fault dead n f2 f1 st' : pool_ok (pool st) -> thread_at st !! h = Some y ->
  proc_at st !! th_proc y = Some p -> reading y = Looping w -> read_next st h no_data room fault dead n f2 f1 = Some st' -> pool_ok (pool st').
Proof.
  intros H Hy Hp Hr. assert (Hn : forall z, thread_at st !! h = Some z -> sleeps (reading z) = false)
    by (intros z Hz; simplify_eq; by rewrite Hr).
  unfold read_next. rewrite Hy. simpl. rewrite Hp. simpl. rewrite Hr.
  destruct (read_list y p h w) as [o|].
  2: { case_match; [|by apply read_done_step]. apply (read_start_ok st h y p); auto. }
  destruct room; simpl; [|by apply read_done_step].
  destruct fault; [intros [= <-]; by apply (thread_only_ok st h y p); [..|rewrite Hr]|].
  intros (l & _ & E)%bind_Some. destruct l as [|[t| |] l]; [done|..].
  - apply bind_Some in E as (st1 & D & E). apply deliver_pool in D. apply (read_done_step st1 h); [by rewrite D| |done].
    intros z Hz. destruct (pool_reading _ _ h z D Hz) as (z' & Hz' & ->). auto.
  - apply bind_Some in E as ([w' st1] & D & [= <-]). by rewrite (list_del_first_pool _ _ _ _ D).
  - destruct dead; [by apply (read_done_step st h)|by injection E as <-].
Qed.

(** ** The steps *)

Lemma delete_rest_ok st h y : pool_ok (pool st) -> thread_at st !! h = Some y -> sleeps (reading y) = false ->
  pool_ok (delete h (pool st).1, (pool st).2).
Proof.
  intros H Hy Hr p mx q s n Hp. destruct (H p mx q s n Hp) as (-> & ?). split; [|done]. cbn [fst].
  rewrite sleepers_delete. assert (at_rest (pool st).1 h p = false) as ->; [|simpl; lia].
  unfold at_rest. simpl. rewrite lookup_fmap, Hy. simpl. apply bool_decide_eq_false. intros [= _ E].
  unfold sleeps in Hr. by rewrite bool_decide_true in Hr.
Qed.

Lemma new_thread_ok st h p : pool_ok (pool st) -> thread_at st !! h = None -> pool_ok (pool (new_thread st h p)).
Proof.
  intros H Hh p' mx q s n Hp. destruct (H p' mx q s n Hp) as (-> & ?). split; [|done]. simpl.
  rewrite fmap_insert, sleepers_insert. unfold at_rest. rewrite lookup_fmap, Hh.
  rewrite !bool_decide_false by done. simpl. lia.
Qed.

Lemma no_sleepers m p : (forall h r, m !! h = Some (p, r) -> sleeps r = false) -> sleepers m p = 0%nat.
Proof.
  intros H. apply map_size_empty_iff, map_empty. intros h. apply map_lookup_filter_None. right.
  intros r Hr E. simpl in E. subst.
  specialize (H h _ Hr). unfold sleeps in H. by rewrite bool_decide_true in H.
Qed.

Lemma open_ok st p : pool_ok (pool st) -> (forall h y, thread_at st !! h = Some y -> th_proc y <> p) ->
  pool_ok (pool (binder_open st p)).
Proof.
  intros H Hn p' mx q s n. simpl. rewrite fmap_insert. intros [[<- [= <- <- <- <-]]|[_ Hp]]%lookup_insert_Some; [|by apply H].
  unfold counts_ok. simpl. rewrite no_sleepers; [done|]. intros h r Hr. apply lookup_fmap_Some in Hr as (y & [= Ey _] & Hy).
  by destruct (Hn h y Hy).
Qed.

Lemma release_ok st p threads referred st' : pool_ok (pool st) ->
  (forall h, h ∈ threads -> exists y, thread_at st !! h = Some y /\ reading y = Outside) ->
  binder_deferred_release st p threads referred = Some st' -> pool_ok (pool st').
Proof.
  intros H Hth. unfold binder_deferred_release. intros (st1 & E1 & (st2 & E2 & (st3 & E3 & E)%bind_Some)%bind_Some)%bind_Some.
  injection E as <-. apply release_work_pool in E2. apply release_buffers_pool in E3.
  apply free_threads_pool in E1 as [F1 F2]. change (pool (release_nodes st1 referred p)) with (pool st1) in E2.
  assert (Ep : pool st3 = pool st1) by congruence. intros p' mx q s n Hp. simpl in Hp. rewrite fmap_delete in Hp.
  apply lookup_delete_Some in Hp as [_ Hp]. destruct (H p' mx q s n) as (-> & ?).
  { rewrite <- F1, <- Ep. done. }
  split; [|done]. change (thread_key <$> thread_at st3) with (pool st3).1. f_equal. unfold sleepers. f_equal. simpl fst.
  change (thread_key <$> thread_at st3) with (pool st3).1. rewrite Ep.
  apply map_filter_strong_ext. intros h r. rewrite F2. case_decide as Hh; [|done]. split; [|naive_solver].
  intros [Er Hr]. exfalso. destruct (Hth h Hh) as (y & Hy & Ey). simpl in Hr. rewrite lookup_fmap, Hy in Hr.
  injection Hr as <-. unfold thread_key in Er. simpl in Er. congruence.
Qed.

Lemma set_max_ok st p n st' : pool_ok (pool st) -> n < 2147483648 -> set_max_threads st p n = Some st' -> pool_ok (pool st').
Proof.
  intros H Hn (q & Hq & [= <-])%bind_Some p' mx r s k. simpl. rewrite fmap_insert.
  intros [[<- [= <- <- <- <-]]|[_ Hp]]%lookup_insert_Some; [|by apply H].
  destruct (H p (max_threads q) (requested_threads q) (requested_threads_started q) (ready_threads q)) as (? & ? & ? & ? & ?).
  - simpl. by rewrite lookup_fmap, Hq.
  - unfold counts_ok. simpl in *. split_and!; lia.
Qed.

Lemma flush_pool st p : pool (binder_deferred_flush st p) = pool st.
Proof.
  unfold pool. simpl. f_equal. rewrite <- map_fmap_compose. apply map_fmap_ext. intros h y _. simpl. unfold need_return.
  by case_match.
Qed.

Lemma exec_pool st o st' : calls_inv None None None st -> pool_ok (pool st) -> allowed true st o -> exec st o = Some st' ->
  pool_ok (pool st').
Proof.
  intros Hi H. pose proof (ci_store _ _ _ _ Hi) as Hs.
  assert (Hpr : forall h y, thread_at st !! h = Some y -> exists p, proc_at st !! th_proc y = Some p) by (apply (st_tproc _ _ Hs)).
  destruct o; simpl.
  - intros Hp [= <-]. apply open_ok; [done|]. intros h y Hy Ep. destruct (Hpr h y Hy). congruence.
  - intros [Hh _] [= <-]. by apply new_thread_ok.
  - intros _ [= <-]. done.
  - intros _ [= <-]. done.
  - intros _ E. by rewrite (list_add_tail_pool _ _ _ _ E).
  - intros _ E. by rewrite (put_list_pool _ _ _ _ E).
  - intros _ E. by rewrite (binder_transaction_pool _ _ _ _ _ _ _ E).
  - intros _ E. by rewrite (free_buffer_pool _ _ _ _ E).
  - intros (y & Hy & _). destruct (Hpr h y Hy) as [p Hp]. by apply (register_looper_ok st h y p).
  - intros _ E. unfold bc_enter_looper in E. follow. by erewrite pool_thread.
  - intros _ E. unfold bc_exit_looper in E. follow. by erewrite pool_thread.
  - intros [_ Hn] E. apply (set_max_ok st p n); [done|lia|done].
  - intros (y & Hy & Hr). destruct (Hpr h y Hy) as [p Hp]. apply (read_start_ok st h y p); try done. by rewrite Hr.
  - intros (y & Hy & _). destruct (Hpr h y Hy) as [p Hp]. by apply (read_wake_ok st h y p).
  - intros (y & Hy & w & Hw). destruct (Hpr h y Hy) as [p Hp]. by apply (read_next_ok st h y p w).
  - intros _ E. unfold ioctl_done in E. follow. by erewrite pool_thread.
  - intros (y & Hy & Hr) E. rewrite (free_thread_pool _ _ _ E). by apply (delete_rest_ok st h y); [..|rewrite Hr].
  - intros _ [= <-]. by rewrite flush_pool.
  - intros (_ & _ & _ & Hth) E. by apply (release_ok st p threads referred).
Qed.

Lemma reachable_pool st : reachable true st -> pool_ok (pool st).
Proof.
  induction 1 as [|st o st' Hst IH Ho He].
  - intros p mx q s n. simpl. by rewrite fmap_empty, lookup_empty.
  - apply (exec_pool st o); [by apply reachable_calls_inv|done..].
Qed.

(** C38. The counters of a process are right in every reachable state: as many
    threads are ready as sleep until there is work for the process, at most
    one thread has been asked for and has not registered, and those that have
    registered are counted without overflow of the [int]s. *)
Theorem thread_pool_bounds st p q : reachable true st -> proc_at st !! p = Some q ->
  ready_threads q = Z.of_nat (sleepers (pool st).1 p) /\ 0 <= requested_threads q <= 1 /\
  0 <= requested_threads_started q /\ requested_threads q + requested_threads_started q < 2147483648.
Proof.
  intros H%reachable_pool Hq.
  destruct (H p (max_threads q) (requested_threads q) (requested_threads_started q) (ready_threads q)) as (? & _ & ?).
  - simpl. by rewrite lookup_fmap, Hq.
  - by split.
Qed.

(** The call of [setup] has been sent and thread 20 sleeps. *)
Definition asleep : binder := default init (run init (take 8 setup)).

Lemma asleep_reachable : reachable true asleep.
Proof.
  destruct (run_reaches true init (take 8 setup) (reach_init true)) as (st' & E & H).
  { unfold setup. simpl take. repeat (run_step; [cbn [allowed]; allowed_now|]). exact I. }
  unfold asleep. by rewrite E.
Qed.

Lemma thread_pool_bounds_witness : exists q, proc_at asleep !! 2 = Some q /\ ready_threads q = 1 /\
  ready_threads q = Z.of_nat (sleepers (pool asleep).1 2) /\ 0 <= requested_threads q <= 1 /\
  0 <= requested_threads_started q /\ requested_threads q + requested_threads_started q < 2147483648.
Proof.
  eexists. split; [vm_compute; reflexivity|]. split; [reflexivity|].
  apply (thread_pool_bounds asleep 2 _ asleep_reachable). vm_compute. reflexivity.
Defined.

End BinderPool.
