(* ===== verification/BinderFds.v ===== *)
(** The file descriptors a binder transaction gives to the receiving process:
    task_get_unused_fd_flags(), task_fd_install() and task_close_fd() of
    drivers/staging/android/binder.c on the table of fs/file.c.

    A file is its address; a NULL slot of the array is absent from [fd_at].
    The table is protected by files->file_lock; that nobody else uses it in
    between, when the lock is given up to allocate a larger one, is the
    granularity of this model. *)

From S2P Require Import Prelude Kfifo.
Local Open Scope Z_scope.
Local Open Scope kernel_scope.

Module BinderFds.

Definition EMFILE : Z := 24.
Definition ESRCH : Z := 3.

(** struct files_struct with its struct fdtable. *)
Record files_struct := mk_files {
  open_fds : gset Z;
  close_on_exec : gset Z;
  fd_at : gmap Z Z;
  max_fds : Z;
  next_fd : Z
}.

(** ** fs/file.c *)

(** What the table depends on: the limits of the calling task and of the
    system, and whether there is memory. *)
Record limits := mk_limits {
  rlimit_current : Z;
  sysctl_nr_open : Z;
  memory : bool
}.

(** The size alloc_fdtable() chooses. *)
Definition alloc_fdtable (lim : limits) (nr : Z) : option Z :=
  n ← Kfifo.roundup_pow_of_two (nr / 256 +ᵤ 1);
  let nr := u32 (n * 256) in
  Some (if sysctl_nr_open lim <? nr then (Z.lor (sysctl_nr_open lim - 1) 31) + 1 else nr).

Definition expand_fdtable (lim : limits) (f : files_struct) (nr : Z) : option (files_struct * Z) :=
  if negb (memory lim) then Some (f, - ENOMEM)
  else
    size ← alloc_fdtable lim nr;
    if size <=? nr then Some (f, - EMFILE)
    else
      _ ← BUG_ON (size <? max_fds f);
      Some (mk_files (open_fds f) (close_on_exec f) (fd_at f) size (next_fd f), 1).

Definition expand_files (lim : limits) (f : files_struct) (nr : Z) : option (files_struct * Z) :=
  if rlimit_current lim <=? nr then Some (f, - EMFILE)
  else if nr <? max_fds f then Some (f, 0)
  else if sysctl_nr_open lim <=? nr then Some (f, - EMFILE)
  else expand_fdtable lim f nr.

Fixpoint find_zero (fuel : nat) (bits : gset Z) (i : Z) : Z :=
  match fuel with
  | O => i
  | S fuel => if bool_decide (i ∈ bits) then find_zero fuel bits (i + 1) else i
  end.

(** find_next_zero_bit(): [size] when there is none. *)
Definition find_next_zero_bit (bits : gset Z) (size offset : Z) : Z :=
  if size <=? offset then size else find_zero (Z.to_nat (size - offset)) bits offset.

(** ** binder.c *)

(** [rlim] is the limit of the receiving process. *)
Fixpoint unused_fd (fuel : nat) (lim : limits) (rlim : Z) (cloexec : bool) (f : files_struct) : option (files_struct * Z) :=
  match fuel with
  | O => None
  | S fuel =>
      let fd := find_next_zero_bit (open_fds f) (max_fds f) (next_fd f) in
      if rlim <=? fd then Some (f, - EMFILE)
      else
        '(f, error) ← expand_files lim f fd;
        if error <? 0 then Some (f, error)
        else if negb (error =? 0) then unused_fd fuel lim rlim cloexec f
        else
          Some (mk_files ({[fd]} ∪ open_fds f)
                  (if cloexec then {[fd]} ∪ close_on_exec f else close_on_exec f ∖ {[fd]})
                  (delete fd (fd_at f)) (max_fds f) (fd + 1), fd)
  end.

(** The table is expanded at most once. *)
Definition task_get_unused_fd_flags (lim : limits) (rlim : Z) (cloexec : bool) (files : option files_struct)
  : option (option files_struct * Z) :=
  match files with
  | None => Some (None, - ESRCH)
  | Some f => '(f, fd) ← unused_fd 2 lim rlim cloexec f; Some (Some f, fd)
  end.

Definition task_fd_install (files : option files_struct) (fd file : Z) : option (option files_struct) :=
  match files with
  | None => Some None
  | Some f =>
      _ ← BUG_ON (bool_decide (is_Some (fd_at f !! fd)));
      Some (Some (mk_files (open_fds f) (close_on_exec f) (<[fd := file]> (fd_at f)) (max_fds f) (next_fd f)))
  end.

Definition put_unused_fd (f : files_struct) (fd : Z) : files_struct :=
  mk_files (open_fds f ∖ {[fd]}) (close_on_exec f) (fd_at f) (max_fds f) (if fd <? next_fd f then fd else next_fd f).

(** What filp_close() returns is not used. *)
Definition task_close_fd (files : option files_struct) (fd : Z) : option files_struct * Z :=
  match files with
  | None => (None, - ESRCH)
  | Some f =>
      if max_fds f <=? fd then (Some f, - EBADF)
      else match fd_at f !! fd with
           | None => (Some f, - EBADF)
           | Some _ =>
               (Some (put_unused_fd (mk_files (open_fds f) (close_on_exec f ∖ {[fd]}) (delete fd (fd_at f)) (max_fds f) (next_fd f)) fd), 0)
           end
  end.

(** ** The table *)

Record files_ok (f : files_struct) : Prop := {
  fo_next : 0 <= next_fd f <= max_fds f;
  fo_max : max_fds f < 2147483648;
  fo_open i : i ∈ open_fds f -> 0 <= i < max_fds f;
  fo_below i : 0 <= i < next_fd f -> i ∈ open_fds f;
  fo_slot i x : fd_at f !! i = Some x -> i ∈ open_fds f;
  fo_exec : close_on_exec f ⊆ open_fds f
}.

(** The lowest number that is not open. *)
Definition lowest_fd (f : files_struct) (fd : Z) : Prop :=
  0 <= fd /\ (fd ∉ open_fds f) /\ forall i, 0 <= i < fd -> i ∈ open_fds f.

Lemma find_zero_spec bits fuel i : let r := find_zero fuel bits i in
  i <= r <= i + Z.of_nat fuel /\ (r < i + Z.of_nat fuel -> r ∉ bits) /\ forall j, i <= j < r -> j ∈ bits.
Proof.
  revert i. induction fuel as [|fuel IH]; intros i; simpl; [split_and!; lia|].
  case_bool_decide as Hi; [|split_and!; [lia|lia|done|lia]].
  destruct (IH (i + 1)) as (H1 & H2 & H3). split_and!; [lia|lia|intros; apply H2; lia|].
  intros j Hj. destruct (decide (j = i)) as [->|]; [done|]. apply H3. lia.
Qed.

Lemma next_zero_spec f : files_ok f ->
  let fd := find_next_zero_bit (open_fds f) (max_fds f) (next_fd f) in lowest_fd f fd /\ next_fd f <= fd <= max_fds f.
Proof.
  intros [H1 _ H3 H4 _ _]. unfold find_next_zero_bit. destruct (Z.leb_spec (max_fds f) (next_fd f)) as [L|L].
  - simpl. assert (next_fd f = max_fds f) as E by lia. rewrite E in H4. split; [|lia]. split_and!; [lia| |done].
    intros Hin%H3. lia.
  - pose proof (find_zero_spec (open_fds f) (Z.to_nat (max_fds f - next_fd f)) (next_fd f)) as (F1 & F2 & F3).
    simpl. set (r := find_zero _ _ _) in *. rewrite Z2Nat.id in * by lia. split; [|lia]. split_and!; [lia| |].
    + destruct (decide (r = max_fds f)) as [->|]; [intros ?%H3; lia|apply F2; lia].
    + intros i Hi. destruct (decide (i < next_fd f)); [apply H4; lia|apply F3; lia].
Qed.

Lemma lowest_unique f fd fd' : lowest_fd f fd -> lowest_fd f fd' -> fd = fd'.
Proof.
  intros (H1 & H2 & H3) (H1' & H2' & H3'). destruct (Z.lt_total fd fd') as [L|[E|L]]; [|done|].
  - destruct H2. apply H3'. lia.
  - destruct H2'. apply H3. lia.
Qed.

(** A larger table has room for the number asked for. *)
Lemma alloc_fdtable_spec lim nr : 0 <= nr < sysctl_nr_open lim -> sysctl_nr_open lim <= 1048576 ->
  exists size, alloc_fdtable lim nr = Some size /\ nr < size < 2147483648.
Proof.
  intros Hnr Hlim. unfold alloc_fdtable. pose proof (Z.div_pos nr 256 ltac:(lia) ltac:(lia)).
  pose proof (Z.mod_pos_bound nr 256 ltac:(lia)). pose proof (Z.div_mod nr 256 ltac:(lia)).
  assert (nr / 256 < 4096) by (apply Z.div_lt_upper_bound; lia). rewrite (u32_small (nr / 256 + 1)) by lia.
  assert (exists n, Kfifo.roundup_pow_of_two (nr / 256 + 1) = Some n /\ nr / 256 + 1 <= n <= 2 * (nr / 256 + 1)) as (n & -> & Hn).
  { destruct (decide (nr / 256 = 0)) as [->|Hne]; [exists 1; split; [done|lia]|].
    destruct (Kfifo.roundup_pow_of_two_spec (nr / 256 + 1)) as (k & _ & -> & Hb); [lia|]. eexists. split; [done|lia]. }
  cbn [mbind option_bind]. rewrite u32_small by lia. eexists. split; [done|].
  pose proof (Z.add_lor_land (sysctl_nr_open lim - 1) 31) as E. rewrite (land_mask _ 5) in E by lia.
  pose proof (Z.mod_pos_bound (sysctl_nr_open lim - 1) (2 ^ 5) ltac:(lia)). change (2 ^ 5) with 32 in *.
  destruct (Z.ltb_spec (sysctl_nr_open lim) (n * 256)); lia.
Qed.

Lemma expand_files_spec lim f nr : files_ok f -> 0 <= nr <= max_fds f -> sysctl_nr_open lim <= 1048576 ->
  (exists e, e < 0 /\ expand_files lim f nr = Some (f, e)) \/
  (nr < max_fds f /\ expand_files lim f nr = Some (f, 0)) \/
  (exists size, nr < size < 2147483648 /\ max_fds f <= nr /\
     expand_files lim f nr = Some (mk_files (open_fds f) (close_on_exec f) (fd_at f) size (next_fd f), 1)).
Proof.
  intros Hf Hnr Hlim. unfold expand_files. destruct (Z.leb_spec (rlimit_current lim) nr); [left; by exists (- EMFILE)|].
  destruct (Z.ltb_spec nr (max_fds f)); [right; by left|].
  destruct (Z.leb_spec (sysctl_nr_open lim) nr); [left; by exists (- EMFILE)|]. unfold expand_fdtable.
  destruct (memory lim); simpl; [|left; by exists (- ENOMEM)].
  destruct (alloc_fdtable_spec lim nr) as (size & -> & Hs); [lia|done|]. simpl.
  rewrite (proj2 (Z.leb_gt _ _)) by lia. rewrite (proj2 (Z.ltb_ge _ _)) by lia. right. right. by exists size.
Qed.

(** An unused number is the lowest, or there is an error and the table is only
    larger. *)
Definition grown (f f' : files_struct) : Prop :=
  open_fds f' = open_fds f /\ close_on_exec f' = close_on_exec f /\ fd_at f' = fd_at f /\
  next_fd f' = next_fd f /\ max_fds f <= max_fds f' < 2147483648.

Lemma grown_ok f f' : files_ok f -> grown f f' -> files_ok f'.
Proof.
  intros [H1 H2 H3 H4 H5 H6] (E1 & E2 & E3 & E4 & E5). split; rewrite ?E1, ?E2, ?E3, ?E4; try done; [lia|lia|].
  intros i Hi%H3. lia.
Qed.

Definition opened (f : files_struct) (fd : Z) (cloexec : bool) : files_struct :=
  mk_files ({[fd]} ∪ open_fds f) (if cloexec then {[fd]} ∪ close_on_exec f else close_on_exec f ∖ {[fd]})
    (delete fd (fd_at f)) (max_fds f) (fd + 1).

Lemma get_unused_fd_spec lim rlim cloexec f : files_ok f -> sysctl_nr_open lim <= 1048576 ->
  exists f1, grown f f1 /\
    ((exists e, e < 0 /\ task_get_unused_fd_flags lim rlim cloexec (Some f) = Some (Some f1, e)) \/
     (exists fd, lowest_fd f fd /\ fd < max_fds f1 /\
        task_get_unused_fd_flags lim rlim cloexec (Some f) = Some (Some (opened f1 fd cloexec), fd))).
Proof.
  intros Hf Hlim. unfold task_get_unused_fd_flags. cbn [unused_fd].
  destruct (next_zero_spec f Hf) as [Hlow Hb]. set (fd := find_next_zero_bit _ _ _) in *. pose proof (fo_next f Hf).
  assert (Hg : grown f f) by (split_and!; try done; apply Hf).
  destruct (Z.leb_spec rlim fd); [exists f; split; [done|]; left; by exists (- EMFILE)|].
  destruct (expand_files_spec lim f fd Hf) as [(e & He & ->)|[(Hm & ->)|(size & Hs & Hm & ->)]]; [lia|done|..];
    cbn [mbind option_bind].
  - rewrite (proj2 (Z.ltb_lt e 0)) by done. exists f. split; [done|]. left. by exists e.
  - cbn. exists f. split; [done|]. right. by exists fd.
  - cbn [Z.ltb Z.eqb negb Z.compare]. set (f1 := mk_files _ _ _ _ _).
    assert (Hg1 : grown f f1) by (split_and!; simpl; done || lia). pose proof (grown_ok f f1 Hf Hg1) as Hf1.
    destruct (next_zero_spec f1 Hf1) as [Hlow1 Hb1].
    assert (E : find_next_zero_bit (open_fds f1) (max_fds f1) (next_fd f1) = fd) by by apply (lowest_unique f).
    rewrite E.
    rewrite (proj2 (Z.leb_gt rlim fd)) by lia. exists f1. split; [done|].
    destruct (expand_files_spec lim f1 fd Hf1) as [(e & He & ->)|[(_ & ->)|(? & _ & Hm' & _)]]; [simpl; lia|done|..|simpl in Hm'; lia];
      cbn [mbind option_bind].
    + rewrite (proj2 (Z.ltb_lt e 0)) by done. left. by exists e.
    + cbn. right. exists fd. split_and!; [done|simpl; lia|done].
Qed.

Lemma opened_ok f fd cloexec : files_ok f -> lowest_fd f fd -> fd < max_fds f -> files_ok (opened f fd cloexec).
Proof.
  intros [H1 H2 H3 H4 H5 H6] (L1 & L2 & L3) Hm. split; simpl.
  - lia.
  - done.
  - intros i [->%elem_of_singleton|Hi%H3]%elem_of_union; lia.
  - intros i Hi. destruct (decide (i = fd)) as [->|]; [set_solver|]. apply elem_of_union_r, L3. lia.
  - intros i x [_ Hx%H5]%lookup_delete_Some. set_solver.
  - destruct cloexec; set_solver.
Qed.

(** ** Installing and closing *)

Definition installed (f : files_struct) (fd file : Z) : files_struct :=
  mk_files (open_fds f) (close_on_exec f) (<[fd := file]> (fd_at f)) (max_fds f) (next_fd f).

Lemma installed_ok f fd file cloexec : files_ok f -> lowest_fd f fd -> fd < max_fds f ->
  task_fd_install (Some (opened f fd cloexec)) fd file = Some (Some (installed (opened f fd cloexec) fd file)) /\
  files_ok (installed (opened f fd cloexec) fd file).
Proof.
  intros Hf Hl Hm. split.
  - unfold task_fd_install. simpl. rewrite lookup_delete_eq, bool_decide_false by (by intros []). done.
  - destruct (opened_ok f fd cloexec Hf Hl Hm) as [H1 H2 H3 H4 H5 H6]. split; simpl in *; try done.
    intros i x [[<- _]|[_ Hx]]%lookup_insert_Some; [set_solver|by apply (H5 i x)].
Qed.

(** The same numbers denote the same files. *)
Definition same_files (f f' : files_struct) : Prop :=
  open_fds f' = open_fds f /\ close_on_exec f' = close_on_exec f /\ fd_at f' = fd_at f.

Lemma close_fd_spec f fd x : files_ok f -> fd_at f !! fd = Some x ->
  exists f', task_close_fd (Some f) fd = (Some f', 0) /\ files_ok f' /\ open_fds f' = open_fds f ∖ {[fd]} /\
    close_on_exec f' = close_on_exec f ∖ {[fd]} /\ fd_at f' = delete fd (fd_at f).
Proof.
  intros Hf Hx. pose proof Hf as [H1 H2 H3 H4 H5 H6]. pose proof (H3 fd (H5 fd x Hx)) as Hr.
  unfold task_close_fd. rewrite (proj2 (Z.leb_gt _ _)) by lia. rewrite Hx. eexists. split; [done|].
  split_and!; try done. split; simpl; [| |..|set_solver].
  - destruct (Z.ltb_spec fd (next_fd f)); lia.
  - done.
  - intros i [Hi _]%elem_of_difference. by apply H3.
  - intros i Hi. apply elem_of_difference. destruct (Z.ltb_spec fd (next_fd f)); split; try (apply H4; lia); set_solver by lia.
  - intros i y [Hne Hy]%lookup_delete_Some. pose proof (H5 i y Hy). set_solver.
Qed.

End BinderFds.
