(* ===== verification/BinderObjects.v ===== *)
(** The objects in the data of a binder transaction: how binder_transaction()
    of drivers/staging/android/binder.c translates them for the receiver, and
    how binder_transaction_buffer_release() gives back what that took.

    An offset array tells where in the data there are objects: nodes of the
    sender, which become references of the receiver; references of the sender,
    which become nodes of the receiver when it owns them and references else;
    and file descriptors.  The data is the list of its 32-bit words: objects
    are aligned.  The world is the store of BinderRefs.v with the accept_fds
    flags of the nodes and the file tables of the processes. *)

From S2P Require Import Prelude RbTree KeyTree BinderRefs BinderThreads BinderFds.
Local Open Scope Z_scope.
Local Open Scope kernel_scope.

Module BinderObjects.
Import RbTree KeyTree BinderRefs BinderFds.

(** ** Data *)

Definition BINDER_TYPE_BINDER : Z := 0x73622a85.
Definition BINDER_TYPE_WEAK_BINDER : Z := 0x77622a85.
Definition BINDER_TYPE_HANDLE : Z := 0x73682a85.
Definition BINDER_TYPE_WEAK_HANDLE : Z := 0x77682a85.
Definition BINDER_TYPE_FD : Z := 0x66642a85.

Definition FLAT_BINDER_FLAG_ACCEPTS_FDS : Z := 0x100.
Definition TF_ACCEPT_FDS : Z := 0x10.

(** [fp_binder] is the union of the pointer and the handle. *)
Record flat_binder_object := mk_object {
  fp_type : Z;
  fp_flags : Z;
  fp_binder : Z;
  fp_cookie : Z
}.

(** [accept_fds] has the nodes whose flag is set. *)
Record world := mk_world {
  refs : binder;
  accept_fds : gset Z;
  files_of : gmap Z files_struct
}.

Definition set_store (w : world) (st : binder) : world := mk_world st (accept_fds w) (files_of w).

Definition read_object (data : list Z) (off : Z) : option flat_binder_object :=
  let i := Z.to_nat (off / 4) in
  t ← data !! i;
  f ← data !! (i + 1)%nat;
  b ← data !! (i + 2)%nat;
  c ← data !! (i + 3)%nat;
  Some (mk_object t f b c).

Definition write_object (data : list Z) (off : Z) (fp : flat_binder_object) : list Z :=
  let i := Z.to_nat (off / 4) in
  <[i := fp_type fp]> (<[(i + 1)%nat := fp_flags fp]> (<[(i + 2)%nat := fp_binder fp]> (<[(i + 3)%nat := fp_cookie fp]> data))).

(** The test of an offset, in the arithmetic of size_t. *)
Definition bad_offset (data_size off : Z) : bool :=
  (data_size -ᵤ 16 <? off) || (data_size <? 16) || negb (off &ᵤ 3 =? 0).

(** ** Translation *)

(** What the code asks for: memory that kzalloc() finds in the store as it is
    then, the file a descriptor of the sender denotes (fget()), and the limits
    for file descriptors. *)
Record supply := mk_supply {
  kz_node : binder -> option Z;
  kz_ref : binder -> option Z;
  fget : Z -> option Z;
  fd_limits : limits;
  fd_rlim : Z
}.

(** An error is a return code, or [None] where the code leaves it
    uninitialised. *)
Inductive step_result :=
  | Ok (w : world) (fp : flat_binder_object)
  | Err (w : world) (e : option Z).

Definition failed : option Z := Some BinderThreads.BR_FAILED_REPLY.

Section Translate.
Context (sup : supply).

(** The node of the sender, made when there is none. *)
Definition sender_node (w : world) (proc : Z) (fp : flat_binder_object) : option (world * option Z) :=
  found ← binder_get_node (refs w) proc (fp_binder fp);
  match found with
  | Some a => Some (w, Some a)
  | None =>
      '(st, node) ← binder_new_node (kz_node sup (refs w)) (refs w) proc (fp_binder fp) (fp_cookie fp);
      Some match node with
           | None => (set_store w st, None)
           | Some a =>
               (mk_world st (if negb (fp_flags fp &ᵤ FLAT_BINDER_FLAG_ACCEPTS_FDS =? 0)
                             then {[a]} ∪ accept_fds w else accept_fds w ∖ {[a]}) (files_of w), Some a)
           end
  end.

(** BINDER_TYPE_BINDER and BINDER_TYPE_WEAK_BINDER; [todo] is the list of the
    sending thread. *)
Definition translate_binder (w : world) (proc target_proc todo : Z) (fp : flat_binder_object) : option step_result :=
  '(w, node) ← sender_node w proc fp;
  match node with
  | None => Some (Err w failed)
  | Some a =>
      n ← node_at (refs w) !! a;
      if negb (fp_cookie fp =? n_cookie n) then Some (Err w None)
      else
        '(st, ref) ← binder_get_ref_for_node (kz_ref sup (refs w)) (refs w) target_proc a;
        match ref with
        | None => Some (Err (set_store w st) failed)
        | Some r =>
            rf ← ref_at st !! r;
            let strong := fp_type fp =? BINDER_TYPE_BINDER in
            let fp := mk_object (if strong then BINDER_TYPE_HANDLE else BINDER_TYPE_WEAK_HANDLE) (fp_flags fp) (desc rf) (fp_cookie fp) in
            '(st, _) ← binder_inc_ref st r strong (Some todo);
            Some (Ok (set_store w st) fp)
        end
  end.

(** BINDER_TYPE_HANDLE and BINDER_TYPE_WEAK_HANDLE. *)
Definition translate_handle (w : world) (proc target_proc : Z) (fp : flat_binder_object) : option step_result :=
  found ← binder_get_ref (refs w) proc (fp_binder fp);
  match found with
  | None => Some (Err w failed)
  | Some r =>
      rf ← ref_at (refs w) !! r;
      n ← node_at (refs w) !! r_node rf;
      let strong := fp_type fp =? BINDER_TYPE_HANDLE in
      if bool_decide (n_proc n = Some target_proc) then
        '(st, _) ← binder_inc_node (refs w) (r_node rf) strong false None;
        Some (Ok (set_store w st)
                (mk_object (if strong then BINDER_TYPE_BINDER else BINDER_TYPE_WEAK_BINDER) (fp_flags fp) (n_ptr n) (n_cookie n)))
      else
        '(st, new_ref) ← binder_get_ref_for_node (kz_ref sup (refs w)) (refs w) target_proc (r_node rf);
        match new_ref with
        | None => Some (Err (set_store w st) failed)
        | Some r' =>
            rf' ← ref_at st !! r';
            '(st, _) ← binder_inc_ref st r' strong None;
            Some (Ok (set_store w st) (mk_object (fp_type fp) (fp_flags fp) (desc rf') (fp_cookie fp)))
        end
  end.

(** BINDER_TYPE_FD; [allowed] when the receiver accepts descriptors. *)
Definition translate_fd (w : world) (target_proc : Z) (allowed : bool) (fp : flat_binder_object) : option step_result :=
  if negb allowed then Some (Err w failed)
  else match fget sup (fp_binder fp) with
       | None => Some (Err w failed)
       | Some file =>
           '(files, fd) ← task_get_unused_fd_flags (fd_limits sup) (fd_rlim sup) true (files_of w !! target_proc);
           let put files := mk_world (refs w) (accept_fds w) (partial_alter (fun _ => files) target_proc (files_of w)) in
           if fd <? 0 then Some (Err (put files) failed)
           else
             files ← task_fd_install files fd file;
             Some (Ok (put files) (mk_object (fp_type fp) (fp_flags fp) fd (fp_cookie fp)))
       end.

Definition translate_object (w : world) (proc target_proc todo : Z) (allowed : bool) (fp : flat_binder_object)
  : option step_result :=
  if (fp_type fp =? BINDER_TYPE_BINDER) || (fp_type fp =? BINDER_TYPE_WEAK_BINDER) then
    translate_binder w proc target_proc todo fp
  else if (fp_type fp =? BINDER_TYPE_HANDLE) || (fp_type fp =? BINDER_TYPE_WEAK_HANDLE) then
    translate_handle w proc target_proc fp
  else if fp_type fp =? BINDER_TYPE_FD then translate_fd w target_proc allowed fp
  else Some (Err w failed).

(** The loop: the world and the data it ends with, and the number of objects
    translated with the error if it stops before the end. *)
Fixpoint translate (w : world) (proc target_proc todo : Z) (allowed : bool) (data_size : Z) (data : list Z) (i : nat)
    (offs : list Z) : option (world * list Z * option (nat * option Z)) :=
  match offs with
  | [] => Some (w, data, None)
  | off :: offs =>
      if bad_offset data_size off then Some (w, data, Some (i, failed))
      else
        fp ← read_object data off;
        r ← translate_object w proc target_proc todo allowed fp;
        match r with
        | Err w e => Some (w, data, Some (i, e))
        | Ok w fp => translate w proc target_proc todo allowed data_size (write_object data off fp) (S i) offs
        end
  end.

(** ** Release *)

Definition release_object (w : world) (proc : Z) (failed_at : bool) (fp : flat_binder_object) : option world :=
  if (fp_type fp =? BINDER_TYPE_BINDER) || (fp_type fp =? BINDER_TYPE_WEAK_BINDER) then
    node ← binder_get_node (refs w) proc (fp_binder fp);
    match node with
    | None => Some w
    | Some a => st ← binder_dec_node (refs w) a (fp_type fp =? BINDER_TYPE_BINDER) false; Some (set_store w st)
    end
  else if (fp_type fp =? BINDER_TYPE_HANDLE) || (fp_type fp =? BINDER_TYPE_WEAK_HANDLE) then
    ref ← binder_get_ref (refs w) proc (fp_binder fp);
    match ref with
    | None => Some w
    | Some r => '(st, _) ← binder_dec_ref (refs w) r (fp_type fp =? BINDER_TYPE_HANDLE); Some (set_store w st)
    end
  else if (fp_type fp =? BINDER_TYPE_FD) && failed_at then
    let '(files, _) := task_close_fd (files_of w !! proc) (fp_binder fp) in
    Some (mk_world (refs w) (accept_fds w) (partial_alter (fun _ => files) proc (files_of w)))
  else Some w.

Fixpoint release_objects (w : world) (proc : Z) (failed_at : bool) (data_size : Z) (data offs : list Z) : option world :=
  match offs with
  | [] => Some w
  | off :: offs =>
      if bad_offset data_size off then release_objects w proc failed_at data_size data offs
      else
        fp ← read_object data off;
        w ← release_object w proc failed_at fp;
        release_objects w proc failed_at data_size data offs
  end.

(** [failed_at] is the number of objects to release when not all. *)
Definition binder_transaction_buffer_release (w : world) (proc : Z) (target_node : option Z) (data_size : Z) (data offs : list Z)
    (failed_at : option nat) : option world :=
  w ← match target_node with
      | None => Some w
      | Some a => st ← binder_dec_node (refs w) a true false; Some (set_store w st)
      end;
  match failed_at with
  | Some i => release_objects w proc true data_size data (take i offs)
  | None => release_objects w proc false data_size data offs
  end.

(** ** The part of binder_transaction() between the allocation of the buffer
    and the queues *)

Inductive transfer :=
  | Sent (w : world) (data : list Z)
  | Refused (w : world) (e : option Z).

(** [in_reply_flags] has the flags of the call a reply answers; [copied] is
    whether data and offsets could be read from the sender.  What is not a
    reply has a target node. *)
Definition transfer_objects (w : world) (proc target_proc todo : Z) (target_node : option Z) (in_reply_flags : option Z)
    (copied : bool) (data_size : Z) (data : list Z) (offsets_size : Z) (offs : list Z) : option transfer :=
  w ← match target_node with
      | None => Some w
      | Some a => '(st, _) ← binder_inc_node (refs w) a true false None; Some (set_store w st)
      end;
  let allowed := match in_reply_flags, target_node with
                 | Some flags, _ => negb (flags &ᵤ TF_ACCEPT_FDS =? 0)
                 | None, Some a => bool_decide (a ∈ accept_fds w)
                 | None, None => false
                 end in
  '(w, data, err) ←
    (if negb copied then Some (w, data, Some (O, failed))
     else if negb (offsets_size &ᵤ 3 =? 0) then Some (w, data, Some (O, failed))
     else translate w proc target_proc todo allowed data_size data 0 offs);
  match err with
  | None => Some (Sent w data)
  | Some (i, e) =>
      w ← binder_transaction_buffer_release w target_proc target_node data_size data offs (Some i);
      Some (Refused w e)
  end.

End Translate.

End BinderObjects.
