(* ===== verification/BinderFrames.v ===== *)
(** What the operations of BinderRefs.v on nodes and references leave alone:
    the identity of nodes and references, the processes and their lists.
    Increments keep them all, decrements may only remove some. *)

From S2P Require Import Prelude RbTree KeyTree BinderRefs.
Local Open Scope Z_scope.
Local Open Scope kernel_scope.

Module BinderFrames.
Import RbTree KeyTree BinderRefs.

(** ** Identities *)

Definition nid (n : binder_node) : option Z * Z * Z := (n_proc n, n_ptr n, n_cookie n).
Definition rid (rf : binder_ref) : Z * Z * Z := (r_proc rf, r_node rf, desc rf).
Definition pkey (pr : binder_proc) : Z * Z := (todo pr, delivered_death pr).

Record around (st st' : binder) : Prop := {
  ar_proc : pkey <$> proc_at st' = pkey <$> proc_at st;
  ar_ctx : context_mgr_node st' = context_mgr_node st;
  ar_lists : dom (list_at st') = dom (list_at st)
}.

#[export] Instance around_preorder : PreOrder around.
Proof.
  split; [by intros st; split|]. intros s1 s2 s3 [A1 A2 A3] [B1 B2 B3]. split; congruence.
Qed.

(** Nodes and references keep their identity; [st'] has those of [st], or only
    those. *)
Record grows (st st' : binder) : Prop := {
  gr_around : around st st';
  gr_nodes : forall a n, node_at st !! a = Some n -> exists n', node_at st' !! a = Some n' /\ nid n' = nid n;
  gr_refs : forall r rf, ref_at st !! r = Some rf -> exists rf', ref_at st' !! r = Some rf' /\ rid rf' = rid rf
}.

Record shrinks (st st' : binder) : Prop := {
  sh_around : around st st';
  sh_nodes : forall a n', node_at st' !! a = Some n' -> exists n, node_at st !! a = Some n /\ nid n' = nid n;
  sh_refs : forall r rf', ref_at st' !! r = Some rf' -> exists rf, ref_at st !! r = Some rf /\ rid rf' = rid rf
}.

#[export] Instance grows_preorder : PreOrder grows.
Proof.
  split; [intros st; split; [done|eauto|eauto]|]. intros s1 s2 s3 [A1 A2 A3] [B1 B2 B3]. split; [by etrans| |].
  - intros a n (n2 & Hn2 & E2)%A2. destruct (B2 a n2 Hn2) as (n3 & Hn3 & E3). exists n3. split; [done|congruence].
  - intros a n (n2 & Hn2 & E2)%A3. destruct (B3 a n2 Hn2) as (n3 & Hn3 & E3). exists n3. split; [done|congruence].
Qed.
#[export] Instance shrinks_preorder : PreOrder shrinks.
Proof.
  split; [intros st; split; [done|eauto|eauto]|]. intros s1 s2 s3 [A1 A2 A3] [B1 B2 B3]. split; [by etrans| |].
  - intros a n (n2 & Hn2 & E2)%B2. destruct (A2 a n2 Hn2) as (n3 & Hn3 & E3). exists n3. split; [done|congruence].
  - intros a n (n2 & Hn2 & E2)%B3. destruct (A3 a n2 Hn2) as (n3 & Hn3 & E3). exists n3. split; [done|congruence].
Qed.

Definition same_ids (st st' : binder) : Prop := grows st st' /\ shrinks st st'.
#[export] Instance same_ids_preorder : PreOrder same_ids.
Proof.
  split; [by intros st|]. intros s1 s2 s3 [] []. split; by etrans.
Qed.

(** ** The operations *)

Lemma maps_same (st st' : binder) : around st st' ->
  nid <$> node_at st' = nid <$> node_at st -> rid <$> ref_at st' = rid <$> ref_at st -> same_ids st st'.
Proof.
  intros Ha En Er.
  assert (Hn : forall a, nid <$> node_at st' !! a = nid <$> node_at st !! a) by (intros a; by rewrite <- !lookup_fmap, En).
  assert (Hr : forall r, rid <$> ref_at st' !! r = rid <$> ref_at st !! r) by (intros r; by rewrite <- !lookup_fmap, Er).
  split; split; try done.
  - intros a n H. specialize (Hn a). rewrite H in Hn. apply fmap_Some in Hn as (n' & ? & ?). by exists n'.
  - intros r x H. specialize (Hr r). rewrite H in Hr. apply fmap_Some in Hr as (x' & ? & ?). by exists x'.
  - intros a n H. specialize (Hn a). rewrite H in Hn. symmetry in Hn. apply fmap_Some in Hn as (n' & ? & ?). by exists n'.
  - intros r x H. specialize (Hr r). rewrite H in Hr. symmetry in Hr. apply fmap_Some in Hr as (x' & ? & ?). by exists x'.
Qed.

(** The operations on nodes do not touch the references. *)
Definition quiet (st st' : binder) : Prop := same_ids st st' /\ ref_at st' = ref_at st.
#[export] Instance quiet_preorder : PreOrder quiet.
Proof. split; [by intros st|]. intros s1 s2 s3 [? E] [? E']. split; [by etrans|congruence]. Qed.

Lemma insert_same {A B} (f : A -> B) (m : gmap Z A) i x y : m !! i = Some x -> f y = f x -> f <$> <[i := y]> m = f <$> m.
Proof. intros H E. rewrite fmap_insert. apply insert_id. by rewrite lookup_fmap, H, E. Qed.

Lemma put_node_quiet st a n n' : node_at st !! a = Some n -> nid n' = nid n -> quiet st (put_node st a n').
Proof. intros H E. split; [|done]. apply maps_same; [done| |done]. by eapply insert_same. Qed.

Lemma put_ref_ids st r rf rf' : ref_at st !! r = Some rf -> rid rf' = rid rf -> same_ids st (put_ref st r rf').
Proof. intros H E. apply maps_same; [done|done|]. by eapply insert_same. Qed.

Lemma put_proc_quiet st p pr pr' : proc_at st !! p = Some pr -> pkey pr' = pkey pr -> quiet st (put_proc st p pr').
Proof. intros H E. split; [|done]. apply maps_same; [|done|done]. split; try done. by eapply insert_same. Qed.

Lemma put_list_quiet st h l l' : list_at st !! h = Some l -> quiet st (put_list st h l').
Proof.
  intros Hl. split; [|done]. apply maps_same; [|done|done]. split; try done. simpl. rewrite dom_insert_L.
  apply elem_of_dom_2 in Hl. set_solver.
Qed.

Lemma set_work_quiet st w on st' : set_work st w on = Some st' -> quiet st st'.
Proof. destruct w; simpl; intros; follow; [by eapply put_node_quiet|split; [by apply maps_same|done]]. Qed.

Lemma list_add_tail_quiet st w h st' : list_add_tail st w h = Some st' -> quiet st st'.
Proof. unfold list_add_tail. intros. follow. etrans; [by eapply put_list_quiet|by eapply set_work_quiet]. Qed.

Lemma list_del_init_quiet st w st' : list_del_init st w = Some st' -> quiet st st'.
Proof. unfold list_del_init. intros. follow; [|done]. etrans; [by eapply put_list_quiet|by eapply set_work_quiet]. Qed.

Lemma inc_counts_nid n s i : nid (inc_counts n s i) = nid n.
Proof. by destruct s, i. Qed.
Lemma dec_counts_nid n s i : nid (dec_counts n s i) = nid n.
Proof. by destruct s, i. Qed.

Lemma inc_node_quiet st a s i t st' ret : binder_inc_node st a s i t = Some (st', ret) -> quiet st st'.
Proof.
  unfold binder_inc_node. intros H. apply bind_Some in H as (n & Hn & H).
  assert (H1 : quiet st (put_node st a (inc_counts n s i))) by (eapply put_node_quiet; [done|apply inc_counts_nid]).
  set (s1 := put_node _ _ _) in *. clearbody s1. follow; try done; (etrans; [exact H1|]).
  - etrans; [by eapply list_del_init_quiet|by eapply list_add_tail_quiet].
  - by eapply list_add_tail_quiet.
Qed.

Lemma inc_ref_ids st r s t st' ret : binder_inc_ref st r s t = Some (st', ret) -> same_ids st st'.
Proof.
  unfold binder_inc_ref. intros H. apply bind_Some in H as (rf & Hr & H).
  assert (Hput : forall s1 x y, quiet st s1 -> same_ids st (put_ref s1 r (with_ref_counts rf x y))).
  { intros s1 x y [H1 E]. etrans; [exact H1|]. eapply put_ref_ids; [by rewrite E|done]. }
  assert (Hinc : forall (c : bool) i s1 rt, (if c then binder_inc_node st (r_node rf) s i t else Some (st, 0)) = Some (s1, rt) -> quiet st s1).
  { intros c i s1 rt E. destruct c; [by eapply inc_node_quiet|by injection E as <- <-]. }
  destruct s; apply bind_Some in H as ([s1 rt] & H%Hinc & H2); destruct (negb _); injection H2 as <- _;
    first [by apply Hput|apply H].
Qed.

(** A new reference or node is at an address that was not in use. *)
Lemma insert_grows (st st' : binder) : around st st' ->
  (forall a n, node_at st !! a = Some n -> nid <$> node_at st' !! a = Some (nid n)) ->
  (forall r rf, ref_at st !! r = Some rf -> rid <$> ref_at st' !! r = Some (rid rf)) -> grows st st'.
Proof.
  intros Ha Hn Hr. split; [done| |].
  - intros a n H%Hn. apply fmap_Some in H as (n' & ? & ?). by exists n'.
  - intros a n H%Hr. apply fmap_Some in H as (n' & ? & ?). by exists n'.
Qed.

Lemma get_ref_for_node_grows kz st p a st' x : binder_get_ref_for_node kz st p a = Some (st', x) ->
  (forall r, kz = Some r -> ref_at st !! r = None) -> grows st st'.
Proof.
  unfold binder_get_ref_for_node. intros H Hkz. apply bind_Some in H as (pr & Hp & H). apply bind_Some in H as (w & _ & H).
  destruct w as [path|r]; [|by injection H as <- <-]. destruct kz as [r|]; [|by injection H as <- <-].
  specialize (Hkz r eq_refl). apply bind_Some in H as (tn & _ & H). apply bind_Some in H as (d & _ & H).
  apply bind_Some in H as (w & _ & H). destruct w as [path'|]; [|done]. apply bind_Some in H as (td & _ & H).
  set (s1 := put_proc _ _ _) in H. set (s2 := put_ref _ _ _) in H.
  assert (H1 : grows st s1) by (eapply put_proc_quiet; done). assert (E1 : ref_at s1 = ref_at st) by done.
  assert (H2 : grows st s2).
  { etrans; [exact H1|]. clearbody s1. apply insert_grows; [done|intros ? ? E; simpl; by rewrite E|]. intros x' y E. simpl.
    rewrite lookup_insert_ne by congruence. by rewrite E. }
  unfold add_to_node in H. follow; [done|]. etrans; [exact H2|]. by eapply put_node_quiet.
Qed.

Lemma new_node_grows kz st p ptr cookie st' x : binder_new_node kz st p ptr cookie = Some (st', x) ->
  (forall a, kz = Some a -> node_at st !! a = None) -> grows st st'.
Proof.
  unfold binder_new_node. intros H Hkz. apply bind_Some in H as (pr & Hp & H). apply bind_Some in H as (w & _ & H).
  destruct w as [path|r]; [|by injection H as <- <-]. destruct kz as [a|]; [|by injection H as <- <-].
  specialize (Hkz a eq_refl). apply bind_Some in H as (t & _ & H). injection H as <- _.
  set (s1 := put_proc _ _ _). assert (H1 : grows st s1) by (eapply put_proc_quiet; done).
  etrans; [exact H1|]. assert (E1 : node_at s1 = node_at st) by done. clearbody s1.
  apply insert_grows; [done| |intros ? ? E; simpl; by rewrite E]. intros b n E. simpl. rewrite lookup_insert_ne by congruence. by rewrite E.
Qed.

Lemma free_node_shrinks st a st' : free_node st a = Some st' -> shrinks st st'.
Proof.
  unfold free_node. intros H. apply bind_Some in H as (n & Hn & H). apply bind_Some in H as (s1 & H1 & H).
  apply list_del_init_quiet in H1 as [[_ H1] _]. etrans; [exact H1|].
  assert (Hdel : forall s, shrinks s (set_nodes s (delete a (node_at s)))).
  { intros s. split; [done| |eauto]. simpl. intros b m [_ Hb]%lookup_delete_Some. eauto. }
  destruct (n_proc n); follow; [|by etrans; [|apply (Hdel (set_dead_nodes s1 _))]; split; [|eauto|eauto]].
  set (s2 := put_proc _ _ _). assert (Hs : shrinks s1 s2) by (eapply put_proc_quiet; done).
  etrans; [exact Hs|apply (Hdel s2)].
Qed.

Lemma dec_node_shrinks st a s i st' : binder_dec_node st a s i = Some st' -> shrinks st st'.
Proof.
  unfold binder_dec_node, dec_last. intros H. apply bind_Some in H as (n & Hn & H).
  assert (H1 : shrinks st (put_node st a (dec_counts n s i))) by (eapply put_node_quiet; [done|apply dec_counts_nid]).
  etrans; [exact H1|]. follow; try done; first [by eapply free_node_shrinks|by eapply list_add_tail_quiet].
Qed.

Lemma delete_ref_shrinks st r st' : binder_delete_ref st r = Some st' -> shrinks st st'.
Proof.
  unfold binder_delete_ref. intros H. apply bind_Some in H as (rf & Hr & H). apply bind_Some in H as (pr & Hp & H).
  apply bind_Some in H as (td & _ & H). apply bind_Some in H as (tn & _ & H). set (s1 := put_proc _ _ _) in H.
  assert (H1 : shrinks st s1) by (eapply put_proc_quiet; done). apply bind_Some in H as (s2 & H2 & H).
  assert (H2' : shrinks st s2) by (etrans; [exact H1|]; destruct (negb _); [by eapply dec_node_shrinks|by injection H2 as <-]).
  apply bind_Some in H as (n & Hn & H). set (s3 := put_node _ _ _) in H.
  assert (H3 : shrinks st s3) by (etrans; [exact H2'|]; by eapply put_node_quiet).
  apply bind_Some in H as (s4 & H4%dec_node_shrinks & H). apply bind_Some in H as (s5 & H5 & H).
  assert (H5' : shrinks s4 s5).
  { clear H. destruct (death rf); [|by injection H5 as <-]. apply bind_Some in H5 as (s6 & [[_ H6] _]%list_del_init_quiet & [= <-]).
    etrans; [exact H6|]. split; [done|eauto|eauto]. }
  injection H as <-. etrans; [exact H3|]. etrans; [exact H4|]. etrans; [exact H5'|].
  split; [done|eauto|]. simpl. intros x y [_ Hx]%lookup_delete_Some. eauto.
Qed.

Lemma dec_ref_shrinks st r s st' ret : binder_dec_ref st r s = Some (st', ret) -> shrinks st st'.
Proof.
  unfold binder_dec_ref. intros H. apply bind_Some in H as (rf & Hr & H).
  assert (Hput : forall x y, shrinks st (put_ref st r (with_ref_counts rf x y))) by (intros x y; by eapply put_ref_ids).
  assert (Hlast : forall s1 (c : bool), shrinks st s1 ->
    (if c then st ← binder_delete_ref s1 r; Some (st, 0) else Some (s1, 0)) = Some (st', ret) -> shrinks st st').
  { clear H. intros s1 c H1 E. destruct c; follow; [etrans; [exact H1|by eapply delete_ref_shrinks]|done]. }
  destruct s; (destruct (_ =? 0); [by injection H as <- _|]); [|by apply Hlast in H].
  apply bind_Some in H as (s1 & H1 & H). apply Hlast in H; [done|].
  destruct (_ =? 0); [|injection H1 as <-; apply Hput]. etrans; [apply Hput|by eapply dec_node_shrinks].
Qed.

End BinderFrames.
