(* ===== verification/BinderTransfer.v ===== *)
(** What the objects of a transaction take and give back: the objects the
    receiver gets denote what the sender's do, and when the transfer fails the
    reference counts, the holds on nodes and the file descriptors are as they
    were. *)

From S2P Require Import Prelude RbTree KeyTree BinderRefs BinderRefsInv BinderRefsCorrect BinderRefsSafe BinderWorld BinderFds BinderObjects BinderFrames.
Local Open Scope Z_scope.
Local Open Scope kernel_scope.

Module BinderTransfer.
Import RbTree KeyTree BinderRefs BinderRefsInv BinderRefsCorrect BinderRefsSafe BinderFds BinderObjects BinderFrames.

(** ** What is owed *)

(** What one object made the receiver have. *)
Inductive grant :=
  | GRef (r : Z) (s : bool)
  | GNode (a : Z) (s : bool)
  | GFd (fd file : Z).

#[export] Instance grant_eq_dec : EqDecision grant.
Proof. solve_decision. Defined.

Definition owed (g : grant) (gs : list grant) : Z := Z.of_nat (length (filter (eq g) gs)).

Lemma owed_nonneg g gs : 0 <= owed g gs.
Proof. unfold owed. lia. Qed.

Lemma owed_app g gs gs' : owed g (gs ++ gs') = owed g gs + owed g gs'.
Proof. unfold owed. rewrite filter_app, length_app. lia. Qed.

Lemma owed_one g g' : owed g [g'] = if decide (g = g') then 1 else 0.
Proof. unfold owed. rewrite filter_cons, filter_nil. by destruct (decide (g = g')). Qed.

Lemma owed_cons g g' gs : owed g (g' :: gs) = (if decide (g = g') then 1 else 0) + owed g gs.
Proof. rewrite <- owed_one, <- owed_app. done. Qed.

Lemma owed_snoc g g' gs : owed g (gs ++ [g']) = owed g gs + (if decide (g = g') then 1 else 0).
Proof. by rewrite owed_app, owed_one. Qed.

Definition rcount (s : bool) (st : binder) (r : Z) : Z :=
  match ref_at st !! r with Some rf => if s then strong rf else weak rf | None => 0 end.

Definition with_holds (gs : list grant) (s : bool) (h : Z -> Z) (a : Z) : Z := h a + owed (GNode a s) gs.

(** [st] is [st0] with what the objects took.  An increment of a reference
    that was refused leaves its count at zero, where a decrement stops. *)
Record owing (owner hs hw : Z -> Z) (st0 : binder) (gs : list grant) (st : binder) : Prop := {
  ow_inv : refs_inv owner (with_holds gs true hs) (with_holds gs false hw) st;
  ow_count r s : rcount s st0 r = Z.max 0 (rcount s st r - owed (GRef r s) gs)
}.

(** There is room for [k] more references, counts and holds. *)
Record room (hs hw : Z -> Z) (k : Z) (st : binder) : Prop := {
  rm_size : Z.of_nat (size (ref_at st)) + k <= 1000000000;
  rm_count r s : rcount s st r + k <= 2147483647;
  rm_hold a : hs a + ctx_hold st a + k <= 1000000000 /\ hw a + ctx_hold st a + k <= 1000000000
}.

(** What the translation of an object changes. *)
Record extends (st st' : binder) : Prop := {
  ex_grows : grows st st';
  ex_size : (size (ref_at st) <= size (ref_at st') <= S (size (ref_at st)))%nat;
  ex_count r s : rcount s st r <= rcount s st' r <= rcount s st r + 1
}.

Lemma grows_ctx_hold st st' a : grows st st' -> ctx_hold st' a = ctx_hold st a.
Proof. intros [[_ E _] _ _]. unfold ctx_hold. by rewrite E. Qed.

Lemma room_step hs hw hs' hw' k st st' : room hs hw (k + 1) st -> extends st st' ->
  (forall a, hs' a <= hs a + 1 /\ hw' a <= hw a + 1) -> room hs' hw' k st'.
Proof.
  intros [H1 H2 H3] [E1 E2 E3] Hh. split; [lia| |].
  - intros r s. specialize (H2 r s). specialize (E3 r s). lia.
  - intros a. rewrite (grows_ctx_hold _ _ _ E1). specialize (H3 a). specialize (Hh a). lia.
Qed.

(** ** References *)

Lemma rcount_nonneg owner hs hw st s r : refs_inv owner hs hw st -> 0 <= rcount s st r.
Proof.
  intros Hi. unfold rcount. destruct (ref_at st !! r) as [rf|] eqn:E; [|done].
  destruct (ro_counts _ _ _ (iv_refs _ _ _ _ Hi r rf E)). destruct s; lia.
Qed.

Lemma rcount_insert s st st' r rf' x : ref_at st' = <[r := rf']> (ref_at st) ->
  rcount s st' x = if decide (x = r) then (if s then strong rf' else weak rf') else rcount s st x.
Proof.
  intros E. unfold rcount. rewrite E. destruct (decide (x = r)) as [->|]; [by rewrite lookup_insert_eq|by rewrite lookup_insert_ne].
Qed.

(** A refused increment. *)
Lemma inc_ref_refused st r rf s t st' : ref_at st !! r = Some rf -> binder_inc_ref st r s t = Some (st', - EINVAL) ->
  rcount s st r = 0 /\ (s = true -> forall n, node_at st !! r_node rf = Some n -> internal_strong_refs n = 0).
Proof.
  intros Hr. unfold binder_inc_ref, rcount. rewrite Hr. cbn [mbind option_bind]. intros H. destruct s.
  - destruct (Z.eqb_spec (strong rf) 0) as [E|E]; [|done]. split; [done|]. intros _ n Hn. unfold binder_inc_node in H.
    rewrite Hn in H. cbn [mbind option_bind andb] in H. unfold inc_refused in H.
    destruct (Z.eqb_spec (internal_strong_refs n) 0); [done|]. rewrite andb_false_r in H. cbn [andb] in H. by follow.
  - by destruct (Z.eqb_spec (weak rf) 0) as [E|E]; [|done].
Qed.

(** What the allocators promise, and the limit of the system. *)
Record supply_ok (sup : supply) : Prop := {
  so_node st a : kz_node sup st = Some a -> node_at st !! a = None /\ a <> 0;
  so_ref st r : kz_ref sup st = Some r -> ref_at st !! r = None;
  so_limit : sysctl_nr_open (fd_limits sup) <= 1048576
}.

Section Transfer.
Context (owner : Z -> Z) (sup : supply) (Hsup : supply_ok sup).
Context (proc target todo : Z).

(** Sender and receiver exist, and [todo] is a list of the sender. *)
Record parties (st : binder) : Prop := {
  pa_proc : is_Some (proc_at st !! proc);
  pa_target : is_Some (proc_at st !! target);
  pa_todo : is_Some (list_at st !! todo) /\ owner todo = proc /\
    forall p pr, proc_at st !! p = Some pr -> delivered_death pr <> todo
}.

Lemma around_proc st st' p pr' : around st st' -> proc_at st' !! p = Some pr' ->
  exists pr, proc_at st !! p = Some pr /\ pkey pr' = pkey pr.
Proof using.
  clear. intros [E _ _] H. assert (E' : (pkey <$> proc_at st') !! p = (pkey <$> proc_at st) !! p) by (by rewrite E).
  rewrite !lookup_fmap, H in E'. destruct (proc_at st !! p) as [pr|]; [|done]. exists pr. split; [done|]. by injection E' as ? ?; unfold pkey; f_equal.
Qed.

Lemma around_some st st' p : around st st' -> is_Some (proc_at st !! p) -> is_Some (proc_at st' !! p).
Proof using.
  clear. intros [E _ _] [pr H]. assert (E' : (pkey <$> proc_at st') !! p = (pkey <$> proc_at st) !! p) by (by rewrite E).
  rewrite !lookup_fmap, H in E'. destruct (proc_at st' !! p); [by eexists|done].
Qed.

Lemma parties_around st st' : around st st' -> parties st -> parties st'.
Proof using.
  clear. intros Ha [H1 H2 (H3 & H4 & H5)]. split; [by apply (around_some st)|by apply (around_some st)|]. split_and!; [|done|].
  - apply elem_of_dom. rewrite (ar_lists _ _ Ha). by apply elem_of_dom.
  - intros p pr' (pr & Hp & E)%(around_proc st); [|done]. injection E as _ ->. by apply (H5 p).
Qed.

Lemma owing_ref hs hw st0 gs st st' r s :
  owing owner hs hw st0 gs st -> refs_inv owner (with_holds gs true hs) (with_holds gs false hw) st' ->
  (forall x b, rcount b st' x = rcount b st x + (if decide (x = r /\ b = s) then 1 else 0)) \/
  (rcount s st r = 0 /\ forall x b, rcount b st' x = rcount b st x) ->
  owing owner hs hw st0 (gs ++ [GRef r s]) st'.
Proof using.
  clear. intros [H1 H2] Hi Hc. split.
  - apply (refs_inv_ext owner (with_holds gs true hs) (with_holds gs false hw)); [done|]. intros b. unfold with_holds.
    rewrite !owed_snoc, !decide_False by done. lia.
  - intros x b. specialize (H2 x b). rewrite owed_snoc. pose proof (owed_nonneg (GRef x b) gs).
    destruct Hc as [Hc|[Hz Hc]]; rewrite Hc.
    + destruct (decide (x = r /\ b = s)) as [[-> ->]|Hne]; [rewrite decide_True by done; lia|].
      rewrite decide_False by naive_solver. lia.
    + destruct (decide (GRef x b = GRef r s)) as [[= -> ->]|]; lia.
Qed.

(** The receiver has a reference to the node, or gets one without counts. *)
Lemma find_ref hs hw st a n :
  refs_inv owner hs hw st -> parties st -> Z.of_nat (size (ref_at st)) + 1 <= 1000000000 -> node_at st !! a = Some n ->
  exists st1 x, binder_get_ref_for_node (kz_ref sup st) st target a = Some (st1, x) /\
    match x with
    | None => st1 = st
    | Some r => exists rf n1, ref_at st1 !! r = Some rf /\ r_proc rf = target /\ r_node rf = a /\
        refs_inv owner hs hw st1 /\ extends st st1 /\ (forall b x, rcount b st1 x = rcount b st x) /\
        node_at st1 !! a = Some n1 /\ n_proc n1 = n_proc n /\ internal_strong_refs n1 = internal_strong_refs n
    end.
Proof using Hsup.
  intros Hi Hp Hsz Hn. destruct (pa_target _ Hp) as [pr Hpr].
  assert (Hkz : forall r, kz_ref sup st = Some r -> ref_at st !! r = None) by apply (so_ref sup Hsup st).
  assert (Hkz' : fresh_ref (kz_ref sup st) st) by (intros r E; split; [by apply Hkz|lia]).
  destruct (get_ref_for_node_inv owner hs hw (kz_ref sup st) st target a pr n Hi Hpr Hn Hkz')
    as [(r & Hr & Hta & E)|(_ & [[_ E]|(r & d & st' & Ek & E & Hi' & _ & Er & En & _)])]; rewrite E; [|by eexists _, _|].
  - eexists _, _. split; [done|]. unfold refs_of, target_of in *. destruct (ref_at st !! r) as [rf|] eqn:Hrf; [|done].
    injection Hr as Hr. injection Hta as Hta. exists rf, n. split_and!; try done. split; [done|lia|lia].
  - eexists _, _. split; [done|]. simpl. pose proof (Hkz r Ek) as Hfresh.
    assert (Hc : forall b x, rcount b st' x = rcount b st x).
    { intros b x. rewrite (rcount_insert b st st' _ _ x Er). destruct (decide (x = r)) as [->|]; [|done].
      unfold rcount. rewrite Hfresh. by destruct b. }
    exists (mk_ref target a d 0 0 None), (with_refs n (r :: n_refs n)).
    split_and!; [by rewrite Er, lookup_insert_eq|done|done|done| |done|by rewrite En, lookup_insert_eq|done|done].
    split; [by eapply get_ref_for_node_grows| |intros; rewrite Hc; lia]. rewrite Er, map_size_insert_None by done. lia.
Qed.

(** The reference is incremented, or that is refused and its count is zero. *)
Lemma take_ref hs hw st r rf n s t :
  refs_inv owner hs hw st -> ref_at st !! r = Some rf -> node_at st !! r_node rf = Some n -> target_ok owner st n t ->
  rcount s st r < 2147483647 ->
  exists st' ret rf', binder_inc_ref st r s t = Some (st', ret) /\ refs_inv owner hs hw st' /\ grows st st' /\
    size (ref_at st') = size (ref_at st) /\
    ref_at st' !! r = Some rf' /\ rid rf' = rid rf /\
    ((forall x b, rcount b st' x = rcount b st x + (if decide (x = r /\ b = s) then 1 else 0)) \/
     (rcount s st r = 0 /\ (forall x b, rcount b st' x = rcount b st x) /\ t = None /\
        (s = true -> internal_strong_refs n = 0))).
Proof using.
  clear proc target todo Hsup sup. intros Hi Hr Hn Ht Hmax. unfold rcount in Hmax. rewrite Hr in Hmax.
  destruct (inc_ref_inv owner hs hw st r rf n s t Hi Hr Hn Ht Hmax) as [[Et E]|(st' & n' & E & Hi' & Er & _)].
  - destruct (inc_ref_refused st r rf s t st Hr E) as [Hz Hint]. exists st, (- EINVAL), rf. split_and!; try done.
    right. split_and!; try done. intros Hs. by apply Hint.
  - assert (Hc : forall x b, rcount b st' x = rcount b st x + (if decide (x = r /\ b = s) then 1 else 0)).
    { intros x b. rewrite (rcount_insert b st st' _ _ x Er). destruct (decide (x = r)) as [->|].
      - unfold rcount. rewrite Hr. destruct (decide (b = s)) as [->|]; [rewrite decide_True by done; by destruct s|].
        rewrite decide_False by naive_solver. destruct b, s; simpl; done || lia.
      - rewrite decide_False by naive_solver. lia. }
    eexists st', _, _. split_and!; [exact E|done|by eapply inc_ref_ids| |by rewrite Er, lookup_insert_eq|by destruct s|by left].
    by rewrite Er, map_size_insert_Some by (by eexists).
Qed.

(** The receiver gets a reference to the node. *)
Lemma grant_ref hs hw st0 gs st a n s t :
  owing owner hs hw st0 gs st -> parties st -> room (with_holds gs true hs) (with_holds gs false hw) 1 st ->
  node_at st !! a = Some n -> target_ok owner st n t ->
  exists st1 x, binder_get_ref_for_node (kz_ref sup st) st target a = Some (st1, x) /\
    match x with
    | None => st1 = st
    | Some r => exists rf st2 ret rf2, ref_at st1 !! r = Some rf /\ binder_inc_ref st1 r s t = Some (st2, ret) /\
        owing owner hs hw st0 (gs ++ [GRef r s]) st2 /\ extends st st2 /\
        ref_at st2 !! r = Some rf2 /\ rid rf2 = (target, a, desc rf) /\
        (0 < rcount s st2 r \/ t = None /\ (s = true -> internal_strong_refs n = 0))
    end.
Proof using Hsup.
  intros Ho Hp [Hsz Hmax _] Hn Ht. destruct (find_ref _ _ st a n (ow_inv _ _ _ _ _ _ Ho) Hp ltac:(lia) Hn) as (st1 & x & E & Hx).
  exists st1, x. split; [done|]. destruct x as [r|]; [|done]. destruct Hx as (rf & n1 & Hr & Erp & Era & Hi1 & [G1 S1 _] & Hc1 & Hn1 & En1 & Ei1).
  assert (Ht1 : target_ok owner st1 n1 t).
  { intros h Hh. destruct (Ht h Hh) as (Hl & Ho' & Hd). split_and!; [|congruence|].
    - apply elem_of_dom. rewrite (ar_lists _ _ (gr_around _ _ G1)). by apply elem_of_dom.
    - intros p pr' (pr & Hpr & Ek)%(around_proc st); [|apply G1]. injection Ek as _ ->. by apply (Hd p). }
  rewrite <- Era in Hn1. destruct (take_ref _ _ st1 r rf n1 s t Hi1 Hr Hn1 Ht1) as (st2 & ret & rf2 & E2 & Hi2 & G2 & S2 & Hr2 & Erid & Hc2).
  { rewrite Hc1. specialize (Hmax r s). lia. }
  exists rf, st2, ret, rf2. split_and!; [done|done| | |done| |].
  - apply (owing_ref _ _ _ _ st _ _ _ Ho Hi2). destruct Hc2 as [Hc2|(Hz & Hc2 & _)].
    + left. intros x b. by rewrite Hc2, Hc1.
    + right. rewrite Hc1 in Hz. split; [done|]. intros x b. by rewrite Hc2, Hc1.
  - split; [by etrans|lia|]. intros x b. destruct Hc2 as [Hc2|(Hz & Hc2 & _)]; rewrite Hc2, Hc1; [destruct (decide _)|]; lia.
  - rewrite Erid. unfold rid. congruence.
  - destruct Hc2 as [Hc2|(_ & _ & -> & Hint)]; [left|right; split; [done|]; intros Hs; rewrite <- Ei1; by apply Hint].
    rewrite Hc2, decide_True by done. pose proof (rcount_nonneg _ _ _ st1 s r Hi1). lia.
Qed.

(** ** Denotation *)

Definition binder_type (s : bool) : Z := if s then BINDER_TYPE_BINDER else BINDER_TYPE_WEAK_BINDER.
Definition handle_type (s : bool) : Z := if s then BINDER_TYPE_HANDLE else BINDER_TYPE_WEAK_HANDLE.

(** In process [p], the object is the node [a], strong or weak. *)
Definition denotes (st : binder) (p : Z) (fp : flat_binder_object) (a : Z) (s : bool) : Prop :=
  (fp_type fp = binder_type s /\ exists n, node_at st !! a = Some n /\ nid n = (Some p, fp_binder fp, fp_cookie fp)) \/
  (fp_type fp = handle_type s /\ exists r rf, ref_at st !! r = Some rf /\ rid rf = (p, a, fp_binder fp)).

Lemma denotes_grows st st' p fp a s : grows st st' -> denotes st p fp a s -> denotes st' p fp a s.
Proof using.
  clear. intros [_ Gn Gr] [(Ht & n & Hn & E)|(Ht & r & rf & Hr & E)].
  - left. split; [done|]. destruct (Gn a n Hn) as (n' & Hn' & E'). exists n'. split; [done|congruence].
  - right. split; [done|]. destruct (Gr r rf Hr) as (rf' & Hr' & E'). exists r, rf'. split; [done|congruence].
Qed.

(** The object of the receiver, with what it took. *)
Definition granted (st : binder) (fp : flat_binder_object) (g : grant) : Prop :=
  match g with
  | GRef r s => fp_type fp = handle_type s /\ exists rf a, ref_at st !! r = Some rf /\ rid rf = (target, a, fp_binder fp)
  | GNode a s => fp_type fp = binder_type s /\ exists n, node_at st !! a = Some n /\ nid n = (Some target, fp_binder fp, fp_cookie fp)
  | GFd fd _ => fp_type fp = BINDER_TYPE_FD /\ fp_binder fp = fd
  end.

Lemma granted_grows st st' fp g : grows st st' -> granted st fp g -> granted st' fp g.
Proof using.
  clear. intros [_ Gn Gr]. destruct g as [r s|a s|fd x]; simpl; [intros (Ht & rf & a & Hr & E)|intros (Ht & n & Hn & E)|done].
  - split; [done|]. destruct (Gr r rf Hr) as (rf' & Hr' & E'). exists rf', a. split; [done|congruence].
  - split; [done|]. destruct (Gn a n Hn) as (n' & Hn' & E'). exists n'. split; [done|congruence].
Qed.

(** The sender has no strong count for the handle it sends. *)
Definition unbacked (st : binder) (fp : flat_binder_object) : Prop :=
  fp_type fp = BINDER_TYPE_HANDLE /\
  forall r rf, ref_at st !! r = Some rf -> r_proc rf = proc -> desc rf = fp_binder fp -> rcount true st r = 0.

(** The object [fp'] is for the receiver what [fp] is for the sender; a strong
    handle is counted unless the sender had no strong count. *)
Definition carried (st st' : binder) (fp fp' : flat_binder_object) (g : grant) : Prop :=
  fp_flags fp' = fp_flags fp /\
  match g with
  | GFd _ file => fp_type fp = BINDER_TYPE_FD /\ fget sup (fp_binder fp) = Some file
  | _ => exists a s, denotes st' proc fp a s /\ denotes st' target fp' a s
  end /\
  forall r, g = GRef r true -> 0 < rcount true st' r \/ unbacked st fp.

(** Later in the translation. *)
Definition later (st st' : binder) : Prop := grows st st' /\ forall r s, rcount s st r <= rcount s st' r.

#[local] Instance later_preorder : PreOrder later.
Proof using.
  split; [by intros st; split|]. intros s1 s2 s3 [H1 H1'] [H2 H2']. split; [by etrans|]. intros r s.
  specialize (H1' r s). specialize (H2' r s). lia.
Qed.

Lemma extends_later st st' : extends st st' -> later st st'.
Proof using. clear. intros [H1 _ H3]. split; [done|]. intros r s. apply H3. Qed.

Lemma carried_later st1 st2 st2' fp fp' g : later st2 st2' -> carried st1 st2 fp fp' g -> carried st1 st2' fp fp' g.
Proof using.
  clear owner Hsup. intros [G Hc] (Hf & Hm & Hb). split; [done|]. split.
  - destruct g; try done; destruct Hm as (a' & s' & H1 & H2); exists a', s'; split; by eapply denotes_grows.
  - intros r E. destruct (Hb r E) as [|]; [left|by right]. specialize (Hc r true). lia.
Qed.

Lemma carried_before hs hw st1' st1 st2 fp fp' g : refs_inv owner hs hw st1' -> later st1' st1 ->
  carried st1 st2 fp fp' g -> carried st1' st2 fp fp' g.
Proof using.
  clear Hsup. intros Hi [[_ _ G] Hc] (Hf & Hm & Hb). split; [done|]. split; [done|]. intros r E.
  destruct (Hb r E) as [|[Ht Hu]]; [by left|right]. split; [done|]. intros x rf Hx Ep Ed.
  destruct (G x rf Hx) as (rf' & Hx' & E'). unfold rid in E'. injection E' as E1 E2 E3.
  assert (rcount true st1 x = 0) by (apply (Hu x rf'); [done|congruence|congruence]).
  pose proof (Hc x true). pose proof (rcount_nonneg _ _ _ st1' true x Hi). lia.
Qed.

(** ** Nodes and references in the data *)

Lemma sender_node_spec hs hw w fp : refs_inv owner hs hw (refs w) -> parties (refs w) ->
  exists w' x, sender_node sup w proc fp = Some (w', x) /\ refs_inv owner hs hw (refs w') /\ grows (refs w) (refs w') /\
    ref_at (refs w') = ref_at (refs w) /\ files_of w' = files_of w /\
    match x with
    | None => True
    | Some a => exists n, node_at (refs w') !! a = Some n /\ n_proc n = Some proc /\ n_ptr n = fp_binder fp
    end.
Proof using Hsup.
  intros Hi Hp. destruct (pa_proc _ Hp) as [pr Hpr]. unfold sender_node.
  destruct (get_node_spec owner hs hw (refs w) proc (fp_binder fp) pr Hi Hpr) as [(a & n & E & Hn & Ep & Eb)|[E Hno]];
    rewrite E; cbn [mbind option_bind].
  { eexists _, _. split_and!; try done. by exists n. }
  assert (Hkz : forall a, kz_node sup (refs w) = Some a -> node_at (refs w) !! a = None /\ a <> 0) by apply (so_node sup Hsup).
  destruct (new_node_spec owner hs hw (kz_node sup (refs w)) (refs w) proc (fp_binder fp) (fp_cookie fp) pr Hi Hpr Hkz)
    as [[En _]|(a & st' & Ek & En & Hi' & _ & Enode & Er & _)]; rewrite En; cbn [mbind option_bind].
  - eexists _, _. split; [done|]. by simpl.
  - eexists _, _. split; [done|]. split_and!; try done.
    + eapply new_node_grows; [exact En|]. intros b Hb. by apply Hkz.
    + eexists. cbn [refs]. rewrite Enode, lookup_insert_eq. split; [done|]. by simpl.
Qed.

Lemma owing_same hs hw st0 gs st st' : owing owner hs hw st0 gs st ->
  refs_inv owner (with_holds gs true hs) (with_holds gs false hw) st' -> ref_at st' = ref_at st -> owing owner hs hw st0 gs st'.
Proof using. clear. intros [_ H] Hi E. split; [done|]. intros r s. rewrite H. unfold rcount. by rewrite E. Qed.

Lemma extends_after st st1 st2 : grows st st1 -> ref_at st1 = ref_at st -> extends st1 st2 -> extends st st2.
Proof using.
  clear. intros G E [H1 H2 H3]. rewrite E in H2. split; [by etrans|done|]. intros r s. specialize (H3 r s).
  unfold rcount in *. by rewrite E in H3.
Qed.

Lemma room_same hs hw k st st' : grows st st' -> ref_at st' = ref_at st -> room hs hw k st -> room hs hw k st'.
Proof using.
  clear. intros G E [H1 H2 H3]. split; [by rewrite E| |].
  - intros r s. specialize (H2 r s). unfold rcount in *. by rewrite E.
  - intros a. rewrite (grows_ctx_hold _ _ _ G). apply H3.
Qed.

(** What an object does. *)
Definition step_ok (hs hw : Z -> Z) (st0 : binder) (gs : list grant) (w : world) (fp : flat_binder_object) (res : step_result) : Prop :=
  match res with
  | Err w' _ => owing owner hs hw st0 gs (refs w') /\ grows (refs w) (refs w') /\ ref_at (refs w') = ref_at (refs w) /\
      files_of w' = files_of w
  | Ok w' fp' => files_of w' = files_of w /\ exists g, (forall fd x, g <> GFd fd x) /\
      owing owner hs hw st0 (gs ++ [g]) (refs w') /\ extends (refs w) (refs w') /\
      granted (refs w') fp' g /\ carried (refs w) (refs w') fp fp' g
  end.

Lemma translate_binder_spec hs hw st0 gs w fp s :
  owing owner hs hw st0 gs (refs w) -> parties (refs w) ->
  room (with_holds gs true hs) (with_holds gs false hw) 1 (refs w) -> fp_type fp = binder_type s ->
  exists res, translate_binder sup w proc target todo fp = Some res /\ step_ok hs hw st0 gs w fp res.
Proof using Hsup.
  intros Ho Hp Hr Hty. destruct (sender_node_spec _ _ w fp (ow_inv _ _ _ _ _ _ Ho) Hp) as (w1 & x & E & Hi1 & G1 & Er1 & Ef1 & Hx).
  unfold translate_binder. rewrite E. cbn [mbind option_bind].
  pose proof (owing_same _ _ _ _ _ _ Ho Hi1 Er1) as Ho1. pose proof (parties_around _ _ (gr_around _ _ G1) Hp) as Hp1.
  destruct x as [a|]; [|by eexists]. destruct Hx as (n & Hn & Enp & Enptr). rewrite Hn. cbn [mbind option_bind].
  destruct (Z.eqb_spec (fp_cookie fp) (n_cookie n)) as [Ec|_]; cbn [negb]; [|by eexists].
  assert (Es : (fp_type fp =? BINDER_TYPE_BINDER) = s) by (rewrite Hty; by destruct s). rewrite Es.
  destruct (grant_ref hs hw st0 gs (refs w1) a n s (Some todo) Ho1 Hp1 (room_same _ _ _ _ _ G1 Er1 Hr) Hn) as (st1 & x & Eg & Hx).
  { intros h [= <-]. destruct (pa_todo _ Hp1) as (? & E' & ?). split_and!; [done|congruence|done]. }
  rewrite Eg. cbn [mbind option_bind]. destruct x as [r|]; [|subst st1; by eexists].
  destruct Hx as (rf & st2 & ret & rf2 & Hrf & Einc & Ho2 & Hext & Hrf2 & Erid & Hpos). rewrite Hrf. cbn [mbind option_bind].
  rewrite Einc. cbn [mbind option_bind]. eexists. split; [done|]. simpl. split; [done|]. exists (GRef r s).
  split; [done|]. split; [done|]. split; [by eapply extends_after|]. split.
  { split; [done|]. by exists rf2, a. }
  split_and!; [done| |].
  - exists a, s. split.
    + left. split; [done|]. destruct (gr_nodes _ _ (ex_grows _ _ Hext) a n Hn) as (n' & Hn' & E'). exists n'. split; [done|].
      rewrite E'. unfold nid. congruence.
    + right. split; [done|]. by exists r, rf2.
  - intros r' [= <- ->]. destruct Hpos as [|[? _]]; [by left|done].
Qed.

Lemma strong_count_zero (m : gmap Z binder_ref) (l : list Z) r : strong_count m l = 0 -> r ∈ l -> is_strong m r = 0.
Proof using.
  clear. induction l as [|x l IH]; simpl; [by intros _ ?%not_elem_of_nil|].
  pose proof (strong_count_bounds m l). assert (0 <= is_strong m x) by (unfold is_strong; repeat case_match; lia).
  intros Hz [->|Hr]%elem_of_cons; [lia|apply IH; [lia|done]].
Qed.

(** A node no reference counts strongly. *)
Lemma no_strong_ref hs hw st r rf n : refs_inv owner hs hw st -> ref_at st !! r = Some rf -> node_at st !! r_node rf = Some n ->
  internal_strong_refs n = 0 -> strong rf = 0.
Proof using.
  clear. intros Hi Hr Hn Hz. pose proof (iv_nodes _ _ _ _ Hi _ n Hn) as [_ _ _ Hrefs Hs _]. rewrite Hs in Hz.
  apply (strong_count_zero _ _ r) in Hz; [|apply Hrefs; unfold target_of; by rewrite Hr].
  unfold is_strong in Hz. rewrite Hr in Hz. by destruct (Z.eqb_spec (strong rf) 0).
Qed.

(** The receiver's node is held. *)
Lemma grant_node hs hw st0 gs st a n s :
  owing owner hs hw st0 gs st -> room (with_holds gs true hs) (with_holds gs false hw) 1 st ->
  node_at st !! a = Some n -> n_proc n = Some target ->
  exists st' ret, binder_inc_node st a s false None = Some (st', ret) /\ owing owner hs hw st0 (gs ++ [GNode a s]) st' /\ extends st st'.
Proof using.
  clear Hsup sup. intros Ho [_ _ Hmax] Hn Hnp. specialize (Hmax a).
  destruct (hold_node_inv owner _ _ st a target n s None (ow_inv _ _ _ _ _ _ Ho) Hn Hnp (target_none owner st n)) as (st' & ret & E & Hi').
  { destruct s; lia. }
  destruct (inc_node_quiet _ _ _ _ _ _ _ E) as [[G _] Er].
  assert (Hc : forall b x, rcount b st' x = rcount b st x) by (intros b x; unfold rcount; by rewrite Er).
  exists st', ret. split; [done|]. split; [split|split].
  - eapply refs_inv_ext; [exact Hi'|]. intros b. unfold with_holds. rewrite !owed_snoc. unfold hold, with_holds.
    destruct s; repeat destruct (decide _); simplify_eq; lia.
  - intros r b. rewrite Hc, owed_snoc, decide_False by done. rewrite Z.add_0_r. apply Ho.
  - done.
  - rewrite Er. lia.
  - intros r b. rewrite Hc. lia.
Qed.

Lemma translate_handle_spec hs hw st0 gs w fp s :
  owing owner hs hw st0 gs (refs w) -> parties (refs w) ->
  room (with_holds gs true hs) (with_holds gs false hw) 1 (refs w) -> fp_type fp = handle_type s ->
  exists res, translate_handle sup w proc target fp = Some res /\ step_ok hs hw st0 gs w fp res.
Proof using Hsup.
  intros Ho Hp Hroom Hty. destruct (pa_proc _ Hp) as [pr Hpr]. pose proof (ow_inv _ _ _ _ _ _ Ho) as Hi. unfold translate_handle.
  destruct (get_ref_spec owner _ _ (refs w) proc (fp_binder fp) pr Hi Hpr) as [(r & rf & E & Hr & Erp & Erd)|[E _]];
    rewrite E; cbn [mbind option_bind]; [|by eexists].
  rewrite Hr. cbn [mbind option_bind]. destruct (ref_node _ _ _ _ _ _ Hi Hr) as [n Hn]. rewrite Hn. cbn [mbind option_bind].
  assert (Es : (fp_type fp =? BINDER_TYPE_HANDLE) = s) by (rewrite Hty; by destruct s). rewrite Es.
  assert (Hden : forall st', extends (refs w) st' -> denotes st' proc fp (r_node rf) s).
  { intros st' [[_ _ G] _ _]. right. split; [done|]. destruct (G r rf Hr) as (rf' & Hr' & E'). exists r, rf'. split; [done|].
    rewrite E'. unfold rid. congruence. }
  case_bool_decide as Hnp.
  - destruct (grant_node hs hw st0 gs (refs w) (r_node rf) n s Ho Hroom Hn Hnp) as (st' & ret & -> & Ho' & Hext).
    cbn [mbind option_bind]. eexists. split; [done|]. simpl. split; [done|]. exists (GNode (r_node rf) s).
    destruct (gr_nodes _ _ (ex_grows _ _ Hext) _ n Hn) as (n' & Hn' & E').
    assert (Enid : nid n' = (Some target, n_ptr n, n_cookie n)) by (rewrite E'; unfold nid; congruence).
    split_and!; [done|done|done|by split; [destruct s|exists n']|]. split_and!; [done| |done].
    exists (r_node rf), s. split; [by apply Hden|]. left. split; [by destruct s|by exists n'].
  - destruct (grant_ref hs hw st0 gs (refs w) (r_node rf) n s None Ho Hp Hroom Hn (target_none owner _ n)) as (st1 & x & Eg & Hx).
    rewrite Eg. cbn [mbind option_bind]. destruct x as [r'|]; [|subst st1; by eexists].
    destruct Hx as (rf' & st2 & ret & rf2 & Hrf & Einc & Ho2 & Hext & Hrf2 & Erid & Hpos). rewrite Hrf. cbn [mbind option_bind].
    rewrite Einc. cbn [mbind option_bind]. eexists. split; [done|]. simpl. split; [done|]. exists (GRef r' s).
    split_and!; [done|done|done|by split; [|exists rf2, (r_node rf)]|]. split_and!; [done| |].
    + exists (r_node rf), s. split; [by apply Hden|]. right. split; [done|]. by exists r', rf2.
    + intros r0 [= <- ->]. destruct Hpos as [|[_ Hz]]; [by left|right]. split; [done|]. intros r1 rf1 Hr1 Ep1 Ed1.
      assert (r1 = r) as -> by (apply (BinderWorld.desc_unique owner _ _ (refs w) r1 r rf1 rf Hi Hr1 Hr); [congruence|left; congruence]).
      unfold rcount. rewrite Hr. eapply (no_strong_ref _ _ (refs w)); eauto.
Qed.

(** ** File descriptors in the data *)

Definition fds (gs : list grant) : list (Z * Z) :=
  omap (fun g => match g with GFd fd x => Some (fd, x) | _ => None end) gs.

(** [f] is [f0] with the descriptors the objects opened. *)
Record files_owing (f0 : files_struct) (gs : list grant) (f : files_struct) : Prop := {
  fw_base : files_ok f0;
  fw_ok : files_ok f;
  fw_nodup : NoDup (fds gs).*1;
  fw_new fd : fd ∈ (fds gs).*1 -> fd ∉ open_fds f0;
  fw_open : open_fds f = list_to_set (fds gs).*1 ∪ open_fds f0;
  fw_exec : close_on_exec f = list_to_set (fds gs).*1 ∪ close_on_exec f0;
  fw_at : fd_at f = list_to_map (fds gs) ∪ fd_at f0
}.

Definition files_rel (m0 : gmap Z files_struct) (gs : list grant) (m : gmap Z files_struct) : Prop :=
  (forall p, p <> target -> m !! p = m0 !! p) /\
  match m0 !! target, m !! target with
  | Some f0, Some f => files_owing f0 gs f
  | None, None => fds gs = []
  | _, _ => False
  end.

Lemma files_rel_put m0 gs gs' m f' :
  files_rel m0 gs m -> match m0 !! target, f' with Some f0, Some f => files_owing f0 gs' f | None, None => fds gs' = [] | _, _ => False end ->
  files_rel m0 gs' (partial_alter (fun _ => f') target m).
Proof using.
  clear. intros [H1 _] H. split; [|by rewrite lookup_partial_alter_eq]. intros p Hp. rewrite lookup_partial_alter_ne by done. by apply H1.
Qed.

Lemma files_rel_fds m0 gs gs' m : fds gs' = fds gs -> files_rel m0 gs m -> files_rel m0 gs' m.
Proof using.
  clear. intros E [H1 H2]. split; [done|]. destruct (m0 !! target), (m !! target); try done; [|congruence].
  destruct H2. split; rewrite ?E; try done.
Qed.

Lemma grown_owing f0 gs f f' : files_owing f0 gs f -> grown f f' -> files_owing f0 gs f'.
Proof using.
  clear. intros [] Hg. pose proof (grown_ok f f' fw_ok0 Hg). destruct Hg as (E1 & E2 & E3 & _). split; try done; congruence.
Qed.

Lemma opened_owing f0 gs f fd file : files_owing f0 gs f -> lowest_fd f fd -> fd < max_fds f ->
  files_owing f0 (gs ++ [GFd fd file]) (installed (opened f fd true) fd file).
Proof using.
  clear. intros [H0 Hf Hnd Hnew Ho He Ha] Hl Hm. destruct (installed_ok f fd file true Hf Hl Hm) as [_ Hok].
  destruct Hl as (_ & Hl & _). rewrite Ho in Hl. apply not_elem_of_union in Hl as [Hl1 Hl2]. rewrite not_elem_of_list_to_set in Hl1.
  assert (E : fds (gs ++ [GFd fd file]) = fds gs ++ [(fd, file)]) by (unfold fds; by rewrite omap_app).
  split; try done; rewrite ?E, ?fmap_app.
  - apply NoDup_app. split; [done|]. split; [|apply NoDup_singleton]. intros x Hx ->%list_elem_of_singleton. done.
  - intros x [Hx|Hx]%elem_of_app; [by apply Hnew|]. apply list_elem_of_singleton in Hx as ->. done.
  - simpl. rewrite Ho, list_to_set_app_L. simpl. set_solver.
  - simpl. rewrite He, list_to_set_app_L. simpl. set_solver.
  - simpl. rewrite list_to_map_snoc by done. rewrite insert_delete_eq, Ha. by rewrite insert_union_l.
Qed.

Lemma translate_fd_spec m0 gs w allowed fp : files_rel m0 gs (files_of w) -> fp_type fp = BINDER_TYPE_FD ->
  exists res, translate_fd sup w target allowed fp = Some res /\
    match res with
    | Err w' _ => refs w' = refs w /\ files_rel m0 gs (files_of w')
    | Ok w' fp' => refs w' = refs w /\ exists fd file, files_rel m0 (gs ++ [GFd fd file]) (files_of w') /\
        granted (refs w') fp' (GFd fd file) /\ carried (refs w) (refs w') fp fp' (GFd fd file)
    end.
Proof using Hsup.
  intros Hf Hty. unfold translate_fd. destruct allowed; cbn [negb]; [|by eexists].
  destruct (fget sup (fp_binder fp)) as [file|] eqn:Eg; [|by eexists].
  pose proof Hf as [_ Ht]. destruct (files_of w !! target) as [f|] eqn:Ef.
  - destruct (m0 !! target) as [f0|] eqn:E0; [|done].
    destruct (get_unused_fd_spec (fd_limits sup) (fd_rlim sup) true f (fw_ok _ _ _ Ht) (so_limit _ Hsup))
      as (f1 & Hg & [(e & He & ->)|(fd & Hl & Hm & ->)]); cbn [mbind option_bind].
    + rewrite (proj2 (Z.ltb_lt e 0)) by done. eexists. split; [done|]. split; [done|]. simpl.
      apply (files_rel_put m0 gs gs _ _ Hf). rewrite E0. by eapply grown_owing.
    + destruct Hl as (Hl0 & Hl1). rewrite (proj2 (Z.ltb_ge fd 0)) by lia.
      pose proof (grown_owing _ _ _ _ Ht Hg) as Ht1.
      assert (Hl : lowest_fd f1 fd) by (destruct Hg as (Eo & _); unfold lowest_fd; rewrite Eo; done).
      destruct (installed_ok f1 fd file true (fw_ok _ _ _ Ht1) Hl Hm) as [-> _]. cbn [mbind option_bind].
      eexists. split; [done|]. split; [done|]. exists fd, file. split; [|by split].
      simpl. apply (files_rel_put m0 gs _ _ _ Hf). rewrite E0. by apply opened_owing.
  - cbn. eexists. split; [done|]. split; [done|]. simpl. apply (files_rel_put m0 gs gs _ _ Hf). by destruct (m0 !! target).
Qed.

(** ** The data *)

Definition in_data (data : list Z) (off : Z) : Prop := 0 <= off /\ off mod 4 = 0 /\ off + 16 <= 4 * Z.of_nat (length data).
Definition apart (off off' : Z) : Prop := off + 16 <= off' \/ off' + 16 <= off.

Lemma good_offset data size off : 0 <= off < 4294967296 -> 0 <= size < 4294967296 -> size <= 4 * Z.of_nat (length data) ->
  bad_offset size off = false -> in_data data off.
Proof using.
  clear. intros Ho Hs Hl H. unfold bad_offset in H. apply orb_false_iff in H as [H H3]. apply orb_false_iff in H as [H1 H2].
  apply Z.ltb_ge in H1, H2. rewrite u32_small in H1 by lia. apply negb_false_iff, Z.eqb_eq in H3.
  change 3 with (2 ^ 2 - 1) in H3. rewrite land_mask in H3 by lia. change (2 ^ 2) with 4 in H3. split_and!; lia.
Qed.

Lemma offset_index off : 0 <= off -> off mod 4 = 0 -> exists k, off = 4 * Z.of_nat k /\ Z.to_nat (off / 4) = k.
Proof using. clear. intros H1 H2. exists (Z.to_nat (off / 4)). pose proof (Z.div_mod off 4). split; [|done]. lia. Qed.

Lemma write_length data off fp : length (write_object data off fp) = length data.
Proof using. clear. unfold write_object. by rewrite !length_insert. Qed.

Lemma read_in_data data off : in_data data off -> exists fp, read_object data off = Some fp.
Proof using.
  clear. intros (H0 & Ha & Hl). destruct (offset_index off H0 Ha) as (k & -> & Ek). unfold read_object. rewrite Ek.
  destruct (lookup_lt_is_Some_2 data k) as [x0 ->]; [lia|]. destruct (lookup_lt_is_Some_2 data (k + 1)) as [x1 ->]; [lia|].
  destruct (lookup_lt_is_Some_2 data (k + 2)) as [x2 ->]; [lia|]. destruct (lookup_lt_is_Some_2 data (k + 3)) as [x3 ->]; [lia|].
  by eexists.
Qed.

Lemma read_write data off fp : in_data data off -> read_object (write_object data off fp) off = Some fp.
Proof using.
  clear. intros (H0 & Ha & Hl). destruct (offset_index off H0 Ha) as (k & -> & Ek). unfold read_object, write_object. rewrite Ek.
  repeat first [rewrite list_lookup_insert_ne by lia|rewrite list_lookup_insert_eq by (rewrite ?length_insert; lia)].
  by destruct fp.
Qed.

(** A word outside the object. *)
Lemma write_other data off fp (k : nat) : 0 <= off -> off mod 4 = 0 -> 4 * Z.of_nat k < off \/ off + 16 <= 4 * Z.of_nat k ->
  write_object data off fp !! k = data !! k.
Proof using.
  clear. intros H0 Ha Hk. destruct (offset_index off H0 Ha) as (j & -> & Ej). unfold write_object. rewrite Ej.
  by do 4 rewrite list_lookup_insert_ne by lia.
Qed.

Lemma read_ext data data' off : (forall k, off <= 4 * Z.of_nat k < off + 16 -> data' !! k = data !! k) -> 0 <= off -> off mod 4 = 0 ->
  read_object data' off = read_object data off.
Proof using.
  clear. intros H H0 Ha. destruct (offset_index off H0 Ha) as (j & -> & Ej). unfold read_object. rewrite Ej.
  by rewrite !H by lia.
Qed.

(** ** Releasing a descriptor *)

Lemma close_owing m0 gs m fd file : files_rel m0 (GFd fd file :: gs) m ->
  files_rel m0 gs (partial_alter (fun _ => fst (task_close_fd (m !! target) fd)) target m).
Proof using.
  clear. intros Hf. pose proof Hf as [_ Ht]. destruct (m0 !! target) as [f0|] eqn:E0, (m !! target) as [f|] eqn:Ef; try done.
  apply (files_rel_put m0 _ gs _ _ Hf). rewrite E0. destruct Ht as [H0 Hok Hnd Hnew Ho He Ha].
  change (fds (GFd fd file :: gs)) with ((fd, file) :: fds gs) in *. simpl in Hnd, Hnew, Ho, He, Ha. apply NoDup_cons in Hnd as [Hn Hnd].
  assert (Hx : fd_at f !! fd = Some file) by (rewrite Ha; apply lookup_union_Some_l; by rewrite lookup_insert_eq).
  assert (Hfd : fd ∉ open_fds f0) by (apply Hnew; set_solver).
  destruct (close_fd_spec f fd file Hok Hx) as (f' & -> & Hok' & E1 & E2 & E3). simpl.
  assert (Hn' : fd ∉ (list_to_set (fds gs).*1 : gset Z)) by (by rewrite not_elem_of_list_to_set).
  split; try done.
  - intros x Hin. apply Hnew. by right.
  - rewrite E1, Ho. apply set_eq. intros x. set_solver.
  - pose proof (fo_exec _ H0). rewrite E2, He. apply set_eq. intros x. set_solver.
  - rewrite E3, Ha. rewrite <- insert_union_l, delete_insert_id; [done|]. apply lookup_union_None. split.
    + by apply not_elem_of_list_to_map.
    + apply eq_None_not_Some. intros [y Hy]. apply Hfd. by apply (fo_slot _ H0 fd y).
Qed.

(** ** The loop *)

Record holding (hs hw : Z -> Z) (w0 : world) (gs : list grant) (w : world) : Prop := {
  hd_owing : owing owner hs hw (refs w0) gs (refs w);
  hd_parties : parties (refs w);
  hd_files : files_rel (files_of w0) gs (files_of w)
}.

Lemma fds_snoc gs g : (forall fd x, g <> GFd fd x) -> fds (gs ++ [g]) = fds gs.
Proof using. clear. intros Hg. unfold fds. rewrite omap_app. destruct g; simpl; rewrite ?app_nil_r; [done..|]. by destruct (Hg fd file). Qed.

Lemma owing_fd hs hw st0 gs st fd x : owing owner hs hw st0 gs st -> owing owner hs hw st0 (gs ++ [GFd fd x]) st.
Proof using.
  clear. intros [H1 H2]. split.
  - eapply refs_inv_ext; [exact H1|]. intros b. unfold with_holds. rewrite !owed_snoc, !decide_False by done. lia.
  - intros r s. rewrite owed_snoc, decide_False, Z.add_0_r by done. apply H2.
Qed.

Lemma extends_same st : extends st st.
Proof using. clear. split; [done|lia|intros; lia]. Qed.

Lemma translate_object_spec hs hw w0 gs w allowed fp :
  holding hs hw w0 gs w -> room (with_holds gs true hs) (with_holds gs false hw) 1 (refs w) ->
  exists res, translate_object sup w proc target todo allowed fp = Some res /\
    match res with
    | Err w' _ => holding hs hw w0 gs w' /\ later (refs w) (refs w')
    | Ok w' fp' => exists g, holding hs hw w0 (gs ++ [g]) w' /\ extends (refs w) (refs w') /\
        granted (refs w') fp' g /\ carried (refs w) (refs w') fp fp' g
    end.
Proof using Hsup.
  intros [Ho Hp Hf] Hroom. unfold translate_object.
  assert (Hfin : forall r, (exists res, r = Some res /\ step_ok hs hw (refs w0) gs w fp res) -> exists res, r = Some res /\
    match res with
    | Err w' _ => holding hs hw w0 gs w' /\ later (refs w) (refs w')
    | Ok w' fp' => exists g, holding hs hw w0 (gs ++ [g]) w' /\ extends (refs w) (refs w') /\
        granted (refs w') fp' g /\ carried (refs w) (refs w') fp fp' g
    end).
  { intros r (res & E & Hs). exists res. split; [done|]. destruct res as [w' fp'|w' e].
    - destruct Hs as (Ef & g & Hg & Ho' & Hext & Hgr & Hc). exists g. split_and!; try done. split; [done| |].
      + by apply (parties_around (refs w)); [apply Hext|].
      + rewrite Ef. apply (files_rel_fds _ gs); [by apply fds_snoc|done].
    - destruct Hs as (Ho' & Hg & Er & Ef). split; [split; [done| |by rewrite Ef]|].
      + by apply (parties_around (refs w)); [apply Hg|].
      + split; [done|]. intros r' s. unfold rcount. rewrite Er. lia. }
  destruct (Z.eqb_spec (fp_type fp) BINDER_TYPE_BINDER) as [E1|N1]; [by apply Hfin, (translate_binder_spec _ _ _ _ _ _ true)|].
  destruct (Z.eqb_spec (fp_type fp) BINDER_TYPE_WEAK_BINDER) as [E2|N2]; [by apply Hfin, (translate_binder_spec _ _ _ _ _ _ false)|].
  destruct (Z.eqb_spec (fp_type fp) BINDER_TYPE_HANDLE) as [E3|N3]; [by apply Hfin, (translate_handle_spec _ _ _ _ _ _ true)|].
  destruct (Z.eqb_spec (fp_type fp) BINDER_TYPE_WEAK_HANDLE) as [E4|N4]; [by apply Hfin, (translate_handle_spec _ _ _ _ _ _ false)|].
  cbn [orb]. destruct (Z.eqb_spec (fp_type fp) BINDER_TYPE_FD) as [E5|N5]; [|by eexists].
  destruct (translate_fd_spec (files_of w0) gs w allowed fp Hf E5) as (res & -> & Hres). exists res. split; [done|].
  destruct res as [w' fp'|w' e]; destruct Hres as [Er Hres].
  - destruct Hres as (fd & file & Hf' & Hg & Hc). exists (GFd fd file). rewrite Er in *.
    split_and!; [split; rewrite ?Er; try done; by apply owing_fd|apply extends_same|done|done].
  - split; [by split; rewrite ?Er|by rewrite Er].
Qed.

(** An object, as it was sent and as it is in the receiver's buffer. *)
Definition moved (st st' : binder) (data data' : list Z) (off : Z) (g : grant) : Prop :=
  exists fp fp', read_object data off = Some fp /\ read_object data' off = Some fp' /\ granted st' fp' g /\ carried st st' fp fp' g.

(** The words of the data that belong to no object. *)
Definition outside (offs : list Z) (k : nat) : Prop := forall o, o ∈ offs -> 4 * Z.of_nat k < o \/ o + 16 <= 4 * Z.of_nat k.

Lemma room_mono hs hw k k' st : room hs hw k st -> k' <= k -> room hs hw k' st.
Proof using. clear. intros [H1 H2 H3] Hk. split; [lia|intros r s; specialize (H2 r s); lia|intros a; specialize (H3 a); lia]. Qed.

Lemma with_holds_snoc gs g s h a : with_holds (gs ++ [g]) s h a <= with_holds gs s h a + 1.
Proof using. clear. unfold with_holds. rewrite owed_snoc. destruct (decide _); lia. Qed.

Lemma moved_cons hs hw st st1 st' data data' off offs n g gs' fp fp1 size :
  refs_inv owner hs hw st -> extends st st1 -> later st1 st' -> in_data data off -> 0 <= size < 4294967296 ->
  size <= 4 * Z.of_nat (length data) -> Forall (fun o => 0 <= o < 4294967296) offs -> Forall (apart off) offs ->
  Forall (fun o => bad_offset size o = false) (take n offs) ->
  read_object data off = Some fp -> granted st1 fp1 g -> carried st st1 fp fp1 g ->
  (forall k, outside (take n offs) k -> data' !! k = write_object data off fp1 !! k) ->
  Forall2 (moved st1 st' (write_object data off fp1) data') (take n offs) gs' ->
  Forall2 (moved st st' data data') (take (S n) (off :: offs)) (g :: gs').
Proof using.
  clear Hsup todo. intros Hi Hext Hlat Hin Hsize Hlen Hrange Hap Hgood Hfp Hgr Hcar Hout Hmv. simpl. constructor.
  - exists fp, fp1. split_and!; [done| |by eapply granted_grows; [apply Hlat|]|by eapply carried_later].
    rewrite (read_ext (write_object data off fp1)); [by apply read_write| |apply Hin..].
    intros k Hk. apply Hout. intros o Ho. apply list_elem_of_lookup in Ho as [j [Ho _]%lookup_take_Some].
    destruct (proj1 (Forall_lookup _ _) Hap j o Ho); lia.
  - rewrite Forall2_lookup in Hmv |- *. intros j. specialize (Hmv j). destruct (take n offs !! j) as [o|] eqn:Ej, (gs' !! j) as [g'|]; inversion Hmv as [? ? Hm|]; subst; constructor.
    destruct Hm as (fo & fo' & H1 & H2 & H3 & H4). exists fo, fo'. split_and!; [|done|done|].
    + rewrite <- H1. symmetry. pose proof (proj1 (Forall_lookup _ _) Hgood j o Ej) as Hbo.
      apply lookup_take_Some in Ej as [Ej _]. pose proof (proj1 (Forall_lookup _ _) Hap j o Ej) as Hapo.
      destruct (good_offset data size o (proj1 (Forall_lookup _ _) Hrange j o Ej) Hsize Hlen Hbo) as (Ho0 & Ho1 & _).
      apply read_ext; [|done|done]. intros k Hk. apply write_other; [apply Hin..|]. destruct Hapo; lia.
    + eapply carried_before; [exact Hi|by apply extends_later|done].
Qed.

Lemma translate_spec hs hw w0 allowed size offs : 0 <= size < 4294967296 ->
  forall gs w data i, size <= 4 * Z.of_nat (length data) -> Forall (fun o => 0 <= o < 4294967296) offs -> ForallOrdPairs apart offs ->
  holding hs hw w0 gs w -> room (with_holds gs true hs) (with_holds gs false hw) (Z.of_nat (length offs)) (refs w) ->
  exists w' data' err n gs', translate sup w proc target todo allowed size data i offs = Some (w', data', err) /\
    match err with None => n = length offs | Some (j, _) => j = (i + n)%nat end /\
    holding hs hw w0 (gs ++ gs') w' /\ later (refs w) (refs w') /\ length data' = length data /\
    Forall2 (moved (refs w) (refs w') data data') (take n offs) gs' /\
    Forall (fun o => bad_offset size o = false) (take n offs) /\
    forall k, outside (take n offs) k -> data' !! k = data !! k.
Proof using Hsup.
  intros Hsize. induction offs as [|off offs IH]; intros gs w data i Hlen Hrange Hap Hh Hroom; cbn [translate].
  { exists w, data, None, O, []. rewrite app_nil_r. split_and!; try done; constructor. }
  destruct (bad_offset size off) eqn:Hbad.
  { exists w, data, (Some (i, failed)), O, []. rewrite app_nil_r. split_and!; done || lia. }
  apply Forall_cons in Hrange as [Hoff Hrange]. pose proof (good_offset data size off Hoff Hsize Hlen Hbad) as Hin.
  inversion Hap as [|? ? Hap1 Hap']; subst. destruct (read_in_data data off Hin) as [fp Hfp]. rewrite Hfp. cbn [mbind option_bind].
  destruct (translate_object_spec hs hw w0 gs w allowed fp Hh) as (res & -> & Hres); [apply (room_mono _ _ _ _ _ Hroom); simpl; lia|].
  cbn [mbind option_bind]. destruct res as [w1 fp1|w1 e].
  2: { destruct Hres. exists w1, data, (Some (i, e)), O, []. rewrite app_nil_r. split_and!; done || lia. }
  destruct Hres as (g & Hh1 & Hext & Hgr & Hcar).
  destruct (IH (gs ++ [g]) w1 (write_object data off fp1) (S i)) as (w' & data' & err & n & gs' & E & Herr & Hh' & Hlat & Hlen' & Hmv & Hgood & Hout);
    [by rewrite write_length|done|done|done| |].
  { eapply (room_step _ _ _ _ _ (refs w)); [|done|intros a; split; apply with_holds_snoc]. apply (room_mono _ _ _ _ _ Hroom). simpl. lia. }
  exists w', data', err, (S n), (g :: gs'). rewrite E. rewrite <- app_assoc in Hh'. rewrite write_length in Hlen'.
  split_and!; try done.
  - destruct err as [[j ?]|]; [lia|by simpl; f_equal].
  - etrans; [by apply extends_later|done].
  - apply (moved_cons (with_holds gs true hs) (with_holds gs false hw) (refs w) (refs w1) _ data data' off offs n g gs' fp fp1 size); try done. apply Hh.
  - simpl. by constructor.
  - intros k Hk. simpl in Hk. rewrite Hout by (intros o Ho; apply Hk; by right). apply write_other; [apply Hin..|]. apply Hk. by left.
Qed.

(** ** Giving back *)

(** What the object says leads to what it took, as long as that exists. *)
Definition pending (st : binder) (fp : flat_binder_object) (g : grant) : Prop :=
  match g with
  | GRef r s => fp_type fp = handle_type s /\
      (forall x rf, ref_at st !! x = Some rf -> r_proc rf = target -> desc rf = fp_binder fp -> x = r) /\
      (forall rf, ref_at st !! r = Some rf -> r_proc rf = target /\ desc rf = fp_binder fp)
  | GNode a s => fp_type fp = binder_type s /\
      forall n, node_at st !! a = Some n -> n_proc n = Some target /\ n_ptr n = fp_binder fp
  | GFd fd _ => fp_type fp = BINDER_TYPE_FD /\ fp_binder fp = fd
  end.

Lemma granted_pending hs hw st fp g : refs_inv owner hs hw st -> granted st fp g -> pending st fp g.
Proof using.
  clear Hsup. intros Hi. destruct g as [r s|a s|fd x]; simpl; [intros (Ht & rf & a & Hr & E)|intros (Ht & n & Hn & E)|done].
  - injection E as E1 E2 E3. split_and!; [done| |].
    + intros x rf' Hx Ep Ed. apply (BinderWorld.desc_unique owner hs hw st x r rf' rf Hi Hx Hr); [congruence|left; congruence].
    + intros rf' Hr'. assert (rf' = rf) as -> by congruence. done.
  - injection E as E1 E2 E3. split; [done|]. intros n' Hn'. assert (n' = n) as -> by congruence. done.
Qed.

Lemma pending_shrinks st st' fp g : shrinks st st' -> pending st fp g -> pending st' fp g.
Proof using.
  clear. intros [_ Sn Sr]. destruct g as [r s|a s|fd x]; simpl; [intros (Ht & H1 & H2)|intros (Ht & H1)|done].
  - split_and!; [done| |].
    + intros x rf' Hx Ep Ed. destruct (Sr x rf' Hx) as (rf & Hx' & E). injection E as E1 E2 E3. apply (H1 x rf Hx'); congruence.
    + intros rf' Hr'. destruct (Sr r rf' Hr') as (rf & Hr & E). injection E as E1 E2 E3. destruct (H2 rf Hr). split; congruence.
  - split; [done|]. intros n' Hn'. destruct (Sn a n' Hn') as (n & Hn & E). injection E as E1 E2 E3. destruct (H1 n Hn). split; congruence.
Qed.

Lemma owing_count hs hw st0 gs st st' r s : owing owner hs hw st0 (GRef r s :: gs) st ->
  refs_inv owner (with_holds (GRef r s :: gs) true hs) (with_holds (GRef r s :: gs) false hw) st' ->
  (forall x b, rcount b st' x = if decide (x = r /\ b = s) then Z.max 0 (rcount b st x - 1) else rcount b st x) ->
  owing owner hs hw st0 gs st'.
Proof using.
  clear. intros [_ H2] Hi Hc. split.
  - eapply refs_inv_ext; [exact Hi|]. intros b. unfold with_holds. rewrite !owed_cons, !decide_False by done. lia.
  - intros x b. rewrite H2, Hc, owed_cons. pose proof (owed_nonneg (GRef x b) gs).
    destruct (decide (x = r /\ b = s)) as [[-> ->]|Hne]; [rewrite decide_True by done; lia|]. rewrite decide_False by naive_solver. lia.
Qed.

Lemma release_ref hs hw st0 gs st fp r s : owing owner hs hw st0 (GRef r s :: gs) st -> parties st -> pending st fp (GRef r s) ->
  exists x, binder_get_ref st target (fp_binder fp) = Some x /\
    match x with
    | None => owing owner hs hw st0 gs st
    | Some r' => exists st' ret, binder_dec_ref st r' s = Some (st', ret) /\ owing owner hs hw st0 gs st' /\ shrinks st st'
    end.
Proof using.
  clear Hsup. intros Ho Hp (Hty & Huniq & Hme). pose proof (ow_inv _ _ _ _ _ _ Ho) as Hi. destruct (pa_target _ Hp) as [pr Hpr].
  assert (Hz : rcount s st r = 0 -> owing owner hs hw st0 gs st).
  { intros E. apply (owing_count _ _ _ _ st st r s Ho Hi). intros x b. destruct (decide _) as [[-> ->]|]; lia. }
  destruct (get_ref_spec owner _ _ st target (fp_binder fp) pr Hi Hpr) as [(r' & rf & E & Hr & Erp & Erd)|[E Hno]]; rewrite E; eexists; (split; [done|]).
  - assert (r' = r) as -> by (by apply (Huniq r' rf)). destruct (ref_node _ _ _ _ _ _ Hi Hr) as [n Hn].
    pose proof (dec_ref_inv owner _ _ st r rf n s Hi Hr Hn) as Hd. cbv zeta in Hd.
    destruct (Z.eqb_spec (if s then strong rf else weak rf) 0) as [E0|E0].
    + eexists _, _. split; [exact Hd|]. split; [|done]. apply Hz. unfold rcount. by rewrite Hr.
    + destruct Hd as (st' & Ed & Hi' & Er & _). eexists _, _. split; [exact Ed|]. split; [|by eapply dec_ref_shrinks].
      apply (owing_count _ _ _ _ st st' r s Ho Hi'). intros x b. destruct (ro_counts _ _ _ (iv_refs _ _ _ _ Hi r rf Hr)) as [Hs Hw].
      unfold rcount. rewrite Er. destruct (decide (x = r)) as [->|Hne].
      * rewrite Hr. set (gone := (_ =? 0) && _). assert (Hg : gone = true -> (if s then strong rf = 1 /\ weak rf = 0 else strong rf = 0 /\ weak rf = 1)).
        { unfold gone. intros [H1%Z.eqb_eq H2%Z.eqb_eq]%andb_true_iff. destruct s; simpl in *; lia. }
        destruct gone.
        -- rewrite lookup_delete_eq. specialize (Hg eq_refl). destruct s, b; first [rewrite decide_True by done|rewrite decide_False by naive_solver]; simpl; lia.
        -- rewrite lookup_insert_eq. destruct s, b; first [rewrite decide_True by done|rewrite decide_False by naive_solver]; simpl; lia.
      * rewrite decide_False by naive_solver. destruct (_ && _); [by rewrite lookup_delete_ne|by rewrite lookup_insert_ne].
  - apply Hz. unfold rcount. destruct (ref_at st !! r) as [rf|] eqn:Hr; [|done]. destruct (Hme rf eq_refl) as [E1 E2]. by destruct (Hno r rf Hr E1).
Qed.

(** A hold on a node of the receiver is given back. *)
Lemma release_hold hs hw st0 gs st a s : (forall b, 0 <= hs b /\ 0 <= hw b) -> owing owner hs hw st0 (GNode a s :: gs) st ->
  (forall n, node_at st !! a = Some n -> n_proc n = Some target) ->
  exists n st', node_at st !! a = Some n /\ binder_dec_node st a s false = Some st' /\ owing owner hs hw st0 gs st' /\ shrinks st st'.
Proof using.
  clear Hsup. intros Hpos Ho Hme. pose proof (ow_inv _ _ _ _ _ _ Ho) as Hi.
  assert (Hpos' : 0 < (if s then with_holds (GNode a s :: gs) true hs a else with_holds (GNode a s :: gs) false hw a)).
  { unfold with_holds. rewrite !owed_cons. pose proof (owed_nonneg (GNode a true) gs). pose proof (owed_nonneg (GNode a false) gs).
    specialize (Hpos a). destruct s; rewrite decide_True by done; lia. }
  destruct (node_at st !! a) as [n|] eqn:Hn.
  2: { destruct (iv_holds _ _ _ _ Hi a) as (_ & _ & H). destruct (H Hn). destruct s; lia. }
  pose proof (hold_dec_inv owner _ _ st a target n s Hi Hn (Hme n eq_refl) Hpos') as HX.
  destruct (dec_node_inv owner _ _ st a n s false Hn HX) as (st' & E & Hi' & Er & _).
  exists n, st'. split_and!; [done|done| |by eapply dec_node_shrinks]. split.
  - eapply refs_inv_ext; [exact Hi'|]. intros b. unfold hold, with_holds.
    destruct s; rewrite !owed_cons; repeat destruct (decide _); simplify_eq; lia.
  - intros r b. rewrite (ow_count _ _ _ _ _ _ Ho). rewrite owed_cons, decide_False by done. unfold rcount. by rewrite Er.
Qed.

Lemma ptr_unique hs hw st a b n m p : refs_inv owner hs hw st -> node_at st !! a = Some n -> node_at st !! b = Some m ->
  n_proc n = Some p -> n_proc m = Some p -> n_ptr n = n_ptr m -> a = b.
Proof using.
  clear. intros Hi Hn Hm Ep Ep' E. destruct (no_proc _ _ _ _ _ (iv_nodes _ _ _ _ Hi a n Hn) p Ep) as [pr Hpr].
  destruct (iv_trees _ _ _ _ Hi p pr Hpr) as (H1 & _). apply (key_unique _ _ _ H1 a b (n_ptr n)); unfold owned, proc_of, node_key.
  - by rewrite Hn; simpl; f_equal.
  - by rewrite Hm; simpl; f_equal.
  - by rewrite Hn.
  - by rewrite Hm; simpl; f_equal.
Qed.

Lemma release_object_spec hs hw w0 g gs w b fp : (forall a, 0 <= hs a /\ 0 <= hw a) ->
  owing owner hs hw (refs w0) (g :: gs) (refs w) -> parties (refs w) -> pending (refs w) fp g ->
  (b = true -> files_rel (files_of w0) (g :: gs) (files_of w)) ->
  exists w', release_object w target b fp = Some w' /\ owing owner hs hw (refs w0) gs (refs w') /\ shrinks (refs w) (refs w') /\
    (if b then files_rel (files_of w0) gs (files_of w') else files_of w' = files_of w).
Proof using.
  clear Hsup. intros Hpos Ho Hp Hpend Hf. unfold release_object. destruct g as [r s|a s|fd x].
  - destruct (release_ref _ _ _ _ _ _ _ _ Ho Hp Hpend) as (y & E & Hy). destruct Hpend as [Hty _].
    assert (Hf' : if b then files_rel (files_of w0) gs (files_of w) else files_of w = files_of w).
    { destruct b; [|done]. by apply (files_rel_fds _ (GRef r s :: gs)); [|apply Hf]. }
    rewrite Hty. destruct s; cbn -[binder_get_ref binder_dec_ref]; rewrite E; cbn [mbind option_bind];
      (destruct y as [r'|]; [destruct Hy as (st' & ret & -> & Ho' & Hs)|]); cbn [mbind option_bind]; by eexists.
  - assert (Hf' : if b then files_rel (files_of w0) gs (files_of w) else files_of w = files_of w).
    { destruct b; [|done]. by apply (files_rel_fds _ (GNode a s :: gs)); [|apply Hf]. }
    destruct Hpend as [Hty Hme]. destruct (release_hold _ _ _ _ _ _ _ Hpos Ho) as (n & st' & Hn & Ed & Ho' & Hs); [by intros; apply Hme|].
    destruct (pa_target _ Hp) as [pr Hpr]. destruct (Hme n Hn) as [Enp Eptr].
    assert (E : binder_get_node (refs w) target (fp_binder fp) = Some (Some a)).
    { destruct (get_node_spec owner _ _ _ target (fp_binder fp) pr (ow_inv _ _ _ _ _ _ Ho) Hpr) as [(a' & n' & E & Hn' & E1 & E2)|[_ Hno]].
      - by rewrite (ptr_unique _ _ _ a a' n n' target (ow_inv _ _ _ _ _ _ Ho) Hn Hn' Enp E1) by congruence.
      - by destruct (Hno a n Hn Enp). }
    rewrite Hty. destruct s; cbn -[binder_get_node binder_dec_node]; rewrite E; cbn [mbind option_bind]; rewrite Ed;
      cbn [mbind option_bind]; by eexists.
  - destruct Hpend as [Hty Hfd]. rewrite Hty.
    assert (Ho' : owing owner hs hw (refs w0) gs (refs w)).
    { destruct Ho as [H1 H2]. split.
      - eapply refs_inv_ext; [exact H1|]. intros c. unfold with_holds. rewrite !owed_cons, !decide_False by done. lia.
      - intros r s. rewrite H2, owed_cons, decide_False by done. done. }
    destruct b; cbn -[task_close_fd]; [|by eexists]. pose proof (close_owing _ _ _ _ _ (Hf eq_refl)) as Hc. rewrite Hfd.
    destruct (task_close_fd (files_of w !! target) fd) as [f' ?]. by eexists.
Qed.

Lemma release_objects_spec hs hw w0 b size data offs gs : (forall a, 0 <= hs a /\ 0 <= hw a) -> forall w,
  owing owner hs hw (refs w0) gs (refs w) -> parties (refs w) -> (b = true -> files_rel (files_of w0) gs (files_of w)) ->
  Forall2 (fun off g => bad_offset size off = false /\ exists fp, read_object data off = Some fp /\ pending (refs w) fp g) offs gs ->
  exists w', release_objects w target b size data offs = Some w' /\ owing owner hs hw (refs w0) [] (refs w') /\
    (if b then files_rel (files_of w0) [] (files_of w') else files_of w' = files_of w).
Proof using.
  clear Hsup. intros Hpos. revert gs. induction offs as [|off offs IH]; intros gs w Ho Hp Hf Hobj.
  { apply Forall2_nil_inv_l in Hobj as ->. exists w. split_and!; try done. destruct b; [by apply Hf|done]. }
  apply Forall2_cons_inv_l in Hobj as (g & gs' & (Hgood & fp & Hfp & Hpend) & Hobj & ->). cbn [release_objects]. rewrite Hgood, Hfp.
  cbn [mbind option_bind]. destruct (release_object_spec _ _ w0 g gs' w b fp Hpos Ho Hp Hpend Hf) as (w1 & -> & Ho1 & Hs & Hf1).
  cbn [mbind option_bind]. destruct (IH gs' w1 Ho1) as (w' & E & Ho' & Hf').
  - by apply (parties_around (refs w)); [apply Hs|].
  - by destruct b.
  - eapply Forall2_impl; [exact Hobj|]. intros o g' (H1 & fp' & H2 & H3). split; [done|]. exists fp'. split; [done|by eapply pending_shrinks].
  - exists w'. split_and!; try done. destruct b; [done|congruence].
Qed.

(** ** The transfer *)

(** What the transfer of the objects at [offs] relies on: nodes and references
    are in order, there is room for the counts, the offsets fit the size of the
    buffer and the objects do not overlap. *)
Record sendable (hs hw : Z -> Z) (w : world) (target_node : option Z) (size : Z) (data offs : list Z) : Prop := {
  se_inv : refs_inv owner hs hw (refs w);
  se_parties : parties (refs w);
  se_files f : files_of w !! target = Some f -> files_ok f;
  se_node a : target_node = Some a -> exists n, node_at (refs w) !! a = Some n /\ n_proc n = Some target;
  se_room : room hs hw (Z.of_nat (length offs) + 1) (refs w);
  se_size : 0 <= size < 4294967296 /\ size <= 4 * Z.of_nat (length data);
  se_offs : Forall (fun o => 0 <= o < 4294967296) offs;
  se_apart : ForallOrdPairs apart offs
}.

(** Nothing is owed. *)
Definition given_back (hs hw : Z -> Z) (w w' : world) : Prop :=
  refs_inv owner hs hw (refs w') /\ forall r s, rcount s (refs w') r = rcount s (refs w) r.

Definition files_back (w w' : world) : Prop :=
  (forall p, p <> target -> files_of w' !! p = files_of w !! p) /\
  match files_of w !! target, files_of w' !! target with Some f, Some f' => same_files f f' | None, None => True | _, _ => False end.

(** The receiver's strong handle is counted. *)
Definition counted (st : binder) (fp : flat_binder_object) : Prop :=
  exists r rf, ref_at st !! r = Some rf /\ r_proc rf = target /\ desc rf = fp_binder fp /\ 0 < strong rf.

(** The object at [off] is for the receiver what it was for the sender. *)
Definition delivered (w w' : world) (data data' : list Z) (off : Z) : Prop :=
  exists fp fp', read_object data off = Some fp /\ read_object data' off = Some fp' /\ fp_flags fp' = fp_flags fp /\
    ((exists a s, denotes (refs w') proc fp a s /\ denotes (refs w') target fp' a s /\
        (fp_type fp' = BINDER_TYPE_HANDLE -> counted (refs w') fp' \/ unbacked (refs w) fp)) \/
     (fp_type fp = BINDER_TYPE_FD /\ fp_type fp' = BINDER_TYPE_FD /\ exists file f, fget sup (fp_binder fp) = Some file /\
        files_of w' !! target = Some f /\ fd_at f !! fp_binder fp' = Some file)).

Lemma with_holds_nil s h a : with_holds [] s h a = h a.
Proof using. clear. unfold with_holds, owed. simpl. lia. Qed.

Lemma sendable_holding hs hw w tn size data offs : sendable hs hw w tn size data offs -> holding hs hw w [] w.
Proof using.
  clear Hsup. intros [Hi Hp Hf _ _ _ _ _]. split; [split|done|split].
  - eapply refs_inv_ext; [exact Hi|]. intros b. by rewrite !with_holds_nil.
  - intros r s. pose proof (rcount_nonneg _ _ _ _ s r Hi). unfold owed. simpl. lia.
  - done.
  - destruct (files_of w !! target) as [f|]; [|done]. specialize (Hf f eq_refl). split; simpl; try done; [constructor|set_solver..|].
    by rewrite (left_id_L ∅ (∪)).
Qed.

Lemma holding_given_back hs hw w w' : owing owner hs hw (refs w) [] (refs w') -> given_back hs hw w w'.
Proof using.
  clear. intros [Hi Hc]. split.
  - eapply refs_inv_ext; [exact Hi|]. intros b. by rewrite !with_holds_nil.
  - intros r s. rewrite Hc. pose proof (rcount_nonneg _ _ _ _ s r Hi). unfold owed. simpl. lia.
Qed.

Lemma files_rel_back w w' : files_rel (files_of w) [] (files_of w') -> files_back w w'.
Proof using.
  clear. intros [H1 H2]. split; [done|]. destruct (files_of w !! target) as [f0|], (files_of w' !! target) as [f|]; try done.
  destruct H2 as [_ _ _ _ Ho He Ha]. simpl in *. split_and!; [by rewrite Ho, (left_id_L ∅ (∪))|by rewrite He, (left_id_L ∅ (∪))|].
  by rewrite Ha, (left_id_L ∅ (∪)).
Qed.

Definition first_grant (target_node : option Z) : list grant := match target_node with Some a => [GNode a true] | None => [] end.

(** The hold of the transaction on the node it is for. *)
Lemma hold_target hs hw w tn size data offs : sendable hs hw w tn size data offs ->
  exists w1, match tn with None => Some w
    | Some a => '(st, _) ← binder_inc_node (refs w) a true false None; Some (set_store w st) end = Some w1 /\
    holding hs hw w (first_grant tn) w1 /\ later (refs w) (refs w1) /\
    room (with_holds (first_grant tn) true hs) (with_holds (first_grant tn) false hw) (Z.of_nat (length offs)) (refs w1).
Proof using.
  clear Hsup. intros H. pose proof (sendable_holding _ _ _ _ _ _ _ H) as Hh. pose proof (se_room _ _ _ _ _ _ _ H) as Hr.
  assert (Hr0 : forall k, k <= Z.of_nat (length offs) + 1 -> room (with_holds [] true hs) (with_holds [] false hw) k (refs w)).
  { intros k Hk. destruct Hr as [H1 H2 H3]. split; [lia|intros r s; specialize (H2 r s); lia|]. intros a. rewrite !with_holds_nil. specialize (H3 a). lia. }
  destruct tn as [a|]; simpl; [|exists w; split_and!; [done..|apply Hr0; lia]].
  destruct (se_node _ _ _ _ _ _ _ H a eq_refl) as (n & Hn & Enp).
  destruct (grant_node hs hw (refs w) [] (refs w) a n true (hd_owing _ _ _ _ _ Hh)) as (st' & ret & -> & Ho & Hext); [apply Hr0; lia|done|done|].
  cbn [mbind option_bind]. eexists. split; [done|]. split; [split|split].
  - done.
  - by apply (parties_around (refs w)); [apply Hext|apply H].
  - by apply (files_rel_fds _ []); [|apply Hh].
  - by apply extends_later.
  - eapply (room_step _ _ _ _ _ (refs w)); [by apply Hr0|done|]. intros b. split; apply (with_holds_snoc []).
Qed.

Lemma buffer_release_spec hs hw w w1 tn size data offs gs fa :
  (forall a, 0 <= hs a /\ 0 <= hw a) -> holding hs hw w (first_grant tn ++ gs) w1 ->
  (forall a n, tn = Some a -> node_at (refs w1) !! a = Some n -> n_proc n = Some target) ->
  Forall2 (fun off g => bad_offset size off = false /\ exists fp, read_object data off = Some fp /\ granted (refs w1) fp g)
    (match fa with Some i => take i offs | None => offs end) gs ->
  exists w', binder_transaction_buffer_release w1 target tn size data offs fa = Some w' /\ given_back hs hw w w' /\
    match fa with Some _ => files_back w w' | None => files_of w' = files_of w1 end.
Proof using.
  clear Hsup. intros Hpos Hh Htn Hobj. unfold binder_transaction_buffer_release.
  assert (Hobj' : Forall2 (fun off g => bad_offset size off = false /\ exists fp, read_object data off = Some fp /\ pending (refs w1) fp g)
    (match fa with Some i => take i offs | None => offs end) gs).
  { eapply Forall2_impl; [exact Hobj|]. intros o g (H1 & fp & H2 & H3). split; [done|]. exists fp. split; [done|].
    eapply granted_pending; [apply Hh|done]. }
  assert (Hstart : exists w2, match tn with None => Some w1 | Some a => st ← binder_dec_node (refs w1) a true false; Some (set_store w1 st) end = Some w2 /\
    owing owner hs hw (refs w) gs (refs w2) /\ shrinks (refs w1) (refs w2) /\ files_of w2 = files_of w1).
  { destruct tn as [a|]; [|exists w1; split_and!; [done|apply Hh|done|done]].
    destruct (release_hold hs hw (refs w) gs (refs w1) a true Hpos (hd_owing _ _ _ _ _ Hh)) as (n & st' & _ & -> & Ho & Hs); [by intros; eapply Htn|].
    by eexists. }
  destruct Hstart as (w2 & -> & Ho & Hs & Ef). cbn [mbind option_bind].
  assert (Hp : parties (refs w2)) by (apply (parties_around (refs w1)); [apply Hs|apply Hh]).
  assert (Hf : files_rel (files_of w) gs (files_of w2)).
  { rewrite Ef. apply (files_rel_fds _ (first_grant tn ++ gs)); [by destruct tn|apply Hh]. }
  assert (Hobj2 : Forall2 (fun off g => bad_offset size off = false /\ exists fp, read_object data off = Some fp /\ pending (refs w2) fp g)
    (match fa with Some i => take i offs | None => offs end) gs).
  { eapply Forall2_impl; [exact Hobj'|]. intros o g (H1 & fp & H2 & H3). split; [done|]. exists fp. split; [done|by eapply pending_shrinks]. }
  destruct fa as [i|].
  - destruct (release_objects_spec hs hw w true size data _ gs Hpos w2 Ho Hp (fun _ => Hf) Hobj2) as (w' & -> & Ho' & Hf').
    exists w'. split_and!; [done|by apply holding_given_back|by apply files_rel_back].
  - destruct (release_objects_spec hs hw w false size data _ gs Hpos w2 Ho Hp ltac:(done) Hobj2) as (w' & -> & Ho' & Hf').
    exists w'. split_and!; [done|by apply holding_given_back|congruence].
Qed.

Lemma moved_granted st st' size data data' offs gs : Forall (fun o => bad_offset size o = false) offs ->
  Forall2 (moved st st' data data') offs gs ->
  Forall2 (fun off g => bad_offset size off = false /\ exists fp, read_object data' off = Some fp /\ granted st' fp g) offs gs.
Proof using.
  clear. intros Hg. induction 1 as [|o g offs gs (fp & fp' & _ & H2 & H3 & _) _ IH]; [constructor|].
  apply Forall_cons in Hg as [H Hg]. constructor; [|by apply IH]. split; [done|]. by exists fp'.
Qed.

Lemma moved_delivered hs hw w w' tn gs data data' off g : holding hs hw w (first_grant tn ++ gs) w' -> g ∈ gs -> forall st,
  later (refs w) st -> refs_inv owner hs hw (refs w) ->
  moved st (refs w') data data' off g -> delivered w w' data data' off.
Proof using.
  clear Hsup. intros Hh Hg st Hlat Hi (fp & fp' & H1 & H2 & H3 & H4). apply (carried_before hs hw (refs w)) in H4; [|done|done].
  exists fp, fp'. destruct H4 as (Hfl & Hm & Hb). split_and!; [done|done|done|]. destruct g as [r s|a s|fd file].
  - left. destruct Hm as (a & s' & Hd & Hd'). exists a, s'. split_and!; [done|done|]. intros Hty. destruct H3 as (Hty' & rf & b & Hr & Erid).
    assert (s = true) as -> by (rewrite Hty in Hty'; by destruct s). destruct (Hb r eq_refl) as [Hpos|]; [left|by right].
    injection Erid as E1 E2 E3. exists r, rf. unfold rcount in Hpos. by rewrite Hr in Hpos.
  - left. destruct Hm as (a' & s' & Hd & Hd'). exists a', s'. split_and!; [done|done|]. intros Hty. destruct H3 as (Hty' & _).
    rewrite Hty in Hty'. by destruct s.
  - right. destruct Hm as [Hty Hget]. destruct H3 as [Hty' <-]. split_and!; [done|done|].
    assert (Hin : (fp_binder fp', file) ∈ fds (first_grant tn ++ gs)).
    { unfold fds. apply list_elem_of_omap. exists (GFd (fp_binder fp') file). split; [apply elem_of_app; by right|done]. }
    destruct (hd_files _ _ _ _ _ Hh) as [_ Hf]. destruct (files_of w !! target) as [f0|], (files_of w' !! target) as [f|] eqn:Ef; try done.
    + exists file, f. split_and!; [done|done|]. destruct Hf as [_ _ Hnd _ _ _ ->]. apply lookup_union_Some_l.
      by apply elem_of_list_to_map_1.
    + rewrite Hf in Hin. by apply not_elem_of_nil in Hin.
Qed.

Lemma transfer_spec hs hw w tn flags copied size data osize offs : sendable hs hw w tn size data offs ->
  exists res, transfer_objects sup w proc target todo tn flags copied size data osize offs = Some res /\
    match res with
    | Refused w' _ => given_back hs hw w w' /\ files_back w w'
    | Sent w' data' => length data' = length data /\ Forall (delivered w w' data data') offs /\
        (forall k, outside offs k -> data' !! k = data !! k) /\
        exists w2, binder_transaction_buffer_release w' target tn size data' offs None = Some w2 /\ given_back hs hw w w2 /\
          files_of w2 = files_of w'
    end.
Proof using Hsup.
  intros H. pose proof (se_inv _ _ _ _ _ _ _ H) as Hi. destruct (hold_target hs hw w tn size data offs H) as (w1 & E & Hh1 & Hlat1 & Hroom).
  assert (Hpos : forall a, 0 <= hs a /\ 0 <= hw a).
  { intros a. destruct (iv_holds _ _ _ _ Hi a) as (? & ? & _). lia. }
  assert (Htn : forall st, later (refs w) st -> forall a n, tn = Some a -> node_at st !! a = Some n -> n_proc n = Some target).
  { intros st [[_ G _] _] a n Ea Hn. destruct (se_node _ _ _ _ _ _ _ H a Ea) as (n0 & Hn0 & E0). destruct (G a n0 Hn0) as (n' & Hn' & E').
    injection E' as E1 _ _. congruence. }
  unfold transfer_objects. rewrite E. cbn [mbind option_bind]. set (allowed := match flags with Some _ => _ | None => _ end).
  assert (Hfail : forall w2 data2 i e gs, holding hs hw w (first_grant tn ++ gs) w2 -> later (refs w) (refs w2) ->
    Forall2 (fun off g => bad_offset size off = false /\ exists fp, read_object data2 off = Some fp /\ granted (refs w2) fp g) (take i offs) gs ->
    exists res, (w ← binder_transaction_buffer_release w2 target tn size data2 offs (Some i); Some (Refused w e)) = Some res /\
      match res with Refused w' _ => given_back hs hw w w' /\ files_back w w' | Sent _ _ => False end).
  { intros w2 data2 i e gs Hh Hl Hobj. destruct (buffer_release_spec hs hw w w2 tn size data2 offs gs (Some i) Hpos Hh (Htn _ Hl) Hobj) as (w' & -> & Hw').
    cbn [mbind option_bind]. by eexists. }
  destruct copied; cbn [negb]; cbn [mbind option_bind].
  2: { destruct (Hfail w1 data O failed []) as (res & -> & Hres); [by rewrite app_nil_r|done|constructor|]. exists res. split; [done|by destruct res]. }
  destruct (_ =? 0); cbn [negb]; cbn [mbind option_bind].
  2: { destruct (Hfail w1 data O failed []) as (res & -> & Hres); [by rewrite app_nil_r|done|constructor|]. exists res. split; [done|by destruct res]. }
  destruct (se_size _ _ _ _ _ _ _ H) as [Hs1 Hs2].
  destruct (translate_spec hs hw w allowed size offs Hs1 (first_grant tn) w1 data O Hs2 (se_offs _ _ _ _ _ _ _ H) (se_apart _ _ _ _ _ _ _ H) Hh1 Hroom)
    as (w2 & data' & err & n & gs & -> & Herr & Hh2 & Hlat2 & Hlen & Hmv & Hgood & Hout). cbn [mbind option_bind].
  assert (Hl2 : later (refs w) (refs w2)) by by etrans. pose proof (moved_granted _ _ _ _ _ _ _ Hgood Hmv) as Hobj.
  destruct err as [[j e]|].
  - simpl in Herr. subst j. destruct (Hfail w2 data' n e gs Hh2 Hl2 Hobj) as (res & -> & Hres). exists res. split; [done|by destruct res].
  - subst n. rewrite take_ge in * by done. eexists. split; [done|]. simpl. split_and!; [done| |done|].
    + apply Forall_lookup. intros j off Hj. destruct (Forall2_lookup_l _ _ _ _ _ Hmv Hj) as (g & Hg & Hm).
      eapply moved_delivered; [exact Hh2|by eapply list_elem_of_lookup_2|exact Hlat1|exact Hi|exact Hm].
    + by apply (buffer_release_spec hs hw w w2 tn size data' offs gs None Hpos Hh2 (Htn _ Hl2) Hobj).
Qed.

End Transfer.

(** ** The theorems *)


(** What the transfer of the objects took is given back: when it fails,
    the counts of all references, the holds on all nodes and the open files of
    all processes are what they were; when it succeeds and the receiver frees
    the buffer, the counts and holds are, while the receiver keeps the files. *)
Lemma transfer_gives_back (owner : Z -> Z) (sup : supply) (proc target todo : Z) (hs hw : Z -> Z) (w : world)
    (target_node flags : option Z) (copied : bool) (size : Z) (data : list Z) (osize : Z) (offs : list Z) (res : transfer)
    (Hsup : supply_ok sup) (H : sendable owner proc target todo hs hw w target_node size data offs)
    (E : transfer_objects sup w proc target todo target_node flags copied size data osize offs = Some res) :
  match res with
  | Refused w' _ => given_back owner hs hw w w' /\ files_back target w w'
  | Sent w' data' => exists w2, binder_transaction_buffer_release w' target target_node size data' offs None = Some w2 /\
      given_back owner hs hw w w2 /\ files_of w2 = files_of w'
  end.
Proof.
  destruct (transfer_spec owner sup Hsup proc target todo hs hw w target_node flags copied size data osize offs H) as (res' & E' & Hres).
  rewrite E in E'. injection E' as <-. destruct res; [by destruct Hres as (_ & _ & _ & ?)|done].
Qed.

(** ** An example

    Process 2 calls node 100 of process 1, with its own node 101, the handle 0
    of node 100 and the file 70 in the data. *)

Import BinderWorld.

(** Memory above all that is in use. *)
Definition above {A} (m : gmap Z A) : Z := 1 + foldr Z.max 0 (map_to_list m).*1.

Lemma above_fresh {A} (m : gmap Z A) : m !! above m = None /\ above m <> 0.
Proof.
  assert (H : forall l x, x ∈ l -> x <= foldr Z.max 0 l).
  { induction l as [|y l IH]; intros x; [by intros ?%not_elem_of_nil|]. simpl. intros [->|Hx%IH]%elem_of_cons; lia. }
  assert (H0 : forall l, 0 <= foldr Z.max 0 l) by (induction l; simpl; lia).
  unfold above. split; [|specialize (H0 (map_to_list m).*1); lia]. apply eq_None_not_Some. intros [x Hx%elem_of_map_to_list].
  apply (list_elem_of_fmap_2 fst) in Hx. apply H in Hx. simpl in Hx. lia.
Qed.

Definition demo_supply : supply :=
  mk_supply (fun st => Some (above (node_at st))) (fun st => Some (above (ref_at st)))
    (fun fd => if fd =? 3 then Some 70 else None) (mk_limits 1024 1048576 true) 1024.

Lemma demo_supply_ok : supply_ok demo_supply.
Proof.
  split; [| |done].
  - intros st a [= <-]. apply above_fresh.
  - intros st r [= <-]. apply above_fresh.
Qed.

Definition demo_world : world := mk_world demo8 {[100]} {[1 := mk_files {[0]} ∅ {[0 := 60]} 32 1]}.

Definition demo_data : list Z :=
  [BINDER_TYPE_BINDER; 0; 5; 6; 999; BINDER_TYPE_HANDLE; 0; 0; 0; BINDER_TYPE_FD; 0; 3; 0].

(** The last object is not an object. *)
Definition demo_bad : list Z := demo_data ++ [1; 2; 3; 4].

Lemma demo_room (offs : list Z) : (length offs <= 4)%nat -> room none none (Z.of_nat (length offs) + 1) demo8.
Proof.
  intros Hl. assert (Hall : map_Forall (fun _ rf => strong rf < 1000 /\ weak rf < 1000) (ref_at demo8)).
  { apply (bool_decide_unpack _). by vm_compute. }
  split.
  - assert (size (ref_at demo8) = 2%nat) as -> by by vm_compute. lia.
  - intros r s. unfold rcount. destruct (ref_at demo8 !! r) as [rf|] eqn:E; [|lia]. destruct (Hall r rf E). destruct s; lia.
  - intros a. unfold none, ctx_hold, b2z. case_bool_decide; lia.
Qed.

Lemma demo_sendable (data offs : list Z) : (length offs <= 4)%nat -> (4 <= length data < 1000)%nat ->
  Forall (fun o => 0 <= o < 4294967296) offs -> ForallOrdPairs apart offs ->
  sendable demo_owner 2 1 20 none none demo_world (Some 100) (4 * Z.of_nat (length data)) data offs.
Proof.
  intros Hl Hd Ho Ha. split; [| | | | | |exact Ho|exact Ha].
  - apply reachable_refs_inv, demo8_reachable.
  - split; [vm_compute; by eexists..|]. split_and!; [vm_compute; by eexists|done|].
    assert (Hall : map_Forall (fun _ pr => delivered_death pr <> 20) (proc_at demo8)).
    { apply (bool_decide_unpack _). by vm_compute. }
    exact Hall.
  - intros f Hf. assert (f = mk_files {[0]} ∅ {[0 := 60]} 32 1) as -> by (by injection Hf as <-). split; simpl; try done; try lia.
    + intros i ->%elem_of_singleton. lia.
    + intros i Hi. assert (i = 0) as -> by lia. set_solver.
    + intros i x [<- _]%lookup_singleton_Some. set_solver.
  - intros a [= <-]. eexists. by vm_compute.
  - by apply demo_room.
  - lia.
Qed.

(** Process 2 has node 101, process 1 a weak reference 201 to it, and process 3
    nothing. *)
Definition tens (h : Z) : Z := h / 10.
Definition weak1 : binder := demo_run (Open (Some (1, 10, 11))) binder_init_state.
Definition weak2 : binder := demo_run (Open (Some (2, 20, 21))) weak1.
Definition weak3 : binder := demo_run (Open (Some (3, 30, 31))) weak2.
Definition weak4 : binder := demo_run (NewNode (Some 101) 2 5 6) weak3.
Definition weak5 : binder := demo_run (GetRef (Some 201) 1 101) weak4.
Definition weak6 : binder := demo_run (IncRef 201 false (Some 20)) weak5.

Lemma weak_step (st : binder) (o : op) :
  reachable tens none none st -> match o with Hold _ _ _ | Unhold _ _ | Release _ _ => False | _ => True end ->
  allowed tens none none st o -> exec o st <> None -> reachable tens none none (demo_run o st).
Proof.
  intros H Ho Ha Hx. unfold demo_run. destruct (exec o st) as [st'|] eqn:E; [|done]. simpl.
  pose proof (reach_step tens none none st st' o H Ha E) as Hr. by destruct o.
Qed.

Lemma weak3_reachable : reachable tens none none weak3.
Proof.
  apply weak_step; [|done|intros p h h' [= <- <- <-]; by vm_compute|by vm_compute].
  apply weak_step; [|done|intros p h h' [= <- <- <-]; by vm_compute|by vm_compute].
  apply weak_step; [|done|intros p h h' [= <- <- <-]; by vm_compute|by vm_compute]. apply reach_init.
Qed.

Lemma weak5_reachable : reachable tens none none weak5.
Proof.
  apply weak_step; [|done|split; [vm_compute; by eexists|]; split; [vm_compute; by eexists|by intros r [= <-]]|by vm_compute].
  apply weak_step; [|done|split; [vm_compute; by eexists|by intros a [= <-]]|by vm_compute]. apply weak3_reachable.
Qed.

Lemma weak6_reachable : reachable tens none none weak6.
Proof.
  apply weak_step; [apply weak5_reachable|done| |by vm_compute]. split.
  - assert (Hall : map_Forall (fun _ rf => strong rf < 2147483647 /\ weak rf < 2147483647) (ref_at weak5)).
    { apply (bool_decide_unpack _). by vm_compute. }
    exact Hall.
  - exists (mk_ref 1 101 1 0 0 None), (mk_node (Some 2) [201] 0 0 0 5 6 false false false false None).
    split; [by vm_compute|]. split; [by vm_compute|]. intros h [= <-]. split; [vm_compute; by eexists|]. split; [done|].
    assert (Hall : map_Forall (fun _ pr => delivered_death pr <> 20) (proc_at weak5)).
    { apply (bool_decide_unpack _). by vm_compute. }
    exact Hall.
Qed.

(** A process that has only a weak reference can send it as a strong
    handle: the increment of the receiver's reference is refused, which is
    ignored, and the receiver is given a strong handle without a count.  When
    the owner then sends the receiver the node, and the receiver frees the
    first buffer, the count and the reference that the second buffer holds are
    gone. *)
Lemma weak_handle_sent_strong : exists w1 w2 w3 fp1 fp2,
  reachable tens none none weak6 /\ rcount true weak6 201 = 0 /\
  translate_handle demo_supply (mk_world weak6 ∅ ∅) 1 3 (mk_object BINDER_TYPE_HANDLE 0 1 0) = Some (Ok w1 fp1) /\
  fp1 = mk_object BINDER_TYPE_HANDLE 0 1 0 /\ binder_get_ref (refs w1) 3 1 = Some (Some 202) /\ rcount true (refs w1) 202 = 0 /\
  translate_binder demo_supply w1 2 3 20 (mk_object BINDER_TYPE_BINDER 0 5 6) = Some (Ok w2 fp2) /\
  fp2 = mk_object BINDER_TYPE_HANDLE 0 1 6 /\ rcount true (refs w2) 202 = 1 /\
  release_object w2 3 false fp1 = Some w3 /\ rcount true (refs w3) 202 = 0 /\ binder_get_ref (refs w3) 3 1 = Some None.
Proof.
  eexists _, _, _, _, _. split; [exact weak6_reachable|]. split; [by vm_compute|]. split; [vm_compute; reflexivity|].
  split; [done|]. split; [by vm_compute|]. split; [by vm_compute|]. split; [vm_compute; reflexivity|]. split; [done|].
  split; [by vm_compute|]. split; [vm_compute; reflexivity|]. split; by vm_compute.
Qed.


End BinderTransfer.
